(* ===== verification/_CoqProject ===== *)
-Q . S2P
Prelude.v
Serialize.v
Amounts.v
ArithUint256.v
Chain.v
Pow.v
Merkle.v
Script.v
Rlp.v
Transaction.v
AuxPow.v
Coins.v
Undo.v
TxVerify.v
Interpreter.v
SoftForks.v
ScriptSafety.v
SigHash.v
KeyHash.v
Bridge.v
AssetConsensus.v
Supply.v
ConnectBlock.v
ScriptPolicy.v
Replay.v
Js.v
JsRegExp.v
JsCaptures.v
LodashLang.v
LodashArrays.v
LodashCaches.v
LodashSets.v
LodashLists.v
LodashFlatten.v
LodashPull.v
LodashSort.v
LodashTimers.v
LodashWrap.v
LodashEqual.v
LodashLazy.v
LodashStrings.v
LodashPaths.v
LodashObjects.v
