(* ===== verification/Prelude.v ===== *)
(** * A verification development for Syscoin Core

    The program is a Bitcoin-derived node in C++ (consensus code under [src/src]) whose
    tree also carries bundled JavaScript (under [src/src/immer/extra/js/lib]).  This
    library models the consensus core and the main one of those scripts, lodash.js, as
    Rocq functions, and proves what makes them correct.

    ** The consensus core (C++)

    Bytes flow through it as follows.  Streams are decoded into transactions and blocks;
    a header enters the block index, where its proof of work, its link to its parent and
    its cumulative work are computed; the branch with the most work becomes the active
    chain.  Merge-mined headers carry a proof of work of another chain.  The transactions of
    a block are checked against the coins, which are kept in a stack of caches over a
    database, and applied to them; a block that leaves the active chain is undone.  Mints
    bring assets over from the NEVM chain with a proof of a transaction there, which is
    remembered in a database of its own.  A node that stopped while it wrote finds out at
    the next start and finishes.

    - [Prelude]: results and machine integers, bit operations, little-endian bytes, the
      tactics and hints the other files use.
    - [Serialize] (serialize.h, uint256.h): fixed-width integers, CompactSize, VarInt,
      vectors and the classes [RoundTrip] and [Codec] of formats.  They read back what they
      wrote and accept only the shortest encoding.
    - [Amounts] (consensus/amount.h, amount compression of primitives/transaction.cpp):
      compression is lossless on all money amounts.
    - [ArithUint256] (arith_uint256.h, arith_uint256.cpp): the limb operations compute on
      256-bit integers modulo 2^256; division; the compact format of targets.
    - [Chain] (chain.h, chain.cpp, node/blockstorage.cpp): [CBlockIndex] entries in a map
      by hash, the skip list, [AddToBlockIndex], the active chain, locators.  In every
      index that accepting headers builds (reading one from disk is not modelled), the skip list finds the ancestor that following
      [pprev] finds, the cumulative work is the sum over the branch, and the best header
      has the most work.
    - [Pow] (pow.cpp, consensus/params.h, kernel/chainparams.cpp): retargeting in exact
      arithmetic; the computed difficulty is one the header pre-sync check permits.
    - [Merkle] (consensus/merkle.cpp): equal roots of unmutated lists mean equal lists, and an
      accepted branch proves its leaf, or pairs that were hashed collide or a leaf is the hash
      of a pair.
    - [Script] (script/script.h, script/script.cpp): instructions, pushes, numbers,
      templates and signature-operation counts.
    - [Transaction] (primitives/transaction.h, primitives/transaction.cpp): the wire
      format with witnesses, assets and data-availability blobs, ids, totals, payloads.
    - [AuxPow] (auxpow.cpp, primitives/pureheader.cpp, primitives/block.h, validation.cpp):
      the version field, headers, blocks and the auxiliary proof of work, which cannot be
      used for two headers.
    - [Rlp] (nevm/rlp.h, nevm/rlp.cpp): the reader and the writer of the format of the NEVM;
      the strict reader accepts one encoding per tree.
    - [Coins] (coins.h, coins.cpp, txdb.cpp, validation.cpp): coins, caches with their dirty
      and fresh flags, the database, [UpdateCoins] and [DisconnectBlock].  A chain of caches
      refines a stack of finite maps.
    - [Undo] (undo.h, primitives/transaction.cpp, coins.h, node/blockstorage.cpp): the format
      of coins and of undo data, with shortened scripts and amounts, and the records of the
      undo file.  What is written is read back, for the outputs that the format keeps.
    - [TxVerify] (consensus/tx_check.cpp, consensus/tx_verify.cpp): the checks of a
      transaction, relative lock times and the cost of signature operations.
    - [Interpreter] (script/interpreter.cpp, script/interpreter.h): the stack machine with all
      its operations, witness programs of version 0 and Taproot, and [VerifyScript].
      [SoftForks]: what is accepted under more flags is accepted under fewer.  [ScriptSafety]:
      the machine keeps its limits and fails no assertion.  [KeyHash]: which witnesses spend
      an output that pays to the hash of a key.
    - [SigHash] (script/interpreter.cpp, script/sigcache.cpp, pubkey.h): the signature hashes,
      the checker of an input and the cache of signatures.  A signature for all of a
      transaction commits to it, assets included; kept hashes and cached signatures change no
      answer.
    - [Bridge] (nevm/nevm.cpp, services/assetconsensus.cpp): Merkle-Patricia proofs, the
      databases of roots and of minted transactions, and the check of a mint.  A proof binds
      its value, and where a mint points determines what it claims.
    - [AssetConsensus], [Supply] (services/assetconsensus.cpp): the rules of asset
      transactions, and what an accepted transaction does to the total of every asset.
    - [ConnectBlock] (validation.cpp): [CheckBlock], [CheckInputScripts] and [ConnectBlock],
      which compose the files above.  Connecting a block fails no assertion of its own, keeps
      the set of coins well formed, creates only what the coinbase pays and the mints prove, and
      is undone by disconnecting with the undo data from disk; the queue of script checks
      accepts what checking in place does.
    - [ScriptPolicy] (validation.cpp, policy/policy.h): the check of an input by the
      interpreter, the flags of a block, and the script checks of the memory pool.  A check
      fails no assertion, what the pool has accepted passes under the flags of any tip, and in
      a connected block a coin of a native witness key hash output was spent with a signature
      of that key.
    - [Replay] (validation.cpp, txdb.cpp): [ReplayBlocks], and the order of the writes to the
      database of coins and to that of mints.  A flush that was cut off anywhere, the first one
      included, is finished,
      and no NEVM transaction is minted from twice, whenever the node stops.

    Integers are [Z] with their width written out where the code wraps.  An exception, a
    failed [assert] or a followed null pointer is a value of the result type.  Hash
    functions are parameters; what a theorem needs of them is a hypothesis of it, or a
    collision of strings that were hashed is an alternative in its conclusion.  The classes
    [Interpreter.Crypto] and [SigHash.SignatureScheme] hold those of the interpreter and the
    verification of signatures, and [ScriptSafety.CryptoSizes] the sizes of the digests.
    [ConnectBlock] takes the check of an input as a parameter, which [ScriptPolicy] gives.
    Parameters are also what the caches of signatures and of script executions forget, whether
    a public key is a point of the curve and which one a shortened key is, the address of a
    script, the check of a signet solution, what is read from block files, and, in the records
    [ConnectBlock.Others] and [Replay.Replayers], the answers of the parts of validation that
    are not modelled and do not write coins; those of [Others] may be a refusal, a fatal error
    or an exception.

    ** lodash.js

    - [Js]: the values, numbers (IEEE doubles), strings, conversions and operators of the
      language, and a monad of user state and exceptions for code that calls back.
      [JsRegExp]: regular expressions with backtracking; [JsCaptures]: those with groups
      that are captured and referred back to, and with a look ahead.
    - [LodashLang], [LodashArrays]: conversions, comparisons, and the loops over arrays.
    - [LodashCaches]: [Hash], [ListCache], [MapCache], [SetCache] and [Stack] implement
      the class [MapLike], a finite map under SameValueZero.
    - [LodashSets], [LodashLists], [LodashFlatten], [LodashPull], [LodashSort]: the array
      functions against plain list functions: sets, slices, nesting, removal in place,
      stable sorting and binary search.
    - [LodashTimers]: [debounce] and [throttle] as a state machine over a clock and a
      queue of timers: which calls are invoked, how far apart, and that pending calls are
      invoked; [after], [before], [memoize].  The clock does not go back.
    - [LodashWrap]: partial application, binding and currying with placeholders and
      merged metadata.
    - [LodashEqual]: deep comparison over a heap with cycles.
    - [LodashLazy]: chains of array methods; when the lazy single pass agrees with the
      methods run one by one, and where it does not.
    - [LodashStrings]: escaping, symbols, padding, trimming, splitting, truncating.
    - [LodashPaths]: reading a property path from a string, the inverse of writing one.
      [LodashObjects]: [get], [set], [has], [unset] and their relatives over a store of
      objects that are shared and inherit from prototypes: what is set is found, what is
      unset is gone, and where [set] writes a prototype and [has] answers for a hole.

    An object is a reference; what converting it to a primitive gives is the class
    [JsHost].  A callback is a computation over an arbitrary user state that may throw.

    ** Bounds

    Loops whose recursion is not structural carry fuel.  The theorems either give enough
    of it (the length of a script for the interpreter, the height of a block for the walks of [Chain] and for rolling back in [Replay],
    the number of outputs a block can have for [Coins.AccessByTxid], the bit length for division,
    the length of the string or array for the loops of lodash, the number of objects for a walk
    along prototypes) or hold for all amounts.
    Where the recursion of the code follows references, [LodashEqual.baseIsEqual] and
    [LodashFlatten.baseFlatten] take the depth of the call stack, and running out of it
    is an answer of the model.

    ** Not modelled

    In C++: the verification of a signature under a key, which the vendored secp256k1 does; the
    memory pool and its policy but for the checks of scripts; the contextual checks of headers and the choice of the active chain; masternodes, quorums,
    ChainLocks, governance and payments; the connection of NEVM blocks, which another
    process does, and data availability; files of blocks and the allocation of files, networking, wallet, RPC and the Qt
    interface; and the vendored libraries.  In JavaScript: the lodash functions that
    enumerate properties, clone or merge objects, the iteratee shorthands, the mixins and
    [template], which compiles source text; benchmark.js and platform.js, which drive and
    inspect the host; mori.js, which is compiler output. *)

From stdpp Require Export prelude fin_maps gmap list.
From Stdlib Require Export ZArith Lia.

#[global] Open Scope Z_scope.

(** ** Results: C++ code that may throw *)

Inductive result (E A : Type) : Type :=
| Ok (a : A)
| Throw (e : E).

Arguments Ok {E A} a.
Arguments Throw {E A} e.

#[export] Instance result_ret {E} : MRet (result E) := fun _ a => Ok a.
#[export] Instance result_bind {E} : MBind (result E) := fun A B k m =>
  match m with
  | Ok a => k a
  | Throw e => Throw e
  end.

Declare Scope syscoin_scope.
Delimit Scope syscoin_scope with sys.
Notation "'guard!' b 'else' e ; k" := (if b then k else Throw e)
  (at level 20, b at level 100, e at level 100, k at level 200, right associativity) : syscoin_scope.
#[global] Open Scope syscoin_scope.

Definition is_ok {E A} (r : result E A) : bool :=
  match r with
  | Ok _ => true
  | Throw _ => false
  end.

Lemma bind_ok {E A B} (m : result E A) (k : A -> result E B) (b : B) :
  mbind k m = Ok b <-> exists a, m = Ok a /\ k a = Ok b.
Proof.
  destruct m as [a|e]; cbn; split; intros; simplify_eq; eauto.
  - by destruct H as (? & [= <-] & ?).
  - by destruct H as (? & ? & ?).
Qed.

(** ** Machine integers as [Z] with their width written out *)

Definition in_u (w x : Z) : Prop := 0 <= x < 2 ^ w.
Definition in_ub (w x : Z) : bool := (0 <=? x) && (x <? 2 ^ w).
Definition wrapu (w x : Z) : Z := x mod 2 ^ w.
Definition wraps (w x : Z) : Z := (x + 2 ^ (w - 1)) mod 2 ^ w - 2 ^ (w - 1).
Definition in_s (w x : Z) : Prop := - 2 ^ (w - 1) <= x < 2 ^ (w - 1).

Abbreviation is_byte := (in_u 8).
Abbreviation bytes := (list Z).
(** A 256-bit hash, as its 32 bytes. *)
Abbreviation uint256 := (list Z).

(** Two byte strings with the same hash, one of [P] and one of [Q]. *)
Definition collide (h : bytes -> bytes) (P Q : bytes -> Prop) : Prop := exists x y, P x /\ Q y /\ x <> y /\ h x = h y.

Lemma hash_inj (h : bytes -> bytes) (P Q : bytes -> Prop) x y : P x -> Q y -> h x = h y -> x = y \/ collide h P Q.
Proof. intros. destruct (decide (x = y)) as [|Hne]; [by left|right]. by exists x, y. Qed.

Lemma collide_mono h (P P' Q Q' : bytes -> Prop) :
  (forall x, P x -> P' x) -> (forall x, Q x -> Q' x) -> collide h P Q -> collide h P' Q'.
Proof. intros HP HQ (x & y & Hx & Hy & ? & ?). exists x, y. auto. Qed.

Lemma in_ub_spec w x : in_ub w x = true <-> in_u w x.
Proof. unfold in_ub, in_u. lia. Qed.

Lemma wrapu_id w x : in_u w x -> wrapu w x = x.
Proof. apply Z.mod_small. Qed.

Lemma wrapu_in w x : 0 <= w -> in_u w (wrapu w x).
Proof. intros. apply Z.mod_pos_bound. lia. Qed.

Lemma wraps_id w x : 0 < w -> in_s w x -> wraps w x = x.
Proof.
  unfold in_s, wraps. intros Hw Hx.
  assert (2 ^ w = 2 * 2 ^ (w - 1)) by (rewrite <- Z.pow_succ_r by lia; f_equal; lia).
  rewrite Z.mod_small; lia.
Qed.

(** Arithmetic with division and modulo by literals. *)
Ltac zdm := Z.to_euclidean_division_equations; lia.
Ltac zdmn := Z.to_euclidean_division_equations; nia.

(** Case split on the first [if] or [match] scrutinee, remembering it. *)
Ltac case_step :=
  match goal with
  | |- context [ match ?e with _ => _ end ] => destruct e eqn:?
  | H : context [ match ?e with _ => _ end ] |- _ => destruct e eqn:?
  end; simplify_eq/=.

(** Invert every [bind] that is known to have succeeded. *)
Ltac inv_ok :=
  repeat match goal with
  | H : mbind _ _ = Ok _ |- _ => apply bind_ok in H as (? & ? & ?)
  | H : Ok _ = Ok _ |- _ => injection H as H; try subst
  | H : Throw _ = Ok _ |- _ => discriminate H
  end.

(** Reduce the option monad and nothing else. *)
Ltac cbo := cbn [mbind option_bind fmap option_fmap option_map mret option_ret].
Ltac cboin H := cbn [mbind option_bind fmap option_fmap option_map mret option_ret] in H.

(** A literal byte string is a byte string. *)
Ltac bytes_ok :=
  repeat first [apply Forall_nil_2 | apply Forall_cons_2]; unfold in_u; try lia.

(** ** Bit operations as arithmetic *)

Lemma lor_shift_add a b k : 0 <= k -> 0 <= b < 2 ^ k -> Z.lor (a * 2 ^ k) b = a * 2 ^ k + b.
Proof.
  intros Hk Hb. rewrite <- Z.add_nocarry_lor; [done|].
  apply Z.bits_inj'. intros i Hi. rewrite Z.land_spec, Z.bits_0.
  destruct (Z.lt_ge_cases i k).
  - rewrite Z.mul_pow2_bits_low by lia. done.
  - destruct (Z.eq_dec b 0) as [->|]; [by rewrite Z.bits_0, andb_false_r|].
    rewrite (Z.bits_above_log2 b), andb_false_r; [done|lia|].
    apply Z.lt_le_trans with k; [|lia]. apply Z.log2_lt_pow2; lia.
Qed.

Lemma land_le_r a b : 0 <= b -> 0 <= Z.land a b <= b.
Proof.
  intros Hb. split; [apply Z.land_nonneg; by right|].
  assert (E : Z.ldiff b a + Z.land b a = b).
  { rewrite Z.add_nocarry_lor; [apply Z.lor_ldiff_and|].
    apply Z.bits_inj'. intros i _. rewrite !Z.land_spec, Z.ldiff_spec, Z.bits_0.
    by destruct (Z.testbit b i), (Z.testbit a i). }
  assert (0 <= Z.ldiff b a) by (apply Z.ldiff_nonneg; by left).
  rewrite Z.land_comm. lia.
Qed.

Lemma land_pow2_mask a k m : 0 <= k -> m = 2 ^ k - 1 -> Z.land a m = a mod 2 ^ k.
Proof.
  intros Hk ->. rewrite <- Z.land_ones by done. f_equal. rewrite Z.ones_equiv. lia.
Qed.

(** A single-bit test. *)
Lemma land_pow2_testbit a k : 0 <= k -> (Z.land a (2 ^ k) =? 0) = negb (Z.testbit a k).
Proof.
  intros Hk. destruct (Z.testbit a k) eqn:E; cbn.
  - apply Z.eqb_neq. intros H. apply (f_equal (fun z => Z.testbit z k)) in H.
    rewrite Z.land_spec, Z.pow2_bits_true, Z.bits_0, E in H; [done|lia].
  - apply Z.eqb_eq. apply Z.bits_inj'. intros i Hi.
    rewrite Z.land_spec, Z.bits_0, Z.pow2_bits_eqb by lia.
    destruct (Z.eqb_spec k i) as [->|]; [rewrite E|]; auto using andb_false_r.
Qed.

(** The top bit of a bounded number. *)
Lemma testbit_top x k : 0 <= k -> 0 <= x < 2 ^ (k + 1) -> Z.testbit x k = (2 ^ k <=? x).
Proof.
  intros Hk Hx. rewrite Z.pow_add_r in Hx by lia. change (2 ^ 1) with 2 in Hx.
  pose proof (Z.pow_pos_nonneg 2 k ltac:(lia) Hk).
  rewrite Z.testbit_odd, Z.shiftr_div_pow2 by lia. destruct (Z.leb_spec (2 ^ k) x).
  - replace (x / 2 ^ k) with 1; [reflexivity|]. apply Z.div_unique with (x - 2 ^ k); lia.
  - rewrite Z.div_small by lia. reflexivity.
Qed.

(** Two numbers with no common bits: one below [2^k], one a mask above it. *)
Lemma land_low_mask x k m : 0 <= k -> 0 <= x < 2 ^ k -> Z.land (Z.ones k) m = 0 -> Z.land x m = 0.
Proof.
  intros Hk Hx Hm. rewrite <- (Z.mod_small x (2 ^ k)) by done.
  by rewrite <- Z.land_ones, <- Z.land_assoc, Hm, Z.land_0_r by done.
Qed.

(** ** Little-endian byte strings *)

Fixpoint le_bytes (n : nat) (x : Z) : bytes :=
  match n with
  | O => []
  | S n => x mod 256 :: le_bytes n (x / 256)
  end.

Fixpoint le_value (bs : bytes) : Z :=
  match bs with
  | [] => 0
  | b :: bs => b + 256 * le_value bs
  end.

Lemma length_le_bytes n x : length (le_bytes n x) = n.
Proof. revert x; induction n; intros; cbn; auto. Qed.

Lemma le_bytes_is_byte n x : Forall is_byte (le_bytes n x).
Proof.
  revert x; induction n; intros; cbn; constructor; auto.
  unfold in_u. zdm.
Qed.

Lemma pow256_S n : 256 ^ Z.of_nat (S n) = 256 * 256 ^ Z.of_nat n.
Proof. rewrite Nat2Z.inj_succ, Z.pow_succ_r; lia. Qed.

Lemma pow256_pos n : 0 < 256 ^ Z.of_nat n.
Proof. apply Z.pow_pos_nonneg; lia. Qed.

Lemma le_value_bytes n x : le_value (le_bytes n x) = x mod 256 ^ Z.of_nat n.
Proof.
  revert x; induction n as [|n IH]; intros x; cbn [le_bytes le_value].
  - rewrite Z.mod_1_r. done.
  - rewrite IH, pow256_S, Z.rem_mul_r; pose proof (pow256_pos n); lia.
Qed.

Lemma le_value_bound bs :
  Forall is_byte bs -> 0 <= le_value bs < 256 ^ Z.of_nat (length bs).
Proof.
  induction 1 as [|b bs Hb _ IH]; cbn [le_value length].
  - cbn; lia.
  - rewrite pow256_S. unfold in_u in Hb. lia.
Qed.

Lemma le_bytes_value bs :
  Forall is_byte bs -> le_bytes (length bs) (le_value bs) = bs.
Proof.
  induction 1 as [|b bs Hb _ IH]; cbn [le_value length le_bytes]; [done|].
  unfold in_u in Hb.
  replace ((b + 256 * le_value bs) / 256) with (le_value bs) by zdm.
  rewrite IH. f_equal. zdm.
Qed.

Lemma le_value_app a b :
  le_value (a ++ b) = le_value a + 256 ^ Z.of_nat (length a) * le_value b.
Proof.
  induction a as [|x a IH]; cbn [app le_value length].
  - change (256 ^ Z.of_nat 0) with 1. lia.
  - rewrite IH, pow256_S. lia.
Qed.

(** ** Hints *)

Create HintDb syscoin.
(** Bytes by computation. *)
Lemma byte_list_ok (l : bytes) : forallb (fun b => (0 <=? b) && (b <? 256)) l = true -> Forall is_byte l.
Proof.
  rewrite forallb_forall. intros H. apply Forall_forall. intros x Hx%list_elem_of_In. specialize (H x Hx).
  unfold is_byte. lia.
Qed.

#[export] Hint Resolve le_bytes_is_byte length_le_bytes : syscoin.
