(* ===== verification/Serialize.v ===== *)
(** * Stream serialization (src/src/serialize.h, src/src/streams.h)

    A stream that is read is the list of the bytes that are left in it; every
    read is a function from that list to a value and the rest, or the
    [std::ios_base::failure] the C++ throws, by its message.  A stream that is
    written is the list of bytes the code appends to it.

    The file holds the fixed-width little-endian integers, the two variable
    length integer formats (CompactSize and VarInt), the vector formatter, the
    byte-vector reader with its block-wise allocation, and the class
    [Codec] through which composite formats get their round trips. *)

From stdpp Require Import strings.
From S2P Require Import Prelude.

(** ** Readers *)

Definition reader (A : Type) : Type := bytes -> result string (A * bytes).

#[export] Instance reader_ret : MRet reader := fun _ a s => Ok (a, s).
#[export] Instance reader_bind : MBind reader := fun A B k m s =>
  match m s with
  | Ok (a, s') => k a s'
  | Throw e => Throw e
  end.

Definition fail {A} (e : string) : reader A := fun _ => Throw e.

(** [DataStream::read]: exactly [n] bytes or a failure. *)
Definition read (n : Z) : reader bytes := fun s =>
  if Z.of_nat (length s) <? n then Throw "DataStream::read(): end of data"%string
  else Ok (take (Z.to_nat n) s, drop (Z.to_nat n) s).

(** [DataStream::ignore]. *)
Definition ignore (n : Z) : reader unit := fun s =>
  if Z.of_nat (length s) <? n then Throw "DataStream::ignore(): end of data"%string
  else Ok (tt, drop (Z.to_nat n) s).

Definition ser_writedata8 (x : Z) : bytes := [wrapu 8 x].
Definition ser_writedata16 (x : Z) : bytes := le_bytes 2 (wrapu 16 x).
Definition ser_writedata32 (x : Z) : bytes := le_bytes 4 (wrapu 32 x).
Definition ser_writedata64 (x : Z) : bytes := le_bytes 8 (wrapu 64 x).

Definition ser_readdata8 : reader Z := b ← read 1; mret (le_value b).
Definition ser_readdata16 : reader Z := b ← read 2; mret (le_value b).
Definition ser_readdata32 : reader Z := b ← read 4; mret (le_value b).
Definition ser_readdata64 : reader Z := b ← read 8; mret (le_value b).

(** Signed integers are written through the unsigned type of their width. *)
Definition Serialize_i32 (x : Z) : bytes := ser_writedata32 (wrapu 32 x).
Definition Unserialize_i32 : reader Z := n ← ser_readdata32; mret (wraps 32 n).
Definition Serialize_i64 (x : Z) : bytes := ser_writedata64 (wrapu 64 x).
Definition Unserialize_i64 : reader Z := n ← ser_readdata64; mret (wraps 64 n).

(** [base_blob<256>]: its 32 bytes. *)
Definition Serialize_uint256 (h : uint256) : bytes := h.
Definition Unserialize_uint256 : reader uint256 := read 32.

(** ** CompactSize *)

Definition MAX_SIZE : Z := 0x02000000.

Definition GetSizeOfCompactSize (nSize : Z) : Z :=
  if nSize <? 253 then 1
  else if nSize <=? 0xffff then 1 + 2
  else if nSize <=? 0xffffffff then 1 + 4
  else 1 + 8.

Definition WriteCompactSize (nSize : Z) : bytes :=
  if nSize <? 253 then ser_writedata8 nSize
  else if nSize <=? 0xffff then ser_writedata8 253 ++ ser_writedata16 nSize
  else if nSize <=? 0xffffffff then ser_writedata8 254 ++ ser_writedata32 nSize
  else ser_writedata8 255 ++ ser_writedata64 nSize.

Definition ReadCompactSize (range_check : bool) : reader Z :=
  chSize ← ser_readdata8;
  nSizeRet ←
    (if chSize <? 253 then mret chSize
     else if chSize =? 253 then
       n ← ser_readdata16;
       if n <? 253 then fail "non-canonical ReadCompactSize()" else mret n
     else if chSize =? 254 then
       n ← ser_readdata32;
       if n <? 0x10000 then fail "non-canonical ReadCompactSize()" else mret n
     else
       n ← ser_readdata64;
       if n <? 0x100000000 then fail "non-canonical ReadCompactSize()" else mret n);
  if range_check && (MAX_SIZE <? nSizeRet) then fail "ReadCompactSize(): size too large"
  else mret nSizeRet.

(** [CompactSizeFormatter<true>] on a [w]-bit unsigned type. *)
Definition CompactSizeFormatter_Unser (w : Z) : reader Z :=
  n ← ReadCompactSize true;
  if 2 ^ w - 1 <? n then fail "CompactSize exceeds limit of type" else mret n.

Definition CompactSizeFormatter_Ser (v : Z) : bytes := WriteCompactSize v.

(** ** VarInt, for a [w]-bit unsigned type *)

Definition varint_cap (w : Z) : nat := Z.to_nat ((w + 6) / 7).

(** The first loop of [WriteVarInt], which fills [tmp] from index [len] on;
    [cap] slots are left in the array and a write past its end is [None]. *)
Fixpoint varint_tmp (cap : nat) (len : nat) (n : Z) : option bytes :=
  match cap with
  | O => None
  | S cap =>
      let b := Z.lor (Z.land n 0x7F) (match len with O => 0x00 | S _ => 0x80 end) in
      if n <=? 0x7F then Some [b]
      else l ← varint_tmp cap (S len) (Z.shiftr n 7 - 1); Some (b :: l)
  end.

(** [WriteVarInt] emits [tmp[len]] down to [tmp[0]]. *)
Definition WriteVarInt (w : Z) (n : Z) : option bytes :=
  reverse <$> varint_tmp (varint_cap w) 0 n.

Fixpoint GetSizeOfVarInt_loop (fuel : nat) (nRet n : Z) : option Z :=
  match fuel with
  | O => None
  | S fuel =>
      let nRet := nRet + 1 in
      if n <=? 0x7F then Some nRet
      else GetSizeOfVarInt_loop fuel nRet (Z.shiftr n 7 - 1)
  end.

Definition GetSizeOfVarInt (w n : Z) : option Z :=
  GetSizeOfVarInt_loop (varint_cap w) 0 n.

(** [ReadVarInt]: every turn of the loop consumes a byte, so the recursion is
    on the stream. *)
Fixpoint ReadVarInt_loop (w n : Z) (s : bytes) : result string (Z * bytes) :=
  match s with
  | [] => Throw "DataStream::read(): end of data"%string
  | chData :: s =>
      if Z.shiftr (2 ^ w - 1) 7 <? n then Throw "ReadVarInt(): size too large"%string
      else
        let n := Z.lor (wrapu w (Z.shiftl n 7)) (Z.land chData 0x7F) in
        if Z.land chData 0x80 =? 0 then Ok (n, s)
        else if n =? 2 ^ w - 1 then Throw "ReadVarInt(): size too large"%string
        else ReadVarInt_loop w (n + 1) s
  end.

Definition ReadVarInt (w : Z) : reader Z := ReadVarInt_loop w 0.

(** ** Vectors *)

Definition MAX_VECTOR_ALLOCATE : Z := 5000000.

(** [while (v.size() < allocated)]: the next [n] elements. *)
Fixpoint read_n {A} (n : nat) (get : reader A) : reader (list A) :=
  match n with
  | O => mret []
  | S n => x ← get; l ← read_n n get; mret (x :: l)
  end.

(** [UnserializeVectorContents]: batches of [chunk] elements, where the C++ has
    [MAX_VECTOR_ALLOCATE / sizeof(T)]. *)
Fixpoint UnserializeVectorContents_loop {A} (fuel : nat) (chunk : Z) (get : reader A) (size : Z)
    (v : list A) : reader (list A) :=
  let allocated := Z.of_nat (length v) in
  if allocated <? size then
    match fuel with
    | O => fail "out of fuel"
    | S fuel =>
        let allocated' := Z.min size (allocated + chunk) in
        l ← read_n (Z.to_nat (allocated' - allocated)) get;
        UnserializeVectorContents_loop fuel chunk get size (v ++ l)
    end
  else mret v.

Definition UnserializeVectorContents {A} (chunk : Z) (get : reader A) (size : Z) : reader (list A) :=
  UnserializeVectorContents_loop (Z.to_nat size) chunk get size [].

Definition VectorFormatter_Ser {A} (put : A -> bytes) (v : list A) : bytes :=
  WriteCompactSize (Z.of_nat (length v)) ++ mjoin (put <$> v).

Definition VectorFormatter_Unser {A} (chunk : Z) (get : reader A) : reader (list A) :=
  size ← ReadCompactSize true; UnserializeVectorContents chunk get size.

(** Vectors of bytes, read in blocks of at most 5000000. *)
Definition Serialize_bytes (v : bytes) : bytes := WriteCompactSize (Z.of_nat (length v)) ++ v.

Fixpoint Unserialize_bytes_loop (fuel : nat) (nSize i : Z) (v : bytes) : reader bytes :=
  if i <? nSize then
    match fuel with
    | O => fail "out of fuel"
    | S fuel =>
        let blk := Z.min (nSize - i) (1 + 4999999) in
        b ← read blk;
        Unserialize_bytes_loop fuel nSize (i + blk) (v ++ b)
    end
  else mret v.

Definition Unserialize_bytes : reader bytes :=
  nSize ← ReadCompactSize true;
  Unserialize_bytes_loop (Z.to_nat (nSize / 5000000 + 1)) nSize 0 [].

(** ** Lemmas on reads *)

Lemma read_app n a s : Z.of_nat (length a) = n -> read n (a ++ s) = Ok (a, s).
Proof.
  intros <-. unfold read. rewrite length_app, Nat2Z.id.
  destruct (Z.ltb_spec (Z.of_nat (length a + length s)) (Z.of_nat (length a))); [lia|].
  rewrite take_app_length, drop_app_length. done.
Qed.

Lemma read_Ok n s a s' :
  0 <= n -> read n s = Ok (a, s') -> s = a ++ s' /\ Z.of_nat (length a) = n.
Proof.
  unfold read. intros Hn. destruct (Z.ltb_spec (Z.of_nat (length s)) n); [done|].
  intros [= <- <-]. rewrite take_drop, length_take. split; [done|lia].
Qed.

Lemma reader_bind_run {A B} (m : reader A) (k : A -> reader B) s a s' :
  m s = Ok (a, s') -> (mbind k m : reader B) s = k a s'.
Proof. intros E. unfold mbind, reader_bind. by rewrite E. Qed.

Lemma reader_bind_Ok {A B} (m : reader A) (k : A -> reader B) s b s' :
  (mbind k m : reader B) s = Ok (b, s') <->
  exists a s1, m s = Ok (a, s1) /\ k a s1 = Ok (b, s').
Proof.
  unfold mbind, reader_bind. destruct (m s) as [[a s1]|e]; naive_solver.
Qed.

(** What a fixed-width little-endian read does, in both directions. *)
Section fixed_width.
Context (k : nat).

Let readk : reader Z := b ← read (Z.of_nat k); mret (le_value b).

Lemma readk_write x s :
  0 <= x < 256 ^ Z.of_nat k -> readk (le_bytes k x ++ s) = Ok (x, s).
Proof.
  intros Hx. unfold readk, mbind, reader_bind.
  rewrite read_app by (rewrite length_le_bytes; done).
  cbn. rewrite le_value_bytes, Z.mod_small; done.
Qed.

Lemma readk_Ok s x s' :
  Forall is_byte s -> readk s = Ok (x, s') ->
  s = le_bytes k x ++ s' /\ 0 <= x < 256 ^ Z.of_nat k /\ Forall is_byte s'.
Proof.
  intros Hs H. unfold readk in H. apply reader_bind_Ok in H as (b & s1 & Hr & Hb).
  injection Hb as <- <-. apply read_Ok in Hr as [-> Hl]; [|lia].
  apply Forall_app in Hs as [Hb Hs].
  assert (length b = k) as <- by lia.
  rewrite le_bytes_value by done. split; [done|]. split; [|done]. by apply le_value_bound.
Qed.
End fixed_width.

Lemma ser_readdata8_cons b s : is_byte b -> ser_readdata8 (b :: s) = Ok (b, s).
Proof.
  intros Hb. unfold in_u in Hb.
  pose proof (readk_write 1 b s ltac:(cbn; lia)) as H.
  cbn [le_bytes app] in H. rewrite Z.mod_small in H by lia. exact H.
Qed.

(** ** CompactSize: the writer and the reader are inverse, in both directions *)

Lemma ReadCompactSize_WriteCompactSize rc n s :
  in_u 64 n -> (rc = true -> n <= MAX_SIZE) ->
  ReadCompactSize rc (WriteCompactSize n ++ s) = Ok (n, s).
Proof.
  unfold in_u. intros Hn Hrc.
  assert (Hend : forall s', (if rc && (MAX_SIZE <? n)
      then fail "ReadCompactSize(): size too large" else mret n) s' = Ok (n, s')).
  { intros s'. destruct rc; cbn; [|done]. destruct (Z.ltb_spec MAX_SIZE n); [|done]. specialize (Hrc eq_refl). lia. }
  unfold WriteCompactSize.
  destruct (Z.ltb_spec n 253); [|destruct (Z.leb_spec n 0xffff); [|destruct (Z.leb_spec n 0xffffffff)]];
    unfold ReadCompactSize, mbind, reader_bind, ser_writedata8; cbn [app];
    rewrite ser_readdata8_cons by (unfold in_u, wrapu; zdm).
  - rewrite wrapu_id by (unfold in_u; lia). destruct (Z.ltb_spec n 253); [|lia]. apply Hend.
  - change (wrapu 8 253) with 253. cbn -[ser_readdata16 ser_writedata16].
    unfold ser_writedata16. rewrite wrapu_id by (unfold in_u; lia).
    setoid_rewrite (readk_write 2); [|lia]. destruct (Z.ltb_spec n 253); [lia|]. apply Hend.
  - change (wrapu 8 254) with 254. cbn -[ser_readdata32 ser_writedata32].
    unfold ser_writedata32. rewrite wrapu_id by (unfold in_u; lia).
    setoid_rewrite (readk_write 4); [|lia]. destruct (Z.ltb_spec n 0x10000); [lia|]. apply Hend.
  - change (wrapu 8 255) with 255. cbn -[ser_readdata64 ser_writedata64].
    unfold ser_writedata64. rewrite wrapu_id by (unfold in_u; lia).
    setoid_rewrite (readk_write 8); [|lia]. destruct (Z.ltb_spec n 0x100000000); [lia|]. apply Hend.
Qed.

Lemma ser_readdata8_Ok s x s' :
  Forall is_byte s -> ser_readdata8 s = Ok (x, s') -> s = x :: s' /\ is_byte x /\ Forall is_byte s'.
Proof.
  intros Hs H. apply (readk_Ok 1) in H as (-> & Hx & Hs'); [|done].
  cbn [le_bytes app]. rewrite Z.mod_small by (cbn in Hx; lia). done.
Qed.

Lemma ReadCompactSize_Ok rc s n s' :
  Forall is_byte s -> ReadCompactSize rc s = Ok (n, s') ->
  s = WriteCompactSize n ++ s' /\ in_u 64 n /\ (rc = true -> n <= MAX_SIZE).
Proof.
  intros Hs H. apply reader_bind_Ok in H as (c & s1 & Hc & H).
  apply ser_readdata8_Ok in Hc as (-> & Hc & Hs1); [|done]. clear Hs.
  apply reader_bind_Ok in H as (m & s2 & Hm & H).
  assert (m = n /\ s2 = s' /\ (rc = true -> n <= MAX_SIZE)) as (-> & -> & Hrc).
  { destruct rc; cbn in H; [destruct (Z.ltb_spec MAX_SIZE m); [done|]|]; injection H as <- <-; done. }
  clear H. unfold in_u in Hc |- *.
  destruct (Z.ltb_spec c 253); [|destruct (Z.eqb_spec c 253); [|destruct (Z.eqb_spec c 254)]].
  - injection Hm as <- <-. unfold WriteCompactSize, ser_writedata8.
    destruct (Z.ltb_spec c 253); [|lia]. rewrite wrapu_id by done. repeat split; try done; lia.
  - apply reader_bind_Ok in Hm as (x & s3 & Hx & Hm).
    apply (readk_Ok 2) in Hx as (-> & Hx & _); [|done]. change (256 ^ Z.of_nat 2) with 0x10000 in Hx.
    destruct (Z.ltb_spec x 253); [done|]. injection Hm as -> ->.
    unfold WriteCompactSize, ser_writedata16. destruct (Z.ltb_spec n 253); [lia|].
    destruct (Z.leb_spec n 0xffff); [|lia]. rewrite wrapu_id by (unfold in_u; lia).
    subst c. repeat split; try done; lia.
  - apply reader_bind_Ok in Hm as (x & s3 & Hx & Hm).
    apply (readk_Ok 4) in Hx as (-> & Hx & _); [|done]. change (256 ^ Z.of_nat 4) with 0x100000000 in Hx.
    destruct (Z.ltb_spec x 0x10000); [done|]. injection Hm as -> ->.
    unfold WriteCompactSize, ser_writedata32. destruct (Z.ltb_spec n 253); [lia|].
    destruct (Z.leb_spec n 0xffff); [lia|]. destruct (Z.leb_spec n 0xffffffff); [|lia].
    rewrite wrapu_id by (unfold in_u; lia). subst c. repeat split; try done; lia.
  - apply reader_bind_Ok in Hm as (x & s3 & Hx & Hm).
    apply (readk_Ok 8) in Hx as (-> & Hx & _); [|done]. change (256 ^ Z.of_nat 8) with (2 ^ 64) in Hx.
    destruct (Z.ltb_spec x 0x100000000); [done|]. injection Hm as -> ->.
    unfold WriteCompactSize, ser_writedata64. destruct (Z.ltb_spec n 253); [lia|].
    destruct (Z.leb_spec n 0xffff); [lia|]. destruct (Z.leb_spec n 0xffffffff); [lia|].
    rewrite wrapu_id by (unfold in_u; lia). assert (c = 255) as -> by lia. repeat split; try done; lia.
Qed.

(** ** VarInt: every [w]-bit integer has exactly one encoding *)

Section varint.
Context (w : Z) (Hw : 7 <= w).

Lemma varint_byte n (b : bool) :
  0 <= n -> Z.lor (Z.land n 0x7F) (if b then 0x80 else 0x00) = n mod 128 + (if b then 128 else 0).
Proof using.
  intros Hn. rewrite (land_pow2_mask n 7) by done. change (2 ^ 7) with 128. destruct b.
  - rewrite Z.lor_comm. change 0x80 with (1 * 2 ^ 7). rewrite lor_shift_add; zdm.
  - rewrite Z.lor_0_r. lia.
Qed.

Lemma varint_shift n : Z.shiftr n 7 = n / 128.
Proof using. rewrite Z.shiftr_div_pow2 by lia. done. Qed.

(** [varint_tmp] in plain arithmetic. *)
Lemma varint_tmp_S cap len n :
  0 <= n ->
  varint_tmp (S cap) len n =
  let b := n mod 128 + (match len with O => 0 | S _ => 128 end) in
  if n <=? 127 then Some [b] else l ← varint_tmp cap (S len) (n / 128 - 1); Some (b :: l).
Proof using.
  intros Hn. cbn [varint_tmp]. rewrite varint_shift.
  pose proof (varint_byte n (match len with O => false | S _ => true end) Hn) as H.
  destruct len; rewrite H; done.
Qed.

(** Bytes after the first carry the continuation bit whatever their index. *)
Lemma varint_tmp_len cap k j n :
  0 <= n -> varint_tmp cap (S k) n = varint_tmp cap (S j) n.
Proof using.
  revert k j n; induction cap as [|cap IH]; intros k j n Hn; [done|].
  rewrite !varint_tmp_S by done. cbn zeta. destruct (Z.leb_spec n 127); [done|].
  rewrite (IH _ (S j)); [done|zdm].
Qed.

Lemma varint_tmp_mono cap cap' len n l :
  0 <= n -> (cap <= cap')%nat -> varint_tmp cap len n = Some l -> varint_tmp cap' len n = Some l.
Proof using.
  revert cap' len n l; induction cap as [|cap IH]; intros [|cap'] len n l Hn Hc; try (done || lia).
  rewrite !varint_tmp_S by done. cbn zeta. destruct (Z.leb_spec n 127); [done|].
  destruct (varint_tmp cap (S len) (n / 128 - 1)) as [l'|] eqn:E; [|done]. cbn. intros [= <-].
  rewrite (IH cap' (S len) _ l'); [done|zdm|lia|done].
Qed.

Lemma varint_tmp_fits cap len n :
  0 <= n < 128 ^ Z.of_nat (S cap) -> exists l, varint_tmp (S cap) len n = Some l.
Proof using.
  revert len n; induction cap as [|cap IH]; intros len n Hn;
    rewrite varint_tmp_S by lia; cbn zeta; destruct (Z.leb_spec n 127); eauto.
  { change (128 ^ Z.of_nat 1) with 128 in Hn. lia. }
  rewrite Nat2Z.inj_succ, Z.pow_succ_r in Hn by lia.
  destruct (IH (S len) (n / 128 - 1)) as [l' ->]; [|cbn; eauto].
  Z.to_euclidean_division_equations. lia.
Qed.

Lemma WriteVarInt_fits n : in_u w n -> exists e, WriteVarInt w n = Some e.
Proof using Hw.
  unfold in_u, WriteVarInt, varint_cap. intros Hn.
  destruct (Z.to_nat ((w + 6) / 7)) as [|cap] eqn:E; [exfalso; zdm|].
  destruct (varint_tmp_fits cap 0 n) as [l ->]; [|cbn; eauto].
  rewrite <- E, Z2Nat.id by zdm. change 128 with (2 ^ 7).
  rewrite <- Z.pow_mul_r by zdm. split; [lia|].
  apply Z.lt_le_trans with (2 ^ w); [lia|]. apply Z.pow_le_mono_r; zdm.
Qed.

(** One turn of the reader's loop. *)
Lemma ReadVarInt_step n c s :
  0 <= n -> is_byte c ->
  ReadVarInt_loop w n (c :: s) =
  if (2 ^ w - 1) / 128 <? n then Throw "ReadVarInt(): size too large"%string
  else let m := n * 128 + c mod 128 in
    if c <? 128 then Ok (m, s)
    else if m =? 2 ^ w - 1 then Throw "ReadVarInt(): size too large"%string
    else ReadVarInt_loop w (m + 1) s.
Proof using Hw.
  intros Hn Hc. unfold in_u in Hc. cbn [ReadVarInt_loop]. rewrite varint_shift.
  destruct (Z.ltb_spec ((2 ^ w - 1) / 128) n); [done|].
  rewrite (land_pow2_mask c 7 0x7F) by done. rewrite Z.shiftl_mul_pow2 by lia. change (2 ^ 7) with 128.
  rewrite wrapu_id by (unfold in_u; zdm).
  pose proof (lor_shift_add n (c mod 128) 7) as Hl. change (2 ^ 7) with 128 in Hl. rewrite Hl by zdm.
  change (Z.land c 0x80) with (Z.land c (2 ^ 7)). rewrite (land_pow2_testbit c 7), Z.testbit_odd, varint_shift by lia. cbn zeta.
  destruct (Z.ltb_spec c 128).
  - rewrite Z.div_small by lia. reflexivity.
  - replace (c / 128) with 1 by zdm. reflexivity.
Qed.

(** [hi_of m l]: [l] holds the continuation bytes (lowest first) that the
    loop of [WriteVarInt] emits for [m] after its first byte. *)
Definition hi_of (m : Z) (l : bytes) : Prop := exists cap k, varint_tmp cap (S k) m = Some l.

Lemma hi_of_inv m l :
  0 <= m -> hi_of m l ->
  (m <= 127 /\ l = [m + 128]) \/
  (127 < m /\ exists l', l = (m mod 128 + 128) :: l' /\ hi_of (m / 128 - 1) l').
Proof using.
  intros Hm (cap & k & H). destruct cap as [|cap]; [done|].
  rewrite varint_tmp_S in H by done. cbn zeta iota in H. destruct (Z.leb_spec m 127).
  - injection H as <-. rewrite Z.mod_small by lia. auto.
  - destruct (varint_tmp cap (S (S k)) (m / 128 - 1)) as [l'|] eqn:E; [|done].
    injection H as <-. right. split; [done|]. exists l'. split; [done|]. by exists cap, (S k).
Qed.

Lemma hi_of_small m : 0 <= m <= 127 -> hi_of m [m + 128].
Proof using.
  intros Hm. exists 1%nat, 0%nat. rewrite varint_tmp_S by lia. cbn zeta iota.
  destruct (Z.leb_spec m 127); [|lia]. rewrite Z.mod_small by lia. done.
Qed.

Lemma hi_of_step m l : 127 < m -> hi_of (m / 128 - 1) l -> hi_of m ((m mod 128 + 128) :: l).
Proof using.
  intros Hm (cap & k & H). exists (S cap), k. rewrite varint_tmp_S by lia. cbn zeta iota.
  destruct (Z.leb_spec m 127); [lia|]. rewrite (varint_tmp_len _ _ k), H by zdm. done.
Qed.

Lemma ReadVarInt_hi l m s :
  hi_of m l -> 0 <= m < 2 ^ w - 1 ->
  ReadVarInt_loop w 0 (reverse l ++ s) = ReadVarInt_loop w (m + 1) s.
Proof using Hw.
  revert m s. induction l as [|b l IH]; intros m s Hl Hm.
  { apply hi_of_inv in Hl as [[_ ?]|(_ & ? & ? & _)]; done || lia. }
  pose proof (Z.pow_le_mono_r 2 7 w ltac:(lia) Hw) as Hpw. change (2 ^ 7) with 128 in Hpw.
  apply hi_of_inv in Hl as [[Hs Hl]|(Hs & l' & Hl & Hh)]; [| |lia]; injection Hl as -> ->.
  - cbn [reverse rev_append app]. rewrite ReadVarInt_step by (unfold in_u; lia).
    destruct (Z.ltb_spec ((2 ^ w - 1) / 128) 0); [zdm|]. cbn zeta.
    destruct (Z.ltb_spec (m + 128) 128); [lia|].
    replace (0 * 128 + (m + 128) mod 128) with m by zdm.
    destruct (Z.eqb_spec m (2 ^ w - 1)); [lia|done].
  - rewrite reverse_cons, <- app_assoc, (IH (m / 128 - 1)) by (done || zdm). cbn [app].
    rewrite ReadVarInt_step by (unfold in_u; zdm).
    replace (m / 128 - 1 + 1) with (m / 128) by lia.
    destruct (Z.ltb_spec ((2 ^ w - 1) / 128) (m / 128)); [zdm|]. cbn zeta.
    destruct (Z.ltb_spec (m mod 128 + 128) 128); [zdm|].
    replace (m / 128 * 128 + (m mod 128 + 128) mod 128) with m by zdm.
    destruct (Z.eqb_spec m (2 ^ w - 1)); [lia|done].
Qed.

Lemma ReadVarInt_WriteVarInt n e s :
  in_u w n -> WriteVarInt w n = Some e -> ReadVarInt w (e ++ s) = Ok (n, s).
Proof using Hw.
  unfold in_u, WriteVarInt, ReadVarInt. intros Hn He.
  pose proof (Z.pow_le_mono_r 2 7 w ltac:(lia) Hw) as Hpw. change (2 ^ 7) with 128 in Hpw.
  destruct (varint_cap w) as [|cap]; [done|]. rewrite varint_tmp_S in He by lia. cbn zeta in He.
  destruct (Z.leb_spec n 127).
  - injection He as <-. rewrite Z.mod_small by lia. cbn [reverse rev_append app].
    rewrite Z.add_0_r, ReadVarInt_step by (unfold in_u; lia).
    destruct (Z.ltb_spec ((2 ^ w - 1) / 128) 0); [zdm|]. cbn zeta.
    destruct (Z.ltb_spec n 128); [|lia]. do 2 f_equal. zdm.
  - destruct (varint_tmp cap 1 (n / 128 - 1)) as [l|] eqn:E; [|done]. injection He as <-.
    rewrite Z.add_0_r, reverse_cons, <- app_assoc, (ReadVarInt_hi l (n / 128 - 1)); [|by exists cap, 0%nat|zdm].
    cbn [app]. rewrite ReadVarInt_step by (unfold in_u; zdm).
    replace (n / 128 - 1 + 1) with (n / 128) by lia.
    destruct (Z.ltb_spec ((2 ^ w - 1) / 128) (n / 128)); [zdm|]. cbn zeta.
    destruct (Z.ltb_spec (n mod 128) 128); [|zdm]. do 2 f_equal. zdm.
Qed.

Lemma pow_w_128 : exists q, 2 ^ w = 128 * q /\ 1 <= q.
Proof using Hw.
  exists (2 ^ (w - 7)). split; [|pose proof (Z.pow_pos_nonneg 2 (w - 7)); lia].
  change 128 with (2 ^ 7). rewrite <- Z.pow_add_r by lia. f_equal. lia.
Qed.

(** What the loop has consumed, from a state [st]: nothing yet ([st = 0]) or
    the continuation bytes of [st - 1]. *)
Lemma ReadVarInt_loop_Ok s st n s' :
  Forall is_byte s -> 0 <= st <= 2 ^ w - 1 -> ReadVarInt_loop w st s = Ok (n, s') ->
  exists c, s = c ++ s' /\ in_u w n /\
    (st = 0 -> exists cap, varint_tmp cap 0 n = Some (reverse c)) /\
    (0 < st -> forall l, hi_of (st - 1) l -> exists cap, varint_tmp cap 0 n = Some (reverse c ++ l)).
Proof using Hw.
  destruct pow_w_128 as (q & Hq & _).
  intros Hs. revert st. induction Hs as [|b s Hb Hs IH]; intros st Hst H; [done|].
  rewrite ReadVarInt_step in H by (done || lia). unfold in_u in Hb.
  destruct (Z.ltb_spec ((2 ^ w - 1) / 128) st) as [|Hle]; [done|]. cbn zeta in H.
  destruct (Z.ltb_spec b 128).
  - injection H as <- <-. rewrite (Z.mod_small b) by lia. exists [b].
    split; [done|]. split; [unfold in_u; zdm|]. split.
    + intros ->. exists 1%nat. rewrite varint_tmp_S by lia. cbn zeta iota.
      destruct (Z.leb_spec (0 * 128 + b) 127); [|lia].
      replace ((0 * 128 + b) mod 128 + 0) with b by zdm. done.
    + intros Hp l (cap & k & Hl). exists (S cap). rewrite varint_tmp_S by lia. cbn zeta iota.
      destruct (Z.leb_spec (st * 128 + b) 127); [lia|].
      replace ((st * 128 + b) / 128 - 1) with (st - 1) by zdm.
      rewrite (varint_tmp_len _ _ k), Hl by lia. cbn.
      replace ((st * 128 + b) mod 128 + 0) with b by zdm. done.
  - destruct (Z.eqb_spec (st * 128 + b mod 128) (2 ^ w - 1)); [done|].
    apply IH in H as (c & -> & Hn & _ & Hc); [|zdm].
    exists (b :: c). split; [done|]. split; [done|].
    specialize (Hc ltac:(zdm)). rewrite reverse_cons.
    replace (st * 128 + b mod 128 + 1 - 1) with (st * 128 + b mod 128) in Hc by lia.
    split.
    + intros ->. apply Hc. replace b with (b mod 128 + 128) at 2 by zdm.
      apply hi_of_small. zdm.
    + intros Hp l Hl. rewrite <- app_assoc. apply Hc. cbn [app].
      pose proof (hi_of_step (st * 128 + b mod 128) l ltac:(zdm)) as Hh.
      replace ((st * 128 + b mod 128) / 128 - 1) with (st - 1) in Hh by zdm.
      replace ((st * 128 + b mod 128) mod 128 + 128) with b in Hh by zdm. auto.
Qed.

Lemma ReadVarInt_Ok s n s' :
  Forall is_byte s -> ReadVarInt w s = Ok (n, s') ->
  in_u w n /\ exists e, WriteVarInt w n = Some e /\ s = e ++ s'.
Proof using Hw.
  intros Hs H. pose proof (Z.pow_pos_nonneg 2 w).
  apply ReadVarInt_loop_Ok in H as (c & -> & Hn & Hc0 & _); [|done|lia].
  split; [done|]. destruct (Hc0 eq_refl) as [cap Hc].
  destruct (WriteVarInt_fits n Hn) as [e He]. exists e. split; [done|]. f_equal.
  unfold WriteVarInt in He. destruct (varint_tmp (varint_cap w) 0 n) as [l|] eqn:E; [|done].
  injection He as <-. unfold in_u in Hn.
  apply (varint_tmp_mono _ (cap + varint_cap w)) in Hc; [|lia|lia].
  apply (varint_tmp_mono _ (cap + varint_cap w)) in E; [|lia|lia].
  rewrite E in Hc. injection Hc as ->. by rewrite reverse_involutive.
Qed.
End varint.

(** The size computed without writing is the size that is written. *)
Lemma GetSizeOfVarInt_loop_spec cap len r n :
  GetSizeOfVarInt_loop cap r n = (fun l : bytes => r + Z.of_nat (length l)) <$> varint_tmp cap len n.
Proof.
  revert len r n; induction cap as [|cap IH]; intros len r n; [done|].
  cbn [GetSizeOfVarInt_loop varint_tmp]. destruct (n <=? 0x7F); [done|].
  rewrite (IH (S len)). destruct (varint_tmp cap (S len) _); cbn; [f_equal; lia|done].
Qed.

(** ** Codecs: what one component promises another about a format

    [RoundTrip put get valid]: [get] reads back what [put] wrote of a [valid] value,
    whatever follows it.  [Codec put get valid]: moreover [put] emits bytes and [get]
    accepts nothing else, so the format has exactly one encoding per valid value. *)

Class RoundTrip {A} (put : A -> bytes) (get : reader A) (valid : A -> Prop) : Prop :=
  get_put a s : valid a -> get (put a ++ s) = Ok (a, s).

Class Codec {A} (put : A -> bytes) (get : reader A) (valid : A -> Prop) : Prop := {
  codec_bytes a : valid a -> Forall is_byte (put a);
  codec_get_put a s : valid a -> get (put a ++ s) = Ok (a, s);
  codec_get_ok s a s' : Forall is_byte s -> get s = Ok (a, s') -> s = put a ++ s' /\ valid a;
}.

#[export] Instance codec_round_trip {A} put get (valid : A -> Prop) :
  Codec put get valid -> RoundTrip put get valid | 10.
Proof. intros HC a s. apply codec_get_put. Qed.

Lemma codec_rest {A} put get (valid : A -> Prop) `{!Codec put get valid} s a s' :
  Forall is_byte s -> get s = Ok (a, s') -> Forall is_byte s'.
Proof. intros Hs E. apply codec_get_ok in E as [-> _]; [|done]. by apply Forall_app in Hs as [_ Hs]. Qed.

(** Reading after a bind whose first reader reads back or is a codec. *)
Lemma reader_bind_put {A B} put get (valid : A -> Prop) `{!RoundTrip put get valid} (k : A -> reader B) a s :
  valid a -> (mbind k get : reader B) (put a ++ s) = k a s.
Proof. intros Ha. unfold mbind, reader_bind. by rewrite get_put. Qed.

Lemma reader_bind_get {A B} put get (valid : A -> Prop) `{!Codec put get valid} (k : A -> reader B) s b s' :
  Forall is_byte s -> (mbind k get : reader B) s = Ok (b, s') ->
  exists a s1, s = put a ++ s1 /\ valid a /\ Forall is_byte s1 /\ k a s1 = Ok (b, s').
Proof.
  intros Hs (a & s1 & E & Hk)%reader_bind_Ok. pose proof (codec_rest put get valid s a s1 Hs E).
  apply codec_get_ok in E as [-> Ha]; [|done]. by exists a, s1.
Qed.

(** Read back a concatenation of formats, one bind per format; [tac] proves the
    values valid. *)
Ltac codec_put1 tac :=
  match goal with
  | |- context [@mbind _ _ _ _ ?k ?g (_ ++ ?s)] =>
      let HC := constr:(ltac:(typeclasses eauto) : RoundTrip _ g _) in
      match type of HC with RoundTrip ?p _ ?v => rewrite (reader_bind_put p g v k _ s) by tac end
  end.
Ltac codec_put tac := rewrite <- ?app_assoc; repeat codec_put1 tac.

(** Invert a successful read, one bind per format. *)
Ltac codec_get H :=
  match type of H with
  | @mbind _ _ _ _ ?k ?g ?s = _ =>
      let HC := constr:(ltac:(typeclasses eauto) : Codec _ g _) in
      match type of HC with
      | Codec ?p _ ?v => apply (reader_bind_get p g v) in H as (? & ? & -> & ? & ? & H); [|assumption]
      end
  end.

Lemma fixed_codec k (put : Z -> bytes) (get : reader Z) w :
  256 ^ Z.of_nat k = 2 ^ w -> (forall x, put x = le_bytes k (wrapu w x)) ->
  get = (b ← read (Z.of_nat k); mret (le_value b)) -> Codec put get (in_u w).
Proof.
  intros Hk Hp ->. split; intros *.
  - intros _. rewrite Hp. apply le_bytes_is_byte.
  - intros Ha. rewrite Hp, wrapu_id by done. apply readk_write. unfold in_u in Ha. lia.
  - intros Hs E. apply readk_Ok in E as (-> & Hx & _); [|done].
    rewrite Hk in Hx. rewrite Hp, wrapu_id by done. done.
Qed.

#[export] Instance u8_codec : Codec ser_writedata8 ser_readdata8 (in_u 8).
Proof.
  apply (fixed_codec 1); [done| |done]. intros x. unfold ser_writedata8. cbn [le_bytes].
  f_equal. unfold wrapu. zdm.
Qed.
#[export] Instance u16_codec : Codec ser_writedata16 ser_readdata16 (in_u 16).
Proof. by apply (fixed_codec 2). Qed.
#[export] Instance u32_codec : Codec ser_writedata32 ser_readdata32 (in_u 32).
Proof. by apply (fixed_codec 4). Qed.
#[export] Instance u64_codec : Codec ser_writedata64 ser_readdata64 (in_u 64).
Proof. by apply (fixed_codec 8). Qed.

Lemma wraps_wrapu w n : 0 < w -> in_s w n -> wraps w (wrapu w n) = n.
Proof.
  intros Hw Hn. rewrite <- (wraps_id w n) at 2 by done. unfold wraps, wrapu.
  by rewrite Z.add_mod_idemp_l by lia.
Qed.

Lemma wrapu_wraps w n : 0 < w -> in_u w n -> wrapu w (wraps w n) = n /\ in_s w (wraps w n).
Proof.
  intros Hw Hn. unfold in_u in Hn. assert (E : 2 ^ w = 2 * 2 ^ (w - 1)) by (rewrite <- Z.pow_succ_r by lia; f_equal; lia).
  pose proof (Z.mod_pos_bound (n + 2 ^ (w - 1)) (2 ^ w)). split; [|unfold in_s, wraps; lia].
  unfold wrapu, wraps. rewrite Zminus_mod_idemp_l.
  replace (n + 2 ^ (w - 1) - 2 ^ (w - 1)) with n by lia. by apply Z.mod_small.
Qed.

Lemma signed_codec w put get :
  0 < w -> Codec put get (in_u w) ->
  Codec (fun x => put (wrapu w x)) (n ← get; mret (wraps w n)) (in_s w).
Proof.
  intros Hw HC. split; intros *.
  - intros _. apply codec_bytes. apply wrapu_in. lia.
  - intros Ha. rewrite (reader_bind_put put get (in_u w)) by (apply wrapu_in; lia).
    unfold mret, reader_ret. by rewrite wraps_wrapu.
  - intros Hs (n & s1 & -> & Hn & _ & [= <- <-])%(reader_bind_get put get (in_u w)); [|done].
    destruct (wrapu_wraps w n Hw Hn) as [-> ?]. done.
Qed.

#[export] Instance i32_codec : Codec Serialize_i32 Unserialize_i32 (in_s 32).
Proof. apply (signed_codec 32); [lia|apply _]. Qed.
#[export] Instance i64_codec : Codec Serialize_i64 Unserialize_i64 (in_s 64).
Proof. apply (signed_codec 64); [lia|apply _]. Qed.

Lemma WriteCompactSize_bytes n : Forall is_byte (WriteCompactSize n).
Proof.
  unfold WriteCompactSize, ser_writedata8, ser_writedata16, ser_writedata32, ser_writedata64.
  repeat case_match; repeat (apply Forall_app; split);
    try apply le_bytes_is_byte; constructor; try done; by apply wrapu_in.
Qed.

#[export] Instance compact_codec :
  Codec WriteCompactSize (ReadCompactSize true) (fun n => 0 <= n <= MAX_SIZE).
Proof.
  split; intros *.
  - intros _. apply WriteCompactSize_bytes.
  - intros Hn. apply ReadCompactSize_WriteCompactSize; [unfold in_u, MAX_SIZE in *; lia|lia].
  - intros Hs E. apply ReadCompactSize_Ok in E as (-> & Hn & Hm); [|done].
    unfold in_u in Hn. specialize (Hm eq_refl). split; [done|lia].
Qed.

Definition put_varint (w n : Z) : bytes := default [] (WriteVarInt w n).

Lemma varint_tmp_bytes cap len n l : 0 <= n -> varint_tmp cap len n = Some l -> Forall is_byte l.
Proof.
  revert len n l. induction cap as [|cap IH]; intros len n l Hn; [done|]. cbn [varint_tmp].
  assert (Hb : is_byte (Z.lor (Z.land n 127) match len with O => 0 | S _ => 128 end)).
  { rewrite (land_pow2_mask n 7 127) by done. destruct len.
    - rewrite Z.lor_0_r. unfold in_u. zdm.
    - rewrite Z.lor_comm. change 128 with (1 * 2 ^ 7). rewrite lor_shift_add by zdm. unfold in_u. zdm. }
  destruct (Z.leb_spec n 127); [intros [= <-]; constructor; [done|constructor]|].
  destruct (varint_tmp cap (S len) _) as [l'|] eqn:E; [|done]. cbo. intros [= <-].
  constructor; [done|]. eapply IH; [|done]. rewrite Z.shiftr_div_pow2 by lia. zdm.
Qed.

Lemma varint_codec w : 7 <= w -> Codec (put_varint w) (ReadVarInt w) (in_u w).
Proof.
  intros Hw. split; intros *.
  - intros Ha. unfold put_varint, WriteVarInt. destruct (varint_tmp _ 0 a) as [l|] eqn:E; [|by constructor].
    cbn. apply Forall_reverse. eapply varint_tmp_bytes; [|done]. unfold in_u in Ha. lia.
  - intros Ha. destruct (WriteVarInt_fits w Hw a Ha) as [e He]. unfold put_varint. rewrite He. cbn.
    by apply ReadVarInt_WriteVarInt.
  - intros Hs E. apply ReadVarInt_Ok in E as (Hn & e & He & ->); [|done..]. unfold put_varint. by rewrite He.
Qed.

#[export] Instance varint64_codec : Codec (put_varint 64) (ReadVarInt 64) (in_u 64).
Proof. apply varint_codec. lia. Qed.
#[export] Instance varint32_codec : Codec (put_varint 32) (ReadVarInt 32) (in_u 32).
Proof. apply varint_codec. lia. Qed.

(** A fixed number of raw bytes, as [uint256] and [Span] are written. *)
#[export] Instance raw_codec n :
  Codec (fun b : bytes => b) (read (Z.of_nat n)) (fun b => length b = n /\ Forall is_byte b).
Proof.
  split; intros *.
  - by intros [_ ?].
  - intros [Hl _]. apply read_app. lia.
  - intros Hs E. apply read_Ok in E as [-> Hl]; [|lia]. apply Forall_app in Hs as [Ha _].
    split; [done|]. split; [lia|done].
Qed.

Definition valid_uint256 (h : uint256) : Prop := length h = 32%nat /\ Forall is_byte h.
#[export] Instance uint256_codec : Codec Serialize_uint256 Unserialize_uint256 valid_uint256.
Proof. exact (raw_codec 32). Qed.

(** ** Vectors are codecs, and batching does not change what is read *)

Lemma read_n_app {A} (get : reader A) a b :
  forall s, read_n (a + b) get s = (l ← read_n a get; l' ← read_n b get; mret (l ++ l')) s.
Proof.
  induction a as [|a IH]; intros s.
  - cbn. unfold mbind, reader_bind, mret, reader_ret. by destruct (read_n b get s) as [[]|].
  - cbn [Nat.add read_n]. unfold mbind, reader_bind. destruct (get s) as [[x s1]|e]; [|done].
    rewrite IH. unfold mbind, reader_bind, mret, reader_ret. destruct (read_n a get s1) as [[l s2]|e]; [|done].
    by destruct (read_n b get s2) as [[]|].
Qed.

Lemma read_n_length {A} (get : reader A) n s l s' : read_n n get s = Ok (l, s') -> length l = n.
Proof.
  revert s l. induction n as [|n IH]; intros s l; cbn [read_n]; [by intros [= <- _]|].
  intros (x & s1 & _ & (l' & s2 & E & [= <- <-])%reader_bind_Ok)%reader_bind_Ok. cbn. f_equal. by eapply IH.
Qed.

Lemma UnserializeVectorContents_loop_spec {A} fuel chunk (get : reader A) size v s :
  0 < chunk -> size - Z.of_nat (length v) <= Z.of_nat fuel ->
  UnserializeVectorContents_loop fuel chunk get size v s =
  (l ← read_n (Z.to_nat (size - Z.of_nat (length v))) get; mret (v ++ l)) s.
Proof.
  intros Hc. revert v s. induction fuel as [|fuel IH]; intros v s Hf; cbn [UnserializeVectorContents_loop];
    destruct (Z.ltb_spec (Z.of_nat (length v)) size) as [Hlt|Hge]; try lia;
    try (replace (Z.to_nat (size - Z.of_nat (length v))) with 0%nat by lia;
         unfold mbind, reader_bind, mret, reader_ret; cbn [read_n]; unfold mret, reader_ret; by rewrite app_nil_r).
  set (a := Z.to_nat (Z.min size (Z.of_nat (length v) + chunk) - Z.of_nat (length v))).
  set (b := Z.to_nat (size - Z.of_nat (length v) - Z.of_nat a)).
  replace (Z.to_nat (size - Z.of_nat (length v))) with (a + b)%nat by lia.
  unfold mbind, reader_bind. rewrite read_n_app. unfold mbind, reader_bind.
  destruct (read_n a get s) as [[l s1]|e] eqn:E; [|done]. apply read_n_length in E as Hl.
  rewrite IH by (rewrite length_app; lia). rewrite length_app.
  replace (Z.to_nat (size - Z.of_nat (length v + length l))) with b by lia.
  unfold mbind, reader_bind, mret, reader_ret. destruct (read_n b get s1) as [[l' s2]|e]; [|done].
  by rewrite app_assoc.
Qed.

Lemma UnserializeVectorContents_spec {A} chunk (get : reader A) size s :
  0 < chunk -> UnserializeVectorContents chunk get size s = read_n (Z.to_nat size) get s.
Proof.
  intros Hc. unfold UnserializeVectorContents. rewrite UnserializeVectorContents_loop_spec by (done || (cbn; lia)).
  cbn [length]. rewrite Z.sub_0_r. unfold mbind, reader_bind, mret, reader_ret.
  by destruct (read_n _ get s) as [[]|].
Qed.

Section vector.
Context {A : Type} (put : A -> bytes) (get : reader A) (valid : A -> Prop).

Definition valid_vector (l : list A) : Prop := Z.of_nat (length l) <= MAX_SIZE /\ Forall valid l.

Lemma read_n_put `{HR : !RoundTrip put get valid} l s : Forall valid l -> read_n (length l) get (mjoin (put <$> l) ++ s) = Ok (l, s).
Proof.
  induction 1 as [|x l Hx _ IH]; [done|]. cbn [length read_n].
  change (mjoin (put <$> x :: l)) with (put x ++ mjoin (put <$> l)).
  rewrite <- app_assoc. rewrite (reader_bind_put put get valid) by done. unfold mbind, reader_bind. by rewrite IH.
Qed.

#[export] Instance vector_round_trip chunk `{HR : !RoundTrip put get valid} :
  0 < chunk -> RoundTrip (VectorFormatter_Ser put) (VectorFormatter_Unser chunk get) valid_vector | 20.
Proof.
  intros Hc l s [Hl Hv]. unfold VectorFormatter_Unser, VectorFormatter_Ser. rewrite <- app_assoc.
  rewrite (reader_bind_put WriteCompactSize (ReadCompactSize true) _) by lia.
  rewrite UnserializeVectorContents_spec, Nat2Z.id by done. by apply read_n_put.
Qed.

Lemma read_n_Ok `{HC : !Codec put get valid} n s l s' :
  Forall is_byte s -> read_n n get s = Ok (l, s') -> s = mjoin (put <$> l) ++ s' /\ Forall valid l.
Proof.
  revert s l. induction n as [|n IH]; intros s l Hs; cbn [read_n]; [by intros [= <- <-]|].
  intros (x & s1 & -> & Hx & Hs1 & (l' & s2 & E & [= <- <-])%reader_bind_Ok)%(reader_bind_get put get valid); [|done].
  apply IH in E as [-> Hl]; [|done]. cbn. rewrite app_assoc. split; [done|by constructor].
Qed.

Lemma VectorFormatter_bytes `{HC : !Codec put get valid} l :
  Forall valid l -> Forall is_byte (VectorFormatter_Ser put l).
Proof.
  intros Hl. apply Forall_app. split; [apply WriteCompactSize_bytes|].
  induction Hl; cbn; [constructor|]. apply Forall_app. split; [by apply codec_bytes|done].
Qed.

#[export] Instance vector_codec chunk `{HC : !Codec put get valid} :
  0 < chunk -> Codec (VectorFormatter_Ser put) (VectorFormatter_Unser chunk get) valid_vector.
Proof.
  intros Hc. split; intros *.
  - intros [_ Hl]. by apply VectorFormatter_bytes.
  - by apply (vector_round_trip chunk).
  - intros Hs (n & s1 & -> & Hn & Hs1 & E)%(reader_bind_get WriteCompactSize _ _); [|done].
    rewrite UnserializeVectorContents_spec in E by done. pose proof (read_n_length _ _ _ _ _ E) as Hl.
    apply read_n_Ok in E as [-> Hv]; [|done]. unfold VectorFormatter_Ser. rewrite Hl, Z2Nat.id by lia.
    rewrite <- app_assoc. split; [done|]. split; [lia|done].
Qed.

End vector.

Lemma Unserialize_bytes_loop_spec fuel n i v s :
  0 <= i <= n -> n - i <= 5000000 * Z.of_nat fuel ->
  Unserialize_bytes_loop fuel n i v s =
  match read (n - i) s with
  | Ok (b, s') => Ok (v ++ b, s')
  | Throw e => Throw e
  end.
Proof.
  revert i v s. induction fuel as [|fuel IH]; intros i v s Hi Hf; cbn [Unserialize_bytes_loop];
    destruct (Z.ltb_spec i n) as [Hlt|Hge]; try lia;
    try (replace (n - i) with 0 by lia; unfold read; destruct (Z.ltb_spec (Z.of_nat (length s)) 0); [lia|];
         cbn; by rewrite app_nil_r).
  unfold mbind, reader_bind. set (blk := Z.min (n - i) (1 + 4999999)). unfold read at 1.
  destruct (Z.ltb_spec (Z.of_nat (length s)) blk) as [Hs|Hs].
  - unfold read. destruct (Z.ltb_spec (Z.of_nat (length s)) (n - i)); [done|lia].
  - rewrite IH by lia. unfold read. rewrite length_drop.
    destruct (Z.ltb_spec (Z.of_nat (length s - Z.to_nat blk)) (n - (i + blk))),
             (Z.ltb_spec (Z.of_nat (length s)) (n - i)); try lia; [done|].
    rewrite <- app_assoc, drop_drop. do 3 f_equal.
    + replace (Z.to_nat (n - i)) with (Z.to_nat blk + Z.to_nat (n - (i + blk)))%nat by lia.
      by rewrite take_take_drop.
    + f_equal. lia.
Qed.

Definition valid_bytes (b : bytes) : Prop := Z.of_nat (length b) <= MAX_SIZE /\ Forall is_byte b.

#[export] Instance bytes_codec :
  Codec Serialize_bytes Unserialize_bytes valid_bytes.
Proof.
  assert (Hloop : forall n s, 0 <= n ->
    Unserialize_bytes_loop (Z.to_nat (n / 5000000 + 1)) n 0 [] s = read n s).
  { intros n s Hn. rewrite Unserialize_bytes_loop_spec by zdm. rewrite Z.sub_0_r.
    by destruct (read n s) as [[]|]. }
  split; intros *.
  - intros [_ Hb]. apply Forall_app. split; [apply WriteCompactSize_bytes|done].
  - intros [Hl Hb]. unfold Unserialize_bytes, Serialize_bytes. rewrite <- app_assoc.
    rewrite (reader_bind_put WriteCompactSize (ReadCompactSize true) _) by lia. rewrite Hloop by lia. by apply read_app.
  - intros Hs (n & s1 & -> & Hn & Hs1 & E)%(reader_bind_get WriteCompactSize _ _); [|done].
    rewrite Hloop in E by lia. apply read_Ok in E as [-> Hl]; [|lia].
    apply Forall_app in Hs1 as [Ha _]. unfold Serialize_bytes. rewrite Hl, <- app_assoc. split; [done|].
    split; [lia|done].
Qed.

#[export] Hint Extern 0 (0 < _) => assumption : typeclass_instances.

(** ** Properties of the variable-length integers *)

(** a CompactSize read succeeds with [n] and leaves [s'] exactly when the
    stream starts with the bytes that [WriteCompactSize] emits for [n] and [n]
    fits 64 bits and, with the range check on, [MAX_SIZE]; so reading and writing are
    inverse and every non-canonical encoding is refused. *)
Theorem ReadCompactSize_spec (rc : bool) (s : bytes) (n : Z) (s' : bytes) (Hs : Forall is_byte s) :
  ReadCompactSize rc s = Ok (n, s') <->
  s = WriteCompactSize n ++ s' /\ in_u 64 n /\ (rc = true -> n <= MAX_SIZE).
Proof.
  split; [by apply ReadCompactSize_Ok|].
  intros (-> & Hn & Hrc). by apply ReadCompactSize_WriteCompactSize.
Qed.

Lemma ReadCompactSize_spec_witness :
  ReadCompactSize true ([253; 253; 0] ++ [7]) = Ok (253, [7]).
Proof.
  apply (ReadCompactSize_spec true ([253; 253; 0] ++ [7]) 253 [7]).
  - bytes_ok.
  - split; [reflexivity|]. split; [unfold in_u; lia|]. intros _. unfold MAX_SIZE. lia.
Defined.

(** on a [w]-bit unsigned type (at least 7 bits), a VarInt read succeeds
    with [n] and leaves [s'] exactly when [n] fits the type and the stream starts
    with the bytes [WriteVarInt] emits for [n]; in particular the writer never
    runs past its [tmp] array on a value of the type, and every value has exactly one encoding. *)
Theorem ReadVarInt_spec (w : Z) (s : bytes) (n : Z) (s' : bytes)
    (Hw : 7 <= w) (Hs : Forall is_byte s) :
  (in_u w n -> is_Some (WriteVarInt w n)) /\
  (ReadVarInt w s = Ok (n, s') <->
   in_u w n /\ exists e, WriteVarInt w n = Some e /\ s = e ++ s').
Proof.
  split; [intros Hn; destruct (WriteVarInt_fits w Hw n Hn) as [e ->]; eauto|].
  split; [by apply ReadVarInt_Ok|].
  intros (Hn & e & He & ->). by apply ReadVarInt_WriteVarInt.
Qed.

Lemma ReadVarInt_spec_witness :
  ReadVarInt 32 ([0x82; 0xFE; 0x7F] ++ [1]) = Ok (65535, [1]).
Proof.
  apply (ReadVarInt_spec 32 ([0x82; 0xFE; 0x7F] ++ [1]) 65535 [1]).
  - lia.
  - bytes_ok.
  - split; [unfold in_u; lia|]. eexists. split; reflexivity.
Defined.
