(* ===== verification/Amounts.v ===== *)
(** * Amounts (src/src/consensus/amount.h and the amount compression of
    src/src/primitives/transaction.cpp)

    A [CAmount] is a signed 64-bit integer; here it is a [Z], and the theorems
    of the components that add amounts show that the sums stay in the signed
    64-bit range.  [CompressAmount] and [DecompressAmount] work on [uint64_t],
    so their results are reduced modulo [2^64] where the C++ wraps. *)

From S2P Require Import Prelude.

Definition COIN : Z := 100000000.
Definition MAX_MONEY : Z := 1000000000000000000 - 1.
Definition MoneyRange (nValue : Z) : bool := (0 <=? nValue) && (nValue <=? MAX_MONEY).

(** The [while (n % 10 == 0 && e < 9)] loop; [room] is [9 - e]. *)
Fixpoint strip_tens (room : nat) (n e : Z) : Z * Z :=
  match room with
  | O => (n, e)
  | S room => if n mod 10 =? 0 then strip_tens room (n / 10) (e + 1) else (n, e)
  end.

(** [None] stands for the failure of the [assert] on the last digit. *)
Definition CompressAmount (n : Z) : option Z :=
  if n =? 0 then Some 0
  else
    let '(n, e) := strip_tens 9 n 0 in
    if e <? 9 then
      let d := n mod 10 in
      if (1 <=? d) && (d <=? 9) then
        let n := n / 10 in
        Some (wrapu 64 (1 + (n * 9 + d - 1) * 10 + e))
      else None
    else Some (wrapu 64 (1 + (n - 1) * 10 + 9)).

(** The [while (e) { n *= 10; e--; }] loop. *)
Fixpoint scale_tens (e : nat) (n : Z) : Z :=
  match e with
  | O => n
  | S e => scale_tens e (wrapu 64 (n * 10))
  end.

Definition DecompressAmount (x : Z) : Z :=
  if x =? 0 then 0
  else
    let x := x - 1 in
    let e := x mod 10 in
    let x := x / 10 in
    let n :=
      if e <? 9 then
        let d := x mod 9 + 1 in
        let x := x / 9 in
        wrapu 64 (x * 10 + d)
      else wrapu 64 (x + 1) in
    scale_tens (Z.to_nat e) n.

(** ** Lemmas *)

Lemma MoneyRange_spec v : MoneyRange v = true <-> 0 <= v <= MAX_MONEY.
Proof. unfold MoneyRange. lia. Qed.

(** The loop divides out a power of ten and stops at a last digit that is not
    zero, or after nine turns. *)
Lemma strip_tens_spec room n e n' e' :
  0 < n -> strip_tens room n e = (n', e') ->
  e <= e' <= e + Z.of_nat room /\ n = n' * 10 ^ (e' - e) /\ 0 < n' /\
  (e' < e + Z.of_nat room -> n' mod 10 <> 0).
Proof.
  revert n e. induction room as [|room IH]; intros n e Hn; cbn [strip_tens].
  - intros [= <- <-]. rewrite Z.sub_diag. repeat split; lia.
  - destruct (Z.eqb_spec (n mod 10) 0) as [H0|H0].
    + intros H. apply IH in H as (He & Hmul & Hp & Hd); [|zdm].
      split; [lia|]. split; [|split; [done|intros; apply Hd; lia]].
      replace (e' - e) with (Z.succ (e' - (e + 1))) by lia.
      rewrite Z.pow_succ_r by lia. rewrite Z.mul_shuffle3, <- Hmul. zdm.
    + intros [= <- <-]. rewrite Z.sub_diag. repeat split; lia.
Qed.

Lemma scale_tens_spec e n :
  0 <= n -> n * 10 ^ Z.of_nat e < 2 ^ 64 -> scale_tens e n = n * 10 ^ Z.of_nat e.
Proof.
  revert n. induction e as [|e IH]; intros n Hn Hb; cbn [scale_tens].
  - change (10 ^ Z.of_nat 0) with 1. lia.
  - rewrite Nat2Z.inj_succ, Z.pow_succ_r in * by lia.
    pose proof (Z.pow_pos_nonneg 10 (Z.of_nat e)).
    rewrite wrapu_id by (unfold in_u; nia).
    rewrite IH; nia.
Qed.

(** ** The code of an amount and its value, without wrap-around *)

Lemma CompressAmount_cases n :
  0 < n <= MAX_MONEY ->
  exists m e, n = m * 10 ^ e /\ 0 < m /\ 0 <= e <= 9 /\
   ((e < 9 /\ m mod 10 <> 0 /\
     CompressAmount n = Some (1 + (m / 10 * 9 + m mod 10 - 1) * 10 + e)) \/
    (e = 9 /\ CompressAmount n = Some (1 + (m - 1) * 10 + 9))).
Proof.
  unfold MAX_MONEY. intros Hn. unfold CompressAmount.
  destruct (Z.eqb_spec n 0); [lia|]. destruct (strip_tens 9 n 0) as [m e] eqn:E.
  apply strip_tens_spec in E as (He & Hm & Hp & Hd); [|lia]. rewrite Z.sub_0_r in Hm.
  cbn in He, Hd. exists m, e. split; [done|]. split; [done|]. split; [done|].
  assert (m <= n) by (pose proof (Z.pow_pos_nonneg 10 e); nia).
  destruct (Z.ltb_spec e 9).
  - left. split; [done|]. specialize (Hd ltac:(lia)). split; [done|].
    destruct ((1 <=? m mod 10) && (m mod 10 <=? 9)) eqn:Hb; [|zdm].
    rewrite wrapu_id; [done|]. unfold in_u. zdm.
  - right. assert (e = 9) as -> by lia. split; [done|].
    rewrite wrapu_id; [done|]. unfold in_u. lia.
Qed.

Lemma DecompressAmount_CompressAmount n :
  0 <= n <= MAX_MONEY -> exists x, CompressAmount n = Some x /\ in_u 64 x /\ DecompressAmount x = n.
Proof.
  intros Hn. destruct (Z.eq_dec n 0) as [->|]; [exists 0; repeat split; lia|].
  destruct (CompressAmount_cases n ltac:(lia)) as (m & e & Hm & Hp & He & Hc).
  assert (m <= n) by (pose proof (Z.pow_pos_nonneg 10 e); nia). unfold MAX_MONEY in Hn.
  destruct Hc as [(He9 & Hd & ->)|(-> & ->)]; eexists; (split; [done|]); (split; [unfold in_u; zdm|]);
    unfold DecompressAmount.
  - destruct (Z.eqb_spec (1 + (m / 10 * 9 + m mod 10 - 1) * 10 + e) 0); [zdm|]. cbn zeta.
    replace ((1 + (m / 10 * 9 + m mod 10 - 1) * 10 + e - 1) mod 10) with e by zdm.
    replace ((1 + (m / 10 * 9 + m mod 10 - 1) * 10 + e - 1) / 10) with (m / 10 * 9 + m mod 10 - 1) by zdm.
    destruct (Z.ltb_spec e 9); [|lia].
    replace ((m / 10 * 9 + m mod 10 - 1) / 9) with (m / 10) by zdm.
    replace ((m / 10 * 9 + m mod 10 - 1) mod 9 + 1) with (m mod 10) by zdm.
    replace (m / 10 * 10 + m mod 10) with m by zdm.
    rewrite wrapu_id by (unfold in_u; lia). rewrite scale_tens_spec; rewrite ?Z2Nat.id; lia.
  - destruct (Z.eqb_spec (1 + (m - 1) * 10 + 9) 0); [lia|]. cbn zeta.
    replace ((1 + (m - 1) * 10 + 9 - 1) mod 10) with 9 by zdm.
    replace ((1 + (m - 1) * 10 + 9 - 1) / 10) with (m - 1) by zdm. cbn [Z.ltb Z.compare Pos.compare Pos.compare_cont].
    rewrite wrapu_id by (unfold in_u; lia). rewrite scale_tens_spec; rewrite ?Z2Nat.id; lia.
Qed.

(** The value a code stands for, in unbounded arithmetic: the reference
    reading of the format comment above [CompressAmount]. *)
Definition amount_value (x : Z) : Z :=
  if x =? 0 then 0
  else
    let e := (x - 1) mod 10 in
    let q := (x - 1) / 10 in
    if e <? 9 then (q / 9 * 10 + (q mod 9 + 1)) * 10 ^ e else (q + 1) * 10 ^ 9.

Lemma strip_tens_pow room k m e :
  (k <= room)%nat -> 0 < m -> ((k < room)%nat -> m mod 10 <> 0) ->
  strip_tens room (m * 10 ^ Z.of_nat k) e = (m, e + Z.of_nat k).
Proof.
  revert k e. induction room as [|room IH]; intros k e Hk Hm Hd; cbn [strip_tens].
  - assert (k = 0%nat) as -> by lia. change (10 ^ Z.of_nat 0) with 1. f_equal; lia.
  - destruct k as [|k].
    + change (10 ^ Z.of_nat 0) with 1. rewrite Z.mul_1_r.
      destruct (Z.eqb_spec (m mod 10) 0); [specialize (Hd ltac:(lia)); lia|]. f_equal; lia.
    + rewrite Nat2Z.inj_succ, Z.pow_succ_r by lia.
      replace (m * (10 * 10 ^ Z.of_nat k)) with (m * 10 ^ Z.of_nat k * 10) by lia.
      rewrite Z.mod_mul, Z.div_mul by lia. cbn [Z.eqb].
      rewrite IH by (lia || (intros; apply Hd; lia)). f_equal; lia.
Qed.

(** Below the wrap-around, decompression computes the reference value and
    compression finds the code again. *)
Lemma CompressAmount_DecompressAmount x :
  0 <= x -> amount_value x <= MAX_MONEY ->
  DecompressAmount x = amount_value x /\ CompressAmount (amount_value x) = Some x.
Proof.
  unfold amount_value, DecompressAmount, MAX_MONEY. intros Hx.
  destruct (Z.eqb_spec x 0) as [->|]; [done|]. cbn zeta.
  set (e := (x - 1) mod 10). set (q := (x - 1) / 10).
  assert (0 <= e <= 9 /\ x = 1 + q * 10 + e /\ 0 <= q) as (He & Hxe & Hq) by (unfold e, q; zdm).
  clearbody e q. pose proof (Z.pow_pos_nonneg 10 e ltac:(lia) ltac:(lia)) as Hpow.
  destruct (Z.ltb_spec e 9) as [He9|He9].
  - set (m := q / 9 * 10 + (q mod 9 + 1)). intros Hmax.
    assert (0 < m /\ m mod 10 <> 0 /\ q = m / 10 * 9 + m mod 10 - 1) as (Hm & Hd & Hqm) by (unfold m; zdm).
    clearbody m. split.
    + rewrite wrapu_id by (unfold in_u; nia). rewrite scale_tens_spec; rewrite ?Z2Nat.id; lia.
    + unfold CompressAmount. destruct (Z.eqb_spec (m * 10 ^ e) 0); [nia|].
      rewrite <- (Z2Nat.id e) at 1 by lia. rewrite strip_tens_pow by lia.
      rewrite Z2Nat.id, Z.add_0_l by lia.
      destruct (Z.ltb_spec e 9); [|lia].
      destruct ((1 <=? m mod 10) && (m mod 10 <=? 9)) eqn:Hb; [|zdm].
      rewrite wrapu_id; [f_equal; lia|]. unfold in_u. assert (m <= m * 10 ^ e) by nia. zdm.
  - assert (e = 9) as -> by lia. intros Hmax. split.
    + rewrite wrapu_id by (unfold in_u; lia). rewrite scale_tens_spec; rewrite ?Z2Nat.id; lia.
    + unfold CompressAmount. destruct (Z.eqb_spec ((q + 1) * 10 ^ 9) 0); [lia|].
      change (10 ^ 9) with (10 ^ Z.of_nat 9). rewrite strip_tens_pow by lia.
      destruct (Z.ltb_spec (0 + Z.of_nat 9) 9); [lia|].
      rewrite wrapu_id; [f_equal; lia|]. unfold in_u. lia.
Qed.

(** ** Properties *)

(** on every amount the code accepts as money, compression never trips its
    assert, yields a 64-bit code, and decompression gives the amount back. *)
Theorem DecompressAmount_roundtrip (n : Z) (Hn : MoneyRange n = true) :
  exists x, CompressAmount n = Some x /\ in_u 64 x /\ DecompressAmount x = n.
Proof. apply DecompressAmount_CompressAmount. by apply MoneyRange_spec. Qed.

Lemma DecompressAmount_roundtrip_witness :
  exists x, CompressAmount 123450000 = Some x /\ in_u 64 x /\ DecompressAmount x = 123450000.
Proof. apply (DecompressAmount_roundtrip 123450000). reflexivity. Defined.

(** a code whose value is money and is reached without wrap-around is the
    only code of its amount; the [uint64_t] wrap-around of [DecompressAmount]
    nevertheless gives other codes the same amount (here 10 SYS). *)
Theorem amount_code_unique :
  (forall x y, 0 <= x -> 0 <= y -> amount_value x <= MAX_MONEY -> amount_value y <= MAX_MONEY ->
    DecompressAmount x = DecompressAmount y -> x = y) /\
  exists x, in_u 64 x /\ CompressAmount (10 * COIN) <> Some x /\ DecompressAmount x = 10 * COIN.
Proof.
  split.
  - intros x y Hx Hy Vx Vy H.
    destruct (CompressAmount_DecompressAmount x Hx Vx) as [Dx Cx].
    destruct (CompressAmount_DecompressAmount y Hy Vy) as [Dy Cy].
    rewrite Dx, Dy in H. congruence.
  - exists 360287970189639690. split; [unfold in_u; lia|]. split; [vm_compute; congruence|].
    vm_compute. reflexivity.
Qed.
