(* ===== verification/ArithUint256.v ===== *)
(** * 256-bit unsigned arithmetic (src/src/arith_uint256.h, src/src/arith_uint256.cpp)

    [base_uint<256>] keeps eight 32-bit limbs, least significant first.  The
    definitions below are its operators limb by limb, with the [uint64_t]
    intermediate values reduced where the C++ reduces them.  [val] reads a limb
    list as an integer, and each operator is shown to be the integer operation
    modulo [2^256].  The class [ArithUint] is the interface through which the
    proof-of-work code uses the numbers; the limb representation is its instance. *)

From S2P Require Import Prelude.

Definition WIDTH : nat := 8.

(** ** Representation *)

Fixpoint val (pn : list Z) : Z :=
  match pn with
  | [] => 0
  | x :: pn => x + 2 ^ 32 * val pn
  end.

Definition wf_limbs (pn : list Z) : Prop := length pn = WIDTH /\ Forall (in_u 32) pn.

(** ** Operators *)

Definition base_uint_zero : list Z := replicate WIDTH 0.

Definition base_uint_of_u64 (b : Z) : list Z :=
  wrapu 32 b :: wrapu 32 (Z.shiftr b 32) :: replicate (WIDTH - 2) 0.

Definition base_uint_not (pn : list Z) : list Z := (fun x => wrapu 32 (Z.lnot x)) <$> pn.

Fixpoint base_uint_incr (pn : list Z) : list Z :=
  match pn with
  | [] => []
  | x :: pn =>
      let x := wrapu 32 (x + 1) in
      if x =? 0 then x :: base_uint_incr pn else x :: pn
  end.

Definition base_uint_neg (pn : list Z) : list Z := base_uint_incr (base_uint_not pn).

Fixpoint add_loop (carry : Z) (pn b : list Z) : list Z :=
  match pn, b with
  | x :: pn, y :: b =>
      let n := wrapu 64 (carry + x + y) in
      Z.land n 0xffffffff :: add_loop (Z.shiftr n 32) pn b
  | _, _ => []
  end.

Definition base_uint_add (pn b : list Z) : list Z := add_loop 0 pn b.
Definition base_uint_sub (pn b : list Z) : list Z := base_uint_add pn (base_uint_neg b).

(** [operator*=(uint32_t)]. *)
Fixpoint mul32_loop (carry b32 : Z) (pn : list Z) : list Z :=
  match pn with
  | [] => []
  | x :: pn =>
      let n := wrapu 64 (carry + b32 * x) in
      Z.land n 0xffffffff :: mul32_loop (Z.shiftr n 32) b32 pn
  end.

Definition base_uint_mul32 (pn : list Z) (b32 : Z) : list Z := mul32_loop 0 b32 pn.

(** [operator*=(const base_uint&)]: the inner loop over [i] runs on the part of
    [a] that starts at index [j] and stops at the end of [a]; the outer loop over [j] moves one limb up. *)
Fixpoint mul_row (carry p : Z) (a b : list Z) : list Z :=
  match a, b with
  | x :: a, y :: b =>
      let n := wrapu 64 (carry + x + p * y) in
      Z.land n 0xffffffff :: mul_row (Z.shiftr n 32) p a b
  | a, _ => a
  end.

Fixpoint mul_loop (a pn b : list Z) : list Z :=
  match pn with
  | [] => a
  | p :: pn =>
      match mul_row 0 p a b with
      | [] => []
      | x :: a => x :: mul_loop a pn b
      end
  end.

Definition base_uint_mul (pn b : list Z) : list Z := mul_loop base_uint_zero pn b.

(** [operator<<=] and [operator>>=]: the loop body at index [i], with [k] whole
    limbs and [shift] bits below 32. *)
Definition shl_body (a : list Z) (k : nat) (shift : Z) (pn : list Z) (i : nat) : list Z :=
  let ai := nth i a 0 in
  let pn :=
    if (i + k + 1 <? WIDTH)%nat && negb (shift =? 0)
    then alter (fun y => Z.lor y (Z.shiftr ai (32 - shift))) (i + k + 1)%nat pn else pn in
  if (i + k <? WIDTH)%nat
  then alter (fun y => Z.lor y (wrapu 32 (Z.shiftl ai shift))) (i + k)%nat pn else pn.

Definition base_uint_shl (a : list Z) (shift : Z) : list Z :=
  foldl (shl_body a (Z.to_nat (shift / 32)) (shift mod 32)) base_uint_zero (seq 0 WIDTH).

Definition shr_body (a : list Z) (k : nat) (shift : Z) (pn : list Z) (i : nat) : list Z :=
  let ai := nth i a 0 in
  let pn :=
    if (k + 1 <=? i)%nat && negb (shift =? 0)
    then alter (fun y => Z.lor y (wrapu 32 (Z.shiftl ai (32 - shift)))) (i - k - 1)%nat pn else pn in
  if (k <=? i)%nat
  then alter (fun y => Z.lor y (Z.shiftr ai shift)) (i - k)%nat pn else pn.

Definition base_uint_shr (a : list Z) (shift : Z) : list Z :=
  foldl (shr_body a (Z.to_nat (shift / 32)) (shift mod 32)) base_uint_zero (seq 0 WIDTH).

(** [CompareTo], from the highest limb down, and [EqualTo(uint64_t)]. *)
Fixpoint compare_loop (ra rb : list Z) : Z :=
  match ra, rb with
  | x :: ra, y :: rb => if x <? y then -1 else if y <? x then 1 else compare_loop ra rb
  | _, _ => 0
  end.

Definition CompareTo (a b : list Z) : Z := compare_loop (reverse a) (reverse b).

Definition EqualTo (pn : list Z) (b : Z) : bool :=
  forallb (fun x => x =? 0) (drop 2 pn) &&
  (nth 1 pn 0 =? Z.shiftr b 32) && (nth 0 pn 0 =? Z.land b 0xffffffff).

(** [bits()]: the position of the highest set bit plus one. *)
Fixpoint limb_bits (nbits : nat) (x : Z) : Z :=
  match nbits with
  | O => 1
  | S n => if Z.land x (Z.shiftl 1 (Z.of_nat nbits)) =? 0 then limb_bits n x else Z.of_nat nbits + 1
  end.

Fixpoint bits_loop (rpn : list Z) : Z :=
  match rpn with
  | [] => 0
  | x :: rpn =>
      if x =? 0 then bits_loop rpn
      else 32 * Z.of_nat (length rpn) + limb_bits 31 x
  end.

Definition bits (pn : list Z) : Z := bits_loop (reverse pn).

(** [operator/=]: [shift + 1] turns of the subtract-and-shift loop. *)
Fixpoint div_loop (turns : nat) (num div quot : list Z) : list Z :=
  match turns with
  | O => quot
  | S shift =>
      let '(num, quot) :=
        if 0 <=? CompareTo num div
        then (base_uint_sub num div,
              alter (fun y => Z.lor y (Z.shiftl 1 (Z.land (Z.of_nat shift) 31))) (shift / 32)%nat quot)
        else (num, quot) in
      div_loop shift num (base_uint_shr div 1) quot
  end.

Definition base_uint_div (a b : list Z) : result unit (list Z) :=
  let num_bits := bits a in
  let div_bits := bits b in
  if div_bits =? 0 then Throw tt
  else if num_bits <? div_bits then Ok base_uint_zero
  else
    let shift := num_bits - div_bits in
    Ok (div_loop (Z.to_nat (shift + 1)) a (base_uint_shl b shift) base_uint_zero).

Definition GetLow64 (pn : list Z) : Z := Z.lor (nth 0 pn 0) (wrapu 64 (Z.shiftl (nth 1 pn 0) 32)).

(** ** The compact format *)

(** The value with the [pfNegative] and [pfOverflow] outputs. *)
Definition SetCompact (nCompact : Z) : list Z * bool * bool :=
  let nSize := Z.shiftr nCompact 24 in
  let nWord := Z.land nCompact 0x007fffff in
  let '(v, nWord) :=
    if nSize <=? 3 then
      let nWord := Z.shiftr nWord (8 * (3 - nSize)) in (base_uint_of_u64 nWord, nWord)
    else (base_uint_shl (base_uint_of_u64 nWord) (8 * (nSize - 3)), nWord) in
  (v,
   negb (nWord =? 0) && negb (Z.land nCompact 0x00800000 =? 0),
   negb (nWord =? 0) &&
     ((34 <? nSize) || ((0xff <? nWord) && (33 <? nSize)) || ((0xffff <? nWord) && (32 <? nSize)))).

(** [None] stands for a failed [assert]. *)
Definition GetCompact (pn : list Z) (fNegative : bool) : option Z :=
  let nSize := (bits pn + 7) / 8 in
  let nCompact :=
    if nSize <=? 3 then wrapu 32 (wrapu 64 (Z.shiftl (GetLow64 pn) (8 * (3 - nSize))))
    else wrapu 32 (GetLow64 (base_uint_shr pn (8 * (nSize - 3)))) in
  let '(nCompact, nSize) :=
    if Z.land nCompact 0x00800000 =? 0 then (nCompact, nSize) else (Z.shiftr nCompact 8, nSize + 1) in
  if (Z.land nCompact (wrapu 32 (Z.lnot 0x007fffff)) =? 0) && (nSize <? 256) then
    let nCompact := Z.lor nCompact (wrapu 32 (Z.shiftl nSize 24)) in
    Some (Z.lor nCompact
            (if fNegative && negb (Z.land nCompact 0x007fffff =? 0) then 0x00800000 else 0))
  else None.

(** ** Values of limb lists *)

Definition M (n : nat) : Z := 2 ^ (32 * Z.of_nat n).

Lemma M_S n : M (S n) = 2 ^ 32 * M n.
Proof. unfold M. rewrite <- Z.pow_add_r by lia. f_equal. lia. Qed.

Lemma M_pos n : 0 < M n.
Proof. apply Z.pow_pos_nonneg; lia. Qed.

Lemma val_bound l : Forall (in_u 32) l -> 0 <= val l < M (length l).
Proof.
  induction 1 as [|x l Hx _ IH]; cbn [val length].
  - unfold M. cbn. lia.
  - rewrite M_S. unfold in_u in Hx. lia.
Qed.

Lemma val_app a b : val (a ++ b) = val a + M (length a) * val b.
Proof.
  induction a as [|x a IH]; cbn [app val length].
  - change (M 0) with 1. lia.
  - rewrite IH, M_S. lia.
Qed.

Lemma val_replicate0 n : val (replicate n 0) = 0.
Proof. induction n as [|n IH]; cbn [replicate val]; lia. Qed.

Lemma val_inj a b :
  length a = length b -> Forall (in_u 32) a -> Forall (in_u 32) b -> val a = val b -> a = b.
Proof.
  intros Hl Ha. revert b Hl. induction Ha as [|x a Hx Ha IH]; intros [|y b] Hl Hb Hv; try done.
  apply Forall_cons in Hb as [Hy Hb]. cbn [val] in Hv. unfold in_u in *.
  assert (x = y) as -> by lia. f_equal. apply IH; [by injection Hl|done|lia].
Qed.

Lemma wf_val_bound l : wf_limbs l -> 0 <= val l < 2 ^ 256.
Proof. intros [Hl Hf]. apply val_bound in Hf. rewrite Hl in Hf. exact Hf. Qed.

(** One limb with its carry, against the same step on the values. *)
Lemma limb_step n R m :
  0 < m -> n mod 2 ^ 32 + 2 ^ 32 * ((n / 2 ^ 32 + R) mod m) = (n + 2 ^ 32 * R) mod (2 ^ 32 * m).
Proof.
  intros Hm. rewrite (Z.rem_mul_r (n + 2 ^ 32 * R)) by lia.
  rewrite (Z.mul_comm (2 ^ 32) R), Z.mod_add, Z.div_add by lia. done.
Qed.

Lemma land_u32 n : Z.land n 0xffffffff = n mod 2 ^ 32.
Proof. by apply land_pow2_mask. Qed.

Lemma shiftr_u32 n : Z.shiftr n 32 = n / 2 ^ 32.
Proof. by apply Z.shiftr_div_pow2. Qed.

Lemma in_u32_mod n : in_u 32 (n mod 2 ^ 32).
Proof. apply Z.mod_pos_bound. lia. Qed.
#[export] Hint Resolve in_u32_mod : syscoin.

(** ** Addition, negation and subtraction *)

Lemma add_loop_spec a b c :
  length a = length b -> Forall (in_u 32) a -> Forall (in_u 32) b -> 0 <= c <= 1 ->
  val (add_loop c a b) = (c + val a + val b) mod M (length a) /\
  length (add_loop c a b) = length a /\ Forall (in_u 32) (add_loop c a b).
Proof.
  intros Hl Ha. revert b c Hl. induction Ha as [|x a Hx Ha IH]; intros [|y b] c Hl Hb Hc; try done.
  { split; [|done]. change (M _) with 1. by rewrite Z.mod_1_r. }
  apply Forall_cons in Hb as [Hy Hb]. injection Hl as Hl. unfold in_u in Hx, Hy.
  cbn [add_loop]. rewrite land_u32, shiftr_u32. rewrite wrapu_id by (unfold in_u; lia).
  destruct (IH b ((c + x + y) / 2 ^ 32)) as (Hv & Hn & Hf); [done|done|zdm|].
  cbn [val length]. rewrite Hv, Hn, M_S, <- (Z.add_assoc (_ / _)), limb_step by apply M_pos.
  split; [f_equal; lia|]. split; [done|]. constructor; auto with syscoin.
Qed.

Lemma base_uint_add_spec a b :
  wf_limbs a -> wf_limbs b ->
  wf_limbs (base_uint_add a b) /\ val (base_uint_add a b) = (val a + val b) mod 2 ^ 256.
Proof.
  intros [Ha Fa] [Hb Fb]. destruct (add_loop_spec a b 0) as (Hv & Hl & Hf); [congruence|done|done|lia|].
  unfold base_uint_add, wf_limbs. rewrite Hl, Hv, Ha. done.
Qed.

Lemma base_uint_not_spec a :
  Forall (in_u 32) a ->
  val (base_uint_not a) = M (length a) - 1 - val a /\
  length (base_uint_not a) = length a /\ Forall (in_u 32) (base_uint_not a).
Proof.
  unfold base_uint_not. induction 1 as [|x a Hx Ha (Hv & Hl & Hf)]; [done|].
  unfold in_u in Hx. rewrite fmap_cons. unfold wrapu, Z.lnot.
  replace (Z.pred (- x) mod 2 ^ 32) with (2 ^ 32 - 1 - x) by zdm.
  cbn [val length]. unfold wrapu, Z.lnot in Hv, Hl, Hf. rewrite Hv, Hl, M_S.
  split; [lia|]. split; [done|]. constructor; [unfold in_u; lia|done].
Qed.

Lemma base_uint_incr_spec a :
  Forall (in_u 32) a ->
  val (base_uint_incr a) = (val a + 1) mod M (length a) /\
  length (base_uint_incr a) = length a /\ Forall (in_u 32) (base_uint_incr a).
Proof.
  induction 1 as [|x a Hx Ha (Hv & Hl & Hf)]; [done|].
  unfold in_u in Hx. cbn [base_uint_incr]. unfold wrapu. pose proof (val_bound a Ha) as Hb.
  destruct (Z.eqb_spec ((x + 1) mod 2 ^ 32) 0) as [H0|H0]; cbn [val length].
  - rewrite Hv, Hl, M_S. assert (x = 2 ^ 32 - 1) as -> by zdm.
    pose proof (limb_step (2 ^ 32) (val a) (M (length a)) (M_pos _)) as Hs.
    replace (2 ^ 32 / 2 ^ 32) with 1 in Hs by done. rewrite (Z.add_comm 1) in Hs.
    replace ((2 ^ 32 - 1 + 1) mod 2 ^ 32) with (2 ^ 32 mod 2 ^ 32) by done. rewrite Hs.
    split; [f_equal; lia|]. split; [done|]. constructor; auto with syscoin.
  - rewrite M_S, (Z.mod_small (x + 1)), Z.mod_small by zdm.
    split; [lia|]. split; [done|]. constructor; [unfold in_u; zdm|done].
Qed.

Lemma base_uint_neg_spec a :
  wf_limbs a -> wf_limbs (base_uint_neg a) /\ val (base_uint_neg a) = (- val a) mod 2 ^ 256.
Proof.
  intros [Hl Hf]. destruct (base_uint_not_spec a Hf) as (Nv & Nl & Nf).
  destruct (base_uint_incr_spec _ Nf) as (Iv & Il & If). unfold base_uint_neg, wf_limbs.
  rewrite Il, Iv, Nl, Nv, Hl. split; [done|]. change (M WIDTH) with (2 ^ 256).
  replace (2 ^ 256 - 1 - val a + 1) with (- val a + 1 * 2 ^ 256) by lia. by rewrite Z.mod_add.
Qed.

Lemma base_uint_sub_spec a b :
  wf_limbs a -> wf_limbs b ->
  wf_limbs (base_uint_sub a b) /\ val (base_uint_sub a b) = (val a - val b) mod 2 ^ 256.
Proof.
  intros Ha Hb. destruct (base_uint_neg_spec b Hb) as [Hn Hv].
  destruct (base_uint_add_spec a _ Ha Hn) as [Hw Hs]. split; [done|].
  unfold base_uint_sub. rewrite Hs, Hv, Z.add_mod_idemp_r by lia. done.
Qed.

(** ** Multiplication *)

Lemma mul32_loop_spec a b c :
  Forall (in_u 32) a -> in_u 32 b -> in_u 32 c ->
  val (mul32_loop c b a) = (c + b * val a) mod M (length a) /\
  length (mul32_loop c b a) = length a /\ Forall (in_u 32) (mul32_loop c b a).
Proof.
  intros Ha Hb. revert c. induction Ha as [|x a Hx Ha IH]; intros c Hc.
  { split; [|done]. change (M _) with 1. by rewrite Z.mod_1_r. }
  unfold in_u in Hx, Hb, Hc. cbn [mul32_loop]. rewrite land_u32, shiftr_u32.
  rewrite wrapu_id by (unfold in_u; nia).
  destruct (IH ((c + b * x) / 2 ^ 32)) as (Hv & Hn & Hf).
  { unfold in_u. split; [apply Z.div_pos; nia|apply Z.div_lt_upper_bound; nia]. }
  cbn [val length]. rewrite Hv, Hn, M_S, limb_step by apply M_pos.
  split; [f_equal; lia|]. split; [done|]. constructor; auto with syscoin.
Qed.

Lemma base_uint_mul32_spec a b :
  wf_limbs a -> in_u 32 b ->
  wf_limbs (base_uint_mul32 a b) /\ val (base_uint_mul32 a b) = (val a * b) mod 2 ^ 256.
Proof.
  intros [Hl Hf] Hb. destruct (mul32_loop_spec a b 0 Hf Hb) as (Hv & Hn & Fn); [unfold in_u; lia|].
  unfold base_uint_mul32, wf_limbs. rewrite Hn, Hv, Hl, Z.mul_comm. done.
Qed.

Lemma mul_row_spec p a b c :
  (length a <= length b)%nat -> Forall (in_u 32) a -> Forall (in_u 32) b -> in_u 32 p -> in_u 32 c ->
  val (mul_row c p a b) = (c + val a + p * val b) mod M (length a) /\
  length (mul_row c p a b) = length a /\ Forall (in_u 32) (mul_row c p a b).
Proof.
  intros Hl Ha Hb Hp. revert b c Hl Hb.
  induction Ha as [|x a Hx Ha IH]; intros b c Hl Hb Hc.
  { split; [|by destruct b]. change (M _) with 1. rewrite Z.mod_1_r. by destruct b. }
  destruct Hb as [|y b Hy Hb]; [cbn in Hl; lia|]. cbn in Hl. unfold in_u in Hx, Hy, Hp, Hc.
  cbn [mul_row]. rewrite land_u32, shiftr_u32. rewrite wrapu_id by (unfold in_u; nia).
  destruct (IH b ((c + x + p * y) / 2 ^ 32)) as (Hv & Hn & Hf); [lia|done| |].
  { unfold in_u. split; [apply Z.div_pos; nia|apply Z.div_lt_upper_bound; nia]. }
  cbn [val length]. rewrite Hv, Hn, M_S, <- (Z.add_assoc (_ / _)), limb_step by apply M_pos.
  split; [f_equal; lia|]. split; [done|]. constructor; auto with syscoin.
Qed.

Lemma mul_loop_spec pn a b :
  length a = length pn -> (length a <= length b)%nat ->
  Forall (in_u 32) pn -> Forall (in_u 32) a -> Forall (in_u 32) b ->
  val (mul_loop a pn b) = (val a + val pn * val b) mod M (length a) /\
  length (mul_loop a pn b) = length a /\ Forall (in_u 32) (mul_loop a pn b).
Proof.
  intros Hl Hle Hp. revert a Hl Hle. induction Hp as [|p pn Hp Hpn IH]; intros a Hl Hle Ha Hb.
  { destruct a; [|done]. split; [|done]. change (M _) with 1. by rewrite Z.mod_1_r. }
  cbn [mul_loop].
  destruct (mul_row_spec p a b 0) as (Hv & Hn & Hf); [done..|unfold in_u; lia|].
  destruct (mul_row 0 p a b) as [|x r] eqn:E; [cbn in Hn, Hl; lia|].
  apply Forall_cons in Hf as [Hx Hf]. cbn [val] in Hv.
  destruct a as [|z a]; [done|]. injection Hl as Hl. injection Hn as Hn. cbn [length] in Hle.
  destruct (IH r) as (Rv & Rl & Rf); [congruence|lia|done|done|].
  cbn [val length]. rewrite Rv, Rl, Hn. split; [|split; [done|by constructor]].
  cbn [val length] in Hv. rewrite M_S in Hv |- *. unfold in_u in Hx.
  pose proof (limb_step x (val r + val pn * val b) (M (length a)) (M_pos _)) as Hs.
  rewrite (Z.mod_small x), (Z.div_small x), Z.add_0_l in Hs by lia. rewrite Hs.
  replace (x + 2 ^ 32 * (val r + val pn * val b)) with (x + 2 ^ 32 * val r + 2 ^ 32 * (val pn * val b)) by lia.
  rewrite Hv, Z.add_mod_idemp_l by (pose proof (M_pos (length a)); lia). f_equal. lia.
Qed.

Lemma base_uint_zero_spec : wf_limbs base_uint_zero /\ val base_uint_zero = 0.
Proof. split; [|done]. split; [done|]. apply Forall_replicate. unfold in_u. lia. Qed.

Lemma base_uint_mul_spec a b :
  wf_limbs a -> wf_limbs b ->
  wf_limbs (base_uint_mul a b) /\ val (base_uint_mul a b) = (val a * val b) mod 2 ^ 256.
Proof.
  intros [Ha Fa] [Hb Fb]. destruct base_uint_zero_spec as [[Zl Zf] Zv].
  destruct (mul_loop_spec a base_uint_zero b) as (Hv & Hl & Hf); [congruence|rewrite Zl, Hb; done|done..|].
  unfold base_uint_mul, wf_limbs. rewrite Hl, Hv, Zl, Zv. done.
Qed.

Lemma base_uint_of_u64_spec b :
  in_u 64 b -> wf_limbs (base_uint_of_u64 b) /\ val (base_uint_of_u64 b) = b.
Proof.
  unfold in_u. intros Hb. unfold base_uint_of_u64. rewrite shiftr_u32. split.
  - split; [done|]. repeat (apply Forall_cons; split); try (apply wrapu_in; lia); try apply Forall_nil_2;
      unfold in_u; lia.
  - cbn [val replicate WIDTH Nat.sub]. unfold wrapu. zdm.
Qed.

(** ** Comparison *)

Lemma compare_loop_spec ra rb :
  length ra = length rb -> Forall (in_u 32) ra -> Forall (in_u 32) rb ->
  compare_loop ra rb =
  match val (reverse ra) ?= val (reverse rb) with Lt => -1 | Eq => 0 | Gt => 1 end.
Proof.
  intros Hl Ha. revert rb Hl. induction Ha as [|x ra Hx Ha IH]; intros [|y rb] Hl Hb; try done.
  apply Forall_cons in Hb as [Hy Hb]. injection Hl as Hl. cbn [compare_loop].
  rewrite !reverse_cons, !val_app, !length_reverse, Hl. cbn [val].
  pose proof (val_bound (reverse ra) ltac:(by apply Forall_reverse)) as Hra.
  pose proof (val_bound (reverse rb) ltac:(by apply Forall_reverse)) as Hrb.
  rewrite length_reverse in Hra, Hrb. rewrite Hl in Hra. unfold in_u in *.
  destruct (Z.ltb_spec x y); [|destruct (Z.ltb_spec y x)].
  - rewrite (proj2 (Z.compare_lt_iff _ _)); [done|nia].
  - rewrite (proj2 (Z.compare_gt_iff _ _)); [done|nia].
  - assert (x = y) as -> by lia. rewrite IH by done.
    rewrite (Z.add_comm (val (reverse ra))), (Z.add_comm (val (reverse rb))), Z.add_compare_mono_l. done.
Qed.

Lemma CompareTo_spec a b :
  wf_limbs a -> wf_limbs b ->
  CompareTo a b = match val a ?= val b with Lt => -1 | Eq => 0 | Gt => 1 end.
Proof.
  intros [Ha Fa] [Hb Fb]. unfold CompareTo.
  rewrite compare_loop_spec by (rewrite ?length_reverse; try apply Forall_reverse; congruence || done).
  by rewrite !reverse_involutive.
Qed.

Lemma CompareTo_ge a b : wf_limbs a -> wf_limbs b -> (0 <=? CompareTo a b) = (val b <=? val a).
Proof. intros Ha Hb. rewrite CompareTo_spec by done. destruct (Z.compare_spec (val a) (val b)); lia. Qed.

Lemma CompareTo_gt a b : wf_limbs a -> wf_limbs b -> (0 <? CompareTo a b) = (val b <? val a).
Proof. intros Ha Hb. rewrite CompareTo_spec by done. destruct (Z.compare_spec (val a) (val b)); lia. Qed.

Lemma EqualTo_spec a b : wf_limbs a -> in_u 64 b -> EqualTo a b = (val a =? b).
Proof.
  intros [Hl Hf] Hb. destruct a as [|x [|y a]]; try done. unfold EqualTo, in_u in *.
  change (drop 2 _) with a. cbn [nth]. rewrite land_u32, shiftr_u32.
  apply Forall_cons in Hf as [Hx Hf]. apply Forall_cons in Hf as [Hy Hf]. clear Hl.
  assert (forallb (fun z => z =? 0) a = (val a =? 0)) as ->.
  { clear Hx Hy. induction Hf as [|z a Hz Hf IH]; [done|]. cbn [forallb val].
    rewrite IH. pose proof (val_bound a Hf). lia. }
  pose proof (val_bound a Hf). cbn [val]. zdm.
Qed.

(** ** Shifts *)

(** The shift loops as list functions: [shl_list] carries the high bits of each
    limb into the next one, [shr_list] takes the low bits of the next one. *)
Fixpoint shl_list (s c : Z) (l : list Z) : list Z :=
  match l with
  | [] => []
  | x :: l => Z.lor c (wrapu 32 (Z.shiftl x s)) :: shl_list s (Z.shiftr x (32 - s)) l
  end.

Fixpoint shr_list (s : Z) (l : list Z) : list Z :=
  match l with
  | [] => []
  | x :: l => Z.lor (Z.shiftr x s) (wrapu 32 (Z.shiftl (nth 0 l 0) (32 - s))) :: shr_list s l
  end.

Lemma val_take n l : Forall (in_u 32) l -> val (take n l) = val l mod M n.
Proof.
  intros Hf. rewrite <- (take_drop n l) at 2. rewrite val_app, length_take.
  destruct (Nat.le_ge_cases n (length l)) as [Hn|Hn].
  - rewrite Nat.min_l, Z.mul_comm, Z.mod_add by (done || pose proof (M_pos n); lia).
    pose proof (val_bound (take n l) ltac:(by apply Forall_take)) as Hb.
    rewrite length_take, Nat.min_l in Hb by done. by rewrite Z.mod_small.
  - rewrite drop_ge, take_ge by done. cbn [val]. rewrite Z.mul_0_r, Z.add_0_r, Z.mod_small; [done|].
    pose proof (val_bound l Hf). unfold M in *.
    pose proof (Z.pow_le_mono_r 2 (32 * Z.of_nat (length l)) (32 * Z.of_nat n)). lia.
Qed.

Lemma val_drop n l : Forall (in_u 32) l -> val (drop n l) = val l / M n.
Proof.
  intros Hf. rewrite <- (take_drop n l) at 2. rewrite val_app, length_take.
  destruct (Nat.le_ge_cases n (length l)) as [Hn|Hn].
  - pose proof (val_bound (take n l) ltac:(by apply Forall_take)) as Hb.
    rewrite length_take, Nat.min_l in Hb by done.
    rewrite Nat.min_l, Z.mul_comm, Z.div_add by (done || lia). by rewrite Z.div_small.
  - rewrite drop_ge, take_ge by done. cbn [val]. rewrite Z.mul_0_r, Z.add_0_r, Z.div_small; [done|].
    pose proof (val_bound l Hf). unfold M in *.
    pose proof (Z.pow_le_mono_r 2 (32 * Z.of_nat (length l)) (32 * Z.of_nat n)). lia.
Qed.

Lemma pow_split s : 0 <= s < 32 -> 2 ^ s * 2 ^ (32 - s) = 2 ^ 32 /\ 0 < 2 ^ s /\ 0 < 2 ^ (32 - s).
Proof.
  intros Hs. rewrite <- Z.pow_add_r by lia. split; [f_equal; lia|].
  split; apply Z.pow_pos_nonneg; lia.
Qed.

(** A left-shifted limb keeps its low bits; the rest is the carry. *)
Lemma limb_shl x s : 0 <= s < 32 -> in_u 32 x ->
  wrapu 32 (Z.shiftl x s) = (x mod 2 ^ (32 - s)) * 2 ^ s /\
  Z.shiftr x (32 - s) = x * 2 ^ s / 2 ^ 32 /\ 0 <= x * 2 ^ s / 2 ^ 32 < 2 ^ s.
Proof.
  unfold in_u. intros Hs Hx. destruct (pow_split s Hs) as (Hpq & Hp & Hq).
  rewrite Z.shiftl_mul_pow2, Z.shiftr_div_pow2 by lia. unfold wrapu. rewrite <- Hpq.
  rewrite (Z.mul_comm (2 ^ s) (2 ^ (32 - s))), Z.mul_mod_distr_r, Z.div_mul_cancel_r by lia.
  split; [done|]. split; [done|].
  split; [apply Z.div_pos; lia|apply Z.div_lt_upper_bound; lia].
Qed.

Lemma shl_list_spec s c l :
  0 <= s < 32 -> Forall (in_u 32) l -> 0 <= c < 2 ^ s ->
  val (shl_list s c l) = (c + 2 ^ s * val l) mod M (length l) /\
  length (shl_list s c l) = length l /\ Forall (in_u 32) (shl_list s c l).
Proof.
  intros Hs Hl. revert c. induction Hl as [|x l Hx Hl IH]; intros c Hc.
  { split; [|done]. change (M _) with 1. by rewrite Z.mod_1_r. }
  destruct (limb_shl x s Hs Hx) as (Hlo & Hhi & Hb). destruct (pow_split s Hs) as (Hpq & Hp & Hq).
  unfold in_u in Hx. cbn [shl_list]. rewrite Hhi, Hlo.
  rewrite Z.lor_comm, lor_shift_add, <- Hlo, Z.shiftl_mul_pow2 by lia.
  destruct (IH (x * 2 ^ s / 2 ^ 32)) as (Hv & Hn & Hf); [done|].
  assert (x * 2 ^ s mod 2 ^ 32 = (x mod 2 ^ (32 - s)) * 2 ^ s) as Hm
    by (rewrite <- Hlo, Z.shiftl_mul_pow2 by lia; done).
  assert (x mod 2 ^ (32 - s) <= 2 ^ (32 - s) - 1) by (pose proof (Z.mod_pos_bound x (2 ^ (32 - s))); lia).
  assert (0 <= x mod 2 ^ (32 - s)) by (apply Z.mod_pos_bound; lia).
  unfold wrapu. cbn [val length]. rewrite Hv, Hn, M_S.
  assert (c + x * 2 ^ s = x * 2 ^ s / 2 ^ 32 * 2 ^ 32 + (x * 2 ^ s mod 2 ^ 32 + c)) as Hd.
  { pose proof (Z.div_mod (x * 2 ^ s) (2 ^ 32)). lia. }
  assert ((c + x * 2 ^ s) mod 2 ^ 32 = x * 2 ^ s mod 2 ^ 32 + c) as H1.
  { rewrite Hd, Z.add_comm, Z.mod_add, Z.mod_small; nia. }
  assert ((c + x * 2 ^ s) / 2 ^ 32 = x * 2 ^ s / 2 ^ 32) as H2.
  { rewrite Hd, Z.add_comm, Z.div_add, (Z.div_small (_ + _)); nia. }
  split; [|split; [done|]].
  - rewrite <- H1, <- H2, limb_step by apply M_pos. f_equal. lia.
  - constructor; [|done]. rewrite <- H1. auto with syscoin.
Qed.

Lemma limb_shr0 x : in_u 32 x -> Z.shiftr x (32 - 0) = 0.
Proof. unfold in_u. intros. rewrite Z.shiftr_div_pow2 by lia. apply Z.div_small. lia. Qed.

Lemma limb_shl32 x : in_u 32 x -> wrapu 32 (Z.shiftl x (32 - 0)) = 0.
Proof. unfold in_u, wrapu. intros. rewrite Z.shiftl_mul_pow2 by lia. apply Z.mod_mul. lia. Qed.

(** The eight limbs of a well-formed list. *)
Ltac destruct_limbs a Ha :=
  let Hl := fresh "Hl" in let Hf := fresh "Hf" in
  destruct Ha as [Hl Hf];
  do 9 (destruct a as [|?x a]; [first [discriminate Hl | idtac]|]); try discriminate Hl;
  repeat (apply Forall_cons in Hf as [? Hf]).

Lemma base_uint_shl_list a k s :
  wf_limbs a -> 0 <= s < 32 ->
  foldl (shl_body a k s) base_uint_zero (seq 0 WIDTH) = take WIDTH (replicate k 0 ++ shl_list s 0 a).
Proof.
  intros Ha Hs. destruct_limbs a Ha.
  do 8 (destruct k as [|k];
    [unfold shl_body; destruct (Z.eqb_spec s 0) as [->|];
     cbn -[Z.lor Z.shiftl Z.shiftr wrapu Z.sub]; rewrite ?Z.lor_0_l, ?limb_shr0 by done;
     rewrite ?Z.lor_0_l; reflexivity|]).
  reflexivity.
Qed.

Lemma base_uint_shr_list a k s :
  wf_limbs a -> 0 <= s < 32 ->
  foldl (shr_body a k s) base_uint_zero (seq 0 WIDTH) =
  take WIDTH (shr_list s (drop k a) ++ base_uint_zero).
Proof.
  intros Ha Hs. destruct_limbs a Ha.
  do 8 (destruct k as [|k];
    [unfold shr_body; destruct (Z.eqb_spec s 0) as [->|];
     cbn -[Z.lor Z.shiftl Z.shiftr wrapu Z.sub]; rewrite ?Z.lor_0_l, ?limb_shl32 by (done || unfold in_u; lia);
     rewrite ?Z.shiftl_0_l; change (wrapu 32 0) with 0; rewrite ?Z.lor_0_r; reflexivity|]).
  destruct k; reflexivity.
Qed.

Lemma base_uint_shl_spec a shift :
  wf_limbs a -> 0 <= shift ->
  wf_limbs (base_uint_shl a shift) /\ val (base_uint_shl a shift) = (val a * 2 ^ shift) mod 2 ^ 256.
Proof.
  intros Ha Hs. unfold base_uint_shl.
  assert (0 <= shift mod 32 < 32) as Hm by (apply Z.mod_pos_bound; lia).
  rewrite base_uint_shl_list by done. destruct Ha as [Hl Hf].
  destruct (shl_list_spec (shift mod 32) 0 a Hm Hf) as (Sv & Sl & Sf).
  { pose proof (Z.pow_pos_nonneg 2 (shift mod 32)). lia. }
  set (k := Z.to_nat (shift / 32)).
  assert (Forall (in_u 32) (replicate k 0 ++ shl_list (shift mod 32) 0 a)) as Hall.
  { apply Forall_app. split; [apply Forall_replicate; unfold in_u; lia|done]. }
  split.
  - split; [|by apply Forall_take]. rewrite length_take, length_app, length_replicate, Sl, Hl. unfold WIDTH. lia.
  - rewrite val_take, val_app, val_replicate0, length_replicate, Sv, Hl by done.
    change (M WIDTH) with (2 ^ 256). rewrite Z.add_0_l, Z.mul_mod_idemp_r by lia. f_equal.
    replace (2 ^ shift) with (M k * 2 ^ (shift mod 32)); [lia|].
    unfold M, k. rewrite <- Z.pow_add_r by zdm. f_equal. zdm.
Qed.

Lemma limb_shr x y s : 0 <= s < 32 -> in_u 32 x -> in_u 32 y ->
  let z := Z.lor (Z.shiftr x s) (wrapu 32 (Z.shiftl y (32 - s))) in
  in_u 32 z /\ z = x / 2 ^ s + 2 ^ (32 - s) * (y mod 2 ^ s).
Proof.
  unfold in_u. intros Hs Hx Hy. destruct (pow_split s Hs) as (Hpq & Hp & Hq). cbn zeta.
  rewrite Z.shiftl_mul_pow2, Z.shiftr_div_pow2 by lia. unfold wrapu. rewrite <- Hpq.
  rewrite Z.mul_mod_distr_r by lia.
  assert (0 <= x / 2 ^ s < 2 ^ (32 - s)).
  { split; [apply Z.div_pos; lia|apply Z.div_lt_upper_bound; lia]. }
  pose proof (Z.mod_pos_bound y (2 ^ s) Hp).
  rewrite Z.lor_comm, lor_shift_add by lia. split; nia.
Qed.

Lemma shr_list_spec s l :
  0 <= s < 32 -> Forall (in_u 32) l ->
  val (shr_list s l) = val l / 2 ^ s /\
  length (shr_list s l) = length l /\ Forall (in_u 32) (shr_list s l).
Proof.
  intros Hs. destruct (pow_split s Hs) as (Hpq & Hp & Hq).
  induction 1 as [|x l Hx Hl (Hv & Hn & Hf)].
  { split; [|done]. by rewrite Z.div_0_l by lia. }
  set (y := nth 0 l 0).
  assert (in_u 32 y) as Hy by (unfold y; destruct Hl; [unfold in_u; cbn; lia|done]).
  destruct (limb_shr x y s Hs Hx Hy) as [Hz Hzv]. fold y in Hz, Hzv. cbn [shr_list]. fold y.
  split; [|split; [cbn [length]; congruence|by constructor]].
  cbn [val]. rewrite Hzv, Hv.
  assert (val l mod 2 ^ s = y mod 2 ^ s) as Hlow.
  { unfold y. destruct l as [|y' l]; [done|]. cbn [nth val].
    rewrite <- Hpq, <- Z.mul_assoc, (Z.mul_comm (2 ^ s)), Z.mod_add by lia. done. }
  pose proof (Z.div_mod (val l) (2 ^ s)) as Hd1. pose proof (Z.div_mod x (2 ^ s)) as Hd2.
  pose proof (Z.mod_pos_bound x (2 ^ s) Hp). rewrite Hlow in Hd1.
  apply Z.div_unique with (x mod 2 ^ s); [lia|]. rewrite <- Hpq. nia.
Qed.

Lemma base_uint_shr_spec a shift :
  wf_limbs a -> 0 <= shift ->
  wf_limbs (base_uint_shr a shift) /\ val (base_uint_shr a shift) = val a / 2 ^ shift.
Proof.
  intros Ha Hs. unfold base_uint_shr.
  assert (0 <= shift mod 32 < 32) as Hm by (apply Z.mod_pos_bound; lia).
  rewrite base_uint_shr_list by done. destruct Ha as [Hl Hf].
  set (k := Z.to_nat (shift / 32)).
  assert (Forall (in_u 32) (drop k a)) as Hd by by apply Forall_drop.
  destruct (shr_list_spec (shift mod 32) (drop k a) Hm Hd) as (Sv & Sl & Sf).
  destruct base_uint_zero_spec as [[Zl Zf] Zv].
  assert (Forall (in_u 32) (shr_list (shift mod 32) (drop k a) ++ base_uint_zero)) as Hall
    by (by apply Forall_app).
  split.
  - split; [|by apply Forall_take]. rewrite length_take, length_app, Sl, length_drop, Hl, Zl. unfold WIDTH. lia.
  - rewrite val_take, val_app, Zv, Sv, val_drop by done.
    rewrite Z.mul_0_r, Z.add_0_r, Z.div_div by (try apply M_pos; pose proof (M_pos k);
      try apply Z.pow_pos_nonneg; lia).
    replace (M k * 2 ^ (shift mod 32)) with (2 ^ shift).
    + apply Z.mod_small. pose proof (val_bound a Hf) as Hb. rewrite Hl in Hb.
      pose proof (Z.pow_pos_nonneg 2 shift). split; [apply Z.div_pos; lia|].
      apply Z.div_lt_upper_bound; [lia|]. nia.
    + unfold M, k. rewrite <- Z.pow_add_r by zdm. f_equal. zdm.
Qed.

(** ** The position of the highest bit *)

Lemma limb_bits_spec n x : 0 < x < 2 ^ (Z.of_nat n + 1) -> limb_bits n x = Z.log2 x + 1.
Proof.
  induction n as [|n IH]; intros Hx; cbn [limb_bits].
  - assert (x = 1) as -> by (change (2 ^ (Z.of_nat 0 + 1)) with 2 in Hx; lia). done.
  - rewrite Z.shiftl_mul_pow2, Z.mul_1_l, land_pow2_testbit by lia.
    destruct (Z.testbit x (Z.of_nat (S n))) eqn:E; cbn [negb].
    + f_equal. symmetry. apply Z.log2_unique; [lia|]. replace (Z.succ (Z.of_nat (S n))) with (Z.of_nat (S n) + 1) by lia.
      split; [|lia]. apply Z.nlt_ge. intros Hlt.
      rewrite Z.bits_above_log2 in E; [done|lia|]. apply Z.log2_lt_pow2; lia.
    + apply IH. split; [lia|]. replace (Z.of_nat n + 1) with (Z.of_nat (S n)) by lia.
      apply Z.nle_gt. intros Hge. assert (Z.log2 x = Z.of_nat (S n)) as Hlog.
      { apply Z.log2_unique; [lia|]. replace (Z.succ (Z.of_nat (S n))) with (Z.of_nat (S n) + 1) by lia. lia. }
      rewrite <- Hlog, Z.bit_log2 in E; [done|lia].
Qed.

Definition bit_length (v : Z) : Z := if v =? 0 then 0 else Z.log2 v + 1.

Lemma bits_loop_spec rpn :
  Forall (in_u 32) rpn -> bits_loop rpn = bit_length (val (reverse rpn)).
Proof.
  induction 1 as [|x l Hx Hl IH]; [done|]. cbn [bits_loop]. unfold in_u in Hx.
  rewrite reverse_cons, val_app, length_reverse. cbn [val].
  pose proof (val_bound (reverse l) ltac:(by apply Forall_reverse)) as Hb. rewrite length_reverse in Hb.
  pose proof (M_pos (length l)) as HM.
  destruct (Z.eqb_spec x 0) as [->|Hnz]; [rewrite IH; f_equal; lia|].
  rewrite limb_bits_spec by (cbn; lia). unfold bit_length.
  destruct (Z.eqb_spec (val (reverse l) + M (length l) * (x + 2 ^ 32 * 0)) 0); [nia|].
  rewrite Z.add_assoc. f_equal. symmetry. pose proof (Z.log2_spec x ltac:(lia)) as Hlog.
  pose proof (Z.log2_nonneg x). apply Z.log2_unique; [lia|].
  rewrite <- Z.add_succ_r, !Z.pow_add_r by lia. fold (M (length l)). nia.
Qed.

Lemma bits_spec a : wf_limbs a -> bits a = bit_length (val a).
Proof.
  intros [Hl Hf]. unfold bits. rewrite bits_loop_spec, reverse_involutive; [done|by apply Forall_reverse].
Qed.

(** [bit_length v] is the least exponent of two above [v]. *)
Lemma bit_length_spec v : 0 <= v -> v < 2 ^ bit_length v /\ (0 < v -> 2 ^ (bit_length v - 1) <= v) /\ 0 <= bit_length v.
Proof.
  intros Hv. unfold bit_length. destruct (Z.eqb_spec v 0) as [->|]; [cbn; lia|].
  pose proof (Z.log2_spec v ltac:(lia)) as H. pose proof (Z.log2_nonneg v).
  replace (Z.log2 v + 1 - 1) with (Z.log2 v) by lia. rewrite <- Z.add_1_r in H. lia.
Qed.

Lemma bit_length_le v n : 0 <= n -> 0 <= v < 2 ^ n -> bit_length v <= n.
Proof.
  intros Hn Hv. destruct (bit_length_spec v ltac:(lia)) as (_ & H & _).
  destruct (Z.eq_dec v 0) as [->|]; [done|]. apply Z.nlt_ge. intros Hlt.
  pose proof (Z.pow_le_mono_r 2 n (bit_length v - 1)). lia.
Qed.

(** ** Division *)

Lemma mul_small_0 m k v : 0 <= v < m -> m * k = v -> v = 0.
Proof. intros Hv H. rewrite <- (Z.mod_small v m) by done. rewrite <- H, Z.mul_comm. apply Z.mod_mul. lia. Qed.

Lemma val_set_bit l s :
  Forall (in_u 32) l -> (s / 32 < length l)%nat -> val l mod 2 ^ (Z.of_nat s + 1) = 0 ->
  let l' := alter (fun y => Z.lor y (Z.shiftl 1 (Z.land (Z.of_nat s) 31))) (s / 32)%nat l in
  length l' = length l /\ Forall (in_u 32) l' /\ val l' = val l + 2 ^ Z.of_nat s.
Proof.
  intros Hf Hk Hmod. cbn zeta.
  destruct (lookup_lt_is_Some_2 l (s / 32)%nat Hk) as [x Hx].
  pose proof (take_drop_middle l _ x Hx) as Hl.
  assert (length (take (s / 32) l) = s / 32)%nat as Hlt by (rewrite length_take; lia).
  set (l1 := take (s / 32) l) in *. set (l2 := drop (S (s / 32)) l) in *. rewrite <- Hl in Hf, Hmod |- *.
  apply Forall_app in Hf as [Hf1 Hf]. apply Forall_cons in Hf as [Hxu Hf2].
  assert (forall f, alter f (s / 32)%nat (l1 ++ x :: l2) = l1 ++ f x :: l2) as Halt.
  { intros f. rewrite <- Hlt, <- (Nat.add_0_r (length l1)). by rewrite alter_app_r. }
  rewrite Halt. clearbody l1 l2.
  rewrite (land_pow2_mask _ 5) by done. rewrite Z.shiftl_mul_pow2, Z.mul_1_l by (apply Z.mod_pos_bound; lia).
  change (2 ^ 5) with 32. set (j := Z.of_nat s mod 32).
  assert (0 <= j < 32) as Hj by (apply Z.mod_pos_bound; lia).
  assert (2 ^ Z.of_nat s = M (length l1) * 2 ^ j) as Hs.
  { unfold M, j. rewrite Hlt, <- Z.pow_add_r by zdm. f_equal. rewrite Nat2Z.inj_div. zdm. }
  rewrite !val_app in *. cbn [val] in *. rewrite Z.pow_add_r, Hs in Hmod by lia.
  pose proof (val_bound l1 Hf1) as Hb1. pose proof (M_pos (length l1)) as HM.
  pose proof (Z.pow_pos_nonneg 2 j ltac:(lia) ltac:(lia)) as Hp.
  assert (2 ^ 32 = 2 * 2 ^ j * 2 ^ (31 - j)) as HB.
  { rewrite <- Z.mul_assoc, <- Z.pow_add_r, <- Z.pow_succ_r by lia. f_equal. lia. }
  apply Z.mod_divide in Hmod as [Q HQ]; [|nia]. unfold in_u in Hxu.
  assert (val l1 = 0) as Hz1
    by (apply (mul_small_0 (M (length l1)) (Q * 2 ^ j * 2 - (x + 2 ^ 32 * val l2))); lia).
  assert (x + 2 ^ 32 * val l2 = Q * (2 ^ j * 2)) as HxQ
    by (apply (Z.mul_reg_l _ _ (M (length l1))); lia).
  set (q := Q - 2 ^ (31 - j) * val l2). assert (x = q * (2 * 2 ^ j)) as Hxq by (unfold q; rewrite HB in HxQ; lia).
  assert (Z.lor x (2 ^ j) = x + 2 ^ j) as Hor.
  { pose proof (lor_shift_add q (2 ^ j) (j + 1)) as Hls.
    rewrite Z.pow_add_r, (Z.mul_comm _ (2 ^ 1)) in Hls by lia. change (2 ^ 1) with 2 in Hls. rewrite Hxq. apply Hls; lia. }
  rewrite Hor. split; [by rewrite !length_app|]. split; [|lia].
  apply Forall_app. split; [done|]. constructor; [|done]. unfold in_u.
  pose proof (Z.pow_pos_nonneg 2 (31 - j) ltac:(lia) ltac:(lia)).
  rewrite HB in Hxu |- *. assert (q < 2 ^ (31 - j)) by nia. nia.
Qed.

(** The subtract-and-shift loop: with [t] turns to go, [div] is the divisor
    shifted by [t - 1], the remainder is below the divisor shifted by [t], and
    the low [t] bits of the quotient are still clear. *)
Lemma div_loop_spec D t num div quot :
  0 < D -> wf_limbs num -> wf_limbs div -> wf_limbs quot -> (t <= 256)%nat ->
  (t <> 0%nat -> val div = D * 2 ^ (Z.of_nat t - 1)) ->
  val num < D * 2 ^ Z.of_nat t -> val quot mod 2 ^ Z.of_nat t = 0 ->
  wf_limbs (div_loop t num div quot) /\ val (div_loop t num div quot) = val quot + val num / D.
Proof.
  intros HD. revert num div quot.
  induction t as [|shift IH]; intros num div quot Hn Hd Hq Ht Hdiv Hlt Hmod.
  { change (2 ^ Z.of_nat 0) with 1 in Hlt. pose proof (wf_val_bound num Hn). cbn [div_loop].
    rewrite Z.div_small by lia. split; [done|lia]. }
  specialize (Hdiv ltac:(done)). replace (Z.of_nat (S shift) - 1) with (Z.of_nat shift) in Hdiv by lia.
  replace (Z.of_nat (S shift)) with (Z.of_nat shift + 1) in Hlt, Hmod by lia.
  pose proof (Z.pow_pos_nonneg 2 (Z.of_nat shift) ltac:(lia) ltac:(lia)) as Hp.
  assert (2 ^ (Z.of_nat shift + 1) = 2 * 2 ^ Z.of_nat shift) as H2 by (rewrite Z.pow_add_r; lia).
  destruct (base_uint_shr_spec div 1 Hd ltac:(lia)) as [Hd' Hdv'].
  assert (shift <> 0%nat -> val (base_uint_shr div 1) = D * 2 ^ (Z.of_nat shift - 1)) as Hdiv'.
  { intros Hnz. rewrite Hdv', Hdiv. change (2 ^ 1) with 2.
    replace (2 ^ Z.of_nat shift) with (2 ^ (Z.of_nat shift - 1) * 2).
    - rewrite Z.mul_assoc, Z.div_mul; lia.
    - rewrite Z.mul_comm, <- Z.pow_succ_r by lia. f_equal. lia. }
  pose proof (wf_val_bound num Hn) as Bn. cbn [div_loop]. rewrite CompareTo_ge by done.
  assert (val quot mod 2 ^ Z.of_nat shift = 0) as Hm0.
  { apply Z.mod_divide in Hmod as [z Hz]; [|lia]. rewrite Hz, H2, Z.mul_assoc. apply Z.mod_mul. lia. }
  destruct (Z.leb_spec (val div) (val num)) as [Hc|Hc].
  - destruct (base_uint_sub_spec num div Hn Hd) as [Hs Hsv].
    rewrite Z.mod_small in Hsv by (pose proof (wf_val_bound div Hd); lia).
    destruct Hq as [Hql Hqf].
    destruct (val_set_bit quot shift Hqf) as (Sl & Sf & Sv); [rewrite Hql; apply Nat.Div0.div_lt_upper_bound; unfold WIDTH; lia|done|].
    set (q' := alter _ _ quot) in *.
    destruct (IH (base_uint_sub num div) (base_uint_shr div 1) q') as [Rw Rv]; auto.
    + split; congruence.
    + lia.
    + rewrite Hsv. lia.
    + rewrite Sv, <- (Z.mul_1_l (2 ^ Z.of_nat shift)) at 1. rewrite Z.mod_add; lia.
    + split; [done|]. rewrite Rv, Sv, Hsv, Hdiv.
      replace (val num - D * 2 ^ Z.of_nat shift) with (val num + - 2 ^ Z.of_nat shift * D) by lia.
      rewrite Z.div_add; lia.
  - apply IH; auto; lia.
Qed.

(** Division is the integer division, and throws exactly on a zero divisor. *)
Lemma base_uint_div_spec a b :
  wf_limbs a -> wf_limbs b ->
  if val b =? 0 then base_uint_div a b = Throw tt
  else exists q, base_uint_div a b = Ok q /\ wf_limbs q /\ val q = val a / val b.
Proof.
  intros Ha Hb. pose proof (wf_val_bound a Ha) as Ba. pose proof (wf_val_bound b Hb) as Bb.
  unfold base_uint_div. rewrite !bits_spec by done.
  destruct (bit_length_spec (val a) ltac:(lia)) as (Ua & La & Na).
  destruct (bit_length_spec (val b) ltac:(lia)) as (Ub & Lb & Nb).
  destruct (Z.eqb_spec (val b) 0) as [Hz|Hz]; [by rewrite Hz|].
  assert (0 < bit_length (val b)) as Hbb.
  { unfold bit_length in *. destruct (Z.eqb_spec (val b) 0); [lia|]. pose proof (Z.log2_nonneg (val b)). lia. }
  destruct (Z.eqb_spec (bit_length (val b)) 0); [lia|].
  destruct base_uint_zero_spec as [Zw Zv].
  destruct (Z.ltb_spec (bit_length (val a)) (bit_length (val b))) as [Hlt|Hge].
  - exists base_uint_zero. split; [done|]. split; [done|]. rewrite Zv, Z.div_small; [done|].
    pose proof (Z.pow_le_mono_r 2 (bit_length (val a)) (bit_length (val b) - 1)). lia.
  - set (shift := bit_length (val a) - bit_length (val b)).
    pose proof (bit_length_le (val a) 256 ltac:(lia) Ba) as H256.
    pose proof (Z.pow_pos_nonneg 2 shift ltac:(lia) ltac:(unfold shift; lia)) as Hp.
    destruct (base_uint_shl_spec b shift Hb ltac:(unfold shift; lia)) as [Hs Hsv].
    assert (val b * 2 ^ shift < 2 ^ 256) as Hfit.
    { assert (2 ^ bit_length (val b) * 2 ^ shift <= 2 ^ 256); [|nia].
      rewrite <- Z.pow_add_r by (unfold shift; lia). apply Z.pow_le_mono_r; unfold shift; lia. }
    rewrite Z.mod_small in Hsv by nia.
    assert (Z.of_nat (Z.to_nat (shift + 1)) = shift + 1) as Ht by (unfold shift; lia).
    eexists. split; [done|].
    destruct (div_loop_spec (val b) (Z.to_nat (shift + 1)) a (base_uint_shl b shift) base_uint_zero)
      as [Rw Rv]; auto; rewrite ?Ht.
    + lia.
    + unfold shift. lia.
    + intros _. rewrite Hsv. do 2 f_equal. lia.
    + apply Z.lt_le_trans with (2 ^ bit_length (val a)); [done|].
      replace (bit_length (val a)) with (bit_length (val b) - 1 + (shift + 1)) by (unfold shift; lia).
      rewrite Z.pow_add_r by (unfold shift; lia). specialize (Lb ltac:(lia)).
      pose proof (Z.pow_pos_nonneg 2 (shift + 1)). unfold shift in *. nia.
Qed.

(** ** The compact format *)

(** The number a compact word denotes, in unbounded arithmetic. *)
Definition compact_value (c : Z) : Z :=
  let size := c / 2 ^ 24 in
  let word := c mod 2 ^ 23 in
  if size <=? 3 then word / 2 ^ (8 * (3 - size)) else word * 2 ^ (8 * (size - 3)).

Lemma compact_overflow word size :
  3 < size -> 0 <= word < 2 ^ 23 ->
  negb (word =? 0) && ((34 <? size) || ((0xff <? word) && (33 <? size)) || ((0xffff <? word) && (32 <? size)))
  = (2 ^ 256 <=? word * 2 ^ (8 * (size - 3))).
Proof.
  intros Hs Hw. destruct (Z.eqb_spec word 0) as [->|]; [done|]. cbn [negb andb].
  destruct (Z.ltb_spec 34 size).
  { pose proof (Z.pow_le_mono_r 2 256 (8 * (size - 3))). nia. }
  destruct (Z.eq_dec size 34) as [->|]; [cbn -[Z.mul]; lia|].
  destruct (Z.eq_dec size 33) as [->|]; [cbn -[Z.mul]; lia|].
  pose proof (Z.pow_le_mono_r 2 (8 * (size - 3)) 232). nia.
Qed.

Lemma SetCompact_spec c v neg ovf :
  in_u 32 c -> SetCompact c = (v, neg, ovf) ->
  wf_limbs v /\ val v = compact_value c mod 2 ^ 256 /\
  neg = negb (compact_value c =? 0) && Z.testbit c 23 /\ ovf = (2 ^ 256 <=? compact_value c).
Proof.
  unfold in_u, SetCompact, compact_value. intros Hc.
  rewrite Z.shiftr_div_pow2, (land_pow2_mask c 23) by done.
  change 0x00800000 with (2 ^ 23). rewrite land_pow2_testbit, negb_involutive by lia.
  set (size := c / 2 ^ 24). set (word := c mod 2 ^ 23).
  assert (0 <= size < 256 /\ 0 <= word < 2 ^ 23) as [Hs Hw] by (unfold size, word; zdm).
  clearbody size word. destruct (Z.leb_spec size 3) as [H3|H3].
  - rewrite Z.shiftr_div_pow2 by lia. intros [= <- <- <-].
    pose proof (Z.pow_pos_nonneg 2 (8 * (3 - size)) ltac:(lia) ltac:(lia)) as Hp.
    set (q := word / 2 ^ (8 * (3 - size))).
    assert (0 <= q <= word) as Hq.
    { unfold q. split; [apply Z.div_pos; lia|apply Z.div_le_upper_bound; nia]. }
    destruct (base_uint_of_u64_spec q) as [Vw Vv]; [unfold in_u; lia|].
    split; [done|]. split; [rewrite Vv, Z.mod_small; lia|]. split; [done|]. lia.
  - intros [= <- <- <-]. destruct (base_uint_of_u64_spec word) as [Vw Vv]; [unfold in_u; lia|].
    destruct (base_uint_shl_spec _ (8 * (size - 3)) Vw) as [Sw Sv]; [lia|].
    pose proof (Z.pow_pos_nonneg 2 (8 * (size - 3)) ltac:(lia) ltac:(lia)) as Hp.
    split; [done|]. split; [rewrite Sv, Vv; done|]. split; [|by apply compact_overflow].
    f_equal. f_equal. destruct (Z.eqb_spec word 0), (Z.eqb_spec (word * 2 ^ (8 * (size - 3))) 0); nia.
Qed.

(** What rounding to the compact format keeps: all but the low [k] bytes. *)
Definition compact_round (v : Z) : Z :=
  let k := Z.max 0 ((bit_length v + 8) / 8 - 3) in
  v / 2 ^ (8 * k) * 2 ^ (8 * k).

Lemma GetLow64_spec a : wf_limbs a -> GetLow64 a = val a mod 2 ^ 64.
Proof.
  intros [Hl Hf]. destruct a as [|x [|y a]]; try done.
  apply Forall_cons in Hf as [Hx Hf]. apply Forall_cons in Hf as [Hy Hf]. unfold in_u in *.
  unfold GetLow64. cbn [nth val]. rewrite Z.shiftl_mul_pow2, wrapu_id by (unfold in_u; lia).
  rewrite Z.lor_comm, lor_shift_add by lia.
  replace (x + 2 ^ 32 * (y + 2 ^ 32 * val a)) with (y * 2 ^ 32 + x + val a * 2 ^ 64) by lia.
  rewrite Z.mod_add, Z.mod_small; lia.
Qed.

(** The mantissa and the size that [GetCompact] starts from. *)
Definition compact_mantissa (v : Z) : Z :=
  let n := (bit_length v + 7) / 8 in
  if n <=? 3 then v * 2 ^ (8 * (3 - n)) else v / 2 ^ (8 * (n - 3)).

Lemma compact_mantissa_bound v :
  0 <= v < 2 ^ 256 ->
  let n := (bit_length v + 7) / 8 in
  0 <= n <= 32 /\ 0 <= compact_mantissa v < 2 ^ 24 /\
  (compact_mantissa v < 2 ^ 23 -> (bit_length v + 8) / 8 = n \/ n = 0 /\ v = 0) /\
  (2 ^ 23 <= compact_mantissa v -> (bit_length v + 8) / 8 = n + 1).
Proof.
  intros Hv. cbn zeta. pose proof (bit_length_le v 256 ltac:(lia) Hv) as H256.
  destruct (bit_length_spec v ltac:(lia)) as (Hu & Hl & Hn).
  unfold compact_mantissa. set (bl := bit_length v) in *. set (n := (bl + 7) / 8).
  assert (8 * n - 8 < bl <= 8 * n /\ 0 <= n) as Hb by (unfold n; zdm). split; [unfold n; zdm|].
  destruct (Z.eq_dec v 0) as [->|Hv0].
  { assert (bl = 0) as H0 by (unfold bl; done). assert (n = 0) as -> by (unfold n; rewrite H0; done).
    rewrite H0. cbn. repeat split; auto; lia. }
  specialize (Hl ltac:(lia)). clearbody bl.
  assert (0 < bl) as Hbl by (destruct (Z.eq_dec bl 0) as [H0|]; [rewrite H0 in Hu; cbn in Hu; lia|lia]).
  assert (2 ^ bl <= 2 ^ (8 * n)) as E1 by (apply Z.pow_le_mono_r; lia).
  assert (bl < 8 * n -> 2 ^ bl <= 2 ^ (8 * n - 1)) as E2 by (intros; apply Z.pow_le_mono_r; lia).
  assert (bl = 8 * n -> 2 ^ (8 * n - 1) <= v) as E3 by (intros <-; done).
  assert (bl < 8 * n \/ bl = 8 * n) as Hcase by lia.
  destruct (Z.leb_spec n 3) as [H3|H3].
  - pose proof (Z.pow_pos_nonneg 2 (8 * (3 - n)) ltac:(lia) ltac:(lia)) as Hp.
    assert (2 ^ (8 * n) * 2 ^ (8 * (3 - n)) = 2 ^ 24) as P1 by (rewrite <- Z.pow_add_r by lia; f_equal; lia).
    assert (2 ^ (8 * n - 1) * 2 ^ (8 * (3 - n)) = 2 ^ 23) as P2 by (rewrite <- Z.pow_add_r by lia; f_equal; lia).
    split; [nia|]. split; intros Hm.
    + left. destruct Hcase as [|Hc]; [zdm|]. specialize (E3 Hc). nia.
    + destruct Hcase as [Hc|Hc]; [specialize (E2 Hc); nia|]. zdm.
  - pose proof (Z.pow_pos_nonneg 2 (8 * (n - 3)) ltac:(lia) ltac:(lia)) as Hp.
    assert (2 ^ (8 * n) = 2 ^ (8 * (n - 3)) * 2 ^ 24) as P1 by (rewrite <- Z.pow_add_r by lia; f_equal; lia).
    assert (2 ^ (8 * n - 1) = 2 ^ (8 * (n - 3)) * 2 ^ 23) as P2 by (rewrite <- Z.pow_add_r by lia; f_equal; lia).
    split; [split; [apply Z.div_pos; lia|apply Z.div_lt_upper_bound; lia]|]. split; intros Hm.
    + left. destruct Hcase as [|Hc]; [zdm|]. specialize (E3 Hc).
      pose proof (Z.div_le_lower_bound v (2 ^ (8 * (n - 3))) (2 ^ 23)). lia.
    + destruct Hcase as [Hc|Hc]; [|zdm]. specialize (E2 Hc).
      pose proof (Z.div_lt_upper_bound v (2 ^ (8 * (n - 3))) (2 ^ 23)). lia.
Qed.

(** The compact word of a mantissa below [2^23] and a size. *)
Lemma compact_word m n :
  0 <= m < 2 ^ 23 -> 0 <= n < 256 ->
  let c := Z.lor m (wrapu 32 (Z.shiftl n 24)) in
  in_u 32 c /\ c / 2 ^ 24 = n /\ c mod 2 ^ 23 = m /\ Z.testbit c 23 = false.
Proof.
  intros Hm Hn. cbn zeta. rewrite Z.shiftl_mul_pow2, wrapu_id by (unfold in_u; lia).
  rewrite Z.lor_comm, lor_shift_add by lia.
  split; [unfold in_u; lia|]. split; [zdm|]. split; [zdm|].
  rewrite Z.testbit_odd, Z.shiftr_div_pow2 by lia.
  replace ((n * 2 ^ 24 + m) / 2 ^ 23) with (2 * n) by zdm. apply Z.odd_mul.
Qed.

Lemma GetCompact_mantissa a (n := (bit_length (val a) + 7) / 8) :
  wf_limbs a ->
  (if n <=? 3 then wrapu 32 (wrapu 64 (Z.shiftl (GetLow64 a) (8 * (3 - n))))
   else wrapu 32 (GetLow64 (base_uint_shr a (8 * (n - 3))))) = compact_mantissa (val a).
Proof.
  intros Ha. pose proof (wf_val_bound a Ha) as Hv.
  destruct (compact_mantissa_bound (val a) Hv) as (Hn & Hm & _). fold n in Hn.
  unfold compact_mantissa in *. fold n in Hm |- *. destruct (Z.leb_spec n 3) as [H3|H3].
  - rewrite GetLow64_spec, Z.shiftl_mul_pow2 by (done || lia).
    pose proof (Z.pow_pos_nonneg 2 (8 * (3 - n)) ltac:(lia) ltac:(lia)).
    rewrite (Z.mod_small (val a)) by nia. rewrite !wrapu_id; unfold in_u; rewrite ?wrapu_id; unfold in_u; nia.
  - destruct (base_uint_shr_spec a (8 * (n - 3)) Ha ltac:(lia)) as [Sw Sv].
    rewrite GetLow64_spec, Sv by done. rewrite Z.mod_small, wrapu_id; unfold in_u; lia.
Qed.

Lemma GetCompact_spec a :
  wf_limbs a ->
  exists c, GetCompact a false = Some c /\ in_u 32 c /\
    compact_value c = compact_round (val a) /\ Z.testbit c 23 = false /\
    (0 < val a -> c / 2 ^ 24 = (bit_length (val a) + 8) / 8).
Proof.
  intros Ha. pose proof (wf_val_bound a Ha) as Hv. unfold GetCompact. rewrite bits_spec by done.
  rewrite GetCompact_mantissa by done.
  destruct (compact_mantissa_bound (val a) Hv) as (Hn & Hm & Hlo & Hhi). cbn zeta in *.
  set (v := val a) in *. set (n := (bit_length v + 7) / 8) in *.
  set (m := compact_mantissa v) in *. change 0x00800000 with (2 ^ 23).
  rewrite land_pow2_testbit, testbit_top by lia.
  unfold compact_round. destruct (Z.leb_spec (2 ^ 23) m) as [Hbig|Hsmall]; cbn [negb].
  - specialize (Hhi Hbig). rewrite Hhi, Z.shiftr_div_pow2 by lia.
    assert (0 <= m / 2 ^ 8 < 2 ^ 23) as Hm' by zdm.
    rewrite (land_low_mask _ 23) by (done || lia). destruct (Z.ltb_spec (n + 1) 256); [|lia].
    destruct (compact_word (m / 2 ^ 8) (n + 1) Hm' ltac:(lia)) as (Cu & Cs & Cm & Cb).
    eexists. split; [done|]. rewrite Z.lor_0_r. split; [done|].
    enough (compact_value _ = _) by (split_and!; [done|done|fold v; lia]).
    unfold compact_value. rewrite Cs, Cm. unfold m, compact_mantissa. fold n.
    replace (n + 1 - 3) with (n - 2) by lia.
    destruct (Z.leb_spec n 3) as [H3|H3], (Z.leb_spec (n + 1) 3) as [H2|H2]; try lia.
    + rewrite Z.max_l, Z.mul_0_r, Z.div_1_r, Z.mul_1_r by lia.
      replace (8 * (3 - n)) with (8 + 8 * (3 - (n + 1))) by lia.
      rewrite Z.pow_add_r, (Z.mul_comm (2 ^ 8)), Z.mul_assoc, Z.div_mul, Z.div_mul;
        try lia; apply Z.pow_nonzero; lia.
    + assert (n = 3) as Hn3 by lia. rewrite Hn3. change (2 ^ (8 * (3 - 3))) with 1. rewrite Z.mul_1_r. done.
    + rewrite Z.max_r, Z.div_div, <- Z.pow_add_r by (try apply Z.pow_nonzero; try apply Z.pow_pos_nonneg; lia).
      f_equal; f_equal; f_equal; lia.
  - specialize (Hlo Hsmall). rewrite (land_low_mask _ 23) by (done || lia).
    destruct (Z.ltb_spec n 256); [|lia].
    destruct (compact_word m n ltac:(lia) ltac:(lia)) as (Cu & Cs & Cm & Cb).
    eexists. split; [done|]. rewrite Z.lor_0_r. split; [done|].
    enough (compact_value _ = _) by (split_and!; [done|done|fold v; lia]).
    unfold compact_value. rewrite Cs, Cm. unfold m, compact_mantissa. fold n.
    destruct Hlo as [Hlo|[Hn0 Hv0]].
    2: { rewrite Hv0, Hn0. done. }
    rewrite Hlo. destruct (Z.leb_spec n 3) as [H3|H3].
    + rewrite Z.max_l, Z.mul_0_r, Z.div_1_r, Z.mul_1_r, Z.div_mul by (try apply Z.pow_nonzero; lia). done.
    + rewrite Z.max_r by lia. done.
Qed.

Lemma compact_round_bound v :
  0 <= v -> compact_round v <= v /\ 2 ^ 15 * (v - compact_round v) <= v /\ 0 <= compact_round v.
Proof.
  intros Hv. unfold compact_round. set (k := Z.max 0 _).
  assert (Hk : 0 <= k) by (unfold k; lia).
  assert (Hp : 0 < 2 ^ (8 * k)) by (apply Z.pow_pos_nonneg; lia).
  pose proof (Z.div_mod v (2 ^ (8 * k)) ltac:(lia)) as E.
  pose proof (Z.mod_pos_bound v (2 ^ (8 * k)) Hp) as B.
  assert (0 <= v / 2 ^ (8 * k)) by (apply Z.div_pos; lia).
  split_and!; [lia| |nia].
  replace (v - _) with (v mod 2 ^ (8 * k)) by lia.
  destruct (Z.eq_dec k 0) as [E0|Hn].
  { rewrite E0, Z.mul_0_r, Z.pow_0_r, Z.mod_1_r. lia. }
  destruct (bit_length_spec v Hv) as (_ & Hlow & Hbl).
  assert (Hb : 8 * k + 16 <= bit_length v) by (unfold k in *; zdm).
  assert (Hv0 : 0 < v).
  { destruct (Z.eq_dec v 0) as [->|]; [cbn in Hb; lia | lia]. }
  specialize (Hlow Hv0).
  pose proof (Z.pow_le_mono_r 2 (15 + 8 * k) (bit_length v - 1)) as Hm.
  rewrite Z.pow_add_r in Hm by lia. nia.
Qed.

Lemma compact_round_bit_length v :
  0 <= v -> bit_length (compact_round v) = bit_length v.
Proof.
  intros Hv. destruct (compact_round_bound v Hv) as (B1 & B2 & B3).
  destruct (Z.eq_dec v 0) as [->|Hn]; [done|].
  destruct (bit_length_spec v Hv) as (_ & Hlow & Hbl). specialize (Hlow ltac:(lia)).
  assert (Hr : 2 ^ (bit_length v - 1) <= compact_round v).
  { unfold compact_round in *. set (k := Z.max 0 _) in *. assert (0 <= k) by (unfold k; lia).
    assert (8 * k <= bit_length v - 1 \/ k = 0) as [Hk|Hk] by (unfold k; zdm).
    - rewrite <- (Z.sub_add (8 * k) (bit_length v - 1)) in Hlow |- *.
      rewrite Z.pow_add_r in Hlow |- * by lia.
      apply Z.mul_le_mono_nonneg_r; [apply Z.pow_nonneg; lia|].
      apply Z.div_le_lower_bound; [apply Z.pow_pos_nonneg|]; lia.
    - rewrite Hk, Z.mul_0_r, Z.div_1_r. lia. }
  unfold bit_length in *. destruct (Z.eqb_spec v 0); [done|].
  replace (Z.log2 v + 1 - 1) with (Z.log2 v) in Hr by lia.
  pose proof (Z.log2_nonneg v) as Hnn. pose proof (Z.pow_pos_nonneg 2 (Z.log2 v) ltac:(lia) Hnn).
  destruct (Z.eqb_spec (compact_round v) 0); [lia|]. f_equal.
  destruct (Z.log2_spec v ltac:(lia)). apply Z.log2_unique; lia.
Qed.

Lemma compact_round_idem v : 0 <= v -> compact_round (compact_round v) = compact_round v.
Proof.
  intros Hv. unfold compact_round at 1. rewrite compact_round_bit_length by done.
  unfold compact_round. rewrite Z.div_mul; [done|]. apply Z.pow_nonzero; lia.
Qed.

(** Rounding keeps the order: equal lengths share a grid, and a shorter number
    stays below the leading power of the longer one. *)
Lemma compact_round_mono u v : 0 <= u <= v -> compact_round u <= compact_round v.
Proof.
  intros H. destruct (compact_round_bound u) as (Ru & _); [lia|].
  destruct (compact_round_bound v) as (_ & _ & Rv); [lia|].
  destruct (bit_length_spec u) as (Uu & _ & Un); [lia|].
  destruct (Z.eq_dec u 0) as [->|Hu]; [lia|].
  assert (Hle : bit_length u <= bit_length v).
  { unfold bit_length in *. destruct (Z.eqb_spec u 0), (Z.eqb_spec v 0); try lia.
    pose proof (Z.log2_le_mono u v). lia. }
  destruct (Z.eq_dec (bit_length u) (bit_length v)) as [E|Hne].
  - unfold compact_round. rewrite E. set (k := Z.max 0 _).
    assert (0 < 2 ^ (8 * k)) by (apply Z.pow_pos_nonneg; lia).
    apply Z.mul_le_mono_nonneg_r; [lia|]. apply Z.div_le_mono; lia.
  - assert (Hv : 2 ^ (bit_length v - 1) <= compact_round v).
    { rewrite <- (compact_round_bit_length v) by lia.
      apply bit_length_spec; [done|]. destruct (Z.eq_dec (compact_round v) 0) as [E0|]; [|lia].
      pose proof (compact_round_bit_length v ltac:(lia)) as Eb. rewrite E0 in Eb. cbn in Eb. lia. }
    pose proof (Z.pow_le_mono_r 2 (bit_length u) (bit_length v - 1)). lia.
Qed.

Lemma GetCompact_round a b :
  wf_limbs a -> wf_limbs b -> val b = compact_round (val a) -> GetCompact b false = GetCompact a false.
Proof.
  intros Ha Hb E. pose proof (wf_val_bound a Ha) as Ba.
  destruct (Z.le_gt_cases ((bit_length (val a) + 8) / 8) 3) as [H3|H3].
  { f_equal. destruct Ha, Hb. apply val_inj; [congruence|done..|]. rewrite E. unfold compact_round.
    rewrite Z.max_l, Z.mul_0_r, Z.div_1_r by lia. lia. }
  destruct (GetCompact_spec a Ha) as (c & -> & Cu & Cv & Cs & Cn).
  destruct (GetCompact_spec b Hb) as (d & -> & Du & Dv & Ds & Dn).
  assert (val a <> 0) by (intros H0; rewrite H0 in H3; done).
  rewrite E, compact_round_idem in Dv by lia. rewrite E, compact_round_bit_length in Dn by lia.
  destruct (compact_round_bound (val a)) as (_ & R2 & _); [lia|].
  specialize (Cn ltac:(lia)). specialize (Dn ltac:(lia)). rewrite <- Cv in Dv.
  unfold compact_value in Dv. rewrite Cn, Dn in Dv. destruct (Z.leb_spec ((bit_length (val a) + 8) / 8) 3); [lia|].
  apply Z.mul_reg_r in Dv; [|apply Z.pow_nonzero; lia]. f_equal.
  assert (forall x, Z.testbit x 23 = false -> x mod 2 ^ 24 = x mod 2 ^ 23) as Hbit.
  { intros x Hx. rewrite Z.testbit_false in Hx by lia. zdm. }
  specialize (Hbit c Cs) as Hc. specialize (Hbit d Ds) as Hd.
  pose proof (Z.div_mod c (2 ^ 24)). pose proof (Z.div_mod d (2 ^ 24)). lia.
Qed.

(** ** Conversion to and from the 32-byte [uint256] *)

Fixpoint limbs_of_bytes (n : nat) (b : bytes) : list Z :=
  match n with
  | O => []
  | S n => le_value (take 4 b) :: limbs_of_bytes n (drop 4 b)
  end.

Definition UintToArith256 (a : bytes) : list Z := limbs_of_bytes WIDTH a.

Definition ArithToUint256 (a : list Z) : bytes := a ≫= le_bytes 4.

Lemma limbs_of_bytes_spec n b :
  length b = (4 * n)%nat -> Forall is_byte b ->
  length (limbs_of_bytes n b) = n /\ Forall (in_u 32) (limbs_of_bytes n b) /\
  val (limbs_of_bytes n b) = le_value b /\ limbs_of_bytes n b ≫= le_bytes 4 = b.
Proof.
  revert b. induction n as [|n IH]; intros b Hl Hb.
  - destruct b; [by split_and! | done].
  - assert (Ht : length (take 4 b) = 4%nat) by (rewrite length_take; lia).
    assert (Hbt : Forall is_byte (take 4 b)) by by apply Forall_take.
    destruct (IH (drop 4 b)) as (L & F & V & B);
      [rewrite length_drop; lia | by apply Forall_drop |].
    cbn [limbs_of_bytes length val mbind list_bind]. split_and!.
    + by rewrite L.
    + constructor; [|done]. pose proof (le_value_bound _ Hbt) as HB. rewrite Ht in HB.
      unfold in_u. lia.
    + rewrite V. rewrite <- (take_drop 4 b) at 3. by rewrite le_value_app, Ht.
    + transitivity (take 4 b ++ drop 4 b); [f_equal; [|exact B] | apply take_drop].
      rewrite <- Ht at 1. by rewrite le_bytes_value.
Qed.

Lemma UintToArith256_spec b :
  length b = 32%nat -> Forall is_byte b ->
  wf_limbs (UintToArith256 b) /\ val (UintToArith256 b) = le_value b /\
  ArithToUint256 (UintToArith256 b) = b.
Proof.
  intros Hl Hb. destruct (limbs_of_bytes_spec WIDTH b Hl Hb) as (L & F & V & B).
  by split_and!.
Qed.

(** ** The interface used by the proof-of-work code *)

Class ArithUint (U : Type) := {
  u_val : U -> Z;
  u_wf : U -> Prop;
  u_of_u64 : Z -> U;
  u_of_bytes : bytes -> U;
  u_not : U -> U;
  u_add : U -> U -> U;
  u_sub : U -> U -> U;
  u_mul : U -> U -> U;
  u_mul32 : U -> Z -> U;
  u_div : U -> U -> result unit U;
  u_compare : U -> U -> Z;
  u_equal_to : U -> Z -> bool;
  u_bits : U -> Z;
  u_low64 : U -> Z;
  u_set_compact : Z -> U * bool * bool;
  u_get_compact : U -> option Z;
}.

Class ArithUintLaws (U : Type) `{ArithUint U} : Prop := {
  u_wf_bound a : u_wf a -> 0 <= u_val a < 2 ^ 256;
  u_of_u64_spec b : in_u 64 b -> u_wf (u_of_u64 b) /\ u_val (u_of_u64 b) = b;
  u_of_bytes_spec b : length b = 32%nat -> Forall is_byte b ->
    u_wf (u_of_bytes b) /\ u_val (u_of_bytes b) = le_value b;
  u_not_spec a : u_wf a -> u_wf (u_not a) /\ u_val (u_not a) = 2 ^ 256 - 1 - u_val a;
  u_add_spec a b : u_wf a -> u_wf b ->
    u_wf (u_add a b) /\ u_val (u_add a b) = (u_val a + u_val b) mod 2 ^ 256;
  u_sub_spec a b : u_wf a -> u_wf b ->
    u_wf (u_sub a b) /\ u_val (u_sub a b) = (u_val a - u_val b) mod 2 ^ 256;
  u_mul_spec a b : u_wf a -> u_wf b ->
    u_wf (u_mul a b) /\ u_val (u_mul a b) = (u_val a * u_val b) mod 2 ^ 256;
  u_mul32_spec a b : u_wf a -> in_u 32 b ->
    u_wf (u_mul32 a b) /\ u_val (u_mul32 a b) = (u_val a * b) mod 2 ^ 256;
  u_div_spec a b : u_wf a -> u_wf b ->
    if u_val b =? 0 then u_div a b = Throw tt
    else exists q, u_div a b = Ok q /\ u_wf q /\ u_val q = u_val a / u_val b;
  u_compare_spec a b : u_wf a -> u_wf b ->
    u_compare a b = match u_val a ?= u_val b with Lt => -1 | Eq => 0 | Gt => 1 end;
  u_equal_to_spec a b : u_wf a -> in_u 64 b -> u_equal_to a b = (u_val a =? b);
  u_bits_spec a : u_wf a -> u_bits a = bit_length (u_val a);
  u_low64_spec a : u_wf a -> u_low64 a = u_val a mod 2 ^ 64;
  u_set_compact_spec c v neg ovf : in_u 32 c -> u_set_compact c = (v, neg, ovf) ->
    u_wf v /\ u_val v = compact_value c mod 2 ^ 256 /\
    neg = negb (compact_value c =? 0) && Z.testbit c 23 /\ ovf = (2 ^ 256 <=? compact_value c);
  u_get_compact_spec a : u_wf a ->
    exists c, u_get_compact a = Some c /\ in_u 32 c /\
      compact_value c = compact_round (u_val a) /\ Z.testbit c 23 = false;
}.

#[export] Instance limbs_arith_uint : ArithUint (list Z) := {|
  u_val := val; u_wf := wf_limbs; u_of_u64 := base_uint_of_u64; u_of_bytes := UintToArith256;
  u_not := base_uint_not; u_add := base_uint_add; u_sub := base_uint_sub; u_mul := base_uint_mul;
  u_mul32 := base_uint_mul32; u_div := base_uint_div; u_compare := CompareTo;
  u_equal_to := EqualTo; u_bits := bits; u_low64 := GetLow64; u_set_compact := SetCompact;
  u_get_compact := fun a => GetCompact a false |}.

Lemma base_uint_not_wf a :
  wf_limbs a -> wf_limbs (base_uint_not a) /\ val (base_uint_not a) = 2 ^ 256 - 1 - val a.
Proof.
  intros [Hl Hf]. destruct (base_uint_not_spec a Hf) as (Nv & Nl & Nf).
  unfold wf_limbs. by rewrite Nl, Nv, Hl.
Qed.

#[export] Instance limbs_arith_uint_laws : ArithUintLaws (list Z).
Proof.
  split; cbn.
  - apply wf_val_bound.
  - apply base_uint_of_u64_spec.
  - intros b Hl Hb. by destruct (UintToArith256_spec b Hl Hb) as (? & ? & _).
  - apply base_uint_not_wf.
  - apply base_uint_add_spec.
  - apply base_uint_sub_spec.
  - apply base_uint_mul_spec.
  - apply base_uint_mul32_spec.
  - apply base_uint_div_spec.
  - apply CompareTo_spec.
  - apply EqualTo_spec.
  - apply bits_spec.
  - apply GetLow64_spec.
  - apply SetCompact_spec.
  - intros a Ha. destruct (GetCompact_spec a Ha) as (c & ? & ? & ? & ? & _). by exists c.
Qed.

(** ** Properties *)

(** The limb operators of [base_uint<256>] are integer arithmetic modulo
    [2^256]: addition, subtraction, both multiplications, the two shifts,
    negation and complement keep eight 32-bit limbs and compute the integer
    result reduced modulo [2^256]; [CompareTo] is the integer comparison and
    [bits] the position of the highest set bit. *)
Theorem base_uint_refines_integers a b n shift :
  wf_limbs a -> wf_limbs b -> in_u 32 n -> 0 <= shift ->
  let ok r v := wf_limbs r /\ val r = v mod 2 ^ 256 in
  ok (base_uint_add a b) (val a + val b) /\ ok (base_uint_sub a b) (val a - val b) /\
  ok (base_uint_mul a b) (val a * val b) /\ ok (base_uint_mul32 a n) (val a * n) /\
  ok (base_uint_shl a shift) (val a * 2 ^ shift) /\ ok (base_uint_shr a shift) (val a / 2 ^ shift) /\
  ok (base_uint_neg a) (- val a) /\ ok (base_uint_not a) (- val a - 1) /\
  CompareTo a b = match val a ?= val b with Lt => -1 | Eq => 0 | Gt => 1 end /\
  bits a = (if val a =? 0 then 0 else Z.log2 (val a) + 1).
Proof.
  intros Ha Hb Hn Hs ok. pose proof (wf_val_bound a Ha).
  assert (Hc : wf_limbs a -> ok (base_uint_not a) (- val a - 1)).
  { intros _. destruct (base_uint_not_wf a Ha) as [W V]. split; [done|]. rewrite V.
    replace (- val a - 1) with (2 ^ 256 - 1 - val a + (-1) * 2 ^ 256) by lia.
    rewrite Z.mod_add, Z.mod_small; lia. }
  assert (Hr : ok (base_uint_shr a shift) (val a / 2 ^ shift)).
  { destruct (base_uint_shr_spec a shift Ha Hs) as [W V]. split; [done|].
    rewrite V at 1. rewrite <- V. rewrite Z.mod_small; [done | by apply wf_val_bound]. }
  unfold ok in *. split_and!;
    first [ by apply Hc | by apply Hr | by apply base_uint_add_spec | by apply base_uint_sub_spec
          | by apply base_uint_mul_spec | by apply base_uint_mul32_spec | by apply base_uint_shl_spec
          | by apply base_uint_neg_spec | by apply CompareTo_spec | by apply bits_spec ].
Qed.

Lemma base_uint_refines_integers_witness :
  let a := [5; 0; 0; 0; 0; 0; 0; 0] in let b := [7; 0; 0; 0; 0; 0; 0; 0] in
  val (base_uint_sub a b) = 2 ^ 256 - 2 /\ val (base_uint_sub a b) = (val a - val b) mod 2 ^ 256.
Proof.
  assert (W : forall x, in_u 32 x -> wf_limbs [x; 0; 0; 0; 0; 0; 0; 0]).
  { intros x Hx. split; [done|]. unfold in_u in *. repeat constructor; lia. }
  split; [vm_compute; reflexivity|].
  destruct (base_uint_refines_integers [5; 0; 0; 0; 0; 0; 0; 0] [7; 0; 0; 0; 0; 0; 0; 0] 3 40)
    as (_ & H & _); [apply W; unfold in_u; lia | apply W; unfold in_u; lia | unfold in_u; lia | lia |].
  exact (proj2 H).
Defined.

(** Long division terminates within [bits num - bits div + 1] turns and is
    integer division; dividing by zero throws [uint_error], nothing else does. *)
Theorem base_uint_div_correct a b :
  wf_limbs a -> wf_limbs b ->
  (val b = 0 -> base_uint_div a b = Throw tt) /\
  (val b <> 0 -> exists q, base_uint_div a b = Ok q /\ wf_limbs q /\ val q = val a / val b).
Proof.
  intros Ha Hb. pose proof (base_uint_div_spec a b Ha Hb) as H.
  destruct (Z.eqb_spec (val b) 0); by split.
Qed.

Lemma base_uint_div_correct_witness :
  exists q, base_uint_div [1; 2; 3; 4; 5; 6; 7; 8] [9; 0; 1; 0; 0; 0; 0; 0] = Ok q /\
    val q = val [1; 2; 3; 4; 5; 6; 7; 8] / val [9; 0; 1; 0; 0; 0; 0; 0].
Proof.
  destruct (base_uint_div_correct [1; 2; 3; 4; 5; 6; 7; 8] [9; 0; 1; 0; 0; 0; 0; 0]) as [_ H].
  1-2: split; [reflexivity | unfold in_u; repeat constructor; lia].
  destruct H as (q & Hq & _ & Hv); [vm_compute; discriminate|].
  exact (ex_intro _ q (conj Hq Hv)).
Defined.

(** The compact (nBits) encoding is a floating-point rounding.  Decoding what
    [GetCompact] produced gives a non-negative, non-overflowing value that is at
    most the original, loses less than one part in [2^15], and encodes to the
    same word again; so a target that went through nBits once is stable. *)
Theorem compact_roundtrip a :
  wf_limbs a ->
  exists c v, GetCompact a false = Some c /\ SetCompact c = (v, false, false) /\ wf_limbs v /\
    val v = compact_value c /\ val v <= val a /\ 2 ^ 15 * (val a - val v) <= val a /\
    GetCompact v false = Some c.
Proof.
  intros Ha. destruct (GetCompact_spec a Ha) as (c & Hc & Hu & Hv & Hs & _).
  destruct (SetCompact c) as [[v neg] ovf] eqn:E.
  destruct (SetCompact_spec c v neg ovf Hu E) as (Wv & Vv & -> & ->).
  pose proof (wf_val_bound a Ha) as Ba. destruct (compact_round_bound (val a)) as (R1 & R2 & R3); [lia|].
  assert (Vc : val v = compact_value c) by (rewrite Vv; apply Z.mod_small; lia).
  rewrite Hs, andb_false_r in E. replace (2 ^ 256 <=? compact_value c) with false in E by lia.
  exists c, v.
  split_and!; [done|done|done|done|lia|lia|].
  rewrite <- Hc. apply GetCompact_round; [done|done|congruence].
Qed.

Lemma compact_roundtrip_witness :
  exists c v, GetCompact [1; 2; 3; 4; 5; 6; 7; 8] false = Some c /\
    SetCompact c = (v, false, false) /\ GetCompact v false = Some c.
Proof.
  destruct (compact_roundtrip [1; 2; 3; 4; 5; 6; 7; 8]) as (c & v & H1 & H2 & _ & _ & _ & _ & H3).
  { split; [reflexivity | unfold in_u; repeat constructor; lia]. }
  exact (ex_intro _ c (ex_intro _ v (conj H1 (conj H2 H3)))).
Defined.

(** [SetCompact] reads the word as [mantissa * 256^(size-3)], reports a sign
    exactly when the sign bit is set on a non-zero value, and reports overflow
    exactly when the value does not fit 256 bits. *)
Theorem SetCompact_flags c :
  in_u 32 c ->
  exists v, SetCompact c =
    (v, negb (compact_value c =? 0) && Z.testbit c 23, 2 ^ 256 <=? compact_value c) /\
    wf_limbs v /\ val v = compact_value c mod 2 ^ 256.
Proof.
  intros Hc. destruct (SetCompact c) as [[v neg] ovf] eqn:E.
  destruct (SetCompact_spec c v neg ovf Hc E) as (W & V & -> & ->). by exists v.
Qed.

Lemma SetCompact_flags_witness :
  exists v, SetCompact 0x1e0fffff = (v, false, false) /\ val v = 0x0fffff * 2 ^ 216.
Proof.
  destruct (SetCompact_flags 0x1e0fffff) as (v & E & _ & V); [unfold in_u; lia|].
  exists v. rewrite E, V. split; vm_compute; reflexivity.
Defined.
