(* ===== verification/Chain.v ===== *)
(** * The block index and the active chain
    (src/src/chain.h, src/src/chain.cpp, src/src/node/blockstorage.cpp)

    [CBlockIndex] objects live in [m_block_index], a map from block hash to
    object whose nodes never move, so a [CBlockIndex*] is modelled by the hash it
    is stored under and [nullptr] by [None].  A definition whose result type is
    [option] of what the C++ returns yields [None] when an [assert] fails, a null
    or dangling pointer is followed, or a signed addition overflows.

    Shown here: the skip list finds the same ancestor as the plain walk over
    [pprev]; inserting a header keeps the index well formed and its cumulative
    fields right; [CChain] always holds the ancestors of its tip; [FindFork],
    [LastCommonAncestor] and [LocatorEntries] compute what they are named for;
    the median time past never decreases along a valid chain. *)

From stdpp Require Import sorting.
From S2P Require Import Prelude ArithUint256.

Abbreviation ptr := uint256.

(** Signed [int] addition; overflow is undefined behaviour. *)
Definition int_add (a b : Z) : option Z :=
  let s := a + b in
  if (- 2 ^ 31 <=? s) && (s <? 2 ^ 31) then Some s else None.

(** ** Block status bits *)

Definition BLOCK_VALID_RESERVED : Z := 1.
Definition BLOCK_VALID_TREE : Z := 2.
Definition BLOCK_VALID_TRANSACTIONS : Z := 3.
Definition BLOCK_VALID_CHAIN : Z := 4.
Definition BLOCK_VALID_SCRIPTS : Z := 5.
Definition BLOCK_VALID_MASK : Z :=
  Z.lor BLOCK_VALID_RESERVED (Z.lor BLOCK_VALID_TREE (Z.lor BLOCK_VALID_TRANSACTIONS
    (Z.lor BLOCK_VALID_CHAIN BLOCK_VALID_SCRIPTS))).
Definition BLOCK_HAVE_DATA : Z := 8.
Definition BLOCK_HAVE_UNDO : Z := 16.
Definition BLOCK_FAILED_VALID : Z := 32.
Definition BLOCK_FAILED_CHILD : Z := 64.
Definition BLOCK_FAILED_MASK : Z := Z.lor BLOCK_FAILED_VALID BLOCK_FAILED_CHILD.
Definition BLOCK_ASSUMED_VALID : Z := 256.
Definition BLOCK_CONFLICT_CHAINLOCK : Z := 512.

(** ** Block file statistics *)

Record CBlockFileInfo := {
  nBlocks : Z; nSize : Z; nUndoSize : Z; nHeightFirst : Z; nHeightLast : Z;
  nTimeFirst : Z; nTimeLast : Z }.

Definition CBlockFileInfo_empty : CBlockFileInfo :=
  {| nBlocks := 0; nSize := 0; nUndoSize := 0; nHeightFirst := 0; nHeightLast := 0;
     nTimeFirst := 0; nTimeLast := 0 |}.

Definition AddBlock (f : CBlockFileInfo) (nHeightIn nTimeIn : Z) : CBlockFileInfo :=
  {| nHeightFirst :=
       if (nBlocks f =? 0) || (nHeightIn <? nHeightFirst f) then nHeightIn else nHeightFirst f;
     nTimeFirst := if (nBlocks f =? 0) || (nTimeIn <? nTimeFirst f) then nTimeIn else nTimeFirst f;
     nBlocks := wrapu 32 (nBlocks f + 1);
     nHeightLast := if nHeightLast f <? nHeightIn then nHeightIn else nHeightLast f;
     nTimeLast := if nTimeLast f <? nTimeIn then nTimeIn else nTimeLast f;
     nSize := nSize f; nUndoSize := nUndoSize f |}.

(** ** Skip heights *)

Definition InvertLowestOne (n : Z) : Z := Z.land n (n - 1).

Definition GetSkipHeight (height : Z) : Z :=
  if height <? 2 then 0
  else if negb (Z.land height 1 =? 0)
       then InvertLowestOne (InvertLowestOne (height - 1)) + 1
       else InvertLowestOne height.

(** ** Block headers *)

Record CPureBlockHeader := {
  hdr_nVersion : Z; hashPrevBlock : uint256; hdr_hashMerkleRoot : uint256;
  hdr_nTime : Z; hdr_nBits : Z; hdr_nNonce : Z }.

(** [vChain]: a slot is a pointer, null right after a [resize]. *)
Abbreviation CChain := (list (option ptr)).

Section chain.
Context {U : Type} `{AU : ArithUint U}.

(** ** [CBlockIndex] *)

Record CBlockIndex := {
  pprev : option ptr; pskip : option ptr; nHeight : Z; nChainWork : U;
  nStatus : Z; nVersion : Z; hashMerkleRoot : uint256; nTime : Z; nBits : Z; nNonce : Z;
  nSequenceId : Z; nTimeMax : Z }.

Abbreviation BlockMap := (gmap ptr CBlockIndex).

Definition CBlockIndex_of_header (h : CPureBlockHeader) : CBlockIndex :=
  {| pprev := None; pskip := None; nHeight := 0; nChainWork := u_of_u64 0; nStatus := 0;
     nVersion := hdr_nVersion h; hashMerkleRoot := hdr_hashMerkleRoot h; nTime := hdr_nTime h;
     nBits := hdr_nBits h; nNonce := hdr_nNonce h; nSequenceId := 0; nTimeMax := 0 |}.

Definition set_prev_height (b : CBlockIndex) (p : option ptr) (h : Z) : CBlockIndex :=
  {| pprev := p; pskip := pskip b; nHeight := h; nChainWork := nChainWork b; nStatus := nStatus b;
     nVersion := nVersion b; hashMerkleRoot := hashMerkleRoot b; nTime := nTime b; nBits := nBits b;
     nNonce := nNonce b; nSequenceId := nSequenceId b; nTimeMax := nTimeMax b |}.

Definition set_pskip (b : CBlockIndex) (p : option ptr) : CBlockIndex :=
  {| pprev := pprev b; pskip := p; nHeight := nHeight b; nChainWork := nChainWork b;
     nStatus := nStatus b; nVersion := nVersion b; hashMerkleRoot := hashMerkleRoot b;
     nTime := nTime b; nBits := nBits b; nNonce := nNonce b; nSequenceId := nSequenceId b;
     nTimeMax := nTimeMax b |}.

Definition set_work_time (b : CBlockIndex) (w : U) (t : Z) : CBlockIndex :=
  {| pprev := pprev b; pskip := pskip b; nHeight := nHeight b; nChainWork := w;
     nStatus := nStatus b; nVersion := nVersion b; hashMerkleRoot := hashMerkleRoot b;
     nTime := nTime b; nBits := nBits b; nNonce := nNonce b; nSequenceId := nSequenceId b;
     nTimeMax := t |}.

Definition set_status (b : CBlockIndex) (s : Z) : CBlockIndex :=
  {| pprev := pprev b; pskip := pskip b; nHeight := nHeight b; nChainWork := nChainWork b;
     nStatus := s; nVersion := nVersion b; hashMerkleRoot := hashMerkleRoot b;
     nTime := nTime b; nBits := nBits b; nNonce := nNonce b; nSequenceId := nSequenceId b;
     nTimeMax := nTimeMax b |}.

Definition GetBlockTime (b : CBlockIndex) : Z := nTime b.

Definition IsValid (b : CBlockIndex) (nUpTo : Z) : option bool :=
  if Z.land nUpTo (wrapu 32 (Z.lnot BLOCK_VALID_MASK)) =? 0 then
    Some (if negb (Z.land (nStatus b) BLOCK_FAILED_MASK =? 0) then false
          else nUpTo <=? Z.land (nStatus b) BLOCK_VALID_MASK)
  else None.

(** The new status and whether it was raised. *)
Definition RaiseValidity (status nUpTo : Z) : option (Z * bool) :=
  if Z.land nUpTo (wrapu 32 (Z.lnot BLOCK_VALID_MASK)) =? 0 then
    Some (if negb (Z.land status BLOCK_FAILED_MASK =? 0) then (status, false)
          else if Z.land status BLOCK_VALID_MASK <? nUpTo then
            let status :=
              if negb (Z.land status BLOCK_ASSUMED_VALID =? 0) && (BLOCK_VALID_SCRIPTS <=? nUpTo)
              then Z.land status (wrapu 32 (Z.lnot BLOCK_ASSUMED_VALID)) else status in
            (Z.lor (Z.land status (wrapu 32 (Z.lnot BLOCK_VALID_MASK))) nUpTo, true)
          else (status, false))
  else None.

(** ** Ancestors *)

Fixpoint GetAncestor_loop (fuel : nat) (m : BlockMap) (pindexWalk : ptr) (heightWalk height : Z)
    : option ptr :=
  if heightWalk <=? height then Some pindexWalk
  else match fuel with
  | O => None
  | S fuel =>
      b ← m !! pindexWalk;
      let heightSkip := GetSkipHeight heightWalk in
      let heightSkipPrev := GetSkipHeight (heightWalk - 1) in
      match pskip b with
      | Some s =>
          if (heightSkip =? height) ||
             ((height <? heightSkip) &&
              negb ((heightSkipPrev <? heightSkip - 2) && (height <=? heightSkipPrev)))
          then GetAncestor_loop fuel m s heightSkip height
          else q ← pprev b; GetAncestor_loop fuel m q (heightWalk - 1) height
      | None => q ← pprev b; GetAncestor_loop fuel m q (heightWalk - 1) height
      end
  end.

(** Every turn lowers [heightWalk], so [nHeight - height] turns are enough. *)
Definition GetAncestor (m : BlockMap) (pindex : ptr) (height : Z) : option (option ptr) :=
  b ← m !! pindex;
  if (nHeight b <? height) || (height <? 0) then Some None
  else Some <$> GetAncestor_loop (Z.to_nat (nHeight b - height)) m pindex (nHeight b) height.

Definition BuildSkip (m : BlockMap) (b : CBlockIndex) : option CBlockIndex :=
  match pprev b with
  | None => Some b
  | Some q => s ← GetAncestor m q (GetSkipHeight (nHeight b)); Some (set_pskip b s)
  end.

(** ** Work *)

Definition GetBlockProof (nBits : Z) : result unit U :=
  let '(bnTarget, fNegative, fOverflow) := u_set_compact nBits in
  if fNegative || fOverflow || u_equal_to bnTarget 0 then Ok (u_of_u64 0)
  else
    q ← u_div (u_not bnTarget) (u_add bnTarget (u_of_u64 1));
    Ok (u_add q (u_of_u64 1)).

Definition GetBlockProofEquivalentTime (to from tip : CBlockIndex) (nPowTargetSpacing : Z)
    : result unit Z :=
  let '(r, sign) :=
    if 0 <? u_compare (nChainWork to) (nChainWork from)
    then (u_sub (nChainWork to) (nChainWork from), 1)
    else (u_sub (nChainWork from) (nChainWork to), -1) in
  proof ← GetBlockProof (nBits tip);
  r ← u_div (u_mul r (u_of_u64 (wrapu 64 nPowTargetSpacing))) proof;
  if 63 <? u_bits r then Ok (sign * (2 ^ 63 - 1)) else Ok (sign * u_low64 r).

(** ** The block manager *)

Record BlockManager := {
  m_block_index : BlockMap;
  m_prev_block_index : list (uint256 * ptr);
  m_dirty_blockindex : gset ptr;
  best_header : option ptr }.

(** The caller's [best_header] reference is kept with the manager.  [hash] is
    [block.GetHash()]. *)
Definition AddToBlockIndex (s : BlockManager) (hash : uint256) (block : CPureBlockHeader)
    (status : Z) : option (BlockManager * ptr) :=
  if negb (Z.land status BLOCK_FAILED_MASK =? 0) then None
  else match m_block_index s !! hash with
  | Some _ => Some (s, hash)
  | None =>
      let pindexNew := CBlockIndex_of_header block in
      let index := <[hash := pindexNew]> (m_block_index s) in
      pindexNew ←
        match index !! hashPrevBlock block with
        | Some bprev =>
            h ← int_add (nHeight bprev) 1;
            let pindexNew := set_prev_height pindexNew (Some (hashPrevBlock block)) h in
            BuildSkip (<[hash := pindexNew]> index) pindexNew
        | None => Some pindexNew
        end;
      let index := <[hash := pindexNew]> index in
      let prev := p ← pprev pindexNew; index !! p in
      proof ← match GetBlockProof (nBits pindexNew) with Ok w => Some w | Throw _ => None end;
      let timeMax := match prev with
                     | Some b => Z.max (nTimeMax b) (nTime pindexNew)
                     | None => nTime pindexNew
                     end in
      let work := u_add (match prev with Some b => nChainWork b | None => u_of_u64 0 end) proof in
      let pindexNew := set_work_time pindexNew work timeMax in
      '(raised, _) ← RaiseValidity (nStatus pindexNew) BLOCK_VALID_TREE;
      '(best, st) ←
        (if negb (Z.land status BLOCK_VALID_MASK =? 0) then
           better ← match best_header s with
                    | None => Some true
                    | Some p => bb ← index !! p; Some (u_compare (nChainWork bb) work <? 0)
                    end;
           Some (if (better : bool) then Some hash else best_header s, raised)
         else Some (best_header s, Z.lor raised status));
      let pindexNew := set_status pindexNew st in
      Some ({| m_block_index := <[hash := pindexNew]> index;
               m_prev_block_index :=
                 match pprev pindexNew with
                 | Some p => (p, hash) :: m_prev_block_index s
                 | None => m_prev_block_index s
                 end;
               m_dirty_blockindex := {[hash]} ∪ m_dirty_blockindex s;
               best_header := best |}, hash)
  end.

(** ** Fork points *)

Definition prev_of (m : BlockMap) (p : ptr) : option (option ptr) := pprev <$> m !! p.

Fixpoint LastCommonAncestor_loop (fuel : nat) (m : BlockMap) (pa pb : option ptr)
    : option (option ptr) :=
  match pa, pb with
  | Some a, Some b =>
      if decide (a = b) then Some pa
      else match fuel with
      | O => None
      | S fuel =>
          pa ← prev_of m a; pb ← prev_of m b; LastCommonAncestor_loop fuel m pa pb
      end
  | _, _ => if decide (pa = pb) then Some pa else None
  end.

Definition LastCommonAncestor (m : BlockMap) (pa pb : ptr) : option (option ptr) :=
  a ← m !! pa; b ← m !! pb;
  '(pa, pb) ←
    (if nHeight b <? nHeight a then
       pa ← GetAncestor m pa (nHeight b); Some (pa, Some pb)
     else if nHeight a <? nHeight b then
       pb ← GetAncestor m pb (nHeight a); Some (Some pa, pb)
     else Some (Some pa, Some pb));
  LastCommonAncestor_loop (S (Z.to_nat (Z.min (nHeight a) (nHeight b)))) m pa pb.

(** ** [CChain] *)

Definition Genesis (vChain : CChain) : option ptr :=
  match vChain with [] => None | p :: _ => p end.

Definition Height (vChain : CChain) : Z := Z.of_nat (length vChain) - 1.

Definition Tip (vChain : CChain) : option ptr := mjoin (last vChain).

Definition chain_at (vChain : CChain) (h : Z) : option ptr :=
  if (h <? 0) || (Z.of_nat (length vChain) <=? h) then None else mjoin (vChain !! Z.to_nat h).

Definition Contains (m : BlockMap) (vChain : CChain) (pindex : ptr) : option bool :=
  b ← m !! pindex; Some (bool_decide (chain_at vChain (nHeight b) = Some pindex)).

Definition Next (m : BlockMap) (vChain : CChain) (pindex : ptr) : option (option ptr) :=
  b ← m !! pindex;
  c ← Contains m vChain pindex;
  Some (if (c : bool) then chain_at vChain (nHeight b + 1) else None).

Definition resize_chain (n : nat) (vChain : CChain) : CChain :=
  take n vChain ++ replicate (n - length vChain) None.

Fixpoint SetTip_loop (fuel : nat) (m : BlockMap) (vChain : CChain) (pindex : option ptr)
    : option CChain :=
  match pindex with
  | None => Some vChain
  | Some p =>
      b ← m !! p;
      slot ← vChain !! Z.to_nat (nHeight b);
      if decide (slot = Some p) then Some vChain
      else match fuel with
      | O => None
      | S fuel => SetTip_loop fuel m (<[Z.to_nat (nHeight b) := Some p]> vChain) (pprev b)
      end
  end.

Definition SetTip (m : BlockMap) (vChain : CChain) (block : ptr) : option CChain :=
  b ← m !! block;
  let n := Z.to_nat (nHeight b + 1) in
  SetTip_loop n m (resize_chain n vChain) (Some block).

Fixpoint FindFork_loop (fuel : nat) (m : BlockMap) (vChain : CChain) (pindex : option ptr)
    : option (option ptr) :=
  match pindex with
  | None => Some None
  | Some p =>
      c ← Contains m vChain p;
      if (c : bool) then Some pindex
      else match fuel with
      | O => None
      | S fuel => q ← prev_of m p; FindFork_loop fuel m vChain q
      end
  end.

Definition FindFork (m : BlockMap) (vChain : CChain) (pindex : option ptr) : option (option ptr) :=
  match pindex with
  | None => Some None
  | Some p =>
      b ← m !! p;
      pindex ← (if Height vChain <? nHeight b then GetAncestor m p (Height vChain) else Some pindex);
      FindFork_loop (S (Z.to_nat (nHeight b))) m vChain pindex
  end.

(** [std::lower_bound] by halving; [len] elements are left from index [first]. *)
Fixpoint lower_bound {A} (fuel : nat) (comp : A -> option bool) (l : list A) (first len : nat) : option nat :=
  match len with
  | O => Some first
  | _ =>
      match fuel with
      | O => None
      | S fuel =>
          let half := (len / 2)%nat in
          let mid := (first + half)%nat in
          x ← l !! mid;
          c ← comp x;
          if (c : bool) then lower_bound fuel comp l (S mid) (len - half - 1)%nat
          else lower_bound fuel comp l first half
      end
  end.

Definition FindEarliestAtLeast (m : BlockMap) (vChain : CChain) (time height : Z)
    : option (option ptr) :=
  i ← lower_bound (length vChain)
        (fun slot => p ← slot; b ← m !! p;
                     Some ((nTimeMax b <? time) || (nHeight b <? height)))
        vChain 0 (length vChain);
  Some (if (i =? length vChain)%nat then None else mjoin (vChain !! i)).

(** ** Block locators *)

Fixpoint LocatorEntries_loop (fuel : nat) (m : BlockMap) (step : Z) (have_size : Z) (index : ptr)
    : option (list uint256) :=
  match fuel with
  | O => None
  | S fuel =>
      b ← m !! index;
      if nHeight b =? 0 then Some [index]
      else
        let height := Z.max (nHeight b - step) 0 in
        next ← GetAncestor m index height;
        step ← (if 10 <? have_size + 1 then int_add step step else Some step);
        match next with
        | None => Some [index]
        | Some next => (index ::.) <$> LocatorEntries_loop fuel m step (have_size + 1) next
        end
  end.

(** Heights strictly decrease, so [nHeight + 1] turns are enough. *)
Definition LocatorEntries (m : BlockMap) (index : option ptr) : option (list uint256) :=
  match index with
  | None => Some []
  | Some p => b ← m !! p; LocatorEntries_loop (S (Z.to_nat (nHeight b))) m 1 0 p
  end.

(** ** Median time past *)

Definition nMedianTimeSpan : nat := 11.

Fixpoint last_times (n : nat) (m : BlockMap) (pindex : option ptr) : option (list Z) :=
  match n, pindex with
  | O, _ | _, None => Some []
  | S n, Some p => b ← m !! p; (GetBlockTime b ::.) <$> last_times n m (pprev b)
  end.

Definition GetMedianTimePast (m : BlockMap) (pindex : ptr) : option Z :=
  times ← last_times nMedianTimeSpan m (Some pindex);
  merge_sort Z.le times !! (length times / 2)%nat.

(** ** Skip heights lie below the height *)

Lemma InvertLowestOne_bound n : 0 < n -> 0 <= InvertLowestOne n < n.
Proof. intros Hn. unfold InvertLowestOne. pose proof (land_le_r n (n - 1)). lia. Qed.

Lemma InvertLowestOne_0 : InvertLowestOne 0 = 0.
Proof. done. Qed.

Lemma GetSkipHeight_bound h : 0 <= GetSkipHeight h /\ (0 < h -> GetSkipHeight h < h).
Proof.
  unfold GetSkipHeight. destruct (Z.ltb_spec h 2); [lia|].
  destruct (negb _).
  - destruct (InvertLowestOne_bound (h - 1)); [lia|].
    destruct (Z.eq_dec (InvertLowestOne (h - 1)) 0) as [->|Hn]; [rewrite InvertLowestOne_0; lia|].
    pose proof (InvertLowestOne_bound (InvertLowestOne (h - 1))). lia.
  - pose proof (InvertLowestOne_bound h). lia.
Qed.

(** ** Walking over [pprev], the reference for every ancestor query *)

Fixpoint walk_back (m : BlockMap) (n : nat) (p : ptr) : option ptr :=
  match n with
  | O => Some p
  | S n => b ← m !! p; q ← pprev b; walk_back m n q
  end.

(** What a stored index entry satisfies: heights count from 0 at a block without
    predecessor, and the skip pointer is the ancestor at the skip height. *)
Definition index_ok (m : BlockMap) (p : ptr) (b : CBlockIndex) : Prop :=
  0 <= nHeight b < 2 ^ 31 /\
  match pprev b with
  | None => nHeight b = 0 /\ pskip b = None
  | Some q => exists bq, m !! q = Some bq /\ nHeight b = nHeight bq + 1 /\
      exists s, pskip b = Some s /\
        walk_back m (Z.to_nat (nHeight b - GetSkipHeight (nHeight b))) p = Some s
  end.

Definition chain_wf (m : BlockMap) : Prop := forall p b, m !! p = Some b -> index_ok m p b.

Lemma walk_back_add m a n p :
  walk_back m (a + n) p = q ← walk_back m a p; walk_back m n q.
Proof.
  revert p. induction a as [|a IH]; intros p; [done|]. cbn [Nat.add walk_back].
  destruct (m !! p) as [b|]; [|done]. cbo. destruct (pprev b); [|done]. apply IH.
Qed.

Lemma walk_back_mono m m' n p q : m ⊆ m' -> walk_back m n p = Some q -> walk_back m' n p = Some q.
Proof.
  intros Hsub. revert p. induction n as [|n IH]; intros p; [done|]. cbn [walk_back].
  destruct (m !! p) as [b|] eqn:E; [|done]. cbo. rewrite (lookup_weaken _ _ _ _ E Hsub). cbo.
  destruct (pprev b); [|done]. apply IH.
Qed.

(** In a well-formed index the walk reaches every height below the start. *)
Lemma walk_back_height m n p b :
  chain_wf m -> m !! p = Some b -> Z.of_nat n <= nHeight b ->
  exists q bq, walk_back m n p = Some q /\ m !! q = Some bq /\ nHeight bq = nHeight b - Z.of_nat n.
Proof.
  intros Hwf. revert p b. induction n as [|n IH]; intros p b Hp Hn.
  - exists p, b. split_and!; [done|done|lia].
  - destruct (Hwf p b Hp) as [Hb Hprev]. cbn [walk_back]. rewrite Hp. cbo.
    destruct (pprev b) as [r|]; [|lia]. cbo. destruct Hprev as (br & Hr & Hh & _).
    destruct (IH r br Hr) as (q & bq & Hw & Hq & Hqh); [lia|]. exists q, bq. split_and!; [done|done|lia].
Qed.

Lemma walk_back_lookup m n p b q :
  chain_wf m -> m !! p = Some b -> walk_back m n p = Some q ->
  Z.of_nat n <= nHeight b /\ exists bq, m !! q = Some bq /\ nHeight bq = nHeight b - Z.of_nat n.
Proof.
  intros Hwf Hp Hw. assert (Hle : Z.of_nat n <= nHeight b).
  { revert p b Hp Hw. induction n as [|n IH]; intros p b Hp Hw.
    - destruct (Hwf p b Hp). lia.
    - destruct (Hwf p b Hp) as [Hb Hprev]. cbn [walk_back] in Hw. rewrite Hp in Hw. cboin Hw.
      destruct (pprev b) as [r|]; [|done]. destruct Hprev as (br & Hr & Hh & _).
      specialize (IH r br Hr Hw). lia. }
  split; [done|]. destruct (walk_back_height m n p b Hwf Hp Hle) as (q' & bq & E & ? & ?).
  rewrite Hw in E. injection E as <-. by exists bq.
Qed.

(** The ancestor of [p] at height [h], by the plain walk. *)
Definition ancestor (m : BlockMap) (p : ptr) (h : Z) : option ptr :=
  b ← m !! p; if (nHeight b <? h) || (h <? 0) then None else walk_back m (Z.to_nat (nHeight b - h)) p.

Lemma GetAncestor_loop_spec m fuel p b height :
  chain_wf m -> m !! p = Some b -> 0 <= height <= nHeight b ->
  nHeight b - height <= Z.of_nat fuel ->
  GetAncestor_loop fuel m p (nHeight b) height = walk_back m (Z.to_nat (nHeight b - height)) p.
Proof.
  intros Hwf. revert p b. induction fuel as [|fuel IH]; intros p b Hp Hh Hf; cbn [GetAncestor_loop].
  { destruct (Z.leb_spec (nHeight b) height); [|lia].
    by replace (Z.to_nat (nHeight b - height)) with 0%nat by lia. }
  destruct (Z.leb_spec (nHeight b) height) as [Hle|Hgt].
  { by replace (Z.to_nat (nHeight b - height)) with 0%nat by lia. }
  rewrite Hp. cbo. destruct (Hwf p b Hp) as [Hb Hprev].
  destruct (pprev b) as [q|] eqn:Eq; [|lia]. destruct Hprev as (bq & Hq & Hhq & s & Hs & Hw). cbo.
  rewrite Hs.
  assert (Hstep : GetAncestor_loop fuel m q (nHeight b - 1) height =
                  walk_back m (Z.to_nat (nHeight b - height)) p).
  { replace (nHeight b - 1) with (nHeight bq) by lia. rewrite IH by (done || lia).
    replace (Z.to_nat (nHeight b - height)) with (S (Z.to_nat (nHeight bq - height))) by lia.
    cbn [walk_back]. rewrite Hp. cbo. by rewrite Eq. }
  destruct (_ || _) eqn:Ec; [|exact Hstep].
  destruct (GetSkipHeight_bound (nHeight b)) as [S0 S1]. specialize (S1 ltac:(lia)).
  assert (Hge : height <= GetSkipHeight (nHeight b)) by lia.
  destruct (walk_back_lookup m _ p b s Hwf Hp Hw) as (_ & bs & Hbs & Hhs).
  replace (GetSkipHeight (nHeight b)) with (nHeight bs) in * by lia.
  rewrite (IH s bs Hbs) by lia.
  replace (Z.to_nat (nHeight b - height)) with
    (Z.to_nat (nHeight b - nHeight bs) + Z.to_nat (nHeight bs - height))%nat by lia.
  by rewrite walk_back_add, Hw.
Qed.

Lemma GetAncestor_spec m p b height :
  chain_wf m -> m !! p = Some b -> GetAncestor m p height = Some (ancestor m p height).
Proof.
  intros Hwf Hp. unfold GetAncestor, ancestor. rewrite Hp. cbo.
  destruct (_ || _) eqn:E; [done|]. rewrite GetAncestor_loop_spec by (done || lia).
  destruct (walk_back_height m (Z.to_nat (nHeight b - height)) p b) as (q & bq & -> & _); [done|done|lia|].
  done.
Qed.

(** ** Inserting a header *)

Context {AUL : ArithUintLaws U}.

(** The expected number of hashes for a block with these bits. *)
Definition block_work (bits : Z) : Z :=
  let t := compact_value bits in
  if (t =? 0) || Z.testbit bits 23 || (2 ^ 256 <=? t) then 0 else 2 ^ 256 / (t + 1).

Lemma compact_value_nonneg c : in_u 32 c -> 0 <= compact_value c.
Proof.
  intros Hc. unfold compact_value. unfold in_u in Hc.
  assert (0 <= c mod 2 ^ 23) by zdm. destruct (Z.leb_spec (c / 2 ^ 24) 3) as [Hs|Hs].
  - apply Z.div_pos; [done | apply Z.pow_pos_nonneg; lia].
  - apply Z.mul_nonneg_nonneg; [done | apply Z.pow_nonneg; lia].
Qed.

Lemma compact_value_not_max c : in_u 32 c -> compact_value c <> 2 ^ 256 - 1.
Proof.
  intros Hc. unfold compact_value. unfold in_u in Hc.
  assert (0 <= c mod 2 ^ 23 < 2 ^ 23) as Hw by zdm. set (w := c mod 2 ^ 23) in *. clearbody w.
  destruct (Z.leb_spec (c / 2 ^ 24) 3) as [Hs|Hs].
  - pose proof (Z.pow_pos_nonneg 2 (8 * (3 - c / 2 ^ 24)) ltac:(lia) ltac:(lia)).
    pose proof (Z.div_le_upper_bound w (2 ^ (8 * (3 - c / 2 ^ 24))) w). nia.
  - replace (8 * (c / 2 ^ 24 - 3)) with (Z.succ (8 * (c / 2 ^ 24 - 3) - 1)) by lia.
    rewrite Z.pow_succ_r by lia. lia.
Qed.

Lemma GetBlockProof_spec bits :
  in_u 32 bits -> exists w, GetBlockProof bits = Ok w /\ u_wf w /\ u_val w = block_work bits.
Proof.
  intros Hb. unfold GetBlockProof, block_work. pose proof (compact_value_nonneg bits Hb) as H0.
  destruct (u_set_compact bits) as [[t neg] ovf] eqn:E.
  destruct (u_set_compact_spec bits t neg ovf Hb E) as (Wt & Vt & -> & ->).
  rewrite (u_equal_to_spec t 0 Wt) by (unfold in_u; lia). rewrite Vt.
  destruct (u_of_u64_spec 0) as [W0 V0]; [unfold in_u; lia|].
  destruct (u_of_u64_spec 1) as [W1 V1]; [unfold in_u; lia|].
  pose proof (compact_value_not_max bits Hb) as Hmax.
  set (v := compact_value bits) in *. clearbody v.
  destruct (Z.leb_spec (2 ^ 256) v) as [Ho|Ho].
  { rewrite !orb_true_r. cbn [orb]. exists (u_of_u64 0). split_and!; [done|done|lia]. }
  rewrite Z.mod_small by lia. destruct (Z.eqb_spec v 0) as [->|Hv].
  { cbn [negb andb orb]. exists (u_of_u64 0). split_and!; [done|done|lia]. }
  cbn [negb andb orb]. destruct (Z.testbit bits 23); cbn [orb].
  { exists (u_of_u64 0). split_and!; [done|done|lia]. }
  destruct (u_not_spec t Wt) as [Wn Vn]. destruct (u_add_spec t _ Wt W1) as [Wp Vp].
  rewrite Vt, V1 in *. rewrite !(Z.mod_small v) in * by lia.
  rewrite Z.mod_small in Vp by lia.
  pose proof (u_div_spec _ _ Wn Wp) as Hd. rewrite Vp in Hd.
  destruct (Z.eqb_spec (v + 1) 0); [lia|]. destruct Hd as (q & -> & Wq & Vq). cbn.
  destruct (u_add_spec q _ Wq W1) as [Wr Vr]. eexists. split; [done|]. split; [done|].
  rewrite Vr, Vq, V1, Vn.
  replace (2 ^ 256) with (2 ^ 256 - 1 - v + 1 * (v + 1)) at 3 by lia.
  rewrite Z.div_add by lia. apply Z.mod_small.
  split; [apply Z.add_nonneg_nonneg; [apply Z.div_pos|]; lia|].
  assert ((2 ^ 256 - 1 - v) / (v + 1) < 2 ^ 256 - 1); [|lia].
  apply Z.div_lt_upper_bound; nia.
Qed.

Lemma GetAncestor_loop_mono m m' fuel p hw h q :
  m ⊆ m' -> GetAncestor_loop fuel m p hw h = Some q -> GetAncestor_loop fuel m' p hw h = Some q.
Proof.
  intros Hsub. revert p hw. induction fuel as [|fuel IH]; intros p hw; cbn [GetAncestor_loop];
    destruct (hw <=? h); try done.
  destruct (m !! p) as [b|] eqn:E; [|done]. cbo. rewrite (lookup_weaken _ _ _ _ E Hsub). cbo.
  destruct (pskip b), (pprev b); cbo; repeat case_match; auto.
Qed.

Lemma GetAncestor_mono m m' p h r :
  m ⊆ m' -> GetAncestor m p h = Some r -> GetAncestor m' p h = Some r.
Proof.
  intros Hsub. unfold GetAncestor. destruct (m !! p) as [b|] eqn:E; [|done]. cbo.
  rewrite (lookup_weaken _ _ _ _ E Hsub). cbo. destruct (_ || _); [done|].
  destruct (GetAncestor_loop _ m _ _ _) eqn:El; [|done]. cbo. intros [= <-].
  by rewrite (GetAncestor_loop_mono _ _ _ _ _ _ _ Hsub El).
Qed.

Lemma index_ok_mono m m' p b : m ⊆ m' -> index_ok m p b -> index_ok m' p b.
Proof.
  intros Hsub [Hh Hp]. split; [done|]. destruct (pprev b) as [q|]; [|done].
  destruct Hp as (bq & Hq & E & s & Hs & Hw). exists bq. split; [by eapply lookup_weaken|].
  split; [done|]. exists s. split; [done|]. by eapply walk_back_mono.
Qed.

(** The memory-only sums of an entry follow from its predecessor's. *)
Definition sums_ok (m : BlockMap) (b : CBlockIndex) : Prop :=
  let prev := q ← pprev b; m !! q in
  u_wf (nChainWork b) /\
  u_val (nChainWork b) =
    (match prev with Some bq => u_val (nChainWork bq) | None => 0 end + block_work (nBits b)) mod 2 ^ 256 /\
  nTimeMax b = match prev with Some bq => Z.max (nTimeMax bq) (nTime b) | None => nTime b end.

Definition index_inv (m : BlockMap) : Prop :=
  chain_wf m /\ forall p b, m !! p = Some b -> sums_ok m b.

Lemma sums_ok_mono m m' p b :
  chain_wf m -> m !! p = Some b -> m ⊆ m' -> sums_ok m b -> sums_ok m' b.
Proof.
  intros Hwf Hp Hsub. unfold sums_ok. destruct (Hwf p b Hp) as [_ Hq].
  destruct (pprev b) as [q|]; [|done]. destruct Hq as (bq & Hq & _). cbo.
  by rewrite Hq, (lookup_weaken _ _ _ _ Hq Hsub).
Qed.

Lemma index_inv_insert m p b :
  index_inv m -> m !! p = None -> index_ok (<[p := b]> m) p b -> sums_ok (<[p := b]> m) b ->
  index_inv (<[p := b]> m).
Proof.
  intros [Hwf Hs] Hn Hok Hsum. assert (Hsub : m ⊆ <[p := b]> m) by by apply insert_subseteq.
  split; intros q c [[-> ->]|[Hne Hc]]%lookup_insert_Some; [done| |done|].
  - eapply index_ok_mono; [done | by apply Hwf].
  - eapply sums_ok_mono; [done | done | done | by eapply Hs].
Qed.

Lemma RaiseValidity_fresh : RaiseValidity 0 BLOCK_VALID_TREE = Some (BLOCK_VALID_TREE, true).
Proof. done. Qed.

(** The skip pointer a new block gets. *)
Lemma BuildSkip_new m hash q bq b0 b :
  chain_wf m -> m !! hash = None -> m !! q = Some bq ->
  pprev b = Some q -> nHeight b = nHeight bq + 1 ->
  exists s, BuildSkip (<[hash := b]> (<[hash := b0]> m)) b = Some (set_pskip b (Some s)) /\
    walk_back m (Z.to_nat (nHeight bq - GetSkipHeight (nHeight b))) q = Some s.
Proof.
  intros Hwf Hn Hq Hp Hh. unfold BuildSkip. rewrite Hp, insert_insert_eq.
  destruct (Hwf q bq Hq) as [Hqh _]. destruct (GetSkipHeight_bound (nHeight b)) as [S0 S1].
  specialize (S1 ltac:(lia)).
  destruct (walk_back_height m (Z.to_nat (nHeight bq - GetSkipHeight (nHeight b))) q bq)
    as (s & bs & Hw & _); [done|done|lia|].
  exists s. split; [|done].
  rewrite (GetAncestor_mono m _ q _ (Some s)); [done|by apply insert_subseteq|].
  rewrite (GetAncestor_spec m q bq) by done. unfold ancestor. rewrite Hq. cbo.
  destruct (_ || _) eqn:E; [lia|by rewrite Hw].
Qed.

(** The entry [AddToBlockIndex] stores for a header it has not seen. *)
Definition new_entry_ok (m : BlockMap) (block : CPureBlockHeader) (b : CBlockIndex) : Prop :=
  pprev b = (if decide (is_Some (m !! hashPrevBlock block)) then Some (hashPrevBlock block) else None) /\
  nVersion b = hdr_nVersion block /\ hashMerkleRoot b = hdr_hashMerkleRoot block /\
  nTime b = hdr_nTime block /\ nBits b = hdr_nBits block /\ nNonce b = hdr_nNonce block.

(** The linking step: predecessor, height and skip pointer of the new block. *)
Lemma link_new m hash block :
  chain_wf m -> m !! hash = None -> hashPrevBlock block <> hash ->
  (forall bq, m !! hashPrevBlock block = Some bq -> nHeight bq + 1 < 2 ^ 31) ->
  exists b,
    match <[hash := CBlockIndex_of_header block]> m !! hashPrevBlock block with
    | Some bprev =>
        h ← int_add (nHeight bprev) 1;
        let pindexNew := set_prev_height (CBlockIndex_of_header block) (Some (hashPrevBlock block)) h in
        BuildSkip (<[hash := pindexNew]> (<[hash := CBlockIndex_of_header block]> m)) pindexNew
    | None => Some (CBlockIndex_of_header block)
    end = Some b /\ new_entry_ok m block b /\ nStatus b = 0 /\
    forall b', pprev b' = pprev b -> pskip b' = pskip b -> nHeight b' = nHeight b ->
      index_ok (<[hash := b']> m) hash b'.
Proof.
  intros Hwf Hn Hne Hh. rewrite lookup_insert_ne by done. unfold new_entry_ok.
  destruct (m !! hashPrevBlock block) as [bq|] eqn:Hq.
  2: { eexists. split; [done|]. split; [by rewrite decide_False by (by intros [])|]. split; [done|].
       intros b' E1 E2 E3. cbn in E1, E2, E3. split; [lia|]. by rewrite E1. }
  specialize (Hh bq eq_refl). destruct (Hwf _ bq Hq) as [Hqh _].
  unfold int_add. replace ((- 2 ^ 31 <=? nHeight bq + 1) && (nHeight bq + 1 <? 2 ^ 31)) with true by lia.
  cbo. cbn zeta. set (b := set_prev_height _ _ _).
  destruct (BuildSkip_new m hash (hashPrevBlock block) bq (CBlockIndex_of_header block) b)
    as (s & -> & Hw); [done..|].
  eexists. split; [done|]. split; [by rewrite decide_True by eauto|]. split; [done|].
  intros b' E1 E2 E3. cbn in E1, E2, E3. split; [lia|]. rewrite E1.
  exists bq. split; [by rewrite lookup_insert_ne|]. split; [done|]. exists s. split; [done|].
  assert (Hsub : m ⊆ <[hash := b']> m) by by apply insert_subseteq.
  destruct (GetSkipHeight_bound (nHeight b')) as [S0 S1].
  replace (Z.to_nat (nHeight b' - GetSkipHeight (nHeight b')))
    with (S (Z.to_nat (nHeight bq - GetSkipHeight (nHeight b')))) by lia.
  cbn [walk_back]. rewrite lookup_insert_eq. cbo. rewrite E1. cbo.
  eapply walk_back_mono; [done|]. by rewrite E3.
Qed.

Definition best_ok (s : BlockManager) : Prop :=
  match best_header s with Some p => is_Some (m_block_index s !! p) | None => True end.

Definition best_work (s : BlockManager) : Z :=
  match p ← best_header s; m_block_index s !! p with Some b => u_val (nChainWork b) | None => -1 end.

Definition state_inv (s : BlockManager) : Prop := index_inv (m_block_index s) /\ best_ok s.

(** What a successful insertion leaves behind. *)
Definition add_post (s : BlockManager) (hash : uint256) (block : CPureBlockHeader) (status : Z)
    (s' : BlockManager) : Prop :=
  exists b, m_block_index s' = <[hash := b]> (m_block_index s) /\
    new_entry_ok (m_block_index s) block b /\
    best_header s' = (if negb (Z.land status BLOCK_VALID_MASK =? 0) && (best_work s <? u_val (nChainWork b))
                      then Some hash else best_header s).

Lemma work_new m hash block b :
  index_inv m -> m !! hash = None -> hashPrevBlock block <> hash -> new_entry_ok m block b ->
  in_u 32 (hdr_nBits block) ->
  let prev := p ← pprev b; <[hash := b]> m !! p in
  exists proof, GetBlockProof (nBits b) = Ok proof /\
    let timeMax := match prev with Some b' => Z.max (nTimeMax b') (nTime b) | None => nTime b end in
    let work := u_add (match prev with Some b' => nChainWork b' | None => u_of_u64 0 end) proof in
    u_wf work /\
    forall st, sums_ok (<[hash := set_status (set_work_time b work timeMax) st]> m)
                       (set_status (set_work_time b work timeMax) st).
Proof.
  intros [Hwf Hs] Hn Hne (Hp & _ & _ & _ & Hbits & _) Hu prev. rewrite Hbits.
  destruct (GetBlockProof_spec (hdr_nBits block) Hu) as (w & -> & Ww & Vw). exists w. split; [done|].
  assert (Hlook : forall c, (p ← pprev b; <[hash := c]> m !! p) = (p ← pprev b; m !! p)).
  { intros c. rewrite Hp. case_decide; [|done]. cbo. by rewrite lookup_insert_ne. }
  unfold prev. rewrite Hlook. cbn zeta.
  destruct (u_of_u64_spec 0) as [W0 V0]; [unfold in_u; lia|].
  assert (Hw : u_wf (match p ← pprev b; m !! p with Some b' => nChainWork b' | None => u_of_u64 0 end)).
  { destruct (pprev b) as [q|]; cbo; [|done]. destruct (m !! q) as [bq|] eqn:E; [|done]. by eapply Hs. }
  destruct (u_add_spec _ w Hw Ww) as [Wa Va]. split; [done|].
  intros st. unfold sums_ok. cbn [set_status set_work_time pprev nChainWork nBits nTimeMax nTime].
  rewrite Hlook, Va, Vw, Hbits. split; [done|]. split; [|done].
  destruct (p ← pprev b; m !! p); [done|]. by rewrite V0.
Qed.

Lemma AddToBlockIndex_spec s hash block status :
  state_inv s -> m_block_index s !! hash = None -> hashPrevBlock block <> hash ->
  Z.land status BLOCK_FAILED_MASK = 0 -> in_u 32 (hdr_nBits block) ->
  (forall bq, m_block_index s !! hashPrevBlock block = Some bq -> nHeight bq + 1 < 2 ^ 31) ->
  exists s', AddToBlockIndex s hash block status = Some (s', hash) /\ state_inv s' /\
    add_post s hash block status s'.
Proof.
  intros [Hinv Hbest] Hn Hne Hst Hu Hh. unfold AddToBlockIndex. rewrite Hst, Hn. cbn [negb Z.eqb].
  destruct Hinv as [Hwf Hsum].
  destruct (link_new (m_block_index s) hash block Hwf Hn Hne Hh) as (b & Hlink & Hnew & Hst0 & Hok).
  cbn zeta. cbn zeta in Hlink. rewrite Hlink. cbo. rewrite insert_insert_eq.
  destruct (work_new _ hash block b (conj Hwf Hsum) Hn Hne Hnew Hu) as (proof & -> & Ww & Hs). cbo.
  cbn zeta in Ww, Hs. set (prev := p ← pprev b; _) in *. set (work := u_add _ proof) in *.
  cbn [set_work_time set_status nStatus]. rewrite Hst0, RaiseValidity_fresh. cbo.
  set (b1 := set_work_time b work _) in *.
  assert (Hbest' : exists best st,
    (if negb (Z.land status BLOCK_VALID_MASK =? 0)
     then better ← match best_header s with
                   | None => Some true
                   | Some p => bb ← <[hash := b]> (m_block_index s) !! p;
                               Some (u_compare (nChainWork bb) work <? 0)
                   end;
          Some (if (better : bool) then Some hash else best_header s, BLOCK_VALID_TREE)
     else Some (best_header s, Z.lor BLOCK_VALID_TREE status)) = Some (best, st) /\
    best = (if negb (Z.land status BLOCK_VALID_MASK =? 0) && (best_work s <? u_val work)
            then Some hash else best_header s)).
  { destruct (negb _); [|by eexists _, _]. unfold best_ok, best_work in *. cbn [andb].
    destruct (best_header s) as [p|]; cbo.
    - destruct Hbest as [bb Hbb]. rewrite lookup_insert_ne by congruence. rewrite Hbb. cbo.
      eexists _, _. split; [done|]. rewrite u_compare_spec by (done || by eapply Hsum).
      by destruct (Z.compare_spec (u_val (nChainWork bb)) (u_val work)), (Z.ltb_spec (u_val (nChainWork bb)) (u_val work)); try lia.
    - pose proof (u_wf_bound work Ww). replace (-1 <? u_val work) with true by lia. by eexists _, _. }
  destruct Hbest' as (best & st & -> & Hb). cbo. rewrite insert_insert_eq.
  eexists. split; [done|]. split; [split|]; cbn [m_block_index best_header].
  - apply index_inv_insert; [done|done|by apply Hok|apply Hs].
  - unfold best_ok. cbn [m_block_index best_header]. rewrite Hb. unfold best_ok in Hbest.
    case_match; [by rewrite lookup_insert_eq|].
    destruct (best_header s) as [p|]; [|done]. destruct Hbest as [bb Hbb].
    rewrite lookup_insert_ne by congruence. by rewrite Hbb.
  - eexists. split; [done|]. split; [exact Hnew|]. by rewrite Hb.
Qed.

(** ** Sums over the whole branch *)

(** The blocks from [p] down to the block without predecessor. *)
Fixpoint branch (m : BlockMap) (n : nat) (p : ptr) : option (list CBlockIndex) :=
  b ← m !! p;
  match pprev b, n with
  | None, _ => Some [b]
  | Some q, S n => (b ::.) <$> branch m n q
  | Some _, O => None
  end.

Definition sum_work (l : list CBlockIndex) : Z := foldr (fun b w => block_work (nBits b) + w) 0 l.

Lemma branch_sums m n p b :
  index_inv m -> m !! p = Some b -> nHeight b = Z.of_nat n ->
  exists l, branch m n p = Some l /\ length l = S n /\
    u_val (nChainWork b) = sum_work l mod 2 ^ 256 /\
    Forall (fun c => nTime c <= nTimeMax b) l /\ Exists (fun c => nTime c = nTimeMax b) l.
Proof.
  intros [Hwf Hs]. revert p b. induction n as [|n IH]; intros p b Hp Hh; cbn [branch]; rewrite Hp; cbo;
    destruct (Hwf p b Hp) as [_ Hq]; destruct (Hs p b Hp) as (_ & Hw & Ht); destruct (pprev b) as [q|].
  - destruct Hq as (bq & Hq & E & _). destruct (Hwf q bq Hq). lia.
  - exists [b]. cbn in Ht. split_and!; [done|done| |repeat constructor; lia|by repeat constructor].
    cbn. rewrite Hw. cbo. f_equal. lia.
  - destruct Hq as (bq & Hq & E & _). revert Hw Ht. cbo. rewrite Hq. intros Hw Ht.
    destruct (IH q bq Hq ltac:(lia)) as (l & -> & Hl & Hwl & Htl & Hel). cbo.
    exists (b :: l). split_and!; [done|cbn; lia| | |].
    + rewrite Hw, Hwl, Z.add_mod_idemp_l by done. cbn [sum_work foldr]. by rewrite Z.add_comm.
    + constructor; [lia|]. eapply Forall_impl; [done|]. cbn. lia.
    + destruct (Z.max_spec (nTimeMax bq) (nTime b)) as [[? E']|[? E']]; rewrite Ht, E'; [by left|].
      right. done.
  - lia.
Qed.

(** ** Ancestors as a relation *)

Definition is_ancestor (m : BlockMap) (q p : ptr) : Prop := exists n, walk_back m n p = Some q.

Lemma is_ancestor_refl m p : is_ancestor m p p.
Proof. by exists 0%nat. Qed.

Lemma is_ancestor_trans m a b c : is_ancestor m a b -> is_ancestor m b c -> is_ancestor m a c.
Proof. intros [i Hi] [j Hj]. exists (j + i)%nat. by rewrite walk_back_add, Hj. Qed.

Lemma is_ancestor_height m q p b :
  chain_wf m -> m !! p = Some b -> is_ancestor m q p ->
  exists bq, m !! q = Some bq /\ nHeight bq <= nHeight b /\
    walk_back m (Z.to_nat (nHeight b - nHeight bq)) p = Some q.
Proof.
  intros Hwf Hp [n Hn]. destruct (walk_back_lookup m n p b q Hwf Hp Hn) as (Hle & bq & Hq & Hh).
  exists bq. split; [done|]. split; [lia|]. by replace (Z.to_nat _) with n by lia.
Qed.

(** Two ancestors of one block lie on one line. *)
Lemma is_ancestor_linear m p b q r bq br :
  chain_wf m -> m !! p = Some b -> is_ancestor m q p -> is_ancestor m r p ->
  m !! q = Some bq -> m !! r = Some br -> nHeight bq <= nHeight br -> is_ancestor m q r.
Proof.
  intros Hwf Hp Hq Hr Hbq Hbr Hle.
  destruct (is_ancestor_height m q p b Hwf Hp Hq) as (bq' & E1 & H1 & W1).
  destruct (is_ancestor_height m r p b Hwf Hp Hr) as (br' & E2 & H2 & W2).
  rewrite Hbq in E1. rewrite Hbr in E2. injection E1 as <-. injection E2 as <-.
  exists (Z.to_nat (nHeight br - nHeight bq)).
  replace (Z.to_nat (nHeight b - nHeight bq))
    with (Z.to_nat (nHeight b - nHeight br) + Z.to_nat (nHeight br - nHeight bq))%nat in W1 by lia.
  by rewrite walk_back_add, W2 in W1.
Qed.

Lemma is_ancestor_same_height m q p bq bp :
  chain_wf m -> m !! q = Some bq -> m !! p = Some bp -> nHeight bp <= nHeight bq ->
  is_ancestor m q p -> q = p.
Proof.
  intros Hwf Hq Hp Hh Ha. destruct (is_ancestor_height m q p bp Hwf Hp Ha) as (b' & E & H1 & W).
  rewrite Hq in E. injection E as <-. replace (Z.to_nat _) with 0%nat in W by lia. by injection W.
Qed.

Lemma is_ancestor_prev m q p b :
  m !! p = Some b -> is_ancestor m q p -> q = p \/ exists r, pprev b = Some r /\ is_ancestor m q r.
Proof.
  intros Hp [[|n] Hn]; [injection Hn; auto|]. cbn [walk_back] in Hn. rewrite Hp in Hn. cboin Hn.
  destruct (pprev b) as [r|]; [|done]. right. exists r. split; [done|]. by exists n.
Qed.

Lemma ancestor_spec m p b h q :
  chain_wf m -> m !! p = Some b ->
  ancestor m p h = Some q <-> is_ancestor m q p /\ exists bq, m !! q = Some bq /\ nHeight bq = h.
Proof.
  intros Hwf Hp. unfold ancestor. rewrite Hp. cbo. split.
  - destruct (_ || _) eqn:E; [done|]. intros Hw. split; [by eexists|].
    destruct (walk_back_lookup m _ p b q Hwf Hp Hw) as (_ & bq & Hq & Hh). exists bq. split; [done|lia].
  - intros (Ha & bq & Hq & <-). destruct (is_ancestor_height m q p b Hwf Hp Ha) as (b' & E & H1 & W).
    rewrite Hq in E. injection E as <-. destruct (Hwf q bq Hq) as [Hb _]. destruct (_ || _) eqn:E'; [lia|done].
Qed.

Lemma ancestor_total m p b h :
  chain_wf m -> m !! p = Some b -> 0 <= h <= nHeight b ->
  exists q bq, ancestor m p h = Some q /\ m !! q = Some bq /\ nHeight bq = h.
Proof.
  intros Hwf Hp Hh. unfold ancestor. rewrite Hp. cbo. destruct (_ || _) eqn:E; [lia|].
  destruct (walk_back_height m (Z.to_nat (nHeight b - h)) p b) as (q & bq & ? & ? & ?); [done|done|lia|].
  exists q, bq. split_and!; [done|done|lia].
Qed.

(** ** Fork points *)

(** [r] is the lowest common ancestor of [a] and [b], or they have none. *)
Definition is_lca (m : BlockMap) (a b : ptr) (r : option ptr) : Prop :=
  match r with
  | None => forall q, is_ancestor m q a -> is_ancestor m q b -> False
  | Some q => is_ancestor m q a /\ is_ancestor m q b /\
      forall q', is_ancestor m q' a -> is_ancestor m q' b -> is_ancestor m q' q
  end.

Lemma is_lca_unique m a b ba r r' :
  chain_wf m -> m !! a = Some ba -> is_lca m a b r -> is_lca m a b r' -> r = r'.
Proof.
  intros Hwf Ha Hr Hr'. destruct r as [q|], r' as [q'|]; cbn in *; [| | |done].
  - destruct Hr as (A1 & B1 & M1), Hr' as (A2 & B2 & M2). f_equal.
    destruct (is_ancestor_height m q a ba Hwf Ha A1) as (bq & Hq & _).
    destruct (is_ancestor_height m q' a ba Hwf Ha A2) as (bq' & Hq' & _).
    destruct (is_ancestor_height m q q' bq' Hwf Hq' (M2 q A1 B1)) as (? & E & Hh & _).
    rewrite Hq in E. injection E as <-.
    symmetry. by apply (is_ancestor_same_height m q' q bq' bq Hwf Hq' Hq Hh (M1 q' A2 B2)).
  - destruct Hr as (A1 & B1 & _). by destruct (Hr' q A1 B1).
  - destruct Hr' as (A1 & B1 & _). by destruct (Hr q' A1 B1).
Qed.

Lemma is_lca_comm m a b r : is_lca m a b r -> is_lca m b a r.
Proof. destruct r as [q|]; cbn; [intros (? & ? & Hm); split_and!|]; eauto. Qed.

(** A common ancestor of [a] and [b] is one of [b] and any ancestor of [a] that is at least as high as [b]. *)
Lemma is_lca_climb m a b c ba bb bc r :
  chain_wf m -> m !! a = Some ba -> m !! b = Some bb -> m !! c = Some bc ->
  is_ancestor m c a -> nHeight bb <= nHeight bc -> is_lca m c b r -> is_lca m a b r.
Proof.
  intros Hwf Ha Hb Hc Hca Hh.
  assert (Hdown : forall q, is_ancestor m q a -> is_ancestor m q b -> is_ancestor m q c).
  { intros q Hqa Hqb. destruct (is_ancestor_height m q b bb Hwf Hb Hqb) as (bq & Hq & Hqh & _).
    eapply (is_ancestor_linear m a ba q c); [done..|lia]. }
  destruct r as [q|]; cbn.
  - intros (A & B & Mx). split_and!; [eauto using is_ancestor_trans|done|eauto].
  - eauto.
Qed.

Lemma LastCommonAncestor_loop_spec m fuel a b ba bb :
  chain_wf m -> m !! a = Some ba -> m !! b = Some bb -> nHeight ba = nHeight bb ->
  nHeight ba < Z.of_nat fuel ->
  exists r, LastCommonAncestor_loop fuel m (Some a) (Some b) = Some r /\ is_lca m a b r.
Proof.
  intros Hwf. revert a b ba bb. induction fuel as [|fuel IH]; intros a b ba bb Ha Hb Hh Hf.
  { destruct (Hwf a ba Ha). lia. }
  cbn [LastCommonAncestor_loop]. case_decide as Hab.
  { subst. exists (Some b). split; [done|]. cbn. eauto using is_ancestor_refl. }
  unfold prev_of. rewrite Ha, Hb. cbo.
  assert (Hcommon : forall q, is_ancestor m q a -> is_ancestor m q b ->
    exists a' b', pprev ba = Some a' /\ pprev bb = Some b' /\ is_ancestor m q a' /\ is_ancestor m q b').
  { intros q Hqa Hqb.
    destruct (is_ancestor_prev m q a ba Ha Hqa) as [->|(a' & Ea & Hqa')].
    { by destruct Hab; apply (is_ancestor_same_height m a b ba bb); [..|lia|]. }
    destruct (is_ancestor_prev m q b bb Hb Hqb) as [->|(b' & Eb & Hqb')]; [|eauto 10].
    by destruct Hab; symmetry; apply (is_ancestor_same_height m b a bb ba); [..|lia|]. }
  destruct (Hwf a ba Ha) as [Hba Hpa], (Hwf b bb Hb) as [Hbb Hpb].
  destruct (pprev ba) as [a'|] eqn:Ea, (pprev bb) as [b'|] eqn:Eb.
  - destruct Hpa as (ba' & Ha' & Eh & _), Hpb as (bb' & Hb' & Eh' & _).
    destruct (IH a' b' ba' bb' Ha' Hb') as (r & -> & Hr); [lia|lia|]. exists r. split; [done|].
    assert (Hup : forall p p' bp q, m !! p = Some bp -> pprev bp = Some p' -> is_ancestor m q p' -> is_ancestor m q p).
    { intros p p' bp q Hp Ep [n Hn]. exists (S n). cbn [walk_back]. rewrite Hp. cbo. by rewrite Ep. }
    destruct r as [q|]; cbn in *.
    + destruct Hr as (A & B & Mx). split_and!; [by eapply Hup|by eapply Hup|].
      intros q' Hqa Hqb. destruct (Hcommon q' Hqa Hqb) as (? & ? & [= <-] & [= <-] & ? & ?). eauto.
    + intros q' Hqa Hqb. destruct (Hcommon q' Hqa Hqb) as (? & ? & [= <-] & [= <-] & ? & ?). eauto.
  - destruct Hpa as (ba' & Ha' & Eh & _). destruct (Hwf a' ba' Ha'). lia.
  - destruct Hpb as (bb' & Hb' & Eh & _). destruct (Hwf b' bb' Hb'). lia.
  - exists None. split; [by destruct fuel|]. intros q Hqa Hqb. by destruct (Hcommon q Hqa Hqb) as (? & ? & ? & _).
Qed.

Lemma LastCommonAncestor_spec m a b ba bb :
  chain_wf m -> m !! a = Some ba -> m !! b = Some bb ->
  exists r, LastCommonAncestor m a b = Some r /\ is_lca m a b r.
Proof.
  intros Hwf Ha Hb. unfold LastCommonAncestor. rewrite Ha, Hb. cbo.
  destruct (Hwf a ba Ha) as [Hba _], (Hwf b bb Hb) as [Hbb _].
  destruct (Z.ltb_spec (nHeight bb) (nHeight ba)) as [Hlt|Hle].
  - rewrite (GetAncestor_spec m a ba) by done. cbo.
    destruct (ancestor_total m a ba (nHeight bb)) as (c & bc & Ec & Hc & Hch); [done|done|lia|]. rewrite Ec. cbo.
    destruct (LastCommonAncestor_loop_spec m (S (Z.to_nat (Z.min (nHeight ba) (nHeight bb)))) c b bc bb)
      as (r & -> & Hr); [done|done|done|lia|lia|].
    exists r. split; [done|]. eapply (is_lca_climb m a b c); [done..| |lia|done].
    by apply (ancestor_spec m a ba (nHeight bb)) in Ec as [? _].
  - destruct (Z.ltb_spec (nHeight ba) (nHeight bb)) as [Hlt|Hle'].
    + rewrite (GetAncestor_spec m b bb) by done. cbo.
      destruct (ancestor_total m b bb (nHeight ba)) as (c & bc & Ec & Hc & Hch); [done|done|lia|]. rewrite Ec. cbo.
      destruct (LastCommonAncestor_loop_spec m (S (Z.to_nat (Z.min (nHeight ba) (nHeight bb)))) a c ba bc)
        as (r & -> & Hr); [done|done|done|lia|lia|].
      exists r. split; [done|]. apply is_lca_comm. apply is_lca_comm in Hr.
      eapply (is_lca_climb m b a c); [done..| |lia|done].
      by apply (ancestor_spec m b bb (nHeight ba)) in Ec as [? _].
    + apply LastCommonAncestor_loop_spec with ba bb; [done..|lia|lia].
Qed.

(** ** The active chain *)

(** [vChain] holds exactly the ancestors of [tip], at their heights. *)
Definition chain_of (m : BlockMap) (vChain : CChain) (tip : ptr) : Prop :=
  exists b, m !! tip = Some b /\ length vChain = Z.to_nat (nHeight b + 1) /\
    forall i, (i < length vChain)%nat -> vChain !! i = Some (ancestor m tip (Z.of_nat i)).

Definition chain_inv (m : BlockMap) (vChain : CChain) : Prop :=
  vChain = [] \/ exists tip, chain_of m vChain tip.

(** Up to height [h], the ancestors of a filled slot fill the slots below it. *)
Definition slots_ok (m : BlockMap) (vChain : CChain) (h : Z) : Prop :=
  forall i p, Z.of_nat i <= h -> vChain !! i = Some (Some p) ->
    forall j, (j <= i)%nat -> vChain !! j = Some (ancestor m p (Z.of_nat j)).

Lemma ancestor_ancestor m p b q bq h :
  chain_wf m -> m !! p = Some b -> m !! q = Some bq -> is_ancestor m q p -> 0 <= h <= nHeight bq ->
  ancestor m q h = ancestor m p h.
Proof.
  intros Hwf Hp Hq Ha Hh. destruct (ancestor_total m q bq h) as (r & br & E & Hr & Hrh); [done..|].
  rewrite E. symmetry. apply (ancestor_spec m p b); [done..|].
  apply (ancestor_spec m q bq) in E as [Hrq _]; [|done..].
  split; [eauto using is_ancestor_trans|eauto].
Qed.

Lemma chain_of_slots m v tip h : chain_wf m -> chain_of m v tip -> slots_ok m v h.
Proof.
  intros Hwf (b & Hb & Hl & Hs) i p Hi Hp j Hj. pose proof (lookup_lt_Some _ _ _ Hp).
  rewrite Hs in Hp by done. injection Hp as Hp. apply (ancestor_spec m tip b) in Hp as (Ha & bp & Hbp & Hh); [|done..].
  rewrite Hs by lia. f_equal. symmetry. by apply (ancestor_ancestor m tip b p bp); [..|lia].
Qed.

Lemma resize_chain_slots m v n h :
  chain_wf m -> chain_inv m v -> slots_ok m (resize_chain n v) h /\ length (resize_chain n v) = n.
Proof.
  intros Hwf Hv. split; [|unfold resize_chain; rewrite length_app, length_take, length_replicate; lia].
  assert (Hs : slots_ok m v h).
  { destruct Hv as [->|[tip Ht]]; [by intros i p _ ?|by eapply chain_of_slots]. }
  intros i p Hi Hp j Hj. unfold resize_chain in *.
  apply lookup_app_Some in Hp as [Hp|[_ Hp]]; [|by apply lookup_replicate in Hp as [? _]].
  apply lookup_take_Some in Hp as [Hp Hin]. pose proof (lookup_lt_Some _ _ _ Hp).
  rewrite lookup_app_l by (rewrite length_take; lia). rewrite lookup_take_lt by lia. by eapply Hs.
Qed.

Lemma ancestor_self m p b : chain_wf m -> m !! p = Some b -> ancestor m p (nHeight b) = Some p.
Proof.
  intros Hwf Hp. apply (ancestor_spec m p b); [done..|]. eauto using is_ancestor_refl.
Qed.

Lemma ancestor_prev m p b q h :
  chain_wf m -> m !! p = Some b -> pprev b = Some q -> 0 <= h < nHeight b ->
  ancestor m q h = ancestor m p h.
Proof.
  intros Hwf Hp Eq Hh. destruct (Hwf p b Hp) as [_ Hq]. rewrite Eq in Hq. destruct Hq as (bq & Hq & E & _).
  apply (ancestor_ancestor m p b q bq); [done..| |lia].
  exists 1%nat. cbn [walk_back]. rewrite Hp. cbo. by rewrite Eq.
Qed.

Lemma SetTip_loop_spec m fuel v p b :
  chain_wf m -> m !! p = Some b -> nHeight b < Z.of_nat (length v) -> slots_ok m v (nHeight b) ->
  nHeight b < Z.of_nat fuel ->
  exists v', SetTip_loop fuel m v (Some p) = Some v' /\ length v' = length v /\
    (forall j, Z.of_nat j <= nHeight b -> v' !! j = Some (ancestor m p (Z.of_nat j))) /\
    (forall j, nHeight b < Z.of_nat j -> v' !! j = v !! j).
Proof.
  intros Hwf. revert v p b. induction fuel as [|fuel IH]; intros v p b Hp Hlen Hok Hf;
    destruct (Hwf p b Hp) as [Hb Hprev]; [lia|].
  cbn [SetTip_loop]. rewrite Hp. cbo.
  destruct (lookup_lt_is_Some_2 v (Z.to_nat (nHeight b))) as [slot Hslot]; [lia|]. rewrite Hslot. cbo.
  case_decide as Hd.
  { subst slot. exists v. split_and!; [done|done| |done]. intros j Hj. by eapply Hok; [|done|]; lia. }
  set (w := <[Z.to_nat (nHeight b) := Some p]> v).
  assert (Hw : forall j, Z.of_nat j <> nHeight b -> w !! j = v !! j).
  { intros j Hj. unfold w. apply list_lookup_insert_ne. lia. }
  assert (Hwp : w !! Z.to_nat (nHeight b) = Some (Some p)) by (apply list_lookup_insert_eq; lia).
  assert (Hwl : length w = length v) by apply length_insert.
  destruct (pprev b) as [q|] eqn:Eq.
  - destruct Hprev as (bq & Hq & Eh & _).
    destruct (IH w q bq Hq) as (v' & -> & Hl & Hlo & Hhi); [lia| |lia|].
    { intros i r Hi Hr j Hj. rewrite Hw in * by lia. by eapply Hok; [|done|]; lia. }
    exists v'. split_and!; [done|congruence| |intros j Hj; rewrite Hhi by lia; apply Hw; lia].
    intros j Hj. destruct (Z.eq_dec (Z.of_nat j) (nHeight b)) as [E|Hne].
    + rewrite Hhi by lia. rewrite E, (ancestor_self m p b) by done. by replace j with (Z.to_nat (nHeight b)) by lia.
    + rewrite Hlo by lia. f_equal. eapply ancestor_prev; [done..|lia].
  - destruct Hprev as [H0 _]. exists w. split_and!; [by destruct fuel|done| |intros j Hj; apply Hw; lia].
    intros j Hj. replace j with (Z.to_nat (nHeight b)) by lia. rewrite Hwp, Z2Nat.id by lia.
    by rewrite (ancestor_self m p b).
Qed.

Lemma SetTip_spec m v p b :
  chain_wf m -> chain_inv m v -> m !! p = Some b ->
  exists v', SetTip m v p = Some v' /\ chain_of m v' p.
Proof.
  intros Hwf Hv Hp. unfold SetTip. rewrite Hp. cbo. destruct (Hwf p b Hp) as [Hb _].
  destruct (resize_chain_slots m v (Z.to_nat (nHeight b + 1)) (nHeight b) Hwf Hv) as [Hs Hl].
  destruct (SetTip_loop_spec m (Z.to_nat (nHeight b + 1)) (resize_chain (Z.to_nat (nHeight b + 1)) v) p b)
    as (v' & -> & Hl' & Hlo & _); [done|done|lia|done|lia|].
  exists v'. split; [done|]. exists b. split; [done|]. split; [lia|]. intros i Hi. apply Hlo. lia.
Qed.

Lemma chain_at_spec m v tip bt p b :
  chain_wf m -> chain_of m v tip -> m !! tip = Some bt -> m !! p = Some b ->
  chain_at v (nHeight b) = Some p <-> is_ancestor m p tip.
Proof.
  intros Hwf (b' & Hb' & Hl & Hs) Ht Hp. rewrite Ht in Hb'. injection Hb' as <-.
  destruct (Hwf p b Hp) as [Hb _], (Hwf tip bt Ht) as [Hbt _]. unfold chain_at. split.
  - destruct (_ || _) eqn:E; [done|]. rewrite Hs by lia. cbn. rewrite Z2Nat.id by lia.
    intros Ha. by apply (ancestor_spec m tip bt) in Ha as [? _].
  - intros Ha. destruct (is_ancestor_height m p tip bt Hwf Ht Ha) as (b' & E & Hle & _).
    rewrite Hp in E. injection E as <-. destruct (_ || _) eqn:E; [lia|]. rewrite Hs by lia. cbn.
    rewrite Z2Nat.id by lia. apply (ancestor_spec m tip bt); [done..|]. split; [done|by exists b].
Qed.

Lemma FindFork_loop_spec m fuel v tip bt p b :
  chain_wf m -> chain_of m v tip -> m !! tip = Some bt -> m !! p = Some b ->
  nHeight b < Z.of_nat fuel ->
  exists r, FindFork_loop fuel m v (Some p) = Some r /\ is_lca m p tip r.
Proof.
  intros Hwf Hc Ht. revert p b. induction fuel as [|fuel IH]; intros p b Hp Hf;
    destruct (Hwf p b Hp) as [Hb Hprev]; [lia|].
  cbn [FindFork_loop]. unfold Contains. rewrite Hp. cbo. case_bool_decide as Hd;
    rewrite (chain_at_spec m v tip bt) in Hd by done.
  { exists (Some p). split; [done|]. cbn. eauto using is_ancestor_refl. }
  unfold prev_of. rewrite Hp. cbo. destruct (pprev b) as [q|] eqn:Eq.
  - destruct Hprev as (bq & Hq & Eh & _). destruct (IH q bq Hq) as (r & -> & Hr); [lia|].
    exists r. split; [done|].
    assert (Hqp : is_ancestor m q p) by (exists 1%nat; cbn [walk_back]; rewrite Hp; cbo; by rewrite Eq).
    assert (Hdown : forall x, is_ancestor m x p -> is_ancestor m x tip -> is_ancestor m x q).
    { intros x Hxp Hxt. destruct (is_ancestor_prev m x p b Hp Hxp) as [->|(q' & E & ?)]; [done|].
      rewrite Eq in E. by injection E as ->. }
    destruct r as [x|]; cbn in *; [|eauto].
    destruct Hr as (A & B & Mx). split_and!; [eauto using is_ancestor_trans|done|eauto].
  - exists None. split; [by destruct fuel|]. intros x Hxp Hxt.
    destruct (is_ancestor_prev m x p b Hp Hxp) as [->|(q' & E & ?)]; [done|congruence].
Qed.

Lemma FindFork_spec m v tip bt p b :
  chain_wf m -> chain_of m v tip -> m !! tip = Some bt -> m !! p = Some b ->
  exists r, FindFork m v (Some p) = Some r /\ is_lca m p tip r.
Proof.
  intros Hwf Hc Ht Hp. unfold FindFork. rewrite Hp. cbo.
  destruct (Hwf p b Hp) as [Hb _], (Hwf tip bt Ht) as [Hbt _].
  assert (Hh : Height v = nHeight bt).
  { destruct Hc as (b' & E & Hl & _). rewrite Ht in E. injection E as <-. unfold Height. lia. }
  rewrite Hh. destruct (Z.ltb_spec (nHeight bt) (nHeight b)) as [Hlt|Hle].
  - rewrite (GetAncestor_spec m p b) by done. cbo.
    destruct (ancestor_total m p b (nHeight bt)) as (c & bc & Ec & Hc' & Hch); [done|done|lia|]. rewrite Ec.
    destruct (FindFork_loop_spec m (S (Z.to_nat (nHeight b))) v tip bt c bc) as (r & -> & Hr); [done..|lia|].
    exists r. split; [done|]. eapply (is_lca_climb m p tip c); [done..| |lia|done].
    by apply (ancestor_spec m p b (nHeight bt)) in Ec as [? _].
  - cbo. eapply FindFork_loop_spec; [done..|lia].
Qed.

(** ** Locators *)

Definition lower (m : BlockMap) (q r : ptr) : Prop :=
  exists bq br, m !! q = Some bq /\ m !! r = Some br /\ nHeight br < nHeight bq.

(** A locator from [p]: it starts at [p], descends, stays among the ancestors of
    [p] and ends at the root of the branch. *)
Definition locator_ok (m : BlockMap) (p : ptr) (l : list ptr) : Prop :=
  head l = Some p /\ Sorted (lower m) l /\ Forall (fun q => is_ancestor m q p) l /\
  exists g, last l = Some g /\ ancestor m p 0 = Some g.

Lemma locator_ok_cons m p b q bq l :
  chain_wf m -> m !! p = Some b -> m !! q = Some bq -> nHeight bq < nHeight b -> is_ancestor m q p ->
  locator_ok m q l -> locator_ok m p (p :: l).
Proof.
  intros Hwf Hp Hq Hh Ha (Hd & Hs & Hf & g & Hl & Hg). split; [done|]. split_and!.
  - constructor; [done|]. destruct l as [|x l]; [done|]. injection Hd as ->. constructor. by exists b, bq.
  - constructor; [apply is_ancestor_refl|]. eapply Forall_impl; [done|].
    intros x Hx. exact (is_ancestor_trans m x q p Hx Ha).
  - exists g. destruct (Hwf q bq Hq) as [Hb _]. split.
    + destruct l; [done|]. by rewrite last_cons_cons.
    + rewrite <- Hg. symmetry. by apply (ancestor_ancestor m p b q bq); [..|lia].
Qed.

Lemma LocatorEntries_loop_spec m fuel step size p b i k :
  chain_wf m -> m !! p = Some b -> 1 <= step -> nHeight b = 0 \/ step + nHeight b <= 2 ^ 30 ->
  nHeight b < Z.of_nat fuel -> 10 <= size + Z.of_nat i -> (size <= 9 -> step = 1) ->
  nHeight b <= step * (2 ^ Z.of_nat k - 1) ->
  exists l, LocatorEntries_loop fuel m step size p = Some l /\ locator_ok m p l /\ (length l <= i + k + 1)%nat.
Proof.
  intros Hwf. revert step size p b i k.
  induction fuel as [|fuel IH]; intros step size p b i k Hp Hstep Hsum Hf Hi Hone Hk;
    destruct (Hwf p b Hp) as [Hb _]; [lia|].
  cbn [LocatorEntries_loop]. rewrite Hp. cbo. destruct (Z.eqb_spec (nHeight b) 0) as [H0|H0].
  { exists [p]. split; [done|]. split; [|cbn; lia]. split; [done|]. split_and!; [by repeat constructor| |].
    - by repeat constructor; exists 0%nat.
    - exists p. split; [done|]. rewrite <- H0. by apply ancestor_self. }
  rewrite (GetAncestor_spec m p b) by done. cbo.
  destruct (ancestor_total m p b (Z.max (nHeight b - step) 0)) as (q & bq & Eq & Hq & Hqh); [done|done|lia|].
  rewrite Eq. apply (ancestor_spec m p b) in Eq as [Hqp _]; [|done..].
  assert (Hnext : exists step' i' k',
    (if 10 <? size + 1 then int_add step step else Some step) = Some step' /\ 1 <= step' /\
    (nHeight bq = 0 \/ step' + nHeight bq <= 2 ^ 30) /\ 10 <= size + 1 + Z.of_nat i' /\
    (size + 1 <= 9 -> step' = 1) /\ nHeight bq <= step' * (2 ^ Z.of_nat k' - 1) /\ (i' + k' < i + k)%nat).
  { destruct (Z.ltb_spec 10 (size + 1)).
    - destruct k as [|k]; [cbn in Hk; lia|]. exists (step + step), i, k. unfold int_add.
      replace ((- 2 ^ 31 <=? step + step) && (step + step <? 2 ^ 31)) with true by lia.
      rewrite Nat2Z.inj_succ, Z.pow_succ_r in Hk by lia.
      assert (1 <= 2 ^ Z.of_nat k) by (pose proof (Z.pow_pos_nonneg 2 (Z.of_nat k)); lia).
      split_and!; try done; try lia; nia.
    - exists step, (i - 1)%nat, k. rewrite Hone in * by lia. split_and!; try done; lia. }
  destruct Hnext as (step' & i' & k' & -> & G1 & G2 & G3 & G4 & G5 & G6). cbo.
  destruct (IH step' (size + 1) q bq i' k') as (l & -> & Hl & Hlen); [done..|lia|done|done|done|]. cbo.
  exists (p :: l). split; [done|]. split; [|cbn; lia].
  eapply (locator_ok_cons m p b q bq); [done..|lia|done|done].
Qed.

Lemma LocatorEntries_spec m p b :
  chain_wf m -> m !! p = Some b -> nHeight b < 2 ^ 30 ->
  exists l, LocatorEntries m (Some p) = Some l /\ locator_ok m p l /\
    Z.of_nat (length l) <= 12 + Z.log2 (nHeight b).
Proof.
  intros Hwf Hp Hh. unfold LocatorEntries. rewrite Hp. cbo. destruct (Hwf p b Hp) as [Hb _].
  pose proof (Z.log2_nonneg (nHeight b)).
  destruct (LocatorEntries_loop_spec m (S (Z.to_nat (nHeight b))) 1 0 p b 10 (Z.to_nat (Z.log2 (nHeight b) + 1)))
    as (l & -> & Hl & Hlen); [done|done|lia|lia|lia|lia|done| |].
  { rewrite Z2Nat.id by lia. destruct (Z.eq_dec (nHeight b) 0) as [->|]; [done|].
    pose proof (Z.log2_spec (nHeight b)). rewrite <- Z.add_1_r in *. lia. }
  exists l. split_and!; [done|done|lia].
Qed.

(** ** The earliest block at a time and a height *)

Lemma lower_bound_spec {A} (comp : A -> option bool) (c : nat -> bool) l fuel first len :
  (forall i x, l !! i = Some x -> comp x = Some (c i)) ->
  (forall i j, (i <= j)%nat -> c j = true -> c i = true) ->
  (first + len <= length l)%nat -> (len <= fuel)%nat ->
  (forall i, (i < first)%nat -> c i = true) ->
  (forall i, (first + len <= i < length l)%nat -> c i = false) ->
  exists i, lower_bound fuel comp l first len = Some i /\ (i <= length l)%nat /\
    (forall j, (j < i)%nat -> c j = true) /\ (forall j, (i <= j < length l)%nat -> c j = false).
Proof.
  intros Hc Hmono. revert first len. induction fuel as [|fuel IH]; intros first len Hlen Hf Hlo Hhi.
  - assert (len = 0)%nat as -> by lia. exists first. split_and!; [done|lia|done|].
    intros j Hj. apply Hhi. lia.
  - destruct len as [|len']; [exists first; split_and!; [done|lia|done|intros; apply Hhi; lia]|].
    cbn [lower_bound]. set (len := S len') in *. assert (len / 2 < len)%nat by (apply Nat.div_lt; lia).
    destruct (lookup_lt_is_Some_2 l (first + len / 2)) as [x Hx]; [lia|]. rewrite Hx. cbo.
    rewrite (Hc _ _ Hx). cbo. destruct (c (first + len / 2)%nat) eqn:Ec.
    + apply IH; [lia|lia| |]; intros i Hi; [apply (Hmono i (first + len / 2)%nat); [lia|done]|apply Hhi; lia].
    + apply IH; [lia|lia|done|]. intros i Hi. destruct (c i) eqn:Ei; [|done].
      by rewrite (Hmono (first + len / 2)%nat i) in Ec by (lia || done).
Qed.

Lemma nTimeMax_ancestor m q p bq b :
  index_inv m -> m !! p = Some b -> m !! q = Some bq -> is_ancestor m q p -> nTimeMax bq <= nTimeMax b.
Proof.
  intros [Hwf Hs] Hp Hq [n Hn]. revert p b Hp Hn. induction n as [|n IH]; intros p b Hp Hn.
  - injection Hn as ->. rewrite Hp in Hq. by injection Hq as ->.
  - cbn [walk_back] in Hn. rewrite Hp in Hn. cboin Hn. destruct (Hs p b Hp) as (_ & _ & Ht).
    destruct (Hwf p b Hp) as [_ Hr]. destruct (pprev b) as [r|]; [|done].
    destruct Hr as (br & Hr & _). revert Ht. cbo. rewrite Hr. intros Ht. specialize (IH r br Hr Hn). lia.
Qed.

Lemma chain_of_slot m v tip i :
  chain_wf m -> chain_of m v tip -> (i < length v)%nat ->
  exists p b, v !! i = Some (Some p) /\ ancestor m tip (Z.of_nat i) = Some p /\ m !! p = Some b /\
    nHeight b = Z.of_nat i /\ is_ancestor m p tip.
Proof.
  intros Hwf (bt & Ht & Hl & Hs) Hi. destruct (Hwf tip bt Ht) as [Hbt _].
  destruct (ancestor_total m tip bt (Z.of_nat i)) as (p & b & E & Hp & Hh); [done|done|lia|].
  exists p, b. rewrite Hs, E by done. split_and!; [done..|].
  by apply (ancestor_spec m tip bt) in E as [? _].
Qed.

Lemma ancestor_in_chain m v tip q bq :
  chain_wf m -> chain_of m v tip -> is_ancestor m q tip -> m !! q = Some bq ->
  (Z.to_nat (nHeight bq) < length v)%nat /\ ancestor m tip (nHeight bq) = Some q.
Proof.
  intros Hwf (bt & Ht & Hl & Hs) Ha Hq. destruct (Hwf q bq Hq) as [Hb _].
  destruct (is_ancestor_height m q tip bt Hwf Ht Ha) as (b' & E & Hle & _).
  rewrite Hq in E. injection E as <-. split; [lia|].
  apply (ancestor_spec m tip bt); [done..|]. split; [done|by exists bq].
Qed.

Lemma FindEarliestAtLeast_spec m v tip time height :
  index_inv m -> chain_of m v tip ->
  exists r, FindEarliestAtLeast m v time height = Some r /\
    let early bq := nTimeMax bq < time \/ nHeight bq < height in
    match r with
    | Some p => is_ancestor m p tip /\ exists b, m !! p = Some b /\ ~ early b /\
        forall q bq, is_ancestor m q tip -> m !! q = Some bq -> nHeight bq < nHeight b -> early bq
    | None => forall q bq, is_ancestor m q tip -> m !! q = Some bq -> early bq
    end.
Proof.
  intros Hinv Hc. pose proof Hinv as [Hwf _]. unfold FindEarliestAtLeast.
  set (tm := fun b => (nTimeMax b <? time) || (nHeight b <? height)).
  set (c := fun i => match p ← ancestor m tip (Z.of_nat i); m !! p with Some b => tm b | None => false end).
  assert (Hcv : forall i q bq, (i < length v)%nat -> ancestor m tip (Z.of_nat i) = Some q -> m !! q = Some bq ->
                               c i = tm bq).
  { intros i q bq Hi E Hq. unfold c. rewrite E. cbo. by rewrite Hq. }
  destruct (lower_bound_spec (fun slot => p ← slot; b ← m !! p;
                                          Some ((nTimeMax b <? time) || (nHeight b <? height)))
              c v (length v) 0 (length v))
    as (i & -> & Hi & Hlo & Hhi); [| |lia|lia|lia|lia|].
  { intros i x Hx. pose proof (lookup_lt_Some _ _ _ Hx) as Hlt.
    destruct (chain_of_slot m v tip i Hwf Hc Hlt) as (p & b & E & Ea & Hp & _). rewrite Hx in E. injection E as ->.
    cbo. rewrite Hp. cbo. f_equal. symmetry. by apply (Hcv i p b). }
  { intros i j Hij. unfold c. destruct Hc as (bt & Ht & Hl & Hs).
    destruct (ancestor m tip (Z.of_nat j)) as [q|] eqn:Eq; [|done]. cbo.
    apply (ancestor_spec m tip bt) in Eq as (Hq & bq & Hbq & Hqh); [|done..]. rewrite Hbq.
    destruct (is_ancestor_height m q tip bt Hwf Ht Hq) as (b' & E & Hle & _). rewrite Hbq in E. injection E as <-.
    destruct (ancestor_total m tip bt (Z.of_nat i)) as (p & b & Ep & Hp & Hph); [done|done|lia|].
    rewrite Ep. cbo. rewrite Hp. apply (ancestor_spec m tip bt) in Ep as (Hpa & _); [|done..].
    assert (is_ancestor m p q) by (eapply (is_ancestor_linear m tip bt p q b bq); (done || lia)).
    pose proof (nTimeMax_ancestor m p q b bq Hinv Hbq Hp ltac:(done)). unfold tm. lia. }
  cbo. eexists. split; [done|]. cbn zeta.
  assert (Hearly : forall q bq, is_ancestor m q tip -> m !! q = Some bq -> nHeight bq < Z.of_nat i ->
                     nTimeMax bq < time \/ nHeight bq < height).
  { intros q bq Hqa Hq Hlt. destruct (ancestor_in_chain m v tip q bq Hwf Hc Hqa Hq) as [Hlen Ea].
    destruct (Hwf q bq Hq) as [Hb _]. rewrite <- (Z2Nat.id (nHeight bq)) in Ea by lia.
    pose proof (Hcv _ q bq Hlen Ea Hq) as Et. rewrite Hlo in Et by lia. unfold tm in Et. lia. }
  destruct (Nat.eqb_spec i (length v)) as [->|Hne].
  - intros q bq Hqa Hq. apply (Hearly q bq Hqa Hq).
    destruct (ancestor_in_chain m v tip q bq Hwf Hc Hqa Hq) as [Hlen _]. destruct (Hwf q bq Hq). lia.
  - destruct (chain_of_slot m v tip i Hwf Hc ltac:(lia)) as (p & b & E & Ea & Hp & Hh & Hpa).
    rewrite E. cbn. split; [done|]. exists b. split; [done|]. split.
    + pose proof (Hcv i p b ltac:(lia) Ea Hp) as Et. rewrite Hhi in Et by lia. unfold tm in Et. lia.
    + intros q bq Hqa Hq Hlt. apply (Hearly q bq Hqa Hq). lia.
Qed.

(** ** Median time past *)

Fixpoint count_below (v : Z) (l : list Z) : nat :=
  match l with
  | [] => 0
  | x :: l => (if x <? v then 1 else 0) + count_below v l
  end.

Lemma count_below_perm v l l' : l ≡ₚ l' -> count_below v l = count_below v l'.
Proof. induction 1; cbn; lia. Qed.

Lemma count_below_app v l l' : count_below v (l ++ l') = (count_below v l + count_below v l')%nat.
Proof. induction l; cbn; lia. Qed.

Lemma count_below_le v l : (count_below v l <= length l)%nat.
Proof. induction l; cbn; [lia|]. case_match; lia. Qed.

Lemma count_below_none v l : Forall (fun y => v <= y) l -> count_below v l = 0%nat.
Proof. induction 1; cbn; [done|]. destruct (Z.ltb_spec x v); lia. Qed.

Lemma count_below_all v l : Forall (fun y => y < v) l -> count_below v l = length l.
Proof. induction 1; cbn; [done|]. destruct (Z.ltb_spec x v); lia. Qed.

Lemma sorted_split l i x :
  StronglySorted Z.le l -> l !! i = Some x ->
  Forall (fun y => y <= x) (take (S i) l) /\ Forall (fun y => x <= y) (drop i l).
Proof.
  intros Hs. revert i. induction Hs as [|y l Hs IH Hy]; intros i Hi; [done|].
  destruct i as [|i]; cbn in Hi |- *.
  - injection Hi as ->. rewrite take_0. split; [by repeat constructor|]. by constructor.
  - destruct (IH i Hi) as [H1 H2]. split; [|done]. constructor; [|done].
    rewrite Forall_forall in Hy. apply Hy. by apply list_elem_of_lookup_2 in Hi.
Qed.

Lemma sorted_count_below l i x : StronglySorted Z.le l -> l !! i = Some x -> (count_below x l <= i)%nat.
Proof.
  intros Hs Hi. destruct (sorted_split l i x Hs Hi) as [_ H2].
  rewrite <- (take_drop i l), count_below_app.
  rewrite (count_below_none x (drop i l)) by done.
  pose proof (count_below_le x (take i l)). rewrite length_take in *. lia.
Qed.

Lemma sorted_lookup_ge l i x v :
  StronglySorted Z.le l -> l !! i = Some x -> (count_below v l <= i)%nat -> v <= x.
Proof.
  intros Hs Hi Hc. destruct (Z.le_gt_cases v x) as [|Hlt]; [done|].
  destruct (sorted_split l i x Hs Hi) as [H1 _]. pose proof (lookup_lt_Some _ _ _ Hi).
  rewrite <- (take_drop (S i) l), count_below_app in Hc.
  rewrite (count_below_all v (take (S i) l)) in Hc by (eapply Forall_impl; [done|]; cbn; lia).
  rewrite length_take in Hc. lia.
Qed.

Lemma last_times_S n m p :
  last_times (S n) m (Some p) = b ← m !! p; (GetBlockTime b ::.) <$> last_times n m (pprev b).
Proof. done. Qed.

Lemma last_times_take n k m p l :
  last_times (n + k) m p = Some l -> last_times n m p = Some (take n l).
Proof.
  revert p l. induction n as [|n IH]; intros p l; [by destruct p|].
  cbn [last_times Nat.add]. destruct p as [p|]; [|by intros [= <-]].
  destruct (m !! p) as [b|]; [|done]. cbo. destruct (last_times (n + k) m (pprev b)) as [l'|] eqn:E; [|done].
  cbo. intros [= <-]. by rewrite (IH _ _ E).
Qed.

Lemma last_times_length n m p l : last_times n m p = Some l -> (length l <= n)%nat.
Proof.
  revert p l. induction n as [|n IH]; intros p l; [by destruct p; intros [= <-]|]. cbn [last_times].
  destruct p as [p|]; [|intros [= <-]; cbn; lia]. destruct (m !! p) as [b|]; [|done]. cbo.
  destruct (last_times n m (pprev b)) as [l'|] eqn:E; [|done]. cbo. intros [= <-]. specialize (IH _ _ E). cbn. lia.
Qed.

(** The window is a total function of a well-formed index. *)
Lemma last_times_total n m p b :
  chain_wf m -> m !! p = Some b -> exists l, last_times n m (Some p) = Some l /\ (n <> 0%nat -> l <> []).
Proof.
  intros Hwf. revert p b. induction n as [|n IH]; intros p b Hp; cbn [last_times]; [by eexists|].
  rewrite Hp. cbo. destruct (Hwf p b Hp) as [_ Hq]. destruct (pprev b) as [q|].
  - destruct Hq as (bq & Hq & _). destruct (IH q bq Hq) as (l & -> & _). cbo. by eexists.
  - destruct n; by eexists.
Qed.

Lemma median_spec m p b :
  chain_wf m -> m !! p = Some b ->
  exists l mtp, last_times nMedianTimeSpan m (Some p) = Some l /\ GetMedianTimePast m p = Some mtp /\
    StronglySorted Z.le (merge_sort Z.le l) /\ merge_sort Z.le l !! (length l / 2)%nat = Some mtp.
Proof.
  intros Hwf Hp. destruct (last_times_total nMedianTimeSpan m p b Hwf Hp) as (l & El & Hn).
  unfold GetMedianTimePast. rewrite El. cbo.
  assert (Hl : length (merge_sort Z.le l) = length l) by (by rewrite merge_sort_Permutation).
  destruct (lookup_lt_is_Some_2 (merge_sort Z.le l) (length l / 2)) as [x Hx].
  { rewrite Hl. destruct l; [by destruct Hn|]. apply Nat.div_lt; cbn; lia. }
  exists l, x. split_and!; [done|done| |done]. apply StronglySorted_merge_sort; [apply _|].
  intros x1 y1. lia.
Qed.

Lemma median_monotone m p b q mtp mtp' :
  chain_wf m -> m !! p = Some b -> pprev b = Some q ->
  GetMedianTimePast m q = Some mtp -> mtp < nTime b ->
  GetMedianTimePast m p = Some mtp' -> mtp <= mtp'.
Proof.
  intros Hwf Hp Eq Hq Ht Hp'. destruct (Hwf p b Hp) as [_ Hprev]. rewrite Eq in Hprev.
  destruct Hprev as (bq & Hbq & _).
  destruct (median_spec m q bq Hwf Hbq) as (lq & mq & Elq & Emq & Sq & Lq).
  destruct (median_spec m p b Hwf Hp) as (lp & mp & Elp & Emp & Sp & Lp).
  rewrite Hq in Emq. injection Emq as <-. rewrite Hp' in Emp. injection Emp as <-.
  pose proof (last_times_length _ _ _ _ Elq) as Hlen.
  assert (lp = nTime b :: take 10 lq) as ->.
  { unfold nMedianTimeSpan in Elp, Elq. change 11%nat with (10 + 1)%nat in Elq. apply last_times_take in Elq.
    rewrite last_times_S, Hp in Elp. cboin Elp. rewrite Eq, Elq in Elp. cboin Elp. by injection Elp as <-. }
  apply (sorted_lookup_ge _ _ _ _ Sp Lp).
  rewrite (count_below_perm _ _ _ (merge_sort_Permutation _ _)). cbn [count_below].
  pose proof (sorted_count_below _ _ _ Sq Lq) as Hc.
  rewrite (count_below_perm _ _ _ (merge_sort_Permutation _ _)) in Hc.
  rewrite <- (take_drop 10 lq), count_below_app, take_drop in Hc.
  destruct (Z.ltb_spec (nTime b) mtp); [lia|]. cbn [length]. rewrite length_take.
  assert (length lq / 2 <= S (10 `min` length lq) / 2)%nat; [|lia].
  apply Nat.Div0.div_le_mono. unfold nMedianTimeSpan in Hlen. lia.
Qed.

(** ** The index and the chain as they evolve *)

(** A node starts empty; it accepts headers and moves the tip of its chain.  The
    headers are those whose hash is not the hash they name as predecessor. *)
Inductive reachable : BlockManager -> CChain -> Prop :=
| reach_init :
    reachable {| m_block_index := ∅; m_prev_block_index := []; m_dirty_blockindex := ∅;
                 best_header := None |} []
| reach_add s v hash block status s' :
    reachable s v -> hashPrevBlock block <> hash -> in_u 32 (hdr_nBits block) ->
    AddToBlockIndex s hash block status = Some (s', hash) -> reachable s' v
| reach_tip s v p v' :
    reachable s v -> SetTip (m_block_index s) v p = Some v' -> reachable s v'.

Lemma AddToBlockIndex_height s hash block status s' bq :
  m_block_index s !! hash = None -> hashPrevBlock block <> hash ->
  AddToBlockIndex s hash block status = Some (s', hash) ->
  m_block_index s !! hashPrevBlock block = Some bq -> nHeight bq + 1 < 2 ^ 31.
Proof.
  intros Hn Hne E Hq. unfold AddToBlockIndex in E. destruct (negb _); [done|]. rewrite Hn in E. cbn zeta in E.
  rewrite lookup_insert_ne, Hq in E by done. unfold int_add in E.
  destruct (_ && _) eqn:Ei in E; [lia|]. done.
Qed.

Lemma chain_of_mono m m' v tip : chain_wf m -> m ⊆ m' -> chain_of m v tip -> chain_of m' v tip.
Proof.
  intros Hwf Hsub (b & Hb & Hl & Hs). pose proof (lookup_weaken _ _ _ _ Hb Hsub) as Hb'.
  exists b. split_and!; [done|done|]. intros i Hi. rewrite Hs by done. f_equal.
  destruct (Hwf tip b Hb) as [Hh _].
  unfold ancestor. rewrite Hb, Hb'. cbo. destruct (_ || _) eqn:E; [done|].
  destruct (walk_back_height m (Z.to_nat (nHeight b - Z.of_nat i)) tip b) as (q & bq & Hw & _); [done|done|lia|].
  rewrite Hw. symmetry. by eapply walk_back_mono.
Qed.

Lemma reachable_inv s v : reachable s v -> state_inv s /\ chain_inv (m_block_index s) v.
Proof.
  induction 1 as [|s v hash block status s' _ [Hi Hc] Hne Hu E|s v p v' _ [Hi Hc] E].
  - split; [split; [split|]|by left]; try done; by intros p b.
  - destruct (m_block_index s !! hash) as [b|] eqn:Hn.
    + unfold AddToBlockIndex in E. rewrite Hn in E. destruct (negb _) in E; [done|]. by injection E as <-.
    + destruct (AddToBlockIndex_spec s hash block status Hi Hn Hne) as (s1 & E1 & Hi1 & b & Hm & _); [|done| |].
      { unfold AddToBlockIndex in E. by destruct (Z.eqb_spec (Z.land status BLOCK_FAILED_MASK) 0). }
      { intros bq. by eapply AddToBlockIndex_height. }
      rewrite E in E1. injection E1 as <-. split; [done|].
      destruct Hc as [->|[tip Ht]]; [by left|]. right. exists tip. rewrite Hm.
      destruct Hi as [[Hwf _] _]. eapply chain_of_mono; [done|by apply insert_subseteq|done].
  - split; [done|]. right. exists p. destruct Hi as [[Hwf _] _].
    destruct (m_block_index s !! p) as [b|] eqn:Hp; [|unfold SetTip in E; by rewrite Hp in E].
    destruct (SetTip_spec _ v p b Hwf Hc Hp) as (v1 & E1 & ?). rewrite E in E1. by injection E1 as <-.
Qed.

End chain.

(** ** Properties *)

Section properties.
Context {U : Type} `{AU : ArithUint U} {AUL : ArithUintLaws U}.

(** C18: The skip list is an optimisation only.  In every reachable block index
    [GetAncestor] returns, within as many turns as the height difference, exactly
    the block that walking [pprev] that many times reaches: null for a height
    above the block or below zero, otherwise a stored block of that height.  No
    assertion fails and no null pointer is followed. *)
Theorem GetAncestor_is_walk (s : BlockManager (U := U)) v p b height :
  reachable s v -> m_block_index s !! p = Some b ->
  if (0 <=? height) && (height <=? nHeight b)
  then exists q bq, GetAncestor (m_block_index s) p height = Some (Some q) /\
         walk_back (m_block_index s) (Z.to_nat (nHeight b - height)) p = Some q /\
         m_block_index s !! q = Some bq /\ nHeight bq = height
  else GetAncestor (m_block_index s) p height = Some None.
Proof.
  intros Hr Hp. destruct (reachable_inv s v Hr) as [[[Hwf _] _] _].
  rewrite (GetAncestor_spec _ p b height Hwf Hp).
  destruct ((0 <=? height) && (height <=? nHeight b)) eqn:E.
  - destruct (ancestor_total _ p b height Hwf Hp) as (q & bq & Ea & Hq & Hh); [lia|].
    exists q, bq. rewrite Ea. split_and!; [done| |done|done].
    unfold ancestor in Ea. rewrite Hp in Ea. cboin Ea. by destruct (_ || _) in Ea.
  - unfold ancestor. rewrite Hp. cbo. destruct (_ || _) eqn:E'; [done|lia].
Qed.

(** C19: Accepting a header.  From a reachable state, a header with a hash that is
    not stored yet, a status without failure bits and a predecessor height below
    [INT_MAX] is inserted: the index grows by exactly one entry, which carries the
    header's fields and is linked to its predecessor when that is known; all
    invariants are kept; and the best header moves to the new block exactly when
    the status claims validity and the new chain has strictly more work. *)
Theorem AddToBlockIndex_correct (s : BlockManager (U := U)) v hash block status :
  reachable s v -> m_block_index s !! hash = None -> hashPrevBlock block <> hash ->
  Z.land status BLOCK_FAILED_MASK = 0 -> in_u 32 (hdr_nBits block) ->
  (forall bq, m_block_index s !! hashPrevBlock block = Some bq -> nHeight bq + 1 < 2 ^ 31) ->
  exists s', AddToBlockIndex s hash block status = Some (s', hash) /\ reachable s' v /\
    state_inv s' /\ add_post s hash block status s'.
Proof.
  intros Hr Hn Hne Hst Hu Hh. destruct (reachable_inv s v Hr) as [Hi _].
  destruct (AddToBlockIndex_spec s hash block status) as (s' & E & Hi' & Hp); [done..|].
  exists s'. split_and!; [done| |done|done]. by eapply reach_add.
Qed.

(** C20: Cumulative fields.  In every reachable index the chain work of a block is
    the sum over its whole branch of [2^256 / (target + 1)] (modulo [2^256]), and
    its [nTimeMax] is the maximum time stamp of the branch. *)
Theorem reachable_branch_sums (s : BlockManager (U := U)) v p b :
  reachable s v -> m_block_index s !! p = Some b ->
  exists l, branch (m_block_index s) (Z.to_nat (nHeight b)) p = Some l /\
    Z.of_nat (length l) = nHeight b + 1 /\ u_val (nChainWork b) = sum_work l mod 2 ^ 256 /\
    Forall (fun c => nTime c <= nTimeMax b) l /\ Exists (fun c => nTime c = nTimeMax b) l.
Proof.
  intros Hr Hp. destruct (reachable_inv s v Hr) as [[Hi _] _]. pose proof Hi as [Hwf _].
  destruct (Hwf p b Hp) as [Hb _].
  destruct (branch_sums _ (Z.to_nat (nHeight b)) p b Hi Hp) as (l & E & Hl & Hw & Ht & Ht'); [lia|].
  exists l. split_and!; [done|lia|done..].
Qed.

(** The active chain.  Setting the tip to any stored block, from any earlier
    tip, terminates and leaves [vChain] holding exactly the ancestors of the tip,
    at their heights; and then a stored block is contained in the chain exactly
    when it is an ancestor of the tip. *)
Theorem SetTip_correct (s : BlockManager (U := U)) v p b :
  reachable s v -> m_block_index s !! p = Some b ->
  exists v', SetTip (m_block_index s) v p = Some v' /\ reachable s v' /\
    Height v' = nHeight b /\ Tip v' = Some p /\ chain_of (m_block_index s) v' p /\
    forall q bq, m_block_index s !! q = Some bq ->
      exists c, Contains (m_block_index s) v' q = Some c /\
        (c = true <-> is_ancestor (m_block_index s) q p).
Proof.
  intros Hr Hp. destruct (reachable_inv s v Hr) as [[[Hwf _] _] Hc]. destruct (Hwf p b Hp) as [Hb _].
  destruct (SetTip_spec _ v p b Hwf Hc Hp) as (v' & E & Ho). exists v'. split; [done|].
  split; [by eapply reach_tip|]. pose proof Ho as (b' & Hb' & Hl & Hs). rewrite Hp in Hb'. injection Hb' as <-.
  split; [unfold Height; lia|]. split_and!; [|done|].
  - unfold Tip. rewrite last_lookup, Hs by lia. cbn.
    rewrite <- (ancestor_self _ p b Hwf Hp). f_equal. lia.
  - intros q bq Hq. unfold Contains. rewrite Hq. eexists. split; [done|].
    rewrite bool_decide_eq_true. by apply (chain_at_spec _ v' p b q bq).
Qed.

(** Forks.  For any two stored blocks [LastCommonAncestor] terminates, its
    assertion holds, and its result is the common ancestor every other common
    ancestor lies below (null when the branches share no block); [FindFork] on a
    chain finds the same block as [LastCommonAncestor] with the chain's tip. *)
Theorem FindFork_is_LastCommonAncestor (s : BlockManager (U := U)) v tip p b :
  reachable s v -> chain_of (m_block_index s) v tip -> m_block_index s !! p = Some b ->
  exists r, LastCommonAncestor (m_block_index s) p tip = Some r /\
    FindFork (m_block_index s) v (Some p) = Some r /\ is_lca (m_block_index s) p tip r.
Proof.
  intros Hr Hc Hp. destruct (reachable_inv s v Hr) as [[[Hwf _] _] _].
  pose proof Hc as (bt & Ht & _).
  destruct (LastCommonAncestor_spec _ p tip b bt Hwf Hp Ht) as (r & E & Hl).
  destruct (FindFork_spec _ v tip bt p b Hwf Hc Ht Hp) as (r' & E' & Hl').
  exists r. rewrite E, E'. split_and!; [done| |done]. f_equal.
  exact (is_lca_unique _ p tip b r' r Hwf Hp Hl' Hl).
Qed.

(** Locators.  Below height [2^30] the doubling step of [LocatorEntries] does
    not overflow, the loop ends, and the result starts at the block, descends
    strictly through its ancestors, ends at the root of the branch, and has at most
    [12 + log2 height] entries. *)
Theorem LocatorEntries_correct (s : BlockManager (U := U)) v p b :
  reachable s v -> m_block_index s !! p = Some b -> nHeight b < 2 ^ 30 ->
  exists l, LocatorEntries (m_block_index s) (Some p) = Some l /\
    locator_ok (m_block_index s) p l /\ Z.of_nat (length l) <= 12 + Z.log2 (nHeight b).
Proof.
  intros Hr Hp Hh. destruct (reachable_inv s v Hr) as [[[Hwf _] _] _]. by apply LocatorEntries_spec.
Qed.

(** The earliest block at a time and height.  On a chain the binary search of
    [FindEarliestAtLeast] finds the lowest chain block whose [nTimeMax] and height
    reach the two bounds, and returns null exactly when every chain block misses one. *)
Theorem FindEarliestAtLeast_correct (s : BlockManager (U := U)) v tip time height :
  reachable s v -> chain_of (m_block_index s) v tip ->
  exists r, FindEarliestAtLeast (m_block_index s) v time height = Some r /\
    let m := m_block_index s in
    let early (bq : CBlockIndex (U := U)) := nTimeMax bq < time \/ nHeight bq < height in
    match r with
    | Some p => is_ancestor m p tip /\ exists b, m !! p = Some b /\ ~ early b /\
        forall q bq, is_ancestor m q tip -> m !! q = Some bq -> nHeight bq < nHeight b -> early bq
    | None => forall q bq, is_ancestor m q tip -> m !! q = Some bq -> early bq
    end.
Proof.
  intros Hr Hc. destruct (reachable_inv s v Hr) as [[Hi _] _]. by apply FindEarliestAtLeast_spec.
Qed.

(** Median time past is defined for every stored block and does not decrease
    from a block to its successor when the successor's time stamp is above the
    median of its predecessor (the rule header validation enforces). *)
Theorem GetMedianTimePast_monotone (s : BlockManager (U := U)) v p b q :
  reachable s v -> m_block_index s !! p = Some b -> pprev b = Some q ->
  exists mtp mtp', GetMedianTimePast (m_block_index s) q = Some mtp /\
    GetMedianTimePast (m_block_index s) p = Some mtp' /\ (mtp < nTime b -> mtp <= mtp').
Proof.
  intros Hr Hp Eq. destruct (reachable_inv s v Hr) as [[[Hwf _] _] _].
  destruct (Hwf p b Hp) as [_ Hprev]. rewrite Eq in Hprev. destruct Hprev as (bq & Hbq & _).
  destruct (median_spec _ q bq Hwf Hbq) as (_ & mq & _ & Emq & _).
  destruct (median_spec _ p b Hwf Hp) as (_ & mp & _ & Emp & _).
  exists mq, mp. split_and!; [done..|]. intros Ht.
  exact (median_monotone _ p b q mq mp Hwf Hp Eq Emq Ht Emp).
Qed.

(** The work of a block is [2^256 / (target + 1)], computed in 256 bits without
    dividing by zero or overflowing, and zero for a malformed target. *)
Theorem GetBlockProof_correct bits :
  in_u 32 bits ->
  exists w : U, GetBlockProof bits = Ok w /\ u_wf w /\
    u_val w = let t := compact_value bits in
              if (t =? 0) || Z.testbit bits 23 || (2 ^ 256 <=? t) then 0 else 2 ^ 256 / (t + 1).
Proof. apply GetBlockProof_spec. Qed.

End properties.

(** ** A concrete index: a root, two blocks above it, and a fork *)

Definition ex_header (prev : uint256) (time : Z) : CPureBlockHeader :=
  {| hdr_nVersion := 1; hashPrevBlock := prev; hdr_hashMerkleRoot := []; hdr_nTime := time;
     hdr_nBits := 0x1e0fffff; hdr_nNonce := 0 |}.

Definition ex_empty : BlockManager (U := list Z) :=
  {| m_block_index := ∅; m_prev_block_index := []; m_dirty_blockindex := ∅; best_header := None |}.

Definition ex_add (s : BlockManager (U := list Z)) (hash prev : uint256) (time : Z) :
    BlockManager (U := list Z) :=
  match AddToBlockIndex s hash (ex_header prev time) BLOCK_VALID_TREE with
  | Some (s', _) => s'
  | None => s
  end.

Definition ex_state : BlockManager (U := list Z) :=
  ex_add (ex_add (ex_add (ex_add ex_empty [1] [0] 100) [2] [1] 160) [3] [2] 220) [4] [1] 150.

Definition ex_chain : CChain := default [] (SetTip (m_block_index ex_state) [] [3]).

Definition ex_block (p : ptr) : CBlockIndex (U := list Z) :=
  default (CBlockIndex_of_header (ex_header [] 0)) (m_block_index ex_state !! p).

Lemma ex_add_reachable s hash prev time :
  reachable s [] -> prev <> hash ->
  (exists s', AddToBlockIndex s hash (ex_header prev time) BLOCK_VALID_TREE = Some (s', hash)) ->
  reachable (ex_add s hash prev time) [].
Proof.
  intros Hr Hne [s' E]. unfold ex_add. rewrite E.
  apply (reach_add s [] hash (ex_header prev time) BLOCK_VALID_TREE s' Hr Hne); [|done].
  unfold in_u; cbn; lia.
Qed.

Lemma ex_reachable0 : reachable ex_state [].
Proof.
  repeat (apply ex_add_reachable; [|discriminate|eexists; vm_compute; reflexivity]). apply reach_init.
Qed.

Lemma ex_reachable : reachable ex_state ex_chain.
Proof. apply (reach_tip ex_state [] [3] ex_chain ex_reachable0). vm_compute. reflexivity. Qed.

Lemma ex_chain_of : chain_of (m_block_index ex_state) ex_chain [3].
Proof.
  exists (ex_block [3]). split; [vm_compute; reflexivity|]. split; [vm_compute; reflexivity|].
  intros i Hi. change (length ex_chain) with 3%nat in Hi.
  destruct i as [|[|[|i]]]; [vm_compute; reflexivity..|lia].
Qed.

Lemma GetAncestor_is_walk_witness :
  exists q bq, GetAncestor (m_block_index ex_state) [3] 1 = Some (Some q) /\
    walk_back (m_block_index ex_state) 1 [3] = Some q /\
    m_block_index ex_state !! q = Some bq /\ nHeight bq = 1.
Proof.
  exact (GetAncestor_is_walk ex_state ex_chain [3] (ex_block [3]) 1 ex_reachable
           ltac:(vm_compute; reflexivity)).
Defined.

Lemma AddToBlockIndex_correct_witness :
  exists s', AddToBlockIndex ex_state [5] (ex_header [3] 300) BLOCK_VALID_TREE = Some (s', [5]) /\
    reachable s' ex_chain /\ state_inv s' /\
    add_post ex_state [5] (ex_header [3] 300) BLOCK_VALID_TREE s'.
Proof.
  apply (AddToBlockIndex_correct ex_state ex_chain).
  - exact ex_reachable.
  - vm_compute; reflexivity.
  - discriminate.
  - reflexivity.
  - unfold in_u; cbn; lia.
  - intros bq E. cbn [hashPrevBlock ex_header] in E.
    assert (Hb : m_block_index ex_state !! [3] = Some (ex_block [3])) by (vm_compute; reflexivity).
    assert (bq = ex_block [3]) as -> by congruence. vm_compute. reflexivity.
Defined.

Lemma reachable_branch_sums_witness :
  exists l, branch (m_block_index ex_state) 2 [3] = Some l /\ Z.of_nat (length l) = 3.
Proof.
  destruct (reachable_branch_sums ex_state ex_chain [3] (ex_block [3]) ex_reachable) as (l & E & Hl & _).
  - vm_compute; reflexivity.
  - exact (ex_intro _ l (conj E Hl)).
Defined.

Lemma SetTip_correct_witness :
  exists v', SetTip (m_block_index ex_state) ex_chain [4] = Some v' /\ Height v' = 1 /\ Tip v' = Some [4].
Proof.
  destruct (SetTip_correct ex_state ex_chain [4] (ex_block [4]) ex_reachable) as (v' & E & _ & Hh & Ht & _).
  - vm_compute; reflexivity.
  - exact (ex_intro _ v' (conj E (conj Hh Ht))).
Defined.

Lemma FindFork_is_LastCommonAncestor_witness :
  FindFork (m_block_index ex_state) ex_chain (Some [4]) = Some (Some [1]) /\
  exists r, LastCommonAncestor (m_block_index ex_state) [4] [3] = Some r /\
    FindFork (m_block_index ex_state) ex_chain (Some [4]) = Some r.
Proof.
  split; [vm_compute; reflexivity|].
  destruct (FindFork_is_LastCommonAncestor ex_state ex_chain [3] [4] (ex_block [4]) ex_reachable ex_chain_of)
    as (r & E & E' & _).
  - vm_compute; reflexivity.
  - exact (ex_intro _ r (conj E E')).
Defined.

Lemma LocatorEntries_correct_witness :
  exists l, LocatorEntries (m_block_index ex_state) (Some [3]) = Some l /\
    locator_ok (m_block_index ex_state) [3] l.
Proof.
  destruct (LocatorEntries_correct ex_state ex_chain [3] (ex_block [3]) ex_reachable) as (l & E & Hl & _).
  - vm_compute; reflexivity.
  - vm_compute; reflexivity.
  - exact (ex_intro _ l (conj E Hl)).
Defined.

Lemma FindEarliestAtLeast_correct_witness :
  exists r, FindEarliestAtLeast (m_block_index ex_state) ex_chain 150 0 = Some r.
Proof.
  destruct (FindEarliestAtLeast_correct ex_state ex_chain [3] 150 0 ex_reachable ex_chain_of) as (r & E & _).
  exact (ex_intro _ r E).
Defined.

Lemma GetMedianTimePast_monotone_witness :
  exists mtp mtp', GetMedianTimePast (m_block_index ex_state) [2] = Some mtp /\
    GetMedianTimePast (m_block_index ex_state) [3] = Some mtp' /\ (mtp < nTime (ex_block [3]) -> mtp <= mtp').
Proof.
  apply (GetMedianTimePast_monotone ex_state ex_chain [3] (ex_block [3]) [2] ex_reachable);
    vm_compute; reflexivity.
Defined.

Lemma GetBlockProof_correct_witness :
  exists w : list Z, GetBlockProof 0x1e0fffff = Ok w /\ val w = 2 ^ 256 / (0x0fffff * 2 ^ 216 + 1).
Proof.
  destruct (GetBlockProof_correct (U := list Z) 0x1e0fffff) as (w & E & _ & V); [unfold in_u; lia|].
  exists w. split; [exact E|]. cbn [u_val limbs_arith_uint] in V. rewrite V. vm_compute. reflexivity.
Defined.
