(* ===== verification/Pow.v ===== *)
(** * Proof of work (src/src/pow.cpp, src/src/consensus/params.h)

    Difficulty adjustment and the proof-of-work check, over any implementation of
    256-bit arithmetic that satisfies [ArithUintLaws] and over the block index of
    [Chain].  [None] stands for a failed [assert], a null pointer, a division by
    zero or an uncaught [uint_error].

    Shown here: the exact acceptance condition of [CheckProofOfWork]; the exact
    target a retarget computes; that the next required work is always defined,
    never easier than the limit, and always a transition that
    [PermittedDifficultyTransition] permits; and where that last agreement ends. *)

From S2P Require Import Prelude ArithUint256 Chain.

(** ** Consensus parameters *)

Record Params := {
  powLimit : uint256;
  fPowAllowMinDifficultyBlocks : bool;
  fPowNoRetargeting : bool;
  nPowTargetSpacing : Z;
  nPowTargetTimespan : Z;
  nBridgeStartBlock : Z;
  nNEVMStartBlock : Z }.

(** The quotient by 2.5 is taken in [double] and truncated; for spacings below
    [2^50] that is the truncated quotient of [2x] by 5. *)
Definition PowTargetSpacing (params : Params) (height : Z) : Z :=
  if nNEVMStartBlock params <=? height then nPowTargetSpacing params
  else Z.quot (2 * nPowTargetSpacing params) 5.

Definition DifficultyAdjustmentInterval (params : Params) (height : Z) : option Z :=
  if PowTargetSpacing params height =? 0 then None
  else Some (Z.quot (nPowTargetTimespan params) (PowTargetSpacing params height)).

Section pow.
Context {U : Type} `{AU : ArithUint U}.

Definition ok_or_abort {A} (r : result unit A) : option A :=
  match r with Ok a => Some a | Throw _ => None end.

(** [bnNew.SetCompact(bits)] with the flags ignored. *)
Definition target_of (bits : Z) : U := (u_set_compact bits).1.1.

(** [x *= n] picks the [uint32_t] overload for an [int64_t]; [x /= n] converts
    through [base_uint(uint64_t)]. *)
Definition mul_i64 (x : U) (n : Z) : U := u_mul32 x (wrapu 32 n).
Definition div_i64 (x : U) (n : Z) : option U := ok_or_abort (u_div x (u_of_u64 (wrapu 64 n))).

Definition u_gt (a b : U) : bool := 0 <? u_compare a b.
Definition u_lt (a b : U) : bool := u_compare a b <? 0.

(** ** Retargeting *)

Definition CalculateNextWorkRequired (pindexLast : CBlockIndex (U := U)) (nFirstBlockTime : Z)
    (params : Params) : option Z :=
  if fPowNoRetargeting params then Some (nBits pindexLast)
  else
    let nActualTimespan := GetBlockTime pindexLast - nFirstBlockTime in
    let nActualTimespan :=
      if nBridgeStartBlock params <=? nHeight pindexLast then
        let t := if nActualTimespan <? 17280 then 17280 else nActualTimespan in
        if 27000 <? t then 27000 else t
      else
        let t := if nActualTimespan <? Z.quot (nPowTargetTimespan params) 4
                 then Z.quot (nPowTargetTimespan params) 4 else nActualTimespan in
        if nPowTargetTimespan params * 4 <? t then nPowTargetTimespan params * 4 else t in
    let bnPowLimit := u_of_bytes (powLimit params) in
    bnNew ← div_i64 (mul_i64 (target_of (nBits pindexLast)) nActualTimespan) (nPowTargetTimespan params);
    u_get_compact (if u_gt bnNew bnPowLimit then bnPowLimit else bnNew).

(** The last block that is not a minimum-difficulty exception. *)
Fixpoint last_non_special (fuel : nat) (m : gmap ptr (CBlockIndex (U := U))) (interval limit : Z)
    (pindex : ptr) : option Z :=
  b ← m !! pindex;
  match pprev b with
  | None => Some (nBits b)
  | Some q =>
      if negb (Z.rem (nHeight b) interval =? 0) && (nBits b =? limit) then
        match fuel with O => None | S fuel => last_non_special fuel m interval limit q end
      else Some (nBits b)
  end.

Definition GetNextWorkRequired (m : gmap ptr (CBlockIndex (U := U))) (pindexLast : ptr)
    (blockTime : Z) (params : Params) : option Z :=
  last ← m !! pindexLast;
  nProofOfWorkLimit ← u_get_compact (u_of_bytes (powLimit params));
  adjustmentInterval ← DifficultyAdjustmentInterval params (nHeight last);
  if adjustmentInterval =? 0 then None
  else if negb (Z.rem (nHeight last + 1) adjustmentInterval =? 0) then
    if fPowAllowMinDifficultyBlocks params then
      if GetBlockTime last + nPowTargetSpacing params * 8 <? blockTime then Some nProofOfWorkLimit
      else last_non_special (Z.to_nat (nHeight last)) m adjustmentInterval nProofOfWorkLimit pindexLast
    else Some (nBits last)
  else
    let nHeightFirst := nHeight last - (adjustmentInterval - 1) in
    if nHeightFirst <? 0 then None
    else
      pindexFirst ← mjoin (GetAncestor m pindexLast nHeightFirst);
      first ← m !! pindexFirst;
      CalculateNextWorkRequired last (GetBlockTime first) params.

Definition scaled_limit (params : Params) (bits timespan : Z) : option U :=
  let pow_limit := u_of_bytes (powLimit params) in
  t ← div_i64 (mul_i64 (target_of bits) timespan) (nPowTargetTimespan params);
  c ← u_get_compact (if u_gt t pow_limit then pow_limit else t);
  Some (target_of c).

Definition PermittedDifficultyTransition (params : Params) (height old_nbits new_nbits : Z) : option bool :=
  if fPowAllowMinDifficultyBlocks params then Some true
  else
    interval ← DifficultyAdjustmentInterval params (height - 1);
    if interval =? 0 then None
    else if Z.rem height interval =? 0 then
      let smallest_timespan := Z.quot (nPowTargetTimespan params) 4 in
      let largest_timespan := nPowTargetTimespan params * 4 in
      let observed_new_target := target_of new_nbits in
      maximum_new_target ← scaled_limit params old_nbits largest_timespan;
      if u_lt maximum_new_target observed_new_target then Some false
      else
        minimum_new_target ← scaled_limit params old_nbits smallest_timespan;
        Some (negb (u_gt minimum_new_target observed_new_target))
    else Some (old_nbits =? new_nbits).

Definition CheckProofOfWork (hash : uint256) (bits : Z) (params : Params) : bool :=
  let '(bnTarget, fNegative, fOverflow) := u_set_compact bits in
  if fNegative || u_equal_to bnTarget 0 || fOverflow || u_gt bnTarget (u_of_bytes (powLimit params))
  then false
  else negb (u_gt (u_of_bytes hash) bnTarget).

(** ** Lemmas *)

Context {AUL : ArithUintLaws U}.

Lemma u_gt_spec a b : u_wf a -> u_wf b -> u_gt a b = (u_val b <? u_val a).
Proof.
  intros Ha Hb. unfold u_gt. rewrite u_compare_spec by done.
  by destruct (Z.compare_spec (u_val a) (u_val b)), (Z.ltb_spec (u_val b) (u_val a)); try lia.
Qed.

Lemma u_lt_spec a b : u_wf a -> u_wf b -> u_lt a b = (u_val a <? u_val b).
Proof.
  intros Ha Hb. unfold u_lt. rewrite u_compare_spec by done.
  by destruct (Z.compare_spec (u_val a) (u_val b)), (Z.ltb_spec (u_val a) (u_val b)); try lia.
Qed.

Lemma target_of_spec bits :
  in_u 32 bits -> u_wf (target_of bits) /\ u_val (target_of bits) = compact_value bits mod 2 ^ 256.
Proof.
  intros Hb. unfold target_of. destruct (u_set_compact bits) as [[t neg] ovf] eqn:E.
  by destruct (u_set_compact_spec bits t neg ovf Hb E) as (W & V & _).
Qed.

(** The parameters a chain can use: a proper limit, spacings that divide the
    time span at least once, and room for the widest adjustment in 256 bits. *)
Definition limit (params : Params) : Z := le_value (powLimit params).

Record params_ok (params : Params) : Prop := {
  limit_length : length (powLimit params) = 32%nat;
  limit_bytes : Forall is_byte (powLimit params);
  timespan_pos : 4 <= nPowTargetTimespan params;
  timespan_small : nPowTargetTimespan params * 4 < 2 ^ 32;
  spacing_ok : forall h, 0 < PowTargetSpacing params h <= nPowTargetTimespan params;
  limit_room : limit params * (nPowTargetTimespan params * 4) < 2 ^ 256;
  bridge_room : limit params * 27000 < 2 ^ 256 }.

Definition clamped_timespan (params : Params) (height dt : Z) : Z :=
  let T := nPowTargetTimespan params in
  if nBridgeStartBlock params <=? height then Z.min 27000 (Z.max 17280 dt)
  else Z.min (T * 4) (Z.max (T / 4) dt).

Definition bits_ok (params : Params) (bits : Z) : Prop :=
  in_u 32 bits /\ compact_value bits <= limit params.

(** The value a retarget aims for, before rounding. *)
Definition retarget (params : Params) (bits n : Z) : Z :=
  Z.min (limit params) (compact_value bits * n / nPowTargetTimespan params).

Section with_params.
Context (params : Params) (Hp : params_ok params).

Lemma limit_spec : u_wf (u_of_bytes (powLimit params)) /\
  u_val (u_of_bytes (powLimit params)) = limit params /\ 0 <= limit params < 2 ^ 256.
Proof.
  destruct (u_of_bytes_spec (powLimit params)) as [W V]; [apply Hp..|].
  split_and!; [done|done|..]; unfold limit; rewrite <- V; by apply u_wf_bound.
Qed.

(** Scaling a target and limiting it. *)
Lemma scale_spec bits n :
  bits_ok params bits -> 0 <= n -> in_u 32 n -> limit params * n < 2 ^ 256 ->
  exists t c, div_i64 (mul_i64 (target_of bits) n) (nPowTargetTimespan params) = Some t /\
    u_get_compact (if u_gt t (u_of_bytes (powLimit params)) then u_of_bytes (powLimit params) else t) = Some c /\
    in_u 32 c /\ compact_value c = compact_round (retarget params bits n) /\ Z.testbit c 23 = false.
Proof.
  intros [Hu Hle] Hn0 Hn Hroom. destruct limit_spec as (Wl & Vl & Bl).
  pose proof (compact_value_nonneg bits Hu) as H0.
  destruct (target_of_spec bits Hu) as [Wt Vt]. rewrite Z.mod_small in Vt by lia.
  pose proof (timespan_pos params Hp) as Tp. pose proof (timespan_small params Hp) as Ts.
  unfold div_i64, mul_i64. rewrite (wrapu_id 32) by done. rewrite (wrapu_id 64) by (unfold in_u; lia).
  destruct (u_mul32_spec (target_of bits) n Wt Hn) as [Wm Vm]. rewrite Vt, Z.mod_small in Vm by nia.
  destruct (u_of_u64_spec (nPowTargetTimespan params)) as [Wd Vd]; [unfold in_u; lia|].
  pose proof (u_div_spec _ _ Wm Wd) as Hd. rewrite Vd in Hd.
  destruct (Z.eqb_spec (nPowTargetTimespan params) 0); [lia|]. destruct Hd as (q & -> & Wq & Vq). rewrite Vm in Vq.
  exists q. rewrite u_gt_spec by done. rewrite Vq, Vl. unfold retarget.
  destruct (Z.ltb_spec (limit params) (compact_value bits * n / nPowTargetTimespan params)).
  - destruct (u_get_compact_spec _ Wl) as (c & E & Cu & Cv & Cs). exists c. rewrite Z.min_l by lia.
    split_and!; try done; try apply Cu. by rewrite Cv, Vl.
  - destruct (u_get_compact_spec _ Wq) as (c & E & Cu & Cv & Cs). exists c. rewrite Z.min_r by lia.
    split_and!; try done; try apply Cu. by rewrite Cv, Vq.
Qed.

Lemma retarget_bounds bits n : bits_ok params bits -> 0 <= n -> 0 <= retarget params bits n <= limit params.
Proof.
  intros [Hu _] Hn. unfold retarget. pose proof (compact_value_nonneg bits Hu). destruct limit_spec as (_ & _ & Bl).
  pose proof (timespan_pos params Hp).
  assert (0 <= compact_value bits * n / nPowTargetTimespan params) by (apply Z.div_pos; nia). lia.
Qed.

Lemma retarget_mono bits n n' : bits_ok params bits -> n <= n' -> retarget params bits n <= retarget params bits n'.
Proof.
  intros [Hu _] Hn. unfold retarget. pose proof (compact_value_nonneg bits Hu). pose proof (timespan_pos params Hp).
  assert (compact_value bits * n / nPowTargetTimespan params <= compact_value bits * n' / nPowTargetTimespan params)
    by (apply Z.div_le_mono; nia). lia.
Qed.

Lemma scaled_limit_spec bits n :
  bits_ok params bits -> 0 <= n -> in_u 32 n -> limit params * n < 2 ^ 256 ->
  exists t, scaled_limit params bits n = Some t /\ u_wf t /\ u_val t = compact_round (retarget params bits n).
Proof.
  intros Hb Hn0 Hn Hroom. destruct (scale_spec bits n Hb Hn0 Hn Hroom) as (t & c & Et & Ec & Cu & Cv & _).
  unfold scaled_limit. rewrite Et. cbo. rewrite Ec. cbo. eexists. split; [done|].
  destruct (target_of_spec c Cu) as [W V]. split; [done|]. rewrite V, Cv. apply Z.mod_small.
  destruct (retarget_bounds bits n Hb Hn0). destruct limit_spec as (_ & _ & Bl).
  destruct (compact_round_bound (retarget params bits n)) as (? & _ & ?); [done|]. lia.
Qed.

Lemma clamped_timespan_bounds h dt :
  let n := clamped_timespan params h dt in
  0 <= n /\ in_u 32 n /\ limit params * n < 2 ^ 256.
Proof.
  pose proof (timespan_pos params Hp). pose proof (timespan_small params Hp).
  pose proof (limit_room params Hp). pose proof (bridge_room params Hp). destruct limit_spec as (_ & _ & Bl).
  assert (0 <= nPowTargetTimespan params / 4) by (apply Z.div_pos; lia).
  cbn zeta. unfold clamped_timespan, in_u. case_match; split_and!; try lia; nia.
Qed.

Lemma CalculateNextWorkRequired_spec (last : CBlockIndex (U := U)) first :
  bits_ok params (nBits last) -> fPowNoRetargeting params = false ->
  let n := clamped_timespan params (nHeight last) (nTime last - first) in
  exists c, CalculateNextWorkRequired last first params = Some c /\ in_u 32 c /\
    compact_value c = compact_round (retarget params (nBits last) n) /\ Z.testbit c 23 = false.
Proof.
  intros Hb Hnr. cbn zeta. unfold CalculateNextWorkRequired. rewrite Hnr. cbn zeta.
  match goal with |- context [mul_i64 _ ?n] =>
    assert (n = clamped_timespan params (nHeight last) (nTime last - first)) as -> end.
  { unfold clamped_timespan, GetBlockTime. pose proof (timespan_pos params Hp).
    rewrite !(Z.quot_div_nonneg (nPowTargetTimespan params)) by lia. set (T := nPowTargetTimespan params) in *.
    assert (T / 4 <= T * 4) by (apply Z.div_le_upper_bound; lia). clearbody T.
    set (d := nTime last - first). clearbody d. destruct (nBridgeStartBlock params <=? nHeight last).
    - destruct (Z.ltb_spec d 17280), (Z.ltb_spec 27000 d); repeat case_match; lia.
    - destruct (Z.ltb_spec d (T / 4)); repeat case_match; lia. }
  destruct (clamped_timespan_bounds (nHeight last) (nTime last - first)) as (B1 & B2 & B3).
  destruct (scale_spec (nBits last) _ Hb B1 B2 B3) as (t & c & Et & Ec & ?). rewrite Et. cbo. eauto.
Qed.

Lemma interval_spec h :
  exists i, DifficultyAdjustmentInterval params h = Some i /\ 0 < i.
Proof.
  unfold DifficultyAdjustmentInterval. destruct (spacing_ok params Hp h) as [S1 S2].
  destruct (Z.eqb_spec (PowTargetSpacing params h) 0); [lia|]. eexists. split; [done|].
  rewrite Z.quot_div_nonneg by lia. apply Z.div_str_pos. lia.
Qed.

(** At a retarget height every target the clamped time spans allow is permitted. *)
Lemma permitted_at_retarget height old c n i :
  fPowAllowMinDifficultyBlocks params = false ->
  DifficultyAdjustmentInterval params (height - 1) = Some i -> Z.rem height i = 0 -> 0 < i ->
  bits_ok params old -> in_u 32 c -> compact_value c = compact_round (retarget params old n) ->
  nPowTargetTimespan params / 4 <= n <= nPowTargetTimespan params * 4 ->
  PermittedDifficultyTransition params height old c = Some true.
Proof.
  intros Hmin Hi Hrem Hipos Hold Hc Hv Hn.
  pose proof (timespan_pos params Hp). pose proof (timespan_small params Hp). pose proof (limit_room params Hp).
  destruct (limit_spec) as (_ & _ & Bl).
  assert (H4 : 0 <= nPowTargetTimespan params / 4) by (apply Z.div_pos; lia).
  unfold PermittedDifficultyTransition. rewrite Hmin, Hi. cbo.
  destruct (Z.eqb_spec i 0); [lia|]. rewrite Hrem. cbn [Z.eqb]. cbn zeta.
  destruct (retarget_bounds old n Hold) as [R0 R1]; [lia|].
  destruct (compact_round_bound (retarget params old n)) as (C1 & _ & C0); [done|].
  destruct (target_of_spec c Hc) as [Wc Vc]. rewrite Hv, Z.mod_small in Vc by lia.
  destruct (scaled_limit_spec old (nPowTargetTimespan params * 4)) as (tmax & -> & Wx & Vx);
    [done|lia|unfold in_u; lia|done|]. cbo.
  rewrite Z.quot_div_nonneg by lia.
  destruct (scaled_limit_spec old (nPowTargetTimespan params / 4)) as (tmin & -> & Wn & Vn);
    [done|done|unfold in_u; lia|nia|]. cbo.
  pose proof (compact_round_mono (retarget params old n) (retarget params old (nPowTargetTimespan params * 4))) as M1.
  pose proof (compact_round_mono (retarget params old (nPowTargetTimespan params / 4)) (retarget params old n)) as M2.
  pose proof (retarget_mono old n (nPowTargetTimespan params * 4) Hold ltac:(lia)).
  pose proof (retarget_mono old (nPowTargetTimespan params / 4) n Hold ltac:(lia)).
  destruct (retarget_bounds old (nPowTargetTimespan params / 4) Hold H4).
  rewrite u_lt_spec, u_gt_spec by done. rewrite Vx, Vn, Vc.
  destruct (Z.ltb_spec (compact_round (retarget params old (nPowTargetTimespan params * 4)))
                       (compact_round (retarget params old n))); [lia|].
  destruct (Z.ltb_spec (compact_round (retarget params old n))
                       (compact_round (retarget params old (nPowTargetTimespan params / 4)))); [lia|done].
Qed.

End with_params.

(** ** Properties *)

(** A block hash passes the proof-of-work check exactly when the compact target
    is positive, carries no sign, fits 256 bits, does not exceed the limit, and the
    hash read as a little-endian number does not exceed the target. *)
Theorem CheckProofOfWork_iff params hash bits :
  params_ok params -> length hash = 32%nat -> Forall is_byte hash -> in_u 32 bits ->
  CheckProofOfWork hash bits params = true <->
  0 < compact_value bits /\ Z.testbit bits 23 = false /\ compact_value bits <= limit params /\
  le_value hash <= compact_value bits.
Proof.
  intros Hp Hl Hb Hu. unfold CheckProofOfWork. destruct (limit_spec params Hp) as (Wl & Vl & Bl).
  pose proof (compact_value_nonneg bits Hu) as H0.
  destruct (u_set_compact bits) as [[t neg] ovf] eqn:E.
  destruct (u_set_compact_spec bits t neg ovf Hu E) as (Wt & Vt & -> & ->).
  destruct (u_of_bytes_spec hash Hl Hb) as [Wh Vh].
  rewrite u_equal_to_spec, !u_gt_spec by (done || (unfold in_u; lia)). rewrite Vl, Vh, Vt.
  destruct (Z.leb_spec (2 ^ 256) (compact_value bits)) as [Ho|Ho].
  { rewrite orb_true_r. cbn [orb]. split; [done|lia]. }
  rewrite Z.mod_small by lia. rewrite orb_false_r.
  destruct (Z.eqb_spec (compact_value bits) 0), (Z.testbit bits 23); cbn [negb andb orb];
    try (split; [done|intros (? & ? & ? & ?); (lia || done)]).
  destruct (Z.ltb_spec (limit params) (compact_value bits)); [split; [done|lia]|].
  rewrite negb_true_iff, Z.ltb_ge. split; [intros; split_and!; try done; lia|lia].
Qed.

(** The target a retarget produces is the old target times the clamped time
    span over the nominal one, limited by the proof-of-work limit and rounded to
    the compact format; the 256-bit product does not wrap.  Between 17280 and 27000
    seconds the clamp is the bridge rule, before it a factor of four either way. *)
Theorem CalculateNextWorkRequired_value params (last : CBlockIndex (U := U)) first :
  params_ok params -> bits_ok params (nBits last) -> fPowNoRetargeting params = false ->
  exists c, CalculateNextWorkRequired last first params = Some c /\ in_u 32 c /\
    Z.testbit c 23 = false /\
    let n := if nBridgeStartBlock params <=? nHeight last
             then Z.min 27000 (Z.max 17280 (nTime last - first))
             else Z.min (nPowTargetTimespan params * 4)
                        (Z.max (nPowTargetTimespan params / 4) (nTime last - first)) in
    compact_value c =
      compact_round (Z.min (limit params) (compact_value (nBits last) * n / nPowTargetTimespan params)).
Proof.
  intros Hp Hb Hnr. destruct (CalculateNextWorkRequired_spec params Hp last first Hb Hnr) as (c & ? & ? & ? & ?).
  by exists c.
Qed.

(** C37: The next required work is one that header pre-synchronisation permits. This is for a
    chain without the minimum-difficulty rule and with retargeting, whose parameters leave the
    arithmetic its room ([params_ok]: a limit of 32 bytes, a time span of at least 4 seconds
    whose fourfold fits 32 bits and, times the limit, 256 bits, as does 27000 times the limit,
    and a spacing between 1 and the time span), and whose time span T has T / 4 <= 17280 and 27000 <= 4 T, so that the clamp
    after the bridge block lies within a factor of four; the main network is one. For every
    block of an index that accepting headers builds, whose bits decode to a target within the
    limit, the next required work is defined (no assertion fails), its target stays within the
    limit, and [PermittedDifficultyTransition] permits the transition to it. *)
Theorem GetNextWorkRequired_permitted params (s : BlockManager (U := U)) v p b blockTime :
  params_ok params -> nPowTargetTimespan params / 4 <= 17280 -> 27000 <= nPowTargetTimespan params * 4 ->
  fPowAllowMinDifficultyBlocks params = false -> fPowNoRetargeting params = false ->
  reachable s v -> m_block_index s !! p = Some b -> bits_ok params (nBits b) ->
  exists c, GetNextWorkRequired (m_block_index s) p blockTime params = Some c /\
    bits_ok params c /\
    PermittedDifficultyTransition params (nHeight b + 1) (nBits b) c = Some true.
Proof.
  intros Hp Hlo Hhi Hmin Hnr Hr Hb Hbits. destruct (reachable_inv s v Hr) as [[[Hwf _] _] _].
  destruct (Hwf p b Hb) as [Hh _]. destruct (limit_spec params Hp) as (Wl & _ & Bl).
  destruct (interval_spec params Hp (nHeight b)) as (i & Hi & Hipos).
  assert (Hi' : DifficultyAdjustmentInterval params (nHeight b + 1 - 1) = Some i)
    by (by replace (nHeight b + 1 - 1) with (nHeight b) by lia).
  destruct (u_get_compact_spec _ Wl) as (lc & Elc & _).
  unfold GetNextWorkRequired. rewrite Hb. cbo. rewrite Elc. cbo. rewrite Hi. cbo. rewrite Hmin.
  destruct (Z.eqb_spec i 0); [lia|]. destruct (Z.eqb_spec (Z.rem (nHeight b + 1) i) 0) as [Hrem|Hrem]; cbn [negb].
  - rewrite Z.rem_mod_nonneg in Hrem by lia.
    assert (i <= nHeight b + 1) by (apply Z.divide_pos_le; [lia|by apply Z.mod_divide; [lia|]]).
    cbn zeta. destruct (Z.ltb_spec (nHeight b - (i - 1)) 0); [lia|].
    rewrite (GetAncestor_spec _ p b _ Hwf Hb).
    destruct (ancestor_total _ p b (nHeight b - (i - 1)) Hwf Hb) as (q & bq & -> & Hq & _); [lia|]. cbn [mjoin option_join].
    cbo. rewrite Hq. cbo.
    destruct (CalculateNextWorkRequired_spec params Hp b (GetBlockTime bq) Hbits Hnr) as (c & -> & Cu & Cv & _).
    exists c. split; [done|].
    destruct (clamped_timespan_bounds params Hp (nHeight b) (nTime b - GetBlockTime bq)) as (B1 & _).
    destruct (retarget_bounds params Hp (nBits b) _ Hbits B1).
    destruct (compact_round_bound (retarget params (nBits b) (clamped_timespan params (nHeight b) (nTime b - GetBlockTime bq))))
      as (? & _ & ?); [done|].
    split; [split; [done|lia]|].
    eapply permitted_at_retarget; try done; [by rewrite Z.rem_mod_nonneg by lia|].
    unfold clamped_timespan. pose proof (timespan_pos params Hp).
    assert (nPowTargetTimespan params / 4 <= nPowTargetTimespan params * 4) by (apply Z.div_le_upper_bound; lia).
    case_match; lia.
  - exists (nBits b). split; [done|]. split; [done|].
    unfold PermittedDifficultyTransition. rewrite Hmin, Hi'. cbo. destruct (Z.eqb_spec i 0); [lia|].
    destruct (Z.eqb_spec (Z.rem (nHeight b + 1) i) 0); [done|]. by rewrite Z.eqb_refl.
Qed.

End pow.

(** ** Concrete parameters *)

Definition main_params : Params :=
  {| powLimit := replicate 29 255 ++ [15; 0; 0]; fPowAllowMinDifficultyBlocks := false;
     fPowNoRetargeting := false; nPowTargetSpacing := 150; nPowTargetTimespan := 21600;
     nBridgeStartBlock := 348000; nNEVMStartBlock := 1317500 |}.

Lemma main_params_ok : params_ok main_params.
Proof.
  split; try (vm_compute; congruence).
  - cbn [powLimit main_params]. apply Forall_app. split; [apply Forall_replicate|]; bytes_ok.
  - intros h. unfold PowTargetSpacing. case_match; vm_compute; split; congruence.
Qed.

(** A block with the given bits, at a height and a time. *)
Definition ex_last (bits height time : Z) : CBlockIndex (U := list Z) :=
  {| pprev := None; pskip := None; nHeight := height; nChainWork := base_uint_zero; nStatus := 0;
     nVersion := 1; hashMerkleRoot := []; nTime := time; nBits := bits; nNonce := 0;
     nSequenceId := 0; nTimeMax := time |}.

Lemma ex_bits_ok : bits_ok main_params 0x1e0fffff.
Proof. split; [unfold in_u; lia|]. vm_compute. congruence. Qed.

Lemma CheckProofOfWork_iff_witness :
  CheckProofOfWork (U := list Z) (replicate 32 0) 0x1e0fffff main_params = true.
Proof.
  apply (CheckProofOfWork_iff main_params (replicate 32 0) 0x1e0fffff main_params_ok).
  - reflexivity.
  - apply Forall_replicate. unfold in_u. lia.
  - unfold in_u. lia.
  - vm_compute. repeat split; congruence.
Defined.

Lemma CalculateNextWorkRequired_value_witness :
  exists c, CalculateNextWorkRequired (ex_last 0x1e0fffff 400000 30000) 0 main_params = Some c /\
    compact_value c = compact_round (Z.min (limit main_params) (compact_value 0x1e0fffff * 27000 / 21600)).
Proof.
  destruct (CalculateNextWorkRequired_value main_params (ex_last 0x1e0fffff 400000 30000) 0 main_params_ok)
    as (c & E & _ & _ & V).
  - exact ex_bits_ok.
  - reflexivity.
  - exact (ex_intro _ c (conj E V)).
Defined.

Lemma GetNextWorkRequired_permitted_witness :
  exists c, GetNextWorkRequired (m_block_index ex_state) [3] 400 main_params = Some c /\
    PermittedDifficultyTransition (U := list Z) main_params 3 0x1e0fffff c = Some true.
Proof.
  destruct (GetNextWorkRequired_permitted main_params ex_state ex_chain [3] (ex_block [3]) 400 main_params_ok)
    as (c & E & _ & P).
  - vm_compute. congruence.
  - vm_compute. congruence.
  - reflexivity.
  - reflexivity.
  - exact ex_reachable.
  - vm_compute. reflexivity.
  - exact ex_bits_ok.
  - exact (ex_intro _ c (conj E P)).
Defined.

(** The signet time span with the bridge rule in force. *)
Definition signet_params : Params :=
  {| powLimit := replicate 27 0 ++ [0xae; 0x77; 0x03; 0; 0]; fPowAllowMinDifficultyBlocks := false;
     fPowNoRetargeting := false; nPowTargetSpacing := 600; nPowTargetTimespan := 1209600;
     nBridgeStartBlock := 0; nNEVMStartBlock := 0 |}.

(** The bridge clamp is written for a nominal time span of 21600 seconds.  With
    signet's two weeks it forces every retarget to divide the target by more than
    44, which [PermittedDifficultyTransition] rejects. *)
Theorem bridge_clamp_needs_short_timespan :
  exists c, CalculateNextWorkRequired (ex_last 0x1e0377ae 2015 1209600) 0 signet_params = Some c /\
    PermittedDifficultyTransition (U := list Z) signet_params 2016 0x1e0377ae c = Some false.
Proof. exists 0x1d13d074. split; vm_compute; reflexivity. Qed.
