(* ===== verification/Merkle.v ===== *)
(** * Merkle trees (src/src/consensus/merkle.cpp, src/src/auxpow.cpp)

    The double SHA-256 of two concatenated hashes is a parameter [H] of which
    nothing is assumed: the theorems name the pairs that are hashed and say that
    otherwise two of these collide, or one of these hashes to a leaf.

    Shown here: the level-by-level computation is the recursive tree hash; when
    neither list is flagged as mutated, equal roots mean equal lists (the defence
    against the duplicated-subtree attack), or a collision between the nodes of
    the two trees, or a leaf of one that is a node of the other; a branch accepted
    for an index of a tree proves the leaf at that index. *)

From S2P Require Import Prelude.

Lemma log2_up_half n : (2 <= n)%nat -> Nat.log2_up n = S (Nat.log2_up (S n / 2)).
Proof.
  intros Hn. assert (E : (S n = 2 * (S n / 2) + S n mod 2)%nat) by apply Nat.div_mod_eq.
  pose proof (Nat.mod_upper_bound (S n) 2 ltac:(lia)). set (m := (S n / 2)%nat) in *. clearbody m.
  destruct (Nat.eq_dec m 1) as [->|Hm].
  { assert (n = 2)%nat as -> by lia. done. }
  destruct (Nat.log2_up_spec m) as [L U]; [lia|].
  assert (Hk : (0 < Nat.log2_up m)%nat) by (apply Nat.log2_up_pos; lia).
  apply Nat.log2_up_unique; [lia|]. cbn [Nat.pred].
  replace (Nat.log2_up m) with (S (Nat.pred (Nat.log2_up m))) in * by lia. cbn [Nat.pred] in *.
  rewrite !Nat.pow_succ_r' in *. lia.
Qed.

(** Induction over a list two elements at a time. *)
Lemma pair_ind {A} (P : list A -> Prop) :
  P [] -> (forall a, P [a]) -> (forall a b l, P l -> P (a :: b :: l)) -> forall l, P l.
Proof.
  intros P0 P1 P2. fix IH 1. intros [|a [|b l]]; [exact P0|exact (P1 a)|exact (P2 a b l (IH l))].
Qed.

Section merkle.
Context {hash : Type} `{EqDecision hash} (null : hash) (H : hash -> hash -> hash).

(** ** [ComputeMerkleRoot] *)

(** The scan for equal neighbours at one level. *)
Fixpoint level_mutated (hashes : list hash) : bool :=
  match hashes with
  | a :: b :: rest => bool_decide (a = b) || level_mutated rest
  | _ => false
  end.

(** One level: pair up, the last hash with itself when their number is odd. *)
Fixpoint hash_level (hashes : list hash) : list hash :=
  match hashes with
  | a :: b :: rest => H a b :: hash_level rest
  | [a] => [H a a]
  | [] => []
  end.

Fixpoint ComputeMerkleRoot_loop (fuel : nat) (hashes : list hash) (mutation : bool)
    : option (hash * bool) :=
  match hashes with
  | [] => Some (null, mutation)
  | [a] => Some (a, mutation)
  | _ =>
      match fuel with
      | O => None
      | S fuel => ComputeMerkleRoot_loop fuel (hash_level hashes) (mutation || level_mutated hashes)
      end
  end.

(** Each turn halves the list, so its length bounds the number of turns. *)
Definition ComputeMerkleRoot (hashes : list hash) : option (hash * bool) :=
  ComputeMerkleRoot_loop (length hashes) hashes false.

(** [BlockMerkleRoot] and [BlockWitnessMerkleRoot] from the transaction hashes of
    the block; the latter writes [leaves[0]], so an empty block is out of bounds. *)
Definition BlockMerkleRoot (txids : list hash) : option (hash * bool) := ComputeMerkleRoot txids.

Definition BlockWitnessMerkleRoot (wtxids : list hash) : option (hash * bool) :=
  match wtxids with
  | [] => None
  | _ :: rest => ComputeMerkleRoot (null :: rest)
  end.

(** ** [CAuxPow::CheckMerkleBranch] *)

Fixpoint CheckMerkleBranch_loop (h : hash) (vMerkleBranch : list hash) (nIndex : Z) : hash :=
  match vMerkleBranch with
  | [] => h
  | x :: rest =>
      CheckMerkleBranch_loop (if Z.land nIndex 1 =? 0 then H h x else H x h) rest (Z.shiftr nIndex 1)
  end.

Definition CheckMerkleBranch (h : hash) (vMerkleBranch : list hash) (nIndex : Z) : hash :=
  if nIndex =? -1 then null else CheckMerkleBranch_loop h vMerkleBranch nIndex.

(** ** The recursive tree, as the reference *)

(** The tree of height [d]: a missing right half repeats the left one. *)
Fixpoint tree (d : nat) (l : list hash) : hash :=
  match d with
  | O => default null (head l)
  | S d =>
      let left_half := take (2 ^ d) l in
      let right_half := drop (2 ^ d) l in
      H (tree d left_half) (tree d (if decide (right_half = []) then left_half else right_half))
  end.

(** The height of the tree over [n] leaves. *)
Definition height (n : nat) : nat := Nat.log2_up n.

(** ** Levels *)

Lemma hash_level_length l : length (hash_level l) = Nat.div2 (S (length l)).
Proof.
  induction l as [|a|a b l IH] using pair_ind; [done|done|]. cbn [hash_level length Nat.div2].
  by rewrite IH.
Qed.

Lemma hash_level_app a b : Nat.Even (length a) -> hash_level (a ++ b) = hash_level a ++ hash_level b.
Proof.
  induction a as [|x|x y a IH] using pair_ind; intros He; [done|by destruct He as [k He]; cbn in He; lia|].
  cbn. f_equal. apply IH. destruct He as [k He]. exists (k - 1)%nat. cbn in He. lia.
Qed.

(** [d] levels, without the stop at one hash. *)
Definition levels (d : nat) (l : list hash) : list hash := Nat.iter d hash_level l.

Lemma levels_S d l : levels (S d) l = hash_level (levels d l).
Proof. done. Qed.

Lemma levels_S' d l : levels (S d) l = levels d (hash_level l).
Proof. apply Nat.iter_succ_r. Qed.

Lemma levels_length d l k : length l = (2 ^ d * k)%nat -> length (levels d l) = k.
Proof.
  revert l k. induction d as [|d IH]; intros l k Hl; [cbn in *; lia|].
  rewrite levels_S'. apply IH. rewrite hash_level_length, Hl.
  replace (2 ^ S d * k)%nat with (2 * (2 ^ d * k))%nat by (cbn; lia). apply Nat.div2_succ_double.
Qed.

Lemma levels_app d a b k :
  length a = (2 ^ d * k)%nat -> levels d (a ++ b) = levels d a ++ levels d b.
Proof.
  revert a b k. induction d as [|d IH]; intros a b k Ha; [done|].
  rewrite !levels_S', hash_level_app.
  - apply (IH _ _ k). rewrite hash_level_length, Ha.
    replace (2 ^ S d * k)%nat with (2 * (2 ^ d * k))%nat by (cbn; lia). apply Nat.div2_succ_double.
  - exists (2 ^ d * k)%nat. cbn in Ha. lia.
Qed.

Lemma levels_tree d l : l <> [] -> (length l <= 2 ^ d)%nat -> levels d l = [tree d l].
Proof.
  revert l. induction d as [|d IH]; intros l Hn Hl.
  { destruct l as [|a [|b l]]; [done|done|cbn in Hl; lia]. }
  assert (0 < 2 ^ d)%nat by (apply Nat.neq_0_lt_0, Nat.pow_nonzero; lia).
  rewrite levels_S. cbn [tree]. rewrite <- (take_drop (2 ^ d) l) at 1.
  assert (Ht : take (2 ^ d) l <> []).
  { intros E. apply (f_equal length) in E. rewrite length_take in E. destruct l; [done|]. cbn in E. lia. }
  case_decide as Hd.
  - rewrite Hd, app_nil_r, IH by (done || (rewrite length_take; lia)). done.
  - assert (length l > 2 ^ d)%nat.
    { destruct (Nat.lt_ge_cases (2 ^ d) (length l)); [done|]. by rewrite drop_ge in Hd. }
    rewrite (levels_app d _ _ 1) by (rewrite length_take; lia).
    rewrite !IH; try done; rewrite ?length_take, ?length_drop; cbn in Hl; lia.
Qed.

Lemma loop_levels fuel l mut :
  l <> [] -> (length l <= S fuel)%nat ->
  exists m, ComputeMerkleRoot_loop fuel l mut = Some (default null (head (levels (height (length l)) l)), m).
Proof.
  revert l mut. induction fuel as [|fuel IH]; intros l mut Hn Hl.
  { destruct l as [|a [|b l]]; [done|by eexists|cbn in Hl; lia]. }
  destruct l as [|a [|b l]]; [done|by eexists|].
  cbn [ComputeMerkleRoot_loop]. set (l0 := a :: b :: l) in *.
  assert (Hlen : (2 <= length l0)%nat) by (cbn; lia).
  destruct (IH (hash_level l0) (mut || level_mutated l0)) as (m & ->).
  - done.
  - rewrite hash_level_length. pose proof (Nat.div2_decr (S (length l0))). rewrite Nat.div2_div.
    apply Nat.lt_succ_r. apply Nat.Div0.div_lt_upper_bound. lia.
  - exists m. rewrite <- levels_S', hash_level_length.
    unfold height. rewrite Nat.div2_div. by rewrite <- log2_up_half by lia.
Qed.

(** ** Mutation *)

(** No level of the tree has two equal neighbours at an even position. *)
Fixpoint unmutated (d : nat) (l : list hash) : Prop :=
  match d with
  | O => True
  | S d => level_mutated l = false /\ unmutated d (hash_level l)
  end.

Lemma loop_flag fuel l mut r m :
  l <> [] -> ComputeMerkleRoot_loop fuel l mut = Some (r, m) ->
  m = false -> mut = false /\ unmutated (height (length l)) l.
Proof.
  revert l mut. induction fuel as [|fuel IH]; intros l mut Hn; destruct l as [|a [|b l]]; try done;
    cbn [ComputeMerkleRoot_loop]; try (intros [= <- <-] ->; by split).
  set (l0 := a :: b :: l) in *. assert (Hlen : (2 <= length l0)%nat) by (cbn; lia).
  intros E Hm. destruct (IH (hash_level l0) (mut || level_mutated l0)) as [Hf Hu]; [done|done|done|].
  apply orb_false_iff in Hf as [-> Hf]. split; [done|]. unfold height.
  rewrite log2_up_half by done. split; [done|].
  unfold height in Hu. by rewrite hash_level_length, Nat.div2_div in Hu.
Qed.

(** *** The pairs that are hashed *)

Fixpoint level_pairs (l : list hash) : list (hash * hash) :=
  match l with
  | a :: b :: rest => (a, b) :: level_pairs rest
  | [a] => [(a, a)]
  | [] => []
  end.

(** The pairs of [d] levels, and those of the tree over a list. *)
Fixpoint pairs_up_to (d : nat) (l : list hash) : list (hash * hash) :=
  match d with
  | O => []
  | S d => level_pairs l ++ pairs_up_to d (hash_level l)
  end.
Definition node_pairs (l : list hash) : list (hash * hash) := pairs_up_to (height (length l)) l.

(** Two different pairs, one of each list, have the same hash. *)
Definition clash (ps qs : list (hash * hash)) : Prop :=
  exists p q, p ∈ ps /\ q ∈ qs /\ p <> q /\ H p.1 p.2 = H q.1 q.2.

(** A leaf of the list is the hash of one of the pairs. *)
Definition leaf_is_node (l : list hash) (ps : list (hash * hash)) : Prop :=
  exists p, p ∈ ps /\ H p.1 p.2 ∈ l.

Lemma clash_mono ps ps' qs qs' : ps ⊆ ps' -> qs ⊆ qs' -> clash ps qs -> clash ps' qs'.
Proof. intros Hp Hq (p & q & ? & ? & ? & ?). exists p, q. set_solver. Qed.

Lemma clash_sym ps qs : clash ps qs -> clash qs ps.
Proof. intros (p & q & ? & ? & ? & ?). exists q, p. split_and!; try done; congruence. Qed.

Lemma pair_eq a b c d ps qs : (a, b) ∈ ps -> (c, d) ∈ qs -> H a b = H c d -> (a = c /\ b = d) \/ clash ps qs.
Proof.
  intros Hp Hq E. destruct (decide ((a, b) = (c, d))) as [[= -> ->]|Hne]; [by left|right]. by exists (a, b), (c, d).
Qed.

(** A level determines the list below it up to the repetition of a last element,
    which the scan sees. *)
Lemma hash_level_eq l l' :
  level_mutated l = false -> level_mutated l' = false -> hash_level l = hash_level l' ->
  l = l' \/ clash (level_pairs l) (level_pairs l').
Proof.
  revert l'. induction l as [|a|a b l IH] using pair_ind; intros [|a' [|b' l']] Hm Hm' E; try done; try (by left); cbn in E.
  - injection E as E. edestruct (pair_eq a a a' a' (level_pairs [a]) (level_pairs [a'])) as [[-> _]|]; [left|left|done|by left|by right].
  - injection E as E Er. edestruct (pair_eq a a a' b' (level_pairs [a]) (level_pairs (a' :: b' :: l'))) as [[-> ->]|]; [left|left|done| |by right].
    cbn in Hm'. by rewrite bool_decide_true in Hm'.
  - injection E as E Er. edestruct (pair_eq a b a' a' (level_pairs (a :: b :: l)) (level_pairs [a'])) as [[-> ->]|]; [left|left|done| |by right].
    cbn in Hm. by rewrite bool_decide_true in Hm.
  - injection E as E Er. edestruct (pair_eq a b a' b' (level_pairs (a :: b :: l)) (level_pairs (a' :: b' :: l'))) as [[-> ->]|]; [left|left|done| |by right].
    cbn in Hm, Hm'. apply orb_false_iff in Hm as [_ Hm], Hm' as [_ Hm']. destruct (IH l' Hm Hm' Er) as [->|Hc]; [by left|right].
    eapply clash_mono; [..|exact Hc]; cbn; set_solver.
Qed.

Lemma levels_eq d l l' :
  unmutated d l -> unmutated d l' -> levels d l = levels d l' -> l = l' \/ clash (pairs_up_to d l) (pairs_up_to d l').
Proof.
  revert l l'. induction d as [|d IH]; intros l l' Hu Hu' E; [by left|].
  destruct Hu as [Hm Hu], Hu' as [Hm' Hu']. rewrite !levels_S' in E. cbn [pairs_up_to].
  destruct (IH _ _ Hu Hu' E) as [El|Hc]; [|right; eapply clash_mono; [..|exact Hc]; set_solver].
  destruct (hash_level_eq l l' Hm Hm' El) as [?|Hc]; [by left|right]. eapply clash_mono; [..|exact Hc]; set_solver.
Qed.

Lemma unmutated_levels d k l : unmutated (k + d) l -> unmutated d (levels k l).
Proof.
  revert l. induction k as [|k IH]; intros l Hu; [done|]. rewrite levels_S'. apply IH. apply Hu.
Qed.

Lemma height_pow (l : list hash) : l <> [] -> (length l <= 2 ^ height (length l))%nat.
Proof.
  intros Hn. unfold height. destruct (Nat.eq_dec (length l) 1) as [->|]; [cbn; lia|].
  destruct l; [done|]. apply Nat.log2_up_spec. cbn in *. lia.
Qed.

Lemma hash_level_range l x : x ∈ hash_level l -> exists p, p ∈ level_pairs l /\ x = H p.1 p.2.
Proof.
  induction l as [|a|a b l IH] using pair_ind; cbn [hash_level level_pairs].
  - by intros ?%elem_of_nil.
  - intros ->%list_elem_of_singleton. exists (a, a). split; [left|done].
  - intros [->|(p & Hp & ->)%IH]%elem_of_cons; [exists (a, b); split; [left|done]|exists p; split; [by right|done]].
Qed.

Lemma pairs_up_to_levels k d l : pairs_up_to d (levels k l) ⊆ pairs_up_to (k + d) l.
Proof.
  revert l. induction k as [|k IH]; intros l; [done|]. rewrite levels_S'. cbn [Nat.add pairs_up_to].
  specialize (IH (hash_level l)). set_solver.
Qed.

(** In trees of different height a leaf of one is a node of the other. *)
Lemma levels_distinct d k l l' :
  l <> [] -> unmutated d l -> unmutated (S k + d) l' -> levels d l = levels (S k + d) l' ->
  clash (pairs_up_to d l) (pairs_up_to (S k + d) l') \/ leaf_is_node l (pairs_up_to (S k + d) l').
Proof.
  intros Hn Hu Hu' E.
  replace (levels (S k + d) l') with (levels d (levels (S k) l')) in E
    by (unfold levels; by rewrite <- Nat.iter_add, Nat.add_comm).
  apply levels_eq in E as [E|Hc]; [|left|done|by apply unmutated_levels].
  - right. destruct l as [|x l]; [done|]. rewrite levels_S in E. destruct (hash_level_range (levels k l') x) as (p & Hp & Hx); [rewrite <- E; left|].
    exists p. split; [|rewrite <- Hx; left]. replace (S k + d)%nat with (k + S d)%nat by lia.
    pose proof (pairs_up_to_levels k (S d) l') as Hsub. cbn [pairs_up_to] in Hsub. set_solver.
  - eapply clash_mono; [done| |exact Hc]. apply pairs_up_to_levels.
Qed.

Lemma same_root_levels l r m : l <> [] -> ComputeMerkleRoot l = Some (r, m) -> levels (height (length l)) l = [r].
Proof.
  intros Hn E. unfold ComputeMerkleRoot in E. destruct (loop_levels (length l) l false Hn ltac:(lia)) as (m' & F).
  rewrite F in E. injection E as Er _. rewrite (levels_tree _ l Hn (height_pow l Hn)) in *. cbn in Er. by rewrite Er.
Qed.

Lemma roots_eq l l' r :
  l <> [] -> l' <> [] -> ComputeMerkleRoot l = Some (r, false) -> ComputeMerkleRoot l' = Some (r, false) ->
  (height (length l) <= height (length l'))%nat ->
  l = l' \/ clash (node_pairs l) (node_pairs l') \/ leaf_is_node l (node_pairs l').
Proof.
  intros Hn Hn' E E' Hle. pose proof (same_root_levels l r false Hn E) as EL. pose proof (same_root_levels l' r false Hn' E') as EL'.
  destruct (loop_flag _ _ _ _ _ Hn E eq_refl) as [_ Hu], (loop_flag _ _ _ _ _ Hn' E' eq_refl) as [_ Hu'].
  rewrite <- EL' in EL. unfold node_pairs. destruct (Nat.eq_dec (height (length l)) (height (length l'))) as [Heq|Hne].
  - rewrite Heq in *. destruct (levels_eq _ _ _ Hu Hu' EL); tauto.
  - right. set (k := (height (length l') - height (length l) - 1)%nat).
    replace (height (length l')) with (S k + height (length l))%nat in * by lia. by apply levels_distinct.
Qed.

(** ** Branches *)

(** The leaf that index [i] reaches in the tree of height [d]. *)
Fixpoint leaf_at (d : nat) (l : list hash) (i : Z) : hash :=
  match d with
  | O => default null (head l)
  | S d =>
      let left_half := take (2 ^ d) l in
      let right_half := drop (2 ^ d) l in
      if Z.testbit i (Z.of_nat d)
      then leaf_at d (if decide (right_half = []) then left_half else right_half) i
      else leaf_at d left_half i
  end.

(** The pairs hashed along a branch, and those on the way to a leaf of a tree. *)
Fixpoint branch_pairs (h : hash) (br : list hash) (i : Z) : list (hash * hash) :=
  match br with
  | [] => []
  | x :: rest => let p := if Z.land i 1 =? 0 then (h, x) else (x, h) in p :: branch_pairs (H p.1 p.2) rest (Z.shiftr i 1)
  end.

Fixpoint path_pairs (d : nat) (l : list hash) (i : Z) : list (hash * hash) :=
  match d with
  | O => []
  | S d =>
      let left_half := take (2 ^ d) l in
      let right_half := if decide (drop (2 ^ d) l = []) then left_half else drop (2 ^ d) l in
      (tree d left_half, tree d right_half) :: path_pairs d (if Z.testbit i (Z.of_nat d) then right_half else left_half) i
  end.

Lemma branch_snoc h br x i :
  let r := CheckMerkleBranch_loop h br i in
  let p := if Z.testbit i (Z.of_nat (length br)) then (x, r) else (r, x) in
  CheckMerkleBranch_loop h (br ++ [x]) i = H p.1 p.2 /\ branch_pairs h (br ++ [x]) i = branch_pairs h br i ++ [p].
Proof.
  revert h i. induction br as [|y br IH]; intros h i.
  - cbn [app CheckMerkleBranch_loop branch_pairs length]. change (Z.land i 1) with (Z.land i (2 ^ 0)).
    change (Z.of_nat 0) with 0. rewrite (land_pow2_testbit i 0) by lia. by destruct (Z.testbit i 0).
  - cbn [app CheckMerkleBranch_loop branch_pairs length].
    replace (Z.testbit i (Z.of_nat (S (length br)))) with (Z.testbit (Z.shiftr i 1) (Z.of_nat (length br))) by (rewrite Z.shiftr_spec by lia; f_equal; lia).
    destruct (Z.land i 1 =? 0); cbn [fst snd]; destruct (IH (H h y) (Z.shiftr i 1)) as [E1 E2], (IH (H y h) (Z.shiftr i 1)) as [E3 E4].
    + split; [exact E1|]. cbn zeta in E2. by rewrite E2.
    + split; [exact E3|]. cbn zeta in E4. by rewrite E4.
Qed.

Lemma branch_sound d l br h i :
  length br = d -> CheckMerkleBranch_loop h br i = tree d l ->
  h = leaf_at d l i \/ clash (branch_pairs h br i) (path_pairs d l i).
Proof.
  revert l br. induction d as [|d IH]; intros l br Hl E.
  { left. by destruct br. }
  destruct br as [|x br] using rev_ind; [done|]. clear IHbr.
  rewrite length_app in Hl. cbn in Hl. assert (Hd : length br = d) by lia.
  destruct (branch_snoc h br x i) as [E1 E2]. rewrite E1, Hd in E. rewrite E2, Hd. clear E1 E2.
  cbn [tree leaf_at path_pairs] in *. cbn zeta in *.
  set (lh := take (2 ^ d) l) in *. set (rh := if decide (drop (2 ^ d) l = []) then lh else drop (2 ^ d) l) in *.
  destruct (Z.testbit i (Z.of_nat d)); cbn [fst snd] in E.
  - edestruct pair_eq as [[_ E']|Hc]; [| |exact E|..|by right; exact Hc]; [set_solver..|].
    destruct (IH _ _ Hd E') as [?|Hc]; [by left|right]. eapply clash_mono; [..|exact Hc]; set_solver.
  - edestruct pair_eq as [[E' _]|Hc]; [| |exact E|..|by right; exact Hc]; [set_solver..|].
    destruct (IH _ _ Hd E') as [?|Hc]; [by left|right]. eapply clash_mono; [..|exact Hc]; set_solver.
Qed.

(** ** Properties *)

(** [ComputeMerkleRoot] terminates on every list and, on a non-empty one, its
    root is the recursive tree hash over the least height that holds the leaves,
    with a missing right subtree replaced by the left one; the empty list has the
    null root. *)
Theorem ComputeMerkleRoot_is_tree l :
  exists m, ComputeMerkleRoot l =
    Some (if decide (l = []) then null else tree (Nat.log2_up (length l)) l, m).
Proof.
  case_decide as Hn; [subst; by eexists|].
  destruct (loop_levels (length l) l false Hn ltac:(lia)) as (m & E). exists m.
  unfold ComputeMerkleRoot. by rewrite E, (levels_tree _ l Hn (height_pow l Hn)).
Qed.

(** C25: The mutation flag defends the root.  Two non-empty lists that are both
    reported as not mutated and have the same root are the same list, unless two
    different pairs of hashes that were hashed for the two roots collide, or a leaf
    of one list is the hash of a pair that was hashed for the other. *)
Theorem ComputeMerkleRoot_binding l l' r :
  l <> [] -> l' <> [] -> ComputeMerkleRoot l = Some (r, false) -> ComputeMerkleRoot l' = Some (r, false) ->
  l = l' \/ clash (node_pairs l) (node_pairs l') \/ leaf_is_node l (node_pairs l') \/ leaf_is_node l' (node_pairs l).
Proof.
  intros Hn Hn' E E'. destruct (Nat.le_ge_cases (height (length l)) (height (length l'))) as [Hle|Hle].
  - destruct (roots_eq l l' r Hn Hn' E E' Hle); tauto.
  - destruct (roots_eq l' l r Hn' Hn E' E Hle) as [->|[Hc|?]]; [by left| |tauto]. right. left. by apply clash_sym.
Qed.

(** A Merkle branch is a proof of membership.  If a branch as long as the tree is
    high leads from a hash at an index to the root of the tree over [l], that hash is
    the leaf which the bits of the index select in that tree, the first element for
    index 0, unless a pair hashed along the branch collides with one on the way to
    that leaf. *)
Theorem CheckMerkleBranch_sound l br h i :
  0 <= i -> CheckMerkleBranch h br i = tree (length br) l ->
  (h = leaf_at (length br) l i /\ (i = 0 -> h = default null (head l))) \/
  clash (branch_pairs h br i) (path_pairs (length br) l i).
Proof.
  intros Hi E. unfold CheckMerkleBranch in E. destruct (Z.eqb_spec i (-1)); [lia|].
  destruct (branch_sound (length br) l br h i eq_refl E) as [Eh|?]; [left|by right]. split; [done|]. intros ->.
  rewrite Eh. generalize (length br) as d. clear. intros d. revert l.
  induction d as [|d IH]; intros l; [done|]. cbn [leaf_at]. rewrite Z.testbit_0_l, IH.
  assert (0 < 2 ^ d)%nat by (apply Nat.neq_0_lt_0, Nat.pow_nonzero; lia).
  destruct l; [by rewrite take_nil|]. by destruct (2 ^ d)%nat; [lia|].
Qed.

End merkle.

(** ** A concrete pair hash of one byte *)

Definition ex_hash (a b : Z) : Z := 128 + (5 * a + 3 * b) mod 128.

(** Two different lists with one root: the pairs [(1, 2)] and [(4, 125)] collide. *)
Lemma ComputeMerkleRoot_binding_witness :
  let l := [1; 2; 3] in let l' := [4; 125; 3] in
  l = l' \/ clash ex_hash (node_pairs ex_hash l) (node_pairs ex_hash l') \/
  leaf_is_node ex_hash l (node_pairs ex_hash l') \/ leaf_is_node ex_hash l' (node_pairs ex_hash l).
Proof.
  intros l l'. eapply (ComputeMerkleRoot_binding 0 ex_hash l l'); [discriminate|discriminate|vm_compute; reflexivity|vm_compute; reflexivity].
Defined.

(** The tail duplication that leaves the root unchanged is flagged. *)
Lemma duplicated_tail_flagged :
  let l := [1; 2; 3; 4; 5; 6] in
  exists r, ComputeMerkleRoot 0 ex_hash l = Some (r, false) /\
    ComputeMerkleRoot 0 ex_hash (l ++ [5; 6]) = Some (r, true).
Proof. eexists. split; vm_compute; reflexivity. Qed.

Lemma CheckMerkleBranch_sound_witness :
  let l := [1; 2; 3] in
  CheckMerkleBranch 0 ex_hash 2 [1; ex_hash 3 3] 1 = tree 0 ex_hash 2 l /\
  ((2 = leaf_at 0 2 l 1 /\ (1 = 0 -> 2 = 1)) \/ clash ex_hash (branch_pairs ex_hash 2 [1; ex_hash 3 3] 1) (path_pairs 0 ex_hash 2 l 1)).
Proof.
  intros l. split; [vm_compute; reflexivity|].
  apply (CheckMerkleBranch_sound 0 ex_hash l [1; ex_hash 3 3] 2 1); [lia|vm_compute; reflexivity].
Defined.
