(* ===== verification/Script.v ===== *)
(** * Scripts: instructions, numbers and templates
    (src/src/script/script.h, src/src/script/script.cpp)

    A script is its bytes.  The file holds the instruction reader, the data push,
    [CScriptNum], the template tests and the signature operation count; the
    interpreter is in file Interpreter.

    Shown here: a pushed element is read back exactly; script numbers have exactly
    one minimal encoding; the test for the 20-byte version-0 witness program accepts
    no script. *)

From stdpp Require Import strings.
From S2P Require Import Prelude.

Definition OP_0 : Z := 0x00.
Definition OP_PUSHDATA1 : Z := 0x4c.
Definition OP_PUSHDATA2 : Z := 0x4d.
Definition OP_PUSHDATA4 : Z := 0x4e.
Definition OP_1 : Z := 0x51.
Definition OP_16 : Z := 0x60.
Definition OP_RETURN : Z := 0x6a.
Definition OP_DUP : Z := 0x76.
Definition OP_EQUAL : Z := 0x87.
Definition OP_EQUALVERIFY : Z := 0x88.
Definition OP_HASH160 : Z := 0xa9.
Definition OP_CHECKSIG : Z := 0xac.
Definition OP_CHECKSIGVERIFY : Z := 0xad.
Definition OP_CHECKMULTISIG : Z := 0xae.
Definition OP_CHECKMULTISIGVERIFY : Z := 0xaf.
Definition OP_NOP10 : Z := 0xb9.
Definition OP_INVALIDOPCODE : Z := 0xff.
Definition MAX_OPCODE : Z := OP_NOP10.
Definition MAX_SCRIPT_SIZE : Z := 10000.
Definition MAX_SCRIPT_ELEMENT_SIZE : Z := 520.
Definition MAX_PUBKEYS_PER_MULTISIG : Z := 20.

Definition size (s : bytes) : Z := Z.of_nat (length s).
Definition byte_at (s : bytes) (i : nat) : Z := nth i s 0.

(** ** Instructions *)

(** [GetScriptOp]: the opcode, its immediate operand and the script after it. *)
Definition GetScriptOp (pc : bytes) : option (Z * bytes * bytes) :=
  match pc with
  | [] => None
  | opcode :: pc =>
      if opcode <=? OP_PUSHDATA4 then
        '(nSize, pc) ←
          (if opcode <? OP_PUSHDATA1 then Some (opcode, pc)
           else if opcode =? OP_PUSHDATA1 then
             if size pc <? 1 then None else Some (byte_at pc 0, drop 1 pc)
           else if opcode =? OP_PUSHDATA2 then
             if size pc <? 2 then None else Some (le_value (take 2 pc), drop 2 pc)
           else
             if size pc <? 4 then None else Some (le_value (take 4 pc), drop 4 pc));
        if size pc <? nSize then None
        else Some (opcode, take (Z.to_nat nSize) pc, drop (Z.to_nat nSize) pc)
      else Some (opcode, [], pc)
  end.

(** [operator<<(const std::vector<unsigned char>&)]: the bytes it appends. *)
Definition push_data (b : bytes) : bytes :=
  (if size b <? OP_PUSHDATA1 then [wrapu 8 (size b)]
   else if size b <=? 0xff then [OP_PUSHDATA1; wrapu 8 (size b)]
   else if size b <=? 0xffff then OP_PUSHDATA2 :: le_bytes 2 (size b)
   else OP_PUSHDATA4 :: le_bytes 4 (size b)) ++ b.

Definition DecodeOP_N (opcode : Z) : option Z :=
  if opcode =? OP_0 then Some 0
  else if (OP_1 <=? opcode) && (opcode <=? OP_16) then Some (opcode - (OP_1 - 1)) else None.

Definition EncodeOP_N (n : Z) : option Z :=
  if (0 <=? n) && (n <=? 16) then Some (if n =? 0 then OP_0 else OP_1 + n - 1) else None.

Definition CheckMinimalPush (data : bytes) (opcode : Z) : option bool :=
  if (0 <=? opcode) && (opcode <=? OP_PUSHDATA4) then
    Some (if size data =? 0 then opcode =? OP_0
          else if (size data =? 1) && (1 <=? byte_at data 0) && (byte_at data 0 <=? 16) then false
          else if (size data =? 1) && (byte_at data 0 =? 0x81) then false
          else if size data <=? 75 then opcode =? size data
          else if size data <=? 255 then opcode =? OP_PUSHDATA1
          else if size data <=? 65535 then opcode =? OP_PUSHDATA2
          else true)
  else None.

(** ** Loops over instructions; every instruction is at least one byte long, so
    the length of the script bounds their number. *)

Fixpoint IsPushOnly_loop (fuel : nat) (pc : bytes) : bool :=
  match pc, fuel with
  | [], _ => true
  | _, O => false
  | _, S fuel =>
      match GetScriptOp pc with
      | None => false
      | Some (opcode, _, pc) => if OP_16 <? opcode then false else IsPushOnly_loop fuel pc
      end
  end.

Definition IsPushOnly (s : bytes) : bool := IsPushOnly_loop (length s) s.

Fixpoint HasValidOps_loop (fuel : nat) (pc : bytes) : bool :=
  match pc, fuel with
  | [], _ => true
  | _, O => false
  | _, S fuel =>
      match GetScriptOp pc with
      | None => false
      | Some (opcode, item, pc) =>
          if (MAX_OPCODE <? opcode) || (MAX_SCRIPT_ELEMENT_SIZE <? size item) then false
          else HasValidOps_loop fuel pc
      end
  end.

Definition HasValidOps (s : bytes) : bool := HasValidOps_loop (length s) s.

Fixpoint GetSigOpCount_loop (fuel : nat) (fAccurate : bool) (n lastOpcode : Z) (pc : bytes) : Z :=
  match pc, fuel with
  | [], _ | _, O => n
  | _, S fuel =>
      match GetScriptOp pc with
      | None => n
      | Some (opcode, _, pc) =>
          let n :=
            if (opcode =? OP_CHECKSIG) || (opcode =? OP_CHECKSIGVERIFY) then n + 1
            else if (opcode =? OP_CHECKMULTISIG) || (opcode =? OP_CHECKMULTISIGVERIFY) then
              n + (if fAccurate && (OP_1 <=? lastOpcode) && (lastOpcode <=? OP_16)
                   then default 0 (DecodeOP_N lastOpcode) else MAX_PUBKEYS_PER_MULTISIG)
            else n in
          GetSigOpCount_loop fuel fAccurate n opcode pc
      end
  end.

Definition GetSigOpCount (s : bytes) (fAccurate : bool) : Z :=
  GetSigOpCount_loop (length s) fAccurate 0 OP_INVALIDOPCODE s.

(** ** Templates *)

Definition IsUnspendable (s : bytes) : bool :=
  ((0 <? size s) && (byte_at s 0 =? OP_RETURN)) || (MAX_SCRIPT_SIZE <? size s).

Definition IsPayToScriptHash (s : bytes) : bool :=
  (size s =? 23) && (byte_at s 0 =? OP_HASH160) && (byte_at s 1 =? 0x14) && (byte_at s 22 =? OP_EQUAL).

Definition IsPayToWitnessPubKeyHash (s : bytes) : bool :=
  (size s =? 22) && (byte_at s 0 =? OP_0) && (byte_at s 1 =? 0x20).

Definition IsPayToWitnessScriptHash (s : bytes) : bool :=
  (size s =? 34) && (byte_at s 0 =? OP_0) && (byte_at s 1 =? 0x20).

(** The version and the program. *)
Definition IsWitnessProgram (s : bytes) : option (Z * bytes) :=
  if (size s <? 4) || (42 <? size s) then None
  else if negb (byte_at s 0 =? OP_0) && ((byte_at s 0 <? OP_1) || (OP_16 <? byte_at s 0)) then None
  else if byte_at s 1 + 2 =? size s then
    version ← DecodeOP_N (byte_at s 0); Some (version, drop 2 s)
  else None.

(** The last element a push-only script leaves on the stack. *)
Fixpoint last_push (fuel : nat) (pc vData : bytes) : option bytes :=
  match pc, fuel with
  | [], _ => Some vData
  | _, O => None
  | _, S fuel =>
      '(opcode, data, pc) ← GetScriptOp pc;
      if OP_16 <? opcode then None else last_push fuel pc data
  end.

Definition GetSigOpCount_P2SH (s scriptSig : bytes) : Z :=
  if negb (IsPayToScriptHash s) then GetSigOpCount s true
  else match last_push (length scriptSig) scriptSig [] with
       | None => 0
       | Some subscript => GetSigOpCount subscript true
       end.

(** ** Numbers *)

(** [while (absvalue)]; 8 turns are enough for 64 bits. *)
Fixpoint abs_bytes (fuel : nat) (absvalue : Z) : bytes :=
  match fuel with
  | O => []
  | S fuel => if absvalue =? 0 then [] else Z.land absvalue 0xff :: abs_bytes fuel (Z.shiftr absvalue 8)
  end.

Definition back (v : bytes) : Z := default 0 (last v).
Definition set_back (v : bytes) (x : Z) : bytes := take (length v - 1) v ++ [x].

Definition CScriptNum_serialize (value : Z) : bytes :=
  if value =? 0 then []
  else
    let neg := value <? 0 in
    let absvalue := if neg then wrapu 64 (wrapu 64 (Z.lnot (wrapu 64 value)) + 1) else wrapu 64 value in
    let result := abs_bytes 8 absvalue in
    if negb (Z.land (back result) 0x80 =? 0) then result ++ [if neg then 0x80 else 0]
    else if neg then set_back result (Z.lor (back result) 0x80)
    else result.

(** [for (i) result |= int64_t(vch[i]) << 8*i]. *)
Fixpoint set_vch_loop (i : Z) (vch : bytes) (result : Z) : Z :=
  match vch with
  | [] => result
  | b :: vch => set_vch_loop (i + 1) vch (wraps 64 (Z.lor result (Z.shiftl b (8 * i))))
  end.

Definition set_vch (vch : bytes) : Z :=
  match vch with
  | [] => 0
  | _ =>
      let result := set_vch_loop 0 vch 0 in
      if negb (Z.land (back vch) 0x80 =? 0)
      then - wraps 64 (Z.land (wrapu 64 result)
                         (wrapu 64 (Z.lnot (wrapu 64 (Z.shiftl 0x80 (8 * (size vch - 1)))))))
      else result
  end.

(** The constructor from bytes. *)
Definition CScriptNum_of_vch (vch : bytes) (fRequireMinimal : bool) (nMaxNumSize : Z) : result string Z :=
  if nMaxNumSize <? size vch then Throw "script number overflow"%string
  else if fRequireMinimal && (0 <? size vch) && (Z.land (back vch) 0x7f =? 0) &&
          ((size vch <=? 1) || (Z.land (byte_at vch (length vch - 2)) 0x80 =? 0))
  then Throw "non-minimally encoded script number"%string
  else Ok (set_vch vch).

(** [push_int64]. *)
Definition push_int64 (n : Z) : bytes :=
  if (n =? -1) || ((1 <=? n) && (n <=? 16)) then [wrapu 8 (n + (OP_1 - 1))]
  else if n =? 0 then [OP_0]
  else push_data (CScriptNum_serialize n).

(** ** Pushes *)

Lemma take_app_size b s : take (Z.to_nat (size b)) (b ++ s) = b.
Proof. unfold size. by rewrite Nat2Z.id, take_app_length. Qed.

Lemma drop_app_size b s : drop (Z.to_nat (size b)) (b ++ s) = s.
Proof. unfold size. by rewrite Nat2Z.id, drop_app_length. Qed.

Lemma size_app a b : size (a ++ b) = size a + size b.
Proof. unfold size. rewrite length_app. lia. Qed.

Lemma size_nonneg a : 0 <= size a.
Proof. unfold size. lia. Qed.

(** A length operand of [k] bytes, read back. *)
Lemma read_operand k b rest :
  size b < 256 ^ Z.of_nat k ->
  (if size (le_bytes k (size b) ++ b ++ rest) <? Z.of_nat k then None
   else Some (le_value (take k (le_bytes k (size b) ++ b ++ rest)), drop k (le_bytes k (size b) ++ b ++ rest)))
  = Some (size b, b ++ rest).
Proof.
  intros Hb. pose proof (size_nonneg b). pose proof (size_nonneg (b ++ rest)).
  assert (Hl : length (le_bytes k (size b)) = k) by apply length_le_bytes.
  rewrite size_app. replace (size (le_bytes k (size b))) with (Z.of_nat k) by (unfold size at 1; by rewrite Hl).
  destruct (Z.ltb_spec (Z.of_nat k + size (b ++ rest)) (Z.of_nat k)); [lia|].
  rewrite take_app_length', drop_app_length' by done. by rewrite le_value_bytes, Z.mod_small by lia.
Qed.

Lemma GetScriptOp_push b rest :
  size b < 2 ^ 32 ->
  exists op, GetScriptOp (push_data b ++ rest) = Some (op, b, rest) /\ 0 <= op <= OP_PUSHDATA4.
Proof.
  intros Hb. pose proof (size_nonneg b). pose proof (size_nonneg rest). unfold push_data.
  assert (Hend : forall op : Z, (if size (b ++ rest) <? size b then None
    else Some (op, take (Z.to_nat (size b)) (b ++ rest), drop (Z.to_nat (size b)) (b ++ rest)))
    = Some (op, b, rest)).
  { intros op. rewrite size_app, take_app_size, drop_app_size.
    by destruct (Z.ltb_spec (size b + size rest) (size b)); [lia|]. }
  destruct (Z.ltb_spec (size b) OP_PUSHDATA1) as [Hs|Hs];
    [|destruct (Z.leb_spec (size b) 255); [|destruct (Z.leb_spec (size b) 65535)]];
    rewrite <- app_assoc; cbn [app]; unfold OP_PUSHDATA1 in *.
  - exists (size b). rewrite wrapu_id by (unfold in_u; lia).
    unfold GetScriptOp, OP_PUSHDATA1, OP_PUSHDATA4. destruct (Z.leb_spec (size b) 0x4e); [|lia].
    destruct (Z.ltb_spec (size b) 0x4c); [|lia]. cbo. rewrite Hend. split; [done|lia].
  - exists OP_PUSHDATA1. rewrite wrapu_id by (unfold in_u; lia). split; [|done].
    transitivity (p ← Some (size b, b ++ rest); let '(nSize, pc) := p in
      if size pc <? nSize then None
      else Some (OP_PUSHDATA1, take (Z.to_nat nSize) pc, drop (Z.to_nat nSize) pc)); [|cbo; apply Hend].
    cbn -[size]. destruct (Z.ltb_spec (size (size b :: b ++ rest)) 1) as [Hc|_]; [|done].
    unfold size in Hc. cbn in Hc. lia.
  - exists OP_PUSHDATA2. split; [|done]. cbn -[size le_bytes le_value take drop].
    rewrite (read_operand 2) by (cbn; lia). cbo. apply Hend.
  - exists OP_PUSHDATA4. split; [|done]. cbn -[size le_bytes le_value take drop].
    rewrite (read_operand 4) by (cbn; lia). cbo. apply Hend.
Qed.

(** ** Numbers *)

(** The bytes of a magnitude: the list with that value whose last byte is not 0. *)
Lemma abs_bytes_value fuel l :
  Forall is_byte l -> (l = [] \/ 0 < back l) -> (length l <= fuel)%nat -> abs_bytes fuel (le_value l) = l.
Proof.
  revert l. induction fuel as [|fuel IH]; intros l Hb Hl Hf; [by destruct l; [|cbn in Hf; lia]|].
  destruct l as [|x l]; [done|]. cbn [le_value abs_bytes]. apply Forall_cons in Hb as [Hx Hb].
  pose proof (le_value_bound l Hb) as Hv. unfold in_u in Hx.
  assert (Hpos : x + 256 * le_value l <> 0).
  { destruct l as [|y l].
    - destruct Hl as [|Hl]; [done|]. unfold back in Hl. cbn in Hl |- *. lia.
    - intros E. assert (E0 : le_value (y :: l) = 0) by lia.
      destruct Hl as [|Hl]; [done|]. unfold back in Hl. rewrite last_cons_cons in Hl.
      pose proof (IH (y :: l) Hb (or_intror Hl)) as E1. rewrite E0 in E1. cbn in Hf.
      specialize (E1 ltac:(cbn; lia)). destruct fuel; cbn in E1; done. }
  destruct (Z.eqb_spec (x + 256 * le_value l) 0); [done|].
  rewrite (land_pow2_mask _ 8 255), Z.shiftr_div_pow2 by (done || lia).
  replace ((x + 256 * le_value l) mod 2 ^ 8) with x by zdm.
  replace ((x + 256 * le_value l) / 2 ^ 8) with (le_value l) by zdm.
  f_equal. apply IH; [done| |cbn in Hf; lia]. destruct l as [|y l]; [by left|]. right.
  destruct Hl as [|Hl]; [done|]. unfold back in *. by rewrite last_cons_cons in Hl.
Qed.

Lemma abs_bytes_spec fuel a :
  0 <= a < 256 ^ Z.of_nat fuel ->
  let l := abs_bytes fuel a in
  le_value l = a /\ Forall is_byte l /\ (length l <= fuel)%nat /\ (0 < a -> l <> [] /\ 0 < back l).
Proof.
  revert a. induction fuel as [|fuel IH]; intros a Ha; cbn zeta.
  - cbn in *. split_and!; [lia|constructor|lia|lia].
  - cbn [abs_bytes]. destruct (Z.eqb_spec a 0) as [->|Hn].
    { split_and!; [done|constructor|cbn; lia|lia]. }
    rewrite (land_pow2_mask _ 8 255), Z.shiftr_div_pow2 by (done || lia).
    rewrite Nat2Z.inj_succ, Z.pow_succ_r in Ha by lia.
    destruct (IH (a / 2 ^ 8)) as (V & B & L & Nz); [zdm|]. cbn [le_value length].
    split_and!; [rewrite V; zdm|constructor; [unfold in_u; zdm|done]|lia|]. intros _. split; [done|].
    destruct (Z.eq_dec (a / 2 ^ 8) 0) as [E0|E0].
    + rewrite E0. unfold back. destruct fuel; cbn; zdm.
    + destruct Nz as [N1 N2]; [zdm|]. unfold back in *.
      destruct (abs_bytes fuel (a / 2 ^ 8)); [done|]. by rewrite last_cons_cons.
Qed.

Lemma abs_bytes_uniq a l :
  Forall is_byte l -> (l = [] \/ 0 < back l) -> (length l <= 8)%nat -> le_value l = a -> abs_bytes 8 a = l.
Proof. intros Hb Hl Hf <-. by apply abs_bytes_value. Qed.

Lemma back_snoc l x : back (l ++ [x]) = x.
Proof. unfold back. by rewrite last_snoc. Qed.

Lemma le_value_snoc l x : le_value (l ++ [x]) = le_value l + 256 ^ Z.of_nat (length l) * x.
Proof. rewrite le_value_app. cbn. lia. Qed.

Lemma set_vch_loop_spec i vch r :
  0 <= i -> Forall is_byte vch -> i + size vch <= 7 -> 0 <= r < 2 ^ (8 * i) ->
  set_vch_loop i vch r = r + 2 ^ (8 * i) * le_value vch.
Proof.
  revert i r. induction vch as [|b vch IH]; intros i r Hi Hb Hs Hr; cbn [set_vch_loop le_value]; [lia|].
  apply Forall_cons in Hb as [Hb Hv]. unfold in_u in Hb. unfold size in *. cbn [length] in Hs.
  rewrite Z.shiftl_mul_pow2, Z.lor_comm, lor_shift_add by lia.
  assert (E8 : 2 ^ (8 * (i + 1)) = 256 * 2 ^ (8 * i)).
  { replace (8 * (i + 1)) with (8 + 8 * i) by lia. rewrite Z.pow_add_r by lia. done. }
  assert (2 ^ (8 * (i + 1)) <= 2 ^ 56) by (apply Z.pow_le_mono_r; lia).
  rewrite wraps_id by (try lia; unfold in_s; nia).
  rewrite IH by (done || lia || nia). rewrite E8. lia.
Qed.

Lemma clear_bit r k :
  0 <= r < 2 ^ 64 -> 0 <= k < 64 -> Z.testbit r k = true ->
  Z.land r (wrapu 64 (Z.lnot (2 ^ k))) = r - 2 ^ k.
Proof.
  intros Hr Hk Ht. unfold wrapu. rewrite <- Z.land_ones by lia.
  replace (Z.land r (Z.land (Z.lnot (2 ^ k)) (Z.ones 64))) with (Z.ldiff r (2 ^ k)).
  - symmetry. apply Z.sub_nocarry_ldiff. apply Z.bits_inj'. intros i Hi.
    rewrite Z.ldiff_spec, Z.bits_0. destruct (Z.eq_dec i k) as [->|Hne]; [by rewrite Ht, andb_false_r|].
    by rewrite Z.pow2_bits_false by lia.
  - apply Z.bits_inj'. intros i Hi. rewrite !Z.land_spec, Z.ldiff_spec, Z.lnot_spec by lia.
    destruct (Z.ltb_spec i 64).
    + rewrite Z.ones_spec_low by lia. by rewrite andb_true_r.
    + rewrite (Z.bits_above_log2 r); [done|lia|]. destruct (Z.eq_dec r 0) as [->|]; [cbn; lia|].
      apply Z.log2_lt_pow2; [lia|]. pose proof (Z.pow_le_mono_r 2 64 i). lia.
Qed.

(** The number a byte string denotes: magnitude with the sign in the top bit. *)
Lemma set_vch_snoc l x :
  Forall is_byte l -> is_byte x -> size l <= 6 ->
  set_vch (l ++ [x]) =
  (if x <? 128 then 1 else -1) * (le_value l + 256 ^ Z.of_nat (length l) * (x mod 128)).
Proof.
  intros Hl Hx Hs. pose proof (size_nonneg l) as Hn. unfold in_u in Hx.
  pose proof (le_value_bound l Hl) as Hv.
  set (P := 256 ^ Z.of_nat (length l)) in *.
  assert (HP : P = 2 ^ (8 * size l)) by (unfold P, size; change 256 with (2 ^ 8); rewrite <- Z.pow_mul_r by lia; done).
  assert (0 < P) by (rewrite HP; apply Z.pow_pos_nonneg; lia).
  assert (P <= 2 ^ 48) by (rewrite HP; apply Z.pow_le_mono_r; lia).
  assert (E : set_vch_loop 0 (l ++ [x]) 0 = le_value l + P * x).
  { rewrite set_vch_loop_spec; [|lia|by apply Forall_app; split; [|repeat constructor; lia]| |lia].
    - rewrite le_value_snoc. fold P. change (2 ^ (8 * 0)) with 1. lia.
    - rewrite size_app. change (size [x]) with 1. lia. }
  unfold set_vch. destruct (l ++ [x]) as [|y v] eqn:Ev; [by destruct l|].
  rewrite <- Ev in E |- *. rewrite E, back_snoc.
  change 0x80 with (2 ^ 7) at 1. rewrite land_pow2_testbit, negb_involutive by lia.
  rewrite (testbit_top x 7) by lia. change (2 ^ 7) with 128.
  destruct (Z.ltb_spec x 128), (Z.leb_spec 128 x); try lia.
  { rewrite Z.mod_small by lia. lia. }
  rewrite size_app. change (size [x]) with 1. replace (size l + 1 - 1) with (size l) by lia.
  replace (Z.shiftl 128 (8 * size l)) with (2 ^ (8 * size l + 7))
    by (rewrite Z.shiftl_mul_pow2, Z.pow_add_r by lia; lia).
  rewrite (wrapu_id 64 (le_value l + P * x)) by (unfold in_u; nia).
  rewrite (wrapu_id 64 (2 ^ _)).
  2: { unfold in_u. split; [apply Z.pow_nonneg; lia|]. apply Z.pow_lt_mono_r; lia. }
  rewrite clear_bit; [|nia|lia|].
  - replace (2 ^ (8 * size l + 7)) with (P * 128) by (rewrite HP, Z.pow_add_r by lia; lia).
    replace (x mod 128) with (x - 128) by zdm.
    rewrite wraps_id by (try lia; unfold in_s; nia). lia.
  - rewrite Z.testbit_odd, Z.shiftr_div_pow2 by lia. rewrite Z.pow_add_r, <- HP by lia.
    replace ((le_value l + P * x) / (P * 2 ^ 7)) with 1; [done|].
    apply Z.div_unique with (le_value l + P * (x - 128)); nia.
Qed.

Lemma absvalue_spec n :
  in_s 64 n -> n <> 0 ->
  (if n <? 0 then wrapu 64 (wrapu 64 (Z.lnot (wrapu 64 n)) + 1) else wrapu 64 n) = Z.abs n.
Proof. unfold in_s, wrapu, Z.lnot. intros Hn H0. destruct (Z.ltb_spec n 0); zdm. Qed.

(** Serialization of a magnitude [l ++ [x]] with its sign. *)
Lemma serialize_shape n l x :
  in_s 64 n -> n <> 0 -> Forall is_byte l -> is_byte x -> 0 < x -> (length l <= 7)%nat ->
  Z.abs n = le_value (l ++ [x]) ->
  CScriptNum_serialize n =
  if 128 <=? x then l ++ [x; if n <? 0 then 128 else 0]
  else l ++ [if n <? 0 then x + 128 else x].
Proof.
  intros Hn H0 Hl Hx Hpos Hlen Hv. unfold CScriptNum_serialize.
  destruct (Z.eqb_spec n 0); [done|]. cbn zeta. rewrite absvalue_spec by done.
  rewrite (abs_bytes_uniq _ (l ++ [x])).
  2: { apply Forall_app. split; [done|by constructor]. }
  2: { right. by rewrite back_snoc. }
  2: { rewrite length_app. cbn. lia. }
  2: done.
  rewrite back_snoc. unfold in_u in Hx. change 0x80 with (2 ^ 7). rewrite land_pow2_testbit, negb_involutive by lia.
  rewrite (testbit_top x 7) by lia. change (2 ^ 7) with 128.
  destruct (Z.leb_spec 128 x); [by rewrite <- app_assoc|]. destruct (n <? 0); [|done].
  unfold set_back. rewrite length_app. cbn [length].
  replace (length l + 1 - 1)%nat with (length l) by lia. rewrite take_app_length. do 2 f_equal.
  rewrite Z.lor_comm. change 128 with (1 * 2 ^ 7). by rewrite lor_shift_add, Z.add_comm by lia.
Qed.

Lemma magnitude_snoc a :
  0 < a < 256 ^ 8 -> exists l x, a = le_value (l ++ [x]) /\ Forall is_byte l /\ is_byte x /\ 0 < x /\ (length l <= 7)%nat.
Proof.
  intros Ha. destruct (abs_bytes_spec 8 a) as (V & B & L & Nz); [cbn; lia|].
  destruct Nz as [N1 N2]; [lia|]. destruct (abs_bytes 8 a) as [|x l _] using rev_ind; [done|].
  exists l, x. apply Forall_app in B as [Bl Bx]. apply Forall_cons in Bx as [Bx _]. rewrite back_snoc in N2.
  rewrite length_app in L. cbn in L. split_and!; [done..|lia].
Qed.

(** How many bytes a magnitude takes. *)
Lemma magnitude_size l x k :
  Forall is_byte l -> 0 < x -> 1 <= k -> le_value (l ++ [x]) < 2 ^ (8 * k - 1) ->
  size l + 1 <= k /\ (128 <= x -> size l + 2 <= k).
Proof.
  intros Hl Hx Hk Hlt. rewrite le_value_snoc in Hlt. pose proof (le_value_bound l Hl). pose proof (size_nonneg l).
  assert (HP : 256 ^ Z.of_nat (length l) = 2 ^ (8 * size l)) by (unfold size; change 256 with (2 ^ 8); rewrite <- Z.pow_mul_r by lia; done).
  rewrite HP in *. assert (0 < 2 ^ (8 * size l)) by (apply Z.pow_pos_nonneg; lia). split.
  - assert (8 * size l < 8 * k - 1); [|lia]. apply (Z.pow_lt_mono_r_iff 2); nia.
  - intros Hx'. assert (8 * size l + 7 < 8 * k - 1); [|lia]. apply (Z.pow_lt_mono_r_iff 2); [lia|lia|].
    rewrite Z.pow_add_r by lia. change (2 ^ 7) with 128. nia.
Qed.

Lemma byte_low7 x : is_byte x -> Z.land x 0x7f = x mod 128.
Proof. intros _. by apply (land_pow2_mask x 7). Qed.

Lemma byte_top x : is_byte x -> (Z.land x 0x80 =? 0) = (x <? 128).
Proof.
  intros Hx. unfold in_u in Hx. change 0x80 with (2 ^ 7). rewrite land_pow2_testbit by lia.
  rewrite (testbit_top x 7) by lia. change (2 ^ 7) with 128. lia.
Qed.

Lemma of_vch_snoc l x k :
  Forall is_byte l -> is_byte x -> size l + 1 <= k -> k <= 7 ->
  (x mod 128 <> 0 \/ exists l' y, l = l' ++ [y] /\ 128 <= y) ->
  CScriptNum_of_vch (l ++ [x]) true k =
  Ok ((if x <? 128 then 1 else -1) * (le_value l + 256 ^ Z.of_nat (length l) * (x mod 128))).
Proof.
  intros Hl Hx Hk Hk7 Hmin. unfold CScriptNum_of_vch. rewrite size_app. change (size [x]) with 1.
  pose proof (size_nonneg l). destruct (Z.ltb_spec k (size l + 1)); [lia|].
  rewrite back_snoc, byte_low7 by done. cbn [andb]. destruct (Z.ltb_spec 0 (size l + 1)); [|lia]. cbn [andb].
  rewrite <- set_vch_snoc by (done || lia).
  destruct (Z.eqb_spec (x mod 128) 0) as [E0|E0]; [|done]. cbn [andb].
  destruct Hmin as [|(l' & y & -> & Hy)]; [done|].
  rewrite size_app in *. change (size [y]) with 1 in *. pose proof (size_nonneg l').
  destruct (Z.leb_spec (size l' + 1 + 1) 1); [lia|]. cbn [orb].
  unfold byte_at. rewrite !length_app. cbn [length].
  replace (length l' + 1 + 1 - 2)%nat with (length l') by lia.
  rewrite <- app_assoc, app_nth2, Nat.sub_diag by lia. cbn [app nth].
  apply Forall_app in Hl as [_ Hy']. apply Forall_cons in Hy' as [Hy' _].
  rewrite byte_top by done. by destruct (Z.ltb_spec y 128); [lia|].
Qed.

Lemma of_vch_serialize n k :
  1 <= k <= 7 -> Z.abs n < 2 ^ (8 * k - 1) -> CScriptNum_of_vch (CScriptNum_serialize n) true k = Ok n.
Proof.
  intros Hk Hn. assert (Hn64 : Z.abs n < 2 ^ 55).
  { apply Z.lt_le_trans with (2 ^ (8 * k - 1)); [done|]. apply Z.pow_le_mono_r; lia. }
  destruct (Z.eq_dec n 0) as [->|H0].
  { unfold CScriptNum_of_vch. change (size (CScriptNum_serialize 0)) with 0.
    destruct (Z.ltb_spec k 0); [lia|done]. }
  destruct (magnitude_snoc (Z.abs n)) as (l & x & V & Hl & Hx & Hpos & Hlen); [cbn; lia|].
  destruct (magnitude_size l x k) as [S1 S2]; [done|done|lia|lia|].
  assert (Hs64 : in_s 64 n) by (unfold in_s; lia).
  rewrite (serialize_shape n l x) by done.
  pose proof Hx as Hx'. unfold in_u in Hx'. rewrite le_value_snoc in V.
  destruct (Z.leb_spec 128 x) as [Hbig|Hsmall].
  - specialize (S2 Hbig). replace (l ++ [x; if n <? 0 then 128 else 0]) with ((l ++ [x]) ++ [if n <? 0 then 128 else 0])
      by by rewrite <- app_assoc.
    rewrite of_vch_snoc; [| | | |lia|].
    + rewrite le_value_snoc. f_equal. destruct (Z.ltb_spec n 0).
      * change (128 <? 128) with false. change (128 mod 128) with 0. rewrite Z.mul_0_r. lia.
      * change (0 <? 128) with true. change (0 mod 128) with 0. rewrite Z.mul_0_r. lia.
    + apply Forall_app. split; [done|by constructor].
    + destruct (n <? 0); unfold in_u; lia.
    + rewrite size_app. change (size [x]) with 1. lia.
    + right. by exists l, x.
  - rewrite of_vch_snoc; [|done| |lia|lia|].
    + f_equal. destruct (Z.ltb_spec n 0).
      * destruct (Z.ltb_spec (x + 128) 128); [lia|]. replace ((x + 128) mod 128) with x by zdm. lia.
      * destruct (Z.ltb_spec x 128); [|lia]. rewrite Z.mod_small by lia. lia.
    + destruct (n <? 0); unfold in_u; lia.
    + left. destruct (n <? 0); zdm.
Qed.

(** A minimal encoding is one of the two shapes. *)
Lemma of_vch_inv l x k n :
  Forall is_byte l -> is_byte x -> k <= 7 -> CScriptNum_of_vch (l ++ [x]) true k = Ok n ->
  size l + 1 <= k /\
  n = (if x <? 128 then 1 else -1) * (le_value l + 256 ^ Z.of_nat (length l) * (x mod 128)) /\
  (x mod 128 <> 0 \/ exists l' y, l = l' ++ [y] /\ 128 <= y).
Proof.
  intros Hl Hx Hk E. unfold CScriptNum_of_vch in E. rewrite size_app in E. change (size [x]) with 1 in E.
  pose proof (size_nonneg l). destruct (Z.ltb_spec k (size l + 1)); [done|]. split; [done|].
  rewrite back_snoc, byte_low7 in E by done. destruct (Z.ltb_spec 0 (size l + 1)); [|lia]. cbn [andb] in E.
  destruct (Z.eqb_spec (x mod 128) 0) as [E0|E0]; cbn [andb] in E.
  - destruct (_ || _) eqn:Ec in E; [done|]. injection E as <-. rewrite set_vch_snoc by (done || lia). split; [done|].
    right. apply orb_false_iff in Ec as [Ec1 Ec2].
    destruct l as [|y l' _] using rev_ind; [done|]. exists l', y. split; [done|].
    apply Forall_app in Hl as [_ Hy]. apply Forall_cons in Hy as [Hy _].
    unfold byte_at in Ec2. rewrite !length_app in Ec2. cbn [length] in Ec2.
    replace (length l' + 1 + 1 - 2)%nat with (length l') in Ec2 by lia.
    rewrite <- app_assoc, app_nth2, Nat.sub_diag in Ec2 by lia. cbn [app nth] in Ec2.
    rewrite byte_top in Ec2 by done. lia.
  - injection E as <-. rewrite set_vch_snoc by (done || lia). auto.
Qed.

Lemma serialize_of_vch v n k :
  1 <= k <= 7 -> Forall is_byte v -> CScriptNum_of_vch v true k = Ok n ->
  v = CScriptNum_serialize n /\ Z.abs n < 2 ^ (8 * k - 1).
Proof.
  intros Hk Hv E. destruct v as [|x l _] using rev_ind.
  { unfold CScriptNum_of_vch in E. change (size []) with 0 in E.
    destruct (Z.ltb_spec k 0); [done|]. injection E as <-.
    split; [done|]. apply Z.pow_pos_nonneg; lia. }
  apply Forall_app in Hv as [Hl Hx]. apply Forall_cons in Hx as [Hx _].
  destruct (of_vch_inv l x k n Hl Hx ltac:(lia) E) as (Hs & Hn & Hmin). pose proof Hx as Hx'. unfold in_u in Hx'.
  pose proof (le_value_bound l Hl) as Hvl. pose proof (size_nonneg l).
  assert (HP : 256 ^ Z.of_nat (length l) = 2 ^ (8 * size l)) by (unfold size; change 256 with (2 ^ 8); rewrite <- Z.pow_mul_r by lia; done).
  assert (Hbound : Z.abs n < 2 ^ (8 * k - 1)).
  { apply Z.lt_le_trans with (2 ^ (8 * size l + 7)); [|apply Z.pow_le_mono_r; lia].
    rewrite Z.pow_add_r, <- HP by lia. change (2 ^ 7) with 128.
    assert (0 <= x mod 128 < 128) by zdm. destruct (Z.ltb_spec x 128); nia. }
  assert (Hn64 : in_s 64 n).
  { assert (2 ^ (8 * k - 1) <= 2 ^ 55) by (apply Z.pow_le_mono_r; lia). unfold in_s. lia. }
  split; [|done]. assert (Hlen : (length l <= 6)%nat) by (unfold size in *; lia).
  destruct (Z.eq_dec (x mod 128) 0) as [E0|Hm].
  - destruct Hmin as [|(l' & y & -> & Hy)]; [done|].
    apply Forall_app in Hl as [Hl' Hy']. apply Forall_cons in Hy' as [Hy' _]. rewrite length_app in Hlen. cbn in Hlen.
    rewrite le_value_snoc, E0, Z.mul_0_r, Z.add_0_r in Hn. pose proof (le_value_bound l' Hl').
    rewrite (serialize_shape n l' y); [|done| |done|done|lia|lia|].
    + destruct (Z.leb_spec 128 y); [|lia]. rewrite <- app_assoc. cbn [app]. do 3 f_equal.
      destruct (Z.ltb_spec n 0), (Z.ltb_spec x 128); try nia; zdm.
    + destruct (Z.ltb_spec x 128); nia.
    + rewrite le_value_snoc. destruct (Z.ltb_spec x 128); nia.
  - assert (0 < x mod 128 < 128) by zdm.
    assert (0 < 256 ^ Z.of_nat (length l)) by (rewrite HP; apply Z.pow_pos_nonneg; lia).
    rewrite (serialize_shape n l (x mod 128)); [|done| |done|unfold in_u; lia|lia|lia|].
    + destruct (Z.leb_spec 128 (x mod 128)); [lia|]. do 2 f_equal.
      destruct (Z.ltb_spec n 0), (Z.ltb_spec x 128); try nia; zdm.
    + destruct (Z.ltb_spec x 128); nia.
    + rewrite le_value_snoc. destruct (Z.ltb_spec x 128); nia.
Qed.

(** ** Properties *)

(** Every element of fewer than [2^32] bytes that is appended to a script with
    [operator<<] is read back by one [GetScriptOp], which returns it unchanged,
    reports a push opcode and leaves exactly what follows. *)
Theorem GetScriptOp_push_data b rest :
  size b < 2 ^ 32 ->
  exists op, GetScriptOp (push_data b ++ rest) = Some (op, b, rest) /\ op <= OP_PUSHDATA4.
Proof. intros Hb. destruct (GetScriptOp_push b rest Hb) as (op & E & ?). exists op. split; [done|lia]. Qed.

Lemma GetScriptOp_push_data_witness :
  exists op, GetScriptOp (push_data (replicate 300 7) ++ [OP_RETURN]) = Some (op, replicate 300 7, [OP_RETURN]).
Proof.
  destruct (GetScriptOp_push_data (replicate 300 7) [OP_RETURN]) as (op & E & _); [vm_compute; reflexivity|].
  exact (ex_intro _ op E).
Defined.

(** Script numbers.  With the minimality rule on and a size limit of [k] bytes
    (1 to 7; the code uses 4 and 5), a byte string is accepted as the number [n]
    exactly when it is the serialization of [n] and [n] has magnitude below
    [2^(8k-1)]; so numbers in range round trip and have one accepted encoding. *)
Theorem CScriptNum_minimal_codec v n k :
  1 <= k <= 7 -> Forall is_byte v ->
  CScriptNum_of_vch v true k = Ok n <-> v = CScriptNum_serialize n /\ Z.abs n < 2 ^ (8 * k - 1).
Proof.
  intros Hk Hv. split; [by apply serialize_of_vch|]. intros [-> Hn]. by apply of_vch_serialize.
Qed.

Lemma CScriptNum_minimal_codec_witness : CScriptNum_of_vch [0xff; 0x80] true 4 = Ok (-255).
Proof.
  apply (CScriptNum_minimal_codec [0xff; 0x80] (-255) 4).
  - lia.
  - bytes_ok.
  - split; [vm_compute; reflexivity|lia].
Defined.

(** The pay-to-witness-public-key-hash script of a 20-byte program is a witness
    program of version 0, but [IsPayToWitnessPubKeyHash] compares the length byte
    with 32 instead of 20 and rejects it. *)
Theorem IsPayToWitnessPubKeyHash_rejects program :
  length program = 20%nat ->
  IsWitnessProgram ([OP_0; 20] ++ program) = Some (0, program) /\
  IsPayToWitnessPubKeyHash ([OP_0; 20] ++ program) = false.
Proof.
  intros Hl. unfold IsWitnessProgram, IsPayToWitnessPubKeyHash.
  assert (size ([OP_0; 20] ++ program) = 22) as -> by (unfold size; cbn; by rewrite Hl). done.
Qed.
