(* ===== verification/Rlp.v ===== *)
(** * Recursive length prefix encoding
    (src/src/nevm/rlp.h, src/src/nevm/rlp.cpp, src/src/nevm/vector_ref.h)

    An [RLP] is a view on bytes; here it is the list of these bytes.  The methods check the
    headers when they are asked for something, and throw.

    Shown here: an item that can be read completely is the encoding of the tree that was
    read, and every encoding is read back, so that every tree has one encoding; the cache of
    the subscript operator never changes what the operator returns. *)

From S2P Require Import Prelude Serialize Script.

Inductive rlp_error := BadRLP | BadCast | OversizeRLP | UndersizeRLP
| OutOfBounds. (** a read past the end of the view, which the C++ does not check *)

Definition c_rlpDataImmLenStart : Z := 0x80.
Definition c_rlpListStart : Z := 0xc0.
Definition c_rlpDataImmLenCount : Z := 56.
Definition c_rlpDataIndLenZero : Z := 0xb7.
Definition c_rlpListImmLenCount : Z := 56.
Definition c_rlpListIndLenZero : Z := 0xf7.

(** The conversion flags. *)
Definition AllowNonCanon : Z := 1.
Definition ThrowOnFail : Z := 4.
Definition FailIfTooBig : Z := 8.
Definition FailIfTooSmall : Z := 16.
Definition Strict : Z := Z.lor ThrowOnFail FailIfTooBig.
Definition VeryStrict : Z := Z.lor (Z.lor ThrowOnFail FailIfTooBig) FailIfTooSmall.
Definition LaissezFaire : Z := AllowNonCanon.
Definition has_flag (flags f : Z) : bool := negb (Z.land flags f =? 0).

(** [vector_ref::cropped]: empty when it would go out of bounds. *)
Definition cropped (d : bytes) (begin count : Z) : bytes :=
  if (begin <=? size d) && (count <=? size d) && (begin + count <=? size d)
  then take (Z.to_nat count) (drop (Z.to_nat begin) d) else [].
Definition cropped_from (d : bytes) (begin : Z) : bytes :=
  if begin <=? size d then drop (Z.to_nat begin) d else [].

(** ** Headers *)

Definition RLP_isNull (d : bytes) : bool := size d =? 0.
Definition RLP_isData (d : bytes) : bool := negb (RLP_isNull d) && (byte_at d 0 <? c_rlpListStart).
Definition RLP_isList (d : bytes) : bool := negb (RLP_isNull d) && (c_rlpListStart <=? byte_at d 0).
Definition RLP_isSingleByte (d : bytes) : bool := negb (RLP_isNull d) && (byte_at d 0 <? c_rlpDataImmLenStart).

Definition RLP_requireGood (d : bytes) : result rlp_error unit :=
  guard! negb (RLP_isNull d) else BadRLP;
  if negb (byte_at d 0 =? c_rlpDataImmLenStart + 1) then Ok () else
  guard! 2 <=? size d else BadRLP;
  guard! c_rlpDataImmLenStart <=? byte_at d 1 else BadRLP; Ok ().

Definition big_endian (l : bytes) : Z := foldl (fun ret b => Z.lor (Z.shiftl ret 8) b) 0 l.

(** The length that [lengthSize] bytes after the first one hold; the limit is that of the
    short form. *)
Definition long_length (d : bytes) (lengthSize limit : Z) : result rlp_error Z :=
  guard! lengthSize <? size d else BadRLP;
  guard! negb ((1 <? size d) && (byte_at d 1 =? 0)) else BadRLP;
  guard! lengthSize <=? 8 else UndersizeRLP;
  guard! negb (byte_at d 1 =? 0) else BadRLP;
  let ret := big_endian (take (Z.to_nat lengthSize) (drop 1 d)) in
  guard! limit <=? ret else BadRLP;
  guard! ret <? 2 ^ 64 - 1 - 0x100 else UndersizeRLP;
  Ok ret.

Definition RLP_length (d : bytes) : result rlp_error Z :=
  if RLP_isNull d then Ok 0 else
  _ ← RLP_requireGood d;
  let n := byte_at d 0 in
  if n <? c_rlpDataImmLenStart then Ok 1
  else if n <=? c_rlpDataIndLenZero then Ok (n - c_rlpDataImmLenStart)
  else if n <? c_rlpListStart then long_length d (n - c_rlpDataIndLenZero) c_rlpDataImmLenCount
  else if n <=? c_rlpListIndLenZero then Ok (n - c_rlpListStart)
  else long_length d (n - c_rlpListIndLenZero) c_rlpListImmLenCount.

Definition RLP_lengthSize (d : bytes) : Z :=
  if RLP_isData d && (c_rlpDataIndLenZero <? byte_at d 0) then byte_at d 0 - c_rlpDataIndLenZero
  else if RLP_isList d && (c_rlpListIndLenZero <? byte_at d 0) then byte_at d 0 - c_rlpListIndLenZero
  else 0.

Definition RLP_payloadOffset (d : bytes) : Z := if RLP_isSingleByte d then 0 else 1 + RLP_lengthSize d.

Definition RLP_actualSize (d : bytes) : result rlp_error Z :=
  if RLP_isNull d then Ok 0
  else if RLP_isSingleByte d then Ok 1
  else if RLP_isData d || RLP_isList d then l ← RLP_length d; Ok (RLP_payloadOffset d + l)
  else Ok 0.

(** The constructor. *)
Definition RLP_of (flags : Z) (d : bytes) : result rlp_error bytes :=
  m_data ← (if has_flag flags FailIfTooBig then
              a ← RLP_actualSize d;
              if a <? size d then (if has_flag flags ThrowOnFail then Throw OversizeRLP else Ok []) else Ok d
            else Ok d);
  if has_flag flags FailIfTooSmall then
    a ← RLP_actualSize m_data;
    if size d <? a then (if has_flag flags ThrowOnFail then Throw UndersizeRLP else Ok []) else Ok m_data
  else Ok m_data.

Definition RLP_payload (d : bytes) : result rlp_error bytes :=
  l ← RLP_length d;
  guard! negb (size d <? l) else BadRLP;
  Ok (cropped d (RLP_payloadOffset d) l).

Definition sizeAsEncoded (d : bytes) : result rlp_error Z :=
  d ← RLP_of (Z.lor ThrowOnFail FailIfTooSmall) d; RLP_actualSize d.

(** ** Items of a list *)

(** An item is at least one byte long. *)
Fixpoint RLP_items_loop (fuel : nat) (d : bytes) (i : Z) : result rlp_error Z :=
  if size d =? 0 then Ok i else
  match fuel with
  | O => Throw OutOfBounds
  | S fuel => n ← sizeAsEncoded d; RLP_items_loop fuel (cropped_from d n) (i + 1)
  end.

Definition RLP_items (d : bytes) : result rlp_error Z :=
  if RLP_isList d then p ← RLP_payload d; RLP_items_loop (length p) p 0 else Ok 0.

Definition RLP_itemCount (d : bytes) : result rlp_error Z := if RLP_isList d then RLP_items d else Ok 0.

(** The subscript operator on a fresh object: the item [i] after [m_lastItem], which ends at
    [m_lastEnd]. *)
Fixpoint RLP_next (p : bytes) (i : nat) (m_lastItem : bytes) (m_lastEnd : Z) : result rlp_error (bytes * Z * nat) :=
  match i with
  | O => Ok (m_lastItem, m_lastEnd, O)
  | S i =>
      if size m_lastItem =? 0 then Ok (m_lastItem, m_lastEnd, S i) else
      let rest := cropped_from p m_lastEnd in
      n ← sizeAsEncoded rest;
      let m_lastItem := cropped rest 0 n in
      RLP_next p i m_lastItem (m_lastEnd + size m_lastItem)
  end.

Definition RLP_at (d : bytes) (i : nat) : result rlp_error bytes :=
  p ← RLP_payload d;
  m_lastEnd ← sizeAsEncoded p;
  '(m_lastItem, _, _) ← RLP_next p i (cropped p 0 m_lastEnd) m_lastEnd;
  RLP_of (Z.lor ThrowOnFail FailIfTooSmall) m_lastItem.

(** The cache of the operator; [m_lastIndex] starts as the largest [size_t]. *)
Record rlp_cache := { m_lastIndex : Z; m_lastEnd : Z; m_lastItem : bytes }.

Definition rlp_cache_empty : rlp_cache := {| m_lastIndex := 2 ^ 64 - 1; m_lastEnd := 0; m_lastItem := [] |}.

Definition RLP_subscript (d : bytes) (c : rlp_cache) (i : nat) : result rlp_error (bytes * rlp_cache) :=
  c ← (if Z.of_nat i <? m_lastIndex c then
         p ← RLP_payload d; e ← sizeAsEncoded p;
         Ok {| m_lastIndex := 0; m_lastEnd := e; m_lastItem := cropped p 0 e |}
       else Ok c);
  p ← RLP_payload d;
  '(item, e, left_over) ← RLP_next p (Z.to_nat (Z.of_nat i - m_lastIndex c)) (m_lastItem c) (m_lastEnd c);
  r ← RLP_of (Z.lor ThrowOnFail FailIfTooSmall) item;
  Ok (r, {| m_lastIndex := Z.of_nat i - Z.of_nat left_over; m_lastEnd := e; m_lastItem := item |}).

(** ** Conversions *)

Definition RLP_toBytes (flags : Z) (d : bytes) : result rlp_error bytes :=
  if negb (RLP_isData d) then (if has_flag flags ThrowOnFail then Throw BadCast else Ok []) else
  p ← RLP_payload d; l ← RLP_length d;
  guard! size p =? l else OutOfBounds; Ok p.

Definition RLP_isInt (d : bytes) : result rlp_error bool :=
  if RLP_isNull d then Ok false else
  _ ← RLP_requireGood d;
  let n := byte_at d 0 in
  if n <? c_rlpDataImmLenStart then Ok (negb (n =? 0))
  else if n =? c_rlpDataImmLenStart then Ok true
  else if n <=? c_rlpDataIndLenZero then
    guard! 1 <? size d else BadRLP; Ok (negb (byte_at d 1 =? 0))
  else if n <? c_rlpListStart then
    guard! 1 + n - c_rlpDataIndLenZero <? size d else BadRLP;
    Ok (negb (byte_at d (Z.to_nat (1 + n - c_rlpDataIndLenZero)) =? 0))
  else Ok false.

(** For a type of [maxSize] bytes. *)
Definition RLP_toInt (maxSize flags : Z) (d : bytes) : result rlp_error Z :=
  let failed := if has_flag flags ThrowOnFail then Throw BadCast else Ok 0 in
  _ ← RLP_requireGood d;
  isInt ← RLP_isInt d;
  if (negb isInt && negb (has_flag flags AllowNonCanon)) || RLP_isList d || RLP_isNull d then failed else
  p ← RLP_payload d;
  if (maxSize <? size p) && has_flag flags FailIfTooBig then failed else
  Ok (wrapu (8 * maxSize) (big_endian p)).

(** [FixedHash<n>]. *)
Definition RLP_toHash (n flags : Z) (d : bytes) : result rlp_error bytes :=
  let failed := if has_flag flags ThrowOnFail then Throw BadCast else Ok (replicate (Z.to_nat n) 0) in
  _ ← RLP_requireGood d;
  p ← RLP_payload d;
  let l := size p in
  if negb (RLP_isData d) || ((n <? l) && has_flag flags FailIfTooBig) || ((l <? n) && has_flag flags FailIfTooSmall)
  then failed
  else let s := Z.min n l in Ok (replicate (Z.to_nat (n - s)) 0 ++ take (Z.to_nat s) p).

(** ** Writing *)

Fixpoint bytesRequired_loop (fuel : nat) (i : Z) : Z :=
  match fuel with
  | O => 0
  | S fuel => if i =? 0 then 0 else 1 + bytesRequired_loop fuel (Z.shiftr i 8)
  end.

(** For a [size_t]. *)
Definition bytesRequired (i : Z) : Z := bytesRequired_loop 8 i.

Definition pushInt (i br : Z) : bytes := rev (le_bytes (Z.to_nat br) i).

Definition pushCount (count base : Z) : bytes :=
  let br := bytesRequired count in wrapu 8 (br + base) :: pushInt count br.

(** [RLPStream::append(bytesConstRef)] and [RLPStream::appendList(bytesConstRef)]: the bytes
    they add. *)
Definition rlp_append (s : bytes) : bytes :=
  if (size s =? 1) && (byte_at s 0 <? c_rlpDataImmLenStart) then [byte_at s 0]
  else (if size s <? c_rlpDataImmLenCount then [wrapu 8 (size s + c_rlpDataImmLenStart)]
        else pushCount (size s) c_rlpDataIndLenZero) ++ s.

Definition rlp_appendList (rlp : bytes) : bytes :=
  (if size rlp <? c_rlpListImmLenCount then [wrapu 8 (size rlp + c_rlpListStart)]
   else pushCount (size rlp) c_rlpListIndLenZero) ++ rlp.

(** ** Lengths *)

(** Lengths from here on are rejected. *)
Definition length_limit : Z := 2 ^ 64 - 1 - 0x100.

Lemma big_endian_rev l : Forall is_byte l -> big_endian (rev l) = le_value l.
Proof.
  unfold big_endian. induction 1 as [|b l Hb Hl IH]; [done|]. cbn [rev le_value]. rewrite foldl_app, IH. cbn [foldl].
  unfold in_u in Hb. rewrite Z.shiftl_mul_pow2 by lia. rewrite lor_shift_add by lia. lia.
Qed.

Lemma bytesRequired_loop_snoc fuel l x :
  Forall is_byte l -> is_byte x -> 0 < x -> (length l < fuel)%nat ->
  bytesRequired_loop fuel (le_value (l ++ [x])) = size l + 1.
Proof.
  intros Hl Hx Hpos. revert l Hl. induction fuel as [|fuel IH]; intros l Hl Hf; [lia|]. cbn [bytesRequired_loop].
  rewrite Z.shiftr_div_pow2 by lia. unfold in_u in Hx. destruct l as [|b l].
  - cbn [app le_value]. destruct (Z.eqb_spec (x + 256 * 0) 0); [lia|]. replace ((x + 256 * 0) / 2 ^ 8) with 0 by zdm.
    by destruct fuel.
  - apply Forall_cons in Hl as [Hb Hl]. unfold in_u in Hb. cbn [app le_value].
    assert (0 < le_value (l ++ [x])).
    { rewrite le_value_snoc. pose proof (le_value_bound l Hl). pose proof (Z.pow_pos_nonneg 256 (Z.of_nat (length l))). nia. }
    destruct (Z.eqb_spec (b + 256 * le_value (l ++ [x])) 0); [lia|].
    replace ((b + 256 * le_value (l ++ [x])) / 2 ^ 8) with (le_value (l ++ [x])) by zdm.
    cbn [length] in Hf. rewrite IH by (done || lia). unfold size. cbn [length]. lia.
Qed.

Lemma pushCount_snoc l x base :
  Forall is_byte l -> is_byte x -> 0 < x -> (length l <= 7)%nat ->
  pushCount (le_value (l ++ [x])) base = wrapu 8 (size l + 1 + base) :: x :: rev l.
Proof.
  intros Hl Hx Hpos Hlen. unfold pushCount, bytesRequired. rewrite bytesRequired_loop_snoc by (done || lia). f_equal.
  unfold pushInt. replace (Z.to_nat (size l + 1)) with (length (l ++ [x])).
  - rewrite le_bytes_value by (apply Forall_app; auto). by rewrite rev_app_distr.
  - rewrite length_app. unfold size. cbn. lia.
Qed.

Lemma long_length_iff h d k limit v :
  Forall is_byte d -> 1 <= k <= 8 ->
  long_length (h :: d) k limit = Ok v <->
  exists x l rest, d = x :: rev l ++ rest /\ size l + 1 = k /\ 0 < x /\ v = le_value (l ++ [x]) /\ limit <= v < length_limit.
Proof.
  intros Hd Hk. unfold long_length, length_limit.
  assert (Hs : size (h :: d) = 1 + size d) by (unfold size; cbn [length]; lia). rewrite Hs. cbn [drop]. rewrite drop_0. split.
  - destruct (Z.ltb_spec k (1 + size d)) as [Hlt|]; [|done].
    destruct d as [|x d]; [unfold size in Hlt; cbn in Hlt; lia|]. change (byte_at (h :: x :: d) 1) with x.
    apply Forall_cons in Hd as [Hx Hd]. destruct (negb (_ && _)); [|done]. destruct (k <=? 8); [|done].
    destruct (Z.eqb_spec x 0) as [|Hne]; [done|]. cbn [negb].
    replace (Z.to_nat k) with (S (Z.to_nat (k - 1))) by lia. cbn [take].
    set (l := take (Z.to_nat (k - 1)) d). assert (Hl : Forall is_byte l) by by apply Forall_take.
    change (x :: l) with ([x] ++ l). rewrite <- (rev_involutive l), <- (rev_involutive [x]), <- rev_app_distr. cbn [rev app].
    rewrite big_endian_rev by (apply Forall_app; split; [by apply Forall_rev|auto]).
    destruct (_ <=? _) eqn:H1; [|done]. destruct (_ <? _) eqn:H2; [|done]. intros [= <-].
    unfold in_u in Hx. exists x, (rev l), (drop (Z.to_nat (k - 1)) d). rewrite rev_involutive. split_and!; [|..|done|lia|lia]; [|..|lia].
    + unfold l. by rewrite take_drop.
    + unfold size, l. unfold size in Hlt. cbn [length] in Hlt. rewrite length_rev, length_take. lia.
  - intros (x & l & rest & -> & Hl & Hx & -> & Hv). change (byte_at (h :: x :: rev l ++ rest) 1) with x.
    apply Forall_cons in Hd as [Hbx [Hbl _]%Forall_app].
    assert (Hbl' : Forall is_byte l) by (rewrite <- (rev_involutive l); by apply Forall_rev).
    assert (Hsz : size (x :: rev l ++ rest) = k + size rest).
    { unfold size in *. cbn [length]. rewrite length_app, length_rev. lia. }
    rewrite Hsz. pose proof (size_nonneg rest). destruct (Z.ltb_spec k (1 + (k + size rest))); [|lia].
    destruct (Z.eqb_spec x 0); [lia|]. rewrite andb_false_r. cbn [negb]. destruct (Z.leb_spec k 8); [|lia].
    replace (take (Z.to_nat k) (x :: rev l ++ rest)) with (rev (l ++ [x])).
    2: { rewrite rev_app_distr. replace (Z.to_nat k) with (S (length (rev l))) by (unfold size in Hl; rewrite length_rev; lia).
         cbn. f_equal. by rewrite take_app_length. }
    rewrite big_endian_rev by (apply Forall_app; auto).
    destruct (Z.leb_spec limit (le_value (l ++ [x]))); [|lia]. destruct (Z.ltb_spec (le_value (l ++ [x])) (2 ^ 64 - 1 - 0x100)); [done|lia].
Qed.

(** ** What a header says *)

Definition data_header (s : bytes) : bytes :=
  if (size s =? 1) && (byte_at s 0 <? c_rlpDataImmLenStart) then []
  else if size s <? c_rlpDataImmLenCount then [wrapu 8 (size s + c_rlpDataImmLenStart)]
  else pushCount (size s) c_rlpDataIndLenZero.

Definition list_header (s : bytes) : bytes :=
  if size s <? c_rlpListImmLenCount then [wrapu 8 (size s + c_rlpListStart)]
  else pushCount (size s) c_rlpListIndLenZero.

Lemma size_one s : size s = 1 -> exists b, s = [b].
Proof. unfold size. destruct s as [|b [|]]; cbn; [lia|eauto|lia]. Qed.

Lemma size_cons x (l : bytes) : size (x :: l) = 1 + size l.
Proof. unfold size. cbn [length]. lia. Qed.

Lemma rlp_append_header s : rlp_append s = data_header s ++ s.
Proof.
  unfold rlp_append, data_header. destruct (_ && _) eqn:E; [|by destruct (_ <? _)].
  apply andb_true_iff in E as [E _]. destruct (size_one s) as [b ->]; [lia|done].
Qed.

(** The methods that look at the header, on a view that starts with a header of [hd] bytes
    for a payload of [n] bytes. *)
Record header_ok (is_list : bool) (hd n : Z) (d : bytes) : Prop := {
  header_nonempty : RLP_isNull d = false;
  header_data : RLP_isData d = negb is_list;
  header_list : RLP_isList d = is_list;
  header_offset : RLP_payloadOffset d = hd;
  header_length : RLP_length d = Ok n;
  header_actual : RLP_actualSize d = Ok (hd + n) }.

Lemma RLP_isNull_cons h t : RLP_isNull (h :: t) = false.
Proof. unfold RLP_isNull. rewrite size_cons. pose proof (size_nonneg t). lia. Qed.

Ltac rlp_unfold :=
  unfold RLP_isData, RLP_isList, RLP_isSingleByte, RLP_payloadOffset, RLP_lengthSize, RLP_actualSize, RLP_length, RLP_requireGood,
    RLP_isData, RLP_isList, RLP_isSingleByte, RLP_payloadOffset, RLP_lengthSize, RLP_length, RLP_requireGood,
    RLP_isData, RLP_isList, RLP_isSingleByte in *;
  rewrite ?RLP_isNull_cons in *;
  repeat match goal with
  | |- context [byte_at (?h :: ?t) 0] => change (byte_at (h :: t) 0) with h
  | H : context [byte_at (?h :: ?t) 0] |- _ => change (byte_at (h :: t) 0) with h in H
  end;
  unfold c_rlpDataImmLenStart, c_rlpListStart, c_rlpDataImmLenCount, c_rlpDataIndLenZero, c_rlpListImmLenCount, c_rlpListIndLenZero in *;
  cbn [negb andb orb] in *.

(** Decide the comparisons of the first byte with numerals. *)
Ltac rlp_decide h :=
  repeat match goal with
  | |- context [h <? ?k] => first [rewrite (proj2 (Z.ltb_lt h k)) by lia | rewrite (proj2 (Z.ltb_ge h k)) by lia]
  | |- context [h <=? ?k] => first [rewrite (proj2 (Z.leb_le h k)) by lia | rewrite (proj2 (Z.leb_gt h k)) by lia]
  | |- context [?k <? h] => first [rewrite (proj2 (Z.ltb_lt k h)) by lia | rewrite (proj2 (Z.ltb_ge k h)) by lia]
  | |- context [?k <=? h] => first [rewrite (proj2 (Z.leb_le k h)) by lia | rewrite (proj2 (Z.leb_gt k h)) by lia]
  | |- context [h =? ?k] => first [rewrite (proj2 (Z.eqb_eq h k)) by lia | rewrite (proj2 (Z.eqb_neq h k)) by lia]
  end; cbn [negb andb orb mbind result_bind].

(** The five kinds of first bytes. *)
Lemma header_single h t : 0 <= h < 0x80 -> header_ok false 0 1 (h :: t).
Proof. intros Hh. constructor; rlp_unfold; rlp_decide h; done. Qed.

Lemma header_short_data h t :
  0x80 <= h <= 0xb7 -> (h = 0x81 -> exists b t', t = b :: t' /\ 0x80 <= b) -> header_ok false 1 (h - 0x80) (h :: t).
Proof.
  intros Hh Hgood.
  assert (HG : RLP_requireGood (h :: t) = Ok ()).
  { rlp_unfold. destruct (Z.eqb_spec h (0x80 + 1)) as [->|]; [|done]. destruct (Hgood eq_refl) as (b & t' & -> & Hb). cbn [negb].
    rewrite !size_cons. pose proof (size_nonneg t'). destruct (Z.leb_spec 2 (1 + (1 + size t'))); [|lia].
    change (byte_at (0x80 + 1 :: b :: t') 1) with b. destruct (Z.leb_spec 0x80 b); [done|lia]. }
  constructor.
  1-4: rlp_unfold; rlp_decide h; done.
  1-2: unfold RLP_actualSize, RLP_length; rewrite HG; rlp_unfold; rlp_decide h; done.
Qed.

Lemma header_long_data h t n :
  0xb7 < h < 0xc0 -> long_length (h :: t) (h - 0xb7) 56 = Ok n -> header_ok false (1 + (h - 0xb7)) n (h :: t).
Proof.
  intros Hh Hn. constructor; rlp_unfold; rlp_decide h; try done; by rewrite Hn.
Qed.

Lemma header_short_list h t : 0xc0 <= h <= 0xf7 -> header_ok true 1 (h - 0xc0) (h :: t).
Proof. intros Hh. constructor; rlp_unfold; rlp_decide h; done. Qed.

Lemma header_long_list h t n :
  0xf7 < h < 256 -> long_length (h :: t) (h - 0xf7) 56 = Ok n -> header_ok true (1 + (h - 0xf7)) n (h :: t).
Proof. intros Hh Hn. constructor; rlp_unfold; rlp_decide h; try done; by rewrite Hn. Qed.

Definition item_header (is_list : bool) (p : bytes) : bytes := if is_list then list_header p else data_header p.

Lemma count_form v :
  56 <= v < length_limit ->
  exists l x, v = le_value (l ++ [x]) /\ Forall is_byte l /\ is_byte x /\ 0 < x /\ (length l <= 7)%nat.
Proof. intros Hv. apply magnitude_snoc. unfold length_limit in Hv. lia. Qed.

Lemma item_header_long is_list p l x :
  size p = le_value (l ++ [x]) -> 56 <= size p -> Forall is_byte l -> is_byte x -> 0 < x -> (length l <= 7)%nat ->
  item_header is_list p = (size l + 1 + if is_list then 0xf7 else 0xb7) :: x :: rev l.
Proof.
  intros Hv Hbig Hl Hx Hpos Hlen. assert (Hsl : size l <= 7) by (unfold size; lia). pose proof (size_nonneg l).
  destruct is_list; cbn [item_header]; unfold list_header, data_header, c_rlpListImmLenCount, c_rlpDataImmLenCount.
  - destruct (Z.ltb_spec (size p) 56); [lia|]. rewrite Hv, pushCount_snoc by done. unfold c_rlpListIndLenZero.
    rewrite wrapu_id by (unfold in_u; lia). done.
  - destruct (Z.eqb_spec (size p) 1); [lia|]. cbn [andb]. destruct (Z.ltb_spec (size p) 56); [lia|].
    rewrite Hv, pushCount_snoc by done. unfold c_rlpDataIndLenZero. rewrite wrapu_id by (unfold in_u; lia). done.
Qed.

Lemma long_inv is_list h t n k :
  Forall is_byte t -> 1 <= k <= 8 -> h = k + (if is_list : bool then 0xf7 else 0xb7) ->
  long_length (h :: t) k 56 = Ok n -> 1 + k + n <= size (h :: t) ->
  exists p rest, h :: t = item_header is_list p ++ p ++ rest /\ size p = n /\ n < length_limit /\
    1 + k = size (item_header is_list p).
Proof.
  intros Ht Hk -> Hn Hfit. apply long_length_iff in Hn as (x & l & rest & -> & Hl & Hx & -> & Hv); [|done|done].
  apply Forall_cons in Ht as [Hbx [Hbl _]%Forall_app].
  assert (Hbl' : Forall is_byte l) by (rewrite <- (rev_involutive l); by apply Forall_rev).
  set (v := le_value (l ++ [x])) in *. exists (take (Z.to_nat v) rest), (drop (Z.to_nat v) rest).
  rewrite !size_cons, size_app in Hfit. assert (Hr : size (rev l) = size l) by (unfold size; by rewrite length_rev).
  assert (Hs : size (take (Z.to_nat v) rest) = v) by (unfold size in *; rewrite length_take; lia).
  rewrite (item_header_long is_list _ l x) by (done || lia || (unfold size in Hl; lia)).
  rewrite Hs, take_drop. cbn [app]. rewrite !size_cons, Hr. split_and!; try lia. f_equal. lia.
Qed.

(** Written headers are read back. *)
Lemma item_header_ok is_list p rest :
  Forall is_byte p -> Forall is_byte rest -> size p < length_limit ->
  header_ok is_list (size (item_header is_list p)) (size p) (item_header is_list p ++ p ++ rest).
Proof.
  intros Hp Hrest Hlim. pose proof (size_nonneg p). destruct (Z.ltb_spec (size p) 56) as [Hsmall|Hbig].
  - destruct is_list; cbn [item_header]; [|unfold data_header; destruct (_ && _) eqn:E].
    + unfold list_header, c_rlpListImmLenCount, c_rlpListStart. destruct (Z.ltb_spec (size p) 56); [|lia].
      rewrite wrapu_id by (unfold in_u; lia). cbn [app].
      replace (size p) with (size p + 0xc0 - 0xc0) at 2 by lia. apply header_short_list. lia.
    + apply andb_true_iff in E as [E1 E2]. destruct (size_one p) as [b ->]; [lia|]. apply Forall_cons in Hp as [Hb _].
      unfold in_u in Hb. cbn in E2. apply header_single. unfold c_rlpDataImmLenStart in E2. lia.
    + unfold c_rlpDataImmLenCount, c_rlpDataImmLenStart in *. destruct (Z.ltb_spec (size p) 56); [|lia].
      rewrite wrapu_id by (unfold in_u; lia). cbn [app]. replace (size p) with (size p + 0x80 - 0x80) at 2 by lia.
      apply header_short_data; [lia|]. intros Heq. destruct (size_one p) as [b ->]; [lia|]. exists b, rest.
      split; [done|]. cbn in E. lia.
  - destruct (count_form (size p)) as (l & x & Hv & Hl & Hx & Hpos & Hlen); [lia|].
    assert (Hsl : size l <= 7) by (unfold size; lia). pose proof (size_nonneg l).
    pose proof (item_header_long is_list p l x Hv Hbig Hl Hx Hpos Hlen) as Hh.
    assert (Hlong : forall h, long_length (h :: (x :: rev l) ++ p ++ rest) (size l + 1) 56 = Ok (size p)).
    { intros h. apply long_length_iff; [|lia|].
      - apply Forall_app. split; [constructor; [done|by apply Forall_rev]|by apply Forall_app].
      - exists x, l, (p ++ rest). split_and!; [done|done|done|done|lia|done]. }
    assert (Hsz : size (item_header is_list p) = 1 + (size l + 1)).
    { rewrite Hh. rewrite !size_cons. unfold size. rewrite length_rev. lia. }
    rewrite Hsz, Hh. cbn [app]. specialize (Hlong (size l + 1 + if is_list then 0xf7 else 0xb7)). cbn [app] in Hlong.
    destruct is_list.
    + replace (size l + 1) with (size l + 1 + 0xf7 - 0xf7) at 1 by lia. apply header_long_list; [lia|].
      by replace (size l + 1 + 0xf7 - 0xf7) with (size l + 1) by lia.
    + replace (size l + 1) with (size l + 1 + 0xb7 - 0xb7) at 1 by lia. apply header_long_data; [lia|].
      by replace (size l + 1 + 0xb7 - 0xb7) with (size l + 1) by lia.
Qed.

Lemma requireGood_single t : RLP_requireGood (0x81 :: t) = Ok () -> exists b t', t = b :: t' /\ 0x80 <= b.
Proof.
  unfold RLP_requireGood. rewrite RLP_isNull_cons. cbn [negb]. change (negb (byte_at (0x81 :: t) 0 =? c_rlpDataImmLenStart + 1)) with false.
  cbv beta iota. destruct t as [|b t]; [done|]. destruct (2 <=? _); [|done]. change (byte_at (0x81 :: b :: t) 1) with b.
  destruct (Z.leb_spec c_rlpDataImmLenStart b); [|done]. by exists b, t.
Qed.

(** A header that is accepted is the one that would be written for its payload. *)
Lemma header_inv d n :
  Forall is_byte d -> RLP_isNull d = false -> RLP_length d = Ok n -> RLP_payloadOffset d + n <= size d ->
  exists p rest, d = item_header (RLP_isList d) p ++ p ++ rest /\ size p = n /\ n < length_limit /\
    RLP_payloadOffset d = size (item_header (RLP_isList d) p).
Proof.
  intros Hd Hne Hn Hfit. destruct d as [|h t]; [done|]. pose proof Hd as Hd'. apply Forall_cons in Hd as [Hh Ht]. unfold in_u in Hh.
  assert (Hlim : 2 ^ 16 < length_limit) by (unfold length_limit; lia).
  destruct (decide (h < 0x80)) as [H1|H1]; [|destruct (decide (h <= 0xb7)) as [H2|H2];
    [|destruct (decide (h < 0xc0)) as [H3|H3]; [|destruct (decide (h <= 0xf7)) as [H4|H4]]]].
  - destruct (header_single h t) as [_ _ Hl Ho Hn' _]; [lia|]. rewrite Hl, Ho. rewrite Hn in Hn'. injection Hn' as ->.
    exists [h], t. cbn [item_header]. unfold data_header. change (byte_at [h] 0) with h. unfold c_rlpDataImmLenStart.
    rewrite (proj2 (Z.ltb_lt h 0x80)) by lia. change (size [h]) with 1. cbn. split_and!; try done; lia.
  - assert (HG : h = 0x81 -> exists b t', t = b :: t' /\ 0x80 <= b).
    { intros ->. unfold RLP_length in Hn. rewrite RLP_isNull_cons in Hn. apply bind_ok in Hn as ([] & HG & _). by apply requireGood_single. }
    destruct (header_short_data h t) as [_ _ Hl Ho Hn' _]; [lia|done|]. rewrite Hl, Ho in *. rewrite Hn in Hn'. injection Hn' as ->.
    rewrite size_cons in Hfit. exists (take (Z.to_nat (h - 0x80)) t), (drop (Z.to_nat (h - 0x80)) t).
    assert (Hs : size (take (Z.to_nat (h - 0x80)) t) = h - 0x80) by (unfold size in *; rewrite length_take; lia).
    cbn [item_header]. unfold data_header. rewrite Hs. unfold c_rlpDataImmLenStart, c_rlpDataImmLenCount.
    destruct (_ && _) eqn:E.
    { apply andb_true_iff in E as [E1 E2]. assert (h = 0x81) as -> by lia. destruct (HG eq_refl) as (b & t' & -> & Hb).
      change (byte_at (take (Z.to_nat (0x81 - 0x80)) (b :: t')) 0) with b in E2. lia. }
    destruct (Z.ltb_spec (h - 0x80) 56); [|lia]. rewrite wrapu_id by (unfold in_u; lia). rewrite take_drop. cbn [app].
    replace (h - 0x80 + 0x80) with h by lia. split_and!; try done; lia.
  - assert (Hk : RLP_length (h :: t) = long_length (h :: t) (h - 0xb7) 56) by (rlp_unfold; rlp_decide h; done).
    rewrite Hk in Hn. destruct (header_long_data h t n) as [_ _ Hl Ho _ _]; [lia|done|]. rewrite Hl, Ho in *.
    apply (long_inv false); [done|lia|lia|done|done].
  - destruct (header_short_list h t) as [_ _ Hl Ho Hn' _]; [lia|]. rewrite Hl, Ho in *. rewrite Hn in Hn'. injection Hn' as ->.
    rewrite size_cons in Hfit. exists (take (Z.to_nat (h - 0xc0)) t), (drop (Z.to_nat (h - 0xc0)) t).
    assert (Hs : size (take (Z.to_nat (h - 0xc0)) t) = h - 0xc0) by (unfold size in *; rewrite length_take; lia).
    cbn [item_header]. unfold list_header. rewrite Hs. unfold c_rlpListStart, c_rlpListImmLenCount.
    destruct (Z.ltb_spec (h - 0xc0) 56); [|lia]. rewrite wrapu_id by (unfold in_u; lia). rewrite take_drop. cbn [app].
    replace (h - 0xc0 + 0xc0) with h by lia. split_and!; try done; lia.
  - assert (Hk : RLP_length (h :: t) = long_length (h :: t) (h - 0xf7) 56) by (rlp_unfold; rlp_decide h; done).
    rewrite Hk in Hn. destruct (header_long_list h t n) as [_ _ Hl Ho _ _]; [lia|done|]. rewrite Hl, Ho in *.
    apply (long_inv true); [done|lia|lia|done|done].
Qed.

(** ** Items *)

(** The bytes of an item: a list or a string, and its payload. *)
Definition item (it : bool * bytes) : bytes := item_header it.1 it.2 ++ it.2.

Definition item_ok (it : bool * bytes) : Prop := Forall is_byte it.2 /\ size it.2 < length_limit.

Lemma item_header_bytes is_list p : Forall is_byte p -> Forall is_byte (item_header is_list p).
Proof.
  intros Hp. assert (Hpc : forall base, Forall is_byte (pushCount (size p) base)).
  { intros base. unfold pushCount, pushInt. constructor; [apply wrapu_in; lia|]. apply Forall_rev, le_bytes_is_byte. }
  destruct is_list; cbn [item_header]; unfold list_header, data_header.
  - destruct (_ <? _); [constructor; [apply wrapu_in; lia|done]|apply Hpc].
  - destruct (_ && _); [done|]. destruct (_ <? _); [constructor; [apply wrapu_in; lia|done]|apply Hpc].
Qed.

Lemma item_bytes it : item_ok it -> Forall is_byte (item it).
Proof. intros [Hp _]. apply Forall_app. split; [by apply item_header_bytes|done]. Qed.

Lemma item_view it rest :
  item_ok it -> Forall is_byte rest -> header_ok it.1 (size (item_header it.1 it.2)) (size it.2) (item it ++ rest).
Proof. intros [Hp Hl] Hr. unfold item. rewrite <- app_assoc. by apply item_header_ok. Qed.

Lemma item_nonempty it : item_ok it -> item it <> [].
Proof. intros Hit E. destruct (item_view it [] Hit) as [Hn _ _ _ _ _]; [done|]. by rewrite app_nil_r, E in Hn. Qed.

Lemma item_size it : size (item it) = size (item_header it.1 it.2) + size it.2.
Proof. unfold item. apply size_app. Qed.

Lemma RLP_payload_item it rest : item_ok it -> Forall is_byte rest -> RLP_payload (item it ++ rest) = Ok it.2.
Proof.
  intros Hit Hr. destruct (item_view it rest Hit Hr) as [_ _ _ Ho Hl _]. unfold RLP_payload. rewrite Hl, Ho. cbn [mbind result_bind].
  pose proof (size_nonneg (item_header it.1 it.2)). pose proof (size_nonneg rest). pose proof (size_nonneg it.2).
  rewrite size_app, item_size. destruct (Z.ltb_spec (size (item_header it.1 it.2) + size it.2 + size rest) (size it.2)); [lia|].
  cbn [negb]. unfold cropped. rewrite size_app, item_size.
  destruct (_ && _) eqn:E; [|lia]. f_equal. unfold item. rewrite <- app_assoc, drop_app_size. apply take_app_size.
Qed.

Lemma sizeAsEncoded_item it rest : item_ok it -> Forall is_byte rest -> sizeAsEncoded (item it ++ rest) = Ok (size (item it)).
Proof.
  intros Hit Hr. destruct (item_view it rest Hit Hr) as [_ _ _ _ _ Ha]. unfold sizeAsEncoded, RLP_of.
  change (has_flag (Z.lor ThrowOnFail FailIfTooSmall) FailIfTooBig) with false.
  change (has_flag (Z.lor ThrowOnFail FailIfTooSmall) FailIfTooSmall) with true. cbn [mbind result_bind]. rewrite Ha.
  cbn [mbind result_bind]. rewrite size_app, item_size. pose proof (size_nonneg rest).
  destruct (Z.ltb_spec (size (item_header it.1 it.2) + size it.2 + size rest) (size (item_header it.1 it.2) + size it.2)); [lia|].
  cbn [mbind result_bind]. by rewrite Ha.
Qed.

Lemma RLP_of_item flags it : item_ok it -> RLP_of flags (item it) = Ok (item it).
Proof.
  intros Hit. pose proof (item_view it [] Hit) as Hv. rewrite app_nil_r in Hv. destruct Hv as [_ _ _ _ _ Ha]; [done|].
  unfold RLP_of. rewrite <- item_size in Ha. destruct (has_flag flags FailIfTooBig).
  - rewrite Ha. cbn [mbind result_bind]. rewrite Z.ltb_irrefl. cbn [mbind result_bind].
    destruct (has_flag flags FailIfTooSmall); [|done]. rewrite Ha. cbn [mbind result_bind]. by rewrite Z.ltb_irrefl.
  - cbn [mbind result_bind]. destruct (has_flag flags FailIfTooSmall); [|done]. rewrite Ha. cbn [mbind result_bind].
    by rewrite Z.ltb_irrefl.
Qed.

Lemma RLP_toBytes_item flags it rest :
  item_ok it -> Forall is_byte rest -> it.1 = false -> RLP_toBytes flags (item it ++ rest) = Ok it.2.
Proof.
  intros Hit Hr Hk. destruct (item_view it rest Hit Hr) as [_ Hd _ _ Hl _]. unfold RLP_toBytes.
  rewrite Hd, Hk, (RLP_payload_item it rest Hit Hr). cbn [negb mbind result_bind]. rewrite Hl. cbn [mbind result_bind].
  by rewrite Z.eqb_refl.
Qed.

(** What can be measured starts with an item. *)
Lemma actualSize_inv d n :
  Forall is_byte d -> d <> [] -> RLP_actualSize d = Ok n -> n <= size d ->
  exists it rest, d = item it ++ rest /\ n = size (item it) /\ item_ok it /\ Forall is_byte rest /\ it.1 = RLP_isList d.
Proof.
  intros Hd Hne Ha Hfit. assert (Hnull : RLP_isNull d = false) by (destruct d; [done|apply RLP_isNull_cons]).
  assert (Hlen : exists l, RLP_length d = Ok l /\ n = RLP_payloadOffset d + l).
  { unfold RLP_actualSize in Ha. rewrite Hnull in Ha. destruct (RLP_isSingleByte d) eqn:Hs.
    - injection Ha as <-. destruct d as [|h t]; [done|]. apply Forall_cons in Hd as [Hh _]. unfold in_u in Hh.
      unfold RLP_isSingleByte in Hs. rewrite RLP_isNull_cons in Hs. change (byte_at (h :: t) 0) with h in Hs.
      unfold c_rlpDataImmLenStart in Hs. cbn in Hs. destruct (header_single h t) as [_ _ _ Ho Hl _]; [lia|]. exists 1. by rewrite Ho.
    - destruct (RLP_isData d || RLP_isList d) eqn:Hk; [|].
      + apply bind_ok in Ha as (l & Hl & [= <-]). by exists l.
      + unfold RLP_isData, RLP_isList in Hk. rewrite Hnull in Hk. cbn [negb andb] in Hk. lia. }
  destruct Hlen as (l & Hl & ->). destruct (header_inv d l Hd Hnull Hl Hfit) as (p & rest & Heq & Hs & Hlim & Ho).
  exists (RLP_isList d, p), rest. unfold item, item_ok. cbn [fst snd]. rewrite size_app, Ho, Hs, <- app_assoc. rewrite Heq in Hd at 1.
  apply Forall_app in Hd as [_ [Hp Hr]%Forall_app]. by split_and!.
Qed.

Lemma sizeAsEncoded_inv d n :
  Forall is_byte d -> d <> [] -> sizeAsEncoded d = Ok n ->
  exists it rest, d = item it ++ rest /\ n = size (item it) /\ item_ok it /\ Forall is_byte rest /\ it.1 = RLP_isList d.
Proof.
  intros Hd Hne. unfold sizeAsEncoded, RLP_of.
  change (has_flag (Z.lor ThrowOnFail FailIfTooSmall) FailIfTooBig) with false.
  change (has_flag (Z.lor ThrowOnFail FailIfTooSmall) FailIfTooSmall) with true.
  change (has_flag (Z.lor ThrowOnFail FailIfTooSmall) ThrowOnFail) with true. cbn [mbind result_bind].
  destruct (RLP_actualSize d) as [a|] eqn:Ha; [|done]. cbn [mbind result_bind]. destruct (Z.ltb_spec (size d) a); [done|].
  cbn [mbind result_bind]. rewrite Ha. intros [= <-]. by apply actualSize_inv.
Qed.

Lemma RLP_of_throwing flags d d' : has_flag flags ThrowOnFail = true -> RLP_of flags d = Ok d' -> d' = d.
Proof.
  intros Hf. unfold RLP_of. rewrite Hf. intros (d1 & H1 & H2)%bind_ok.
  assert (d1 = d) as ->.
  { destruct (has_flag flags FailIfTooBig); [|congruence]. apply bind_ok in H1 as (a & _ & H1). destruct (_ <? _); congruence. }
  destruct (has_flag flags FailIfTooSmall); [|congruence]. apply bind_ok in H2 as (a & _ & H2). destruct (_ <? _); congruence.
Qed.

Lemma RLP_of_VeryStrict_inv d d' :
  Forall is_byte d -> RLP_of VeryStrict d = Ok d' -> d' = d /\ (d <> [] -> exists it, d = item it /\ item_ok it).
Proof.
  intros Hd. unfold RLP_of. change (has_flag VeryStrict FailIfTooBig) with true.
  change (has_flag VeryStrict FailIfTooSmall) with true. change (has_flag VeryStrict ThrowOnFail) with true.
  destruct (RLP_actualSize d) as [a|] eqn:Ha; [|done]. cbn [mbind result_bind].
  destruct (Z.ltb_spec a (size d)); [done|]. cbn [mbind result_bind]. rewrite Ha. cbn [mbind result_bind].
  destruct (Z.ltb_spec (size d) a); [done|]. intros [= <-]. split; [done|]. intros Hne.
  destruct (actualSize_inv d a Hd Hne Ha) as (it & rest & Heq & Hs & Hit & _); [lia|]. exists it. split; [|done].
  assert (Hsz : size d = size (item it) + size rest) by (by rewrite Heq at 1; apply size_app).
  assert (size rest = 0) by lia. assert (rest = []) as -> by (destruct rest; [done|rewrite size_cons in *; pose proof (size_nonneg rest); lia]).
  by rewrite app_nil_r in Heq.
Qed.

(** ** Lists of items *)

Definition joined (its : list (bool * bytes)) : bytes := mjoin (item <$> its).

Lemma joined_cons it its : joined (it :: its) = item it ++ joined its.
Proof. done. Qed.

Lemma joined_bytes its : Forall item_ok its -> Forall is_byte (joined its).
Proof. induction 1; [done|]. rewrite joined_cons. apply Forall_app. split; [by apply item_bytes|done]. Qed.

Lemma size_nil : size [] = 0.
Proof. done. Qed.

Lemma size_eq_0 l : (size l =? 0) = bool_decide (l = []).
Proof. destruct l; [done|]. rewrite size_cons. pose proof (size_nonneg l). rewrite bool_decide_eq_false_2 by done. lia. Qed.

Lemma cropped_from_app a b : cropped_from (a ++ b) (size a) = b.
Proof.
  unfold cropped_from. rewrite size_app. pose proof (size_nonneg b). destruct (Z.leb_spec (size a) (size a + size b)); [|lia].
  apply drop_app_size.
Qed.

Lemma cropped_0_app a b : cropped (a ++ b) 0 (size a) = a.
Proof.
  unfold cropped. rewrite size_app. pose proof (size_nonneg a). pose proof (size_nonneg b).
  destruct (_ && _) eqn:E; [|lia]. cbn [Z.to_nat drop]. apply take_app_size.
Qed.

Lemma RLP_items_loop_joined its fuel i :
  Forall item_ok its -> (length (joined its) <= fuel)%nat ->
  RLP_items_loop fuel (joined its) i = Ok (i + Z.of_nat (length its)).
Proof.
  intros Hits. revert fuel i. induction Hits as [|it its Hit Hits IH]; intros fuel i Hf.
  { destruct fuel; cbn; by rewrite Z.add_0_r. }
  pose proof (item_nonempty it Hit) as Hne. rewrite joined_cons in *. rewrite length_app in Hf.
  destruct fuel as [|fuel]; [destruct (item it); cbn in Hf; [done|lia]|]. cbn [RLP_items_loop].
  rewrite size_eq_0, bool_decide_eq_false_2 by by destruct (item it).
  rewrite sizeAsEncoded_item by (done || by apply joined_bytes). cbn [mbind result_bind]. rewrite cropped_from_app, IH.
  - f_equal. cbn [length]. lia.
  - destruct (item it); [done|]. cbn in Hf. lia.
Qed.

Lemma RLP_items_loop_inv fuel p i n :
  Forall is_byte p -> RLP_items_loop fuel p i = Ok n ->
  exists its, p = joined its /\ Forall item_ok its /\ n = i + Z.of_nat (length its).
Proof.
  revert p i. induction fuel as [|fuel IH]; intros p i Hp; cbn [RLP_items_loop]; rewrite size_eq_0; case_bool_decide as Hne.
  1,3: intros [= <-]; exists []; split_and!; [done|done|cbn; lia].
  { done. }
  intros (s & Hs & Hl)%bind_ok. destruct (sizeAsEncoded_inv p s Hp Hne Hs) as (it & rest & -> & -> & Hit & Hr & _).
  rewrite cropped_from_app in Hl. destruct (IH rest (i + 1) Hr Hl) as (its & -> & Hits & ->). exists (it :: its).
  split_and!; [done|by constructor|cbn [length]; lia].
Qed.

(** Where the walk of the subscript operator ends, [j] items after the first of [its]. *)
Lemma RLP_next_joined its pre it j :
  item_ok it -> Forall item_ok its ->
  RLP_next (pre ++ item it ++ joined its) j (item it) (size (pre ++ item it)) =
  Ok (if decide (j <= length its)%nat
      then (default [] (item <$> (it :: its) !! j), size (pre ++ joined (take (S j) (it :: its))), O)
      else ([], size (pre ++ joined (it :: its)), (j - length its - 1)%nat)).
Proof.
  intros Hit Hits. revert pre it j Hit. induction Hits as [|it' its Hit' Hits IH]; intros pre it j Hit.
  - destruct j as [|j]; cbn [RLP_next]; [by rewrite decide_True by (cbn; lia); cbn; rewrite app_nil_r|].
    rewrite size_eq_0, bool_decide_eq_false_2 by by apply item_nonempty. cbn [joined fmap list_fmap mjoin list_join].
    rewrite !app_nil_r. replace (cropped_from (pre ++ item it) (size (pre ++ item it))) with (@nil Z)
      by (symmetry; rewrite <- (app_nil_r (pre ++ item it)) at 1; apply cropped_from_app).
    change (sizeAsEncoded []) with (@Ok rlp_error Z 0). cbn [mbind result_bind]. change (cropped [] 0 0) with (@nil Z).
    rewrite size_nil, Z.add_0_r. rewrite decide_False by (cbn; lia).
    destruct j; [done|]. cbn [RLP_next]. change (size [] =? 0) with true. done.
  - destruct j as [|j]; cbn [RLP_next].
    { rewrite decide_True by lia. cbn. by rewrite app_nil_r. }
    rewrite size_eq_0, bool_decide_eq_false_2 by by apply item_nonempty.
    rewrite joined_cons, !app_assoc, <- (app_assoc (pre ++ item it)), cropped_from_app.
    rewrite sizeAsEncoded_item by (done || by apply joined_bytes). cbn [mbind result_bind]. rewrite cropped_0_app.
    rewrite <- size_app, IH by done. f_equal. cbn [length].
    destruct (decide (j <= length its)%nat), (decide (S j <= S (length its))%nat); try lia.
    + cbn [lookup list_lookup take]. rewrite !joined_cons, !app_assoc. done.
    + rewrite !joined_cons, !app_assoc. done.
Qed.

(** The subscript operator. *)
Lemma RLP_at_joined d its i :
  RLP_payload d = Ok (joined its) -> Forall item_ok its -> RLP_at d i = Ok (default [] (item <$> its !! i)).
Proof.
  intros Hp Hits. unfold RLP_at. rewrite Hp. cbn [mbind result_bind].
  destruct its as [|it its]; [by destruct i|]. apply Forall_cons in Hits as [Hit Hits]. rewrite joined_cons.
  rewrite sizeAsEncoded_item by (done || by apply joined_bytes). cbn [mbind result_bind]. rewrite cropped_0_app.
  pose proof (RLP_next_joined its [] it i Hit Hits) as Hn. cbn [app] in Hn. rewrite Hn. cbn [mbind result_bind].
  destruct (decide _) as [Hle|Hgt].
  - destruct (lookup_lt_is_Some_2 (it :: its) i) as [x Hx]; [cbn; lia|]. rewrite Hx. cbn. apply RLP_of_item.
    assert (Forall item_ok (it :: its)) as HF by (by constructor). by eapply Forall_lookup_1 in Hx.
  - rewrite (lookup_ge_None_2 (it :: its)) by (cbn; lia). done.
Qed.

(** ** Trees *)

Inductive rlp := RStr (b : bytes) | RList (l : list rlp).

Fixpoint encode (t : rlp) : bytes :=
  match t with
  | RStr b => rlp_append b
  | RList l => rlp_appendList (mjoin (encode <$> l))
  end.

(** A client that reads a view completely. *)
Fixpoint decode (fuel : nat) (d : bytes) : result rlp_error rlp :=
  match fuel with
  | O => Throw OutOfBounds
  | S fuel =>
      d ← RLP_of VeryStrict d;
      guard! negb (RLP_isNull d) else BadRLP;
      if RLP_isData d then b ← RLP_toBytes VeryStrict d; Ok (RStr b)
      else
        n ← RLP_itemCount d;
        l ← mapM (fun i => x ← RLP_at d i; decode fuel x) (seq 0 (Z.to_nat n));
        Ok (RList l)
  end.

Definition tree_item (t : rlp) : bool * bytes :=
  match t with
  | RStr b => (false, b)
  | RList l => (true, mjoin (encode <$> l))
  end.

Lemma encode_item t : encode t = item (tree_item t).
Proof. destruct t as [b|l]; cbn [encode tree_item]; [apply rlp_append_header|done]. Qed.

Lemma mapM_seq_Ok {A} (f : nat -> result rlp_error A) (l : list A) k :
  (forall i x, l !! i = Some x -> f (k + i)%nat = Ok x) -> mapM f (seq k (length l)) = Ok l.
Proof.
  revert k. induction l as [|x l IH]; intros k Hf; [done|]. cbn [length seq mapM].
  rewrite <- (Nat.add_0_r k) at 1. rewrite (Hf O x) by done. cbn. rewrite IH; [done|].
  intros i y Hy. rewrite Nat.add_succ_l, <- Nat.add_succ_r. by apply Hf.
Qed.

Lemma mapM_seq_inv {A} (f : nat -> result rlp_error A) (l : list A) k n :
  mapM f (seq k n) = Ok l -> length l = n /\ forall i x, l !! i = Some x -> f (k + i)%nat = Ok x.
Proof.
  revert k l. induction n as [|n IH]; intros k l; cbn [seq mapM]; [intros [= <-]; done|].
  intros (x & Hx & (l' & Hl & [= <-])%bind_ok)%bind_ok. apply IH in Hl as [<- Hl]. split; [done|].
  intros [|i] y; cbn; [intros [= <-]; by rewrite Nat.add_0_r|]. intros Hy. rewrite Nat.add_succ_r, <- Nat.add_succ_l. by apply Hl.
Qed.

Lemma joined_tree_item l : joined (tree_item <$> l) = mjoin (encode <$> l).
Proof. unfold joined. rewrite <- list_fmap_compose. f_equal. apply list_fmap_ext. intros _ t _. symmetry. apply encode_item. Qed.

Lemma tree_item_ok t : Forall is_byte (encode t) -> size (encode t) < length_limit -> item_ok (tree_item t).
Proof.
  rewrite encode_item, item_size. unfold item. intros [_ Hp]%Forall_app Hs. split; [done|].
  pose proof (size_nonneg (item_header (tree_item t).1 (tree_item t).2)). lia.
Qed.

Lemma mjoin_elem {A} (l : list (list A)) x : x ∈ l -> exists a b, mjoin l = a ++ x ++ b.
Proof.
  induction 1 as [x l|x y l _ (a & b & Heq)]; [by exists [], (mjoin l)|]. exists (y ++ a), b. cbn.
  rewrite <- app_assoc, <- Heq. done.
Qed.

(** A child is shorter than the list it is in, and has bytes when the list has. *)
Lemma encode_child t l :
  t ∈ l -> Forall is_byte (encode (RList l)) ->
  Forall is_byte (encode t) /\ (length (encode t) < length (encode (RList l)))%nat.
Proof.
  intros Hin. rewrite (encode_item (RList l)). unfold item. cbn [tree_item fst snd].
  destruct (mjoin_elem (encode <$> l) (encode t)) as (a & b & ->); [by apply list_elem_of_fmap_2|].
  intros Hb. pose proof Hb as (_ & (_ & (Ht & _)%Forall_app)%Forall_app)%Forall_app. split; [done|].
  rewrite !length_app. assert (item_header true (a ++ encode t ++ b) <> []).
  { cbn. unfold list_header. by destruct (_ <? _). }
  destruct (item_header true (a ++ encode t ++ b)); [done|]. cbn. lia.
Qed.

Lemma RLP_list_item its (rest : bytes) :
  item_ok (true, joined its) -> Forall item_ok its ->
  RLP_isNull (item (true, joined its)) = false /\ RLP_isData (item (true, joined its)) = false /\
  RLP_itemCount (item (true, joined its)) = Ok (Z.of_nat (length its)).
Proof.
  intros Hok Hits. pose proof (item_view _ [] Hok) as Hv. rewrite app_nil_r in Hv. destruct Hv as [Hn Hd Hl _ _ _]; [done|].
  split_and!; [done|done|]. unfold RLP_itemCount, RLP_items. rewrite Hl. cbn [fst].
  pose proof (RLP_payload_item _ [] Hok) as Hp. rewrite app_nil_r in Hp. rewrite Hp by done. cbn [mbind result_bind snd].
  by rewrite RLP_items_loop_joined.
Qed.

Lemma decode_encode fuel t :
  Forall is_byte (encode t) -> size (encode t) < length_limit -> (length (encode t) <= fuel)%nat -> decode fuel (encode t) = Ok t.
Proof.
  revert t. induction fuel as [|fuel IH]; intros t Hb Hs Hf; pose proof (tree_item_ok t Hb Hs) as Hok;
    pose proof (item_nonempty _ Hok) as Hne; rewrite <- encode_item in Hne; [destruct (encode t); [done|cbn in Hf; lia]|].
  cbn [decode]. rewrite encode_item, RLP_of_item by done. cbn [mbind result_bind]. destruct t as [b|l].
  - pose proof (item_view _ [] Hok) as Hv. rewrite app_nil_r in Hv. destruct Hv as [Hn Hd _ _ _ _]; [done|].
    rewrite Hn, Hd. cbn [negb tree_item fst]. pose proof (RLP_toBytes_item VeryStrict _ [] Hok) as Ht. rewrite app_nil_r in Ht.
    cbn [tree_item fst snd] in Ht. by rewrite Ht.
  - cbn [tree_item] in *. rewrite <- joined_tree_item in *.
    assert (Hkids : Forall item_ok (tree_item <$> l)).
    { apply Forall_fmap, Forall_forall. intros t Hin. destruct (encode_child t l Hin Hb) as [Htb Htl].
      apply tree_item_ok; [done|]. unfold size in *. cbn. lia. }
    destruct (RLP_list_item _ [] Hok Hkids) as (-> & -> & ->). cbn [negb mbind result_bind].
    rewrite length_fmap, Nat2Z.id. rewrite (mapM_seq_Ok _ l O); [done|]. intros i t Ht. rewrite Nat.add_0_l.
    pose proof (RLP_payload_item _ [] Hok) as Hp. rewrite app_nil_r in Hp.
    rewrite (RLP_at_joined _ _ i (Hp ltac:(done)) Hkids). cbn [mbind result_bind].
    rewrite list_lookup_fmap, Ht. cbn. rewrite <- encode_item.
    destruct (encode_child t l) as [Htb Htl]; [by eapply list_elem_of_lookup_2|done|]. apply IH; [done|unfold size in *; lia|lia].
Qed.

Lemma encode_decode fuel d t : Forall is_byte d -> decode fuel d = Ok t -> encode t = d.
Proof.
  revert d t. induction fuel as [|fuel IH]; intros d t Hd; [done|]. cbn [decode].
  intros (d' & Hd' & Hdec)%bind_ok. destruct (RLP_of_VeryStrict_inv d d' Hd Hd') as [-> Hitem].
  destruct (RLP_isNull d) eqn:Hnull; [done|]. cbn [negb] in Hdec.
  destruct Hitem as ([k p] & -> & Hok); [by intros ->|]. pose proof (item_view _ [] Hok) as Hv. rewrite app_nil_r in Hv.
  destruct Hv as [_ Hdt Hlt _ _ _]; [done|]. cbn [fst] in *. rewrite Hdt in Hdec. destruct k; cbn [negb] in Hdec.
  - apply bind_ok in Hdec as (n & Hn & (l & Hl & [= <-])%bind_ok).
    unfold RLP_itemCount, RLP_items in Hn. rewrite Hlt in Hn. pose proof (RLP_payload_item _ [] Hok) as Hp. rewrite app_nil_r in Hp.
    specialize (Hp ltac:(done)). rewrite Hp in Hn. cbn [mbind result_bind snd] in Hn.
    apply RLP_items_loop_inv in Hn as (its & -> & Hits & ->); [|by apply Hok]. rewrite Z.add_0_l, Nat2Z.id in Hl.
    apply mapM_seq_inv in Hl as [Hlen Hl]. rewrite encode_item. cbn [tree_item]. do 2 f_equal. unfold joined. f_equal.
    apply list_eq. intros i. rewrite !list_lookup_fmap. destruct (l !! i) as [t|] eqn:Ht.
    + destruct (lookup_lt_is_Some_2 its i) as [it Hit]; [rewrite <- Hlen; by eapply lookup_lt_Some|]. rewrite Hit. cbn. f_equal.
      specialize (Hl i t Ht). rewrite Nat.add_0_l, (RLP_at_joined _ its i Hp Hits), Hit in Hl.
      cbn in Hl. apply IH in Hl; [done|]. apply item_bytes. by eapply Forall_lookup_1 in Hit.
    + rewrite (lookup_ge_None_2 its); [done|]. apply lookup_ge_None in Ht. lia.
  - apply bind_ok in Hdec as (b & Hb & [= <-]). pose proof (RLP_toBytes_item VeryStrict _ [] Hok) as Ht. rewrite app_nil_r in Ht.
    rewrite Ht in Hb by done. injection Hb as <-. by rewrite encode_item.
Qed.

(** Every tree has exactly one encoding. Reading a view of bytes completely through the
    methods of [RLP] (strict construction, kinds, item counts, subscripts and contents)
    succeeds with a tree exactly when the view is what [RLPStream] writes for that tree; the
    bound on the size is the one that the code itself sets. *)
Theorem rlp_canonical (d : bytes) (t : rlp) (Hd : Forall is_byte d) (Hs : size d < length_limit) :
  decode (length d) d = Ok t <-> encode t = d.
Proof.
  split; [by apply encode_decode|]. intros <-. by apply decode_encode.
Qed.

Lemma rlp_canonical_witness :
  exists d, decode (length d) d = Ok (RList [RStr [0x41]; RStr (replicate 60 0xff); RList []; RStr [0x80]]) /\ length d = 68%nat.
Proof.
  set (t := RList [RStr [0x41]; RStr (replicate 60 0xff); RList []; RStr [0x80]]).
  exists (encode t). split; [|reflexivity]. apply rlp_canonical; [|vm_compute; reflexivity|reflexivity].
  apply byte_list_ok. vm_compute. reflexivity.
Defined.

(** *** The cache of the subscript operator *)

(** The cache is fresh or holds an item it has walked to. *)
Definition cache_fits (its : list (bool * bytes)) (c : rlp_cache) : Prop :=
  m_lastIndex c = 2 ^ 64 - 1 \/
  exists k : nat, m_lastIndex c = Z.of_nat k /\ (k <= length its)%nat /\
    m_lastItem c = default [] (item <$> its !! k) /\ m_lastEnd c = size (joined (take (S k) its)).

Lemma joined_app a b : joined (a ++ b) = joined a ++ joined b.
Proof. unfold joined. by rewrite fmap_app, join_app. Qed.

(** The walk from any item that the cache may hold. *)
Lemma RLP_next_from its (k i : nat) :
  Forall item_ok its -> (k <= length its)%nat -> (k <= i)%nat ->
  exists x e left_over, RLP_next (joined its) (i - k) (default [] (item <$> its !! k)) (size (joined (take (S k) its))) = Ok (x, e, left_over) /\
    x = default [] (item <$> its !! i) /\ (left_over <= i)%nat /\ (i - left_over <= length its)%nat /\
    x = default [] (item <$> its !! (i - left_over)%nat) /\ e = size (joined (take (S (i - left_over)) its)).
Proof.
  intros Hits Hk Hi. destruct (its !! k) as [it|] eqn:Hit; cbn [fmap option_fmap option_map default id].
  - pose proof (Forall_lookup_1 _ _ _ _ Hits Hit) as Hok. pose proof (take_drop_middle its k it Hit) as Hsplit.
    assert (Hd : Forall item_ok (drop (S k) its)) by by apply Forall_drop. apply lookup_lt_Some in Hit as Hlt.
    assert (Hlen : length (drop (S k) its) = (length its - S k)%nat) by apply length_drop.
    assert (Htk : forall j, (k + j <= length its)%nat -> joined (take k its) ++ joined (take j (it :: drop (S k) its)) = joined (take (k + j) its)).
    { intros j Hj. rewrite <- joined_app. f_equal. rewrite <- Hsplit at 3. rewrite take_app, take_take, length_take.
      f_equal; [f_equal; lia|f_equal; lia]. }
    assert (Hp : joined its = joined (take k its) ++ item it ++ joined (drop (S k) its)) by (rewrite <- Hsplit at 1; by rewrite joined_app).
    assert (He : size (joined (take (S k) its)) = size (joined (take k its) ++ item it)).
    { rewrite <- Nat.add_1_r, <- Htk by lia. cbn [take]. by rewrite joined_cons, take_0, app_nil_r. }
    rewrite He, Hp, RLP_next_joined by done.
    assert (Hlook : its !! i = (it :: drop (S k) its) !! (i - k)%nat).
    { rewrite <- Hsplit at 1. rewrite lookup_app_r; rewrite length_take; [f_equal; lia|lia]. }
    destruct (decide _) as [Hle|Hgt]; eexists _, _, _; (split; [reflexivity|]).
    + split_and!; [by rewrite Hlook|lia|lia| |].
      * by rewrite Nat.sub_0_r, Hlook.
      * f_equal. rewrite Htk by lia. do 2 f_equal. lia.
    + assert (i - (i - k - length (drop (S k) its) - 1) = length its)%nat as -> by lia.
      split_and!; [by rewrite lookup_ge_None_2 by lia|lia|lia|by rewrite lookup_ge_None_2|].
      f_equal. rewrite joined_cons, <- Hp. by rewrite take_ge by lia.
  - apply lookup_ge_None in Hit. assert (k = length its) as -> by lia.
    assert (Hn : forall j e, RLP_next (joined its) j [] e = Ok ([], e, j)) by (intros [|j] e; done).
    rewrite Hn. eexists _, _, _. split; [reflexivity|].
    assert (i - (i - length its) = length its)%nat as -> by lia.
    by split_and!; [rewrite lookup_ge_None_2 by lia|lia|lia|rewrite lookup_ge_None_2|].
Qed.

Lemma RLP_subscript_ok d its c i :
  RLP_payload d = Ok (joined its) -> Forall item_ok its -> cache_fits its c -> Z.of_nat i < 2 ^ 64 - 1 ->
  exists c', RLP_subscript d c i = Ok (default [] (item <$> its !! i), c') /\ cache_fits its c'.
Proof.
  intros Hp Hits Hc Hi. unfold RLP_subscript.
  assert (Hreset : exists c1 (k : nat), (if Z.of_nat i <? m_lastIndex c then
      p ← RLP_payload d; e ← sizeAsEncoded p; Ok {| m_lastIndex := 0; m_lastEnd := e; m_lastItem := cropped p 0 e |} else Ok c) = Ok c1 /\
      m_lastIndex c1 = Z.of_nat k /\ (k <= length its)%nat /\ (k <= i)%nat /\
      m_lastItem c1 = default [] (item <$> its !! k) /\ m_lastEnd c1 = size (joined (take (S k) its))).
  { destruct (Z.ltb_spec (Z.of_nat i) (m_lastIndex c)) as [Hlt|Hge].
    - rewrite Hp. cbn [mbind result_bind]. destruct its as [|it its]; [eexists _, O; split; [reflexivity|]; cbn; split_and!; done || lia|].
      apply Forall_cons in Hits as [Hit Hits]. rewrite joined_cons, sizeAsEncoded_item by (done || by apply joined_bytes).
      cbn [mbind result_bind]. rewrite cropped_0_app. eexists _, O. split; [reflexivity|]. cbn.
      split_and!; [done|lia|lia|done|]. by rewrite take_0, app_nil_r.
    - destruct Hc as [Hc|(k & Hk & Hle & Hx & He)]; [lia|]. exists c, k. split_and!; try done. lia. }
  destruct Hreset as (c1 & k & -> & Hk & Hle & Hki & Hx & He). cbn [mbind result_bind]. rewrite Hp. cbn [mbind result_bind].
  rewrite Hk, Hx, He. replace (Z.to_nat (Z.of_nat i - Z.of_nat k)) with (i - k)%nat by lia.
  destruct (RLP_next_from its k i Hits Hle Hki) as (x & e & lo & -> & Hxi & Hlo & Hlen & Hxk & Hek). cbn [mbind result_bind].
  assert (Hof : RLP_of (Z.lor ThrowOnFail FailIfTooSmall) x = Ok x).
  { rewrite Hxi. destruct (its !! i) as [it|] eqn:Hit; [|done]. apply RLP_of_item. by eapply Forall_lookup_1 in Hit. }
  rewrite Hof. cbn [mbind result_bind]. eexists. split; [by rewrite Hxi|]. right. exists (i - lo)%nat. cbn. split_and!; [lia|done|congruence|done].
Qed.

Fixpoint subscripts (d : bytes) (c : rlp_cache) (ix : list nat) : result rlp_error (list bytes) :=
  match ix with
  | [] => Ok []
  | i :: ix => '(x, c) ← RLP_subscript d c i; l ← subscripts d c ix; Ok (x :: l)
  end.

(** The cache of the subscript operator is invisible. On a list whose items can be
    counted, any sequence of subscripts on one object, in any order and past the end, returns
    what each of them returns on an object of its own. *)
Theorem subscript_cache_invisible (d : bytes) (n : Z) (ix : list nat) :
  Forall is_byte d -> RLP_isList d = true -> RLP_items d = Ok n -> Forall (fun i => Z.of_nat i < 2 ^ 64 - 1) ix ->
  exists l, subscripts d rlp_cache_empty ix = Ok l /\ mapM (RLP_at d) ix = Ok l.
Proof.
  intros Hd Hl Hn His. unfold RLP_items in Hn. rewrite Hl in Hn. apply bind_ok in Hn as (p & Hp & Hn).
  assert (Hpb : Forall is_byte p).
  { unfold RLP_payload in Hp. apply bind_ok in Hp as (len & _ & Hp). destruct (negb _); [|done]. injection Hp as <-.
    unfold cropped. destruct (_ && _); [|done]. by apply Forall_take, Forall_drop. }
  apply RLP_items_loop_inv in Hn as (its & -> & Hits & _); [|done].
  assert (Hc : cache_fits its rlp_cache_empty) by by left. revert Hc. generalize rlp_cache_empty.
  induction His as [|i ix Hi His IH]; intros c Hc; [by exists []|].
  destruct (RLP_subscript_ok d its c i Hp Hits Hc Hi) as (c' & He & Hc'). destruct (IH c' Hc') as (l & Hl1 & Hl2).
  eexists. cbn [subscripts mapM]. rewrite He. cbn [mbind result_bind]. rewrite Hl1, (RLP_at_joined d its i Hp Hits). cbn. by rewrite Hl2.
Qed.

Lemma subscript_cache_invisible_witness :
  let d := encode (RList [RStr [1]; RList [RStr [2; 3]]; RStr []]) in
  exists l, subscripts d rlp_cache_empty [2; 0; 1; 7; 1]%nat = Ok l /\ mapM (RLP_at d) [2; 0; 1; 7; 1]%nat = Ok l.
Proof.
  intros d. apply (subscript_cache_invisible d 3); [|reflexivity|reflexivity|repeat constructor; lia].
  apply byte_list_ok. vm_compute. reflexivity.
Defined.
