(* ===== verification/Transaction.v ===== *)
(** * Transactions, their asset payloads and their wire format
    (src/src/primitives/transaction.h, src/src/primitives/transaction.cpp)

    A Syscoin transaction is a Bitcoin transaction whose version selects a
    meaning and whose first unspendable output may carry a payload.  For asset
    transactions the payload lists, per asset, which outputs receive how much;
    [LoadAssets] copies that into the outputs when a transaction is read.

    A payload that fails to parse is [None] (the C++ sets the object to null and
    returns false or -1); a read that throws is [Throw] with the message.

    Shown here: the wire format has exactly one encoding per transaction and reads
    back what was written, witness and data-availability blob included; the total
    of the outputs is exact and in range whenever it is returned; the asset totals
    are the per-asset sums; loading assets writes exactly the listed outputs. *)

From stdpp Require Import strings.
From S2P Require Import Prelude Serialize Amounts Script.

(** ** Transaction versions *)

Definition SYSCOIN_TX_VERSION_MN_REGISTER : Z := 80.
Definition SYSCOIN_TX_VERSION_MN_UPDATE_SERVICE : Z := 81.
Definition SYSCOIN_TX_VERSION_MN_UPDATE_REGISTRAR : Z := 82.
Definition SYSCOIN_TX_VERSION_MN_UPDATE_REVOKE : Z := 83.
Definition SYSCOIN_TX_VERSION_MN_QUORUM_COMMITMENT : Z := 85.
Definition SYSCOIN_TX_VERSION_NEVM_DATA_SHA3 : Z := 137.
Definition SYSCOIN_TX_VERSION_ALLOCATION_BURN_TO_SYSCOIN : Z := 138.
Definition SYSCOIN_TX_VERSION_SYSCOIN_BURN_TO_ALLOCATION : Z := 139.
Definition SYSCOIN_TX_VERSION_ALLOCATION_MINT : Z := 140.
Definition SYSCOIN_TX_VERSION_ALLOCATION_BURN_TO_NEVM : Z := 141.
Definition SYSCOIN_TX_VERSION_ALLOCATION_SEND : Z := 142.
Definition SYSCOIN_TX_VERSION_ALLOCATION_BURN_TO_SYSCOIN_LEGACY : Z := 0x7400.
Definition SYSCOIN_TX_VERSION_ALLOCATION_BURN_TO_SYSCOIN_LEGACY1 : Z := 128.
Definition MAX_MEMO : Z := 256.
Definition MAX_NEVM_DATA_BLOB : Z := 2097152.
Definition NEVM_DATA_LEGACY_VERSIONHASH_SIZE : Z := 32.
Definition NEVM_DATA_VERSIONED_HASH_SIZE : Z := 33.
Definition NEVM_DATA_LEGACY_VERSION_BYTE : Z := 0x00.
Definition NEVM_DATA_BLAKE2S_VERSION_BYTE : Z := 0x01.

Definition IsSyscoinMintTx (nVersion : Z) : bool := nVersion =? SYSCOIN_TX_VERSION_ALLOCATION_MINT.

Definition IsAssetAllocationTx (nVersion : Z) : bool :=
  (nVersion =? SYSCOIN_TX_VERSION_ALLOCATION_BURN_TO_NEVM) ||
  (nVersion =? SYSCOIN_TX_VERSION_ALLOCATION_BURN_TO_SYSCOIN) ||
  (nVersion =? SYSCOIN_TX_VERSION_SYSCOIN_BURN_TO_ALLOCATION) ||
  (nVersion =? SYSCOIN_TX_VERSION_ALLOCATION_SEND).

Definition IsSyscoinNEVMDataTx (nVersion : Z) : bool := nVersion =? SYSCOIN_TX_VERSION_NEVM_DATA_SHA3.
Definition IsZdagTx (nVersion : Z) : bool := nVersion =? SYSCOIN_TX_VERSION_ALLOCATION_SEND.
Definition IsSyscoinTx (nVersion : Z) : bool := IsAssetAllocationTx nVersion || IsSyscoinMintTx nVersion.

Definition IsMasternodeTx (nVersion : Z) : bool :=
  (nVersion =? SYSCOIN_TX_VERSION_MN_REGISTER) ||
  (nVersion =? SYSCOIN_TX_VERSION_MN_UPDATE_SERVICE) ||
  (nVersion =? SYSCOIN_TX_VERSION_MN_UPDATE_REGISTRAR) ||
  (nVersion =? SYSCOIN_TX_VERSION_MN_UPDATE_REVOKE).

(** ** Data *)

Record COutPoint := { op_hash : uint256; op_n : Z }.

Definition NULL_INDEX : Z := 0xffffffff.
Definition uint256_null : uint256 := replicate 32 0.
Definition uint256_IsNull (h : uint256) : bool := forallb (fun b => b =? 0) h.
Definition COutPoint_IsNull (o : COutPoint) : bool := uint256_IsNull (op_hash o) && (op_n o =? NULL_INDEX).

#[export] Instance COutPoint_eq_dec : EqDecision COutPoint.
Proof. solve_decision. Defined.
#[export] Instance COutPoint_countable : Countable COutPoint.
Proof.
  refine (inj_countable' (fun o => (op_hash o, op_n o)) (fun p => {| op_hash := p.1; op_n := p.2 |}) _).
  by intros [].
Defined.

Record CTxIn := { prevout : COutPoint; scriptSig : bytes; nSequence : Z; scriptWitness : list bytes }.

Record CAssetCoinInfo := { nAsset : Z; asset_nValue : Z }.

Definition CAssetCoinInfo_null : CAssetCoinInfo := {| nAsset := 0; asset_nValue := 0 |}.
Definition CAssetCoinInfo_IsNull (a : CAssetCoinInfo) : bool := nAsset a =? 0.

Record CTxOut := { nValue : Z; scriptPubKey : bytes; assetInfo : CAssetCoinInfo; vchNEVMData : bytes }.

#[export] Instance CAssetCoinInfo_eq_dec : EqDecision CAssetCoinInfo.
Proof. solve_decision. Defined.
#[export] Instance CTxOut_eq_dec : EqDecision CTxOut.
Proof. solve_decision. Defined.

Definition CTxOut_null : CTxOut :=
  {| nValue := -1; scriptPubKey := []; assetInfo := CAssetCoinInfo_null; vchNEVMData := [] |}.
Definition CTxOut_IsNull (o : CTxOut) : bool := nValue o =? -1.

Record CTransaction := { vin : list CTxIn; vout : list CTxOut; nVersion : Z; nLockTime : Z }.

Definition IsCoinBase (tx : CTransaction) : bool :=
  match vin tx with [i] => COutPoint_IsNull (prevout i) | _ => false end.

Definition HasWitness (tx : CTransaction) : bool :=
  existsb (fun i => match scriptWitness i with [] => false | _ => true end) (vin tx).

Definition HasAssets (tx : CTransaction) : bool := IsSyscoinTx (nVersion tx).
Definition IsNEVMData (tx : CTransaction) : bool := IsSyscoinNEVMDataTx (nVersion tx).
Definition IsMnTx (tx : CTransaction) : bool := IsMasternodeTx (nVersion tx).

(** ** Totals *)

Definition is_burn_to_syscoin (version : Z) : bool :=
  (version =? SYSCOIN_TX_VERSION_ALLOCATION_BURN_TO_SYSCOIN) ||
  (version =? SYSCOIN_TX_VERSION_ALLOCATION_BURN_TO_SYSCOIN_LEGACY) ||
  (version =? SYSCOIN_TX_VERSION_ALLOCATION_BURN_TO_SYSCOIN_LEGACY1).

(** The loop of [GetValueOut]; the first output of a burn to SYS is not counted. *)
Fixpoint GetValueOut_loop (version : Z) (bFirstOutput : bool) (nValueOut : Z) (outs : list CTxOut)
    : result string Z :=
  match outs with
  | [] => Ok nValueOut
  | o :: outs =>
      if negb (MoneyRange (nValue o)) || negb (MoneyRange (nValueOut + nValue o))
      then Throw "GetValueOut: value out of range"%string
      else if bFirstOutput && is_burn_to_syscoin version
      then GetValueOut_loop version false nValueOut outs
      else GetValueOut_loop version bFirstOutput (nValueOut + nValue o) outs
  end.

Definition GetValueOut (tx : CTransaction) : result string Z :=
  n ← GetValueOut_loop (nVersion tx) true 0 (vout tx);
  if MoneyRange n then Ok n else Throw "assert"%string.

Definition CalculateOutputValue (tx : CTransaction) : Z :=
  foldl (fun sum o => sum + nValue o) 0 (vout tx).

(** [CAssetsMap]. *)
Abbreviation CAssetsMap := (gmap Z Z).

(** The per-asset totals; on failure also the map as the code leaves it. *)
Fixpoint GetAssetValueOut_loop (outs : list CTxOut) (mapAssetOut : CAssetsMap) : CAssetsMap * bool :=
  match outs with
  | [] => (mapAssetOut, true)
  | o :: outs =>
      if CAssetCoinInfo_IsNull (assetInfo o) then GetAssetValueOut_loop outs mapAssetOut
      else
        let a := nAsset (assetInfo o) in
        let amount := asset_nValue (assetInfo o) in
        let total := default 0 (mapAssetOut !! a) in
        if negb (MoneyRange amount) || negb (MoneyRange (total + amount))
        then (<[a := total]> mapAssetOut, false)
        else GetAssetValueOut_loop outs (<[a := total + amount]> mapAssetOut)
  end.

Definition GetAssetValueOut (tx : CTransaction) (mapAssetOut : CAssetsMap) : CAssetsMap * bool :=
  GetAssetValueOut_loop (vout tx) mapAssetOut.

(** ** The payload output *)

Fixpoint data_output_from (i : Z) (outs : list CTxOut) : Z :=
  match outs with
  | [] => -1
  | o :: outs => if IsUnspendable (scriptPubKey o) then i else data_output_from (i + 1) outs
  end.

Definition GetSyscoinDataOutput (tx : CTransaction) : Z := data_output_from 0 (vout tx).

Definition is_witness_commitment (vchData : bytes) : bool :=
  (36 <=? size vchData) && (byte_at vchData 0 =? 0xaa) && (byte_at vchData 1 =? 0x21) &&
  (byte_at vchData 2 =? 0xa9) && (byte_at vchData 3 =? 0xed).

Definition GetSyscoinData_script (script : bytes) : option bytes :=
  '(opcode, _, pc) ← GetScriptOp script;
  if negb (opcode =? OP_RETURN) then None
  else
    '(_, vchData, pc) ← GetScriptOp pc;
    '(vchData, pc) ←
      (if is_witness_commitment vchData then
         '(_, vchData, pc) ← GetScriptOp pc; Some (vchData, pc)
       else Some (vchData, pc));
    match GetScriptOp pc with
    | Some _ => None
    | None => Some vchData
    end.

Definition GetSyscoinData (tx : CTransaction) : option (bytes * Z) :=
  let nOut := GetSyscoinDataOutput tx in
  if nOut =? -1 then None
  else
    o ← vout tx !! Z.to_nat nOut;
    vchData ← GetSyscoinData_script (scriptPubKey o);
    Some (vchData, nOut).

(** ** Payload formats *)

(** [AmountCompression]. *)
Definition AmountCompression_Ser (val : Z) : bytes :=
  put_varint 64 (default 0 (CompressAmount (wrapu 64 val))).
Definition AmountCompression_Unser : reader Z :=
  v ← ReadVarInt 64; mret (wraps 64 (DecompressAmount v)).

(** [AssetCoinInfoCompression]; the object read into starts as null. *)
Definition AssetCoinInfoCompression_Ser (a : CAssetCoinInfo) : bytes :=
  put_varint 64 (nAsset a) ++ (if 0 <? nAsset a then AmountCompression_Ser (asset_nValue a) else []).
Definition AssetCoinInfoCompression_Unser : reader CAssetCoinInfo :=
  asset ← ReadVarInt 64;
  if 0 <? asset then v ← AmountCompression_Unser; mret {| nAsset := asset; asset_nValue := v |}
  else mret {| nAsset := asset; asset_nValue := 0 |}.

Record CAssetOutValue := { n : Z; out_nValue : Z }.
Record CAssetOut := { key : Z; values : list CAssetOutValue }.

Definition CAssetOutValue_Serialize (v : CAssetOutValue) : bytes :=
  CompactSizeFormatter_Ser (n v) ++ AmountCompression_Ser (out_nValue v).
Definition CAssetOutValue_Unserialize : reader CAssetOutValue :=
  i ← CompactSizeFormatter_Unser 32; a ← AmountCompression_Unser; mret {| n := i; out_nValue := a |}.

(** [CAssetAllocation] is its [voutAssets]. *)
Abbreviation CAssetAllocation := (list CAssetOut).

Section payloads.
(** Elements per allocation batch, a positive number the C++ derives from [sizeof]. *)
Context (batch : Z).

Definition CAssetOut_Serialize (o : CAssetOut) : bytes :=
  put_varint 64 (key o) ++ VectorFormatter_Ser CAssetOutValue_Serialize (values o).
Definition CAssetOut_Unserialize : reader CAssetOut :=
  k ← ReadVarInt 64; v ← VectorFormatter_Unser batch CAssetOutValue_Unserialize;
  mret {| key := k; values := v |}.

Definition CAssetAllocation_Serialize (a : CAssetAllocation) : bytes :=
  VectorFormatter_Ser CAssetOut_Serialize a.
Definition CAssetAllocation_Unserialize : reader CAssetAllocation :=
  VectorFormatter_Unser batch CAssetOut_Unserialize.

(** [CAssetAllocation::UnserializeFromData]: the object and the bytes left. *)
Definition CAssetAllocation_UnserializeFromData (vchData : bytes) : option (CAssetAllocation * Z) :=
  match CAssetAllocation_Unserialize vchData with
  | Ok (a, rest) => Some (a, size rest)
  | Throw _ => None
  end.

Definition allocationMemoThreshold (version : Z) : bool :=
  IsAssetAllocationTx version &&
  negb (version =? SYSCOIN_TX_VERSION_ALLOCATION_BURN_TO_NEVM) &&
  negb (version =? SYSCOIN_TX_VERSION_ALLOCATION_BURN_TO_SYSCOIN).

(** The constructor from a transaction: the null object when it fails. *)
Definition CAssetAllocation_of_tx (tx : CTransaction) : CAssetAllocation :=
  match ('(vchData, _) ← GetSyscoinData tx; CAssetAllocation_UnserializeFromData vchData) with
  | None => []
  | Some (a, bytesLeft) =>
      if (MAX_MEMO <? bytesLeft) && allocationMemoThreshold (nVersion tx) then [] else a
  end.

Record CMintSyscoin := {
  mint_voutAssets : CAssetAllocation;
  posTx : Z; vchTxParentNodes : bytes; nTxRoot : uint256; vchTxPath : bytes;
  posReceipt : Z; vchReceiptParentNodes : bytes; nReceiptRoot : uint256;
  nTxHash : uint256; nBlockHash : uint256 }.

Definition CMintSyscoin_Serialize (m : CMintSyscoin) : bytes :=
  CAssetAllocation_Serialize (mint_voutAssets m) ++ Serialize_uint256 (nTxHash m) ++
  Serialize_uint256 (nBlockHash m) ++ ser_writedata16 (posTx m) ++
  Serialize_bytes (vchTxParentNodes m) ++ Serialize_bytes (vchTxPath m) ++ ser_writedata16 (posReceipt m) ++
  Serialize_bytes (vchReceiptParentNodes m) ++ Serialize_uint256 (nTxRoot m) ++
  Serialize_uint256 (nReceiptRoot m).

Definition CMintSyscoin_Unserialize : reader CMintSyscoin :=
  a ← CAssetAllocation_Unserialize; txhash ← Unserialize_uint256; blockhash ← Unserialize_uint256; ptx ← ser_readdata16;
  txnodes ← Unserialize_bytes; path ← Unserialize_bytes; prcpt ← ser_readdata16;
  rcptnodes ← Unserialize_bytes; txroot ← Unserialize_uint256; rcptroot ← Unserialize_uint256;
  mret {| mint_voutAssets := a; posTx := ptx; vchTxParentNodes := txnodes; nTxRoot := txroot;
          vchTxPath := path; posReceipt := prcpt; vchReceiptParentNodes := rcptnodes;
          nReceiptRoot := rcptroot; nTxHash := txhash; nBlockHash := blockhash |}.

Definition CMintSyscoin_UnserializeFromData (vchData : bytes) : option (CMintSyscoin * Z) :=
  match CMintSyscoin_Unserialize vchData with
  | Ok (m, rest) =>
      if (size (vchTxParentNodes m) <=? posTx m) || (size (vchReceiptParentNodes m) <=? posReceipt m)
      then None else Some (m, size rest)
  | Throw _ => None
  end.

Definition CMintSyscoin_UnserializeFromTx (tx : CTransaction) : option CMintSyscoin :=
  '(vchData, _) ← GetSyscoinData tx;
  '(m, left_over) ← CMintSyscoin_UnserializeFromData vchData;
  if left_over =? 0 then Some m else None.

Definition CMintSyscoin_null : CMintSyscoin :=
  {| mint_voutAssets := []; posTx := 0; vchTxParentNodes := []; nTxRoot := uint256_null; vchTxPath := []; posReceipt := 0;
     vchReceiptParentNodes := []; nReceiptRoot := uint256_null; nTxHash := uint256_null; nBlockHash := uint256_null |}.

(** The constructor from a transaction. *)
Definition CMintSyscoin_of_tx (tx : CTransaction) : CMintSyscoin := default CMintSyscoin_null (CMintSyscoin_UnserializeFromTx tx).

Definition CMintSyscoin_IsNull (m : CMintSyscoin) : bool :=
  match mint_voutAssets m with [] => (posTx m =? 0) && (posReceipt m =? 0) | _ => false end.

Record CBurnSyscoin := { burn_voutAssets : CAssetAllocation; vchNEVMAddress : bytes }.

Definition CBurnSyscoin_Serialize (b : CBurnSyscoin) : bytes :=
  CAssetAllocation_Serialize (burn_voutAssets b) ++ Serialize_bytes (vchNEVMAddress b).
Definition CBurnSyscoin_Unserialize : reader CBurnSyscoin :=
  a ← CAssetAllocation_Unserialize; addr ← Unserialize_bytes;
  mret {| burn_voutAssets := a; vchNEVMAddress := addr |}.

Definition CBurnSyscoin_UnserializeFromTx (tx : CTransaction) : option CBurnSyscoin :=
  '(vchData, _) ← GetSyscoinData tx;
  match CBurnSyscoin_Unserialize vchData with
  | Ok (b, rest) => if size rest =? 0 then Some b else None
  | Throw _ => None
  end.

Definition CBurnSyscoin_null : CBurnSyscoin := {| burn_voutAssets := []; vchNEVMAddress := [] |}.

Definition CBurnSyscoin_of_tx (tx : CTransaction) : CBurnSyscoin := default CBurnSyscoin_null (CBurnSyscoin_UnserializeFromTx tx).

Definition CBurnSyscoin_IsNull (b : CBurnSyscoin) : bool :=
  match vchNEVMAddress b, burn_voutAssets b with [], [] => true | _, _ => false end.

(** ** [LoadAssets] *)

Definition set_assetInfo (o : CTxOut) (a : CAssetCoinInfo) : CTxOut :=
  {| nValue := nValue o; scriptPubKey := scriptPubKey o; assetInfo := a; vchNEVMData := vchNEVMData o |}.

Fixpoint load_values (asset : Z) (vs : list CAssetOutValue) (outs : list CTxOut) : result string (list CTxOut) :=
  match vs with
  | [] => Ok outs
  | v :: vs =>
      if Z.of_nat (length outs) <=? n v then Throw "asset vout out of range"%string
      else if negb (MoneyRange (out_nValue v)) then Throw "asset vout value out of range"%string
      else
        load_values asset vs
          (alter (fun o => set_assetInfo o {| nAsset := asset; asset_nValue := out_nValue v |})
                 (Z.to_nat (n v)) outs)
  end.

Fixpoint load_assets (a : CAssetAllocation) (outs : list CTxOut) : result string (list CTxOut) :=
  match a with
  | [] => Ok outs
  | it :: a =>
      match values it with
      | [] => Throw "asset empty outputs"%string
      | _ => outs ← load_values (key it) (values it) outs; load_assets a outs
      end
  end.

Definition set_vout (tx : CTransaction) (outs : list CTxOut) : CTransaction :=
  {| vin := vin tx; vout := outs; nVersion := nVersion tx; nLockTime := nLockTime tx |}.

Definition LoadAssets (tx : CTransaction) : result string CTransaction :=
  if HasAssets tx then
    let allocation := CAssetAllocation_of_tx tx in
    match allocation with
    | [] => Throw "Unknown asset data"%string
    | _ => outs ← load_assets allocation (vout tx); mret (set_vout tx outs)
    end
  else Ok tx.

End payloads.

(** ** The wire format

    [nType] and [nStreamVersion] are the stream's type and version; the
    transaction version the stream carries ([SetTxVersion]) is an argument of the
    output format.  Streams of type exactly [SER_SIZE] count bytes and hold none. *)

Definition SER_NETWORK : Z := 1.
Definition SER_NO_PODA : Z := 16.
Definition SERIALIZE_TRANSACTION_NO_WITNESS : Z := 0x40000000.
Definition SERIALIZE_TRANSACTION_PODA : Z := 0x04000000.

Definition COutPoint_Serialize (o : COutPoint) : bytes := Serialize_uint256 (op_hash o) ++ ser_writedata32 (op_n o).
Definition COutPoint_Unserialize : reader COutPoint :=
  h ← Unserialize_uint256; i ← ser_readdata32; mret {| op_hash := h; op_n := i |}.

Definition CTxIn_Serialize (i : CTxIn) : bytes :=
  COutPoint_Serialize (prevout i) ++ Serialize_bytes (scriptSig i) ++ ser_writedata32 (nSequence i).
Definition CTxIn_Unserialize : reader CTxIn :=
  o ← COutPoint_Unserialize; sig ← Unserialize_bytes; q ← ser_readdata32;
  mret {| prevout := o; scriptSig := sig; nSequence := q; scriptWitness := [] |}.

Section wire.
Context (batch nType nStreamVersion : Z).

(** Whether an output with this script, in a transaction of this version, is
    followed by its data-availability blob. *)
Definition carries_blob (txVersion : Z) (script : bytes) : bool :=
  IsUnspendable script && IsSyscoinNEVMDataTx txVersion &&
  (Z.land nType SER_NO_PODA =? 0) && negb (Z.land nType SER_NETWORK =? 0).

Definition CTxOut_Serialize (txVersion : Z) (o : CTxOut) : bytes :=
  Serialize_i64 (nValue o) ++ Serialize_bytes (scriptPubKey o) ++
  (if carries_blob txVersion (scriptPubKey o) then Serialize_bytes (vchNEVMData o) else []).
Definition CTxOut_Unserialize (txVersion : Z) : reader CTxOut :=
  v ← Unserialize_i64; script ← Unserialize_bytes;
  blob ← (if carries_blob txVersion script then Unserialize_bytes else mret []);
  mret {| nValue := v; scriptPubKey := script; assetInfo := CAssetCoinInfo_null; vchNEVMData := blob |}.

Definition fAllowWitness : bool := Z.land nStreamVersion SERIALIZE_TRANSACTION_NO_WITNESS =? 0.

Definition stack_Serialize (i : CTxIn) : bytes := VectorFormatter_Ser Serialize_bytes (scriptWitness i).

Definition SerializeTransaction (tx : CTransaction) : bytes :=
  let flags := if fAllowWitness && HasWitness tx then 1 else 0 in
  Serialize_i32 (nVersion tx) ++
  (if flags =? 0 then [] else VectorFormatter_Ser CTxIn_Serialize [] ++ ser_writedata8 flags) ++
  VectorFormatter_Ser CTxIn_Serialize (vin tx) ++
  VectorFormatter_Ser (CTxOut_Serialize (nVersion tx)) (vout tx) ++
  (if Z.testbit flags 0 then mjoin (stack_Serialize <$> vin tx) else []) ++
  ser_writedata32 (nLockTime tx).

Definition set_witness (i : CTxIn) (stack : list bytes) : CTxIn :=
  {| prevout := prevout i; scriptSig := scriptSig i; nSequence := nSequence i; scriptWitness := stack |}.

Fixpoint read_stacks (ins : list CTxIn) : reader (list CTxIn) :=
  match ins with
  | [] => mret []
  | i :: ins =>
      st ← VectorFormatter_Unser batch Unserialize_bytes;
      l ← read_stacks ins; mret (set_witness i st :: l)
  end.

(** Inputs and outputs after the version, with the flags byte. *)
Definition read_vin_vout (version : Z) : reader (Z * list CTxIn * list CTxOut) :=
  let Unser_vin := VectorFormatter_Unser batch CTxIn_Unserialize in
  let Unser_vout := VectorFormatter_Unser batch (CTxOut_Unserialize version) in
  ins ← Unser_vin;
  if (Z.of_nat (length ins) =? 0) && fAllowWitness then
    flags ← ser_readdata8;
    if flags =? 0 then mret (flags, [], [])
    else ins ← Unser_vin; outs ← Unser_vout; mret (flags, ins, outs)
  else outs ← Unser_vout; mret (0, ins, outs).

(** The witness stacks, when the flags announce them. *)
Definition read_witness (version flags : Z) (ins : list CTxIn) (outs : list CTxOut) : reader (Z * list CTxIn) :=
  if Z.testbit flags 0 && fAllowWitness then
    ins' ← read_stacks ins;
    if HasWitness {| vin := ins'; vout := outs; nVersion := version; nLockTime := 0 |}
    then mret (Z.lxor flags 1, ins')
    else fail "Superfluous witness record"%string
  else mret (flags, ins).

Definition finish_tx (tx : CTransaction) : reader CTransaction := fun s =>
  tx ← LoadAssets batch tx; Ok (tx, s).

Definition UnserializeTransaction : reader CTransaction :=
  version ← Unserialize_i32;
  vv ← read_vin_vout version;
  let '(flags, ins, outs) := vv in
  w ← read_witness version flags ins outs;
  let '(flags, ins) := w in
  if negb (flags =? 0) then fail "Unknown transaction optional data"%string
  else
    lockTime ← ser_readdata32;
    finish_tx {| vin := ins; vout := outs; nVersion := version; nLockTime := lockTime |}.

End wire.

(** [ComputeHash] and [ComputeWitnessHash]; [Hash] is double SHA-256. *)
Definition SER_GETHASH : Z := 4.
Definition SER_SIZE : Z := 8.
Definition ComputeHash (Hash : bytes -> uint256) (tx : CTransaction) : uint256 :=
  Hash (SerializeTransaction SER_GETHASH SERIALIZE_TRANSACTION_NO_WITNESS tx).
Definition ComputeWitnessHash (Hash : bytes -> uint256) (tx : CTransaction) : uint256 :=
  if negb (HasWitness tx) then ComputeHash Hash tx else Hash (SerializeTransaction SER_GETHASH 0 tx).

(** ** Data-availability commitments *)

Definition IsValidNEVMVersionHash (vchVersionHash : bytes) : bool :=
  if size vchVersionHash =? NEVM_DATA_LEGACY_VERSIONHASH_SIZE then true
  else if negb (size vchVersionHash =? NEVM_DATA_VERSIONED_HASH_SIZE) then false
  else byte_at vchVersionHash 0 =? NEVM_DATA_BLAKE2S_VERSION_BYTE.

(** The hash type and the digest. *)
Definition DecodeNEVMVersionHash (version_hash : bytes) : option (Z * bytes) :=
  if negb (IsValidNEVMVersionHash version_hash) then None
  else if size version_hash =? NEVM_DATA_LEGACY_VERSIONHASH_SIZE
  then Some (NEVM_DATA_LEGACY_VERSION_BYTE, version_hash)
  else Some (byte_at version_hash 0, drop 1 version_hash).

Definition EncodeNEVMVersionHash (hash_digest : bytes) (hash_type : Z) : bytes :=
  if negb (size hash_digest =? NEVM_DATA_LEGACY_VERSIONHASH_SIZE) then []
  else if hash_type =? NEVM_DATA_LEGACY_VERSION_BYTE then hash_digest
  else if negb (hash_type =? NEVM_DATA_BLAKE2S_VERSION_BYTE) then []
  else hash_type :: hash_digest.

(** The blob is shared ([shared_ptr]) and absent unless the stream carries it. *)
Record CNEVMData := { vchVersionHash : bytes; nVersionHashType : Z; nevm_txid : uint256; nevm_blob : option bytes }.

Definition CNEVMData_Ser (d : CNEVMData) : bytes :=
  if nVersionHashType d =? NEVM_DATA_LEGACY_VERSION_BYTE then Serialize_bytes (vchVersionHash d)
  else Serialize_bytes (EncodeNEVMVersionHash (vchVersionHash d) (nVersionHashType d)).

(** [nevm_txid] is left as it was; a fresh object has the zero one. *)
Definition CNEVMData_Unser (nStreamVersion : Z) : reader CNEVMData :=
  encoded_version_hash ← Unserialize_bytes;
  let '(ty, dg) := default (NEVM_DATA_LEGACY_VERSION_BYTE, []) (DecodeNEVMVersionHash encoded_version_hash) in
  blob ← (if Z.land nStreamVersion SERIALIZE_TRANSACTION_PODA =? 0 then mret None
          else b ← Unserialize_bytes; mret (Some b));
  mret {| vchVersionHash := dg; nVersionHashType := ty; nevm_txid := uint256_null; nevm_blob := blob |}.

(** The object and the bytes left, or the null object. *)
Definition CNEVMData_UnserializeFromData (vchPayload : bytes) (nStreamVersion : Z) : option (CNEVMData * Z) :=
  match CNEVMData_Unser nStreamVersion vchPayload with
  | Throw _ => None
  | Ok (d, rest) =>
      if negb (size (vchVersionHash d) =? NEVM_DATA_LEGACY_VERSIONHASH_SIZE) then None
      else if negb (nVersionHashType d =? NEVM_DATA_LEGACY_VERSION_BYTE) &&
              negb (nVersionHashType d =? NEVM_DATA_BLAKE2S_VERSION_BYTE) then None
      else if match nevm_blob d with Some b => MAX_NEVM_DATA_BLOB <? size b | None => false end then None
      else Some (d, size rest)
  end.

Definition CNEVMData_UnserializeFromTx (GetHash : CTransaction -> uint256) (tx : CTransaction)
    (nStreamVersion : Z) : option CNEVMData :=
  '(vchData, nOut) ← GetSyscoinData tx;
  '(d, left_over) ← CNEVMData_UnserializeFromData vchData nStreamVersion;
  if negb (left_over =? 0) then None
  else
    o ← vout tx !! Z.to_nat nOut;
    match vchNEVMData o with
    | [] => Some {| vchVersionHash := vchVersionHash d; nVersionHashType := nVersionHashType d;
                    nevm_txid := GetHash tx; nevm_blob := nevm_blob d |}
    | blob =>
        if MAX_NEVM_DATA_BLOB <? size blob then None
        else Some {| vchVersionHash := vchVersionHash d; nVersionHashType := nVersionHashType d;
                     nevm_txid := GetHash tx; nevm_blob := Some blob |}
    end.

Definition PROTOCOL_VERSION : Z := 70017.

Definition CNEVMData_UnserializeFromScript (script : bytes) : option CNEVMData :=
  vchData ← GetSyscoinData_script script;
  '(d, left_over) ← CNEVMData_UnserializeFromData vchData PROTOCOL_VERSION;
  if left_over =? 0 then Some d else None.

(** ** The formats read back what they write, and accept nothing else *)

Definition valid_outpoint (o : COutPoint) : Prop := valid_uint256 (op_hash o) /\ in_u 32 (op_n o).

#[export] Instance outpoint_codec : Codec COutPoint_Serialize COutPoint_Unserialize valid_outpoint.
Proof.
  split; unfold COutPoint_Serialize, COutPoint_Unserialize, valid_outpoint.
  - intros [h i] [Hh Hi]. apply Forall_app. split; by eapply codec_bytes.
  - intros [h i] s [Hh Hi]. cbn [op_hash op_n] in *. by codec_put done.
  - intros s o s' Hs E. codec_get E. codec_get E. injection E as <- <-. cbn [op_hash op_n]. by rewrite <- app_assoc.
Qed.

Definition strip (i : CTxIn) : CTxIn := set_witness i [].
Definition valid_in (i : CTxIn) : Prop :=
  valid_outpoint (prevout i) /\ valid_bytes (scriptSig i) /\ in_u 32 (nSequence i) /\ scriptWitness i = [].
Definition valid_stack (i : CTxIn) : Prop := valid_vector valid_bytes (scriptWitness i).

#[export] Instance txin_codec : Codec CTxIn_Serialize CTxIn_Unserialize valid_in.
Proof.
  split; unfold CTxIn_Serialize, CTxIn_Unserialize, valid_in.
  - intros i (Ho & Hs & Hq & _). rewrite !Forall_app. repeat split; by eapply codec_bytes.
  - intros [o sig q w] s. cbn [prevout scriptSig nSequence scriptWitness]. intros (Ho & Hs & Hq & ->). by codec_put done.
  - intros s i s' Hs E. do 3 codec_get E. injection E as <- <-.
    cbn [prevout scriptSig nSequence scriptWitness]. by rewrite <- !app_assoc.
Qed.

(** The outputs without the assets [LoadAssets] writes into them. *)
Definition clear_asset (o : CTxOut) : CTxOut := set_assetInfo o CAssetCoinInfo_null.
Definition unloaded (tx : CTransaction) : CTransaction := set_vout tx (clear_asset <$> vout tx).

Lemma load_values_clear a vs outs outs' :
  load_values a vs outs = Ok outs' -> clear_asset <$> outs' = clear_asset <$> outs.
Proof.
  revert outs. induction vs as [|v vs IH]; intros outs; cbn [load_values]; [by intros [= ->]|].
  destruct (_ <=? _); [done|]. destruct (negb _); [done|]. intros ->%IH.
  apply list_eq. intros i. rewrite !list_lookup_fmap. destruct (decide (Z.to_nat (n v) = i)) as [<-|Hne].
  - rewrite list_lookup_alter_eq. by destruct (outs !! _).
  - by rewrite list_lookup_alter_ne.
Qed.

Lemma load_assets_clear a outs outs' :
  load_assets a outs = Ok outs' -> clear_asset <$> outs' = clear_asset <$> outs.
Proof.
  revert outs. induction a as [|it a IH]; intros outs; cbn [load_assets]; [by intros [= ->]|].
  destruct (values it) as [|v vs]; [done|]. intros (o1 & E1 & E2)%bind_ok.
  apply load_values_clear in E1. apply IH in E2. congruence.
Qed.

Lemma LoadAssets_unloaded batch tx tx' :
  LoadAssets batch tx = Ok tx' -> unloaded tx' = unloaded tx.
Proof.
  unfold LoadAssets. destruct (HasAssets tx); [|by intros [= ->]].
  destruct (CAssetAllocation_of_tx batch tx); [done|]. intros (o & E & [= <-])%bind_ok.
  apply load_assets_clear in E. unfold unloaded. cbn. by rewrite E.
Qed.

Section wire_facts.
Context (batch nType nStreamVersion : Z) (Hbatch : 0 < batch).
Local Abbreviation carries_blob := (carries_blob nType).
Local Abbreviation CTxOut_Serialize := (CTxOut_Serialize nType).
Local Abbreviation CTxOut_Unserialize := (CTxOut_Unserialize nType).
Local Abbreviation fAllowWitness := (fAllowWitness nStreamVersion).
Local Abbreviation SerializeTransaction := (SerializeTransaction nType nStreamVersion).
Local Abbreviation UnserializeTransaction := (UnserializeTransaction batch nType nStreamVersion).

Definition valid_out (txVersion : Z) (o : CTxOut) : Prop :=
  in_s 64 (nValue o) /\ valid_bytes (scriptPubKey o) /\ assetInfo o = CAssetCoinInfo_null /\
  (if carries_blob txVersion (scriptPubKey o) then valid_bytes (vchNEVMData o) else vchNEVMData o = []).

#[export] Instance txout_codec v : Codec (CTxOut_Serialize v) (CTxOut_Unserialize v) (valid_out v).
Proof.
  split; unfold Transaction.CTxOut_Serialize, Transaction.CTxOut_Unserialize, valid_out.
  - intros o (Hv & Hs & _ & Hb). rewrite !Forall_app. split; [by eapply codec_bytes|].
    split; [by eapply codec_bytes|]. destruct (carries_blob _ _); [by eapply codec_bytes|done].
  - intros [nv sp a b] s. cbn [nValue scriptPubKey assetInfo vchNEVMData]. intros (Hv & Hs & -> & Hb).
    codec_put done. destruct (carries_blob v sp); [by codec_put done|by subst b].
  - intros s o s' Hs E. do 2 codec_get E. case_match eqn:Hc.
    + codec_get E. injection E as <- <-. cbn [nValue scriptPubKey assetInfo vchNEVMData].
      rewrite Hc, <- !app_assoc. done.
    + injection E as <- <-. cbn [nValue scriptPubKey assetInfo vchNEVMData].
      rewrite Hc, app_nil_r, <- !app_assoc. done.
Qed.

Lemma set_witness_strip i : set_witness (strip i) (scriptWitness i) = i.
Proof. by destruct i. Qed.

Lemma read_stacks_put ins s :
  Forall valid_stack ins ->
  read_stacks batch (strip <$> ins) (mjoin (stack_Serialize <$> ins) ++ s) = Ok (ins, s).
Proof.
  induction 1 as [|i ins Hi _ IH]; [done|]. cbn [fmap list_fmap read_stacks].
  change (mjoin (stack_Serialize i :: (stack_Serialize <$> ins)))
    with (stack_Serialize i ++ mjoin (stack_Serialize <$> ins)).
  unfold stack_Serialize at 1. codec_put done. unfold mbind, reader_bind. rewrite IH. cbn.
  by rewrite set_witness_strip.
Qed.

Lemma read_stacks_Ok ins s ins' s' :
  Forall is_byte s -> Forall (fun i => scriptWitness i = []) ins -> read_stacks batch ins s = Ok (ins', s') ->
  ins = strip <$> ins' /\ s = mjoin (stack_Serialize <$> ins') ++ s' /\ Forall valid_stack ins' /\ Forall is_byte s'.
Proof.
  revert s ins'. induction ins as [|i ins IH]; intros s ins' Hs Hw; cbn [read_stacks]; [by intros [= <- <-]|].
  apply Forall_cons in Hw as [Hi Hw]. intros E. codec_get E.
  apply reader_bind_Ok in E as (l & s2 & E & [= <- <-]). apply IH in E as (-> & -> & Hl & Hs2); [|done..].
  split; [|split; [|split; [by constructor|done]]].
  - cbn. f_equal. destruct i as [? ? ? w]. cbn in Hi. by subst w.
  - cbn. by rewrite <- app_assoc.
Qed.

(** What a stream of these settings can hold. *)
Definition valid_raw (tx : CTransaction) : Prop :=
  in_s 32 (nVersion tx) /\ in_u 32 (nLockTime tx) /\
  valid_vector valid_in (strip <$> vin tx) /\ Forall valid_stack (vin tx) /\
  valid_vector (valid_out (nVersion tx)) (vout tx) /\
  (fAllowWitness = false -> HasWitness tx = false) /\
  (vin tx <> [] \/ vout tx = [] \/ fAllowWitness = false).

(** ... and the assets are the ones its payload lists. *)
Definition valid_tx (tx : CTransaction) : Prop :=
  valid_raw (unloaded tx) /\ LoadAssets batch (unloaded tx) = Ok tx.

Lemma CTxOut_Serialize_clear v o : CTxOut_Serialize v (clear_asset o) = CTxOut_Serialize v o.
Proof. done. Qed.

Lemma SerializeTransaction_unloaded tx : SerializeTransaction (unloaded tx) = SerializeTransaction tx.
Proof.
  unfold SerializeTransaction, HasWitness, VectorFormatter_Ser, unloaded. cbn [vin vout nVersion nLockTime set_vout].
  by rewrite length_fmap, <- list_fmap_compose.
Qed.

Lemma unloaded_raw tx : valid_raw tx -> unloaded tx = tx.
Proof.
  destruct tx as [i o v l]. intros (_ & _ & _ & _ & [_ Ho] & _). unfold unloaded, set_vout. cbn in *. f_equal.
  induction Ho as [|x o (_ & _ & Hx & _) _ IH]; [done|]. cbn. f_equal; [|done].
  destruct x. cbn in Hx. by subst.
Qed.

Lemma HasWitness_strip ins v o l :
  HasWitness {| vin := ins; vout := o; nVersion := v; nLockTime := l |} = false -> strip <$> ins = ins.
Proof.
  unfold HasWitness. cbn [vin]. induction ins as [|i ins IH]; [done|]. cbn. intros [Hi Hr]%orb_false_iff.
  rewrite IH by done. f_equal. destruct i as [? ? ? []]; [done|]. cbn in Hi. done.
Qed.

Lemma CTxIn_Serialize_strip (ins : list CTxIn) : CTxIn_Serialize <$> (strip <$> ins) = CTxIn_Serialize <$> ins.
Proof. by rewrite <- list_fmap_compose. Qed.

Lemma vin_Serialize_strip ins :
  VectorFormatter_Ser CTxIn_Serialize (strip <$> ins) = VectorFormatter_Ser CTxIn_Serialize ins.
Proof. unfold VectorFormatter_Ser. by rewrite length_fmap, CTxIn_Serialize_strip. Qed.

Lemma read_vin_vout_put v tx s :
  valid_vector valid_in (strip <$> vin tx) -> valid_vector (valid_out v) (vout tx) ->
  (fAllowWitness = false -> HasWitness tx = false) ->
  (vin tx <> [] \/ vout tx = [] \/ fAllowWitness = false) ->
  let flags := if fAllowWitness && HasWitness tx then 1 else 0 in
  read_vin_vout batch nType nStreamVersion v
    ((if flags =? 0 then [] else VectorFormatter_Ser CTxIn_Serialize [] ++ ser_writedata8 flags) ++
     VectorFormatter_Ser CTxIn_Serialize (vin tx) ++ VectorFormatter_Ser (CTxOut_Serialize v) (vout tx) ++ s) =
  Ok (flags, strip <$> vin tx, vout tx, s).
Proof.
  intros Hi Ho Hw Ha flags. rewrite <- (vin_Serialize_strip (vin tx)). unfold read_vin_vout, flags.
  destruct (fAllowWitness && HasWitness tx) eqn:Hf.
  - apply andb_true_iff in Hf as [Hf HW]. change (1 =? 0) with false. cbn iota.
    codec_put ltac:(first [done | split; [done|constructor]]). cbn [length]. rewrite Hf.
    change ((Z.of_nat 0 =? 0) && true) with true. cbn iota. codec_put1 done. change (1 =? 0) with false. cbn iota.
    by codec_put done.
  - change (0 =? 0) with true. cbn iota. rewrite app_nil_l. codec_put1 done. rewrite length_fmap.
    destruct (vin tx) as [|i ins] eqn:Hv;
      [|cbn [length]; rewrite (proj2 (Z.eqb_neq _ 0)) by lia; cbn [andb]; by codec_put done].
    destruct fAllowWitness eqn:Hfa; [|rewrite andb_false_r; by codec_put done]. change (_ && true) with true. cbn iota.
    destruct Ha as [?|[Ho0|?]]; [done| |done]. rewrite Ho0.
    change (VectorFormatter_Ser (CTxOut_Serialize v) []) with (ser_writedata8 0).
    by codec_put done.
Qed.

Lemma read_witness_put tx s :
  Forall valid_stack (vin tx) -> (fAllowWitness = false -> HasWitness tx = false) ->
  let flags := if fAllowWitness && HasWitness tx then 1 else 0 in
  read_witness batch nStreamVersion (nVersion tx) flags (strip <$> vin tx) (vout tx)
    ((if Z.testbit flags 0 then mjoin (stack_Serialize <$> vin tx) else []) ++ s) = Ok (0, vin tx, s).
Proof.
  intros Hst Hw. cbn zeta. unfold read_witness. destruct (fAllowWitness && HasWitness tx) eqn:Hf.
  - apply andb_true_iff in Hf as [Hf HW]. rewrite Hf. change (Z.testbit 1 0 && true) with true.
    change (Z.testbit 1 0) with true. cbn iota.
    rewrite (reader_bind_run _ _ _ _ _ (read_stacks_put _ _ Hst)). unfold HasWitness in *. cbn [vin]. by rewrite HW.
  - change (Z.testbit 0 0 && fAllowWitness) with false. change (Z.testbit 0 0) with false. cbn iota.
    rewrite app_nil_l. unfold mret, reader_ret. do 3 f_equal. destruct tx as [ins outs v lt]. cbn [vin].
    eapply HasWitness_strip. destruct fAllowWitness; [done|by apply Hw].
Qed.

Lemma UnserializeTransaction_put tx s :
  valid_raw tx -> UnserializeTransaction (SerializeTransaction tx ++ s) = finish_tx batch tx s.
Proof.
  intros (Hv & Hl & Hi & Hst & Ho & Hw & Ha). unfold Transaction.UnserializeTransaction, Transaction.SerializeTransaction.
  cbn zeta. rewrite <- !app_assoc. codec_put1 done.
  erewrite reader_bind_run by exact (read_vin_vout_put _ _ _ Hi Ho Hw Ha). cbn iota beta.
  erewrite reader_bind_run by exact (read_witness_put _ _ Hst Hw). cbn iota beta.
  change (negb (0 =? 0)) with false. cbn iota. codec_put done. by destruct tx.
Qed.

Lemma read_vin_vout_Ok v s flags ins outs s' :
  Forall is_byte s -> read_vin_vout batch nType nStreamVersion v s = Ok (flags, ins, outs, s') ->
  valid_vector valid_in ins /\ valid_vector (valid_out v) outs /\ Forall is_byte s' /\
  (flags = 0 -> ins <> [] \/ outs = [] \/ fAllowWitness = false) /\
  s = (if flags =? 0 then [] else VectorFormatter_Ser CTxIn_Serialize [] ++ ser_writedata8 flags) ++
      VectorFormatter_Ser CTxIn_Serialize ins ++ VectorFormatter_Ser (CTxOut_Serialize v) outs ++ s'.
Proof.
  intros Hs E. unfold read_vin_vout in E. codec_get E.
  destruct (_ && _) eqn:Hc.
  - apply andb_true_iff in Hc as [Hl Hf]. assert (x = []) as -> by (by destruct x).
    codec_get E. destruct (Z.eqb_spec x 0) as [->|Hx].
    + injection E as <- <- <- <-. split; [done|]. split; [by split; [|constructor]|].
      split; [done|]. split; [auto|]. done.
    + do 2 codec_get E. injection E as <- <- <- <-. do 3 (split; [done|]). split; [done|].
      destruct (Z.eqb_spec x 0); [done|]. by rewrite <- !app_assoc.
  - codec_get E. injection E as <- <- <- <-. do 3 (split; [done|]). split; [|done].
    intros _. apply andb_false_iff in Hc as [Hc|Hc]; [left|auto]. by intros ->.
Qed.

Lemma read_witness_Ok v flags ins outs s ins' s' :
  Forall is_byte s -> Forall (fun i => scriptWitness i = []) ins ->
  read_witness batch nStreamVersion v flags ins outs s = Ok (0, ins', s') ->
  let tx := {| vin := ins'; vout := outs; nVersion := v; nLockTime := 0 |} in
  ins = strip <$> ins' /\ Forall valid_stack ins' /\ Forall is_byte s' /\
  (fAllowWitness = false -> HasWitness tx = false) /\ flags = (if fAllowWitness && HasWitness tx then 1 else 0) /\
  s = (if Z.testbit flags 0 then mjoin (stack_Serialize <$> ins') else []) ++ s'.
Proof.
  intros Hs Hw. unfold read_witness. destruct (_ && _) eqn:Hc.
  - apply andb_true_iff in Hc as [Ht Hf]. intros (l & s1 & E & E2)%reader_bind_Ok.
    apply read_stacks_Ok in E as (-> & -> & Hl & Hs1); [|done..].
    destruct (HasWitness _) eqn:HW; [|done]. injection E2 as Hx <- <-. cbn zeta.
    apply Z.lxor_eq in Hx as ->. unfold HasWitness in *. cbn [vin] in *. rewrite Hf, HW. done.
  - intros [= -> <- <-]. cbn zeta. change (Z.testbit 0 0) with false. cbn iota.
    assert (strip <$> ins = ins) as Hst.
    { clear -Hw. induction Hw as [|[? ? ? w] ins Hi _ IH]; [done|]. cbn in *. by rewrite IH, Hi. }
    assert (HasWitness {| vin := ins; vout := outs; nVersion := v; nLockTime := 0 |} = false) as HW.
    { unfold HasWitness. cbn [vin]. clear -Hw. induction Hw as [|i ins Hi _ IH]; [done|]. cbn. by rewrite Hi. }
    rewrite HW, andb_false_r. repeat split; try done.
    eapply Forall_impl; [exact Hw|]. intros i Hi. unfold valid_stack. rewrite Hi. by split; [|constructor].
Qed.

Lemma UnserializeTransaction_Ok s tx s' :
  Forall is_byte s -> UnserializeTransaction s = Ok (tx, s') ->
  exists raw, valid_raw raw /\ LoadAssets batch raw = Ok tx /\ s = SerializeTransaction raw ++ s'.
Proof.
  intros Hs E. unfold Transaction.UnserializeTransaction in E. codec_get E.
  apply reader_bind_Ok in E as ([[flags ins] outs] & s1 & E1 & E).
  apply read_vin_vout_Ok in E1 as (Hi & Ho & Hs1 & Hne & ->); [|done].
  apply reader_bind_Ok in E as ([flags' ins'] & s2 & E1 & E).
  destruct (Z.eqb_spec flags' 0) as [->|]; [|done]. cbn [negb] in E.
  apply read_witness_Ok in E1 as (-> & Hst & Hs2 & Hw & Hfl & ->); [|done|].
  2: { destruct Hi as [_ Hi]. eapply Forall_impl; [exact Hi|]. by intros ? (_ & _ & _ & ?). }
  codec_get E. unfold finish_tx in E. apply bind_ok in E as (tx' & E & [= -> ->]).
  eexists. split; [|split; [exact E|]].
  - unfold valid_raw. cbn [vin vout nVersion nLockTime]. do 6 (split; [done|]).
    destruct ins' as [|i l]; [|by left]. destruct Hne as [?|?]; [|done|auto].
    rewrite Hfl. unfold HasWitness. cbn. by rewrite andb_false_r.
  - unfold Transaction.SerializeTransaction. cbn [vin vout nVersion nLockTime].
    unfold HasWitness in *. cbn [vin] in *. rewrite <- Hfl, vin_Serialize_strip, <- !app_assoc. done.
Qed.

Lemma SerializeTransaction_bytes tx : valid_raw tx -> Forall is_byte (SerializeTransaction tx).
Proof.
  intros (Hv & Hl & Hi & Hst & Ho & _). unfold Transaction.SerializeTransaction. rewrite !Forall_app.
  repeat split.
  - by eapply codec_bytes.
  - destruct (_ =? 0); [constructor|]. apply Forall_app. split; [|eapply codec_bytes; unfold in_u; destruct (_ && _); lia].
    by apply (VectorFormatter_bytes _ CTxIn_Unserialize valid_in).
  - rewrite <- vin_Serialize_strip. apply (VectorFormatter_bytes _ CTxIn_Unserialize valid_in), Hi.
  - apply (VectorFormatter_bytes _ (CTxOut_Unserialize _) (valid_out _)), Ho.
  - destruct (Z.testbit _ _); [|constructor]. clear Hi. induction Hst as [|i l [_ Hi'] _ IH]; cbn; [constructor|].
    apply Forall_app. split; [|done]. by apply (VectorFormatter_bytes _ Unserialize_bytes valid_bytes).
  - by eapply codec_bytes.
Qed.

#[export] Instance transaction_codec : Codec SerializeTransaction UnserializeTransaction valid_tx.
Proof.
  split.
  - intros tx [Hr _]. rewrite <- SerializeTransaction_unloaded. by apply SerializeTransaction_bytes.
  - intros tx s [Hr HL]. rewrite <- SerializeTransaction_unloaded, UnserializeTransaction_put by done.
    unfold finish_tx. by rewrite HL.
  - intros s tx s' Hs E. apply UnserializeTransaction_Ok in E as (raw & Hr & HL & ->); [|done].
    pose proof (LoadAssets_unloaded _ _ _ HL) as Hu. rewrite (unloaded_raw raw) in Hu by done.
    rewrite <- (SerializeTransaction_unloaded tx), Hu. split; [done|]. split; by rewrite Hu.
Qed.

End wire_facts.

(** ** Totals of the outputs *)

(** The outputs [GetValueOut] counts. *)
Definition counted (tx : CTransaction) : list CTxOut :=
  if is_burn_to_syscoin (nVersion tx) then drop 1 (vout tx) else vout tx.
Definition sum_values (outs : list CTxOut) : Z := foldr (fun o acc => nValue o + acc) 0 outs.

Lemma sum_values_nonneg outs : Forall (fun o => MoneyRange (nValue o) = true) outs -> 0 <= sum_values outs.
Proof. induction 1 as [|o outs Ho%MoneyRange_spec _ IH]; cbn [sum_values foldr] in *; [|unfold sum_values in *]; lia. Qed.

(** The loop once no output is skipped any more. *)
Lemma GetValueOut_loop_spec version first acc outs :
  first && is_burn_to_syscoin version = false -> MoneyRange acc = true ->
  GetValueOut_loop version first acc outs =
  if decide (Forall (fun o => MoneyRange (nValue o) = true) outs /\ acc + sum_values outs <= MAX_MONEY)
  then Ok (acc + sum_values outs) else Throw "GetValueOut: value out of range"%string.
Proof.
  intros Hb. revert acc. induction outs as [|o outs IH]; intros acc Ha; cbn [GetValueOut_loop].
  - apply MoneyRange_spec in Ha. rewrite decide_True by (split; [constructor|cbn; lia]). f_equal. cbn. lia.
  - rewrite Hb. destruct (MoneyRange (nValue o)) eqn:Ho; cbn [negb orb].
    2: { rewrite decide_False; [done|]. intros [HF _]. apply Forall_cons in HF as [? _]. congruence. }
    destruct (MoneyRange (acc + nValue o)) eqn:Hs; cbn [negb].
    + rewrite IH by done. change (sum_values (o :: outs)) with (nValue o + sum_values outs).
      rewrite <- Z.add_assoc. destruct (decide _) as [[HF Hm]|Hn]; destruct (decide _) as [[HF' Hm']|Hn']; try done.
      * exfalso. apply Hn'. split; [by constructor|lia].
      * exfalso. apply Hn. apply Forall_cons in HF' as [_ ?]. split; [done|lia].
    + rewrite decide_False; [done|]. intros [HF Hm]. apply Forall_cons in HF as [_ HF].
      apply sum_values_nonneg in HF. change (sum_values (o :: outs)) with (nValue o + sum_values outs) in Hm.
      apply MoneyRange_spec in Ho, Ha. apply not_true_iff_false in Hs. rewrite MoneyRange_spec in Hs. lia.
Qed.

Lemma GetValueOut_eq tx :
  GetValueOut tx =
  if decide (Forall (fun o => MoneyRange (nValue o) = true) (vout tx) /\ sum_values (counted tx) <= MAX_MONEY)
  then Ok (sum_values (counted tx)) else Throw "GetValueOut: value out of range"%string.
Proof.
  unfold GetValueOut, counted. destruct (is_burn_to_syscoin (nVersion tx)) eqn:Hb.
  - destruct (vout tx) as [|o outs]; cbn [drop GetValueOut_loop]; [by rewrite decide_True|].
    rewrite Hb, Z.add_0_l. destruct (MoneyRange (nValue o)) eqn:Ho; cbn [negb orb andb].
    2: { rewrite decide_False; [done|]. intros [HF _]. apply Forall_cons in HF as [? _]. congruence. }
    rewrite drop_0, GetValueOut_loop_spec by done. rewrite Z.add_0_l.
    destruct (decide _) as [[HF Hm]|Hn]; [|rewrite decide_False; [done|rewrite Forall_cons; tauto]].
    cbn. rewrite decide_True by (split; [by constructor|done]).
    by rewrite (proj2 (MoneyRange_spec _) (conj (sum_values_nonneg _ HF) Hm)).
  - rewrite GetValueOut_loop_spec by (by rewrite ?andb_true_l). rewrite Z.add_0_l.
    destruct (decide _) as [[HF Hm]|Hn]; [|done]. cbn.
    by rewrite (proj2 (MoneyRange_spec _) (conj (sum_values_nonneg _ HF) Hm)).
Qed.

(** The amount of asset [a] in the outputs, and whether [a] occurs. *)
Definition sum_asset (a : Z) (outs : list CTxOut) : Z :=
  foldr (fun o acc => (if nAsset (assetInfo o) =? a then asset_nValue (assetInfo o) else 0) + acc) 0 outs.
Definition has_asset (a : Z) (outs : list CTxOut) : bool :=
  existsb (fun o => nAsset (assetInfo o) =? a) outs.
Definition asset_in_range (o : CTxOut) : Prop :=
  CAssetCoinInfo_IsNull (assetInfo o) = true \/ MoneyRange (asset_nValue (assetInfo o)) = true.

Definition map_in_range (m : CAssetsMap) : Prop := map_Forall (fun _ v => MoneyRange v = true) m.

Lemma sum_asset_nonneg a outs : a <> 0 -> Forall asset_in_range outs -> 0 <= sum_asset a outs.
Proof.
  intros Ha. induction 1 as [|o outs Ho _ IH]; cbn [sum_asset foldr]; [lia|]. fold (sum_asset a outs).
  destruct (Z.eqb_spec (nAsset (assetInfo o)) a) as [<-|]; [|lia].
  destruct Ho as [Ho|Ho%MoneyRange_spec]; [|lia]. unfold CAssetCoinInfo_IsNull in Ho. lia.
Qed.

Lemma sum_asset_absent a outs : has_asset a outs = false -> sum_asset a outs = 0.
Proof.
  induction outs as [|o outs IH]; [done|]. cbn. intros [-> Hh]%orb_false_iff. fold (sum_asset a outs). by rewrite IH.
Qed.

Lemma map_in_range_default m a : map_in_range m -> MoneyRange (default 0 (m !! a)) = true.
Proof. intros Hm. destruct (m !! a) eqn:E; [exact (Hm _ _ E)|done]. Qed.

Lemma GetAssetValueOut_loop_true outs m m' :
  map_in_range m -> GetAssetValueOut_loop outs m = (m', true) ->
  map_in_range m' /\ Forall asset_in_range outs /\
  forall a, a <> 0 ->
    m' !! a = if has_asset a outs then Some (default 0 (m !! a) + sum_asset a outs) else m !! a.
Proof.
  revert m. induction outs as [|o outs IH]; intros m Hm; cbn [GetAssetValueOut_loop].
  { intros [= <-]. done. }
  set (i := assetInfo o). destruct (CAssetCoinInfo_IsNull i) eqn:Hn.
  - intros E. apply IH in E as (Hm' & HF & Hl); [|done]. split; [done|]. split; [constructor; [by left|done]|].
    intros a Ha. rewrite Hl by done. cbn [has_asset existsb sum_asset foldr]. fold i.
    fold (has_asset a outs) (sum_asset a outs).
    destruct (Z.eqb_spec (nAsset i) a); [unfold CAssetCoinInfo_IsNull in Hn; lia|]. cbn. by rewrite Z.add_0_l.
  - destruct (MoneyRange (asset_nValue i)) eqn:Hv; [|done]. cbn [negb orb].
    destruct (MoneyRange (default 0 (m !! nAsset i) + asset_nValue i)) eqn:Ht; [|done]. cbn [negb]. intros E.
    apply IH in E as (Hm' & HF & Hl); [|by apply map_Forall_insert_2]. split; [done|]. split; [constructor; [by right|done]|].
    intros a Ha. rewrite Hl by done. cbn [has_asset existsb sum_asset foldr]. fold i.
    fold (has_asset a outs) (sum_asset a outs).
    destruct (Z.eqb_spec (nAsset i) a) as [<-|Hne].
    + rewrite lookup_insert_eq. cbn [default orb id]. destruct (has_asset _ outs) eqn:Hh; [f_equal; lia|].
      f_equal. rewrite (sum_asset_absent _ _ Hh). lia.
    + rewrite lookup_insert_ne by done. cbn [orb]. by rewrite Z.add_0_l.
Qed.

Lemma GetAssetValueOut_loop_ok outs m :
  map_in_range m -> Forall asset_in_range outs ->
  (forall a, a <> 0 -> default 0 (m !! a) + sum_asset a outs <= MAX_MONEY) ->
  (GetAssetValueOut_loop outs m).2 = true.
Proof.
  revert m. induction outs as [|o outs IH]; intros m Hm HF Hb; [done|]. cbn [GetAssetValueOut_loop].
  apply Forall_cons in HF as [Ho HF]. destruct (CAssetCoinInfo_IsNull (assetInfo o)) eqn:Hn.
  - apply IH; try done. intros a Ha. specialize (Hb a Ha). cbn [sum_asset foldr] in Hb. fold (sum_asset a outs) in Hb.
    unfold CAssetCoinInfo_IsNull in Hn. destruct (Z.eqb_spec (nAsset (assetInfo o)) a); lia.
  - destruct Ho as [Ho|Ho]; [congruence|]. rewrite Ho. cbn [negb orb]. set (i := assetInfo o) in *.
    assert (nAsset i <> 0) as Hi by (unfold CAssetCoinInfo_IsNull in Hn; lia).
    pose proof (Hb _ Hi) as Hbi. cbn [sum_asset foldr] in Hbi. fold i (sum_asset (nAsset i) outs) in Hbi.
    rewrite Z.eqb_refl in Hbi. pose proof (sum_asset_nonneg _ _ Hi HF).
    pose proof (map_in_range_default m (nAsset i) Hm) as Hd. apply MoneyRange_spec in Hd.
    pose proof Ho as Ho'. apply MoneyRange_spec in Ho'.
    assert (MoneyRange (default 0 (m !! nAsset i) + asset_nValue i) = true) as Ht by (apply MoneyRange_spec; lia).
    rewrite Ht. cbn [negb]. apply IH; [by apply map_Forall_insert_2|done|].
    intros a Ha. specialize (Hb a Ha). cbn [sum_asset foldr] in Hb. fold i (sum_asset a outs) in Hb.
    destruct (Z.eqb_spec (nAsset i) a) as [Heq|Hne]; [rewrite <- Heq, lookup_insert_eq in *; cbn; lia|].
    rewrite lookup_insert_ne by done. lia.
Qed.

(** ** What [LoadAssets] writes *)

(** The listed outputs in the order they are processed, each with its asset. *)
Definition entries (a : CAssetAllocation) : list (Z * CAssetOutValue) :=
  mjoin ((fun it => pair (key it) <$> values it) <$> a).

Definition entry_ok (outs : list CTxOut) (e : Z * CAssetOutValue) : Prop :=
  n e.2 < Z.of_nat (length outs) /\ MoneyRange (out_nValue e.2) = true.

(** The asset of output [i] after the entries: that of the last one naming it. *)
Definition asset_after (es : list (Z * CAssetOutValue)) (i : nat) (old : CAssetCoinInfo) : CAssetCoinInfo :=
  foldl (fun acc e => if decide (Z.to_nat (n e.2) = i)
                      then {| nAsset := e.1; asset_nValue := out_nValue e.2 |} else acc) old es.

Definition loaded (es : list (Z * CAssetOutValue)) (outs : list CTxOut) : list CTxOut :=
  imap (fun i o => set_assetInfo o (asset_after es i (assetInfo o))) outs.

Lemma set_assetInfo_id o : set_assetInfo o (assetInfo o) = o.
Proof. by destruct o. Qed.

Lemma loaded_nil outs : loaded [] outs = outs.
Proof.
  unfold loaded. apply list_eq. intros i. rewrite list_lookup_imap. cbn.
  destruct (outs !! i); [cbn; by rewrite set_assetInfo_id|done].
Qed.

Lemma loaded_cons k v es outs :
  loaded ((k, v) :: es) outs =
  loaded es (alter (fun o => set_assetInfo o {| nAsset := k; asset_nValue := out_nValue v |}) (Z.to_nat (n v)) outs).
Proof.
  unfold loaded. apply list_eq. intros i. rewrite !list_lookup_imap. cbn [asset_after foldl].
  destruct (decide (Z.to_nat (n v) = i)) as [<-|Hne].
  - rewrite list_lookup_alter_eq. destruct (outs !! _) as [o|]; [|done]. cbn. by rewrite decide_True.
  - rewrite list_lookup_alter_ne by done. destruct (outs !! _) as [o|]; [|done]. cbn. by rewrite decide_False.
Qed.

Lemma loaded_app es1 es2 outs : loaded (es1 ++ es2) outs = loaded es2 (loaded es1 outs).
Proof.
  revert outs. induction es1 as [|[k v] es1 IH]; intros outs; [by rewrite loaded_nil|].
  by rewrite <- app_comm_cons, !loaded_cons, IH.
Qed.

Lemma loaded_length es outs : length (loaded es outs) = length outs.
Proof. apply length_imap. Qed.

Lemma load_values_Ok k vs outs outs' :
  load_values k vs outs = Ok outs' <->
  Forall (entry_ok outs) (pair k <$> vs) /\ outs' = loaded (pair k <$> vs) outs.
Proof.
  revert outs. induction vs as [|v vs IH]; intros outs.
  { cbn. rewrite loaded_nil. split; [intros [= <-]; split; [constructor|done]|by intros [_ ->]]. }
  cbn [load_values fmap list_fmap]. rewrite Forall_cons, loaded_cons. unfold entry_ok at 1. cbn [snd].
  destruct (Z.leb_spec (Z.of_nat (length outs)) (n v)); [split; [done|]; intros [[[? _] _] _]; lia|].
  destruct (MoneyRange (out_nValue v)); cbn [negb]; [|split; [done|]; by intros [[[_ ?] _] _]].
  rewrite IH. unfold entry_ok. rewrite length_alter. naive_solver.
Qed.

Lemma load_assets_Ok a outs outs' :
  load_assets a outs = Ok outs' <->
  Forall (fun it => values it <> []) a /\ Forall (entry_ok outs) (entries a) /\ outs' = loaded (entries a) outs.
Proof.
  revert outs. induction a as [|it a IH]; intros outs.
  { cbn. rewrite loaded_nil. split; [by intros [= <-]|by intros (_ & _ & ->)]. }
  cbn [load_assets]. change (entries (it :: a)) with ((pair (key it) <$> values it) ++ entries a).
  rewrite Forall_cons, Forall_app, loaded_app.
  destruct (values it) as [|v vs] eqn:Hv; [by split; [|intros [[? _] _]]|]. rewrite <- Hv. split.
  - intros (o1 & E1 & E2)%bind_ok. apply load_values_Ok in E1 as [Hf ->]. apply IH in E2 as (Hne & He & ->).
    unfold entry_ok in He. rewrite loaded_length in He. split; [split; [congruence|done]|done].
  - intros ([_ Hne] & [Hf He] & ->). apply bind_ok. eexists.
    split; [apply load_values_Ok; split; [exact Hf|reflexivity]|]. apply IH. unfold entry_ok.
    rewrite loaded_length. done.
Qed.

(** ** Payloads read back *)

#[export] Instance amount_round_trip :
  RoundTrip AmountCompression_Ser AmountCompression_Unser (fun v => MoneyRange v = true).
Proof.
  intros v s Hv%MoneyRange_spec. unfold AmountCompression_Ser, AmountCompression_Unser.
  assert (in_u 64 v /\ in_s 64 v) as [Hu Hs] by (unfold in_u, in_s, MAX_MONEY in *; lia).
  destruct (DecompressAmount_CompressAmount v Hv) as (x & Hx & Hin & Hd). rewrite wrapu_id, Hx by done. cbn [default id].
  codec_put1 done. by rewrite Hd, wraps_id.
Qed.

#[export] Instance compact32_round_trip :
  RoundTrip CompactSizeFormatter_Ser (CompactSizeFormatter_Unser 32) (fun v => 0 <= v <= MAX_SIZE).
Proof.
  intros v s Hv. unfold CompactSizeFormatter_Ser, CompactSizeFormatter_Unser. codec_put1 done.
  destruct (Z.ltb_spec (2 ^ 32 - 1) v); [unfold MAX_SIZE in Hv; lia|done].
Qed.

Definition valid_asset_out_value (v : CAssetOutValue) : Prop :=
  0 <= n v <= MAX_SIZE /\ MoneyRange (out_nValue v) = true.
Definition valid_asset_out (o : CAssetOut) : Prop :=
  in_u 64 (key o) /\ valid_vector valid_asset_out_value (values o).

#[export] Instance asset_out_value_round_trip :
  RoundTrip CAssetOutValue_Serialize CAssetOutValue_Unserialize valid_asset_out_value.
Proof.
  intros [i v] s [Hi Hv]. cbn [n out_nValue] in *. unfold CAssetOutValue_Serialize, CAssetOutValue_Unserialize.
  cbn [n out_nValue]. by codec_put done.
Qed.

#[export] Instance asset_out_round_trip batch :
  0 < batch -> RoundTrip CAssetOut_Serialize (CAssetOut_Unserialize batch) valid_asset_out.
Proof.
  intros Hb [k v] s [Hk Hv]. unfold CAssetOut_Serialize, CAssetOut_Unserialize. cbn [key values] in *.
  by codec_put done.
Qed.

#[export] Instance allocation_round_trip batch :
  0 < batch ->
  RoundTrip CAssetAllocation_Serialize (CAssetAllocation_Unserialize batch) (valid_vector valid_asset_out).
Proof. intros Hb. apply vector_round_trip; [apply _|done]. Qed.

Definition valid_mint (m : CMintSyscoin) : Prop :=
  valid_vector valid_asset_out (mint_voutAssets m) /\
  valid_uint256 (nTxHash m) /\ valid_uint256 (nBlockHash m) /\ valid_uint256 (nTxRoot m) /\
  valid_uint256 (nReceiptRoot m) /\ valid_bytes (vchTxParentNodes m) /\ valid_bytes (vchTxPath m) /\
  valid_bytes (vchReceiptParentNodes m) /\ in_u 16 (posTx m) /\ in_u 16 (posReceipt m) /\
  posTx m < size (vchTxParentNodes m) /\ posReceipt m < size (vchReceiptParentNodes m).

#[export] Instance mint_round_trip batch :
  0 < batch -> RoundTrip CMintSyscoin_Serialize (CMintSyscoin_Unserialize batch) valid_mint.
Proof.
  intros Hb [] s. unfold valid_mint, CMintSyscoin_Serialize, CMintSyscoin_Unserialize.
  cbn [mint_voutAssets posTx vchTxParentNodes nTxRoot vchTxPath posReceipt vchReceiptParentNodes nReceiptRoot
       nTxHash nBlockHash].
  intros (? & ? & ? & ? & ? & ? & ? & ? & ? & ? & _). by codec_put done.
Qed.

Definition valid_burn (b : CBurnSyscoin) : Prop :=
  valid_vector valid_asset_out (burn_voutAssets b) /\ valid_bytes (vchNEVMAddress b).

#[export] Instance burn_round_trip batch :
  0 < batch -> RoundTrip CBurnSyscoin_Serialize (CBurnSyscoin_Unserialize batch) valid_burn.
Proof.
  intros Hb [] s [? ?]. unfold CBurnSyscoin_Serialize, CBurnSyscoin_Unserialize.
  cbn [burn_voutAssets vchNEVMAddress] in *. by codec_put done.
Qed.

Lemma CMintSyscoin_payload batch m extra :
  0 < batch -> valid_mint m ->
  CMintSyscoin_UnserializeFromData batch (CMintSyscoin_Serialize m ++ extra) = Some (m, size extra).
Proof.
  intros Hb Hm. unfold CMintSyscoin_UnserializeFromData. rewrite (get_put (valid := valid_mint)) by done.
  destruct Hm as (_ & _ & _ & _ & _ & _ & _ & _ & _ & _ & H1 & H2).
  destruct (Z.leb_spec (size (vchTxParentNodes m)) (posTx m)); [lia|].
  destruct (Z.leb_spec (size (vchReceiptParentNodes m)) (posReceipt m)); [lia|done].
Qed.

(** A commitment: a 32-byte digest of a known type. *)
Definition valid_commitment (d : CNEVMData) : Prop :=
  length (vchVersionHash d) = 32%nat /\ Forall is_byte (vchVersionHash d) /\
  (nVersionHashType d = NEVM_DATA_LEGACY_VERSION_BYTE \/ nVersionHashType d = NEVM_DATA_BLAKE2S_VERSION_BYTE).

Lemma EncodeNEVMVersionHash_inv d :
  valid_commitment d ->
  valid_bytes (EncodeNEVMVersionHash (vchVersionHash d) (nVersionHashType d)) /\
  DecodeNEVMVersionHash (EncodeNEVMVersionHash (vchVersionHash d) (nVersionHashType d)) =
    Some (nVersionHashType d, vchVersionHash d).
Proof.
  destruct d as [h t x b]. intros (Hl & Hb & Ht). cbn [vchVersionHash nVersionHashType] in *.
  assert (size h = 32) as Hsz by (unfold size; lia).
  unfold EncodeNEVMVersionHash, DecodeNEVMVersionHash, IsValidNEVMVersionHash, valid_bytes.
  change NEVM_DATA_LEGACY_VERSIONHASH_SIZE with 32. change NEVM_DATA_VERSIONED_HASH_SIZE with 33.
  destruct Ht as [-> | ->].
  - change (NEVM_DATA_LEGACY_VERSION_BYTE =? NEVM_DATA_LEGACY_VERSION_BYTE) with true. rewrite Hsz. cbn iota.
    change (negb (32 =? 32)) with false. change (32 =? 32) with true. cbn iota. rewrite Hsz.
    split; [|done]. rewrite Hl. split; [done|done].
  - change (NEVM_DATA_BLAKE2S_VERSION_BYTE =? NEVM_DATA_LEGACY_VERSION_BYTE) with false.
    change (NEVM_DATA_BLAKE2S_VERSION_BYTE =? NEVM_DATA_BLAKE2S_VERSION_BYTE) with true.
    rewrite Hsz. change (negb (32 =? 32)) with false. cbn [negb]. cbn iota.
    assert (size (NEVM_DATA_BLAKE2S_VERSION_BYTE :: h) = 33) as -> by (unfold size in *; cbn [length]; lia).
    split; [|done]. cbn [length]. rewrite Hl. split; [done|by constructor].
Qed.

Lemma DecodeNEVMVersionHash_inv h ty dg :
  DecodeNEVMVersionHash h = Some (ty, dg) -> EncodeNEVMVersionHash dg ty = h.
Proof.
  unfold DecodeNEVMVersionHash, IsValidNEVMVersionHash, EncodeNEVMVersionHash.
  destruct (size h =? NEVM_DATA_LEGACY_VERSIONHASH_SIZE) eqn:E.
  - cbn [negb]. intros [= <- <-]. by rewrite E.
  - destruct (Z.eqb_spec (size h) NEVM_DATA_VERSIONED_HASH_SIZE) as [E2|]; [|done]. cbn [negb].
    destruct (Z.eqb_spec (byte_at h 0) NEVM_DATA_BLAKE2S_VERSION_BYTE) as [Eb|]; [|done]. cbn [negb].
    intros [= <- <-]. destruct h as [|b h]; [done|]. change (byte_at (b :: h) 0) with b in *. subst b.
    change (drop 1 (NEVM_DATA_BLAKE2S_VERSION_BYTE :: h)) with h.
    assert (size h = 32) as -> by (unfold size in *; cbn [length] in *; unfold NEVM_DATA_VERSIONED_HASH_SIZE in *; lia). done.
Qed.

Lemma CNEVMData_payload d extra version :
  valid_commitment d -> Z.land version SERIALIZE_TRANSACTION_PODA = 0 ->
  CNEVMData_UnserializeFromData (CNEVMData_Ser d ++ extra) version =
  Some ({| vchVersionHash := vchVersionHash d; nVersionHashType := nVersionHashType d;
           nevm_txid := uint256_null; nevm_blob := None |}, size extra).
Proof.
  intros Hd Hv. destruct (EncodeNEVMVersionHash_inv d Hd) as [Hb Hdec].
  assert (CNEVMData_Ser d = Serialize_bytes (EncodeNEVMVersionHash (vchVersionHash d) (nVersionHashType d))) as ->.
  { unfold CNEVMData_Ser, EncodeNEVMVersionHash. destruct Hd as (Hl & _).
    assert (size (vchVersionHash d) = 32) as -> by (unfold size; lia). by destruct (nVersionHashType d =? NEVM_DATA_LEGACY_VERSION_BYTE). }
  unfold CNEVMData_UnserializeFromData, CNEVMData_Unser. codec_put1 done. rewrite Hdec. cbn [default id]. rewrite Hv.
  change (0 =? 0) with true. cbn iota. unfold mbind, reader_bind, mret, reader_ret. cbn iota beta.
  cbn [vchVersionHash nVersionHashType nevm_blob]. destruct Hd as (Hl & _ & Ht).
  assert (size (vchVersionHash d) = 32) as -> by (unfold size; lia). cbn. by destruct Ht as [-> | ->].
Qed.

Lemma LoadAssets_Ok batch tx tx' :
  LoadAssets batch tx = Ok tx' <->
  if HasAssets tx then
    let a := CAssetAllocation_of_tx batch tx in
    a <> [] /\ Forall (fun it => values it <> []) a /\ Forall (entry_ok (vout tx)) (entries a) /\
    tx' = set_vout tx (loaded (entries a) (vout tx))
  else tx' = tx.
Proof.
  unfold LoadAssets. destruct (HasAssets tx); [|by split; [intros [= ->]|intros ->]]. cbn zeta.
  destruct (CAssetAllocation_of_tx batch tx) as [|it a] eqn:E; [by split; [|intros [? _]]|].
  set (al := it :: a) in *. split.
  - intros (o & (H1 & H2 & ->)%load_assets_Ok & [= <-])%bind_ok. split_and!; done.
  - intros (_ & H1 & H2 & ->). apply bind_ok. eexists. by split; [apply load_assets_Ok|].
Qed.

(** ** What the transaction id commits to *)

(** A transaction without witnesses and data-availability blobs. *)
Definition clear_blob (o : CTxOut) : CTxOut :=
  {| nValue := nValue o; scriptPubKey := scriptPubKey o; assetInfo := assetInfo o; vchNEVMData := [] |}.
Definition core (tx : CTransaction) : CTransaction :=
  {| vin := strip <$> vin tx; vout := clear_blob <$> vout tx; nVersion := nVersion tx; nLockTime := nLockTime tx |}.

Lemma GetSyscoinData_core tx : GetSyscoinData (core tx) = GetSyscoinData tx.
Proof.
  assert (GetSyscoinDataOutput (core tx) = GetSyscoinDataOutput tx) as E.
  { unfold GetSyscoinDataOutput. cbn [core vout]. generalize 0.
    induction (vout tx) as [|o outs IH]; intros i; [done|]. cbn. by destruct (IsUnspendable _). }
  unfold GetSyscoinData. rewrite E. destruct (_ =? -1); [done|]. cbn [core vout]. rewrite list_lookup_fmap.
  by destruct (vout tx !! _).
Qed.

Lemma LoadAssets_core batch tx tx' : LoadAssets batch tx = Ok tx' -> LoadAssets batch (core tx) = Ok (core tx').
Proof.
  rewrite !LoadAssets_Ok. change (HasAssets (core tx)) with (HasAssets tx).
  destruct (HasAssets tx); [|by intros ->]. cbn zeta.
  assert (CAssetAllocation_of_tx batch (core tx) = CAssetAllocation_of_tx batch tx) as ->.
  { unfold CAssetAllocation_of_tx. by rewrite GetSyscoinData_core. }
  intros (H1 & H2 & H3 & ->). split; [done|]. split; [done|]. split.
  - unfold entry_ok. cbn [core vout]. by rewrite length_fmap.
  - unfold core, set_vout. cbn. f_equal. unfold loaded. apply list_eq. intros i.
    rewrite list_lookup_fmap, !list_lookup_imap, list_lookup_fmap. by destruct (vout tx !! i).
Qed.

Lemma HasWitness_core tx : HasWitness (core tx) = false.
Proof. unfold HasWitness. cbn [core vin]. by induction (vin tx). Qed.

Lemma SerializeTransaction_core tx :
  SerializeTransaction SER_GETHASH SERIALIZE_TRANSACTION_NO_WITNESS (core tx) =
  SerializeTransaction SER_GETHASH SERIALIZE_TRANSACTION_NO_WITNESS tx.
Proof.
  assert (forall v o, CTxOut_Serialize SER_GETHASH v o = CTxOut_Serialize SER_GETHASH v (clear_blob o)) as Ho.
  { intros v o. unfold CTxOut_Serialize. cbn [clear_blob scriptPubKey nValue vchNEVMData].
    assert (carries_blob SER_GETHASH v (scriptPubKey o) = false) as ->; [|done].
    unfold carries_blob. change (negb (Z.land SER_GETHASH SER_NETWORK =? 0)) with false. apply andb_false_r. }
  unfold SerializeTransaction. change (fAllowWitness SERIALIZE_TRANSACTION_NO_WITNESS) with false.
  cbn [andb Z.eqb]. cbn [core vin vout nVersion nLockTime]. rewrite vin_Serialize_strip. do 3 f_equal.
  f_equal. unfold VectorFormatter_Ser. rewrite length_fmap. f_equal. f_equal. rewrite <- list_fmap_compose.
  apply list_fmap_ext. intros i o _. symmetry. apply Ho.
Qed.

Lemma valid_tx_core batch nType nStreamVersion tx :
  valid_tx batch nType nStreamVersion tx ->
  valid_tx batch SER_GETHASH SERIALIZE_TRANSACTION_NO_WITNESS (core tx).
Proof.
  intros [(Hv & Hl & Hi & Hst & [Hn Ho] & Hw & Ha) HL]. split.
  - unfold valid_raw, unloaded, set_vout, core. cbn [vin vout nVersion nLockTime set_vout unloaded] in *.
    split; [done|]. split; [done|]. split; [|split; [|split; [|split]]].
    + by rewrite <- list_fmap_compose.
    + apply Forall_fmap, Forall_true. intros i. by split; [|constructor].
    + unfold valid_vector. rewrite !length_fmap in *. split; [done|]. rewrite !Forall_fmap in *.
      eapply Forall_impl; [exact Ho|]. intros o (H1 & H2 & _ & _). split; [done|]. split; [done|]. split; [done|].
      by destruct (carries_blob _ _ _).
    + intros _. exact (HasWitness_core tx).
    + by right; right.
  - apply LoadAssets_core in HL. rewrite <- HL. f_equal. unfold core, unloaded, set_vout. cbn. f_equal.
    by rewrite <- !list_fmap_compose.
Qed.

Lemma SerializeTransaction_inj batch t1 v1 t2 v2 tx1 tx2 :
  0 < batch -> valid_tx batch t1 v1 tx1 -> valid_tx batch t2 v2 tx2 ->
  SerializeTransaction SER_GETHASH SERIALIZE_TRANSACTION_NO_WITNESS tx1 =
  SerializeTransaction SER_GETHASH SERIALIZE_TRANSACTION_NO_WITNESS tx2 -> core tx1 = core tx2.
Proof.
  intros Hb H1 H2 E. rewrite <- (SerializeTransaction_core tx1), <- (SerializeTransaction_core tx2) in E.
  pose proof (codec_get_put (Codec := transaction_codec batch SER_GETHASH _ Hb) _ [] (valid_tx_core _ _ _ _ H1)) as R1.
  pose proof (codec_get_put (Codec := transaction_codec batch SER_GETHASH _ Hb) _ [] (valid_tx_core _ _ _ _ H2)) as R2.
  rewrite E in R1. congruence.
Qed.

(** ** Properties *)

(** C22: the network and disk format of a transaction, under any stream settings:
    what is written reads back as the same transaction, whatever follows it, with
    witnesses, data-availability blobs and the assets loaded from the payload; and
    whatever the reader accepts is exactly the encoding of the transaction it
    returns, so no transaction has a second encoding. *)
Theorem transaction_wire_format (batch nType nStreamVersion : Z) (Hb : 0 < batch) :
  (forall tx s, valid_tx batch nType nStreamVersion tx ->
     UnserializeTransaction batch nType nStreamVersion (SerializeTransaction nType nStreamVersion tx ++ s) =
     Ok (tx, s)) /\
  (forall s tx s', Forall is_byte s -> UnserializeTransaction batch nType nStreamVersion s = Ok (tx, s') ->
     s = SerializeTransaction nType nStreamVersion tx ++ s' /\ valid_tx batch nType nStreamVersion tx).
Proof. split; intros *; [apply codec_get_put|apply codec_get_ok]. Qed.

Definition ex_allocation : CAssetAllocation := [{| key := 7; values := [{| n := 0; out_nValue := 1000 |}] |}].
Definition ex_tx : CTransaction :=
  {| vin := [{| prevout := {| op_hash := replicate 32 3; op_n := 1 |}; scriptSig := [1; 0]; nSequence := 5;
                scriptWitness := [[1; 2]; []] |}];
     vout := [{| nValue := 500; scriptPubKey := [0x51];
                 assetInfo := {| nAsset := 7; asset_nValue := 1000 |}; vchNEVMData := [] |};
              {| nValue := 0; scriptPubKey := OP_RETURN :: push_data (CAssetAllocation_Serialize ex_allocation);
                 assetInfo := CAssetCoinInfo_null; vchNEVMData := [] |}];
     nVersion := SYSCOIN_TX_VERSION_ALLOCATION_SEND; nLockTime := 9 |}.
Definition ex_stream : bytes := SerializeTransaction SER_NETWORK 0 ex_tx.

Lemma ex_stream_bytes : Forall is_byte ex_stream.
Proof. apply byte_list_ok. vm_compute. reflexivity. Qed.
Lemma ex_stream_reads : UnserializeTransaction 4 SER_NETWORK 0 ex_stream = Ok (ex_tx, []).
Proof. vm_compute. reflexivity. Qed.

Lemma transaction_wire_format_witness :
  ex_stream = SerializeTransaction SER_NETWORK 0 ex_tx ++ [] /\ valid_tx 4 SER_NETWORK 0 ex_tx.
Proof.
  exact (proj2 (transaction_wire_format 4 SER_NETWORK 0 ltac:(lia)) _ _ _ ex_stream_bytes ex_stream_reads).
Defined.

(** Transactions with the same id agree on version, lock time, inputs, output
    values, scripts and assets (on everything but witnesses and data-availability
    blobs) unless the two hashed byte strings are a collision of the hash. *)
Theorem transaction_id_commits (Hash : bytes -> uint256) (batch t1 v1 t2 v2 : Z) (tx1 tx2 : CTransaction)
    (Hb : 0 < batch) (H1 : valid_tx batch t1 v1 tx1) (H2 : valid_tx batch t2 v2 tx2)
    (Hid : ComputeHash Hash tx1 = ComputeHash Hash tx2) :
  let preimage := SerializeTransaction SER_GETHASH SERIALIZE_TRANSACTION_NO_WITNESS in
  core tx1 = core tx2 \/ (preimage tx1 <> preimage tx2 /\ Hash (preimage tx1) = Hash (preimage tx2)).
Proof.
  cbn zeta. destruct (decide (SerializeTransaction SER_GETHASH SERIALIZE_TRANSACTION_NO_WITNESS tx1 =
    SerializeTransaction SER_GETHASH SERIALIZE_TRANSACTION_NO_WITNESS tx2)) as [E|]; [left|by right].
  by eapply SerializeTransaction_inj.
Qed.

Definition ex_tx' : CTransaction :=
  {| vin := (fun i => set_witness i [[9]]) <$> vin ex_tx; vout := vout ex_tx; nVersion := nVersion ex_tx;
     nLockTime := nLockTime ex_tx |}.

Lemma ex_tx_valid tx :
  let s := SerializeTransaction SER_NETWORK 0 tx in
  forallb (fun b => (0 <=? b) && (b <? 256)) s = true -> UnserializeTransaction 4 SER_NETWORK 0 s = Ok (tx, []) ->
  valid_tx 4 SER_NETWORK 0 tx.
Proof.
  intros s Hs%byte_list_ok Hr.
  exact (proj2 (codec_get_ok (Codec := transaction_codec 4 SER_NETWORK 0 ltac:(lia)) _ _ _ Hs Hr)).
Qed.

Lemma transaction_id_commits_witness :
  core ex_tx = core ex_tx' \/
  (SerializeTransaction SER_GETHASH SERIALIZE_TRANSACTION_NO_WITNESS ex_tx <>
   SerializeTransaction SER_GETHASH SERIALIZE_TRANSACTION_NO_WITNESS ex_tx' /\
   SerializeTransaction SER_GETHASH SERIALIZE_TRANSACTION_NO_WITNESS ex_tx =
   SerializeTransaction SER_GETHASH SERIALIZE_TRANSACTION_NO_WITNESS ex_tx').
Proof.
  apply (transaction_id_commits (fun b => b) 4 SER_NETWORK 0 SER_NETWORK 0 ex_tx ex_tx').
  - lia.
  - apply ex_tx_valid; vm_compute; reflexivity.
  - apply ex_tx_valid; vm_compute; reflexivity.
  - vm_compute. reflexivity.
Defined.

(** [GetValueOut] returns exactly the sum of the output values (without the
    first output of a burn to SYS) when every output is in the money range and the
    sum does not exceed [MAX_MONEY], and throws otherwise; its final assert never
    fires. *)
Theorem GetValueOut_correct (tx : CTransaction) :
  GetValueOut tx =
  if decide (Forall (fun o => MoneyRange (nValue o) = true) (vout tx) /\ sum_values (counted tx) <= MAX_MONEY)
  then Ok (sum_values (counted tx)) else Throw "GetValueOut: value out of range"%string.
Proof. apply GetValueOut_eq. Qed.

(** [GetAssetValueOut] succeeds exactly when every asset amount is money and no
    asset's total exceeds [MAX_MONEY], and then the map holds for every asset that
    occurs the exact sum over the outputs, and no other asset. *)
Theorem GetAssetValueOut_correct (tx : CTransaction) (m : CAssetsMap) (ok : bool)
    (E : GetAssetValueOut tx ∅ = (m, ok)) :
  (ok = true <-> Forall asset_in_range (vout tx) /\
                 forall a, a <> 0 -> sum_asset a (vout tx) <= MAX_MONEY) /\
  (ok = true -> forall a, a <> 0 ->
     m !! a = if has_asset a (vout tx) then Some (sum_asset a (vout tx)) else None).
Proof.
  assert (map_in_range ∅) as H0 by apply map_Forall_empty. unfold GetAssetValueOut in E. split; [split|].
  - intros ->. apply GetAssetValueOut_loop_true in E as (Hm & HF & Hl); [|done]. split; [done|]. intros a Ha.
    specialize (Hl a Ha). destruct (has_asset a (vout tx)) eqn:Hh.
    + apply Hm in Hl. apply MoneyRange_spec in Hl. rewrite lookup_empty in Hl. cbn in Hl. lia.
    + assert (sum_asset a (vout tx) = 0) as ->; [by apply sum_asset_absent|done].
  - intros [HF Hb]. pose proof (GetAssetValueOut_loop_ok _ _ H0 HF) as Ho. rewrite E in Ho. apply Ho.
    intros a Ha. rewrite lookup_empty. by apply Hb.
  - intros -> a Ha. apply GetAssetValueOut_loop_true in E as (_ & _ & Hl); [|done].
    rewrite Hl by done. rewrite lookup_empty. by destruct (has_asset a (vout tx)).
Qed.

Lemma GetAssetValueOut_correct_witness :
  exists m, GetAssetValueOut ex_tx ∅ = (m, true) /\ m !! 7 = Some 1000 /\ m !! 8 = None.
Proof.
  exists (GetAssetValueOut ex_tx ∅).1.
  pose proof (proj2 (GetAssetValueOut_correct ex_tx _ true eq_refl) eq_refl) as H.
  split; [reflexivity|]. split; [exact (H 7 ltac:(lia))|exact (H 8 ltac:(lia))].
Defined.

(** loading the assets of an asset transaction succeeds exactly when the payload
    lists at least one asset, every listed asset has outputs, and every entry names
    an existing output with a money amount; then each output carries the asset of
    the last entry naming it (or what it had) and nothing else of the transaction
    changes.  Other transactions are left alone. *)
Theorem LoadAssets_correct (batch : Z) (tx tx' : CTransaction) :
  LoadAssets batch tx = Ok tx' <->
  if HasAssets tx then
    let a := CAssetAllocation_of_tx batch tx in
    a <> [] /\ Forall (fun it => values it <> []) a /\ Forall (entry_ok (vout tx)) (entries a) /\
    tx' = set_vout tx (loaded (entries a) (vout tx))
  else tx' = tx.
Proof. apply LoadAssets_Ok. Qed.

(** the payloads of the asset transactions, of a mint proof, of a burn to the
    NEVM chain and of a data-availability commitment read back from the bytes their
    serializers write, leaving exactly the bytes that follow; and a commitment has
    only one encoding. *)
Theorem payloads_read_back (batch : Z) (Hb : 0 < batch) :
  (forall a extra, valid_vector valid_asset_out a ->
     CAssetAllocation_UnserializeFromData batch (CAssetAllocation_Serialize a ++ extra) = Some (a, size extra)) /\
  (forall m extra, valid_mint m ->
     CMintSyscoin_UnserializeFromData batch (CMintSyscoin_Serialize m ++ extra) = Some (m, size extra)) /\
  (forall b extra, valid_burn b ->
     CBurnSyscoin_Unserialize batch (CBurnSyscoin_Serialize b ++ extra) = Ok (b, extra)) /\
  (forall d extra, valid_commitment d ->
     CNEVMData_UnserializeFromData (CNEVMData_Ser d ++ extra) PROTOCOL_VERSION =
     Some ({| vchVersionHash := vchVersionHash d; nVersionHashType := nVersionHashType d;
              nevm_txid := uint256_null; nevm_blob := None |}, size extra)) /\
  (forall h ty dg, DecodeNEVMVersionHash h = Some (ty, dg) -> EncodeNEVMVersionHash dg ty = h).
Proof.
  split; [|split; [|split; [|split]]].
  - intros a extra Ha. unfold CAssetAllocation_UnserializeFromData. by rewrite (get_put (valid := valid_vector valid_asset_out)).
  - intros m extra. by apply CMintSyscoin_payload.
  - intros b extra Hv. by apply (burn_round_trip batch).
  - intros d extra Hd. by apply CNEVMData_payload.
  - apply DecodeNEVMVersionHash_inv.
Qed.

Lemma payloads_read_back_witness :
  CAssetAllocation_UnserializeFromData 1 (CAssetAllocation_Serialize ex_allocation ++ [5; 6]) =
  Some (ex_allocation, 2).
Proof.
  apply (proj1 (payloads_read_back 1 ltac:(lia)) ex_allocation [5; 6]).
  split; [vm_compute; discriminate|]. constructor; [|constructor]. split; [split; vm_compute; congruence|].
  split; [vm_compute; discriminate|]. constructor; [|constructor].
  split; [split; vm_compute; congruence|reflexivity].
Defined.
