(* ===== verification/AuxPow.v ===== *)
(** * Merged mining: block headers, blocks and the auxiliary proof of work
    (src/src/auxpow.cpp, src/src/auxpow.h, src/src/primitives/pureheader.cpp,
    src/src/primitives/pureheader.h, src/src/primitives/block.h,
    [CheckProofOfWork] of src/src/validation.cpp)

    A merge-mined block carries the coinbase of a block of another chain.  The
    coinbase commits, behind a four-byte header, to the root of a Merkle tree of
    chains in which our block hash has a slot fixed by a nonce and the chain id.

    [Hash] is double SHA-256 and is a parameter; an [error(...)] return of the code
    is [Throw] with its message.

    Shown here: the auxiliary proof is accepted exactly when the coinbase has the
    documented shape; one parent coinbase commits to at most one block of a chain,
    unless two of the strings that were hashed collide; the slot is in range; block headers and blocks read
    back from the wire format; and the proof built by [createAuxPow] is never
    accepted. *)

From stdpp Require Import strings.
From S2P Require Import Prelude Serialize Amounts ArithUint256 Chain Pow Merkle Script Transaction.

(** ** The version field *)

Definition VERSION_AUXPOW : Z := Z.shiftl 1 8.
Definition VERSION_NEVM : Z := Z.shiftl 1 7.
Definition VERSION_START_BIT : Z := 16.
Definition VERSION_CHAIN_START : Z := Z.shiftl 1 VERSION_START_BIT.
Definition VERSIONAUXPOW_TOP_MASK : Z := Z.shiftl 1 28 + Z.shiftl 1 29 + Z.shiftl 1 30.
Definition MASK_AUXPOW_CHAINID_SHIFTED : Z := Z.shiftl 0x001f VERSION_START_BIT.
Definition MASK_OLD_AUXPOW_CHAINID_SHIFTED : Z := Z.shiftl 0x1fff VERSION_START_BIT.
Definition VERSION_AUXPOW_CHAINID_SHIFTED : Z := Z.shiftl 16 VERSION_START_BIT.
Definition VERSION_OLD_AUXPOW_CHAINID_SHIFTED : Z := Z.shiftl 4096 VERSION_START_BIT.

Definition IsAuxpow (ver : Z) : bool := negb (Z.land ver VERSION_AUXPOW =? 0).
Definition IsNEVM (ver : Z) : bool := negb (Z.land ver VERSION_NEVM =? 0).
Definition IsLegacy (ver : Z) : bool := ver =? 1.

Definition GetBaseVersion (ver : Z) : Z :=
  Z.land (Z.land ver (Z.lnot VERSION_AUXPOW)) (Z.lnot VERSION_AUXPOW_CHAINID_SHIFTED).
Definition GetOldBaseVersion (ver : Z) : Z :=
  Z.land (Z.land ver (Z.lnot VERSION_AUXPOW)) (Z.lnot VERSION_OLD_AUXPOW_CHAINID_SHIFTED).

Definition GetChainId (ver : Z) : Z :=
  if 0 <? Z.land ver VERSION_AUXPOW then Z.shiftr (Z.land ver MASK_AUXPOW_CHAINID_SHIFTED) VERSION_START_BIT else 0.
Definition GetOldChainId (ver : Z) : Z :=
  if 0 <? Z.land ver VERSION_AUXPOW then Z.shiftr (Z.land ver MASK_OLD_AUXPOW_CHAINID_SHIFTED) VERSION_START_BIT else 0.

(** [None]: a failed assert. *)
Definition SetBaseVersion (ver nBaseVersion nChainId : Z) : option Z :=
  let withoutTopMask := Z.land nBaseVersion (Z.lnot VERSIONAUXPOW_TOP_MASK) in
  if (0 <=? withoutTopMask) && (withoutTopMask <? VERSION_CHAIN_START) && negb (IsAuxpow ver)
  then Some (Z.lor nBaseVersion (wraps 32 (Z.shiftl nChainId VERSION_START_BIT))) else None.
Definition SetOldBaseVersion (ver nBaseVersion nChainId : Z) : option Z :=
  if (1 <=? nBaseVersion) && (nBaseVersion <? VERSION_CHAIN_START) && negb (IsAuxpow ver)
  then Some (Z.lor nBaseVersion (wraps 32 (Z.shiftl nChainId VERSION_START_BIT))) else None.

Definition SetAuxpowVersion (ver : Z) (auxpow : bool) : Z :=
  if auxpow then Z.lor ver VERSION_AUXPOW else Z.land ver (Z.lnot VERSION_AUXPOW).

(** ** Headers *)

Definition CPureBlockHeader_Serialize (h : CPureBlockHeader) : bytes :=
  Serialize_i32 (hdr_nVersion h) ++ Serialize_uint256 (hashPrevBlock h) ++ Serialize_uint256 (hdr_hashMerkleRoot h) ++
  ser_writedata32 (hdr_nTime h) ++ ser_writedata32 (hdr_nBits h) ++ ser_writedata32 (hdr_nNonce h).
Definition CPureBlockHeader_Unserialize : reader CPureBlockHeader :=
  v ← Unserialize_i32; p ← Unserialize_uint256; m ← Unserialize_uint256;
  t ← ser_readdata32; b ← ser_readdata32; k ← ser_readdata32;
  mret {| hdr_nVersion := v; hashPrevBlock := p; hdr_hashMerkleRoot := m;
          hdr_nTime := t; hdr_nBits := b; hdr_nNonce := k |}.

Record CAuxPow := {
  coinbaseTx : CTransaction; vMerkleBranch : list uint256; vChainMerkleBranch : list uint256;
  nChainIndex : Z; parentBlock : CPureBlockHeader }.

Record CBlockHeader := { pure : CPureBlockHeader; auxpow : option CAuxPow }.
Record CBlock := { header : CBlockHeader; vtx : list CTransaction; vchNEVMBlockData : bytes }.

Section format.
Context (batch nType nStreamVersion : Z).

(** The two unused fields are written as zero and ignored when read. *)
Definition CAuxPow_Serialize (a : CAuxPow) : bytes :=
  SerializeTransaction nType nStreamVersion (coinbaseTx a) ++ Serialize_uint256 uint256_null ++
  VectorFormatter_Ser Serialize_uint256 (vMerkleBranch a) ++ Serialize_i32 0 ++
  VectorFormatter_Ser Serialize_uint256 (vChainMerkleBranch a) ++ Serialize_i32 (nChainIndex a) ++
  CPureBlockHeader_Serialize (parentBlock a).
Definition CAuxPow_Unserialize : reader CAuxPow :=
  tx ← UnserializeTransaction batch nType nStreamVersion; hashBlock ← Unserialize_uint256;
  br ← VectorFormatter_Unser batch Unserialize_uint256; nIndex ← Unserialize_i32;
  cbr ← VectorFormatter_Unser batch Unserialize_uint256; idx ← Unserialize_i32; h ← CPureBlockHeader_Unserialize;
  mret {| coinbaseTx := tx; vMerkleBranch := br; vChainMerkleBranch := cbr; nChainIndex := idx; parentBlock := h |}.

(** The assert that an auxpow version has an auxpow is the [option]. *)
Definition CBlockHeader_Serialize (h : CBlockHeader) : option bytes :=
  if IsAuxpow (hdr_nVersion (pure h)) then
    a ← auxpow h; Some (CPureBlockHeader_Serialize (pure h) ++ CAuxPow_Serialize a)
  else Some (CPureBlockHeader_Serialize (pure h)).
Definition CBlockHeader_Unserialize : reader CBlockHeader :=
  h ← CPureBlockHeader_Unserialize;
  if IsAuxpow (hdr_nVersion h) then a ← CAuxPow_Unserialize; mret {| pure := h; auxpow := Some a |}
  else mret {| pure := h; auxpow := None |}.

Definition carries_nevm_block (ver : Z) : bool :=
  IsNEVM ver && (Z.land nType SER_GETHASH =? 0) && (Z.land nType SER_SIZE =? 0).

Definition CBlock_Serialize (b : CBlock) : option bytes :=
  h ← CBlockHeader_Serialize (header b);
  Some (h ++ VectorFormatter_Ser (SerializeTransaction nType nStreamVersion) (vtx b) ++
        (if carries_nevm_block (hdr_nVersion (pure (header b))) then Serialize_bytes (vchNEVMBlockData b) else [])).
Definition CBlock_Unserialize : reader CBlock :=
  h ← CBlockHeader_Unserialize;
  txs ← VectorFormatter_Unser batch (UnserializeTransaction batch nType nStreamVersion);
  d ← (if carries_nevm_block (hdr_nVersion (pure h)) then Unserialize_bytes else mret []);
  mret {| header := h; vtx := txs; vchNEVMBlockData := d |}.
End format.

(** ** [CAuxPow::check] *)

Definition pchMergedMiningHeader : bytes := [0xfa; 0xbe; 0x6d; 0x6d].

(** [res <<= 8; res |= bytes[3 - i]] for [i] from 0 to 3. *)
Definition DecodeLE32 (b : bytes) : Z :=
  foldl (fun res i => Z.lor (wrapu 32 (Z.shiftl res 8)) (byte_at b (3 - i)%nat)) 0 [0; 1; 2; 3]%nat.

(** [std::search]: the first position where [needle] matches, else the end. *)
Fixpoint search (hay needle : bytes) : nat :=
  if decide (needle = take (length needle) hay) then 0%nat
  else match hay with
  | [] => 0%nat
  | _ :: hay => S (search hay needle)
  end.

Definition getExpectedIndex (nNonce nChainId h : Z) : Z :=
  let mod_ := Z.shiftl 1 h in
  let rand := wrapu 64 (wrapu 64 (nNonce * 1103515245) + 12345) in
  let rand := rand mod mod_ in
  let rand := wrapu 64 (rand + nChainId) in
  let rand := wrapu 64 (wrapu 64 (rand * 1103515245) + 12345) in
  wraps 32 (rand mod mod_).

(** The consensus parameters the auxpow code reads. *)
Record AuxParams := { nAuxpowChainId : Z; nAuxpowOldChainId : Z; fStrictChainId : bool }.

Section auxpow.
Context (Hash : bytes -> uint256).

Definition CPureBlockHeader_GetHash (h : CPureBlockHeader) : uint256 := Hash (CPureBlockHeader_Serialize h).
Definition pair_hash (a b : uint256) : uint256 := Hash (a ++ b).
Definition aux_CheckMerkleBranch := CheckMerkleBranch uint256_null pair_hash.

(** The shape of the parent coinbase: where the root is and what follows it. *)
Definition check_script (script nRootHash : bytes) : result string bytes :=
  let vchRootHash := reverse nRootHash in
  let pcHead := search script pchMergedMiningHeader in
  let pc := search script vchRootHash in
  if (pc =? length script)%nat then Throw "Aux POW missing chain merkle root in parent coinbase"%string
  else if (pcHead =? length script)%nat then Throw "Missing auxpow header"%string
  else if negb (S pcHead + search (drop (S pcHead) script) pchMergedMiningHeader =? length script)%nat
  then Throw "Multiple merged mining headers in coinbase"%string
  else if negb (pcHead + 4 =? pc)%nat
  then Throw "Merged mining header is not just before chain merkle root"%string
  else
    let rest := drop (pc + length vchRootHash) script in
    if (length rest <? 8)%nat
    then Throw "Aux POW missing chain merkle tree size and nonce in parent coinbase"%string
    else Ok rest.

Definition check (a : CAuxPow) (hashAuxBlock : uint256) (nChainId : Z) (params : AuxParams) : result string unit :=
  let parentVersion := hdr_nVersion (parentBlock a) in
  let nChainIDParent := GetChainId parentVersion in
  if fStrictChainId params && (0 <? nChainIDParent) && (nChainIDParent =? nAuxpowChainId params)
  then Throw "Aux POW parent has our chain ID"%string
  else if fStrictChainId params && negb (0 <? nChainIDParent) && (GetOldChainId parentVersion =? nAuxpowOldChainId params)
  then Throw "Aux POW parent has our old chain ID"%string
  else if (30 <? length (vChainMerkleBranch a))%nat then Throw "Aux POW chain merkle branch too long"%string
  else
    let nRootHash := aux_CheckMerkleBranch hashAuxBlock (vChainMerkleBranch a) (nChainIndex a) in
    if negb (bool_decide (aux_CheckMerkleBranch (ComputeHash Hash (coinbaseTx a)) (vMerkleBranch a) 0 =
                          hdr_hashMerkleRoot (parentBlock a)))
    then Throw "Aux POW merkle root incorrect"%string
    else match vin (coinbaseTx a) with
    | [] => Throw "Aux POW coinbase has no inputs"%string
    | i :: _ =>
        rest ← check_script (scriptSig i) nRootHash;
        let nSize := DecodeLE32 rest in
        let merkleHeight := Z.of_nat (length (vChainMerkleBranch a)) in
        if negb (nSize =? wrapu 32 (Z.shiftl 1 merkleHeight))
        then Throw "Aux POW merkle branch size does not match parent coinbase"%string
        else
          let nNonce := DecodeLE32 (drop 4 rest) in
          if negb (nChainIndex a =? getExpectedIndex nNonce nChainId merkleHeight)
          then Throw "Aux POW wrong index"%string
          else Ok tt
    end.

(** ** [createAuxPow] and [initAuxPow] *)

Definition createAuxPow (h : CPureBlockHeader) : option CAuxPow :=
  if negb (IsAuxpow (hdr_nVersion h)) then None
  else
    let inputData := reverse (CPureBlockHeader_GetHash h) ++ [1] ++ replicate 7 0 in
    let coinbase := {| vin := [{| prevout := {| op_hash := uint256_null; op_n := NULL_INDEX |};
                                  scriptSig := push_data inputData; nSequence := 0xffffffff; scriptWitness := [] |}];
                       vout := []; Transaction.nVersion := 2; nLockTime := 0 |} in
    '(root, _) ← BlockMerkleRoot uint256_null pair_hash [ComputeHash Hash coinbase];
    Some {| coinbaseTx := coinbase; vMerkleBranch := []; vChainMerkleBranch := []; nChainIndex := 0;
            parentBlock := {| hdr_nVersion := 1; hashPrevBlock := uint256_null; hdr_hashMerkleRoot := root;
                              hdr_nTime := 0; hdr_nBits := 0; hdr_nNonce := 0 |} |}.

Definition with_version (h : CPureBlockHeader) (v : Z) : CPureBlockHeader :=
  {| hdr_nVersion := v; hashPrevBlock := hashPrevBlock h; hdr_hashMerkleRoot := hdr_hashMerkleRoot h;
     hdr_nTime := hdr_nTime h; hdr_nBits := hdr_nBits h; hdr_nNonce := hdr_nNonce h |}.

Definition initAuxPow (h : CBlockHeader) : option CBlockHeader :=
  let p := with_version (pure h) (SetAuxpowVersion (hdr_nVersion (pure h)) true) in
  a ← createAuxPow p; Some {| pure := p; auxpow := Some a |}.

(** ** [CheckProofOfWork] of a block header (validation.cpp) *)

Definition CheckProofOfWork_header {U} `{AU : ArithUint U} (block : CBlockHeader) (params : Params)
    (ap : AuxParams) : result string unit :=
  let ver := hdr_nVersion (pure block) in
  let nChainID := GetChainId ver in
  let strict := negb (IsLegacy ver) && fStrictChainId ap in
  if strict && (0 <? nChainID) && negb (nChainID =? nAuxpowChainId ap)
  then Throw "block does not have our chain ID"%string
  else if strict && negb (0 <? nChainID) && bool_decide (is_Some (auxpow block)) &&
          negb (GetOldChainId ver =? nAuxpowOldChainId ap)
  then Throw "block does not have our old chain ID"%string
  else match auxpow block with
  | None =>
      if IsAuxpow ver then Throw "no auxpow on block with auxpow version"%string
      else if CheckProofOfWork (U := U) (CPureBlockHeader_GetHash (pure block)) (hdr_nBits (pure block)) params
      then Ok tt else Throw "non-AUX proof of work failed"%string
  | Some a =>
      if negb (IsAuxpow ver) then Throw "auxpow on block with non-auxpow version"%string
      else if negb (CheckProofOfWork (U := U) (CPureBlockHeader_GetHash (parentBlock a)) (hdr_nBits (pure block)) params)
      then Throw "AUX proof of work failed"%string
      else match check a (CPureBlockHeader_GetHash (pure block)) nChainID ap with
      | Ok _ => Ok tt
      | Throw _ => Throw "AUX POW is not valid"%string
      end
  end.

End auxpow.

(** ** Searching *)

Definition occurs_at (needle hay : bytes) (k : nat) : Prop := take (length needle) (drop k hay) = needle.

Lemma search_le hay needle : (search hay needle <= length hay)%nat.
Proof. induction hay as [|x hay IH]; cbn [search length]; case_decide; lia. Qed.

Lemma search_found hay needle :
  needle <> [] -> (search hay needle < length hay)%nat -> occurs_at needle hay (search hay needle).
Proof.
  intros Hn. unfold occurs_at. induction hay as [|x hay IH]; cbn [search length]; case_decide as E; try lia.
  - intros _. by rewrite drop_0.
  - intros Hl. apply IH. lia.
Qed.

Lemma search_first hay needle k : occurs_at needle hay k -> (k <= length hay)%nat -> (search hay needle <= k)%nat.
Proof.
  unfold occurs_at. revert k. induction hay as [|x hay IH]; intros k Hk Hl; cbn [search]; case_decide as E; try lia.
  destruct k as [|k]; [by rewrite drop_0 in Hk|]. cbn [length drop] in *. specialize (IH k Hk). lia.
Qed.

Lemma occurs_at_length needle hay k : occurs_at needle hay k -> (length needle <= length hay - k)%nat.
Proof. intros E. rewrite <- E, length_take, length_drop. lia. Qed.

(** ** What an accepted coinbase script looks like *)

Lemma check_script_Ok script root rest :
  length root = 32%nat -> check_script script root = Ok rest ->
  let k := search script pchMergedMiningHeader in
  (k < length script)%nat /\ occurs_at pchMergedMiningHeader script k /\
  (forall j, occurs_at pchMergedMiningHeader script j -> j = k) /\
  reverse root = take 32 (drop (k + 4) script) /\ rest = drop (k + 36) script /\ (8 <= length rest)%nat.
Proof.
  intros Hr. unfold check_script. set (k := search script pchMergedMiningHeader).
  set (pc := search script (reverse root)).
  destruct (Nat.eqb_spec pc (length script)) as [|Hpc]; [done|].
  destruct (Nat.eqb_spec k (length script)) as [|Hk]; [done|].
  destruct (Nat.eqb_spec (S k + search (drop (S k) script) pchMergedMiningHeader) (length script)) as [Hone|]; [|done].
  destruct (Nat.eqb_spec (k + 4) pc) as [Epc|]; [|done]. cbn [negb].
  destruct (Nat.ltb_spec (length (drop (pc + length (reverse root)) script)) 8) as [|H8]; [done|]. intros [= <-].
  assert (k <= length script)%nat by apply search_le. assert (pc <= length script)%nat by apply search_le.
  assert (occurs_at pchMergedMiningHeader script k) as Hok by (apply search_found; [done|unfold k in *; lia]).
  split; [lia|]. split; [done|]. split; [|split; [|split]].
  - intros j Hj. pose proof (occurs_at_length _ _ _ Hj) as Hl. change (length pchMergedMiningHeader) with 4%nat in Hl.
    assert (k <= j)%nat by (apply search_first; [done|lia]).
    destruct (decide (j = k)) as [|Hne]; [done|]. exfalso.
    assert (search (drop (S k) script) pchMergedMiningHeader <= j - S k)%nat; [|lia].
    apply search_first; [|rewrite length_drop; lia]. unfold occurs_at in *. rewrite drop_drop.
    by replace (S k + (j - S k))%nat with j by lia.
  - assert (occurs_at (reverse root) script pc) as E.
    { apply search_found; [|unfold pc in *; lia]. intros E. apply (f_equal length) in E. rewrite length_reverse in E. cbn in E. lia. }
    unfold occurs_at in E. rewrite length_reverse, Hr in E. by rewrite Epc, E.
  - rewrite length_reverse, Hr. f_equal. lia.
  - done.
Qed.

(** ** The slot *)

Lemma getExpectedIndex_range nonce id h : 0 <= h <= 30 -> 0 <= getExpectedIndex nonce id h < 2 ^ h.
Proof.
  intros Hh. unfold getExpectedIndex. rewrite Z.shiftl_1_l.
  assert (0 < 2 ^ h <= 2 ^ 30) by (split; [lia|apply Z.pow_le_mono_r; lia]).
  match goal with |- context [wraps 32 (?x mod _)] => set (r := x) end.
  pose proof (Z.mod_pos_bound r (2 ^ h)). rewrite wraps_id by (unfold in_s; lia). lia.
Qed.

Section collisions.
Context (Hash : bytes -> uint256) (Hash_length : forall b, length (Hash b) = 32%nat).

Abbreviation tx_string tx := (SerializeTransaction SER_GETHASH SERIALIZE_TRANSACTION_NO_WITNESS tx).

(** The strings hashed along a Merkle branch. *)
Fixpoint branch_strings (h : uint256) (br : list uint256) (i : Z) : list bytes :=
  match br with
  | [] => []
  | x :: br => let s := if Z.land i 1 =? 0 then h ++ x else x ++ h in s :: branch_strings (Hash s) br (Z.shiftr i 1)
  end.

(** The strings hashed when a header is checked with its auxiliary proof: the header, the
    coinbase of the parent, and the pairs along its branch and along the branch of chains. *)
Definition checked_strings (b : CBlockHeader) (a : CAuxPow) : list bytes :=
  CPureBlockHeader_Serialize (pure b) :: tx_string (coinbaseTx a) ::
  branch_strings (ComputeHash Hash (coinbaseTx a)) (vMerkleBranch a) 0 ++
  branch_strings (CPureBlockHeader_GetHash Hash (pure b)) (vChainMerkleBranch a) (nChainIndex a).

Abbreviation strings_collide l l' := (collide Hash (fun s => s ∈ l) (fun s => s ∈ l')).

Lemma strings_collide_mono (l1 l1' l2 l2' : list bytes) : l1 ⊆ l1' -> l2 ⊆ l2' -> strings_collide l1 l2 -> strings_collide l1' l2'.
Proof. intros ? ?. apply collide_mono; set_solver. Qed.

Lemma branch_loop_length br h i :
  length h = 32%nat -> length (CheckMerkleBranch_loop (pair_hash Hash) h br i) = 32%nat.
Proof.
  revert h i. induction br as [|x br IH]; intros h i Hh; [done|]. cbn. apply IH.
  destruct (Z.land i 1 =? 0); apply Hash_length.
Qed.

Lemma branch_loop_eq br br' h h' i :
  length h = 32%nat -> length h' = 32%nat ->
  Forall (fun x => length x = 32%nat) br -> Forall (fun x => length x = 32%nat) br' -> length br = length br' ->
  CheckMerkleBranch_loop (pair_hash Hash) h br i = CheckMerkleBranch_loop (pair_hash Hash) h' br' i ->
  (h = h' /\ br = br') \/ strings_collide (branch_strings h br i) (branch_strings h' br' i).
Proof.
  revert br' h h' i. induction br as [|x br IH]; intros [|x' br'] h h' i Hh Hh' Hb Hb' Hl E; [by left|done|done|].
  apply Forall_cons in Hb as [Hx Hb]. apply Forall_cons in Hb' as [Hx' Hb']. cbn in E. cbn [branch_strings].
  destruct (Z.land i 1 =? 0); cbn zeta; (apply IH in E as [[E ->]|Hc];
    [|right; eapply strings_collide_mono; [..|exact Hc]; set_solver|apply Hash_length|apply Hash_length|done|done|cbn in Hl; lia]).
  - edestruct (hash_inj Hash) as [E'|Hc]; [| |exact E|..|right; exact Hc]; [left|left|]. left. apply app_inj_1 in E' as [-> ->]; [done|congruence].
  - edestruct (hash_inj Hash) as [E'|Hc]; [| |exact E|..|right; exact Hc]; [left|left|]. left. apply app_inj_1 in E' as [-> ->]; [done|congruence].
Qed.

Lemma check_Ok a h id params :
  check Hash a h id params = Ok tt ->
  (length (vChainMerkleBranch a) <= 30)%nat /\
  aux_CheckMerkleBranch Hash (ComputeHash Hash (coinbaseTx a)) (vMerkleBranch a) 0 = hdr_hashMerkleRoot (parentBlock a) /\
  exists i l rest, vin (coinbaseTx a) = i :: l /\
    check_script (scriptSig i) (aux_CheckMerkleBranch Hash h (vChainMerkleBranch a) (nChainIndex a)) = Ok rest /\
    DecodeLE32 rest = wrapu 32 (Z.shiftl 1 (Z.of_nat (length (vChainMerkleBranch a)))) /\
    nChainIndex a = getExpectedIndex (DecodeLE32 (drop 4 rest)) id (Z.of_nat (length (vChainMerkleBranch a))).
Proof.
  unfold check. destruct (_ && _); [done|]. destruct (_ && _); [done|].
  destruct (Nat.ltb_spec 30 (length (vChainMerkleBranch a))); [done|].
  case_bool_decide as Hm; [|done]. cbn [negb]. destruct (vin (coinbaseTx a)) as [|i l]; [done|].
  intros (rest & Hs & E)%bind_ok. split; [done|]. split; [done|]. exists i, l, rest. split; [done|]. split; [done|].
  destruct (Z.eqb_spec (DecodeLE32 rest) (wrapu 32 (Z.shiftl 1 (Z.of_nat (length (vChainMerkleBranch a)))))); [|done].
  cbn [negb] in E. by destruct (Z.eqb_spec (nChainIndex a)
    (getExpectedIndex (DecodeLE32 (drop 4 rest)) id (Z.of_nat (length (vChainMerkleBranch a))))).
Qed.

Lemma size_inj a b : (a <= 30)%nat -> (b <= 30)%nat ->
  wrapu 32 (Z.shiftl 1 (Z.of_nat a)) = wrapu 32 (Z.shiftl 1 (Z.of_nat b)) -> a = b.
Proof.
  intros Ha Hb. rewrite !Z.shiftl_1_l.
  assert (forall n, (n <= 30)%nat -> wrapu 32 (2 ^ Z.of_nat n) = 2 ^ Z.of_nat n) as W.
  { intros n Hn. apply wrapu_id. unfold in_u. split; [lia|apply Z.pow_lt_mono_r; lia]. }
  rewrite !W by done. intros E. apply Z.pow_inj_r in E; lia.
Qed.

(** The same coinbase script, chain id and a proof each: the same block. *)
Lemma same_script_same_block a1 a2 h1 h2 id p1 p2 :
  length h1 = 32%nat -> length h2 = 32%nat ->
  Forall (fun x => length x = 32%nat) (vChainMerkleBranch a1) ->
  Forall (fun x => length x = 32%nat) (vChainMerkleBranch a2) ->
  check Hash a1 h1 id p1 = Ok tt -> check Hash a2 h2 id p2 = Ok tt ->
  scriptSig <$> head (vin (coinbaseTx a1)) = scriptSig <$> head (vin (coinbaseTx a2)) ->
  (h1 = h2 /\ vChainMerkleBranch a1 = vChainMerkleBranch a2 /\ nChainIndex a1 = nChainIndex a2) \/
  strings_collide (branch_strings h1 (vChainMerkleBranch a1) (nChainIndex a1)) (branch_strings h2 (vChainMerkleBranch a2) (nChainIndex a2)).
Proof.
  intros Hh1 Hh2 Hb1 Hb2 C1 C2 Hs.
  apply check_Ok in C1 as (H1 & _ & i1 & l1 & r1 & E1 & S1 & Z1 & X1).
  apply check_Ok in C2 as (H2 & _ & i2 & l2 & r2 & E2 & S2 & Z2 & X2).
  rewrite E1, E2 in Hs. cbn in Hs. injection Hs as Hs.
  assert (forall n (x : CAuxPow) i r, (length (vChainMerkleBranch x) <= 30)%nat ->
    nChainIndex x = getExpectedIndex n i r -> r = Z.of_nat (length (vChainMerkleBranch x)) -> nChainIndex x <> -1) as Hpos.
  { intros n x i r Hl -> ->. pose proof (getExpectedIndex_range n i (Z.of_nat (length (vChainMerkleBranch x)))). lia. }
  pose proof (Hpos _ _ _ _ H1 X1 eq_refl) as N1. pose proof (Hpos _ _ _ _ H2 X2 eq_refl) as N2. clear Hpos.
  unfold aux_CheckMerkleBranch, CheckMerkleBranch in S1, S2.
  destruct (Z.eqb_spec (nChainIndex a1) (-1)); [done|]. destruct (Z.eqb_spec (nChainIndex a2) (-1)); [done|].
  apply check_script_Ok in S1 as (_ & _ & _ & R1 & -> & _); [|by apply branch_loop_length].
  apply check_script_Ok in S2 as (_ & _ & _ & R2 & -> & _); [|by apply branch_loop_length].
  rewrite Hs in *. rewrite <- R2 in R1. apply (inj reverse) in R1.
  assert (length (vChainMerkleBranch a1) = length (vChainMerkleBranch a2)) as Hl by (apply size_inj; congruence).
  rewrite Hl in X1. rewrite <- X2 in X1. rewrite X1 in *.
  destruct (branch_loop_eq _ _ _ _ _ Hh1 Hh2 Hb1 Hb2 Hl R1) as [[-> ->]|?]; [by left|by right].
Qed.

(** The same root at the same depth: the same coinbase, but for witnesses. *)
Lemma same_root_same_coinbase batch t v a1 a2 :
  0 < batch -> valid_tx batch t v (coinbaseTx a1) -> valid_tx batch t v (coinbaseTx a2) ->
  Forall (fun x => length x = 32%nat) (vMerkleBranch a1) -> Forall (fun x => length x = 32%nat) (vMerkleBranch a2) ->
  length (vMerkleBranch a1) = length (vMerkleBranch a2) ->
  aux_CheckMerkleBranch Hash (ComputeHash Hash (coinbaseTx a1)) (vMerkleBranch a1) 0 =
  aux_CheckMerkleBranch Hash (ComputeHash Hash (coinbaseTx a2)) (vMerkleBranch a2) 0 ->
  core (coinbaseTx a1) = core (coinbaseTx a2) \/
  strings_collide (tx_string (coinbaseTx a1) :: branch_strings (ComputeHash Hash (coinbaseTx a1)) (vMerkleBranch a1) 0)
    (tx_string (coinbaseTx a2) :: branch_strings (ComputeHash Hash (coinbaseTx a2)) (vMerkleBranch a2) 0).
Proof.
  intros Hb V1 V2 B1 B2 Hl E. unfold aux_CheckMerkleBranch, CheckMerkleBranch in E.
  apply branch_loop_eq in E as [[E _]|Hc]; [|right; eapply strings_collide_mono; [..|exact Hc]; set_solver|apply Hash_length..|done|done|done].
  edestruct (hash_inj Hash) as [E'|Hc]; [| |exact E|..|right; exact Hc]; [left|left|left]. by eapply SerializeTransaction_inj.
Qed.
End collisions.

(** ** Formats *)

Definition valid_pure (h : CPureBlockHeader) : Prop :=
  in_s 32 (hdr_nVersion h) /\ valid_uint256 (hashPrevBlock h) /\ valid_uint256 (hdr_hashMerkleRoot h) /\
  in_u 32 (hdr_nTime h) /\ in_u 32 (hdr_nBits h) /\ in_u 32 (hdr_nNonce h).

#[export] Instance pure_header_codec : Codec CPureBlockHeader_Serialize CPureBlockHeader_Unserialize valid_pure.
Proof.
  split; unfold CPureBlockHeader_Serialize, CPureBlockHeader_Unserialize, valid_pure.
  - intros h (? & ? & ? & ? & ? & ?). rewrite !Forall_app. repeat split; by eapply codec_bytes.
  - intros [v p m t b k] s (? & ? & ? & ? & ? & ?).
    cbn [hdr_nVersion hashPrevBlock hdr_hashMerkleRoot hdr_nTime hdr_nBits hdr_nNonce] in *. by codec_put done.
  - intros s h s' Hs E. do 6 codec_get E. injection E as <- <-.
    cbn [hdr_nVersion hashPrevBlock hdr_hashMerkleRoot hdr_nTime hdr_nBits hdr_nNonce]. by rewrite <- !app_assoc.
Qed.

Section format_facts.
Context (batch nType nStreamVersion : Z) (Hbatch : 0 < batch).

Definition valid_auxpow (a : CAuxPow) : Prop :=
  valid_tx batch nType nStreamVersion (coinbaseTx a) /\ valid_vector valid_uint256 (vMerkleBranch a) /\
  valid_vector valid_uint256 (vChainMerkleBranch a) /\ in_s 32 (nChainIndex a) /\ valid_pure (parentBlock a).

Lemma uint256_null_valid : valid_uint256 uint256_null.
Proof. split; [done|]. by apply Forall_replicate. Qed.

#[export] Instance auxpow_round_trip :
  RoundTrip (CAuxPow_Serialize nType nStreamVersion) (CAuxPow_Unserialize batch nType nStreamVersion) valid_auxpow.
Proof.
  intros [] s (? & ? & ? & ? & ?). unfold CAuxPow_Serialize, CAuxPow_Unserialize.
  cbn [coinbaseTx vMerkleBranch vChainMerkleBranch nChainIndex parentBlock] in *.
  by codec_put ltac:(first [done | exact uint256_null_valid]).
Qed.

(** The auxpow flag of the version and the presence of an auxpow agree. *)
Definition valid_header (h : CBlockHeader) : Prop :=
  valid_pure (pure h) /\
  match auxpow h with
  | Some a => IsAuxpow (hdr_nVersion (pure h)) = true /\ valid_auxpow a
  | None => IsAuxpow (hdr_nVersion (pure h)) = false
  end.

Lemma header_round_trip h :
  valid_header h -> exists s, CBlockHeader_Serialize nType nStreamVersion h = Some s /\
    forall rest, CBlockHeader_Unserialize batch nType nStreamVersion (s ++ rest) = Ok (h, rest).
Proof.
  destruct h as [p [a|]]; intros [Hp Ha]; cbn [pure auxpow] in *; unfold CBlockHeader_Serialize, CBlockHeader_Unserialize;
    cbn [pure auxpow].
  - destruct Ha as [Hv Ha]. rewrite Hv. eexists. split; [reflexivity|]. intros rest. codec_put1 done || (rewrite <- app_assoc; codec_put1 done).
    rewrite Hv. by codec_put done.
  - rewrite Ha. eexists. split; [reflexivity|]. intros rest. codec_put1 done. by rewrite Ha.
Qed.

Definition valid_block (b : CBlock) : Prop :=
  valid_header (header b) /\ valid_vector (valid_tx batch nType nStreamVersion) (vtx b) /\
  if carries_nevm_block nType (hdr_nVersion (pure (header b)))
  then valid_bytes (vchNEVMBlockData b) else vchNEVMBlockData b = [].

Lemma block_round_trip b :
  valid_block b -> exists s, CBlock_Serialize nType nStreamVersion b = Some s /\
    forall rest, CBlock_Unserialize batch nType nStreamVersion (s ++ rest) = Ok (b, rest).
Proof.
  destruct b as [h txs d]. intros (Hh & Ht & Hd). cbn [header vtx vchNEVMBlockData] in *.
  destruct (header_round_trip h Hh) as (s & Es & Hs). unfold CBlock_Serialize, CBlock_Unserialize.
  cbn [header vtx vchNEVMBlockData]. rewrite Es. eexists. split; [reflexivity|]. intros rest. rewrite <- !app_assoc.
  erewrite reader_bind_run by apply Hs. codec_put1 done.
  destruct (carries_nevm_block _ _); [by codec_put1 done|]. by subst d.
Qed.
End format_facts.

(** ** The minimal proof of [createAuxPow] *)

Lemma createAuxPow_script Hash h a :
  (forall b, length (Hash b) = 32%nat) -> createAuxPow Hash h = Some a ->
  vChainMerkleBranch a = [] /\ nChainIndex a = 0 /\
  exists i, vin (coinbaseTx a) = [i] /\
    scriptSig i = 40 :: reverse (CPureBlockHeader_GetHash Hash h) ++ [1; 0; 0; 0; 0; 0; 0; 0].
Proof.
  intros HL. unfold createAuxPow. destruct (negb _); [done|]. set (d := reverse (CPureBlockHeader_GetHash Hash h) ++ _).
  cbn. intros [= <-]. cbn. do 2 (split; [done|]). eexists. split; [reflexivity|]. cbn.
  assert (size d = 40) as Hd.
  { unfold d, size, CPureBlockHeader_GetHash. rewrite length_app, length_reverse, HL. done. }
  unfold push_data. rewrite Hd. done.
Qed.

Lemma createAuxPow_check Hash h a id params :
  (forall b, length (Hash b) = 32%nat) -> createAuxPow Hash h = Some a ->
  is_ok (check Hash a (CPureBlockHeader_GetHash Hash h) id params) = false.
Proof.
  intros HL (Hb & Hi & i & Ev & Es)%createAuxPow_script; [|done].
  destruct (check _ _ _ _ _) as [[]|e] eqn:C; [|done]. exfalso.
  apply check_Ok in C as (_ & _ & i' & l & rest & Ev' & Hs & _). rewrite Ev in Ev'. injection Ev' as <- _.
  rewrite Hb, Hi in Hs. unfold aux_CheckMerkleBranch, CheckMerkleBranch in Hs. cbn in Hs.
  set (root := CPureBlockHeader_GetHash Hash h) in *.
  assert (search (scriptSig i) (reverse root) <= 1)%nat as Hpc.
  { apply search_first; [|rewrite Es; cbn; lia]. unfold occurs_at. rewrite Es. cbn [drop].
    rewrite ?drop_0. by rewrite take_app_length. }
  unfold check_script in Hs. destruct (_ =? _)%nat; [done|]. destruct (_ =? _)%nat; [done|].
  destruct (negb _); [done|].
  destruct (Nat.eqb_spec (search (scriptSig i) pchMergedMiningHeader + 4) (search (scriptSig i) (reverse root))); [lia|done].
Qed.

Lemma CheckProofOfWork_header_auxpow {U} `{AU : ArithUint U} Hash (b : CBlockHeader) params ap a :
  CheckProofOfWork_header (U := U) Hash b params ap = Ok tt -> auxpow b = Some a ->
  check Hash a (CPureBlockHeader_GetHash Hash (pure b)) (GetChainId (hdr_nVersion (pure b))) ap = Ok tt.
Proof.
  unfold CheckProofOfWork_header. intros E Ha. rewrite Ha in E.
  destruct (_ && _); [done|]. destruct (_ && _); [done|]. destruct (negb _); [done|]. destruct (negb _); [done|].
  by destruct (check _ _ _ _ _) as [[]|].
Qed.

Lemma valid_vector_length l : valid_vector valid_uint256 l -> Forall (fun x => length x = 32%nat) l.
Proof. intros [_ H]. eapply Forall_impl; [exact H|]. by intros x [? _]. Qed.

(** ** Properties *)

(** C21: work on a parent block counts once.  Two merge-mined block headers that the
    wire format can carry, of the same chain id, that both pass [CheckProofOfWork], and whose proofs name
    parent blocks with the same Merkle root and coinbases at the same depth, are the
    same header, with the same slot and branch, unless two different strings that are hashed when
    the two are checked - the headers, the coinbases of the parents and the pairs
    along the branches - have the same hash. *)
Theorem merged_mining_no_reuse {U} `{AU : ArithUint U} (Hash : bytes -> uint256) (batch nType nStreamVersion : Z)
    (b1 b2 : CBlockHeader) (a1 a2 : CAuxPow) (params1 params2 : Params) (ap1 ap2 : AuxParams)
    (HL : forall b, length (Hash b) = 32%nat) (Hb : 0 < batch)
    (V1 : valid_header batch nType nStreamVersion b1) (V2 : valid_header batch nType nStreamVersion b2)
    (E1 : auxpow b1 = Some a1) (E2 : auxpow b2 = Some a2)
    (W1 : CheckProofOfWork_header (U := U) Hash b1 params1 ap1 = Ok tt)
    (W2 : CheckProofOfWork_header (U := U) Hash b2 params2 ap2 = Ok tt)
    (Hid : GetChainId (hdr_nVersion (pure b1)) = GetChainId (hdr_nVersion (pure b2)))
    (Hroot : hdr_hashMerkleRoot (parentBlock a1) = hdr_hashMerkleRoot (parentBlock a2))
    (Hdepth : length (vMerkleBranch a1) = length (vMerkleBranch a2)) :
  (pure b1 = pure b2 /\ vChainMerkleBranch a1 = vChainMerkleBranch a2 /\ nChainIndex a1 = nChainIndex a2) \/
  collide Hash (fun s => s ∈ checked_strings Hash b1 a1) (fun s => s ∈ checked_strings Hash b2 a2).
Proof.
  destruct V1 as [P1 V1]. destruct V2 as [P2 V2]. rewrite E1 in V1. rewrite E2 in V2.
  destruct V1 as (_ & T1 & M1 & C1 & _). destruct V2 as (_ & T2 & M2 & C2 & _).
  apply valid_vector_length in M1, M2, C1, C2.
  pose proof (CheckProofOfWork_header_auxpow _ _ _ _ _ W1 E1) as K1.
  pose proof (CheckProofOfWork_header_auxpow _ _ _ _ _ W2 E2) as K2. rewrite Hid in K1.
  pose proof (check_Ok _ _ _ _ _ K1) as (_ & R1 & _). pose proof (check_Ok _ _ _ _ _ K2) as (_ & R2 & _).
  destruct (same_root_same_coinbase Hash HL batch nType nStreamVersion a1 a2) as [Hc|H]; [done..|congruence| |right; eapply strings_collide_mono; [..|exact H]; unfold checked_strings; set_solver].
  assert (scriptSig <$> head (vin (coinbaseTx a1)) = scriptSig <$> head (vin (coinbaseTx a2))) as Hs.
  { injection Hc as Hv _ _ _. apply (f_equal (fun l => scriptSig <$> head l)) in Hv.
    destruct (vin (coinbaseTx a1)), (vin (coinbaseTx a2)); done. }
  destruct (same_script_same_block Hash HL a1 a2 _ _ _ _ _ (HL _) (HL _) C1 C2 K1 K2 Hs) as [(Hh & ?)|H]; [|right; eapply strings_collide_mono; [..|exact H]; unfold checked_strings; set_solver].
  edestruct (hash_inj Hash) as [Hh'|H']; [| |exact Hh|..|right; exact H']; [left|left|left]. split; [|done].
  pose proof (codec_get_put (Codec := pure_header_codec) _ [] P1) as G1.
  pose proof (codec_get_put (Codec := pure_header_codec) _ [] P2) as G2. rewrite Hh' in G1. congruence.
Qed.

(** A 32-byte "hash" for the examples. *)
Definition ex_Hash (b : bytes) : uint256 := take 32 (b ++ replicate 32 0).
Definition ex_pure : CPureBlockHeader :=
  {| hdr_nVersion := Z.lor VERSION_AUXPOW VERSION_AUXPOW_CHAINID_SHIFTED; hashPrevBlock := replicate 32 1;
     hdr_hashMerkleRoot := replicate 32 2; hdr_nTime := 3; hdr_nBits := 0x207fffff; hdr_nNonce := 4 |}.
Definition ex_coinbase : CTransaction :=
  {| vin := [{| prevout := {| op_hash := uint256_null; op_n := NULL_INDEX |};
                scriptSig := [9; 9] ++ pchMergedMiningHeader ++ reverse (CPureBlockHeader_GetHash ex_Hash ex_pure) ++
                             [1; 0; 0; 0; 5; 0; 0; 0];
                nSequence := 0; scriptWitness := [] |}];
     vout := []; Transaction.nVersion := 1; nLockTime := 0 |}.
Definition ex_auxpow (t : Z) : CAuxPow :=
  {| coinbaseTx := ex_coinbase; vMerkleBranch := []; vChainMerkleBranch := []; nChainIndex := 0;
     parentBlock := {| hdr_nVersion := 1; hashPrevBlock := replicate 32 0;
                       hdr_hashMerkleRoot := ComputeHash ex_Hash ex_coinbase; hdr_nTime := t;
                       hdr_nBits := 0; hdr_nNonce := 0 |} |}.
Definition ex_header (t : Z) : CBlockHeader := {| pure := ex_pure; auxpow := Some (ex_auxpow t) |}.
Definition ex_params : Params :=
  {| powLimit := replicate 31 0xff ++ [0x7f]; fPowAllowMinDifficultyBlocks := false; fPowNoRetargeting := false;
     nPowTargetSpacing := 60; nPowTargetTimespan := 21600; nBridgeStartBlock := 0; nNEVMStartBlock := 0 |}.
Definition ex_aux : AuxParams := {| nAuxpowChainId := 16; nAuxpowOldChainId := 4096; fStrictChainId := true |}.

Lemma ex_coinbase_valid : valid_tx 4 SER_NETWORK 0 ex_coinbase.
Proof. apply ex_tx_valid; vm_compute; reflexivity. Qed.

Lemma ex_header_valid t : 0 <= t < 100 -> valid_header 4 SER_NETWORK 0 (ex_header t).
Proof.
  assert (forall x, is_byte x -> valid_uint256 (replicate 32 x)) as Hr by (intros; split; [done|by apply Forall_replicate]).
  assert (valid_uint256 (ComputeHash ex_Hash ex_coinbase)) as Hc.
  { split; [vm_compute; reflexivity|]. apply byte_list_ok. vm_compute. reflexivity. }
  intros Ht. split; [|split; [done|]].
  - unfold valid_pure, ex_header, ex_pure, in_u, in_s, is_byte in *.
    cbn [pure hdr_nVersion hashPrevBlock hdr_hashMerkleRoot hdr_nTime hdr_nBits hdr_nNonce].
    change (Z.lor VERSION_AUXPOW VERSION_AUXPOW_CHAINID_SHIFTED) with 1048832.
    split_and!; first [lia | apply Hr; lia].
  - split; [exact ex_coinbase_valid|]. split; [by split|]. split; [by split|]. split; [by vm_compute|].
    split_and!; cbn [hdr_nVersion hashPrevBlock hdr_hashMerkleRoot hdr_nTime hdr_nBits hdr_nNonce parentBlock ex_auxpow];
      try (apply Hr; unfold is_byte); unfold in_u, in_s; try lia. exact Hc.
Qed.

Lemma merged_mining_no_reuse_witness :
  (pure (ex_header 1) = pure (ex_header 2) /\ vChainMerkleBranch (ex_auxpow 1) = vChainMerkleBranch (ex_auxpow 2) /\
   nChainIndex (ex_auxpow 1) = nChainIndex (ex_auxpow 2)) \/
  collide ex_Hash (fun s => s ∈ checked_strings ex_Hash (ex_header 1) (ex_auxpow 1)) (fun s => s ∈ checked_strings ex_Hash (ex_header 2) (ex_auxpow 2)).
Proof.
  apply (merged_mining_no_reuse (U := list Z) ex_Hash 4 SER_NETWORK 0 (ex_header 1) (ex_header 2)
           (ex_auxpow 1) (ex_auxpow 2) ex_params ex_params ex_aux ex_aux).
  - intros b. unfold ex_Hash. rewrite length_take, length_app, length_replicate. lia.
  - lia.
  - apply ex_header_valid. lia.
  - apply ex_header_valid. lia.
  - reflexivity.
  - reflexivity.
  - vm_compute. reflexivity.
  - vm_compute. reflexivity.
  - reflexivity.
  - reflexivity.
  - reflexivity.
Defined.

(** A block (header, optional auxiliary proof, transactions and NEVM block data)
    whose version flags agree with what it carries is written without failing the
    assertion of [CBlockHeader::Serialize], and reads back whatever follows it. *)
Theorem block_reads_back (batch nType nStreamVersion : Z) (b : CBlock) (Hb : 0 < batch)
    (Hv : valid_block batch nType nStreamVersion b) :
  exists s, CBlock_Serialize nType nStreamVersion b = Some s /\
    forall rest, CBlock_Unserialize batch nType nStreamVersion (s ++ rest) = Ok (b, rest).
Proof. by apply block_round_trip. Qed.

Definition ex_block : CBlock := {| header := ex_header 1; vtx := [ex_coinbase; ex_tx]; vchNEVMBlockData := [] |}.

Lemma block_reads_back_witness :
  exists s, CBlock_Serialize SER_NETWORK 0 ex_block = Some s /\
    forall rest, CBlock_Unserialize 4 SER_NETWORK 0 (s ++ rest) = Ok (ex_block, rest).
Proof.
  apply (block_reads_back 4 SER_NETWORK 0 ex_block); [lia|].
  split; [apply ex_header_valid; lia|]. split; [|reflexivity].
  split; [vm_compute; discriminate|]. constructor; [exact ex_coinbase_valid|]. constructor; [|constructor].
  apply ex_tx_valid; vm_compute; reflexivity.
Defined.

(** The minimal proof that [createAuxPow] builds lacks the merged-mining header and
    is rejected by [check], whatever the header, the chain id and the parameters. *)
Theorem createAuxPow_rejected Hash h a id params :
  (forall b, length (Hash b) = 32%nat) -> createAuxPow Hash h = Some a ->
  is_ok (check Hash a (CPureBlockHeader_GetHash Hash h) id params) = false.
Proof. apply createAuxPow_check. Qed.

(** On testnet the chain id is 8 ([kernel/chainparams.cpp]), which [GetBaseVersion]
    does not remove: its mask is the constant [CHAINID] = 16. *)
Lemma GetBaseVersion_keeps_testnet_id :
  SetBaseVersion 0 0x20000000 8 = Some 0x20080000 /\ GetBaseVersion (SetAuxpowVersion 0x20080000 true) = 0x20080000.
Proof. split; reflexivity. Qed.
