(* ===== verification/Coins.v ===== *)
(** * The set of unspent outputs and its caches
    (src/src/coins.h, src/src/coins.cpp, src/src/undo.h, the coin database of
    src/src/txdb.cpp, and [UpdateCoins], [ApplyTxInUndo] and [DisconnectBlock] of
    src/src/validation.cpp)

    A [CCoinsViewCache] holds some coins of the view below it and the changes that have
    not been written to it.  The views form a chain that ends in the database; reading
    through a cache fills it, and the caches below it, so every operation takes the chain
    and returns it.  The database is a map from outpoints to coins.  The bytes of a
    coin on disk, which do not keep every output as it is, are in Undo.v; the accounting of
    memory is not modelled.

    Shown here: a chain of caches answers as a stack of plain maps would, whatever is
    read, added, spent, flushed or dropped in between; the combinations of flags that the
    code asserts never to occur do not occur; disconnecting a block restores the coins
    that connecting it has changed. *)

From stdpp Require Import strings.
From S2P Require Import Prelude Serialize Script Transaction.

Open Scope string_scope.
Open Scope Z_scope.

(** ** Coins *)

(** [nHeight] is a bit field of 31 bits. *)
Record Coin := { coin_out : CTxOut; fCoinBase : bool; coin_nHeight : Z }.

#[export] Instance Coin_eq_dec : EqDecision Coin.
Proof. solve_decision. Defined.

Definition Coin_of (out : CTxOut) (nHeight : Z) (fCoinBase : bool) : Coin :=
  {| coin_out := out; fCoinBase := fCoinBase; coin_nHeight := nHeight mod 2 ^ 31 |}.

(** [CAssetCoinInfo::SetNull] keeps the amount. *)
Definition CTxOut_SetNull (o : CTxOut) : CTxOut :=
  {| nValue := -1; scriptPubKey := [];
     assetInfo := {| nAsset := 0; asset_nValue := asset_nValue (assetInfo o) |}; vchNEVMData := [] |}.

Definition Coin_Clear (c : Coin) : Coin :=
  {| coin_out := CTxOut_SetNull (coin_out c); fCoinBase := false; coin_nHeight := 0 |}.

Definition coinEmpty : Coin := {| coin_out := CTxOut_null; fCoinBase := false; coin_nHeight := 0 |}.

Definition IsSpent (c : Coin) : bool := CTxOut_IsNull (coin_out c).

(** The bits [DIRTY] and [FRESH] of [flags]. *)
Record CCoinsCacheEntry := { coin : Coin; DIRTY : bool; FRESH : bool }.

Definition CCoinsCacheEntry_empty : CCoinsCacheEntry := {| coin := coinEmpty; DIRTY := false; FRESH := false |}.

Abbreviation CCoinsMap := (gmap COutPoint CCoinsCacheEntry).

Record CCoinsViewCache := { cacheCoins : CCoinsMap; hashBlock : uint256 }.

(** The keys of the database that this code reads and writes. *)
Record CCoinsViewDB := { db_coins : gmap COutPoint Coin; db_best_block : option uint256; db_head_blocks : list uint256 }.

Inductive view :=
| ViewDB (db : CCoinsViewDB)
| ViewCache (c : CCoinsViewCache) (base : view).

(** ** Reading *)

Definition set_coins (c : CCoinsViewCache) (m : CCoinsMap) : CCoinsViewCache :=
  {| cacheCoins := m; hashBlock := hashBlock c |}.

(** [FetchCoin] after the base has answered: the new entry. *)
Definition fetched (tmp : Coin) : CCoinsCacheEntry := {| coin := tmp; DIRTY := false; FRESH := IsSpent tmp |}.

Definition unspent (c : Coin) : option Coin := if IsSpent c then None else Some c.

Fixpoint GetCoin (v : view) (outpoint : COutPoint) : option Coin * view :=
  match v with
  | ViewDB db => (db_coins db !! outpoint, v)
  | ViewCache c base =>
      match cacheCoins c !! outpoint with
      | Some it => (unspent (coin it), v)
      | None =>
          match GetCoin base outpoint with
          | (None, base) => (None, ViewCache c base)
          | (Some tmp, base) =>
              (unspent tmp, ViewCache (set_coins c (<[outpoint := fetched tmp]> (cacheCoins c))) base)
          end
      end
  end.

(** The entry that [FetchCoin] points to; [None] is [cacheCoins.end()]. *)
Definition FetchCoin (c : CCoinsViewCache) (base : view) (outpoint : COutPoint) :
    option CCoinsCacheEntry * CCoinsViewCache * view :=
  match cacheCoins c !! outpoint with
  | Some it => (Some it, c, base)
  | None =>
      match GetCoin base outpoint with
      | (None, base) => (None, c, base)
      | (Some tmp, base) => (Some (fetched tmp), set_coins c (<[outpoint := fetched tmp]> (cacheCoins c)), base)
      end
  end.

(** The operations of a cache, on the cache and what it is based on. *)
Abbreviation cached := (CCoinsViewCache * view)%type.

Definition AccessCoin (v : cached) (outpoint : COutPoint) : Coin * cached :=
  match FetchCoin v.1 v.2 outpoint with
  | (None, c, base) => (coinEmpty, (c, base))
  | (Some it, c, base) => (coin it, (c, base))
  end.

Definition HaveCoin (v : cached) (outpoint : COutPoint) : bool * cached :=
  match FetchCoin v.1 v.2 outpoint with
  | (None, c, base) => (false, (c, base))
  | (Some it, c, base) => (negb (IsSpent (coin it)), (c, base))
  end.

Definition HaveCoinInCache (v : cached) (outpoint : COutPoint) : bool :=
  match cacheCoins v.1 !! outpoint with
  | None => false
  | Some it => negb (IsSpent (coin it))
  end.

Fixpoint HaveInputs_loop (ins : list CTxIn) (v : cached) : bool * cached :=
  match ins with
  | [] => (true, v)
  | i :: ins =>
      let '(have, v) := HaveCoin v (prevout i) in
      if have then HaveInputs_loop ins v else (false, v)
  end.

Definition HaveInputs (v : cached) (tx : CTransaction) : bool * cached :=
  if negb (IsCoinBase tx) then HaveInputs_loop (vin tx) v else (true, v).

Fixpoint GetBestBlock (v : view) : uint256 * view :=
  match v with
  | ViewDB db => (default uint256_null (db_best_block db), v)
  | ViewCache c base =>
      if uint256_IsNull (hashBlock c) then
        let '(h, base) := GetBestBlock base in
        (h, ViewCache {| cacheCoins := cacheCoins c; hashBlock := h |} base)
      else (hashBlock c, v)
  end.

Definition SetBestBlock (v : cached) (hashBlockIn : uint256) : cached :=
  ({| cacheCoins := cacheCoins v.1; hashBlock := hashBlockIn |}, v.2).

(** ** Changing *)

Definition AddCoin (v : cached) (outpoint : COutPoint) (c : Coin) (possible_overwrite : bool) : result string cached :=
  guard! negb (IsSpent c) else "assert";
  if IsUnspendable (scriptPubKey (coin_out c)) then Ok v else
  let it := default CCoinsCacheEntry_empty (cacheCoins v.1 !! outpoint) in
  guard! possible_overwrite || IsSpent (coin it)
    else "Attempted to overwrite an unspent coin (when possible_overwrite is false)";
  let fresh := negb possible_overwrite && negb (DIRTY it) in
  Ok (set_coins v.1 (<[outpoint := {| coin := c; DIRTY := true; FRESH := FRESH it || fresh |}]> (cacheCoins v.1)), v.2).

(** The coin that was moved out, and [None] for the result [false]. An entry of the cache
    that is spent already counts as spent once more. *)
Definition SpendCoin (v : cached) (outpoint : COutPoint) : option Coin * cached :=
  match FetchCoin v.1 v.2 outpoint with
  | (None, c, base) => (None, (c, base))
  | (Some it, c, base) =>
      (Some (coin it),
       (set_coins c (if FRESH it then delete outpoint (cacheCoins c)
                     else <[outpoint := {| coin := Coin_Clear (coin it); DIRTY := true; FRESH := FRESH it |}]> (cacheCoins c)),
        base))
  end.

Definition EmplaceCoinInternalDANGER (v : cached) (outpoint : COutPoint) (c : Coin) : cached :=
  (set_coins v.1 (match cacheCoins v.1 !! outpoint with
                  | None => <[outpoint := {| coin := c; DIRTY := true; FRESH := false |}]> (cacheCoins v.1)
                  | Some _ => cacheCoins v.1
                  end), v.2).

Definition Uncache (v : cached) (outpoint : COutPoint) : cached :=
  match cacheCoins v.1 !! outpoint with
  | Some it => if negb (DIRTY it) && negb (FRESH it) then (set_coins v.1 (delete outpoint (cacheCoins v.1)), v.2) else v
  | None => v
  end.

(** One entry of the cache above, written to this cache. *)
Definition write_entry (it : COutPoint * CCoinsCacheEntry) (m : CCoinsMap) : result string CCoinsMap :=
  let '(outpoint, e) := it in
  if negb (DIRTY e) then Ok m else
  match m !! outpoint with
  | None =>
      if FRESH e && IsSpent (coin e) then Ok m
      else Ok (<[outpoint := {| coin := coin e; DIRTY := true; FRESH := FRESH e |}]> m)
  | Some us =>
      guard! negb (FRESH e && negb (IsSpent (coin us)))
        else "FRESH flag misapplied to coin that exists in parent cache";
      Ok (if FRESH us && IsSpent (coin e) then delete outpoint m
          else <[outpoint := {| coin := coin e; DIRTY := true; FRESH := FRESH us |}]> m)
  end.

Fixpoint write_entries (its : list (COutPoint * CCoinsCacheEntry)) (m : CCoinsMap) : result string CCoinsMap :=
  match its with
  | [] => Ok m
  | it :: its => m ← write_entry it m; write_entries its m
  end.

Definition write_coin (it : COutPoint * CCoinsCacheEntry) (m : gmap COutPoint Coin) : gmap COutPoint Coin :=
  let '(outpoint, e) := it in
  if DIRTY e then (if IsSpent (coin e) then delete outpoint m else <[outpoint := coin e]> m) else m.

(** The whole of the batches that the database is given. *)
Definition db_BatchWrite (db : CCoinsViewDB) (mapCoins : CCoinsMap) (h : uint256) : result string CCoinsViewDB :=
  guard! negb (uint256_IsNull h) else "assert";
  guard! (match db_best_block db with
          | Some b => negb (uint256_IsNull b)
          | None => false
          end || match db_head_blocks db with
                 | [new; old] => bool_decide (new = h)
                 | _ => true
                 end) else "assert";
  Ok {| db_coins := foldl (fun m it => write_coin it m) (db_coins db) (map_to_list mapCoins);
        db_best_block := Some h; db_head_blocks := [] |}.

(** The order of the entries is that of a hash table and not specified; here it is that of
    [map_to_list]. *)
Definition BatchWrite (v : view) (mapCoins : CCoinsMap) (h : uint256) : result string view :=
  match v with
  | ViewDB db => db ← db_BatchWrite db mapCoins h; Ok (ViewDB db)
  | ViewCache c base =>
      m ← write_entries (map_to_list mapCoins) (cacheCoins c);
      Ok (ViewCache {| cacheCoins := m; hashBlock := h |} base)
  end.

Definition Flush (v : cached) : result string cached :=
  base ← BatchWrite v.2 (cacheCoins v.1) (hashBlock v.1);
  Ok (set_coins v.1 ∅, base).

Definition synced (e : CCoinsCacheEntry) : option CCoinsCacheEntry :=
  if IsSpent (coin e) then None else Some {| coin := coin e; DIRTY := false; FRESH := false |}.

Definition Sync (v : cached) : result string cached :=
  base ← BatchWrite v.2 (cacheCoins v.1) (hashBlock v.1);
  Ok (set_coins v.1 (omap synced (cacheCoins v.1)), base).

(** The assertion of [SanityCheck] on the flags of an entry. *)
Definition SanityCheck (c : CCoinsViewCache) : bool :=
  bool_decide (map_Forall (fun _ e =>
    let attr := (if DIRTY e then 1 else 0) + (if FRESH e then 2 else 0) + (if IsSpent (coin e) then 4 else 0) in
    negb (attr =? 2) && negb (attr =? 4) && negb (attr =? 7) = true) (cacheCoins c)).

(** ** Transactions and blocks *)

Inductive DisconnectResult := DISCONNECT_OK | DISCONNECT_UNCLEAN | DISCONNECT_FAILED.

Section transactions.
(** The cached hash of a transaction. *)
Variable GetHash : CTransaction -> uint256.
(** How many elements of a vector are read at a time. *)
Variable batch : Z.

Definition out_of (tx : CTransaction) (i : Z) : COutPoint := {| op_hash := GetHash tx; op_n := i |}.

Fixpoint AddCoins_loop (tx : CTransaction) (nHeight : Z) (check_for_overwrite : bool) (i : Z) (outs : list CTxOut) (v : cached) :
    result string cached :=
  match outs with
  | [] => Ok v
  | o :: outs =>
      let '(overwrite, v) := if check_for_overwrite then HaveCoin v (out_of tx i) else (IsCoinBase tx, v) in
      v ← AddCoin v (out_of tx i) (Coin_of o nHeight (IsCoinBase tx)) overwrite;
      AddCoins_loop tx nHeight check_for_overwrite (i + 1) outs v
  end.

Definition AddCoins (v : cached) (tx : CTransaction) (nHeight : Z) (check_for_overwrite : bool) : result string cached :=
  AddCoins_loop tx nHeight check_for_overwrite 0 (vout tx) v.

(** The undo data of a transaction: the coins it spent. *)
Abbreviation CTxUndo := (list Coin).

Fixpoint spend_inputs (ins : list CTxIn) (v : cached) (txundo : CTxUndo) : result string (CTxUndo * cached) :=
  match ins with
  | [] => Ok (txundo, v)
  | i :: ins =>
      match SpendCoin v (prevout i) with
      | (None, _) => Throw "assert"
      | (Some c, v) => spend_inputs ins v (txundo ++ [c])
      end
  end.

Definition UpdateCoins (tx : CTransaction) (inputs : cached) (nHeight : Z) : result string (CTxUndo * cached) :=
  '(txundo, inputs) ← (if negb (IsCoinBase tx) then spend_inputs (vin tx) inputs [] else Ok ([], inputs));
  inputs ← AddCoins inputs tx nHeight false;
  Ok (txundo, inputs).

(** 4000000 units of weight over four times the nine bytes of an empty output. *)
Definition MAX_OUTPUTS_PER_BLOCK : Z := 111111.

Fixpoint AccessByTxid_loop (fuel : nat) (v : cached) (txid : uint256) (n : Z) : Coin * cached :=
  match fuel with
  | O => (coinEmpty, v)
  | S fuel =>
      let '(alternate, v) := AccessCoin v {| op_hash := txid; op_n := n |} in
      if negb (IsSpent alternate) then (alternate, v) else AccessByTxid_loop fuel v txid (n + 1)
  end.

Definition AccessByTxid (v : cached) (txid : uint256) : Coin * cached :=
  AccessByTxid_loop (Z.to_nat MAX_OUTPUTS_PER_BLOCK) v txid 0.

Definition ApplyTxInUndo (undo : Coin) (v : cached) (out : COutPoint) : result string (DisconnectResult * cached) :=
  let '(have, v) := HaveCoin v out in
  let fClean := negb have in
  let '(undo, v) :=
    if coin_nHeight undo =? 0 then
      let '(alternate, v) := AccessByTxid v (op_hash out) in
      (if negb (IsSpent alternate)
       then Some {| coin_out := coin_out undo; fCoinBase := fCoinBase alternate; coin_nHeight := coin_nHeight alternate |}
       else None, v)
    else (Some undo, v) in
  match undo with
  | None => Ok (DISCONNECT_FAILED, v)
  | Some undo =>
      v ← AddCoin v out undo (negb fClean);
      Ok (if fClean then DISCONNECT_OK else DISCONNECT_UNCLEAN, v)
  end.

(** [DisconnectMintAsset], but for the set of transactions it collects. *)
Definition DisconnectSyscoinTransaction (tx : CTransaction) : bool :=
  if IsSyscoinMintTx (nVersion tx) then negb (CMintSyscoin_IsNull (CMintSyscoin_of_tx batch tx)) else true.

Fixpoint spend_outputs (tx : CTransaction) (nHeight : Z) (i : Z) (outs : list CTxOut) (v : cached) (fClean : bool) : bool * cached :=
  match outs with
  | [] => (fClean, v)
  | o :: outs =>
      if IsUnspendable (scriptPubKey o) then spend_outputs tx nHeight (i + 1) outs v fClean
      else
        let '(spent, v) := SpendCoin v (out_of tx i) in
        let matched := match spent with
                       | None => false
                       | Some c => bool_decide (o = coin_out c) && (nHeight =? coin_nHeight c) && Bool.eqb (IsCoinBase tx) (fCoinBase c)
                       end in
        spend_outputs tx nHeight (i + 1) outs v (fClean && matched)
  end.

(** The inputs from the last to the first. *)
Fixpoint restore_inputs (ins : list (CTxIn * Coin)) (v : cached) (fClean : bool) : result string (option (bool * cached)) :=
  match ins with
  | [] => Ok (Some (fClean, v))
  | (i, undo) :: ins =>
      '(res, v) ← ApplyTxInUndo undo v (prevout i);
      match res with
      | DISCONNECT_FAILED => Ok None
      | DISCONNECT_OK => restore_inputs ins v fClean
      | DISCONNECT_UNCLEAN => restore_inputs ins v false
      end
  end.

(** The loop of [DisconnectBlock] over the transactions, the last first; the coinbase, which
    is the first of the block, has no undo data. *)
Fixpoint disconnect_txs (txs : list (CTransaction * option CTxUndo)) (nHeight : Z) (v : cached) (fClean : bool) :
    result string (option (bool * cached)) :=
  match txs with
  | [] => Ok (Some (fClean, v))
  | (tx, txundo) :: txs =>
      let '(fClean, v) := spend_outputs tx nHeight 0 (vout tx) v fClean in
      match txundo with
      | None => disconnect_txs txs nHeight v fClean
      | Some vprevout =>
          if negb (length vprevout =? length (vin tx))%nat then Ok None else
          let fClean := DisconnectSyscoinTransaction tx && fClean in
          r ← restore_inputs (rev (zip (vin tx) vprevout)) v fClean;
          match r with
          | None => Ok None
          | Some (fClean, v) => disconnect_txs txs nHeight v fClean
          end
      end
  end.

(** [DisconnectBlock] once the undo data was read from disk ([DisconnectBlock_from_disk] of
    Undo.v reads it); the first two arguments say whether the components that are not
    modelled, [UndoSpecialTxsInBlock] and [DisconnectNEVMCommitment], undo the block. *)
Definition DisconnectBlock (special_undone nevm_disconnected : bool) (vtx : list CTransaction) (vtxundo : list CTxUndo) (nHeight : Z) (prevHash : uint256) (v : cached) :
    result string (DisconnectResult * cached) :=
  if negb (length vtxundo + 1 =? length vtx)%nat then Ok (DISCONNECT_FAILED, v) else
  if negb special_undone then Ok (DISCONNECT_FAILED, v) else
  r ← disconnect_txs (rev (zip vtx (None :: (Some <$> vtxundo)))) nHeight v true;
  match (r : option (bool * cached)) with
  | None => Ok (DISCONNECT_FAILED, v)
  | Some (fClean, v) =>
      if negb nevm_disconnected then Ok (DISCONNECT_FAILED, v) else
      Ok (if fClean then DISCONNECT_OK else DISCONNECT_UNCLEAN, SetBestBlock v prevHash)
  end.

End transactions.

(** ** The coins of a view *)

Definition overlay (e : option CCoinsCacheEntry) (below : option Coin) : option Coin :=
  match e with Some e => unspent (coin e) | None => below end.

Fixpoint coins (v : view) : gmap COutPoint Coin :=
  match v with
  | ViewDB db => db_coins db
  | ViewCache c base => merge overlay (cacheCoins c) (coins base)
  end.

Lemma coins_lookup c base o : coins (ViewCache c base) !! o = overlay (cacheCoins c !! o) (coins base !! o).
Proof. cbn [coins]. rewrite lookup_merge. by destruct (cacheCoins c !! o), (coins base !! o). Qed.

(** An entry and the coin below it: a fresh entry has nothing below it, an entry that is not
    dirty has the coin below it, and a fresh entry is not kept once it is spent. *)
Definition cache_entry_ok (e : CCoinsCacheEntry) (below : option Coin) : Prop :=
  (FRESH e = true -> below = None) /\
  (DIRTY e = false -> if IsSpent (coin e) then FRESH e = true else FRESH e = false /\ below = Some (coin e)) /\
  (DIRTY e = true -> IsSpent (coin e) = true -> FRESH e = false).

Definition cache_ok (m : CCoinsMap) (below : gmap COutPoint Coin) : Prop :=
  forall o e, m !! o = Some e -> cache_entry_ok e (below !! o).

Fixpoint view_ok (v : view) : Prop :=
  match v with
  | ViewDB db => map_Forall (fun _ c => IsSpent c = false) (db_coins db)
  | ViewCache c base => cache_ok (cacheCoins c) (coins base) /\ view_ok base
  end.

Lemma unspent_Some c c' : unspent c = Some c' <-> c' = c /\ IsSpent c = false.
Proof. unfold unspent. destruct (IsSpent c); naive_solver. Qed.

Lemma coins_unspent v o c : view_ok v -> coins v !! o = Some c -> IsSpent c = false.
Proof.
  revert c. induction v as [db|m base IH]; intros c Hv Hc; [by eapply Hv|].
  rewrite coins_lookup in Hc. destruct (cacheCoins m !! o) as [e|]; [|by apply IH; [apply Hv|]].
  by apply unspent_Some in Hc as [-> ?].
Qed.

(** A cache may only be changed where the coins seen through it stay, or where the change
    is recorded as dirty. *)
Lemma cache_ok_insert m below o e : cache_ok m below -> cache_entry_ok e (below !! o) -> cache_ok (<[o := e]> m) below.
Proof. intros Hm He o' e'. rewrite lookup_insert_Some. intros [[<- <-]|[_ ?]]; auto. Qed.

Lemma cache_ok_delete m below o : cache_ok m below -> cache_ok (delete o m) below.
Proof. intros Hm o' e'. rewrite lookup_delete_Some. intros [_ ?]; auto. Qed.

Lemma coins_insert m h base o e c :
  unspent (coin e) = Some c ->
  coins (ViewCache {| cacheCoins := <[o := e]> m; hashBlock := h |} base) = <[o := c]> (coins (ViewCache {| cacheCoins := m; hashBlock := h |} base)).
Proof.
  intros He. apply map_eq. intros o'. rewrite coins_lookup. cbn [cacheCoins].
  destruct (decide (o' = o)) as [->|]; [by rewrite !lookup_insert_eq|].
  by rewrite !lookup_insert_ne, coins_lookup by done.
Qed.

Lemma coins_remove m h base o e :
  unspent (coin e) = None ->
  coins (ViewCache {| cacheCoins := <[o := e]> m; hashBlock := h |} base) = delete o (coins (ViewCache {| cacheCoins := m; hashBlock := h |} base)).
Proof.
  intros He. apply map_eq. intros o'. rewrite coins_lookup. cbn [cacheCoins].
  destruct (decide (o' = o)) as [->|]; [by rewrite lookup_insert_eq, lookup_delete_eq|].
  by rewrite lookup_insert_ne, lookup_delete_ne, coins_lookup by done.
Qed.

(** Reading fills the caches and changes nothing else. *)
Lemma GetCoin_ok v o :
  view_ok v -> let '(r, v') := GetCoin v o in r = coins v !! o /\ view_ok v' /\ coins v' = coins v.
Proof.
  induction v as [db|c base IH]; intros Hv; [done|]. cbn [GetCoin]. destruct Hv as [Hc Hb].
  rewrite coins_lookup. destruct (cacheCoins c !! o) as [e|] eqn:E; [done|].
  specialize (IH Hb). destruct (GetCoin base o) as [[tmp|] base'] eqn:Eg; destruct IH as (Hr & Hb' & Hcoins).
  - pose proof (coins_unspent base o tmp Hb (eq_sym Hr)) as Hu. cbn [overlay]. rewrite <- Hr.
    assert (unspent tmp = Some tmp) as Hut by (unfold unspent; by rewrite Hu).
    split; [done|]. cbn [view_ok cacheCoins set_coins]. rewrite Hcoins. split; [split; [|done]|].
    + apply cache_ok_insert; [done|]. unfold fetched, cache_entry_ok. cbn. rewrite Hu, <- Hr. done.
    + apply map_eq. intros o'. rewrite !coins_lookup, Hcoins. cbn [cacheCoins set_coins].
      destruct (decide (o' = o)) as [->|]; [|by rewrite lookup_insert_ne].
      rewrite lookup_insert_eq, E. cbn. by rewrite Hut.
  - split; [done|]. cbn [view_ok]. rewrite Hcoins. split; [done|].
    apply map_eq. intros o'. by rewrite !coins_lookup, Hcoins.
Qed.

(** The coins at every level of a chain of views. *)
Fixpoint levels (v : view) : list (gmap COutPoint Coin) :=
  coins v :: match v with ViewDB _ => [] | ViewCache _ base => levels base end.

Abbreviation as_view v := (ViewCache v.1 v.2).

Lemma GetCoin_levels v o : view_ok v -> levels (GetCoin v o).2 = levels v.
Proof.
  induction v as [db|c base IH]; intros Hv; [done|]. pose proof (GetCoin_ok (ViewCache c base) o Hv) as Hg.
  pose proof (IH (proj2 Hv)) as IHl. cbn [GetCoin] in *.
  destruct (cacheCoins c !! o); [done|]. destruct (GetCoin base o) as [[tmp|] base']; cbn [snd] in IHl;
    destruct Hg as (_ & _ & Hc); cbn [levels snd]; f_equal; done.
Qed.

(** A read through a cache: the entry shows the coin, and the view has only been filled. *)
Lemma FetchCoin_ok (v : cached) o :
  view_ok (as_view v) ->
  let '(it, c, base) := FetchCoin v.1 v.2 o in
  (it ≫= unspent ∘ coin) = coins (as_view v) !! o /\ view_ok (ViewCache c base) /\
  levels (ViewCache c base) = levels (as_view v) /\ cacheCoins c !! o = it.
Proof.
  destruct v as [c base]. cbn [fst snd]. intros Hv. pose proof (GetCoin_ok (ViewCache c base) o Hv) as Hg.
  pose proof (GetCoin_levels (ViewCache c base) o Hv) as Hl. unfold FetchCoin. cbn [GetCoin] in *.
  destruct (cacheCoins c !! o) as [e|] eqn:E.
  - destruct Hg as [Hg _]. by split_and!.
  - destruct (GetCoin base o) as [[tmp|] base']; destruct Hg as (Hr & Hv' & _); split_and!; try done.
    cbn. by rewrite lookup_insert_eq.
Qed.

Lemma levels_top v v' : levels v = levels v' -> coins v = coins v'.
Proof. intros Hl. apply (f_equal head) in Hl. by destruct v, v'; injection Hl. Qed.

Lemma levels_base c base c' base' : levels (ViewCache c base) = levels (ViewCache c' base') -> levels base = levels base'.
Proof. by intros [= _ ?]. Qed.

(** *** Adding and spending *)

Lemma AddCoin_ok (v : cached) o c overwrite :
  view_ok (as_view v) -> IsSpent c = false -> overwrite = true \/ coins (as_view v) !! o = None ->
  exists v', AddCoin v o c overwrite = Ok v' /\ view_ok (as_view v') /\ v'.2 = v.2 /\
    coins (as_view v') = if IsUnspendable (scriptPubKey (coin_out c)) then coins (as_view v) else <[o := c]> (coins (as_view v)).
Proof.
  destruct v as [[m h] base]. cbn [fst snd]. intros [Hm Hb] Hc Hover. unfold AddCoin. rewrite Hc. cbn [negb fst snd cacheCoins].
  destruct (IsUnspendable _); [by eexists|]. cbn [cacheCoins] in Hm.
  assert (Huc : unspent c = Some c) by (unfold unspent; by rewrite Hc).
  set (it := default CCoinsCacheEntry_empty (m !! o)).
  assert (Hg : overwrite || IsSpent (coin it) = true).
  { destruct Hover as [->|Hn]; [done|]. apply orb_true_iff. right. rewrite coins_lookup in Hn. cbn [cacheCoins] in Hn.
    unfold it. destruct (m !! o) as [e|]; [|done]. cbn in *. unfold unspent in Hn. by destruct (IsSpent (coin e)). }
  rewrite Hg. eexists. split; [reflexivity|]. cbn [fst snd]. split_and!; [|done|by apply coins_insert].
  split; [|done]. unfold set_coins. cbn [cacheCoins hashBlock]. apply cache_ok_insert; [done|].
  unfold cache_entry_ok. cbn. rewrite Hc. split_and!; [|done|done].
  intros [Hf|[Ho Hd]%andb_true_iff]%orb_true_iff.
  - unfold it in Hf. destruct (m !! o) as [e|] eqn:E; [|done]. by apply (Hm o e).
  - apply negb_true_iff in Ho as ->. destruct Hover as [|Hn]; [done|]. rewrite coins_lookup in Hn. cbn [cacheCoins] in Hn.
    unfold it in Hd, Hg. destruct (m !! o) as [e|] eqn:E; [|done]. cbn in Hd, Hg. apply negb_true_iff in Hd.
    destruct (Hm o e E) as (H1 & H2 & _). specialize (H2 Hd). rewrite Hg in H2. auto.
Qed.

Lemma SpendCoin_ok (v : cached) o :
  view_ok (as_view v) ->
  let '(r, v') := SpendCoin v o in
  (r ≫= unspent) = coins (as_view v) !! o /\ view_ok (as_view v') /\
  levels (as_view v') = delete o (coins (as_view v)) :: levels v.2.
Proof.
  intros Hv. pose proof (FetchCoin_ok v o Hv) as Hf. unfold SpendCoin.
  destruct (FetchCoin v.1 v.2 o) as [[it [m h]] base]. destruct Hf as (Hr & [Hm Hb] & Hl & Hit).
  pose proof (levels_top _ _ Hl) as Hc. apply levels_base in Hl as Hlb. cbn [cacheCoins] in *.
  destruct it as [it|]; cbn [fst snd].
  - split; [done|]. destruct (Hm o it Hit) as (H1 & H2 & H3). destruct (FRESH it) eqn:Ef; cbn [fst snd view_ok levels set_coins cacheCoins hashBlock].
    + split; [split; [by apply cache_ok_delete|done]|]. rewrite Hlb. f_equal. rewrite <- Hc.
      apply map_eq. intros o'. rewrite coins_lookup. cbn [cacheCoins set_coins hashBlock].
      destruct (decide (o' = o)) as [->|].
      * rewrite (lookup_delete_eq m), (lookup_delete_eq (coins _)). cbn. auto.
      * by rewrite (lookup_delete_ne m), (lookup_delete_ne (coins _)), coins_lookup by done.
    + split; [split; [|done]|].
      * apply cache_ok_insert; [done|]. by unfold cache_entry_ok.
      * rewrite Hlb. f_equal. rewrite <- Hc. by apply coins_remove.
  - split; [done|]. split; [done|]. cbn [levels]. rewrite Hlb. f_equal.
    change (coins (ViewCache {| cacheCoins := m; hashBlock := h |} base) = delete o (coins (as_view v))).
    rewrite Hc. symmetry. apply delete_id. by rewrite <- Hr.
Qed.

(** *** Writing back *)

(** One entry written to a cache: afterwards the cache shows the coin of the entry. *)
Lemma write_entry_ok o e m below :
  cache_ok m below -> cache_entry_ok e (overlay (m !! o) (below !! o)) ->
  exists m', write_entry (o, e) m = Ok m' /\ cache_ok m' below /\
    overlay (m' !! o) (below !! o) = unspent (coin e) /\ forall o', o' <> o -> m' !! o' = m !! o'.
Proof.
  intros Hm (H1 & H2 & H3). unfold write_entry. destruct (DIRTY e) eqn:Ed; cbn [negb].
  2: { exists m. split_and!; [done|done| |done]. specialize (H2 eq_refl). unfold unspent.
       destruct (IsSpent (coin e)); [by apply H1|by destruct H2]. }
  destruct (m !! o) as [us|] eqn:E; cbn [overlay] in H1.
  - destruct (Hm o us E) as (U1 & _ & _).
    destruct (FRESH e && negb (IsSpent (coin us))) eqn:Ef.
    { apply andb_true_iff in Ef as [Ef Eu%negb_true_iff]. specialize (H1 Ef). unfold unspent in H1. by rewrite Eu in H1. }
    destruct (FRESH us && IsSpent (coin e)) eqn:Eu; eexists; (split; [reflexivity|]).
    + apply andb_true_iff in Eu as [Eu Es]. split_and!; [by apply cache_ok_delete| |by intros; rewrite lookup_delete_ne].
      rewrite lookup_delete_eq. cbn. unfold unspent. rewrite Es. auto.
    + split_and!; [apply cache_ok_insert; [done|]|by rewrite lookup_insert_eq|by intros; rewrite lookup_insert_ne].
      unfold cache_entry_ok. cbn. split_and!; [done|done|]. intros _ Hs. rewrite Hs, andb_true_r in Eu. done.
  - destruct (FRESH e && IsSpent (coin e)) eqn:Ef.
    { apply andb_true_iff in Ef as [Ef Es]. by rewrite H3 in Ef. }
    eexists. split; [reflexivity|].
    split_and!; [apply cache_ok_insert; [done|]|by rewrite lookup_insert_eq|by intros; rewrite lookup_insert_ne].
    unfold cache_entry_ok. cbn. auto.
Qed.

Lemma write_entries_ok its m below :
  NoDup its.*1 -> cache_ok m below ->
  (forall o e, (o, e) ∈ its -> cache_entry_ok e (overlay (m !! o) (below !! o))) ->
  exists m', write_entries its m = Ok m' /\ cache_ok m' below /\
    (forall o e, (o, e) ∈ its -> overlay (m' !! o) (below !! o) = unspent (coin e)) /\
    forall o, o ∉ its.*1 -> m' !! o = m !! o.
Proof.
  revert m. induction its as [|[o e] its IH]; intros m Hnd Hm Hits; [exists m; set_solver|].
  cbn [fmap list_fmap fst] in Hnd. apply NoDup_cons in Hnd as [Ho Hnd].
  destruct (write_entry_ok o e m below Hm) as (m1 & He & Hm1 & Hs1 & Hr1); [apply Hits; left|].
  destruct (IH m1 Hnd Hm1) as (m2 & He2 & Hm2 & Hs2 & Hr2).
  { intros o' e' Hin. rewrite Hr1; [apply Hits; by right|]. intros ->. apply Ho, list_elem_of_fmap. by exists (o, e'). }
  exists m2. cbn [write_entries]. rewrite He. split_and!; [done|done| |].
  - intros o' e' [[= -> ->]|Hin]%elem_of_cons; [by rewrite Hr2|by apply Hs2].
  - intros o'. cbn. rewrite not_elem_of_cons. intros [? ?]. by rewrite Hr2, Hr1.
Qed.

Lemma write_coins_ok its (m : gmap COutPoint Coin) :
  NoDup its.*1 -> (forall o e, (o, e) ∈ its -> cache_entry_ok e (m !! o)) ->
  (forall o e, (o, e) ∈ its -> foldl (fun m it => write_coin it m) m its !! o = unspent (coin e)) /\
  (forall o, o ∉ its.*1 -> foldl (fun m it => write_coin it m) m its !! o = m !! o).
Proof.
  revert m. induction its as [|[o e] its IH]; intros m Hnd Hits; [set_solver|].
  cbn [fmap list_fmap fst] in Hnd. apply NoDup_cons in Hnd as [Ho Hnd]. cbn [foldl].
  assert (Hother : forall o', o' <> o -> write_coin (o, e) m !! o' = m !! o').
  { intros o' Hn. unfold write_coin. destruct (DIRTY e); [|done].
    destruct (IsSpent (coin e)); [by rewrite lookup_delete_ne|by rewrite lookup_insert_ne]. }
  assert (Hhere : write_coin (o, e) m !! o = unspent (coin e)).
  { destruct (Hits o e ltac:(left)) as (H1 & H2 & _). unfold write_coin, unspent. destruct (DIRTY e).
    - destruct (IsSpent (coin e)); [by rewrite lookup_delete_eq|by rewrite lookup_insert_eq].
    - specialize (H2 eq_refl). destruct (IsSpent (coin e)); [auto|by destruct H2]. }
  destruct (IH (write_coin (o, e) m) Hnd) as [Hs Hr].
  { intros o' e' Hin. rewrite Hother; [apply Hits; by right|]. intros ->. apply Ho, list_elem_of_fmap. by exists (o, e'). }
  split.
  - intros o' e' [[= -> ->]|Hin]%elem_of_cons; [by rewrite Hr|by apply Hs].
  - intros o'. cbn. rewrite not_elem_of_cons. intros [? ?]. by rewrite Hr, Hother.
Qed.

(** What the database says of its tip: the best block, and the two heads of a transition. *)
Fixpoint marks (v : view) : option uint256 * list uint256 :=
  match v with
  | ViewDB db => (db_best_block db, db_head_blocks db)
  | ViewCache _ base => marks base
  end.

(** A database takes a new tip unless it is in the middle of a transition to another. *)
Definition accepts (mk : option uint256 * list uint256) (h : uint256) : Prop :=
  match mk.1 with
  | Some b => uint256_IsNull b = false
  | None => match mk.2 with [new; _] => new = h | _ => True end
  end.

Lemma GetCoin_marks v o : marks (GetCoin v o).2 = marks v.
Proof.
  induction v as [db|c base IH]; [done|]. cbn [GetCoin]. destruct (cacheCoins c !! o); [done|]. by destruct (GetCoin base o) as [[]].
Qed.

Lemma FetchCoin_marks c base o : marks (FetchCoin c base o).2 = marks base.
Proof.
  unfold FetchCoin. destruct (cacheCoins c !! o); [done|]. pose proof (GetCoin_marks base o) as Hm. by destruct (GetCoin base o) as [[]].
Qed.

(** Written to the view below, the changes of a cache make it show what the cache shows. *)
Lemma BatchWrite_ok base mapCoins h :
  view_ok base -> cache_ok mapCoins (coins base) -> uint256_IsNull h = false -> accepts (marks base) h ->
  exists base', BatchWrite base mapCoins h = Ok base' /\ view_ok base' /\
    coins base' = merge overlay mapCoins (coins base) /\ tail (levels base') = tail (levels base) /\
    marks base' = match base with ViewDB _ => (Some h, []) | ViewCache _ _ => marks base end.
Proof.
  intros Hb Hm Hh Hready. pose proof (NoDup_fst_map_to_list mapCoins) as Hnd.
  assert (Hnot : forall o, mapCoins !! o = None -> o ∉ (map_to_list mapCoins).*1).
  { intros o Ho ([o' e] & -> & Hin%elem_of_map_to_list)%list_elem_of_fmap. cbn in Ho. congruence. }
  destruct base as [db|c base]; cbn [BatchWrite view_ok levels tail] in *.
  - destruct (write_coins_ok (map_to_list mapCoins) (db_coins db) Hnd) as [Hs Hr].
    { intros o e Hin%elem_of_map_to_list. by apply Hm. }
    unfold db_BatchWrite. rewrite Hh. cbn [negb].
    assert ((match db_best_block db with Some b => negb (uint256_IsNull b) | None => false end ||
             match db_head_blocks db with [new; old] => bool_decide (new = h) | _ => true end) = true) as ->.
    { unfold accepts in Hready. cbn [marks fst snd] in Hready. destruct (db_best_block db); [by rewrite Hready|].
      destruct (db_head_blocks db) as [|? [|? []]]; try done. by rewrite bool_decide_eq_true_2. }
    set (m := foldl _ _ _) in *. assert (Hc : m = merge overlay mapCoins (db_coins db)).
    { apply map_eq. intros o. rewrite lookup_merge. destruct (mapCoins !! o) as [e|] eqn:E.
      - rewrite (Hs o e) by (by apply elem_of_map_to_list). cbn. by destruct (db_coins db !! o).
      - rewrite Hr by auto. by destruct (db_coins db !! o). }
    eexists. split; [reflexivity|]. cbn [view_ok coins db_coins levels tail marks db_best_block db_head_blocks]. split_and!; [|done|done|done].
    rewrite Hc. intros o x. rewrite lookup_merge. destruct (mapCoins !! o) as [e|]; cbn [diag_None overlay].
    + destruct (db_coins db !! o); intros [-> ?]%unspent_Some; done.
    + intros Hx. destruct (db_coins db !! o) eqn:E; [|done]. apply (Hb o). cbn in Hx. congruence.
  - destruct Hb as [Hc Hb].
    destruct (write_entries_ok (map_to_list mapCoins) (cacheCoins c) (coins base) Hnd Hc) as (m' & -> & Hm' & Hs & Hr).
    { intros o e Hin%elem_of_map_to_list. specialize (Hm o e Hin). by rewrite coins_lookup in Hm. }
    eexists. split; [reflexivity|]. cbn [view_ok cacheCoins levels tail marks]. split_and!; [done|done| |done|done].
    apply map_eq. intros o. rewrite coins_lookup, lookup_merge. cbn [cacheCoins].
    change (merge overlay (cacheCoins c) (coins base)) with (coins (ViewCache c base)). rewrite coins_lookup.
    destruct (mapCoins !! o) as [e|] eqn:E.
    + rewrite (Hs o e) by (by apply elem_of_map_to_list). by destruct (overlay (cacheCoins c !! o) (coins base !! o)).
    + rewrite Hr by auto. by destruct (overlay (cacheCoins c !! o) (coins base !! o)).
Qed.

Lemma merge_empty_overlay (m : gmap COutPoint Coin) : merge overlay (∅ : CCoinsMap) m = m.
Proof. apply map_eq. intros o. rewrite lookup_merge, lookup_empty. by destruct (m !! o). Qed.

(** [Flush] and [Sync] leave what is seen through the cache and put it below. *)
Lemma Flush_ok (v : cached) :
  view_ok (as_view v) -> uint256_IsNull (hashBlock v.1) = false -> accepts (marks v.2) (hashBlock v.1) ->
  exists v', Flush v = Ok v' /\ view_ok (as_view v') /\
    levels (as_view v') = coins (as_view v) :: coins (as_view v) :: tail (levels v.2) /\
    marks v'.2 = match v.2 with ViewDB _ => (Some (hashBlock v.1), []) | ViewCache _ _ => marks v.2 end.
Proof.
  destruct v as [c base]. cbn [fst snd]. intros [Hc Hb] Hh Hacc.
  destruct (BatchWrite_ok base (cacheCoins c) (hashBlock c) Hb Hc Hh Hacc) as (base' & Hw & Hb' & Hcoins & Ht & Hmarks).
  unfold Flush. cbn [fst snd]. rewrite Hw. eexists. split; [reflexivity|]. cbn [fst snd]. split_and!; [..|done].
  - split; [|done]. intros o e. cbn [cacheCoins set_coins]. by rewrite lookup_empty.
  - change (coins (ViewCache c base)) with (merge overlay (cacheCoins c) (coins base)). rewrite <- Hcoins, <- Ht.
    cbn [levels]. f_equal; [cbn; apply merge_empty_overlay|]. by destruct base'.
Qed.

Lemma Sync_ok (v : cached) :
  view_ok (as_view v) -> uint256_IsNull (hashBlock v.1) = false -> accepts (marks v.2) (hashBlock v.1) ->
  exists v', Sync v = Ok v' /\ view_ok (as_view v') /\
    levels (as_view v') = coins (as_view v) :: coins (as_view v) :: tail (levels v.2) /\
    marks v'.2 = match v.2 with ViewDB _ => (Some (hashBlock v.1), []) | ViewCache _ _ => marks v.2 end.
Proof.
  destruct v as [c base]. cbn [fst snd]. intros [Hc Hb] Hh Hacc.
  destruct (BatchWrite_ok base (cacheCoins c) (hashBlock c) Hb Hc Hh Hacc) as (base' & Hw & Hb' & Hcoins & Ht & Hmarks).
  unfold Sync. cbn [fst snd]. rewrite Hw. eexists. split; [reflexivity|]. cbn [fst snd].
  assert (Hlook : forall o, coins base' !! o = overlay (cacheCoins c !! o) (coins base !! o)).
  { intros o. rewrite Hcoins, <- coins_lookup. done. }
  split_and!; [..|done].
  - split; [|done]. intros o e. cbn [cacheCoins set_coins]. rewrite lookup_omap.
    destruct (cacheCoins c !! o) as [e'|] eqn:E; [|done]. cbn. unfold synced.
    destruct (IsSpent (coin e')) eqn:Es; [done|]. intros [= <-]. unfold cache_entry_ok. cbn. rewrite Es, Hlook, E. cbn.
    unfold unspent. by rewrite Es.
  - change (coins (ViewCache c base)) with (merge overlay (cacheCoins c) (coins base)). rewrite <- Hcoins, <- Ht.
    cbn [levels]. f_equal; [|by destruct base']. apply map_eq. intros o. rewrite coins_lookup, Hlook.
    cbn [cacheCoins set_coins]. rewrite lookup_omap. destruct (cacheCoins c !! o) as [e|]; [|done]. cbn.
    unfold synced, unspent. destruct (IsSpent (coin e)) eqn:Es; cbn; [done|]. unfold unspent. cbn. by rewrite Es.
Qed.

Lemma coins_Uncache (v : cached) o :
  view_ok (as_view v) -> view_ok (as_view (Uncache v o)) /\ levels (as_view (Uncache v o)) = levels (as_view v).
Proof.
  destruct v as [c base]. intros Hv. unfold Uncache. cbn [fst snd]. destruct (cacheCoins c !! o) as [e|] eqn:E; [|done].
  destruct (negb (DIRTY e) && negb (FRESH e)) eqn:Ef; [|done].
  apply andb_true_iff in Ef as [Hd%negb_true_iff Hf%negb_true_iff]. cbn [fst snd].
  split; [split; [by apply cache_ok_delete, Hv|apply Hv]|]. cbn [levels]. f_equal.
  apply map_eq. intros o'. cbn [coins cacheCoins set_coins]. rewrite !lookup_merge.
  destruct (decide (o' = o)) as [->|]; [|by rewrite lookup_delete_ne]. rewrite lookup_delete_eq, E.
  destruct (proj1 Hv o e E) as (_ & H2 & _). specialize (H2 Hd). rewrite Hf in H2. cbn. unfold unspent.
  destruct (IsSpent (coin e)); [done|]. destruct H2 as [_ H2]. cbn [snd] in H2. by rewrite H2.
Qed.

Lemma SanityCheck_ok c below : cache_ok (cacheCoins c) below -> SanityCheck c = true.
Proof.
  intros Hc. apply bool_decide_eq_true. intros o e He. destruct (Hc o e He) as (_ & H2 & H3).
  destruct (DIRTY e), (FRESH e), (IsSpent (coin e)); cbn in *; try done.
  - by specialize (H3 eq_refl eq_refl).
  - by destruct (H2 eq_refl).
  - by specialize (H2 eq_refl).
Qed.

Lemma AccessCoin_ok (v : cached) o :
  view_ok (as_view v) ->
  let '(r, v') := AccessCoin v o in
  unspent r = coins (as_view v) !! o /\ view_ok (as_view v') /\ levels (as_view v') = levels (as_view v).
Proof.
  intros Hv. pose proof (FetchCoin_ok v o Hv) as Hf. unfold AccessCoin.
  destruct (FetchCoin v.1 v.2 o) as [[[it|] c] base]; destruct Hf as (Hr & Hv' & Hl & _); done.
Qed.

Lemma HaveCoin_ok (v : cached) o :
  view_ok (as_view v) ->
  let '(r, v') := HaveCoin v o in
  r = bool_decide (is_Some (coins (as_view v) !! o)) /\ view_ok (as_view v') /\ levels (as_view v') = levels (as_view v).
Proof.
  intros Hv. pose proof (FetchCoin_ok v o Hv) as Hf. unfold HaveCoin.
  destruct (FetchCoin v.1 v.2 o) as [[[it|] c] base]; destruct Hf as (Hr & Hv' & Hl & _); split_and!; try done.
  - rewrite <- Hr. cbn. unfold unspent. by destruct (IsSpent (coin it)).
  - by rewrite <- Hr.
Qed.

(** ** A chain of caches is a stack of maps *)

Inductive op :=
| Op_Get (o : COutPoint) | Op_Have (o : COutPoint) | Op_Access (o : COutPoint)
| Op_Add (o : COutPoint) (c : Coin) (possible_overwrite : bool) | Op_Spend (o : COutPoint)
| Op_Uncache (o : COutPoint) | Op_Flush (h : uint256) | Op_Sync (h : uint256)
| Op_Push | Op_Pop.

Inductive answer := Done | Found (c : option Coin) | Have (b : bool).

(** A new cache on top of this one, as [CCoinsViewCache(base)] makes it. *)
Definition new_cache (base : view) : cached := ({| cacheCoins := ∅; hashBlock := uint256_null |}, base).

Definition top_of (v : cached) (w : view) : cached := match w with ViewCache c base => (c, base) | ViewDB _ => v end.

(** A flush is preceded by [SetBestBlock]; dropping a cache abandons what it has not written. *)
Definition run_op (x : op) (v : cached) : result string (answer * cached) :=
  match x with
  | Op_Get o => let '(r, w) := GetCoin (as_view v) o in Ok (Found r, top_of v w)
  | Op_Have o => let '(r, v) := HaveCoin v o in Ok (Have r, v)
  | Op_Access o => let '(r, v) := AccessCoin v o in Ok (Found (unspent r), v)
  | Op_Add o c ow => v ← AddCoin v o c ow; Ok (Done, v)
  | Op_Spend o => let '(r, v) := SpendCoin v o in Ok (Found (r ≫= unspent), v)
  | Op_Uncache o => Ok (Done, Uncache v o)
  | Op_Flush h => v ← Flush (SetBestBlock v h); Ok (Done, v)
  | Op_Sync h => v ← Sync (SetBestBlock v h); Ok (Done, v)
  | Op_Push => Ok (Done, new_cache (as_view v))
  | Op_Pop => Ok (Done, top_of v v.2)
  end.

Fixpoint run_ops (xs : list op) (v : cached) : result string (list answer * cached) :=
  match xs with
  | [] => Ok ([], v)
  | x :: xs => '(a, v) ← run_op x v; '(l, v) ← run_ops xs v; Ok (a :: l, v)
  end.

(** The same on a stack of maps; [None] where the caller breaks the contract: a spent coin is
    added, an unspent one is overwritten without notice, the null block is written, or the
    cache on the database is dropped. *)
Definition spec_op (x : op) (m : gmap COutPoint Coin) (below : list (gmap COutPoint Coin)) :
    option (answer * list (gmap COutPoint Coin)) :=
  match x with
  | Op_Get o | Op_Access o => Some (Found (m !! o), m :: below)
  | Op_Have o => Some (Have (bool_decide (is_Some (m !! o))), m :: below)
  | Op_Add o c ow =>
      if negb (IsSpent c) && (ow || bool_decide (m !! o = None))
      then Some (Done, (if IsUnspendable (scriptPubKey (coin_out c)) then m else <[o := c]> m) :: below) else None
  | Op_Spend o => Some (Found (m !! o), delete o m :: below)
  | Op_Uncache _ => Some (Done, m :: below)
  | Op_Flush h | Op_Sync h => if uint256_IsNull h then None else Some (Done, m :: m :: tail below)
  | Op_Push => Some (Done, m :: m :: below)
  | Op_Pop => match below with _ :: _ :: _ => Some (Done, below) | _ => None end
  end.

Fixpoint spec_ops (xs : list op) (st : list (gmap COutPoint Coin)) : option (list answer * list (gmap COutPoint Coin)) :=
  match xs, st with
  | [], _ => Some ([], st)
  | x :: xs, m :: below => '(a, st) ← spec_op x m below; '(l, st) ← spec_ops xs st; Some (a :: l, st)
  | _, [] => None
  end.

Lemma view_ok_new_cache v : view_ok v -> view_ok (as_view (new_cache v)) /\ coins (as_view (new_cache v)) = coins v.
Proof.
  intros Hv. split; [split; [|done]|by cbn; apply merge_empty_overlay].
  intros o e. cbn [fst cacheCoins new_cache]. by rewrite lookup_empty.
Qed.

(** The database is not in the middle of a transition. *)
Definition committed (mk : option uint256 * list uint256) : Prop :=
  match mk.1 with Some b => uint256_IsNull b = false | None => mk.2 = [] end.

Lemma committed_accepts mk h : committed mk -> accepts mk h.
Proof. unfold committed, accepts. destruct mk as [[]]; cbn; [done|]. by intros ->. Qed.

Lemma run_op_committed x (v v' : cached) a st :
  run_op x v = Ok (a, v') -> spec_op x (coins (as_view v)) (levels v.2) = Some (a, st) -> committed (marks v.2) -> committed (marks v'.2).
Proof.
  intros Hr Hs Hc. enough (marks v'.2 = marks v.2 \/ exists h, uint256_IsNull h = false /\ marks v'.2 = (Some h, [])) as [->|(h & Hh & ->)] by done.
  destruct x as [o|o|o|o c ow|o|o|h|h| |]; cbn [run_op spec_op] in *.
  - left. pose proof (GetCoin_marks (as_view v) o) as Hm. destruct (GetCoin (as_view v) o) as [r [db|c base]]; injection Hr as _ <-; done.
  - left. unfold HaveCoin in Hr. pose proof (FetchCoin_marks v.1 v.2 o) as Hm. destruct (FetchCoin v.1 v.2 o) as [[[] ?] ?]; injection Hr as _ <-; done.
  - left. unfold AccessCoin in Hr. pose proof (FetchCoin_marks v.1 v.2 o) as Hm. destruct (FetchCoin v.1 v.2 o) as [[[] ?] ?]; injection Hr as _ <-; done.
  - left. unfold AddCoin in Hr. destruct (negb (IsSpent c)); [|done]. destruct (IsUnspendable _); [by injection Hr as _ <-|]. destruct (_ || _); [|done]. by injection Hr as _ <-.
  - left. unfold SpendCoin in Hr. pose proof (FetchCoin_marks v.1 v.2 o) as Hm. destruct (FetchCoin v.1 v.2 o) as [[[] ?] ?]; injection Hr as _ <-; done.
  - left. injection Hr as _ <-. unfold Uncache. destruct (cacheCoins v.1 !! o); [|done]. by destruct (_ && _).
  - destruct (uint256_IsNull h) eqn:Hh; [done|]. apply bind_ok in Hr as (v1 & Hf & [= _ <-]). unfold Flush in Hf. cbn [fst snd SetBestBlock hashBlock cacheCoins] in Hf.
    apply bind_ok in Hf as (base & Hb & [= <-]). destruct v as [c [db|c' base']]; cbn [snd] in *; cbn [BatchWrite] in Hb; apply bind_ok in Hb as (x & Hx & [= <-]); [|by left].
    unfold db_BatchWrite in Hx. rewrite Hh in Hx. cbn [negb] in Hx. destruct (_ || _); [|done]. injection Hx as <-. right. by exists h.
  - destruct (uint256_IsNull h) eqn:Hh; [done|]. apply bind_ok in Hr as (v1 & Hf & [= _ <-]). unfold Sync in Hf. cbn [fst snd SetBestBlock hashBlock cacheCoins] in Hf.
    apply bind_ok in Hf as (base & Hb & [= <-]). destruct v as [c [db|c' base']]; cbn [snd] in *; cbn [BatchWrite] in Hb; apply bind_ok in Hb as (x & Hx & [= <-]); [|by left].
    unfold db_BatchWrite in Hx. rewrite Hh in Hx. cbn [negb] in Hx. destruct (_ || _); [|done]. injection Hx as <-. right. by exists h.
  - injection Hr as _ <-. by left.
  - injection Hr as _ <-. left. by destruct v as [c []].
Qed.

Lemma run_op_ok x (v : cached) a st :
  view_ok (as_view v) -> committed (marks v.2) -> spec_op x (coins (as_view v)) (levels v.2) = Some (a, st) ->
  exists v', run_op x v = Ok (a, v') /\ view_ok (as_view v') /\ levels (as_view v') = st.
Proof.
  intros Hv Hcom. destruct x as [o|o|o|o c ow|o|o|h|h| |]; cbn [spec_op run_op].
  - intros [= <- <-]. pose proof (GetCoin_ok (as_view v) o Hv) as Hg. pose proof (GetCoin_levels (as_view v) o Hv) as Hl.
    destruct (GetCoin (as_view v) o) as [r w] eqn:E. destruct Hg as (-> & Hw & _). eexists. split; [reflexivity|].
    destruct w as [db|c base]; [injection Hl as _ Hl; by destruct v.2|]. by split.
  - intros [= <- <-]. pose proof (HaveCoin_ok v o Hv) as Hh. destruct (HaveCoin v o) as [r v']. destruct Hh as (-> & ? & ?). eauto.
  - intros [= <- <-]. pose proof (AccessCoin_ok v o Hv) as Hh. destruct (AccessCoin v o) as [r v']. destruct Hh as (-> & ? & ?). eauto.
  - destruct (negb (IsSpent c)) eqn:Hs; [|done]. destruct (ow || _) eqn:Ho; [|done]. cbn [andb]. intros [= <- <-].
    apply negb_true_iff in Hs. destruct (AddCoin_ok v o c ow Hv Hs) as (v' & -> & Hv' & Hb & Hc).
    { apply orb_true_iff in Ho as [?|Ho]; [auto|]. right. by apply bool_decide_eq_true in Ho. }
    eexists. split; [reflexivity|]. split; [done|]. cbn [levels]. by rewrite Hc, Hb.
  - intros [= <- <-]. pose proof (SpendCoin_ok v o Hv) as Hh. destruct (SpendCoin v o) as [r v']. destruct Hh as (-> & ? & ?). eauto.
  - intros [= <- <-]. destruct (coins_Uncache v o Hv) as [? ?]. eauto.
  - destruct (uint256_IsNull h) eqn:Hh; [done|]. intros [= <- <-].
    destruct (Flush_ok (SetBestBlock v h) Hv Hh (committed_accepts _ h Hcom)) as (v' & -> & ? & ? & _). eauto.
  - destruct (uint256_IsNull h) eqn:Hh; [done|]. intros [= <- <-].
    destruct (Sync_ok (SetBestBlock v h) Hv Hh (committed_accepts _ h Hcom)) as (v' & -> & ? & ? & _). eauto.
  - intros [= <- <-]. destruct (view_ok_new_cache (as_view v) Hv) as [? Hc]. eexists. split; [reflexivity|]. split; [done|].
    cbn [levels]. by rewrite Hc.
  - destruct v as [c [db|c' base]]; cbn [snd levels]; [done|]. destruct (levels base) eqn:E; [by destruct base|].
    intros [= <- <-]. eexists. split; [reflexivity|]. split; [apply Hv|]. cbn [fst snd top_of levels]. by rewrite E.
Qed.

(** The caches of a chain, without the database. *)
Fixpoint caches (v : view) : list CCoinsViewCache :=
  match v with ViewDB _ => [] | ViewCache c base => c :: caches base end.

Lemma view_ok_SanityCheck v : view_ok v -> Forall (fun c => SanityCheck c = true) (caches v).
Proof. induction v as [|c base IH]; intros Hv; [constructor|]. destruct Hv. constructor; [by eapply SanityCheck_ok|auto]. Qed.

(** C5: a chain of caches over the database refines a stack of maps from outpoints to
    unspent coins. On a database that is not in the middle of a write, whatever sequence of
    reads, additions, spends, flushes, syncs, uncachings, new caches and dropped caches keeps
    the contract of the callers, the code throws nothing, gives the answers of the stack,
    leaves in every level the coins of the stack, and every cache passes the assertion of
    [SanityCheck] on its flags. *)
Theorem coins_refine_stack (xs : list op) (v : cached) (l : list answer) (st : list (gmap COutPoint Coin)) :
  view_ok (as_view v) -> committed (marks v.2) -> spec_ops xs (levels (as_view v)) = Some (l, st) ->
  exists v', run_ops xs v = Ok (l, v') /\ view_ok (as_view v') /\ levels (as_view v') = st /\
    Forall (fun c => SanityCheck c = true) (caches (as_view v')).
Proof.
  revert v l st. induction xs as [|x xs IH]; intros v l st Hv Hcom Hs.
  { injection Hs as <- <-. exists v. split_and!; try done. by apply view_ok_SanityCheck. }
  cbn [spec_ops levels] in Hs. apply bind_Some in Hs as ([a st1] & H1 & Hs). apply bind_Some in Hs as ([l2 st2] & H2 & Hs).
  injection Hs as <- <-. destruct (run_op_ok x v a st1 Hv Hcom H1) as (v1 & Hr & Hv1 & <-).
  destruct (IH v1 l2 st2 Hv1 (run_op_committed x v v1 a _ Hr H1 Hcom) H2) as (v2 & Hr2 & Hv2 & Hl2 & Hsane). exists v2. cbn [run_ops]. rewrite Hr. cbn. by rewrite Hr2.
Qed.

(** ** Connecting and disconnecting *)

(** What a cache is based on: the coins of every level, and what the database says of its tip. *)
Abbreviation backing := (list (gmap COutPoint Coin) * (option uint256 * list uint256))%type.
Definition backing_of (v : view) : backing := (levels v, marks v).

(** The cache shows the coins [m], and what it is based on is [below]. *)
Definition shows (v : cached) (m : gmap COutPoint Coin) (below : backing) : Prop :=
  view_ok (as_view v) /\ coins (as_view v) = m /\ backing_of v.2 = below.

(** An operation of the cache that only reads from what is below. *)
Lemma shows_step (v v' : cached) m :
  view_ok (as_view v') -> levels (as_view v') = m :: levels v.2 -> marks v'.2 = marks v.2 -> shows v' m (backing_of v.2).
Proof. intros Hv [= Hm Hl] Hk. split_and!; [done|done|]. unfold backing_of. by rewrite Hl, Hk. Qed.

Lemma HaveCoin_marks (v : cached) o : marks (HaveCoin v o).2.2 = marks v.2.
Proof. unfold HaveCoin. pose proof (FetchCoin_marks v.1 v.2 o) as Hm. by destruct (FetchCoin v.1 v.2 o) as [[[] ?] ?]. Qed.

Lemma AccessCoin_marks (v : cached) o : marks (AccessCoin v o).2.2 = marks v.2.
Proof. unfold AccessCoin. pose proof (FetchCoin_marks v.1 v.2 o) as Hm. by destruct (FetchCoin v.1 v.2 o) as [[[] ?] ?]. Qed.

Lemma SpendCoin_marks (v : cached) o : marks (SpendCoin v o).2.2 = marks v.2.
Proof. unfold SpendCoin. pose proof (FetchCoin_marks v.1 v.2 o) as Hm. by destruct (FetchCoin v.1 v.2 o) as [[[] ?] ?]. Qed.

Lemma shows_add v m below o c ow :
  shows v m below -> IsSpent c = false -> ow = true \/ m !! o = None ->
  exists v', AddCoin v o c ow = Ok v' /\
    shows v' (if IsUnspendable (scriptPubKey (coin_out c)) then m else <[o := c]> m) below.
Proof.
  intros (Hv & <- & <-) Hs Ho. destruct (AddCoin_ok v o c ow Hv Hs Ho) as (v' & He & Hv' & Hb & Hc). exists v'. split; [done|].
  split_and!; [done|done|by rewrite Hb].
Qed.

Lemma shows_delete v m below o : shows v m below -> shows (SpendCoin v o).2 (delete o m) below.
Proof.
  intros (Hv & <- & <-). pose proof (SpendCoin_ok v o Hv) as Hs. pose proof (SpendCoin_marks v o) as Hk.
  destruct (SpendCoin v o) as [r v']. destruct Hs as (_ & Hv' & Hl). by apply shows_step.
Qed.

Lemma shows_spend v m below o c :
  shows v m below -> m !! o = Some c -> exists v', SpendCoin v o = (Some c, v') /\ shows v' (delete o m) below.
Proof.
  intros Hv Ho. pose proof (shows_delete v m below o Hv) as Hd. destruct Hv as (Hv & <- & <-).
  pose proof (SpendCoin_ok v o Hv) as Hs. destruct (SpendCoin v o) as [r v']. destruct Hs as (Hr & _ & _).
  rewrite Ho in Hr. destruct r as [r|]; [|done]. apply unspent_Some in Hr as [-> _]. by exists v'.
Qed.

Lemma shows_have v m below o :
  shows v m below -> exists v', HaveCoin v o = (bool_decide (is_Some (m !! o)), v') /\ shows v' m below.
Proof.
  intros (Hv & <- & <-). pose proof (HaveCoin_ok v o Hv) as Hh. pose proof (HaveCoin_marks v o) as Hk.
  destruct (HaveCoin v o) as [r v']. destruct Hh as (-> & Hv' & Hl'). exists v'. split; [done|]. by apply shows_step.
Qed.

Lemma shows_absent v m below o :
  shows v m below -> m !! o = None -> exists v', HaveCoin v o = (false, v') /\ shows v' m below.
Proof. intros Hv Ho. destruct (shows_have v m below o Hv) as (v' & -> & Hv'). exists v'. by rewrite Ho. Qed.

Lemma shows_access v m below o :
  shows v m below -> exists c v', AccessCoin v o = (c, v') /\ unspent c = m !! o /\ shows v' m below.
Proof.
  intros (Hv & <- & <-). pose proof (AccessCoin_ok v o Hv) as Hh. pose proof (AccessCoin_marks v o) as Hk.
  destruct (AccessCoin v o) as [c v']. destruct Hh as (Hc & Hv' & Hl'). exists c, v'. split_and!; [done|done|]. by apply shows_step.
Qed.

(** What holds of every coin that [AddCoin] has put into the set at a height above zero. *)
Definition coin_ok (c : Coin) : Prop :=
  IsSpent c = false /\ IsUnspendable (scriptPubKey (coin_out c)) = false /\ coin_nHeight c <> 0.

Abbreviation coins_ok m := (map_Forall (fun _ : COutPoint => coin_ok) m).

(** The inputs of a transaction taken from the set one after the other. *)
Fixpoint take_inputs (ins : list CTxIn) (m : gmap COutPoint Coin) : option (list Coin * gmap COutPoint Coin) :=
  match ins with
  | [] => Some ([], m)
  | i :: ins => c ← m !! prevout i; '(l, m) ← take_inputs ins (delete (prevout i) m); Some (c :: l, m)
  end.

Lemma take_inputs_coins_ok ins m l m' : take_inputs ins m = Some (l, m') -> coins_ok m -> coins_ok m'.
Proof.
  revert m l. induction ins as [|i ins IH]; intros m l; cbn; [by intros [= <- <-]|].
  intros (c & Hc & ([l' m1] & H1 & [= <- <-])%bind_Some)%bind_Some Hm. eapply IH, map_Forall_delete; done.
Qed.

Lemma take_inputs_length ins m l m' : take_inputs ins m = Some (l, m') -> length l = length ins.
Proof.
  revert m l. induction ins as [|i ins IH]; intros m l; cbn; [by intros [= <- <-]|].
  intros (c & Hc & ([l' m1] & H1 & [= <- <-])%bind_Some)%bind_Some. cbn. f_equal. by eapply IH.
Qed.

Lemma spend_inputs_shows ins v m below undo l m' :
  shows v m below -> take_inputs ins m = Some (l, m') ->
  exists v', spend_inputs ins v undo = Ok ((undo ++ l)%list, v') /\ shows v' m' below.
Proof.
  revert v m undo l. induction ins as [|i ins IH]; intros v m undo l Hv; cbn.
  { intros [= <- <-]. exists v. by rewrite app_nil_r. }
  intros (c & Hc & ([l' m1] & H1 & [= <- <-])%bind_Some)%bind_Some.
  destruct (shows_spend v m below _ c Hv Hc) as (v1 & -> & Hv1).
  destruct (IH v1 _ (undo ++ [c])%list l' Hv1 H1) as (v2 & -> & Hv2). exists v2. by rewrite <- app_assoc.
Qed.

Lemma restore_inputs_shows ins rest v m below l m' fClean :
  coins_ok m -> take_inputs ins m = Some (l, m') -> shows v m' below ->
  exists v', restore_inputs (rev (zip ins l) ++ rest)%list v fClean = restore_inputs rest v' fClean /\ shows v' m below.
Proof.
  revert v m l rest. induction ins as [|i ins IH]; intros v m l rest Hm; cbn [take_inputs].
  { intros [= <- <-] Hv. by exists v. }
  intros (c & Hc & ([l' m1] & H1 & [= <- <-])%bind_Some)%bind_Some Hv. cbn [zip zip_with rev]. rewrite <- app_assoc.
  destruct (IH v _ l' ([(i, c)] ++ rest)%list (map_Forall_delete _ _ _ Hm) H1 Hv) as (v1 & -> & Hv1).
  destruct (shows_absent v1 _ below (prevout i) Hv1 (lookup_delete_eq m _)) as (v2 & Hh & Hv2).
  destruct (Hm _ c Hc) as (Hs & Hu & Hz).
  destruct (shows_add v2 _ below (prevout i) c false Hv2 Hs (or_intror (lookup_delete_eq m _))) as (v3 & Ha & Hv3).
  exists v3. cbn [app restore_inputs]. unfold ApplyTxInUndo. rewrite Hh.
  rewrite (proj2 (Z.eqb_neq _ _) Hz). cbn [negb]. rewrite Ha. split; [done|]. rewrite Hu in Hv3. by rewrite insert_delete_id in Hv3.
Qed.

Section connect.
Variable GetHash : CTransaction -> uint256.
Variable batch : Z.
Variable nHeight : Z.
Hypothesis nHeight_range : 0 < nHeight < 2 ^ 31.

Definition put_output (tx : CTransaction) (i : Z) (o : CTxOut) (m : gmap COutPoint Coin) : gmap COutPoint Coin :=
  if IsUnspendable (scriptPubKey o) then m else <[out_of GetHash tx i := Coin_of o nHeight (IsCoinBase tx)]> m.

(** The outputs of a transaction put into the set. *)
Fixpoint put_outputs (tx : CTransaction) (i : Z) (outs : list CTxOut) (m : gmap COutPoint Coin) : gmap COutPoint Coin :=
  match outs with
  | [] => m
  | o :: outs => put_output tx i o (put_outputs tx (i + 1) outs m)
  end.

Definition outs_fit (outs : list CTxOut) : Prop := Forall (fun o => CTxOut_IsNull o = false) outs.

(** None of the outpoints from index [i] on is in the set. *)
Definition outs_absent (tx : CTransaction) (i : Z) (outs : list CTxOut) (m : gmap COutPoint Coin) : Prop :=
  forall j, i <= j < i + Z.of_nat (length outs) -> m !! out_of GetHash tx j = None.

Lemma put_outputs_below tx i j outs m : j < i -> put_outputs tx i outs m !! out_of GetHash tx j = m !! out_of GetHash tx j.
Proof.
  revert i. induction outs as [|o outs IH]; intros i Hj; cbn; [done|]. unfold put_output.
  destruct (IsUnspendable _); [apply IH; lia|]. rewrite lookup_insert_ne by (intros [=]; lia). apply IH; lia.
Qed.

Lemma put_outputs_comm tx i j o outs m :
  j < i -> put_outputs tx i outs (put_output tx j o m) = put_output tx j o (put_outputs tx i outs m).
Proof.
  revert i. induction outs as [|o' outs IH]; intros i Hj; cbn; [done|]. rewrite IH by lia. unfold put_output.
  repeat destruct (IsUnspendable _); try done. apply insert_insert_ne. intros [=]; lia.
Qed.

Lemma put_outputs_coins_ok tx i outs m : outs_fit outs -> coins_ok m -> coins_ok (put_outputs tx i outs m).
Proof.
  intros Ho Hm. revert i. induction Ho as [|o outs Hn Ho IH]; intros i; cbn; [done|]. unfold put_output.
  destruct (IsUnspendable _) eqn:E; [apply IH|]. apply map_Forall_insert_2; [|apply IH].
  split_and!; [done|done|]. cbn. rewrite Z.mod_small; lia.
Qed.

Lemma AddCoins_shows tx i outs v m below :
  shows v m below -> outs_fit outs -> outs_absent tx i outs m ->
  exists v', AddCoins_loop GetHash tx nHeight false i outs v = Ok v' /\ shows v' (put_outputs tx i outs m) below.
Proof.
  intros Hv Ho. revert i v m Hv. induction Ho as [|o outs Hn Ho IH]; intros i v m Hv Ha; [by exists v|].
  cbn [AddCoins_loop put_outputs].
  destruct (shows_add v m below (out_of GetHash tx i) (Coin_of o nHeight (IsCoinBase tx)) (IsCoinBase tx) Hv Hn) as (v1 & -> & Hv1).
  { right. apply Ha. cbn. lia. }
  cbn [mbind result_bind]. destruct (IH (i + 1) v1 _ Hv1) as (v2 & He & Hv2).
  { intros j Hj. cbn. destruct (IsUnspendable _); [|rewrite lookup_insert_ne by (intros [=]; lia)]; apply Ha; cbn; lia. }
  exists v2. split; [exact He|]. change (if IsUnspendable _ then m else _) with (put_output tx i o m) in Hv2.
  by rewrite put_outputs_comm in Hv2 by lia.
Qed.

Lemma spend_outputs_shows tx i outs v m below fClean :
  shows v (put_outputs tx i outs m) below -> outs_absent tx i outs m ->
  exists v', spend_outputs GetHash tx nHeight i outs v fClean = (fClean, v') /\ shows v' m below.
Proof.
  revert i v fClean. induction outs as [|o outs IH]; intros i v fClean; cbn [put_outputs spend_outputs]; [by exists v|].
  intros Hv Ha. assert (Ha' : outs_absent tx (i + 1) outs m) by (intros j Hj; apply Ha; cbn; lia).
  unfold put_output in Hv. destruct (IsUnspendable _); [by apply IH|].
  destruct (shows_spend _ _ _ (out_of GetHash tx i) _ Hv (lookup_insert_eq _ _ _)) as (v1 & -> & Hv1).
  rewrite delete_insert_id in Hv1 by (rewrite put_outputs_below by lia; apply Ha; cbn; lia).
  cbn [Coin_of coin_out coin_nHeight fCoinBase]. rewrite bool_decide_eq_true_2, Z.mod_small, Z.eqb_refl, Bool.eqb_reflx, andb_true_r by (done || lia).
  by apply IH.
Qed.

(** The transactions of a block, the first of them the coinbase, change the set from [m] to
    [m'] and leave the spent coins as undo data: every input is in the set, no new outpoint
    is, and the outputs have values. *)
Inductive connects : list CTransaction -> bool -> gmap COutPoint Coin -> list (list Coin) -> gmap COutPoint Coin -> Prop :=
| connects_nil first m : connects [] first m [] m
| connects_cons first tx vtx m l m1 ls m' :
    IsCoinBase tx = first -> (first = false -> DisconnectSyscoinTransaction batch tx = true) ->
    take_inputs (if first then [] else vin tx) m = Some (l, m1) ->
    outs_fit (vout tx) -> outs_absent tx 0 (vout tx) m1 ->
    connects vtx false (put_outputs tx 0 (vout tx) m1) ls m' ->
    connects (tx :: vtx) first m (if first then ls else l :: ls) m'.

Lemma UpdateCoins_shows tx v m below l m1 :
  shows v m below -> take_inputs (if IsCoinBase tx then [] else vin tx) m = Some (l, m1) ->
  outs_fit (vout tx) -> outs_absent tx 0 (vout tx) m1 ->
  exists v', UpdateCoins GetHash tx v nHeight = Ok (l, v') /\ shows v' (put_outputs tx 0 (vout tx) m1) below.
Proof.
  intros Hv Ht Hf Ha. unfold UpdateCoins.
  assert (exists v1, (if negb (IsCoinBase tx) then spend_inputs (vin tx) v [] else Ok ([], v)) = Ok (l, v1) /\ shows v1 m1 below)
    as (v1 & -> & Hv1).
  { destruct (IsCoinBase tx); cbn [negb]; [injection Ht as <- <-; by exists v|].
    by destruct (spend_inputs_shows (vin tx) v m below [] l m1 Hv Ht) as (v1 & -> & ?); exists v1. }
  cbn [mbind result_bind]. destruct (AddCoins_shows tx 0 (vout tx) v1 m1 below Hv1 Hf Ha) as (v2 & He & Hv2).
  unfold AddCoins. rewrite He. by exists v2.
Qed.

(** What [DisconnectBlock] pairs with every transaction. *)
Definition undo_of (first : bool) (ls : list (list Coin)) : list (option (list Coin)) :=
  if first then None :: (Some <$> ls) else Some <$> ls.

Lemma connects_length vtx first m ls m' :
  connects vtx first m ls m' -> vtx <> [] \/ first = false -> length (undo_of first ls) = length vtx.
Proof.
  induction 1 as [|first tx vtx m l m1 ls m' _ _ _ _ _ Hc IH]; [intros [?| ->]; done|].
  intros _. specialize (IH (or_intror eq_refl)). destruct first; cbn in *; by rewrite IH.
Qed.

Lemma disconnect_txs_shows vtx first v m below ls m' rest fClean :
  coins_ok m -> connects vtx first m ls m' -> shows v m' below ->
  exists v', disconnect_txs GetHash batch (rev (zip vtx (undo_of first ls)) ++ rest)%list nHeight v fClean =
             disconnect_txs GetHash batch rest nHeight v' fClean /\ shows v' m below.
Proof.
  intros Hm Hc. revert v rest fClean Hm. induction Hc as [|first tx vtx m l m1 ls m' Hcb Hd Ht Hf Ha Hc IH]; intros v rest fClean Hm Hv; [by exists v|].
  pose proof (take_inputs_coins_ok _ _ _ _ Ht Hm) as Hm1.
  destruct (IH v ([(tx, if first then None else Some l)] ++ rest)%list fClean (put_outputs_coins_ok tx 0 _ m1 Hf Hm1) Hv) as (v1 & He & Hv1).
  destruct (spend_outputs_shows tx 0 (vout tx) v1 m1 below fClean Hv1 Ha) as (v2 & Hs & Hv2).
  assert (Hz : zip (tx :: vtx) (undo_of first (if first then ls else l :: ls)) =
               (tx, if first then None else Some l) :: zip vtx (undo_of false ls)) by by destruct first.
  rewrite Hz. cbn [rev]. rewrite <- app_assoc, He. cbn [app disconnect_txs]. rewrite Hs.
  destruct first; [injection Ht as <- <-; by exists v2|].
  rewrite (take_inputs_length _ _ _ _ Ht).
  rewrite Nat.eqb_refl, Hd by done. cbn [negb andb].
  destruct (restore_inputs_shows (vin tx) [] v2 m below l m1 fClean Hm Ht Hv2) as (v3 & Hr & Hv3).
  rewrite app_nil_r in Hr. rewrite Hr. by exists v3.
Qed.

(** [DisconnectBlock] with the undo data of a block that was connected. *)
Lemma DisconnectBlock_shows vtx v m below ls m' prevHash :
  coins_ok m -> connects vtx true m ls m' -> vtx <> [] -> shows v m' below ->
  exists v', DisconnectBlock GetHash batch true true vtx ls nHeight prevHash v = Ok (DISCONNECT_OK, v') /\ shows v' m below /\ hashBlock v'.1 = prevHash.
Proof.
  intros Hm Hc Hne Hv. destruct (disconnect_txs_shows vtx true v m below ls m' [] true Hm Hc Hv) as (v2 & Hd & Hv2).
  exists (SetBestBlock v2 prevHash). split_and!; [|done|done].
  unfold DisconnectBlock. assert ((length ls + 1 =? length vtx)%nat = true) as ->.
  { apply Nat.eqb_eq. pose proof (connects_length _ _ _ _ _ Hc (or_introl Hne)) as Hlen.
    cbn [undo_of length] in Hlen. rewrite length_fmap in Hlen. lia. }
  cbn [negb]. rewrite app_nil_r in Hd. cbn [undo_of] in Hd. rewrite Hd. done.
Qed.

(** What a component that does not undo the block makes of it. *)
Lemma DisconnectBlock_fails vtx undo h prevHash v v' special nevm :
  DisconnectBlock GetHash batch true true vtx undo h prevHash v = Ok (DISCONNECT_OK, v') -> special && nevm = false ->
  exists v1, DisconnectBlock GetHash batch special nevm vtx undo h prevHash v = Ok (DISCONNECT_FAILED, v1).
Proof.
  unfold DisconnectBlock. destruct (negb (_ =? _)%nat); [eauto|]. destruct special; [|eauto]. destruct nevm; [done|]. intros H _. cbn [negb] in *.
  apply bind_ok in H as (r & -> & H). cbn [mbind result_bind]. destruct r as [[? ?]|]; eauto.
Qed.
End connect.

(** ** Witnesses *)

(** One byte of a hash set. *)
Definition example_hash (b : Z) : uint256 := b :: replicate 31 0.

Definition example_out (value : Z) : CTxOut :=
  {| nValue := value; scriptPubKey := [81]; assetInfo := CAssetCoinInfo_null; vchNEVMData := [] |}.

Definition example_db : CCoinsViewDB :=
  {| db_coins := {[ {| op_hash := example_hash 9; op_n := 3 |} := Coin_of (example_out 70) 5 true ]};
     db_best_block := Some (example_hash 1); db_head_blocks := [] |}.

Definition example_ops : list op :=
  let o := {| op_hash := example_hash 9; op_n := 3 |} in
  let o' := {| op_hash := example_hash 7; op_n := 0 |} in
  [Op_Have o; Op_Push; Op_Add o' (Coin_of (example_out 4) 6 false) false; Op_Spend o; Op_Get o; Op_Flush (example_hash 2);
   Op_Access o'; Op_Push; Op_Spend o'; Op_Pop; Op_Pop; Op_Get o'; Op_Spend o'; Op_Sync (example_hash 3); Op_Get o'; Op_Uncache o].

Lemma example_view_ok : view_ok (as_view (new_cache (ViewDB example_db))).
Proof.
  apply view_ok_new_cache. intros o c. cbn [db_coins example_db].
  rewrite lookup_singleton_Some. by intros [_ <-].
Qed.

Lemma coins_refine_stack_witness :
  exists v', run_ops example_ops (new_cache (ViewDB example_db)) =
    Ok ([Have true; Done; Done; Found (Some (Coin_of (example_out 70) 5 true)); Found None; Done;
         Found (Some (Coin_of (example_out 4) 6 false)); Done; Found (Some (Coin_of (example_out 4) 6 false)); Done; Done;
         Found (Some (Coin_of (example_out 4) 6 false)); Found (Some (Coin_of (example_out 4) 6 false)); Done; Found None; Done], v') /\
    coins (as_view v') = ∅.
Proof.
  edestruct (coins_refine_stack example_ops (new_cache (ViewDB example_db))) as (v' & He & _ & Hl & _);
    [exact example_view_ok|reflexivity|vm_compute; reflexivity|].
  exists v'. split; [exact He|]. by injection Hl.
Defined.
