(* ===== verification/Undo.v ===== *)
(** * Undo data and compressed outputs on disk
    (src/src/undo.h, the compression of src/src/primitives/transaction.h and
    src/src/primitives/transaction.cpp, [Coin::Serialize] of src/src/coins.h, and
    [UndoWriteToDisk] and [UndoReadFromDisk] of src/src/node/blockstorage.cpp)

    A block that is connected leaves the coins it spent in an undo file, in a format that
    shortens amounts and the usual scripts; coins go to the database in the same format.
    Whether a key is a point of the curve and the point that a shortened key stands for are
    parameters, which the secp256k1 library decides.

    Shown here: what is written is read back, checksum included, when every coin has a shape
    that the format keeps.  It does not keep the amount of an output without an asset, nor
    the blob of an output. *)

From stdpp Require Import strings.
From S2P Require Import Prelude Serialize Amounts Script Transaction Coins.

Open Scope string_scope.
Open Scope Z_scope.
Open Scope list_scope.

Definition OP_DUP_byte : Z := 0x76.
Definition OP_CHECKSIG_byte : Z := 0xac.
Definition nSpecialScripts : Z := 6.

(** The coins a transaction spent. *)
Abbreviation CTxUndo := (list Coin).

(** ** Scripts *)

(** The 20 bytes of the hash. *)
Definition IsToKeyID (script : bytes) : option bytes :=
  if (size script =? 25) && (byte_at script 0 =? OP_DUP_byte) && (byte_at script 1 =? OP_HASH160) && (byte_at script 2 =? 20)
     && (byte_at script 23 =? OP_EQUALVERIFY) && (byte_at script 24 =? OP_CHECKSIG_byte)
  then Some (take 20 (drop 3 script)) else None.

Definition IsToScriptID (script : bytes) : option bytes :=
  if (size script =? 23) && (byte_at script 0 =? OP_HASH160) && (byte_at script 1 =? 20) && (byte_at script 22 =? OP_EQUAL)
  then Some (take 20 (drop 2 script)) else None.

Definition GetSpecialScriptSize (nSize : Z) : Z :=
  if (nSize =? 0) || (nSize =? 1) then 20
  else if (nSize =? 2) || (nSize =? 3) || (nSize =? 4) || (nSize =? 5) then 32
  else 0.

Section undo.
(** [CPubKey::IsFullyValid] and [CPubKey::Decompress]. *)
Variable IsFullyValid : bytes -> bool.
Variable Decompress : bytes -> option bytes.
(** Double SHA-256, and the elements per allocation batch of a vector. *)
Variable Hash : bytes -> uint256.
Variable batch : Z.

Definition IsToPubKey (script : bytes) : option bytes :=
  if (size script =? 35) && (byte_at script 0 =? 33) && (byte_at script 34 =? OP_CHECKSIG_byte)
     && ((byte_at script 1 =? 2) || (byte_at script 1 =? 3))
  then Some (take 33 (drop 1 script))
  else if (size script =? 67) && (byte_at script 0 =? 65) && (byte_at script 66 =? OP_CHECKSIG_byte) && (byte_at script 1 =? 4) then
    let pubkey := take 65 (drop 1 script) in
    if IsFullyValid pubkey then Some pubkey else None
  else None.

Definition CompressScript (script : bytes) : option bytes :=
  match IsToKeyID script with
  | Some keyID => Some (0 :: keyID)
  | None =>
      match IsToScriptID script with
      | Some scriptID => Some (1 :: scriptID)
      | None =>
          pubkey ← IsToPubKey script;
          if (byte_at pubkey 0 =? 2) || (byte_at pubkey 0 =? 3) then Some (byte_at pubkey 0 :: take 32 (drop 1 pubkey))
          else if byte_at pubkey 0 =? 4 then Some (Z.lor 4 (Z.land (byte_at pubkey 64) 1) :: take 32 (drop 1 pubkey))
          else None
      end
  end.

(** [None] where it returns [false] and leaves the script as it was. *)
Definition DecompressScript (nSize : Z) (in_ : bytes) : result string (option bytes) :=
  if nSize =? 0 then Ok (Some (OP_DUP_byte :: OP_HASH160 :: 20 :: take 20 in_ ++ [OP_EQUALVERIFY; OP_CHECKSIG_byte]))
  else if nSize =? 1 then Ok (Some (OP_HASH160 :: 20 :: take 20 in_ ++ [OP_EQUAL]))
  else if (nSize =? 2) || (nSize =? 3) then Ok (Some (33 :: nSize :: take 32 in_ ++ [OP_CHECKSIG_byte]))
  else if (nSize =? 4) || (nSize =? 5) then
    match Decompress (nSize - 2 :: take 32 in_) with
    | None => Ok None
    | Some pubkey =>
        guard! size pubkey =? 65 else "assert";
        Ok (Some (65 :: pubkey ++ [OP_CHECKSIG_byte]))
    end
  else Ok None.

Definition ScriptCompression_Ser (script : bytes) : bytes :=
  match CompressScript script with
  | Some compr => compr
  | None => put_varint 32 (wrapu 32 (size script + nSpecialScripts)) ++ script
  end.

(** The script read into is empty. *)
Definition ScriptCompression_Unser : reader bytes :=
  nSize ← ReadVarInt 32;
  if nSize <? nSpecialScripts then
    vch ← read (GetSpecialScriptSize nSize);
    match DecompressScript nSize vch with
    | Ok script => mret (default [] script)
    | Throw e => fail e
    end
  else
    let nSize := nSize - nSpecialScripts in
    if MAX_SCRIPT_SIZE <? nSize then _ ← ignore nSize; mret [OP_RETURN]
    else read nSize.

(** ** Outputs and coins *)

Definition TxOutCompression_Ser (o : CTxOut) : bytes :=
  AmountCompression_Ser (nValue o) ++ ScriptCompression_Ser (scriptPubKey o) ++ AssetCoinInfoCompression_Ser (assetInfo o).
Definition TxOutCompression_Unser : reader CTxOut :=
  v ← AmountCompression_Unser; script ← ScriptCompression_Unser; a ← AssetCoinInfoCompression_Unser;
  mret {| nValue := v; scriptPubKey := script; assetInfo := a; vchNEVMData := [] |}.

Definition coin_code (c : Coin) : Z := wrapu 32 (coin_nHeight c * 2 + Z.b2z (fCoinBase c)).
Definition coin_of_code (code : Z) (o : CTxOut) : Coin :=
  {| coin_out := o; fCoinBase := negb (Z.land code 1 =? 0); coin_nHeight := Z.shiftr code 1 |}.

Definition TxInUndoFormatter_Ser (c : Coin) : bytes := put_varint 32 (coin_code c) ++ TxOutCompression_Ser (coin_out c).
Definition TxInUndoFormatter_Unser : reader Coin :=
  nCode ← ReadVarInt 32; o ← TxOutCompression_Unser; mret (coin_of_code nCode o).

(** [None] where the assertion that the coin is not spent fails. *)
Definition Coin_Serialize (c : Coin) : option bytes :=
  if IsSpent c then None else Some (put_varint 32 (coin_code c) ++ TxOutCompression_Ser (coin_out c)).
Definition Coin_Unserialize : reader Coin :=
  code ← ReadVarInt 32; o ← TxOutCompression_Unser; mret (coin_of_code code o).

Definition CTxUndo_Serialize (u : CTxUndo) : bytes := VectorFormatter_Ser TxInUndoFormatter_Ser u.
Definition CTxUndo_Unserialize : reader CTxUndo := VectorFormatter_Unser batch TxInUndoFormatter_Unser.
Definition CBlockUndo_Serialize (u : list CTxUndo) : bytes := VectorFormatter_Ser CTxUndo_Serialize u.
Definition CBlockUndo_Unserialize : reader (list CTxUndo) := VectorFormatter_Unser batch CTxUndo_Unserialize.

(** ** Undo files *)

(** Appends the record of a block to an undo file; the file and the position of the data, an
    unsigned int. *)
Definition UndoWriteToDisk (MessageStart : bytes) (blockundo : list CTxUndo) (hashBlock : uint256) (file : bytes) : bytes * Z :=
  let data := CBlockUndo_Serialize blockundo in
  let file := (file ++ MessageStart ++ ser_writedata32 (size data)) in
  ((file ++ data ++ Serialize_uint256 (Hash (Serialize_uint256 hashBlock ++ data))), wrapu 32 (size file)).

(** [pos] is null where the index entry has no undo position; [hashPrev] is the hash of the
    predecessor.  The verifier hashes the bytes that the reader took. *)
Definition UndoReadFromDisk (file : bytes) (pos : option Z) (hashPrev : uint256) : result string (list CTxUndo) :=
  match pos with
  | None => Throw "no undo data available"
  | Some pos =>
      let filein := drop (Z.to_nat pos) file in
      '(blockundo, rest) ← CBlockUndo_Unserialize filein;
      '(hashChecksum, _) ← Unserialize_uint256 rest;
      let read_bytes := take (length filein - length rest) filein in
      guard! bool_decide (hashChecksum = Hash (Serialize_uint256 hashPrev ++ read_bytes)) else "Checksum mismatch";
      Ok blockundo
  end.

(** [DisconnectBlock] from the reading of the undo data on.  A key that [Decompress] makes has 65
    bytes, as [DecompressScript] asserts; an assertion that fails there is not told from an
    exception of the reader. *)
Definition DisconnectBlock_from_disk (GetHash : CTransaction -> uint256) (special_undone nevm_disconnected : bool) (vtx : list CTransaction)
    (file : bytes) (pos : option Z) (nHeight : Z) (prevHash : uint256) (v : cached) : result string (DisconnectResult * cached) :=
  match UndoReadFromDisk file pos prevHash with
  | Throw _ => Ok (DISCONNECT_FAILED, v)
  | Ok vtxundo => DisconnectBlock GetHash batch special_undone nevm_disconnected vtx vtxundo nHeight prevHash v
  end.
End undo.

(** ** What the format keeps *)

(** The parts of an output that the format has a place for. *)
Definition disk_shape (o : CTxOut) : Prop :=
  Forall is_byte (scriptPubKey o) /\ vchNEVMData o = [] /\ in_u 64 (nAsset (assetInfo o)) /\
  (nAsset (assetInfo o) = 0 -> asset_nValue (assetInfo o) = 0).

Definition storable_out (o : CTxOut) : Prop :=
  disk_shape o /\ size (scriptPubKey o) <= MAX_SCRIPT_SIZE /\ MoneyRange (nValue o) = true /\ asset_in_range o.

Definition storable (c : Coin) : Prop := storable_out (coin_out c) /\ 0 <= coin_nHeight c < 2 ^ 31.

Section theory.
Variable IsFullyValid : bytes -> bool.
Variable Decompress : bytes -> option bytes.
Variable Hash : bytes -> uint256.
Variable batch : Z.
Hypothesis Hbatch : 0 < batch.
Hypothesis Hash_length : forall b, length (Hash b) = 32%nat.

(** A valid key is what its first coordinate and the parity of the second determine. *)
Hypothesis Decompress_key : forall x y,
  length x = 32%nat -> length y = 32%nat -> IsFullyValid (4 :: x ++ y) = true ->
  Decompress (2 + Z.land (byte_at y 31) 1 :: x) = Some (4 :: x ++ y).

Abbreviation compress := (CompressScript IsFullyValid).
Abbreviation decompress := (DecompressScript Decompress).

Lemma last_byte (l : bytes) (n : nat) : length l = S n -> l = take n l ++ [byte_at l n].
Proof.
  revert n. induction l as [|b l IH]; intros [|n] Hl; cbn in Hl; [lia|lia|by destruct l|]. cbn. f_equal. apply IH. lia.
Qed.

Lemma last_bytes (l : bytes) (n : nat) : length l = S (S n) -> l = take n l ++ [byte_at l n; byte_at l (S n)].
Proof.
  revert n. induction l as [|b l IH]; intros [|n] Hl; cbn in Hl; [lia|lia|by destruct l as [|? []]|]. cbn. f_equal. apply IH. lia.
Qed.

Ltac split_tests E := repeat (let H := fresh "Ht" in apply andb_true_iff in E as [E H]); unfold size in *;
  repeat match goal with H : (_ =? _) = true |- _ => apply Z.eqb_eq in H end.

Lemma IsToKeyID_Some script h :
  IsToKeyID script = Some h -> length h = 20%nat /\ script = OP_DUP_byte :: OP_HASH160 :: 20 :: h ++ [OP_EQUALVERIFY; OP_CHECKSIG_byte].
Proof.
  unfold IsToKeyID. destruct (_ && _) eqn:E; [|done]. intros [= <-]. split_tests E.
  do 3 (destruct script as [|? script]; [done|]). cbn [byte_at nth drop length] in *. rewrite drop_0.
  split; [rewrite length_take; lia|]. subst. do 3 f_equal. rewrite (last_bytes script 20) at 1 by lia. unfold byte_at. congruence.
Qed.

Lemma IsToScriptID_Some script h :
  IsToScriptID script = Some h -> length h = 20%nat /\ script = OP_HASH160 :: 20 :: h ++ [OP_EQUAL].
Proof.
  unfold IsToScriptID. destruct (_ && _) eqn:E; [|done]. intros [= <-]. split_tests E.
  do 2 (destruct script as [|? script]; [done|]). cbn [byte_at nth drop length] in *. rewrite drop_0.
  split; [rewrite length_take; lia|]. subst. do 2 f_equal. rewrite (last_byte script 20) at 1 by lia. unfold byte_at. congruence.
Qed.

Lemma IsToPubKey_Some script k :
  IsToPubKey IsFullyValid script = Some k ->
  script = size k :: k ++ [OP_CHECKSIG_byte] /\
  ((exists b x, k = b :: x /\ (b = 2 \/ b = 3) /\ length x = 32%nat) \/
   (exists x y, k = 4 :: x ++ y /\ length x = 32%nat /\ length y = 32%nat /\ IsFullyValid k = true)).
Proof.
  unfold IsToPubKey. destruct (_ && _) eqn:E.
  - intros [= <-]. split_tests E. do 2 (destruct script as [|? script]; [done|]). cbn [byte_at nth drop length take] in *.
    assert (Hl : length script = 33%nat) by lia. split; [|left; exists z0, (take 32 script); split_and!; [done|lia|rewrite length_take; lia]].
    cbn [length]. rewrite length_take. cbn [app]. f_equal; [lia|]. f_equal. rewrite (last_byte script 32) at 1 by done. unfold byte_at. congruence.
  - clear E. destruct (_ && _) eqn:E; [|done]. destruct (IsFullyValid _) eqn:Hv; [|done]. intros [= <-]. split_tests E.
    do 2 (destruct script as [|? script]; [done|]). cbn [byte_at nth drop length take] in *.
    assert (Hl : length script = 65%nat) by lia. assert (z0 = 4) as -> by lia. split.
    + cbn [length]. rewrite length_take. cbn [app]. f_equal; [lia|]. f_equal. rewrite (last_byte script 64) at 1 by done. unfold byte_at. congruence.
    + right. exists (take 32 (take 64 script)), (drop 32 (take 64 script)). rewrite take_drop, length_take, length_drop, !length_take. split_and!; try done; lia.
Qed.

(** A script that is shortened starts with its kind, and is read back from the rest. *)
Lemma CompressScript_Some script c :
  compress script = Some c ->
  exists k h, c = k :: h /\ 0 <= k < nSpecialScripts /\ size h = GetSpecialScriptSize k /\ decompress k h = Ok (Some script).
Proof.
  unfold CompressScript. destruct (IsToKeyID script) as [h|] eqn:E1.
  { intros [= <-]. apply IsToKeyID_Some in E1 as [Hl ->]. exists 0, h. unfold size. split_and!; try done; [cbn; lia|].
    cbn. by rewrite take_ge by lia. }
  destruct (IsToScriptID script) as [h|] eqn:E2.
  { intros [= <-]. apply IsToScriptID_Some in E2 as [Hl ->]. exists 1, h. unfold size. split_and!; try done; [cbn; lia|].
    cbn. by rewrite take_ge by lia. }
  intros (k & Hk & Hc)%bind_Some. apply IsToPubKey_Some in Hk as [-> [(b & x & -> & Hb & Hl)|(x & y & -> & Hx & Hy & Hv)]]; cbn [byte_at nth drop] in Hc.
  - rewrite drop_0 in Hc. exists b, x.
    assert (size x = 32) as Hs by (unfold size; lia). assert (Hsz : forall c, size (c :: x) = 33) by (intros; unfold size; cbn [length]; lia). rewrite Hsz.
    destruct Hb as [->| ->]; injection Hc as <-; rewrite take_ge by lia; (split_and!; [done|done|done|done|]); cbn; by rewrite take_ge by lia.
  - rewrite drop_0 in Hc. injection Hc as <-. rewrite take_app_le, take_ge by lia.
    assert (Hbyte : nth 63 (x ++ y) 0 = byte_at y 31) by (unfold byte_at; rewrite app_nth2, Hx by lia; done). rewrite Hbyte.
    set (p := Z.land (byte_at y 31) 1). assert (Hp : p = 0 \/ p = 1).
    { assert (p = byte_at y 31 mod 2 ^ 1) as -> by (apply (Z.land_ones (byte_at y 31) 1); lia). pose proof (Z.mod_pos_bound (byte_at y 31) (2 ^ 1)). lia. }
    exists (Z.lor 4 p), x. pose proof (Decompress_key x y Hx Hy Hv) as Hd. fold p in Hd.
    assert (size x = 32) as Hs by (unfold size; lia).
    assert (Hsz : size (4 :: x ++ y) = 65) by (unfold size; cbn [length]; rewrite length_app; lia).
    rewrite Hsz. assert (Hdec : forall k, k = 4 \/ k = 5 -> Decompress (k - 2 :: x) = Some (4 :: x ++ y) -> decompress k x = Ok (Some (65 :: (4 :: x ++ y) ++ [OP_CHECKSIG_byte]))).
    { intros k Hk Hdk. unfold DecompressScript. rewrite (take_ge x 32), Hdk, Hsz by lia. by destruct Hk as [->| ->]. }
    clearbody p. destruct Hp as [->| ->]; (split_and!; [done|done|done|done|]); apply Hdec; auto.
Qed.

#[export] Instance script_compression_round_trip :
  RoundTrip (ScriptCompression_Ser IsFullyValid) (ScriptCompression_Unser Decompress)
    (fun s => Forall is_byte s /\ size s <= MAX_SCRIPT_SIZE).
Proof.
  intros script s [Hb Hsz]. unfold ScriptCompression_Ser, ScriptCompression_Unser. destruct (compress script) as [c|] eqn:E.
  - apply CompressScript_Some in E as (k & h & -> & Hk & Hh & Hd).
    assert (Hput : (k :: h) ++ s = put_varint 32 k ++ h ++ s).
    { unfold nSpecialScripts in Hk. assert (Hks : k = 0 \/ k = 1 \/ k = 2 \/ k = 3 \/ k = 4 \/ k = 5) by lia.
      destruct Hks as [->|[->|[->|[->|[->| ->]]]]]; done. }
    rewrite Hput. codec_put1 ltac:(unfold in_u, nSpecialScripts in *; lia). destruct (Z.ltb_spec k nSpecialScripts); [|lia].
    unfold mbind, reader_bind. rewrite read_app by (unfold size in Hh; lia). by rewrite Hd.
  - unfold size, MAX_SCRIPT_SIZE in *. rewrite wrapu_id by (unfold in_u, nSpecialScripts; lia). rewrite <- app_assoc.
    codec_put1 ltac:(unfold in_u, nSpecialScripts; lia). unfold nSpecialScripts. destruct (Z.ltb_spec (Z.of_nat (length script) + 6) 6); [lia|].
    destruct (Z.ltb_spec 10000 (Z.of_nat (length script) + 6 - 6)); [lia|]. apply read_app. lia.
Qed.

#[export] Instance asset_info_round_trip :
  RoundTrip AssetCoinInfoCompression_Ser AssetCoinInfoCompression_Unser
    (fun a => in_u 64 (nAsset a) /\ (nAsset a = 0 -> asset_nValue a = 0) /\ (nAsset a <> 0 -> MoneyRange (asset_nValue a) = true)).
Proof.
  intros [k v] s (Hk & H0 & Hv). unfold AssetCoinInfoCompression_Ser, AssetCoinInfoCompression_Unser. cbn [nAsset asset_nValue] in *.
  rewrite <- app_assoc. codec_put1 done. unfold in_u in Hk. destruct (Z.ltb_spec 0 k).
  - by codec_put ltac:(apply Hv; lia).
  - assert (k = 0) as -> by lia. by rewrite H0.
Qed.

#[export] Instance txout_compression_round_trip :
  RoundTrip (TxOutCompression_Ser IsFullyValid) (TxOutCompression_Unser Decompress) storable_out.
Proof.
  intros [v script a blob] s [(Hb & Hblob & Ha & H0) (Hsz & Hv & Hr)]. unfold TxOutCompression_Ser, TxOutCompression_Unser.
  cbn [nValue scriptPubKey assetInfo vchNEVMData] in *. subst blob.
  assert (Hasset : in_u 64 (nAsset a) /\ (nAsset a = 0 -> asset_nValue a = 0) /\ (nAsset a <> 0 -> MoneyRange (asset_nValue a) = true)).
  { split_and!; [done|done|]. intros Hn. destruct Hr as [Hz|?]; [|done]. unfold CAssetCoinInfo_IsNull in Hz. cbn in Hz. lia. }
  by codec_put ltac:(done || by split).
Qed.

Lemma coin_of_code_of c : 0 <= coin_nHeight c < 2 ^ 31 -> in_u 32 (coin_code c) /\ coin_of_code (coin_code c) (coin_out c) = c.
Proof.
  destruct c as [o b h]. unfold coin_code, coin_of_code. cbn [coin_out fCoinBase coin_nHeight]. intros Hh.
  assert (Hu : in_u 32 (h * 2 + Z.b2z b)) by (unfold in_u; destruct b; cbn; lia). rewrite wrapu_id by done. split; [done|]. f_equal.
  - replace (Z.land (h * 2 + Z.b2z b) 1) with ((h * 2 + Z.b2z b) mod 2 ^ 1) by (symmetry; apply (Z.land_ones _ 1); lia).
    replace ((h * 2 + Z.b2z b) mod 2 ^ 1) with (Z.b2z b); [by destruct b|]. change (2 ^ 1) with 2.
    rewrite Z.add_comm, Z.mod_add by lia. by destruct b.
  - rewrite Z.shiftr_div_pow2 by lia. change (2 ^ 1) with 2. rewrite Z.add_comm, Z.div_add by lia. by destruct b.
Qed.

#[export] Instance undo_coin_round_trip :
  RoundTrip (TxInUndoFormatter_Ser IsFullyValid) (TxInUndoFormatter_Unser Decompress) storable.
Proof.
  intros c s [Ho Hh]. destruct (coin_of_code_of c Hh) as [Hc Hback]. unfold TxInUndoFormatter_Ser, TxInUndoFormatter_Unser.
  codec_put done. by rewrite Hback.
Qed.

(** A coin that goes to the database comes back from it. *)
Lemma Coin_reads_back c s :
  storable c -> IsSpent c = false ->
  exists e, Coin_Serialize IsFullyValid c = Some e /\ Coin_Unserialize Decompress (e ++ s) = Ok (c, s).
Proof.
  intros Hc Hs. unfold Coin_Serialize. rewrite Hs. eexists. split; [done|]. exact (get_put (RoundTrip := undo_coin_round_trip) c s Hc).
Qed.

Definition storable_undo (u : list CTxUndo) : Prop := valid_vector (valid_vector storable) u.

#[export] Instance block_undo_round_trip :
  RoundTrip (CBlockUndo_Serialize IsFullyValid) (CBlockUndo_Unserialize Decompress batch) storable_undo.
Proof.
  unfold CBlockUndo_Serialize, CBlockUndo_Unserialize, storable_undo. apply vector_round_trip; [|done].
  unfold CTxUndo_Serialize, CTxUndo_Unserialize. by apply vector_round_trip; [apply _|].
Qed.

Lemma UndoReadFromDisk_UndoWriteToDisk start undo hashBlock file later :
  storable_undo undo -> size file + size start + 4 < 2 ^ 32 ->
  let '(file, pos) := UndoWriteToDisk IsFullyValid Hash start undo hashBlock file in
  UndoReadFromDisk Decompress Hash batch (file ++ later) (Some pos) hashBlock = Ok undo.
Proof.
  intros Hu Hsz. unfold UndoWriteToDisk. cbn zeta. unfold UndoReadFromDisk. set (data := CBlockUndo_Serialize _ undo).
  assert (Hhead : size (file ++ start ++ ser_writedata32 (size data)) < 2 ^ 32).
  { unfold size in *. rewrite !length_app. change (length (ser_writedata32 _)) with 4%nat. lia. }
  set (head := file ++ start ++ _) in *. rewrite wrapu_id by (unfold in_u, size in *; lia). unfold size. rewrite Nat2Z.id, <- !app_assoc, drop_app_length. set (sum := Serialize_uint256 (Hash _)).
  assert (Hd : CBlockUndo_Unserialize Decompress batch (data ++ sum ++ later) = Ok (undo, sum ++ later)) by by apply block_undo_round_trip.
  rewrite Hd. cbn [mbind result_bind]. unfold Unserialize_uint256. rewrite read_app by (unfold sum, Serialize_uint256; rewrite Hash_length; done).
  cbn [mbind result_bind]. rewrite length_app, Nat.add_sub, take_app_length. unfold sum, Serialize_uint256. by rewrite bool_decide_true.
Qed.
End theory.
