(* ===== verification/TxVerify.v ===== *)
(** * Checks of transactions
    (src/src/consensus/tx_check.cpp, src/src/consensus/tx_verify.cpp, the counting of
    signature operations of src/src/script/interpreter.cpp)

    What makes a transaction invalid whatever the chain looks like, whether its lock times
    have passed, and whether the coins it spends pay for its outputs.

    Shown here: what an accepted transaction satisfies and which reason a rejected one gets;
    that relative lock times hold exactly when every input has aged as its sequence number
    asks; that a transaction which passes spends coins that are there and worth the outputs
    that are counted plus the fee. *)

From stdpp Require Import strings.
From Stdlib Require Import SpecFloat.
From S2P Require Import Prelude Serialize Amounts ArithUint256 Chain Script Transaction Coins.

Open Scope string_scope.
Open Scope Z_scope.

(** ** Verdicts *)

Inductive TxValidationResult :=
| TX_RESULT_UNSET | TX_CONSENSUS | TX_RECENT_CONSENSUS_CHANGE | TX_INPUTS_NOT_STANDARD | TX_NOT_STANDARD | TX_MISSING_INPUTS
| TX_PREMATURE_SPEND | TX_WITNESS_MUTATED | TX_WITNESS_STRIPPED | TX_CONFLICT | TX_MEMPOOL_POLICY | TX_MINT_DUPLICATE | TX_NO_MEMPOOL.

(** A check fails with a verdict, or something is thrown (or an assertion fails). *)
Inductive failure :=
| Invalid (r : TxValidationResult) (reason : string)
| Raised (what : string).

Definition raises {A} (r : result string A) : result failure A :=
  match r with Ok a => Ok a | Throw e => Throw (Raised e) end.

Definition WITNESS_SCALE_FACTOR : Z := 4.
Definition MAX_BLOCK_WEIGHT : Z := 4000000.
Definition MAX_BLOCK_SIGOPS_COST : Z := 80000.
Definition COINBASE_MATURITY : Z := 100.
Definition LOCKTIME_VERIFY_SEQUENCE : Z := 1.

Definition SEQUENCE_FINAL : Z := 0xffffffff.
Definition SEQUENCE_LOCKTIME_DISABLE_FLAG : Z := 2 ^ 31.
Definition SEQUENCE_LOCKTIME_TYPE_FLAG : Z := 2 ^ 22.
Definition SEQUENCE_LOCKTIME_MASK : Z := 0xffff.
Definition SEQUENCE_LOCKTIME_GRANULARITY : Z := 9.
Definition LOCKTIME_THRESHOLD : Z := 500000000.

(** ** Sizes *)

(** [0.01F], the single precision number next to a hundredth. *)
Definition NEVM_DATA_SCALE_FACTOR : spec_float := S754_finite false 10737418 (-30).

(** [size_t * float] converted back to [size_t]. *)
Definition scaled_blob (n : Z) : Z :=
  match SFmul 24 128 (binary_normalize 24 128 n 0 false) NEVM_DATA_SCALE_FACTOR with
  | S754_finite _ m e => Z.shiftl (Zpos m) e
  | _ => 0
  end.

(** What [CSizeComputer] counts for the blobs of a transaction. *)
Definition blobs_size (tx : CTransaction) : Z :=
  foldr (fun o acc => (if IsUnspendable (scriptPubKey o) && IsSyscoinNEVMDataTx (nVersion tx)
                       then scaled_blob (size (vchNEVMData o)) else 0) + acc) 0 (vout tx).

Definition GetSerializeSize (tx : CTransaction) (nStreamVersion : Z) : Z :=
  size (SerializeTransaction SER_SIZE nStreamVersion tx) + blobs_size tx.

(** ** Checks without context *)

Fixpoint check_outputs (outs : list CTxOut) (nValueOut : Z) : result failure Z :=
  match outs with
  | [] => Ok nValueOut
  | txout :: outs =>
      guard! negb (nValue txout <? 0) else Invalid TX_CONSENSUS "bad-txns-vout-negative";
      guard! negb (MAX_MONEY <? nValue txout) else Invalid TX_CONSENSUS "bad-txns-vout-toolarge";
      let nValueOut := nValueOut + nValue txout in
      guard! MoneyRange nValueOut else Invalid TX_CONSENSUS "bad-txns-txouttotal-toolarge";
      check_outputs outs nValueOut
  end.

Fixpoint check_duplicates (ins : list CTxIn) (vInOutPoints : gset COutPoint) : result failure unit :=
  match ins with
  | [] => Ok ()
  | txin :: ins =>
      guard! negb (bool_decide (prevout txin ∈ vInOutPoints)) else Invalid TX_CONSENSUS "bad-txns-inputs-duplicate";
      check_duplicates ins ({[ prevout txin ]} ∪ vInOutPoints)
  end.

Definition CheckTransaction (tx : CTransaction) : result failure unit :=
  guard! negb (bool_decide (vin tx = [])) else Invalid TX_CONSENSUS "bad-txns-vin-empty";
  guard! negb (bool_decide (vout tx = [])) else Invalid TX_CONSENSUS "bad-txns-vout-empty";
  guard! negb (MAX_BLOCK_WEIGHT <? GetSerializeSize tx (Z.lor PROTOCOL_VERSION SERIALIZE_TRANSACTION_NO_WITNESS) * WITNESS_SCALE_FACTOR)
    else Invalid TX_CONSENSUS "bad-txns-oversize";
  _ ← check_outputs (vout tx) 0;
  _ ← check_duplicates (vin tx) ∅;
  if IsCoinBase tx then
    let n := match vin tx with i :: _ => size (scriptSig i) | [] => 0 end in
    guard! negb ((n <? 2) || (100 <? n)) else Invalid TX_CONSENSUS "bad-cb-length"; Ok ()
  else
    guard! forallb (fun txin => negb (COutPoint_IsNull (prevout txin))) (vin tx)
      else Invalid TX_CONSENSUS "bad-txns-prevout-null"; Ok ().

(** ** Lock times *)

Definition IsFinalTx (tx : CTransaction) (nBlockHeight nBlockTime : Z) : bool :=
  if nLockTime tx =? 0 then true
  else if nLockTime tx <? (if nLockTime tx <? LOCKTIME_THRESHOLD then nBlockHeight else nBlockTime) then true
  else forallb (fun txin => nSequence txin =? SEQUENCE_FINAL) (vin tx).

Section locks.
Context {U : Type}.

(** The loop over the inputs; [None] where an assertion fails, a pointer is not in the index
    or an [int] overflows. Returned first: the heights, zero where the input has no lock. *)
Fixpoint sequence_locks_loop (m : gmap ptr (CBlockIndex (U := U))) (block : ptr) (ins : list CTxIn) (prevHeights : list Z) (nMinHeight nMinTime : Z) :
    option (list Z * (Z * Z)) :=
  match ins, prevHeights with
  | txin :: ins, nCoinHeight :: prevHeights =>
      if negb (Z.land (nSequence txin) SEQUENCE_LOCKTIME_DISABLE_FLAG =? 0) then
        '(hs, r) ← sequence_locks_loop m block ins prevHeights nMinHeight nMinTime; Some (0 :: hs, r)
      else if negb (Z.land (nSequence txin) SEQUENCE_LOCKTIME_TYPE_FLAG =? 0) then
        a ← GetAncestor m block (Z.max (nCoinHeight - 1) 0);
        anc ← a;
        nCoinTime ← GetMedianTimePast m anc;
        let nMinTime := Z.max nMinTime
          (nCoinTime + Z.shiftl (Z.land (nSequence txin) SEQUENCE_LOCKTIME_MASK) SEQUENCE_LOCKTIME_GRANULARITY - 1) in
        '(hs, r) ← sequence_locks_loop m block ins prevHeights nMinHeight nMinTime; Some (nCoinHeight :: hs, r)
      else
        h ← int_add nCoinHeight (Z.land (nSequence txin) SEQUENCE_LOCKTIME_MASK);
        let nMinHeight := Z.max nMinHeight (h - 1) in
        '(hs, r) ← sequence_locks_loop m block ins prevHeights nMinHeight nMinTime; Some (nCoinHeight :: hs, r)
  | [], [] => Some ([], (nMinHeight, nMinTime))
  | _, _ => None
  end.

Definition CalculateSequenceLocks (m : gmap ptr (CBlockIndex (U := U))) (tx : CTransaction) (flags : Z) (prevHeights : list Z) (block : ptr) :
    option (list Z * (Z * Z)) :=
  if negb (length prevHeights =? length (vin tx))%nat then None else
  let fEnforceBIP68 := (2 <=? wrapu 32 (nVersion tx)) && negb (Z.land flags LOCKTIME_VERIFY_SEQUENCE =? 0) in
  if negb fEnforceBIP68 then Some (prevHeights, (-1, -1))
  else sequence_locks_loop m block (vin tx) prevHeights (-1) (-1).

Definition EvaluateSequenceLocks (m : gmap ptr (CBlockIndex (U := U))) (block : ptr) (lockPair : Z * Z) : option bool :=
  b ← m !! block;
  prev ← pprev b;
  nBlockTime ← GetMedianTimePast m prev;
  Some (negb ((nHeight b <=? lockPair.1) || (nBlockTime <=? lockPair.2))).

Definition SequenceLocks (m : gmap ptr (CBlockIndex (U := U))) (tx : CTransaction) (flags : Z) (prevHeights : list Z) (block : ptr) : option bool :=
  '(_, lockPair) ← CalculateSequenceLocks m tx flags prevHeights block;
  EvaluateSequenceLocks m block lockPair.
End locks.

(** ** Signature operations *)

Definition SCRIPT_VERIFY_P2SH : Z := 1.
Definition SCRIPT_VERIFY_WITNESS : Z := 2 ^ 11.
Definition WITNESS_V0_SCRIPTHASH_SIZE : Z := 32.
Definition WITNESS_V0_KEYHASH_SIZE : Z := 20.

Definition GetLegacySigOpCount (tx : CTransaction) : Z :=
  let n := foldl (fun n i => wrapu 32 (n + GetSigOpCount (scriptSig i) false)) 0 (vin tx) in
  foldl (fun n o => wrapu 32 (n + GetSigOpCount (scriptPubKey o) false)) n (vout tx).

Fixpoint p2sh_loop (ins : list CTxIn) (v : cached) (nSigOps : Z) : result failure (Z * cached) :=
  match ins with
  | [] => Ok (nSigOps, v)
  | i :: ins =>
      let '(c, v) := AccessCoin v (prevout i) in
      guard! negb (IsSpent c) else Raised "assert";
      let script := scriptPubKey (coin_out c) in
      p2sh_loop ins v (if IsPayToScriptHash script then wrapu 32 (nSigOps + GetSigOpCount_P2SH script (scriptSig i)) else nSigOps)
  end.

Definition GetP2SHSigOpCount (tx : CTransaction) (v : cached) : result failure (Z * cached) :=
  if IsCoinBase tx then Ok (0, v) else p2sh_loop (vin tx) v 0.

Definition WitnessSigOps (witversion : Z) (witprogram : bytes) (witness : list bytes) : Z :=
  if witversion =? 0 then
    if size witprogram =? WITNESS_V0_KEYHASH_SIZE then 1
    else if (size witprogram =? WITNESS_V0_SCRIPTHASH_SIZE) && negb (bool_decide (witness = []))
    then GetSigOpCount (default [] (last witness)) true
    else 0
  else 0.

Definition CountWitnessSigOps (scriptSig scriptPubKey : bytes) (witness : list bytes) (flags : Z) : result failure Z :=
  if Z.land flags SCRIPT_VERIFY_WITNESS =? 0 then Ok 0 else
  guard! negb (Z.land flags SCRIPT_VERIFY_P2SH =? 0) else Raised "assert";
  match IsWitnessProgram scriptPubKey with
  | Some (version, program) => Ok (WitnessSigOps version program witness)
  | None =>
      if IsPayToScriptHash scriptPubKey && IsPushOnly scriptSig then
        match IsWitnessProgram (default [] (last_push (length scriptSig) scriptSig [])) with
        | Some (version, program) => Ok (WitnessSigOps version program witness)
        | None => Ok 0
        end
      else Ok 0
  end.

Fixpoint witness_loop (ins : list CTxIn) (flags : Z) (v : cached) (nSigOps : Z) : result failure (Z * cached) :=
  match ins with
  | [] => Ok (nSigOps, v)
  | i :: ins =>
      let '(c, v) := AccessCoin v (prevout i) in
      guard! negb (IsSpent c) else Raised "assert";
      n ← CountWitnessSigOps (scriptSig i) (scriptPubKey (coin_out c)) (scriptWitness i) flags;
      witness_loop ins flags v (nSigOps + n)
  end.

Definition GetTransactionSigOpCost (tx : CTransaction) (v : cached) (flags : Z) : result failure (Z * cached) :=
  let nSigOps := wrapu 32 (GetLegacySigOpCount tx * WITNESS_SCALE_FACTOR) in
  if IsCoinBase tx then Ok (nSigOps, v) else
  '(nSigOps, v) ← (if negb (Z.land flags SCRIPT_VERIFY_P2SH =? 0)
                   then '(n, v) ← GetP2SHSigOpCount tx v; Ok (nSigOps + wrapu 32 (n * WITNESS_SCALE_FACTOR), v)
                   else Ok (nSigOps, v));
  witness_loop (vin tx) flags v nSigOps.

(** ** Checks against the coins *)

Definition tally_asset (hasAssets : bool) (info : CAssetCoinInfo) (mapAssetIn : CAssetsMap) : result failure CAssetsMap :=
  if hasAssets && negb (CAssetCoinInfo_IsNull info) then
    let total := default 0 (mapAssetIn !! nAsset info) in
    guard! negb (negb (MoneyRange (asset_nValue info)) || negb (MoneyRange (total + asset_nValue info)))
      else Invalid TX_CONSENSUS "bad-txns-asset-inputvalues-outofrange";
    Ok (<[nAsset info := total + asset_nValue info]> mapAssetIn)
  else Ok mapAssetIn.

(** What the loop over the inputs carries: the value, the assets and the view. *)
Fixpoint check_inputs (ins : list CTxIn) (hasAssets : bool) (nSpendHeight : Z) (nValueIn : Z) (mapAssetIn : CAssetsMap) (v : cached) :
    result failure (Z * CAssetsMap * cached) :=
  match ins with
  | [] => Ok (nValueIn, mapAssetIn, v)
  | i :: ins =>
      let '(c, v) := AccessCoin v (prevout i) in
      guard! negb (IsSpent c) else Raised "assert";
      guard! negb (fCoinBase c && (nSpendHeight - coin_nHeight c <? COINBASE_MATURITY))
        else Invalid TX_PREMATURE_SPEND "bad-txns-premature-spend-of-coinbase";
      mapAssetIn ← tally_asset hasAssets (assetInfo (coin_out c)) mapAssetIn;
      let value := nValue (coin_out c) in
      guard! negb (negb (MoneyRange value) || negb (MoneyRange (nValueIn + value)))
        else Invalid TX_CONSENSUS "bad-txns-inputvalues-outofrange";
      check_inputs ins hasAssets nSpendHeight (nValueIn + value) mapAssetIn v
  end.

(** The fee and the two maps of assets, which the callers pass empty. *)
Definition CheckTxInputs (tx : CTransaction) (inputs : cached) (nSpendHeight : Z) (mapAssetIn mapAssetOut : CAssetsMap) :
    result failure (Z * CAssetsMap * CAssetsMap * cached) :=
  let '(have, inputs) := HaveInputs inputs tx in
  guard! have else Invalid TX_MISSING_INPUTS "bad-txns-inputs-missingorspent";
  '(nValueIn, mapAssetIn, inputs) ← check_inputs (vin tx) (HasAssets tx) nSpendHeight 0 mapAssetIn inputs;
  value_out ← raises (GetValueOut tx);
  guard! negb (nValueIn <? value_out) else Invalid TX_CONSENSUS "bad-txns-in-belowout";
  mapAssetOut ←
    (if HasAssets tx then
       let '(m, ok) := GetAssetValueOut tx mapAssetOut in
       guard! ok else Invalid TX_CONSENSUS "bad-txns-asset-out-outofrange"; Ok m
     else Ok mapAssetOut);
  let txfee_aux := nValueIn - value_out in
  guard! MoneyRange txfee_aux else Invalid TX_CONSENSUS "bad-txns-fee-outofrange";
  Ok (txfee_aux, mapAssetIn, mapAssetOut, inputs).

(** ** Facts about the checks *)

Lemma check_outputs_spec outs acc :
  MoneyRange acc = true ->
  match check_outputs outs acc with
  | Ok n => n = acc + sum_values outs /\ MoneyRange n = true /\ Forall (fun o => MoneyRange (nValue o) = true) outs
  | Throw e => (exists reason, e = Invalid TX_CONSENSUS reason) /\
      ~ (Forall (fun o => MoneyRange (nValue o) = true) outs /\ acc + sum_values outs <= MAX_MONEY)
  end.
Proof.
  revert acc. induction outs as [|o outs IH]; intros acc Ha; cbn [check_outputs].
  { change (sum_values []) with 0. split_and!; [lia|done|done]. }
  change (sum_values (o :: outs)) with (nValue o + sum_values outs).
  destruct (Z.ltb_spec (nValue o) 0) as [Hn|Hn]; cbn [negb].
  { split; [eauto|]. intros [[Ho%MoneyRange_spec _]%Forall_cons _]. lia. }
  destruct (Z.ltb_spec MAX_MONEY (nValue o)) as [Hm|Hm]; cbn [negb].
  { split; [eauto|]. intros [[Ho%MoneyRange_spec _]%Forall_cons _]. lia. }
  assert (Ho : MoneyRange (nValue o) = true) by (apply MoneyRange_spec; lia).
  destruct (MoneyRange (acc + nValue o)) eqn:Hs.
  - specialize (IH _ Hs). destruct (check_outputs outs (acc + nValue o)) as [n|e].
    + destruct IH as (-> & ? & ?). split_and!; [lia|done|by constructor].
    + destruct IH as [? Hno]. split; [done|]. intros [[_ HF]%Forall_cons ?]. apply Hno. split; [done|lia].
  - split; [eauto|]. intros [[_ HF%sum_values_nonneg]%Forall_cons ?]. apply MoneyRange_spec in Ha.
    apply not_true_iff_false in Hs. rewrite MoneyRange_spec in Hs. lia.
Qed.

Lemma check_duplicates_spec ins seen :
  match check_duplicates ins seen with
  | Ok _ => NoDup (prevout <$> ins) /\ Forall (fun i => prevout i ∉ seen) ins
  | Throw e => (exists reason, e = Invalid TX_CONSENSUS reason) /\
      ~ (NoDup (prevout <$> ins) /\ Forall (fun i => prevout i ∉ seen) ins)
  end.
Proof.
  revert seen. induction ins as [|i ins IH]; intros seen; cbn [check_duplicates]; [by split; constructor|].
  case_bool_decide as Hi; cbn [negb]; [split; [eauto|]; rewrite Forall_cons; tauto|].
  specialize (IH ({[ prevout i ]} ∪ seen)).
  assert (Heq : Forall (fun j => prevout j ∉ ({[ prevout i ]} ∪ seen : gset COutPoint)) ins <->
                (prevout i ∉ prevout <$> ins) /\ Forall (fun j => prevout j ∉ seen) ins).
  { rewrite !Forall_forall, list_elem_of_fmap. set_solver. }
  destruct (check_duplicates ins _); rewrite Heq in IH; rewrite fmap_cons, NoDup_cons, Forall_cons; tauto.
Qed.

(** What [CheckTransaction] accepts. *)
Definition well_formed_tx (tx : CTransaction) : Prop :=
  vin tx <> [] /\ vout tx <> [] /\
  GetSerializeSize tx (Z.lor PROTOCOL_VERSION SERIALIZE_TRANSACTION_NO_WITNESS) * WITNESS_SCALE_FACTOR <= MAX_BLOCK_WEIGHT /\
  Forall (fun o => MoneyRange (nValue o) = true) (vout tx) /\ sum_values (vout tx) <= MAX_MONEY /\
  NoDup (prevout <$> vin tx) /\
  if IsCoinBase tx then Forall (fun i => 2 <= size (scriptSig i) <= 100) (vin tx)
  else Forall (fun i => COutPoint_IsNull (prevout i) = false) (vin tx).

Lemma CheckTransaction_spec tx :
  match CheckTransaction tx with
  | Ok _ => well_formed_tx tx
  | Throw e => ~ well_formed_tx tx /\ exists reason, e = Invalid TX_CONSENSUS reason
  end.
Proof.
  unfold CheckTransaction, well_formed_tx.
  case_bool_decide as Hi; cbn [negb]; [split; [tauto|eauto]|]. case_bool_decide as Ho; cbn [negb]; [split; [tauto|eauto]|].
  destruct (Z.ltb_spec MAX_BLOCK_WEIGHT (GetSerializeSize tx (Z.lor PROTOCOL_VERSION SERIALIZE_TRANSACTION_NO_WITNESS) * WITNESS_SCALE_FACTOR)) as [Hs|Hs];
    cbn [negb]; [split; [intros (_ & _ & ? & _); lia|eauto]|].
  pose proof (check_outputs_spec (vout tx) 0 eq_refl) as Hout. destruct (check_outputs (vout tx) 0) as [n|e].
  2: { destruct Hout as [? Hno]. rewrite Z.add_0_l in Hno. cbn. split; [tauto|done]. }
  destruct Hout as (-> & Hn%MoneyRange_spec & HF). cbn [mbind result_bind].
  pose proof (check_duplicates_spec (vin tx) ∅) as Hd.
  assert (Forall (fun i => prevout i ∉ (∅ : gset COutPoint)) (vin tx)) by (apply Forall_forall; set_solver).
  destruct (check_duplicates (vin tx) ∅) as [[]|e]; [|cbn; tauto]. destruct Hd as [Hd _]. cbn [mbind result_bind].
  destruct (IsCoinBase tx) eqn:Hc.
  - unfold IsCoinBase in Hc. destruct (vin tx) as [|i [|]]; try done.
    destruct (_ || _) eqn:E; cbn [negb]; [split; [|eauto]|].
    + intros (_ & _ & _ & _ & _ & _ & [? _]%Forall_cons). lia.
    + split_and!; try done; try lia. constructor; [|constructor]. lia.
  - destruct (forallb _ (vin tx)) eqn:E.
    + split_and!; try done; try lia. apply Forall_forall. intros i Hin. rewrite forallb_forall in E.
      apply negb_true_iff, E. by apply list_elem_of_In.
    + split; [|eauto]. intros (_ & _ & _ & _ & _ & _ & HN). apply not_true_iff_false in E. apply E, forallb_forall.
      intros i Hin. apply negb_true_iff. rewrite Forall_forall in HN. by apply HN, list_elem_of_In.
Qed.

(** *** Relative lock times *)

Section lock_facts.
Context {U : Type}.
Implicit Types m : gmap ptr (CBlockIndex (U := U)).

(** What one input asks of the block: the lock of BIP 68 in units of blocks or of 512 s. *)
Definition lock_met m (block : ptr) (height mtp : Z) (txin : CTxIn) (nCoinHeight : Z) : Prop :=
  let value := Z.land (nSequence txin) SEQUENCE_LOCKTIME_MASK in
  if negb (Z.land (nSequence txin) SEQUENCE_LOCKTIME_DISABLE_FLAG =? 0) then True
  else if negb (Z.land (nSequence txin) SEQUENCE_LOCKTIME_TYPE_FLAG =? 0) then
    exists anc t, ancestor m block (Z.max (nCoinHeight - 1) 0) = Some anc /\ GetMedianTimePast m anc = Some t /\ t + value * 512 <= mtp
  else nCoinHeight + value <= height.

Lemma mask_bound x : 0 <= Z.land x SEQUENCE_LOCKTIME_MASK < 65536.
Proof. unfold SEQUENCE_LOCKTIME_MASK. change 0xffff with (Z.ones 16). rewrite Z.land_ones by lia. apply Z.mod_pos_bound. lia. Qed.

Lemma sequence_locks_loop_spec m block b height mtp ins hs nMinHeight nMinTime :
  chain_wf m -> m !! block = Some b -> length hs = length ins ->
  Forall (fun h => 0 <= h <= nHeight b) hs -> nHeight b < 2 ^ 31 - 65536 ->
  exists hs' lh lt, sequence_locks_loop m block ins hs nMinHeight nMinTime = Some (hs', (lh, lt)) /\
    (lh < height /\ lt < mtp <->
     nMinHeight < height /\ nMinTime < mtp /\ Forall2 (lock_met m block height mtp) ins hs).
Proof.
  intros Hwf Hb. revert hs nMinHeight nMinTime. induction ins as [|i ins IH]; intros [|h hs] nh nt Hl Hh Hmax; try done.
  { eexists _, _, _. split; [reflexivity|]. rewrite Forall2_nil. tauto. }
  injection Hl as Hl. apply Forall_cons in Hh as [Hh Hhs]. cbn [sequence_locks_loop].
  pose proof (mask_bound (nSequence i)) as Hmask.
  destruct (negb (Z.land (nSequence i) SEQUENCE_LOCKTIME_DISABLE_FLAG =? 0)) eqn:Ed.
  { destruct (IH hs nh nt Hl Hhs Hmax) as (hs' & lh & lt & -> & Hiff). eexists _, _, _. split; [reflexivity|].
    rewrite Forall2_cons. unfold lock_met at 1. rewrite ?Ed, ?Et. tauto. }
  destruct (negb (Z.land (nSequence i) SEQUENCE_LOCKTIME_TYPE_FLAG =? 0)) eqn:Et.
  - rewrite (GetAncestor_spec m block b _ Hwf Hb). cbo.
    destruct (ancestor_total m block b (Z.max (h - 1) 0) Hwf Hb) as (anc & ba & Ha & Hba & _); [lia|].
    rewrite Ha. cbo. destruct (median_spec m anc ba Hwf Hba) as (_ & t & _ & Ht & _). rewrite Ht. cbo.
    set (nt' := Z.max nt _). destruct (IH hs nh nt' Hl Hhs Hmax) as (hs' & lh & lt & -> & Hiff). eexists _, _, _. split; [reflexivity|].
    rewrite Forall2_cons. unfold lock_met at 1. rewrite ?Ed, ?Et.
    rewrite Hiff. subst nt'. rewrite Z.shiftl_mul_pow2 by done. change (2 ^ SEQUENCE_LOCKTIME_GRANULARITY) with 512. split.
    + intros (? & ? & ?). split_and!; [done|lia|eexists _, _; split_and!; [done|done|lia]|done].
    + intros (? & ? & (anc' & t' & Ha' & Ht' & ?) & ?). assert (anc' = anc) as -> by congruence. assert (t' = t) as -> by congruence. split_and!; [done|lia|done].
  - unfold int_add. destruct (_ && _) eqn:E; [|lia]. cbo.
    set (nh' := Z.max nh _). destruct (IH hs nh' nt Hl Hhs Hmax) as (hs' & lh & lt & -> & Hiff). eexists _, _, _. split; [reflexivity|].
    rewrite Forall2_cons. unfold lock_met at 1. rewrite ?Ed, ?Et.
    rewrite Hiff. subst nh'. split; intros; destruct_and?; split_and!; try done; lia.
Qed.

(** Whether BIP 68 applies to a transaction. *)
Definition locks_enforced (tx : CTransaction) (flags : Z) : bool :=
  (2 <=? wrapu 32 (nVersion tx)) && negb (Z.land flags LOCKTIME_VERIFY_SEQUENCE =? 0).

Lemma SequenceLocks_spec m tx flags hs block b prev :
  chain_wf m -> m !! block = Some b -> pprev b = Some prev -> length hs = length (vin tx) ->
  Forall (fun h => 0 <= h <= nHeight b) hs -> nHeight b < 2 ^ 31 - 65536 ->
  exists mtp met, GetMedianTimePast m prev = Some mtp /\ SequenceLocks m tx flags hs block = Some met /\
    (0 <= mtp -> met = true <-> (locks_enforced tx flags = true -> Forall2 (lock_met m block (nHeight b) mtp) (vin tx) hs)).
Proof.
  intros Hwf Hb Hp Hl Hh Hmax. pose proof (Hwf block b Hb) as Hok. unfold index_ok in Hok. rewrite Hp in Hok.
  destruct Hok as (Hn & bq & Hq & _). destruct (median_spec m prev bq Hwf Hq) as (_ & mtp & _ & Hmtp & _).
  unfold SequenceLocks, CalculateSequenceLocks, EvaluateSequenceLocks. rewrite Hl, Nat.eqb_refl, Hb. cbn [negb].
  fold (locks_enforced tx flags). destruct (locks_enforced tx flags); cbn [negb].
  - destruct (sequence_locks_loop_spec m block b (nHeight b) mtp (vin tx) hs (-1) (-1) Hwf Hb Hl Hh Hmax) as (hs' & lh & lt & -> & Hiff).
    cbo. rewrite Hp. cbo. rewrite Hmtp. cbo. eexists _, _. split_and!; [done|done|]. intros Hpos. rewrite negb_true_iff, orb_false_iff, !Z.leb_gt, Hiff.
    split; [tauto|]. intros HF. split_and!; [lia|lia|auto].
  - cbo. rewrite Hp. cbo. rewrite Hmtp. cbo. eexists _, _. split_and!; [done|done|]. intros Hpos. rewrite negb_true_iff, orb_false_iff, !Z.leb_gt. cbn.
    split; [done|]. intros _. lia.
Qed.
End lock_facts.

(** *** Inputs *)

(** The coins that the inputs name, in their order. *)
Definition input_coins (ins : list CTxIn) (m : gmap COutPoint Coin) : option (list Coin) := mapM (fun i => m !! prevout i) ins.

Lemma HaveInputs_shows v m below tx :
  shows v m below -> IsCoinBase tx = false ->
  exists v', HaveInputs v tx = (bool_decide (is_Some (input_coins (vin tx) m)), v') /\ shows v' m below.
Proof.
  intros Hv Hc. unfold HaveInputs. rewrite Hc. cbn [negb]. revert v Hv. unfold input_coins.
  induction (vin tx) as [|i ins IH]; intros v Hv; [by exists v|]. cbn [HaveInputs_loop mapM].
  destruct (shows_have v m below (prevout i) Hv) as (v1 & -> & Hv1). destruct (m !! prevout i) as [c|]; [|by exists v1].
  rewrite bool_decide_eq_true_2 by done. destruct (IH v1 Hv1) as (v2 & -> & Hv2). exists v2. split; [|done]. f_equal.
  cbo. by destruct (mapM _ ins).
Qed.

(** The loop of [CheckTxInputs] once the coins are at hand. *)
Fixpoint check_coins (cs : list Coin) (hasAssets : bool) (nSpendHeight nValueIn : Z) (mapAssetIn : CAssetsMap) :
    result failure (Z * CAssetsMap) :=
  match cs with
  | [] => Ok (nValueIn, mapAssetIn)
  | c :: cs =>
      guard! negb (fCoinBase c && (nSpendHeight - coin_nHeight c <? COINBASE_MATURITY))
        else Invalid TX_PREMATURE_SPEND "bad-txns-premature-spend-of-coinbase";
      mapAssetIn ← tally_asset hasAssets (assetInfo (coin_out c)) mapAssetIn;
      let value := nValue (coin_out c) in
      guard! negb (negb (MoneyRange value) || negb (MoneyRange (nValueIn + value)))
        else Invalid TX_CONSENSUS "bad-txns-inputvalues-outofrange";
      check_coins cs hasAssets nSpendHeight (nValueIn + value) mapAssetIn
  end.

Lemma unspent_is_Some c c' : unspent c = Some c' -> c = c' /\ IsSpent c = false.
Proof. intros [-> ?]%unspent_Some. done. Qed.

Lemma check_inputs_shows ins v m below cs ha h n mi :
  shows v m below -> input_coins ins m = Some cs ->
  exists v', shows v' m below /\
    check_inputs ins ha h n mi v = '(n, mi) ← check_coins cs ha h n mi; Ok (n, mi, v').
Proof.
  revert v cs n mi. unfold input_coins. induction ins as [|i ins IH]; intros v cs n mi Hv; cbn [mapM].
  { intros [= <-]. by exists v. }
  intros (c & Hc & (cs' & Hcs & [= <-])%bind_Some)%bind_Some. cbn [check_inputs check_coins].
  destruct (shows_access v m below (prevout i) Hv) as (c' & v1 & -> & Hu & Hv1). rewrite Hc in Hu.
  apply unspent_is_Some in Hu as [-> ->]. cbn [negb].
  destruct (negb (_ && _)); [|by exists v1]. destruct (tally_asset _ _ _); [|by exists v1]. cbn [mbind result_bind].
  destruct (negb (negb _ || _)); [|by exists v1]. by apply IH.
Qed.

(** A coin that may be spent at a height. *)
Definition mature (nSpendHeight : Z) (c : Coin) : Prop :=
  fCoinBase c = true -> COINBASE_MATURITY <= nSpendHeight - coin_nHeight c.

Lemma check_coins_Ok cs ha h n mi n' mi' :
  check_coins cs ha h n mi = Ok (n', mi') -> MoneyRange n = true ->
  Forall (mature h) cs /\ Forall (fun c => MoneyRange (nValue (coin_out c)) = true) cs /\
  n' = n + sum_values (coin_out <$> cs) /\ MoneyRange n' = true /\
  if ha then GetAssetValueOut_loop (coin_out <$> cs) mi = (mi', true) else mi' = mi.
Proof.
  revert n mi. induction cs as [|c cs IH]; intros n mi; cbn [check_coins].
  { intros [= <- <-] Hn. cbn. split_and!; [done|done|lia|done|by destruct ha]. }
  destruct (negb _) eqn:Hm; [|done]. intros He Hn.
  assert (mature h c) by (intros Hcb; rewrite Hcb in Hm; cbn in Hm; apply negb_true_iff in Hm; lia).
  apply bind_ok in He as (mi1 & Hmi & He). destruct (negb (negb _ || _)) eqn:Hr; [|done].
  apply negb_true_iff, orb_false_iff in Hr as [Hv%negb_false_iff Hs%negb_false_iff].
  apply IH in He as (H1 & H2 & -> & H3 & H4); [|done]. split_and!; [by constructor|by constructor| |done|].
  - rewrite fmap_cons. change (sum_values (coin_out c :: (coin_out <$> cs))) with (nValue (coin_out c) + sum_values (coin_out <$> cs)). lia.
  - rewrite fmap_cons. unfold tally_asset in Hmi. destruct ha; cbn [andb] in Hmi; [|congruence]. cbn [GetAssetValueOut_loop].
    destruct (CAssetCoinInfo_IsNull _); cbn [negb] in Hmi; [injection Hmi as <-; done|].
    destruct (negb _ || _); cbn [negb] in Hmi; [done|]. injection Hmi as <-. done.
Qed.

Lemma check_coins_no_raise cs ha h n mi w : check_coins cs ha h n mi <> Throw (Raised w).
Proof.
  revert n mi. induction cs as [|c cs IH]; intros n mi; cbn [check_coins]; [done|].
  destruct (negb (_ && _)); [|done]. unfold tally_asset.
  destruct (ha && _); [destruct (negb (negb (MoneyRange (asset_nValue _)) || _)); [|done]|]; cbn [mbind result_bind];
    destruct (negb (negb _ || _)); done || apply IH.
Qed.

Lemma counted_le tx : Forall (fun o => MoneyRange (nValue o) = true) (vout tx) -> sum_values (counted tx) <= sum_values (vout tx).
Proof.
  intros HF. unfold counted. destruct (is_burn_to_syscoin _); [|lia]. destruct (vout tx) as [|o outs]; [done|].
  apply Forall_cons in HF as [Ho%MoneyRange_spec _]. cbn [drop]. rewrite drop_0.
  change (sum_values (o :: outs)) with (nValue o + sum_values outs). lia.
Qed.

Lemma GetValueOut_wf tx : well_formed_tx tx -> GetValueOut tx = Ok (sum_values (counted tx)).
Proof.
  intros (_ & _ & _ & HF & Hs & _). rewrite GetValueOut_eq, decide_True; [done|]. pose proof (counted_le tx HF). split; [done|lia].
Qed.

(** An accepted transaction and the coins [cs] it spends. *)
Definition pays (tx : CTransaction) (nSpendHeight : Z) (cs : list Coin) (fee : Z) (mapAssetIn mapAssetOut : CAssetsMap) : Prop :=
  Forall (mature nSpendHeight) cs /\ Forall (fun c => MoneyRange (nValue (coin_out c)) = true) cs /\
  sum_values (coin_out <$> cs) = sum_values (counted tx) + fee /\ MoneyRange fee = true /\
  if HasAssets tx
  then GetAssetValueOut_loop (coin_out <$> cs) ∅ = (mapAssetIn, true) /\ GetAssetValueOut_loop (vout tx) ∅ = (mapAssetOut, true)
  else mapAssetIn = ∅ /\ mapAssetOut = ∅.

(** The outcome of [CheckTxInputs] for a transaction that [CheckTransaction] accepts: the
    coins are there and pay for it, or a verdict; nothing is thrown. *)
Lemma CheckTxInputs_shows tx v m below h :
  shows v m below -> well_formed_tx tx -> IsCoinBase tx = false ->
  match CheckTxInputs tx v h ∅ ∅ with
  | Ok (fee, mi, mo, v') => shows v' m below /\ exists cs, input_coins (vin tx) m = Some cs /\ pays tx h cs fee mi mo
  | Throw e => exists r reason, e = Invalid r reason
  end.
Proof.
  intros Hv Hwf Hc. unfold CheckTxInputs. destruct (HaveInputs_shows v m below tx Hv Hc) as (v1 & -> & Hv1).
  destruct (input_coins (vin tx) m) as [cs|] eqn:Hcs; [|cbn; eauto]. rewrite bool_decide_eq_true_2 by done.
  destruct (check_inputs_shows (vin tx) v1 m below cs (HasAssets tx) h 0 ∅ Hv1 Hcs) as (v2 & Hv2 & ->).
  destruct (check_coins cs (HasAssets tx) h 0 ∅) as [[n mi]|[r reason|w]] eqn:Hcc; cbn [mbind result_bind];
    [|eauto|by apply check_coins_no_raise in Hcc].
  apply check_coins_Ok in Hcc as (Hmat & Hran & -> & Hn & Hmi); [|done]. rewrite Z.add_0_l in *.
  rewrite (GetValueOut_wf tx Hwf). cbn [raises mbind result_bind].
  destruct (negb (_ <? _)) eqn:Hlt; [|eauto]. destruct (HasAssets tx) eqn:Ha.
  - unfold GetAssetValueOut. destruct (GetAssetValueOut_loop (vout tx) ∅) as [mo []] eqn:Hmo; cbn [mbind result_bind]; [|eauto].
    destruct (MoneyRange (sum_values (coin_out <$> cs) - _)) eqn:Hfee; [|eauto]. cbv beta iota. split; [done|]. exists cs. split; [done|]. unfold pays. rewrite Ha.
    split_and!; try done. lia.
  - cbn [mbind result_bind]. destruct (MoneyRange (sum_values (coin_out <$> cs) - _)) eqn:Hfee; [|eauto]. cbv beta iota. split; [done|]. exists cs. split; [done|].
    unfold pays. rewrite Ha. split_and!; try done. lia.
Qed.

(** *** Signature operations *)

(** The flags that the witness count asserts. *)
Definition sigop_flags_ok (flags : Z) : Prop :=
  Z.land flags SCRIPT_VERIFY_WITNESS <> 0 -> Z.land flags SCRIPT_VERIFY_P2SH <> 0.

Lemma p2sh_loop_shows ins v m below cs n :
  shows v m below -> input_coins ins m = Some cs -> exists n' v', p2sh_loop ins v n = Ok (n', v') /\ shows v' m below.
Proof.
  revert v cs n. unfold input_coins. induction ins as [|i ins IH]; intros v cs n Hv; cbn [mapM]; [by exists n, v|].
  intros (c & Hc & (cs' & Hcs & [= <-])%bind_Some)%bind_Some. cbn [p2sh_loop].
  destruct (shows_access v m below (prevout i) Hv) as (c' & v1 & -> & Hu & Hv1). rewrite Hc in Hu.
  apply unspent_is_Some in Hu as [-> ->]. cbn [negb]. by apply IH with cs'.
Qed.

Lemma CountWitnessSigOps_Ok s k w flags : sigop_flags_ok flags -> exists n, CountWitnessSigOps s k w flags = Ok n.
Proof.
  intros Hf. unfold CountWitnessSigOps. destruct (Z.eqb_spec (Z.land flags SCRIPT_VERIFY_WITNESS) 0) as [|Hw]; [eauto|].
  rewrite (proj2 (Z.eqb_neq _ _) (Hf Hw)). cbn [negb].
  destruct (IsWitnessProgram k) as [[]|]; [eauto|]. destruct (_ && _); [|eauto]. destruct (IsWitnessProgram _) as [[]|]; eauto.
Qed.

Lemma witness_loop_shows ins flags v m below cs n :
  sigop_flags_ok flags -> shows v m below -> input_coins ins m = Some cs ->
  exists n' v', witness_loop ins flags v n = Ok (n', v') /\ shows v' m below.
Proof.
  intros Hf. revert v cs n. unfold input_coins. induction ins as [|i ins IH]; intros v cs n Hv; cbn [mapM]; [by exists n, v|].
  intros (c & Hc & (cs' & Hcs & [= <-])%bind_Some)%bind_Some. cbn [witness_loop].
  destruct (shows_access v m below (prevout i) Hv) as (c' & v1 & -> & Hu & Hv1). rewrite Hc in Hu.
  apply unspent_is_Some in Hu as [-> ->]. cbn [negb].
  edestruct CountWitnessSigOps_Ok as [k ->]; [done|]. cbn [mbind result_bind]. by apply IH with cs'.
Qed.

Lemma GetTransactionSigOpCost_shows tx flags v m below cs :
  sigop_flags_ok flags -> shows v m below -> (IsCoinBase tx = false -> input_coins (vin tx) m = Some cs) ->
  exists n v', GetTransactionSigOpCost tx v flags = Ok (n, v') /\ shows v' m below.
Proof.
  intros Hf Hv Hcs. unfold GetTransactionSigOpCost, GetP2SHSigOpCount. destruct (IsCoinBase tx); [by eexists _, _|].
  specialize (Hcs eq_refl). destruct (negb _); cbn [mbind result_bind]; [|by eapply witness_loop_shows].
  destruct (p2sh_loop_shows (vin tx) v m below cs 0 Hv Hcs) as (n & v1 & -> & Hv1). cbn [mbind result_bind].
  by eapply witness_loop_shows.
Qed.

(** ** Properties *)

(** What [CheckTransaction] accepts. It accepts exactly the transactions that have inputs
    and outputs, fit a block without their witnesses, pay amounts that are money one by one
    and in total, spend no outpoint twice, and either are a coinbase with a script of 2 to
    100 bytes or name no null outpoint; any other transaction is a consensus failure, and
    nothing is thrown. *)
Theorem CheckTransaction_iff (tx : CTransaction) :
  (CheckTransaction tx = Ok () <-> well_formed_tx tx) /\
  (forall e, CheckTransaction tx = Throw e -> exists reason, e = Invalid TX_CONSENSUS reason).
Proof.
  pose proof (CheckTransaction_spec tx) as Hs. destruct (CheckTransaction tx) as [[]|e].
  - split; [done|]. by intros e.
  - destruct Hs as [Hn He]. split; [by split|]. by intros e' [= <-].
Qed.

(** Relative lock times (BIP 68). For a block of a well-formed index whose predecessor has a
    median time, and coins made no higher than the block, [SequenceLocks] neither asserts nor
    overflows, and answers yes exactly when the rules do not apply to the transaction or every
    input without the disable flag has aged as its sequence number asks: by blocks since the
    coin, or by units of 512 seconds since the median time of the block before the coin. *)
Theorem SequenceLocks_correct {U : Type} (m : gmap ptr (CBlockIndex (U := U))) (tx : CTransaction) (flags : Z) (prevHeights : list Z)
    (block prev : ptr) (b : CBlockIndex (U := U)) (mtp : Z) :
  chain_wf m -> m !! block = Some b -> pprev b = Some prev -> GetMedianTimePast m prev = Some mtp -> 0 <= mtp ->
  length prevHeights = length (vin tx) -> Forall (fun h => 0 <= h <= nHeight b) prevHeights -> nHeight b < 2 ^ 31 - 65536 ->
  exists met, SequenceLocks m tx flags prevHeights block = Some met /\
    (met = true <-> (locks_enforced tx flags = true -> Forall2 (lock_met m block (nHeight b) mtp) (vin tx) prevHeights)).
Proof.
  intros Hwf Hb Hp Hm Hpos Hl Hh Hmax. destruct (SequenceLocks_spec m tx flags prevHeights block b prev Hwf Hb Hp Hl Hh Hmax) as (mtp' & met & Hm' & Hs & Hiff).
  rewrite Hm in Hm'. injection Hm' as <-. exists met. split; [done|]. by apply Hiff.
Qed.

(** Two blocks, and a transaction with a lock of one block on a coin of the first. *)
Definition locks_entry (prev skip : option ptr) (h : Z) : CBlockIndex (U := unit) :=
  {| pprev := prev; pskip := skip; nHeight := h; nChainWork := tt; nStatus := 0; Chain.nVersion := 1; hashMerkleRoot := [];
     nTime := 1000 + h; nBits := 0; nNonce := 0; nSequenceId := 0; nTimeMax := 0 |}.
Definition locks_index : gmap ptr (CBlockIndex (U := unit)) :=
  <[ [1] := locks_entry (Some [0]) (Some [0]) 1 ]> {[ [0] := locks_entry None None 0 ]}.
Definition locks_tx : CTransaction :=
  {| vin := [{| prevout := {| op_hash := example_hash 9; op_n := 3 |}; scriptSig := []; nSequence := 1; scriptWitness := [] |}];
     vout := []; nVersion := 2; nLockTime := 0 |}.

Lemma locks_index_wf : chain_wf locks_index.
Proof.
  intros p b. unfold locks_index. rewrite lookup_insert_Some, lookup_singleton_Some. intros [[<- <-]|[_ [<- <-]]]; unfold index_ok; cbn [nHeight pprev pskip locks_entry];
    (split; [lia|]); [|done].
  exists (locks_entry None None 0). split_and!; [reflexivity|done|]. exists [0]. split; [done|vm_compute; reflexivity].
Qed.

Lemma SequenceLocks_correct_witness :
  exists met, SequenceLocks locks_index locks_tx LOCKTIME_VERIFY_SEQUENCE [0] [1] = Some met /\ met = true.
Proof.
  destruct (SequenceLocks_correct locks_index locks_tx LOCKTIME_VERIFY_SEQUENCE [0] [1] [0] (locks_entry (Some [0]) (Some [0]) 1) 1000)
    as (met & Hs & Hiff).
  - exact locks_index_wf.
  - reflexivity.
  - reflexivity.
  - vm_compute. reflexivity.
  - lia.
  - reflexivity.
  - constructor; [cbn; lia|constructor].
  - cbn. lia.
  - exists met. split; [exact Hs|]. apply Hiff. intros _. constructor; [|constructor]. vm_compute. congruence.
Defined.
