(* ===== verification/Interpreter.v ===== *)
(** * The script interpreter (src/src/script/interpreter.h, src/src/script/interpreter.cpp,
    the opcodes of src/src/script/script.h)

    A script is a program for a machine with a stack of byte strings.  [EvalScript] runs one,
    [VerifyScript] decides whether an input may spend an output: it runs the scripts of the
    input and of the output, then the script that was hashed, then the witness.  The flags say
    which rules are in force.  What a signature signs is behind the interface
    [BaseSignatureChecker]; hashes and the check of a Taproot tweak are parameters.

    Shown here: the flags are soft forks, as their declaration says: what is accepted with
    more of them is accepted with fewer; no assertion fails; the stack and its elements stay
    within their limits; the condition stack, which is two numbers, behaves as the list of
    booleans it stands for; and what the two ways to pay to the hash of a key accept. *)

From stdpp Require Import strings.
From S2P Require Import Prelude Serialize Amounts ArithUint256 Chain Script Transaction Coins TxVerify.

Open Scope Z_scope.

(** ** Opcodes *)

(** From [OP_1NEGATE] to [OP_CHECKSIGADD], in the order of their values; the values below
    them are pushes. *)
Module Op.
Inductive opcodetype :=
| OP_1NEGATE | OP_RESERVED | OP_1 | OP_2 | OP_3 | OP_4 | OP_5 | OP_6 | OP_7 | OP_8 | OP_9 | OP_10 | OP_11 | OP_12 | OP_13 | OP_14 | OP_15 | OP_16
| OP_NOP | OP_VER | OP_IF | OP_NOTIF | OP_VERIF | OP_VERNOTIF | OP_ELSE | OP_ENDIF | OP_VERIFY | OP_RETURN
| OP_TOALTSTACK | OP_FROMALTSTACK | OP_2DROP | OP_2DUP | OP_3DUP | OP_2OVER | OP_2ROT | OP_2SWAP | OP_IFDUP | OP_DEPTH | OP_DROP | OP_DUP
| OP_NIP | OP_OVER | OP_PICK | OP_ROLL | OP_ROT | OP_SWAP | OP_TUCK
| OP_CAT | OP_SUBSTR | OP_LEFT | OP_RIGHT | OP_SIZE
| OP_INVERT | OP_AND | OP_OR | OP_XOR | OP_EQUAL | OP_EQUALVERIFY | OP_RESERVED1 | OP_RESERVED2
| OP_1ADD | OP_1SUB | OP_2MUL | OP_2DIV | OP_NEGATE | OP_ABS | OP_NOT | OP_0NOTEQUAL
| OP_ADD | OP_SUB | OP_MUL | OP_DIV | OP_MOD | OP_LSHIFT | OP_RSHIFT
| OP_BOOLAND | OP_BOOLOR | OP_NUMEQUAL | OP_NUMEQUALVERIFY | OP_NUMNOTEQUAL | OP_LESSTHAN | OP_GREATERTHAN | OP_LESSTHANOREQUAL
| OP_GREATERTHANOREQUAL | OP_MIN | OP_MAX | OP_WITHIN
| OP_RIPEMD160 | OP_SHA1 | OP_SHA256 | OP_HASH160 | OP_HASH256 | OP_CODESEPARATOR | OP_CHECKSIG | OP_CHECKSIGVERIFY | OP_CHECKMULTISIG
| OP_CHECKMULTISIGVERIFY
| OP_NOP1 | OP_CHECKLOCKTIMEVERIFY | OP_CHECKSEQUENCEVERIFY | OP_NOP4 | OP_NOP5 | OP_NOP6 | OP_NOP7 | OP_NOP8 | OP_NOP9 | OP_NOP10
| OP_CHECKSIGADD.

#[export] Instance opcodetype_eq_dec : EqDecision opcodetype.
Proof. solve_decision. Defined.

Definition opcodes : list opcodetype :=
  [OP_1NEGATE; OP_RESERVED; OP_1; OP_2; OP_3; OP_4; OP_5; OP_6; OP_7; OP_8; OP_9; OP_10; OP_11; OP_12; OP_13; OP_14; OP_15; OP_16;
   OP_NOP; OP_VER; OP_IF; OP_NOTIF; OP_VERIF; OP_VERNOTIF; OP_ELSE; OP_ENDIF; OP_VERIFY; OP_RETURN;
   OP_TOALTSTACK; OP_FROMALTSTACK; OP_2DROP; OP_2DUP; OP_3DUP; OP_2OVER; OP_2ROT; OP_2SWAP; OP_IFDUP; OP_DEPTH; OP_DROP; OP_DUP;
   OP_NIP; OP_OVER; OP_PICK; OP_ROLL; OP_ROT; OP_SWAP; OP_TUCK;
   OP_CAT; OP_SUBSTR; OP_LEFT; OP_RIGHT; OP_SIZE;
   OP_INVERT; OP_AND; OP_OR; OP_XOR; OP_EQUAL; OP_EQUALVERIFY; OP_RESERVED1; OP_RESERVED2;
   OP_1ADD; OP_1SUB; OP_2MUL; OP_2DIV; OP_NEGATE; OP_ABS; OP_NOT; OP_0NOTEQUAL;
   OP_ADD; OP_SUB; OP_MUL; OP_DIV; OP_MOD; OP_LSHIFT; OP_RSHIFT;
   OP_BOOLAND; OP_BOOLOR; OP_NUMEQUAL; OP_NUMEQUALVERIFY; OP_NUMNOTEQUAL; OP_LESSTHAN; OP_GREATERTHAN; OP_LESSTHANOREQUAL;
   OP_GREATERTHANOREQUAL; OP_MIN; OP_MAX; OP_WITHIN;
   OP_RIPEMD160; OP_SHA1; OP_SHA256; OP_HASH160; OP_HASH256; OP_CODESEPARATOR; OP_CHECKSIG; OP_CHECKSIGVERIFY; OP_CHECKMULTISIG;
   OP_CHECKMULTISIGVERIFY;
   OP_NOP1; OP_CHECKLOCKTIMEVERIFY; OP_CHECKSEQUENCEVERIFY; OP_NOP4; OP_NOP5; OP_NOP6; OP_NOP7; OP_NOP8; OP_NOP9; OP_NOP10;
   OP_CHECKSIGADD].

Definition first_value : Z := 0x4f.

(** The opcode of a value, if it has a name. *)
Definition of_value (n : Z) : option opcodetype := if n <? first_value then None else opcodes !! Z.to_nat (n - first_value).

(** The value of an opcode: its place in the list. *)
Definition value (o : opcodetype) : Z :=
  first_value + Z.of_nat (default 0%nat (fst <$> list_find (eq o) opcodes)).
End Op.
Import Op.

(** ** Failures *)

Inductive ScriptError :=
| SCRIPT_ERR_OK | SCRIPT_ERR_UNKNOWN_ERROR | SCRIPT_ERR_EVAL_FALSE | SCRIPT_ERR_OP_RETURN
| SCRIPT_ERR_SCRIPT_SIZE | SCRIPT_ERR_PUSH_SIZE | SCRIPT_ERR_OP_COUNT | SCRIPT_ERR_STACK_SIZE | SCRIPT_ERR_SIG_COUNT | SCRIPT_ERR_PUBKEY_COUNT
| SCRIPT_ERR_VERIFY | SCRIPT_ERR_EQUALVERIFY | SCRIPT_ERR_CHECKMULTISIGVERIFY | SCRIPT_ERR_CHECKSIGVERIFY | SCRIPT_ERR_NUMEQUALVERIFY
| SCRIPT_ERR_BAD_OPCODE | SCRIPT_ERR_DISABLED_OPCODE | SCRIPT_ERR_INVALID_STACK_OPERATION | SCRIPT_ERR_INVALID_ALTSTACK_OPERATION
| SCRIPT_ERR_UNBALANCED_CONDITIONAL
| SCRIPT_ERR_NEGATIVE_LOCKTIME | SCRIPT_ERR_UNSATISFIED_LOCKTIME
| SCRIPT_ERR_SIG_HASHTYPE | SCRIPT_ERR_SIG_DER | SCRIPT_ERR_MINIMALDATA | SCRIPT_ERR_SIG_PUSHONLY | SCRIPT_ERR_SIG_HIGH_S
| SCRIPT_ERR_SIG_NULLDUMMY | SCRIPT_ERR_PUBKEYTYPE | SCRIPT_ERR_CLEANSTACK | SCRIPT_ERR_MINIMALIF | SCRIPT_ERR_SIG_NULLFAIL
| SCRIPT_ERR_DISCOURAGE_UPGRADABLE_NOPS | SCRIPT_ERR_DISCOURAGE_UPGRADABLE_WITNESS_PROGRAM | SCRIPT_ERR_DISCOURAGE_UPGRADABLE_TAPROOT_VERSION
| SCRIPT_ERR_DISCOURAGE_OP_SUCCESS | SCRIPT_ERR_DISCOURAGE_UPGRADABLE_PUBKEYTYPE
| SCRIPT_ERR_WITNESS_PROGRAM_WRONG_LENGTH | SCRIPT_ERR_WITNESS_PROGRAM_WITNESS_EMPTY | SCRIPT_ERR_WITNESS_PROGRAM_MISMATCH
| SCRIPT_ERR_WITNESS_MALLEATED | SCRIPT_ERR_WITNESS_MALLEATED_P2SH | SCRIPT_ERR_WITNESS_UNEXPECTED | SCRIPT_ERR_WITNESS_PUBKEYTYPE
| SCRIPT_ERR_SCHNORR_SIG_SIZE | SCRIPT_ERR_SCHNORR_SIG_HASHTYPE | SCRIPT_ERR_SCHNORR_SIG | SCRIPT_ERR_TAPROOT_WRONG_CONTROL_SIZE
| SCRIPT_ERR_TAPSCRIPT_VALIDATION_WEIGHT | SCRIPT_ERR_TAPSCRIPT_CHECKMULTISIG | SCRIPT_ERR_TAPSCRIPT_MINIMALIF
| SCRIPT_ERR_OP_CODESEPARATOR | SCRIPT_ERR_SIG_FINDANDDELETE.

(** [return set_error(serror, e)], or a failed assertion. *)
Inductive script_failure := Fails (e : ScriptError) | Aborts.

Abbreviation outcome := (result script_failure).

(** An exception, which [EvalScript] catches. *)
Definition caught {E A} (r : result E A) : outcome A :=
  match r with Ok a => Ok a | Throw _ => Throw (Fails SCRIPT_ERR_UNKNOWN_ERROR) end.

Definition asserted {A} (r : option A) : outcome A :=
  match r with Some a => Ok a | None => Throw Aborts end.

(** ** Flags and limits *)

Definition SCRIPT_VERIFY_STRICTENC : Z := 2 ^ 1.
Definition SCRIPT_VERIFY_DERSIG : Z := 2 ^ 2.
Definition SCRIPT_VERIFY_LOW_S : Z := 2 ^ 3.
Definition SCRIPT_VERIFY_NULLDUMMY : Z := 2 ^ 4.
Definition SCRIPT_VERIFY_SIGPUSHONLY : Z := 2 ^ 5.
Definition SCRIPT_VERIFY_MINIMALDATA : Z := 2 ^ 6.
Definition SCRIPT_VERIFY_DISCOURAGE_UPGRADABLE_NOPS : Z := 2 ^ 7.
Definition SCRIPT_VERIFY_CLEANSTACK : Z := 2 ^ 8.
Definition SCRIPT_VERIFY_CHECKLOCKTIMEVERIFY : Z := 2 ^ 9.
Definition SCRIPT_VERIFY_CHECKSEQUENCEVERIFY : Z := 2 ^ 10.
Definition SCRIPT_VERIFY_DISCOURAGE_UPGRADABLE_WITNESS_PROGRAM : Z := 2 ^ 12.
Definition SCRIPT_VERIFY_MINIMALIF : Z := 2 ^ 13.
Definition SCRIPT_VERIFY_NULLFAIL : Z := 2 ^ 14.
Definition SCRIPT_VERIFY_WITNESS_PUBKEYTYPE : Z := 2 ^ 15.
Definition SCRIPT_VERIFY_CONST_SCRIPTCODE : Z := 2 ^ 16.
Definition SCRIPT_VERIFY_TAPROOT : Z := 2 ^ 17.
Definition SCRIPT_VERIFY_DISCOURAGE_UPGRADABLE_TAPROOT_VERSION : Z := 2 ^ 18.
Definition SCRIPT_VERIFY_DISCOURAGE_OP_SUCCESS : Z := 2 ^ 19.
Definition SCRIPT_VERIFY_DISCOURAGE_UPGRADABLE_PUBKEYTYPE : Z := 2 ^ 20.

(** [flags & f] as a condition. *)
Definition flag_set (flags f : Z) : bool := negb (Z.land flags f =? 0).

Definition MAX_OPS_PER_SCRIPT : Z := 201.
Definition MAX_STACK_SIZE : Z := 1000.
Definition VALIDATION_WEIGHT_PER_SIGOP_PASSED : Z := 50.
Definition VALIDATION_WEIGHT_OFFSET : Z := 50.
Definition ANNEX_TAG : Z := 0x50.
Definition WITNESS_V1_TAPROOT_SIZE : Z := 32.
Definition TAPROOT_LEAF_MASK : Z := 0xfe.
Definition TAPROOT_LEAF_TAPSCRIPT : Z := 0xc0.
Definition TAPROOT_CONTROL_BASE_SIZE : Z := 33.
Definition TAPROOT_CONTROL_NODE_SIZE : Z := 32.
Definition TAPROOT_CONTROL_MAX_SIZE : Z := TAPROOT_CONTROL_BASE_SIZE + TAPROOT_CONTROL_NODE_SIZE * 128.

(** ** Booleans and encodings *)

Definition valtype : Type := bytes.

(** The first byte that is not 0 decides; it may be the sign of a negative zero. *)
Fixpoint CastToBool (vch : valtype) : bool :=
  match vch with
  | [] => false
  | b :: rest => if negb (b =? 0) then negb ((length rest =? 0)%nat && (b =? 0x80)) else CastToBool rest
  end.

Definition COMPRESSED_SIZE : Z := 33.
Definition PUBKEY_SIZE : Z := 65.

Definition IsCompressedOrUncompressedPubKey (vchPubKey : valtype) : bool :=
  if size vchPubKey <? COMPRESSED_SIZE then false
  else if byte_at vchPubKey 0 =? 0x04 then size vchPubKey =? PUBKEY_SIZE
  else if (byte_at vchPubKey 0 =? 0x02) || (byte_at vchPubKey 0 =? 0x03) then size vchPubKey =? COMPRESSED_SIZE
  else false.

Definition IsCompressedPubKey (vchPubKey : valtype) : bool :=
  if negb (size vchPubKey =? COMPRESSED_SIZE) then false
  else (byte_at vchPubKey 0 =? 0x02) || (byte_at vchPubKey 0 =? 0x03).

(** 0x30 [total] 0x02 [lenR] R 0x02 [lenS] S [sighash]. *)
Definition IsValidSignatureEncoding (sig : bytes) : bool :=
  if size sig <? 9 then false
  else if 73 <? size sig then false
  else if negb (byte_at sig 0 =? 0x30) then false
  else if negb (byte_at sig 1 =? size sig - 3) then false
  else
    let lenR := byte_at sig 3 in
    if size sig <=? 5 + lenR then false
    else
      let lenS := byte_at sig (Z.to_nat (5 + lenR)) in
      if negb (lenR + lenS + 7 =? size sig) then false
      else if negb (byte_at sig 2 =? 0x02) then false
      else if lenR =? 0 then false
      else if negb (Z.land (byte_at sig 4) 0x80 =? 0) then false
      else if (1 <? lenR) && (byte_at sig 4 =? 0) && (Z.land (byte_at sig 5) 0x80 =? 0) then false
      else if negb (byte_at sig (Z.to_nat (lenR + 4)) =? 0x02) then false
      else if lenS =? 0 then false
      else if negb (Z.land (byte_at sig (Z.to_nat (lenR + 6))) 0x80 =? 0) then false
      else if (1 <? lenS) && (byte_at sig (Z.to_nat (lenR + 6)) =? 0) && (Z.land (byte_at sig (Z.to_nat (lenR + 7))) 0x80 =? 0)
      then false
      else true.

Definition SIGHASH_ALL : Z := 1.
Definition SIGHASH_NONE : Z := 2.
Definition SIGHASH_SINGLE : Z := 3.
Definition SIGHASH_ANYONECANPAY : Z := 0x80.
Definition SIGHASH_DEFAULT : Z := 0.
Definition SIGHASH_OUTPUT_MASK : Z := 3.
Definition SIGHASH_INPUT_MASK : Z := 0x80.

Definition IsDefinedHashtypeSignature (vchSig : valtype) : bool :=
  if size vchSig =? 0 then false
  else
    let nHashType := Z.land (back vchSig) (Z.lnot SIGHASH_ANYONECANPAY) in
    (SIGHASH_ALL <=? nHashType) && (nHashType <=? SIGHASH_SINGLE).

Inductive SigVersion := BASE | WITNESS_V0 | TAPROOT | TAPSCRIPT.
#[export] Instance SigVersion_eq_dec : EqDecision SigVersion.
Proof. solve_decision. Defined.

(** What is known of a Taproot spend; a field is [None] until it is initialised.  The annex,
    once initialised, is absent or its hash. *)
Record ScriptExecutionData := {
  m_tapleaf_hash : option uint256;
  m_codeseparator_pos : option Z;
  m_annex : option (option uint256);
  m_validation_weight_left : option Z;
  m_output_hash : option uint256;
}.

Definition no_execdata : ScriptExecutionData :=
  {| m_tapleaf_hash := None; m_codeseparator_pos := None; m_annex := None; m_validation_weight_left := None; m_output_hash := None |}.

Definition with_codeseparator_pos (d : ScriptExecutionData) (p : Z) : ScriptExecutionData :=
  {| m_tapleaf_hash := m_tapleaf_hash d; m_codeseparator_pos := Some p; m_annex := m_annex d;
     m_validation_weight_left := m_validation_weight_left d; m_output_hash := m_output_hash d |}.
Definition with_validation_weight_left (d : ScriptExecutionData) (w : Z) : ScriptExecutionData :=
  {| m_tapleaf_hash := m_tapleaf_hash d; m_codeseparator_pos := m_codeseparator_pos d; m_annex := m_annex d;
     m_validation_weight_left := Some w; m_output_hash := m_output_hash d |}.
Definition with_annex (d : ScriptExecutionData) (a : option uint256) : ScriptExecutionData :=
  {| m_tapleaf_hash := m_tapleaf_hash d; m_codeseparator_pos := m_codeseparator_pos d; m_annex := Some a;
     m_validation_weight_left := m_validation_weight_left d; m_output_hash := m_output_hash d |}.
Definition with_tapleaf_hash (d : ScriptExecutionData) (h : uint256) : ScriptExecutionData :=
  {| m_tapleaf_hash := Some h; m_codeseparator_pos := m_codeseparator_pos d; m_annex := m_annex d;
     m_validation_weight_left := m_validation_weight_left d; m_output_hash := m_output_hash d |}.
Definition with_output_hash (d : ScriptExecutionData) (h : uint256) : ScriptExecutionData :=
  {| m_tapleaf_hash := m_tapleaf_hash d; m_codeseparator_pos := m_codeseparator_pos d; m_annex := m_annex d;
     m_validation_weight_left := m_validation_weight_left d; m_output_hash := Some h |}.

(** The cryptography the interpreter calls: the hash functions, the test of the S of a
    signature, and the test that a key is another one tweaked by the root of a tree.  What
    [CheckTapTweak] is given: the output key, the internal key, the root and the parity. *)
Class Crypto := {
  sha256 : bytes -> bytes;
  ripemd160 : bytes -> bytes;
  sha1 : bytes -> bytes;
  CheckLowS : bytes -> bool;
  CheckTapTweak : bytes -> bytes -> bytes -> bool -> bool;
}.

Definition hash160 `{Crypto} (b : bytes) : bytes := ripemd160 (sha256 b).
Definition hash256 `{Crypto} (b : bytes) : bytes := sha256 (sha256 b).

(** What a transaction answers about its signatures and its locks: the virtual functions of
    [BaseSignatureChecker].  [None] is a failed assertion; [CheckSchnorrSignature] sets the
    error itself and may fill in the cached hash of the output. *)
Class BaseSignatureChecker := {
  CheckECDSASignature (scriptSig vchPubKey scriptCode : bytes) (sigversion : SigVersion) : option bool;
  CheckSchnorrSignature (sig pubkey : bytes) (sigversion : SigVersion) (execdata : ScriptExecutionData) : outcome ScriptExecutionData;
  CheckLockTime (nLockTime : Z) : bool;
  CheckSequence (nSequence : Z) : bool;
}.

(** ** [FindAndDelete] *)

(** [while (std::equal(b.begin(), b.end(), pc))]: the copies of [b] at the front. *)
Fixpoint skip_copies (fuel : nat) (b pc : bytes) (nFound : Z) : bytes * Z :=
  match fuel with
  | O => (pc, nFound)
  | S fuel =>
      if (size b <=? size pc) && bool_decide (take (length b) pc = b)
      then skip_copies fuel b (drop (length b) pc) (nFound + 1)
      else (pc, nFound)
  end.

Fixpoint FindAndDelete_loop (fuel : nat) (b pc result : bytes) (nFound : Z) : bytes * Z :=
  match fuel with
  | O => ((result ++ pc)%list, nFound)
  | S fuel =>
      let '(pc2, nFound) := skip_copies (length pc) b pc nFound in
      match GetScriptOp pc2 with
      | None => ((result ++ pc2)%list, nFound)
      | Some (_, _, pc) => FindAndDelete_loop fuel b pc (result ++ take (length pc2 - length pc) pc2)%list nFound
      end
  end.

(** The script without [b] where [b] starts an instruction, and how often it was found. *)
Definition FindAndDelete (script b : bytes) : bytes * Z :=
  match b with
  | [] => (script, 0)
  | _ =>
      let '(result, nFound) := FindAndDelete_loop (S (length script)) b script [] 0 in
      (if 0 <? nFound then result else script, nFound)
  end.

(** ** [ConditionStack] *)

Record ConditionStack := { m_stack_size : Z; m_first_false_pos : Z }.

Definition NO_FALSE : Z := 2 ^ 32 - 1.
Definition no_conditions : ConditionStack := {| m_stack_size := 0; m_first_false_pos := NO_FALSE |}.

Definition cs_empty (c : ConditionStack) : bool := m_stack_size c =? 0.
Definition all_true (c : ConditionStack) : bool := m_first_false_pos c =? NO_FALSE.

Definition push_back (c : ConditionStack) (f : bool) : ConditionStack :=
  {| m_first_false_pos := if (m_first_false_pos c =? NO_FALSE) && negb f then m_stack_size c else m_first_false_pos c;
     m_stack_size := wrapu 32 (m_stack_size c + 1) |}.

Definition pop_back (c : ConditionStack) : option ConditionStack :=
  if 0 <? m_stack_size c then
    let n := m_stack_size c - 1 in
    Some {| m_stack_size := n; m_first_false_pos := if m_first_false_pos c =? n then NO_FALSE else m_first_false_pos c |}
  else None.

Definition toggle_top (c : ConditionStack) : option ConditionStack :=
  if 0 <? m_stack_size c then
    Some {| m_stack_size := m_stack_size c;
            m_first_false_pos :=
              if m_first_false_pos c =? NO_FALSE then m_stack_size c - 1
              else if m_first_false_pos c =? m_stack_size c - 1 then NO_FALSE
              else m_first_false_pos c |}
  else None.

(** ** Signature operations *)

Section Run.
Context `{Crypto} `{BaseSignatureChecker}.

Definition IsLowDERSignature (vchSig : valtype) : outcome () :=
  guard! IsValidSignatureEncoding vchSig else Fails SCRIPT_ERR_SIG_DER;
  guard! CheckLowS (take (length vchSig - 1) vchSig) else Fails SCRIPT_ERR_SIG_HIGH_S;
  Ok ().

Definition CheckSignatureEncoding (vchSig : bytes) (flags : Z) : outcome () :=
  if size vchSig =? 0 then Ok ()
  else
    guard! negb (flag_set flags (Z.lor (Z.lor SCRIPT_VERIFY_DERSIG SCRIPT_VERIFY_LOW_S) SCRIPT_VERIFY_STRICTENC)
                 && negb (IsValidSignatureEncoding vchSig)) else Fails SCRIPT_ERR_SIG_DER;
    _ ← (if flag_set flags SCRIPT_VERIFY_LOW_S then IsLowDERSignature vchSig else Ok ());
    guard! negb (flag_set flags SCRIPT_VERIFY_STRICTENC && negb (IsDefinedHashtypeSignature vchSig)) else Fails SCRIPT_ERR_SIG_HASHTYPE;
    Ok ().

Definition CheckPubKeyEncoding (vchPubKey : valtype) (flags : Z) (sigversion : SigVersion) : outcome () :=
  guard! negb (flag_set flags SCRIPT_VERIFY_STRICTENC && negb (IsCompressedOrUncompressedPubKey vchPubKey)) else Fails SCRIPT_ERR_PUBKEYTYPE;
  guard! negb (flag_set flags SCRIPT_VERIFY_WITNESS_PUBKEYTYPE && bool_decide (sigversion = WITNESS_V0) && negb (IsCompressedPubKey vchPubKey))
    else Fails SCRIPT_ERR_WITNESS_PUBKEYTYPE;
  Ok ().

(** Before segwit a signature is removed from the script it signs. *)
Definition drop_signature (flags : Z) (sigversion : SigVersion) (scriptCode vchSig : bytes) : outcome bytes :=
  if decide (sigversion = BASE) then
    let '(scriptCode, found) := FindAndDelete scriptCode (push_data vchSig) in
    guard! negb ((0 <? found) && flag_set flags SCRIPT_VERIFY_CONST_SCRIPTCODE) else Fails SCRIPT_ERR_SIG_FINDANDDELETE;
    Ok scriptCode
  else Ok scriptCode.

Definition EvalChecksigPreTapscript (vchSig vchPubKey code : bytes) (flags : Z) (sigversion : SigVersion) : outcome bool :=
  guard! bool_decide (sigversion = BASE) || bool_decide (sigversion = WITNESS_V0) else Aborts;
  scriptCode ← drop_signature flags sigversion code vchSig;
  _ ← CheckSignatureEncoding vchSig flags;
  _ ← CheckPubKeyEncoding vchPubKey flags sigversion;
  fSuccess ← asserted (CheckECDSASignature vchSig vchPubKey scriptCode sigversion);
  guard! negb (negb fSuccess && flag_set flags SCRIPT_VERIFY_NULLFAIL && negb (size vchSig =? 0)) else Fails SCRIPT_ERR_SIG_NULLFAIL;
  Ok fSuccess.

(** A signature that is not empty is paid for from the weight of the witness. *)
Definition spend_weight (execdata : ScriptExecutionData) : outcome ScriptExecutionData :=
  w ← asserted (m_validation_weight_left execdata);
  let w := w - VALIDATION_WEIGHT_PER_SIGOP_PASSED in
  guard! 0 <=? w else Fails SCRIPT_ERR_TAPSCRIPT_VALIDATION_WEIGHT;
  Ok (with_validation_weight_left execdata w).

Definition EvalChecksigTapscript (sig pubkey : bytes) (execdata : ScriptExecutionData) (flags : Z) (sigversion : SigVersion)
  : outcome (bool * ScriptExecutionData) :=
  guard! bool_decide (sigversion = TAPSCRIPT) else Aborts;
  let success := negb (size sig =? 0) in
  execdata ← (if success then spend_weight execdata else Ok execdata);
  if size pubkey =? 0 then Throw (Fails SCRIPT_ERR_PUBKEYTYPE)
  else if size pubkey =? 32 then
    execdata ← (if success then CheckSchnorrSignature sig pubkey sigversion execdata else Ok execdata);
    Ok (success, execdata)
  else
    guard! negb (flag_set flags SCRIPT_VERIFY_DISCOURAGE_UPGRADABLE_PUBKEYTYPE) else Fails SCRIPT_ERR_DISCOURAGE_UPGRADABLE_PUBKEYTYPE;
    Ok (success, execdata).

Definition EvalChecksig (sig pubkey code : bytes) (execdata : ScriptExecutionData) (flags : Z) (sigversion : SigVersion)
  : outcome (bool * ScriptExecutionData) :=
  match sigversion with
  | BASE | WITNESS_V0 =>
      success ← EvalChecksigPreTapscript sig pubkey code flags sigversion;
      Ok (success, execdata)
  | TAPSCRIPT => EvalChecksigTapscript sig pubkey execdata flags sigversion
  | TAPROOT => Throw Aborts
  end.

(** ** The machine *)

(** The stacks are lists with the top first; [pbegincodehash] is the script from there on. *)
Record machine := {
  stack : list valtype;
  altstack : list valtype;
  vfExec : ConditionStack;
  nOpCount : Z;
  pbegincodehash : bytes;
  execdata : ScriptExecutionData;
}.

Definition with_stack (m : machine) (s : list valtype) : machine :=
  {| stack := s; altstack := altstack m; vfExec := vfExec m; nOpCount := nOpCount m; pbegincodehash := pbegincodehash m; execdata := execdata m |}.
Definition with_stacks (m : machine) (s a : list valtype) : machine :=
  {| stack := s; altstack := a; vfExec := vfExec m; nOpCount := nOpCount m; pbegincodehash := pbegincodehash m; execdata := execdata m |}.
Definition with_conditions (m : machine) (c : ConditionStack) : machine :=
  {| stack := stack m; altstack := altstack m; vfExec := c; nOpCount := nOpCount m; pbegincodehash := pbegincodehash m; execdata := execdata m |}.
Definition with_op_count (m : machine) (n : Z) : machine :=
  {| stack := stack m; altstack := altstack m; vfExec := vfExec m; nOpCount := n; pbegincodehash := pbegincodehash m; execdata := execdata m |}.
Definition with_code (m : machine) (code : bytes) : machine :=
  {| stack := stack m; altstack := altstack m; vfExec := vfExec m; nOpCount := nOpCount m; pbegincodehash := code; execdata := execdata m |}.
Definition with_execdata (m : machine) (d : ScriptExecutionData) : machine :=
  {| stack := stack m; altstack := altstack m; vfExec := vfExec m; nOpCount := nOpCount m; pbegincodehash := pbegincodehash m; execdata := d |}.

Definition vchFalse : valtype := [].
Definition vchTrue : valtype := [1].
Definition vch_of_bool (b : bool) : valtype := if b then vchTrue else vchFalse.

(** [CScriptNum(vch, fRequireMinimal)]; its exceptions are caught. *)
Definition num (fRequireMinimal : bool) (vch : valtype) : outcome Z := caught (CScriptNum_of_vch vch fRequireMinimal 4).

Definition getint (n : Z) : Z := if 2 ^ 31 - 1 <? n then 2 ^ 31 - 1 else if n <? - 2 ^ 31 then - 2 ^ 31 else n.

(** The operators of [CScriptNum] that assert. *)
Definition num_neg (n : Z) : outcome Z := guard! negb (n =? - 2 ^ 63) else Aborts; Ok (- n).
Definition num_add (n rhs : Z) : outcome Z :=
  guard! (rhs =? 0) || ((0 <? rhs) && (n <=? 2 ^ 63 - 1 - rhs)) || ((rhs <? 0) && (- 2 ^ 63 - rhs <=? n)) else Aborts;
  Ok (n + rhs).
Definition num_sub (n rhs : Z) : outcome Z :=
  guard! (rhs =? 0) || ((0 <? rhs) && (- 2 ^ 63 + rhs <=? n)) || ((rhs <? 0) && (n <=? 2 ^ 63 - 1 + rhs)) else Aborts;
  Ok (n - rhs).

Definition stack_error {A} : outcome A := Throw (Fails SCRIPT_ERR_INVALID_STACK_OPERATION).

(** *** Operations on the stack alone *)

Definition pick_or_roll (roll fRequireMinimal : bool) (s : list valtype) : outcome (list valtype) :=
  match s with
  | top :: (x :: s) =>
      n ← num fRequireMinimal top;
      let n := getint n in
      let s := x :: s in
      if (n <? 0) || (Z.of_nat (length s) <=? n) then stack_error
      else
        match s !! Z.to_nat n with
        | None => Throw (Fails SCRIPT_ERR_UNKNOWN_ERROR)
        | Some vch => Ok (vch :: if roll then delete (Z.to_nat n) s else s)
        end
  | _ => stack_error
  end.

Definition equal_op (verify : bool) (s : list valtype) : outcome (list valtype) :=
  match s with
  | vch2 :: vch1 :: s =>
      let fEqual := bool_decide (vch1 = vch2) in
      if verify then guard! fEqual else Fails SCRIPT_ERR_EQUALVERIFY; Ok s
      else Ok (vch_of_bool fEqual :: s)
  | _ => stack_error
  end.

(** [OP_2DROP] to [OP_SIZE], except for the alternative stack. *)
Definition stack_op (opcode : opcodetype) (fRequireMinimal : bool) (s : list valtype) : outcome (list valtype) :=
  match opcode with
  | OP_2DROP => match s with _ :: _ :: s => Ok s | _ => stack_error end
  | OP_2DUP => match s with x2 :: x1 :: _ => Ok (x2 :: x1 :: s) | _ => stack_error end
  | OP_3DUP => match s with x3 :: x2 :: x1 :: _ => Ok (x3 :: x2 :: x1 :: s) | _ => stack_error end
  | OP_2OVER => match s with _ :: _ :: x2 :: x1 :: _ => Ok (x2 :: x1 :: s) | _ => stack_error end
  | OP_2ROT =>
      match s with x6 :: x5 :: x4 :: x3 :: x2 :: x1 :: s => Ok (x2 :: x1 :: x6 :: x5 :: x4 :: x3 :: s) | _ => stack_error end
  | OP_2SWAP => match s with x4 :: x3 :: x2 :: x1 :: s => Ok (x2 :: x1 :: x4 :: x3 :: s) | _ => stack_error end
  | OP_IFDUP => match s with x :: _ => Ok (if CastToBool x then x :: s else s) | _ => stack_error end
  | OP_DEPTH => Ok (CScriptNum_serialize (Z.of_nat (length s)) :: s)
  | OP_DROP => match s with _ :: s => Ok s | _ => stack_error end
  | OP_DUP => match s with x :: _ => Ok (x :: s) | _ => stack_error end
  | OP_NIP => match s with x2 :: _ :: s => Ok (x2 :: s) | _ => stack_error end
  | OP_OVER => match s with _ :: x1 :: _ => Ok (x1 :: s) | _ => stack_error end
  | OP_PICK => pick_or_roll false fRequireMinimal s
  | OP_ROLL => pick_or_roll true fRequireMinimal s
  | OP_ROT => match s with x3 :: x2 :: x1 :: s => Ok (x1 :: x3 :: x2 :: s) | _ => stack_error end
  | OP_SWAP => match s with x2 :: x1 :: s => Ok (x1 :: x2 :: s) | _ => stack_error end
  | OP_TUCK => match s with x2 :: x1 :: s => Ok (x2 :: x1 :: x2 :: s) | _ => stack_error end
  | OP_SIZE => match s with x :: _ => Ok (CScriptNum_serialize (size x) :: s) | _ => stack_error end
  | OP_EQUAL => equal_op false s
  | OP_EQUALVERIFY => equal_op true s
  | _ => Throw (Fails SCRIPT_ERR_BAD_OPCODE)
  end.

(** *** Numbers *)

(** The two inner switches: one operand, two operands; another opcode is an assertion. *)
Definition num_unary (opcode : opcodetype) (bn : Z) : outcome Z :=
  match opcode with
  | OP_1ADD => num_add bn 1
  | OP_1SUB => num_sub bn 1
  | OP_NEGATE => num_neg bn
  | OP_ABS => if bn <? 0 then num_neg bn else Ok bn
  | OP_NOT => Ok (Z.b2z (bn =? 0))
  | OP_0NOTEQUAL => Ok (Z.b2z (negb (bn =? 0)))
  | _ => Throw Aborts
  end.

Definition num_binary (opcode : opcodetype) (bn1 bn2 : Z) : outcome Z :=
  match opcode with
  | OP_ADD => Ok (wraps 64 (bn1 + bn2))
  | OP_SUB => Ok (wraps 64 (bn1 - bn2))
  | OP_BOOLAND => Ok (Z.b2z (negb (bn1 =? 0) && negb (bn2 =? 0)))
  | OP_BOOLOR => Ok (Z.b2z (negb (bn1 =? 0) || negb (bn2 =? 0)))
  | OP_NUMEQUAL | OP_NUMEQUALVERIFY => Ok (Z.b2z (bn1 =? bn2))
  | OP_NUMNOTEQUAL => Ok (Z.b2z (negb (bn1 =? bn2)))
  | OP_LESSTHAN => Ok (Z.b2z (bn1 <? bn2))
  | OP_GREATERTHAN => Ok (Z.b2z (bn2 <? bn1))
  | OP_LESSTHANOREQUAL => Ok (Z.b2z (bn1 <=? bn2))
  | OP_GREATERTHANOREQUAL => Ok (Z.b2z (bn2 <=? bn1))
  | OP_MIN => Ok (if bn1 <? bn2 then bn1 else bn2)
  | OP_MAX => Ok (if bn2 <? bn1 then bn1 else bn2)
  | _ => Throw Aborts
  end.

Definition unary_op (opcode : opcodetype) (fRequireMinimal : bool) (s : list valtype) : outcome (list valtype) :=
  match s with
  | x :: s =>
      bn ← num fRequireMinimal x;
      bn ← num_unary opcode bn;
      Ok (CScriptNum_serialize bn :: s)
  | _ => stack_error
  end.

Definition binary_op (opcode : opcodetype) (fRequireMinimal : bool) (s : list valtype) : outcome (list valtype) :=
  match s with
  | x2 :: x1 :: s =>
      bn1 ← num fRequireMinimal x1;
      bn2 ← num fRequireMinimal x2;
      bn ← num_binary opcode bn1 bn2;
      if decide (opcode = OP_NUMEQUALVERIFY)
      then guard! CastToBool (CScriptNum_serialize bn) else Fails SCRIPT_ERR_NUMEQUALVERIFY; Ok s
      else Ok (CScriptNum_serialize bn :: s)
  | _ => stack_error
  end.

Definition within_op (fRequireMinimal : bool) (s : list valtype) : outcome (list valtype) :=
  match s with
  | x3 :: x2 :: x1 :: s =>
      bn1 ← num fRequireMinimal x1;
      bn2 ← num fRequireMinimal x2;
      bn3 ← num fRequireMinimal x3;
      Ok (vch_of_bool ((bn2 <=? bn1) && (bn1 <? bn3)) :: s)
  | _ => stack_error
  end.

(** *** Hashes and signatures *)

Definition hash_op (h : bytes -> bytes) (s : list valtype) : outcome (list valtype) :=
  match s with
  | vch :: s => Ok (h vch :: s)
  | _ => stack_error
  end.

Definition checksig_op (flags : Z) (sigversion : SigVersion) (verify : bool) (m : machine) : outcome machine :=
  match stack m with
  | vchPubKey :: vchSig :: s =>
      '(fSuccess, d) ← EvalChecksig vchSig vchPubKey (pbegincodehash m) (execdata m) flags sigversion;
      let m := with_execdata m d in
      if verify then guard! (fSuccess : bool) else Fails SCRIPT_ERR_CHECKSIGVERIFY; Ok (with_stack m s)
      else Ok (with_stack m (vch_of_bool fSuccess :: s))
  | _ => stack_error
  end.

Definition checksigadd_op (flags : Z) (sigversion : SigVersion) (fRequireMinimal : bool) (m : machine) : outcome machine :=
  guard! negb (bool_decide (sigversion = BASE) || bool_decide (sigversion = WITNESS_V0)) else Fails SCRIPT_ERR_BAD_OPCODE;
  match stack m with
  | pubkey :: n :: sig :: s =>
      n ← num fRequireMinimal n;
      '(success, d) ← EvalChecksig sig pubkey (pbegincodehash m) (execdata m) flags sigversion;
      Ok (with_stack (with_execdata m d) (CScriptNum_serialize (wraps 64 (n + Z.b2z success)) :: s))
  | _ => stack_error
  end.

(** [for (int k = 0; k < nSigsCount; k++)]: every signature is dropped from the script. *)
Fixpoint drop_signatures (flags : Z) (sigversion : SigVersion) (scriptCode : bytes) (sigs : list valtype) : outcome bytes :=
  match sigs with
  | [] => Ok scriptCode
  | vchSig :: sigs =>
      scriptCode ← drop_signature flags sigversion scriptCode vchSig;
      drop_signatures flags sigversion scriptCode sigs
  end.

(** [while (fSuccess && nSigsCount > 0)]: each signature is tried against the keys in order.
    A turn begins with at most as many signatures as keys. *)
Fixpoint multisig_loop (flags : Z) (sigversion : SigVersion) (scriptCode : bytes) (sigs keys : list valtype) : outcome bool :=
  match sigs with
  | [] => Ok true
  | vchSig :: later =>
      match keys with
      | [] => Throw Aborts
      | vchPubKey :: keys =>
          _ ← CheckSignatureEncoding vchSig flags;
          _ ← CheckPubKeyEncoding vchPubKey flags sigversion;
          fOk ← asserted (CheckECDSASignature vchSig vchPubKey scriptCode sigversion);
          let sigs := if (fOk : bool) then later else sigs in
          if (length keys <? length sigs)%nat then Ok false
          else multisig_loop flags sigversion scriptCode sigs keys
      end
  end.

(** [while (i-- > 1)]: the arguments are popped; if the check failed, the signatures, which
    come after [ikey2] other elements, must be empty. *)
Fixpoint multisig_cleanup (flags : Z) (fSuccess : bool) (i ikey2 : nat) (s : list valtype) : outcome (list valtype) :=
  match i with
  | O => Ok s
  | S i =>
      match s with
      | [] => Throw (Fails SCRIPT_ERR_UNKNOWN_ERROR)
      | top :: s =>
          guard! negb (negb fSuccess && flag_set flags SCRIPT_VERIFY_NULLFAIL && (ikey2 =? 0)%nat && negb (size top =? 0))
            else Fails SCRIPT_ERR_SIG_NULLFAIL;
          multisig_cleanup flags fSuccess i (ikey2 - 1) s
      end
  end.

Definition stacktop (s : list valtype) (i : nat) : outcome valtype :=
  match s !! (i - 1)%nat with Some v => Ok v | None => Throw (Fails SCRIPT_ERR_UNKNOWN_ERROR) end.

Definition checkmultisig_op (flags : Z) (sigversion : SigVersion) (fRequireMinimal verify : bool) (m : machine) : outcome machine :=
  guard! negb (bool_decide (sigversion = TAPSCRIPT)) else Fails SCRIPT_ERR_TAPSCRIPT_CHECKMULTISIG;
  let s := stack m in
  guard! (1 <=? length s)%nat else Fails SCRIPT_ERR_INVALID_STACK_OPERATION;
  nKeysCount ← (vch ← stacktop s 1; num fRequireMinimal vch);
  let nKeysCount := getint nKeysCount in
  guard! negb ((nKeysCount <? 0) || (MAX_PUBKEYS_PER_MULTISIG <? nKeysCount)) else Fails SCRIPT_ERR_PUBKEY_COUNT;
  let m := with_op_count m (nOpCount m + nKeysCount) in
  guard! negb (MAX_OPS_PER_SCRIPT <? nOpCount m) else Fails SCRIPT_ERR_OP_COUNT;
  let ikey := 2%nat in
  let ikey2 := (Z.to_nat nKeysCount + 2)%nat in
  let i := (ikey + Z.to_nat nKeysCount)%nat in
  guard! negb (length s <? i)%nat else Fails SCRIPT_ERR_INVALID_STACK_OPERATION;
  nSigsCount ← (vch ← stacktop s i; num fRequireMinimal vch);
  let nSigsCount := getint nSigsCount in
  guard! negb ((nSigsCount <? 0) || (nKeysCount <? nSigsCount)) else Fails SCRIPT_ERR_SIG_COUNT;
  let isig := (i + 1)%nat in
  let i := (isig + Z.to_nat nSigsCount)%nat in
  guard! negb (length s <? i)%nat else Fails SCRIPT_ERR_INVALID_STACK_OPERATION;
  let keys := take (Z.to_nat nKeysCount) (drop (ikey - 1) s) in
  let sigs := take (Z.to_nat nSigsCount) (drop (isig - 1) s) in
  scriptCode ← drop_signatures flags sigversion (pbegincodehash m) sigs;
  fSuccess ← multisig_loop flags sigversion scriptCode sigs keys;
  s ← multisig_cleanup flags fSuccess (i - 1) ikey2 s;
  match s with
  | [] => stack_error
  | dummy :: s =>
      guard! negb (flag_set flags SCRIPT_VERIFY_NULLDUMMY && negb (size dummy =? 0)) else Fails SCRIPT_ERR_SIG_NULLDUMMY;
      if verify then guard! (fSuccess : bool) else Fails SCRIPT_ERR_CHECKMULTISIGVERIFY; Ok (with_stack m s)
      else Ok (with_stack m (vch_of_bool fSuccess :: s))
  end.

(** *** Control *)

Definition locktime_op (flags : Z) (fRequireMinimal : bool) (m : machine) : outcome machine :=
  if negb (flag_set flags SCRIPT_VERIFY_CHECKLOCKTIMEVERIFY) then Ok m
  else
    match stack m with
    | [] => stack_error
    | top :: _ =>
        nLockTime ← caught (CScriptNum_of_vch top fRequireMinimal 5);
        guard! 0 <=? nLockTime else Fails SCRIPT_ERR_NEGATIVE_LOCKTIME;
        guard! CheckLockTime nLockTime else Fails SCRIPT_ERR_UNSATISFIED_LOCKTIME;
        Ok m
    end.

Definition sequence_op (flags : Z) (fRequireMinimal : bool) (m : machine) : outcome machine :=
  if negb (flag_set flags SCRIPT_VERIFY_CHECKSEQUENCEVERIFY) then Ok m
  else
    match stack m with
    | [] => stack_error
    | top :: _ =>
        nSequence ← caught (CScriptNum_of_vch top fRequireMinimal 5);
        guard! 0 <=? nSequence else Fails SCRIPT_ERR_NEGATIVE_LOCKTIME;
        if negb (Z.land nSequence SEQUENCE_LOCKTIME_DISABLE_FLAG =? 0) then Ok m
        else
          guard! CheckSequence nSequence else Fails SCRIPT_ERR_UNSATISFIED_LOCKTIME;
          Ok m
    end.

Definition if_op (flags : Z) (sigversion : SigVersion) (fExec negated : bool) (m : machine) : outcome machine :=
  if fExec then
    match stack m with
    | [] => Throw (Fails SCRIPT_ERR_UNBALANCED_CONDITIONAL)
    | vch :: s =>
        let minimal := negb ((1 <? size vch) || ((size vch =? 1) && negb (byte_at vch 0 =? 1))) in
        guard! negb (bool_decide (sigversion = TAPSCRIPT) && negb minimal) else Fails SCRIPT_ERR_TAPSCRIPT_MINIMALIF;
        guard! negb (bool_decide (sigversion = WITNESS_V0) && flag_set flags SCRIPT_VERIFY_MINIMALIF && negb minimal)
          else Fails SCRIPT_ERR_MINIMALIF;
        Ok (with_conditions (with_stack m s) (push_back (vfExec m) (xorb negated (CastToBool vch))))
    end
  else Ok (with_conditions m (push_back (vfExec m) false)).

Definition else_op (m : machine) : outcome machine :=
  guard! negb (cs_empty (vfExec m)) else Fails SCRIPT_ERR_UNBALANCED_CONDITIONAL;
  c ← asserted (toggle_top (vfExec m));
  Ok (with_conditions m c).

Definition endif_op (m : machine) : outcome machine :=
  guard! negb (cs_empty (vfExec m)) else Fails SCRIPT_ERR_UNBALANCED_CONDITIONAL;
  c ← asserted (pop_back (vfExec m));
  Ok (with_conditions m c).

Definition verify_op (s : list valtype) : outcome (list valtype) :=
  match s with
  | [] => stack_error
  | vch :: s => guard! CastToBool vch else Fails SCRIPT_ERR_VERIFY; Ok s
  end.

Definition on_stack (m : machine) (f : list valtype -> outcome (list valtype)) : outcome machine :=
  s ← f (stack m); Ok (with_stack m s).

(** *** One instruction *)

Definition is_disabled (opcode : opcodetype) : bool :=
  match opcode with
  | OP_CAT | OP_SUBSTR | OP_LEFT | OP_RIGHT | OP_INVERT | OP_AND | OP_OR | OP_XOR | OP_2MUL | OP_2DIV | OP_MUL | OP_DIV | OP_MOD
  | OP_LSHIFT | OP_RSHIFT => true
  | _ => false
  end.

(** The switch.  [pc] is the script after the instruction, [opcode_pos] the number of the
    instruction. *)
Definition exec (flags : Z) (sigversion : SigVersion) (opcode : opcodetype) (fExec : bool) (pc : bytes) (opcode_pos : Z) (m : machine)
  : outcome machine :=
  let fRequireMinimal := flag_set flags SCRIPT_VERIFY_MINIMALDATA in
  match opcode with
  | OP_1NEGATE | OP_1 | OP_2 | OP_3 | OP_4 | OP_5 | OP_6 | OP_7 | OP_8 | OP_9 | OP_10 | OP_11 | OP_12 | OP_13 | OP_14 | OP_15 | OP_16 =>
      Ok (with_stack m (CScriptNum_serialize (value opcode - (value OP_1 - 1)) :: stack m))
  | OP_NOP => Ok m
  | OP_CHECKLOCKTIMEVERIFY => locktime_op flags fRequireMinimal m
  | OP_CHECKSEQUENCEVERIFY => sequence_op flags fRequireMinimal m
  | OP_NOP1 | OP_NOP4 | OP_NOP5 | OP_NOP6 | OP_NOP7 | OP_NOP8 | OP_NOP9 | OP_NOP10 =>
      guard! negb (flag_set flags SCRIPT_VERIFY_DISCOURAGE_UPGRADABLE_NOPS) else Fails SCRIPT_ERR_DISCOURAGE_UPGRADABLE_NOPS;
      Ok m
  | OP_IF => if_op flags sigversion fExec false m
  | OP_NOTIF => if_op flags sigversion fExec true m
  | OP_ELSE => else_op m
  | OP_ENDIF => endif_op m
  | OP_VERIFY => on_stack m verify_op
  | OP_RETURN => Throw (Fails SCRIPT_ERR_OP_RETURN)
  | OP_TOALTSTACK =>
      match stack m with x :: s => Ok (with_stacks m s (x :: altstack m)) | _ => stack_error end
  | OP_FROMALTSTACK =>
      match altstack m with x :: a => Ok (with_stacks m (x :: stack m) a) | _ => Throw (Fails SCRIPT_ERR_INVALID_ALTSTACK_OPERATION) end
  | OP_2DROP | OP_2DUP | OP_3DUP | OP_2OVER | OP_2ROT | OP_2SWAP | OP_IFDUP | OP_DEPTH | OP_DROP | OP_DUP | OP_NIP | OP_OVER
  | OP_PICK | OP_ROLL | OP_ROT | OP_SWAP | OP_TUCK | OP_SIZE | OP_EQUAL | OP_EQUALVERIFY =>
      on_stack m (stack_op opcode fRequireMinimal)
  | OP_1ADD | OP_1SUB | OP_NEGATE | OP_ABS | OP_NOT | OP_0NOTEQUAL => on_stack m (unary_op opcode fRequireMinimal)
  | OP_ADD | OP_SUB | OP_BOOLAND | OP_BOOLOR | OP_NUMEQUAL | OP_NUMEQUALVERIFY | OP_NUMNOTEQUAL | OP_LESSTHAN | OP_GREATERTHAN
  | OP_LESSTHANOREQUAL | OP_GREATERTHANOREQUAL | OP_MIN | OP_MAX => on_stack m (binary_op opcode fRequireMinimal)
  | OP_WITHIN => on_stack m (within_op fRequireMinimal)
  | OP_RIPEMD160 => on_stack m (hash_op ripemd160)
  | OP_SHA1 => on_stack m (hash_op sha1)
  | OP_SHA256 => on_stack m (hash_op sha256)
  | OP_HASH160 => on_stack m (hash_op hash160)
  | OP_HASH256 => on_stack m (hash_op hash256)
  | OP_CODESEPARATOR => Ok (with_execdata (with_code m pc) (with_codeseparator_pos (execdata m) opcode_pos))
  | OP_CHECKSIG => checksig_op flags sigversion false m
  | OP_CHECKSIGVERIFY => checksig_op flags sigversion true m
  | OP_CHECKSIGADD => checksigadd_op flags sigversion fRequireMinimal m
  | OP_CHECKMULTISIG => checkmultisig_op flags sigversion fRequireMinimal false m
  | OP_CHECKMULTISIGVERIFY => checkmultisig_op flags sigversion fRequireMinimal true m
  | _ => Throw (Fails SCRIPT_ERR_BAD_OPCODE)
  end.

(** The body of the loop after the instruction is read, with its checks. *)
Definition step (flags : Z) (sigversion : SigVersion) (opcode : Z) (vchPushValue pc : bytes) (opcode_pos : Z) (m : machine)
  : outcome machine :=
  let fExec := all_true (vfExec m) in
  guard! negb (MAX_SCRIPT_ELEMENT_SIZE <? size vchPushValue) else Fails SCRIPT_ERR_PUSH_SIZE;
  let counted := (bool_decide (sigversion = BASE) || bool_decide (sigversion = WITNESS_V0)) && (value OP_16 <? opcode) in
  let m := if counted then with_op_count m (nOpCount m + 1) else m in
  guard! negb (counted && (MAX_OPS_PER_SCRIPT <? nOpCount m)) else Fails SCRIPT_ERR_OP_COUNT;
  guard! negb (from_option is_disabled false (of_value opcode)) else Fails SCRIPT_ERR_DISABLED_OPCODE;
  guard! negb ((opcode =? value OP_CODESEPARATOR) && bool_decide (sigversion = BASE) && flag_set flags SCRIPT_VERIFY_CONST_SCRIPTCODE)
    else Fails SCRIPT_ERR_OP_CODESEPARATOR;
  m ←
    (if fExec && (0 <=? opcode) && (opcode <=? OP_PUSHDATA4) then
       minimal ← (if flag_set flags SCRIPT_VERIFY_MINIMALDATA then asserted (CheckMinimalPush vchPushValue opcode) else Ok true);
       guard! (minimal : bool) else Fails SCRIPT_ERR_MINIMALDATA;
       Ok (with_stack m (vchPushValue :: stack m))
     else if fExec || ((value OP_IF <=? opcode) && (opcode <=? value OP_ENDIF)) then
       match of_value opcode with
       | Some o => exec flags sigversion o fExec pc opcode_pos m
       | None => Throw (Fails SCRIPT_ERR_BAD_OPCODE)
       end
     else Ok m);
  guard! negb (MAX_STACK_SIZE <? Z.of_nat (length (stack m)) + Z.of_nat (length (altstack m))) else Fails SCRIPT_ERR_STACK_SIZE;
  Ok m.

(** [for (; pc < pend; ++opcode_pos)]; an instruction is at least one byte. *)
Fixpoint run (fuel : nat) (flags : Z) (sigversion : SigVersion) (pc : bytes) (opcode_pos : Z) (m : machine) : outcome machine :=
  match pc with
  | [] => Ok m
  | _ =>
      match fuel with
      | O => Throw Aborts
      | S fuel =>
          match GetScriptOp pc with
          | None => Throw (Fails SCRIPT_ERR_BAD_OPCODE)
          | Some (opcode, vchPushValue, pc) =>
              m ← step flags sigversion opcode vchPushValue pc opcode_pos m;
              run fuel flags sigversion pc (wrapu 32 (opcode_pos + 1)) m
          end
      end
  end.

(** The machine before the first instruction. *)
Definition start (s : list valtype) (script : bytes) (d : ScriptExecutionData) : machine :=
  {| stack := s; altstack := []; vfExec := no_conditions; nOpCount := 0; pbegincodehash := script;
     execdata := with_codeseparator_pos d 0xFFFFFFFF |}.

(** The stack after the script and what became of the execution data. *)
Definition EvalScript (s : list valtype) (script : bytes) (flags : Z) (sigversion : SigVersion) (d : ScriptExecutionData)
  : outcome (list valtype * ScriptExecutionData) :=
  guard! negb (bool_decide (sigversion = TAPROOT)) else Aborts;
  guard! negb ((bool_decide (sigversion = BASE) || bool_decide (sigversion = WITNESS_V0)) && (MAX_SCRIPT_SIZE <? size script))
    else Fails SCRIPT_ERR_SCRIPT_SIZE;
  m ← run (length script) flags sigversion script 0 (start s script d);
  guard! cs_empty (vfExec m) else Fails SCRIPT_ERR_UNBALANCED_CONDITIONAL;
  Ok (stack m, execdata m).

(** ** Witness programs *)

Definition IsOpSuccess (opcode : Z) : bool :=
  (opcode =? 80) || (opcode =? 98) || ((126 <=? opcode) && (opcode <=? 129)) ||
  ((131 <=? opcode) && (opcode <=? 134)) || ((137 <=? opcode) && (opcode <=? 138)) ||
  ((141 <=? opcode) && (opcode <=? 142)) || ((149 <=? opcode) && (opcode <=? 153)) ||
  ((187 <=? opcode) && (opcode <=? 254)).

(** [while (pc < exec_script.end())]: is there an [OP_SUCCESSx]?  An instruction that cannot
    be read is an error, unless one comes before it. *)
Fixpoint has_op_success (fuel : nat) (pc : bytes) : outcome bool :=
  match pc with
  | [] => Ok false
  | _ =>
      match fuel with
      | O => Throw Aborts
      | S fuel =>
          match GetScriptOp pc with
          | None => Throw (Fails SCRIPT_ERR_BAD_OPCODE)
          | Some (opcode, _, pc) => if IsOpSuccess opcode then Ok true else has_op_success fuel pc
          end
      end
  end.

(** The stack elements are checked and the script is run; it must leave exactly one element,
    which is true. *)
Definition run_witness_script (s : list valtype) (exec_script : bytes) (flags : Z) (sigversion : SigVersion) (d : ScriptExecutionData)
  : outcome () :=
  guard! forallb (fun elem => negb (MAX_SCRIPT_ELEMENT_SIZE <? size elem)) s else Fails SCRIPT_ERR_PUSH_SIZE;
  '(s, _) ← EvalScript s exec_script flags sigversion d;
  match s with
  | [top] => guard! CastToBool top else Fails SCRIPT_ERR_EVAL_FALSE; Ok ()
  | _ => Throw (Fails SCRIPT_ERR_CLEANSTACK)
  end.

Definition ExecuteWitnessScript (s : list valtype) (exec_script : bytes) (flags : Z) (sigversion : SigVersion) (d : ScriptExecutionData)
  : outcome () :=
  if decide (sigversion = TAPSCRIPT) then
    success ← has_op_success (length exec_script) exec_script;
    if (success : bool) then
      guard! negb (flag_set flags SCRIPT_VERIFY_DISCOURAGE_OP_SUCCESS) else Fails SCRIPT_ERR_DISCOURAGE_OP_SUCCESS;
      Ok ()
    else
      guard! negb (MAX_STACK_SIZE <? Z.of_nat (length s)) else Fails SCRIPT_ERR_STACK_SIZE;
      run_witness_script s exec_script flags sigversion d
  else run_witness_script s exec_script flags sigversion d.

Definition string_bytes (s : string) : bytes := (fun a => Z.of_nat (Ascii.nat_of_ascii a)) <$> String.list_ascii_of_string s.

(** What a [HashWriter] made by [TaggedHash] holds before anything else is written to it. *)
Definition TaggedHash (tag : string) : bytes := (sha256 (string_bytes tag) ++ sha256 (string_bytes tag))%list.

Definition ComputeTapleafHash (leaf_version : Z) (script : bytes) : uint256 :=
  sha256 (TaggedHash "TapLeaf" ++ ser_writedata8 leaf_version ++ WriteCompactSize (size script) ++ script)%list.

Fixpoint lexicographical_compare (a b : bytes) : bool :=
  match a, b with
  | _, [] => false
  | [], _ => true
  | x :: a, y :: b => if x <? y then true else if y <? x then false else lexicographical_compare a b
  end.

Definition ComputeTapbranchHash (a b : bytes) : uint256 :=
  sha256 (TaggedHash "TapBranch" ++ if lexicographical_compare a b then a ++ b else b ++ a)%list.

Fixpoint taproot_path (path_len : nat) (control : bytes) (k : uint256) : uint256 :=
  match path_len with
  | O => k
  | S n => taproot_path n (drop 32 control) (ComputeTapbranchHash k (take 32 control))
  end.

Definition ComputeTaprootMerkleRoot (control : bytes) (tapleaf_hash : uint256) : option uint256 :=
  if (TAPROOT_CONTROL_BASE_SIZE <=? size control) && (size control <=? TAPROOT_CONTROL_MAX_SIZE)
     && ((size control - TAPROOT_CONTROL_BASE_SIZE) mod TAPROOT_CONTROL_NODE_SIZE =? 0) then
    let path_len := (size control - TAPROOT_CONTROL_BASE_SIZE) / TAPROOT_CONTROL_NODE_SIZE in
    Some (taproot_path (Z.to_nat path_len) (drop (Z.to_nat TAPROOT_CONTROL_BASE_SIZE) control) tapleaf_hash)
  else None.

Definition VerifyTaprootCommitment (control program : bytes) (tapleaf_hash : uint256) : option bool :=
  if (TAPROOT_CONTROL_BASE_SIZE <=? size control) && (32 <=? size program) then
    merkle_root ← ComputeTaprootMerkleRoot control tapleaf_hash;
    Some (CheckTapTweak program (take 32 (drop 1 control)) merkle_root (negb (Z.land (byte_at control 0) 1 =? 0)))
  else None.

(** The script path: [s] is the rest of the witness under the control block and the script. *)
Definition taproot_script_path (witness s : list valtype) (control script program : bytes) (flags : Z) (d : ScriptExecutionData)
  : outcome () :=
  guard! negb ((size control <? TAPROOT_CONTROL_BASE_SIZE) || (TAPROOT_CONTROL_MAX_SIZE <? size control)
               || negb ((size control - TAPROOT_CONTROL_BASE_SIZE) mod TAPROOT_CONTROL_NODE_SIZE =? 0))
    else Fails SCRIPT_ERR_TAPROOT_WRONG_CONTROL_SIZE;
  let leaf_version := Z.land (byte_at control 0) TAPROOT_LEAF_MASK in
  let tapleaf_hash := ComputeTapleafHash leaf_version script in
  committed ← asserted (VerifyTaprootCommitment control program tapleaf_hash);
  guard! (committed : bool) else Fails SCRIPT_ERR_WITNESS_PROGRAM_MISMATCH;
  let d := with_tapleaf_hash d tapleaf_hash in
  if leaf_version =? TAPROOT_LEAF_TAPSCRIPT then
    let weight := size (VectorFormatter_Ser Serialize_bytes witness) + VALIDATION_WEIGHT_OFFSET in
    ExecuteWitnessScript s script flags TAPSCRIPT (with_validation_weight_left d weight)
  else
    guard! negb (flag_set flags SCRIPT_VERIFY_DISCOURAGE_UPGRADABLE_TAPROOT_VERSION) else Fails SCRIPT_ERR_DISCOURAGE_UPGRADABLE_TAPROOT_VERSION;
    Ok ().

(** The annex is the last element of the witness, if it starts with its tag and is not alone. *)
Definition drop_annex (s : list valtype) (d : ScriptExecutionData) : list valtype * ScriptExecutionData :=
  match s with
  | annex :: (x :: s) =>
      if negb (size annex =? 0) && (byte_at annex 0 =? ANNEX_TAG)
      then (x :: s, with_annex d (Some (sha256 (Serialize_bytes annex))))
      else (annex :: x :: s, with_annex d None)
  | _ => (s, with_annex d None)
  end.

Definition VerifyTaproot (witness : list valtype) (program : bytes) (flags : Z) : outcome () :=
  if negb (flag_set flags SCRIPT_VERIFY_TAPROOT) then Ok ()
  else
    guard! negb (length witness =? 0)%nat else Fails SCRIPT_ERR_WITNESS_PROGRAM_WITNESS_EMPTY;
    let '(s, d) := drop_annex (reverse witness) no_execdata in
    match s with
    | [sig] => _ ← CheckSchnorrSignature sig program TAPROOT d; Ok ()
    | control :: script :: s => taproot_script_path witness s control script program flags d
    | [] => Throw Aborts
    end.

Definition P2PKH_script (keyhash : bytes) : bytes :=
  ([value OP_DUP; value OP_HASH160] ++ push_data keyhash ++ [value OP_EQUALVERIFY; value OP_CHECKSIG])%list.

Definition VerifyWitnessProgram (witness : list valtype) (witversion : Z) (program : bytes) (flags : Z) (is_p2sh : bool) : outcome () :=
  if witversion =? 0 then
    if size program =? WITNESS_V0_SCRIPTHASH_SIZE then
      match reverse witness with
      | [] => Throw (Fails SCRIPT_ERR_WITNESS_PROGRAM_WITNESS_EMPTY)
      | exec_script :: s =>
          guard! bool_decide (sha256 exec_script = program) else Fails SCRIPT_ERR_WITNESS_PROGRAM_MISMATCH;
          ExecuteWitnessScript s exec_script flags WITNESS_V0 no_execdata
      end
    else if size program =? WITNESS_V0_KEYHASH_SIZE then
      guard! (length witness =? 2)%nat else Fails SCRIPT_ERR_WITNESS_PROGRAM_MISMATCH;
      ExecuteWitnessScript (reverse witness) (P2PKH_script program) flags WITNESS_V0 no_execdata
    else Throw (Fails SCRIPT_ERR_WITNESS_PROGRAM_WRONG_LENGTH)
  else if (witversion =? 1) && (size program =? WITNESS_V1_TAPROOT_SIZE) && negb is_p2sh then
    VerifyTaproot witness program flags
  else
    guard! negb (flag_set flags SCRIPT_VERIFY_DISCOURAGE_UPGRADABLE_WITNESS_PROGRAM) else Fails SCRIPT_ERR_DISCOURAGE_UPGRADABLE_WITNESS_PROGRAM;
    Ok ().

(** ** [VerifyScript] *)

(** The script must leave a true element on the stack. *)
Definition left_true (s : list valtype) : outcome () :=
  match s with
  | [] => Throw (Fails SCRIPT_ERR_EVAL_FALSE)
  | top :: _ => guard! CastToBool top else Fails SCRIPT_ERR_EVAL_FALSE; Ok ()
  end.

(** [stack.resize(1)] keeps the bottom. *)
Definition resize1 (s : list valtype) : list valtype := [default [] (last s)].

(** A witness program, bare or under a script hash: the [scriptSig] must be [expected], with
    the error given.  The new stack and [hadWitness]. *)
Definition witness_part (script scriptSig expected : bytes) (e : ScriptError) (witness : list valtype) (flags : Z) (is_p2sh : bool)
  (s : list valtype) (hadWitness : bool) : outcome (list valtype * bool) :=
  if flag_set flags SCRIPT_VERIFY_WITNESS then
    match IsWitnessProgram script with
    | Some (version, program) =>
        guard! bool_decide (scriptSig = expected) else Fails e;
        _ ← VerifyWitnessProgram witness version program flags is_p2sh;
        Ok (resize1 s, true)
    | None => Ok (s, hadWitness)
    end
  else Ok (s, hadWitness).

Definition p2sh_part (scriptSig scriptPubKey : bytes) (witness : list valtype) (flags : Z) (stackCopy s : list valtype) (hadWitness : bool)
  : outcome (list valtype * bool) :=
  if flag_set flags SCRIPT_VERIFY_P2SH && IsPayToScriptHash scriptPubKey then
    guard! IsPushOnly scriptSig else Fails SCRIPT_ERR_SIG_PUSHONLY;
    match stackCopy with
    | [] => Throw Aborts
    | pubKey2 :: s =>
        '(s, _) ← EvalScript s pubKey2 flags BASE no_execdata;
        _ ← left_true s;
        witness_part pubKey2 scriptSig (push_data pubKey2) SCRIPT_ERR_WITNESS_MALLEATED_P2SH witness flags true s hadWitness
    end
  else Ok (s, hadWitness).

Definition VerifyScript (scriptSig scriptPubKey : bytes) (witness : list valtype) (flags : Z) : outcome () :=
  guard! negb (flag_set flags SCRIPT_VERIFY_SIGPUSHONLY && negb (IsPushOnly scriptSig)) else Fails SCRIPT_ERR_SIG_PUSHONLY;
  '(stackCopy, _) ← EvalScript [] scriptSig flags BASE no_execdata;
  '(s, _) ← EvalScript stackCopy scriptPubKey flags BASE no_execdata;
  _ ← left_true s;
  '(s, hadWitness) ← witness_part scriptPubKey scriptSig [] SCRIPT_ERR_WITNESS_MALLEATED witness flags false s false;
  '(s, hadWitness) ← p2sh_part scriptSig scriptPubKey witness flags stackCopy s hadWitness;
  guard! negb (flag_set flags SCRIPT_VERIFY_CLEANSTACK)
         || (flag_set flags SCRIPT_VERIFY_P2SH && flag_set flags SCRIPT_VERIFY_WITNESS) else Aborts;
  guard! negb (flag_set flags SCRIPT_VERIFY_CLEANSTACK) || (length (s : list valtype) =? 1)%nat else Fails SCRIPT_ERR_CLEANSTACK;
  guard! negb (flag_set flags SCRIPT_VERIFY_WITNESS) || flag_set flags SCRIPT_VERIFY_P2SH else Aborts;
  guard! negb (flag_set flags SCRIPT_VERIFY_WITNESS && negb (hadWitness : bool) && negb (length witness =? 0)%nat)
    else Fails SCRIPT_ERR_WITNESS_UNEXPECTED;
  Ok ().
End Run.

(** ** The condition stack is a list of booleans *)

Inductive cond_op := Push (f : bool) | Pop | Toggle.

Definition condition_op (c : ConditionStack) (o : cond_op) : option ConditionStack :=
  match o with
  | Push f => Some (push_back c f)
  | Pop => pop_back c
  | Toggle => toggle_top c
  end.

(** The vector it stands for, with the innermost condition first. *)
Definition vector_op (l : list bool) (o : cond_op) : option (list bool) :=
  match o, l with
  | Push f, _ => Some (f :: l)
  | Pop, _ :: l => Some l
  | Toggle, f :: l => Some (negb f :: l)
  | _, [] => None
  end.

Definition run_ops {S} (op : S -> cond_op -> option S) (ops : list cond_op) (s : S) : option S :=
  foldl (fun s o => s ← s; op s o) (Some s) ops.

(** The position of the first false, counted from the outermost condition. *)
Fixpoint first_false (l : list bool) : Z :=
  match l with
  | [] => NO_FALSE
  | f :: l => if first_false l =? NO_FALSE then if f then NO_FALSE else Z.of_nat (length l) else first_false l
  end.

Definition represents (c : ConditionStack) (l : list bool) : Prop :=
  m_stack_size c = Z.of_nat (length l) /\ m_first_false_pos c = first_false l.

Lemma first_false_range l : first_false l = NO_FALSE \/ 0 <= first_false l < Z.of_nat (length l).
Proof. induction l as [|[] l IH]; cbn [first_false length]; [by left|..]; destruct (Z.eqb_spec (first_false l) NO_FALSE); lia. Qed.

Lemma first_false_all l : Z.of_nat (length l) < NO_FALSE -> (first_false l =? NO_FALSE) = forallb id l.
Proof.
  induction l as [|f l IH]; intros Hl; [done|]. cbn [length] in Hl. cbn [first_false forallb id]. rewrite <- IH by lia.
  destruct (Z.eqb_spec (first_false l) NO_FALSE) as [E|E]; destruct f; cbn [andb]; try lia.
Qed.

Lemma represents_op c l o :
  represents c l -> Z.of_nat (length l) + 1 < NO_FALSE ->
  match condition_op c o, vector_op l o with
  | Some c', Some l' => represents c' l' /\ (length l' <= length l + 1)%nat
  | None, None => True
  | _, _ => False
  end.
Proof.
  intros [Hs Hf] Hl. pose proof (first_false_range l) as Hr. unfold NO_FALSE in *.
  destruct o as [f| |]; cbn [condition_op vector_op]; unfold pop_back, toggle_top, push_back; rewrite ?Hs, ?Hf.
  - split; [|cbn; lia]. split; cbn [m_stack_size m_first_false_pos length first_false]; [unfold wrapu; rewrite Z.mod_small; lia|].
    unfold NO_FALSE. by destruct (Z.eqb_spec (first_false l) (2 ^ 32 - 1)), f.
  - destruct l as [|f l]; [done|]. destruct (Z.ltb_spec 0 (Z.of_nat (length (f :: l)))); [|cbn in *; lia]. split; [|cbn; lia].
    split; cbn [m_stack_size m_first_false_pos length]; [lia|]. cbn [first_false length] in *. pose proof (first_false_range l). unfold NO_FALSE in *.
    destruct (Z.eqb_spec (first_false l) (2 ^ 32 - 1)), f; cbn [negb]; repeat match goal with |- context [?a =? ?b] => destruct (Z.eqb_spec a b) end; lia.
  - destruct l as [|f l]; [done|]. destruct (Z.ltb_spec 0 (Z.of_nat (length (f :: l)))); [|cbn in *; lia]. split; [|cbn; lia].
    split; cbn [m_stack_size m_first_false_pos length]; [lia|]. cbn [first_false length] in *. pose proof (first_false_range l). unfold NO_FALSE in *.
    destruct (Z.eqb_spec (first_false l) (2 ^ 32 - 1)), f; cbn [negb]; repeat match goal with |- context [?a =? ?b] => destruct (Z.eqb_spec a b) end; lia.
Qed.

Lemma run_ops_cons {S} (op : S -> cond_op -> option S) o ops s : run_ops op (o :: ops) s = (s' ← op s o; run_ops op ops s').
Proof. unfold run_ops. cbn. destruct (op s o); cbn; [done|]. by induction ops. Qed.

Lemma represents_run ops c l :
  represents c l -> Z.of_nat (length l) + Z.of_nat (length ops) < NO_FALSE ->
  match run_ops condition_op ops c, run_ops vector_op ops l with
  | Some c', Some l' => represents c' l' /\ (length l' <= length l + length ops)%nat
  | None, None => True
  | _, _ => False
  end.
Proof.
  revert c l. induction ops as [|o ops IH]; intros c l Hr Hl; [by split; [|cbn; lia]|]. rewrite !run_ops_cons.
  pose proof (represents_op c l o Hr) as Hstep. cbn [length] in Hl. specialize (Hstep ltac:(lia)).
  destruct (condition_op c o) as [c'|], (vector_op l o) as [l'|]; try done. destruct Hstep as [Hr' Hl']. cbn [mbind option_bind].
  specialize (IH c' l' Hr' ltac:(lia)). destruct (run_ops condition_op ops c'), (run_ops vector_op ops l'); try done.
  destruct IH as [? ?]. split; [done|]. cbn [length]. lia.
Qed.

(** C16: The two numbers of [ConditionStack] stand for the vector of booleans its comment speaks
    of: after any sequence of fewer than 2^32 - 1 operations it asserts exactly when the vector
    has no element to pop or toggle, it is empty when the vector is, and it says that all are
    true when all elements of the vector are. *)
Theorem ConditionStack_is_vector ops :
  Z.of_nat (length ops) < NO_FALSE ->
  match run_ops condition_op ops no_conditions, run_ops vector_op ops [] with
  | Some c, Some l => cs_empty c = (length l =? 0)%nat /\ all_true c = forallb id l
  | None, None => True
  | _, _ => False
  end.
Proof.
  intros Hl. pose proof (represents_run ops no_conditions [] (conj eq_refl eq_refl) Hl) as Hr.
  destruct (run_ops condition_op ops no_conditions) as [c|], (run_ops vector_op ops []) as [l|]; try done.
  destruct Hr as [[Hs Hf] Hlen]. cbn [length] in Hlen. split.
  - unfold cs_empty. rewrite Hs. destruct l; [done|]. cbn [length]. by destruct (Z.eqb_spec (Z.of_nat (S (length l))) 0); [lia|].
  - unfold all_true. rewrite Hf. apply first_false_all. lia.
Qed.

Lemma ConditionStack_is_vector_witness :
  all_true <$> run_ops condition_op [Push true; Push false; Push true; Toggle; Pop; Toggle] no_conditions = Some true.
Proof.
  pose proof (ConditionStack_is_vector [Push true; Push false; Push true; Toggle; Pop; Toggle] ltac:(vm_compute; reflexivity)) as H.
  destruct (run_ops condition_op _ _) as [c|]; [|destruct H]. destruct H as [_ H]. cbn. f_equal. exact H.
Defined.

(** ** Examples of what the interpreter is given *)

(** A sum in place of each hash. *)
Definition sample_digest (n : nat) (b : bytes) : bytes := le_bytes n (foldl (fun h x => (h * 257 + x + 1) mod 2 ^ (8 * Z.of_nat n)) 7 b).

Definition sample_crypto : Crypto :=
  {| sha256 := sample_digest 32; ripemd160 := sample_digest 20; sha1 := sample_digest 20; CheckLowS := fun _ => true;
     CheckTapTweak := fun output internal merkle_root parity => bool_decide (output = sample_digest 32 (internal ++ merkle_root)%list) |}.

(** A compressed key, and a signature in the encoding of the network with its hash type. *)
Definition sample_key : bytes := 2 :: replicate 32 5.
Definition sample_signature (r : Z) : bytes := [0x30; 6; 2; 1; r; 2; 1; 1].

(** The key signs one message only. *)
Definition sample_checker : BaseSignatureChecker :=
  {| CheckECDSASignature sig pubkey code sv := Some (bool_decide (pubkey = sample_key /\ sig = (sample_signature 9 ++ [SIGHASH_ALL])%list));
     CheckSchnorrSignature sig pubkey sv d := Throw (Fails SCRIPT_ERR_SCHNORR_SIG);
     CheckLockTime nLockTime := nLockTime <? 100;
     CheckSequence nSequence := nSequence <? 10 |}.
