(* ===== verification/SoftForks.v ===== *)
(** * Flags are soft forks (src/src/script/interpreter.h)

    The flags of script verification are declared with a promise: the scripts accepted under
    the flags [A | B] are among those accepted under [A].  A node that does not know a new
    flag follows a chain whose blocks obey it because of that.  It holds of every part of the
    interpreter, and the parts compute the same stack. *)

From stdpp Require Import strings.
From S2P Require Import Prelude Serialize Script TxVerify Interpreter.

(** What [r] returns, [r'] returns. *)
Definition ok_le {A} (r r' : outcome A) : Prop := forall a, r = Ok a -> r' = Ok a.

#[export] Instance ok_le_preorder A : PreOrder (@ok_le A).
Proof. split; [by intros r a|]. intros r1 r2 r3 H12 H23 a Ha. auto. Qed.

Lemma ok_le_refl {A} (r : outcome A) : ok_le r r.
Proof. done. Qed.

Lemma ok_le_throw {A} e (r : outcome A) : ok_le (Throw e) r.
Proof. by intros a. Qed.

Lemma ok_le_bind {A B} (r r' : outcome A) (k k' : A -> outcome B) :
  ok_le r r' -> (forall a, ok_le (k a) (k' a)) -> ok_le (mbind k r) (mbind k' r').
Proof. intros Hr Hk b (a & Ha & Hb)%bind_ok. apply bind_ok. exists a. split; [by apply Hr|by apply Hk]. Qed.

(** A guard that is implied. *)
Lemma ok_le_guard {A} (b b' : bool) (r r' : outcome A) e e' :
  (b = true -> b' = true) -> ok_le r r' -> ok_le (guard! b else e; r) (guard! b' else e'; r').
Proof. destruct b; [intros ->|]; auto using ok_le_throw. Qed.

Lemma ok_le_if {A} (b : bool) (r1 r1' r2 r2' : outcome A) :
  ok_le r1 r1' -> ok_le r2 r2' -> ok_le (if b then r1 else r2) (if b then r1' else r2').
Proof. by destruct b. Qed.

Create HintDb ok_le.
#[export] Hint Resolve ok_le_refl ok_le_throw : ok_le.

(** [A] asks for no more than [B]. *)
Definition flags_le (A B : Z) : Prop := forall f, flag_set A f = true -> flag_set B f = true.

Lemma flags_le_lor A B : flags_le A (Z.lor A B).
Proof.
  intros f. unfold flag_set. rewrite !negb_true_iff, !Z.eqb_neq. intros HA HAB. apply HA.
  apply Z.bits_inj'. intros i Hi. apply (f_equal (fun z => Z.testbit z i)) in HAB.
  rewrite Z.land_spec, Z.lor_spec, Z.bits_0 in HAB. rewrite Z.land_spec, Z.bits_0.
  by destruct (Z.testbit A i), (Z.testbit f i).
Qed.

Section Monotone.
Context `{Crypto} `{BaseSignatureChecker}.
Variables A B : Z.
Hypothesis HAB : flags_le A B.

(** Case analysis on the flags of [A]; those that are set are set in [B]. *)
Ltac by_flags :=
  repeat match goal with
  | |- context [flag_set A ?f] =>
      let E := fresh "E" in destruct (flag_set A f) eqn:E; [rewrite (HAB _ E)|]; cbn [negb andb orb]
  end; rewrite ?andb_false_r; cbn [negb andb orb]; auto.

(** One step of comparing two programs of the same shape. *)
Ltac mono :=
  repeat first
    [ done
    | progress auto with ok_le
    | apply ok_le_bind; [|intros ?; try (case_match; [])]
    | apply ok_le_guard; [by_flags|]
    | apply ok_le_if ].

Lemma CheckSignatureEncoding_mono vchSig : ok_le (CheckSignatureEncoding vchSig B) (CheckSignatureEncoding vchSig A).
Proof.
  unfold CheckSignatureEncoding. mono.
  by_flags; intros [] Hb; [by rewrite Hb|done].
Qed.
Hint Resolve CheckSignatureEncoding_mono : ok_le.

Lemma CheckPubKeyEncoding_mono vchPubKey sv : ok_le (CheckPubKeyEncoding vchPubKey B sv) (CheckPubKeyEncoding vchPubKey A sv).
Proof. unfold CheckPubKeyEncoding. mono. Qed.
Hint Resolve CheckPubKeyEncoding_mono : ok_le.

Lemma drop_signature_mono sv code vchSig : ok_le (drop_signature B sv code vchSig) (drop_signature A sv code vchSig).
Proof. unfold drop_signature. case_decide; [|done]. case_match. mono. Qed.
Hint Resolve drop_signature_mono : ok_le.

Lemma drop_signatures_mono sv sigs code : ok_le (drop_signatures B sv code sigs) (drop_signatures A sv code sigs).
Proof. revert code. induction sigs; intros code; cbn; mono. Qed.
Hint Resolve drop_signatures_mono : ok_le.

Lemma EvalChecksig_mono sig pubkey code d sv :
  ok_le (EvalChecksig sig pubkey code d B sv) (EvalChecksig sig pubkey code d A sv).
Proof. destruct sv; cbn; unfold EvalChecksigPreTapscript, EvalChecksigTapscript; mono. Qed.
Hint Resolve EvalChecksig_mono : ok_le.

Lemma multisig_loop_mono sv code keys sigs :
  ok_le (multisig_loop B sv code sigs keys) (multisig_loop A sv code sigs keys).
Proof. revert sigs. induction keys; intros [|sig sigs]; cbn; mono. Qed.
Hint Resolve multisig_loop_mono : ok_le.

Lemma multisig_cleanup_mono b i ikey2 s : ok_le (multisig_cleanup B b i ikey2 s) (multisig_cleanup A b i ikey2 s).
Proof. revert ikey2 s. induction i; intros ikey2 [|x s]; cbn; mono. Qed.
Hint Resolve multisig_cleanup_mono : ok_le.

(** A number that is read under the stricter rule is the same number. *)
Lemma CScriptNum_of_vch_mono vch k :
  ok_le (caught (CScriptNum_of_vch vch (flag_set B SCRIPT_VERIFY_MINIMALDATA) k))
        (caught (CScriptNum_of_vch vch (flag_set A SCRIPT_VERIFY_MINIMALDATA) k)).
Proof. unfold CScriptNum_of_vch. case_match; [done|]. by_flags; case_match; cbn; auto with ok_le. Qed.
Hint Resolve CScriptNum_of_vch_mono : ok_le.

Lemma num_mono vch :
  ok_le (num (flag_set B SCRIPT_VERIFY_MINIMALDATA) vch) (num (flag_set A SCRIPT_VERIFY_MINIMALDATA) vch).
Proof. apply CScriptNum_of_vch_mono. Qed.
Hint Resolve num_mono : ok_le.

Lemma pick_or_roll_mono roll s :
  ok_le (pick_or_roll roll (flag_set B SCRIPT_VERIFY_MINIMALDATA) s) (pick_or_roll roll (flag_set A SCRIPT_VERIFY_MINIMALDATA) s).
Proof. destruct s as [|x [|y s]]; cbn [pick_or_roll]; mono. Qed.
Hint Resolve pick_or_roll_mono : ok_le.

Lemma stack_op_mono opcode s :
  ok_le (stack_op opcode (flag_set B SCRIPT_VERIFY_MINIMALDATA) s) (stack_op opcode (flag_set A SCRIPT_VERIFY_MINIMALDATA) s).
Proof. unfold stack_op. destruct opcode; mono. Qed.

Lemma unary_op_mono opcode s :
  ok_le (unary_op opcode (flag_set B SCRIPT_VERIFY_MINIMALDATA) s) (unary_op opcode (flag_set A SCRIPT_VERIFY_MINIMALDATA) s).
Proof. unfold unary_op. destruct s; mono. Qed.

Lemma binary_op_mono opcode s :
  ok_le (binary_op opcode (flag_set B SCRIPT_VERIFY_MINIMALDATA) s) (binary_op opcode (flag_set A SCRIPT_VERIFY_MINIMALDATA) s).
Proof. unfold binary_op. destruct s as [|x [|y s]]; mono. Qed.

Lemma within_op_mono s :
  ok_le (within_op (flag_set B SCRIPT_VERIFY_MINIMALDATA) s) (within_op (flag_set A SCRIPT_VERIFY_MINIMALDATA) s).
Proof. unfold within_op. destruct s as [|x [|y [|z s]]]; mono. Qed.

Lemma on_stack_mono m f g : (forall s, ok_le (f s) (g s)) -> ok_le (on_stack m f) (on_stack m g).
Proof. intros Hfg. unfold on_stack. mono. Qed.

Lemma locktime_op_mono m :
  ok_le (locktime_op B (flag_set B SCRIPT_VERIFY_MINIMALDATA) m) (locktime_op A (flag_set A SCRIPT_VERIFY_MINIMALDATA) m).
Proof.
  unfold locktime_op. destruct (flag_set A SCRIPT_VERIFY_CHECKLOCKTIMEVERIFY) eqn:E; [rewrite (HAB _ E); cbn [negb]; case_match; mono|].
  intros m' Hm. by repeat (case_match || inv_ok); simplify_eq.
Qed.

Lemma sequence_op_mono m :
  ok_le (sequence_op B (flag_set B SCRIPT_VERIFY_MINIMALDATA) m) (sequence_op A (flag_set A SCRIPT_VERIFY_MINIMALDATA) m).
Proof.
  unfold sequence_op. destruct (flag_set A SCRIPT_VERIFY_CHECKSEQUENCEVERIFY) eqn:E; [rewrite (HAB _ E); cbn [negb]; case_match; mono|].
  intros m' Hm. by repeat (case_match || inv_ok); simplify_eq.
Qed.

Lemma if_op_mono sv fExec negated m : ok_le (if_op B sv fExec negated m) (if_op A sv fExec negated m).
Proof. unfold if_op. destruct fExec, (stack m); mono. Qed.

Lemma checksig_op_mono sv verify m : ok_le (checksig_op B sv verify m) (checksig_op A sv verify m).
Proof. unfold checksig_op. destruct (stack m) as [|x [|y s]]; mono. Qed.

Lemma checksigadd_op_mono sv m :
  ok_le (checksigadd_op B sv (flag_set B SCRIPT_VERIFY_MINIMALDATA) m) (checksigadd_op A sv (flag_set A SCRIPT_VERIFY_MINIMALDATA) m).
Proof. unfold checksigadd_op. destruct (stack m) as [|x [|y [|z s]]]; mono. Qed.

Lemma checkmultisig_op_mono sv verify m :
  ok_le (checkmultisig_op B sv (flag_set B SCRIPT_VERIFY_MINIMALDATA) verify m)
        (checkmultisig_op A sv (flag_set A SCRIPT_VERIFY_MINIMALDATA) verify m).
Proof. unfold checkmultisig_op. mono. case_match; mono. Qed.

Hint Resolve stack_op_mono unary_op_mono binary_op_mono within_op_mono on_stack_mono locktime_op_mono sequence_op_mono if_op_mono
  checksig_op_mono checksigadd_op_mono checkmultisig_op_mono : ok_le.

Lemma exec_mono sv opcode fExec pc opcode_pos m :
  ok_le (exec B sv opcode fExec pc opcode_pos m) (exec A sv opcode fExec pc opcode_pos m).
Proof. destruct opcode; unfold exec; mono. Qed.

Hint Resolve exec_mono : ok_le.

Lemma minimal_push_mono {X} vch opcode (k : outcome X) :
  ok_le (minimal ← (if flag_set B SCRIPT_VERIFY_MINIMALDATA then asserted (CheckMinimalPush vch opcode) else Ok true);
         guard! (minimal : bool) else Fails SCRIPT_ERR_MINIMALDATA; k)
        (minimal ← (if flag_set A SCRIPT_VERIFY_MINIMALDATA then asserted (CheckMinimalPush vch opcode) else Ok true);
         guard! (minimal : bool) else Fails SCRIPT_ERR_MINIMALDATA; k).
Proof. by_flags; [done|]. intros x (b & _ & Hx)%bind_ok. by destruct b. Qed.
Hint Resolve minimal_push_mono : ok_le.

Lemma step_mono sv opcode vch pc opcode_pos m :
  ok_le (step B sv opcode vch pc opcode_pos m) (step A sv opcode vch pc opcode_pos m).
Proof. unfold step. mono. case_match; mono. Qed.
Hint Resolve step_mono : ok_le.

Lemma run_mono fuel sv pc opcode_pos m : ok_le (run fuel B sv pc opcode_pos m) (run fuel A sv pc opcode_pos m).
Proof.
  revert pc opcode_pos m. induction fuel as [|fuel IH]; intros [|b pc] opcode_pos m; cbn [run]; try done.
  destruct (GetScriptOp (b :: pc)) as [[[opcode vch] pc']|]; mono.
Qed.
Hint Resolve run_mono : ok_le.

(** The interpreter computes the same stack under fewer flags. *)
Lemma EvalScript_mono s script sv d : ok_le (EvalScript s script B sv d) (EvalScript s script A sv d).
Proof. unfold EvalScript. mono. Qed.
Hint Resolve EvalScript_mono : ok_le.

Lemma ExecuteWitnessScript_mono s script sv d : ok_le (ExecuteWitnessScript s script B sv d) (ExecuteWitnessScript s script A sv d).
Proof. unfold ExecuteWitnessScript, run_witness_script. case_decide; mono. Qed.
Hint Resolve ExecuteWitnessScript_mono : ok_le.

Lemma taproot_script_path_mono witness s control script program d :
  ok_le (taproot_script_path witness s control script program B d) (taproot_script_path witness s control script program A d).
Proof. unfold taproot_script_path. mono. Qed.
Hint Resolve taproot_script_path_mono : ok_le.

Lemma VerifyTaproot_mono witness program : ok_le (VerifyTaproot witness program B) (VerifyTaproot witness program A).
Proof.
  unfold VerifyTaproot. destruct (flag_set A SCRIPT_VERIFY_TAPROOT) eqn:E; [|by intros []].
  rewrite (HAB _ E). cbn [negb]. mono. destruct (drop_annex _ _) as [[|x [|y s]] d]; mono.
Qed.
Hint Resolve VerifyTaproot_mono : ok_le.

Lemma VerifyWitnessProgram_mono witness version program is_p2sh :
  ok_le (VerifyWitnessProgram witness version program B is_p2sh) (VerifyWitnessProgram witness version program A is_p2sh).
Proof. unfold VerifyWitnessProgram. mono. destruct (reverse witness); mono. Qed.
Hint Resolve VerifyWitnessProgram_mono : ok_le.

Lemma witness_part_mono script scriptSig expected e witness is_p2sh s had :
  flag_set A SCRIPT_VERIFY_WITNESS = true ->
  ok_le (witness_part script scriptSig expected e witness B is_p2sh s had) (witness_part script scriptSig expected e witness A is_p2sh s had).
Proof. intros E. unfold witness_part. rewrite E, (HAB _ E). destruct (IsWitnessProgram script) as [[]|]; mono. Qed.

Lemma witness_part_skip script scriptSig expected e witness is_p2sh s had r :
  flag_set A SCRIPT_VERIFY_WITNESS = false -> witness_part script scriptSig expected e witness A is_p2sh s had = r -> r = Ok (s, had).
Proof. unfold witness_part. by intros ->. Qed.
End Monotone.

(** The combinations [VerifyScript] asserts: no witness without script hashes, and no clean
    stack without both. *)
Definition consistent (flags : Z) : bool :=
  (negb (flag_set flags SCRIPT_VERIFY_WITNESS) || flag_set flags SCRIPT_VERIFY_P2SH)
  && (negb (flag_set flags SCRIPT_VERIFY_CLEANSTACK) || (flag_set flags SCRIPT_VERIFY_P2SH && flag_set flags SCRIPT_VERIFY_WITNESS)).

Section SoftFork.
Context `{Crypto} `{BaseSignatureChecker}.

(** What is left after the scripts of the input and the output, under the rules for hashed
    scripts and for witnesses. *)
Definition later_parts (scriptSig scriptPubKey : bytes) (witness : list valtype) (flags : Z) (stackCopy s : list valtype)
  : outcome (list valtype * bool) :=
  '(s, hadWitness) ← witness_part scriptPubKey scriptSig [] SCRIPT_ERR_WITNESS_MALLEATED witness flags false s false;
  p2sh_part scriptSig scriptPubKey witness flags stackCopy s hadWitness.

(** With the witness rules the parts compute the same; without them they still accept, and
    what they compute is not looked at. *)
Lemma later_parts_mono A B scriptSig scriptPubKey witness stackCopy s r :
  flags_le A B -> consistent A = true ->
  later_parts scriptSig scriptPubKey witness B stackCopy s = Ok r ->
  exists r', later_parts scriptSig scriptPubKey witness A stackCopy s = Ok r' /\ (flag_set A SCRIPT_VERIFY_WITNESS = true -> r' = r).
Proof.
  intros HAB HA. unfold later_parts. intros ([s' had] & H1 & H2)%bind_ok.
  destruct (flag_set A SCRIPT_VERIFY_WITNESS) eqn:EW.
  - assert (EP : flag_set A SCRIPT_VERIFY_P2SH = true) by (unfold consistent in HA; by rewrite EW in HA; destruct (flag_set A SCRIPT_VERIFY_P2SH)).
    exists r. split; [|done]. apply bind_ok. exists (s', had). split; [by eapply witness_part_mono|].
    revert H2. unfold p2sh_part. rewrite EP, (HAB _ EP). destruct (IsPayToScriptHash scriptPubKey); [|done]. cbn [andb].
    revert r. apply ok_le_guard; [done|]. destruct stackCopy as [|pubKey2 s2]; [done|].
    apply ok_le_bind; [by apply EvalScript_mono|]. intros [s3 d3]. apply ok_le_bind; [done|]. intros _. by apply witness_part_mono.
  - unfold witness_part at 1. rewrite EW. cbn [mbind result_bind]. revert H2. unfold p2sh_part.
    destruct (flag_set A SCRIPT_VERIFY_P2SH) eqn:EP; [rewrite (HAB _ EP)|by eexists]. cbn [andb].
    destruct (IsPayToScriptHash scriptPubKey); [|by eexists]. destruct (IsPushOnly scriptSig); [|done].
    destruct stackCopy as [|pubKey2 s2]; [done|]. intros ([s3 d3] & HE & (u & Hu & _)%bind_ok)%bind_ok.
    rewrite (EvalScript_mono _ _ HAB _ _ _ _ _ HE). cbn [mbind result_bind]. rewrite Hu. cbn [mbind result_bind].
    unfold witness_part. rewrite EW. by eexists.
Qed.

(** The checks of the flags at the end. *)
Definition final_checks (witness : list valtype) (flags : Z) (s : list valtype) (hadWitness : bool) : bool :=
  consistent flags
  && (negb (flag_set flags SCRIPT_VERIFY_CLEANSTACK) || (length s =? 1)%nat)
  && negb (flag_set flags SCRIPT_VERIFY_WITNESS && negb hadWitness && negb (length witness =? 0)%nat).

Lemma left_true_unit s u : left_true s = Ok u -> left_true s = Ok ().
Proof. by destruct u. Qed.

(** What acceptance is made of. *)
Lemma VerifyScript_ok scriptSig scriptPubKey witness flags :
  VerifyScript scriptSig scriptPubKey witness flags = Ok () <->
  negb (flag_set flags SCRIPT_VERIFY_SIGPUSHONLY && negb (IsPushOnly scriptSig)) = true /\
  exists stackCopy d1 s d2 s' had,
    EvalScript [] scriptSig flags BASE no_execdata = Ok (stackCopy, d1) /\
    EvalScript stackCopy scriptPubKey flags BASE no_execdata = Ok (s, d2) /\
    left_true s = Ok () /\
    later_parts scriptSig scriptPubKey witness flags stackCopy s = Ok (s', had) /\
    final_checks witness flags s' had = true.
Proof.
  unfold VerifyScript, final_checks, consistent, later_parts. split.
  - destruct (negb (_ && negb (IsPushOnly _))) eqn:Hpush; [|done].
    intros ([stackCopy d1] & H1 & ([s d2] & H2 & ([] & H3 & ([s1 had1] & H4 & ([s2 had2] & H5 & Hf)%bind_ok)%bind_ok)%bind_ok)%bind_ok)%bind_ok.
    split; [done|].
    do 6 eexists. split_and!; try done; [apply bind_ok; by exists (s1, had1)|].
    by repeat case_match.
  - intros [-> (stackCopy & d1 & s & d2 & s' & had & -> & H2 & H3 & H4 & Hf)]. cbn [mbind result_bind]. rewrite H2.
    cbn [mbind result_bind]. rewrite H3. cbn [mbind result_bind]. apply bind_ok in H4 as ([s1 had1] & -> & H5).
    cbn [mbind result_bind]. rewrite H5. cbn [mbind result_bind].
    apply andb_true_iff in Hf as [[[Hf1 Hf2]%andb_true_iff Hf3]%andb_true_iff Hf4].
    by rewrite Hf2, Hf3, Hf1, Hf4.
Qed.

Lemma VerifyScript_mono A B scriptSig scriptPubKey witness :
  flags_le A B -> consistent A = true ->
  VerifyScript scriptSig scriptPubKey witness B = Ok () -> VerifyScript scriptSig scriptPubKey witness A = Ok ().
Proof.
  intros HAB HA.
  intros [Hpush (stackCopy & d1 & s & d2 & s' & had & H1 & H2 & H3 & H4 & Hf)]%VerifyScript_ok.
  destruct (later_parts_mono A _ _ _ _ _ _ _ HAB HA H4) as ([s'' had'] & H5 & Hsame). apply VerifyScript_ok.
  split. { destruct (flag_set A SCRIPT_VERIFY_SIGPUSHONLY) eqn:E; [by rewrite (HAB _ E) in Hpush|done]. }
  exists stackCopy, d1, s, d2, s'', had'. split_and!; try done; [by apply (EvalScript_mono _ _ HAB)..|].
  revert Hf. unfold final_checks. rewrite HA. unfold consistent in HA.
  destruct (flag_set A SCRIPT_VERIFY_WITNESS) eqn:EW.
  - injection (Hsame eq_refl) as -> ->. rewrite (HAB _ EW). destruct (flag_set A SCRIPT_VERIFY_CLEANSTACK) eqn:EC; [rewrite (HAB _ EC)|].
    all: rewrite !andb_true_iff; cbn [negb orb]; intuition.
  - by destruct (flag_set A SCRIPT_VERIFY_CLEANSTACK), (flag_set A SCRIPT_VERIFY_P2SH).
Qed.

(** C8: Flags are soft forks: whatever a checker says of signatures, an input that is accepted
    under the flags [A | B] is accepted under the flags [A] alone, if [A] is a combination the
    code permits. *)
Theorem flags_are_soft_forks A B scriptSig scriptPubKey witness :
  consistent A = true ->
  VerifyScript scriptSig scriptPubKey witness (Z.lor A B) = Ok () ->
  VerifyScript scriptSig scriptPubKey witness A = Ok ().
Proof. apply VerifyScript_mono, flags_le_lor. Qed.
End SoftFork.

(** The two pushes of a key hash spend, under all the flags there are. *)
Definition sample_flags : Z := Z.ones 21.
Definition sample_pushes : bytes :=
  (push_data (sample_signature 9 ++ [SIGHASH_ALL]) ++ push_data sample_key)%list.

Lemma flags_are_soft_forks_witness :
  VerifyScript (H := sample_crypto) (H0 := sample_checker) sample_pushes (P2PKH_script (hash160 (H := sample_crypto) sample_key)) []
    (Z.lor SCRIPT_VERIFY_P2SH SCRIPT_VERIFY_LOW_S) = Ok ().
Proof.
  apply (flags_are_soft_forks (H := sample_crypto) (H0 := sample_checker) (Z.lor SCRIPT_VERIFY_P2SH SCRIPT_VERIFY_LOW_S) sample_flags).
  - reflexivity.
  - vm_compute. reflexivity.
Defined.
