(* ===== verification/ScriptSafety.v ===== *)
(** * The interpreter stays within its limits and fails no assertion
    (src/src/script/interpreter.cpp)

    The interpreter asserts what it takes for granted: that a number does not overflow, that a
    condition is there to be toggled, that the weight of a Taproot spend was set, that the
    hashed script is on the stack, that a signature checker is asked only what it can answer.
    Run on bytes, under flags that go together and with a checker that keeps its side, it
    never fails one; and no stack grows beyond the limits. *)

From stdpp Require Import strings.
From S2P Require Import Prelude Serialize Script TxVerify Interpreter SoftForks.
Import Op.

(** ** Outcomes that are not a failed assertion *)

Definition safe {A} (P : A -> Prop) (r : outcome A) : Prop :=
  match r with
  | Ok a => P a
  | Throw (Fails _) => True
  | Throw Aborts => False
  end.

Lemma safe_bind {A B} (P : A -> Prop) (Q : B -> Prop) (r : outcome A) (k : A -> outcome B) :
  safe P r -> (forall a, P a -> safe Q (k a)) -> safe Q (mbind k r).
Proof. destruct r as [a|[]]; cbn; auto. Qed.

Lemma safe_guard {A} (P : A -> Prop) (b : bool) e (r : outcome A) :
  (b = true -> safe P r) -> safe P (guard! b else Fails e; r).
Proof. destruct b; cbn; auto. Qed.

Lemma safe_if {A} (P : A -> Prop) (b : bool) (r1 r2 : outcome A) :
  (b = true -> safe P r1) -> (b = false -> safe P r2) -> safe P (if b then r1 else r2).
Proof. destruct b; auto. Qed.

Lemma safe_mono {A} (P Q : A -> Prop) (r : outcome A) : safe P r -> (forall a, P a -> Q a) -> safe Q r.
Proof. destruct r as [a|[]]; cbn; auto. Qed.

Lemma safe_ok {A} (P : A -> Prop) a : P a -> safe P (Ok a).
Proof. done. Qed.

Lemma safe_fails {A} (P : A -> Prop) e : safe P (Throw (Fails e)).
Proof. done. Qed.

Lemma safe_asserted {A} (P : A -> Prop) (o : option A) : (exists a, o = Some a /\ P a) -> safe P (asserted o).
Proof. intros (a & -> & Ha). done. Qed.

Create HintDb safe.
#[export] Hint Resolve safe_ok safe_fails : safe.

(** ** Elements *)

Definition elem_ok (v : valtype) : Prop := Forall is_byte v /\ size v <= MAX_SCRIPT_ELEMENT_SIZE.

(** The number a short byte string denotes is in range. *)
Lemma set_vch_bound v k : Forall is_byte v -> size v <= k -> 1 <= k <= 7 -> Z.abs (set_vch v) < 2 ^ (8 * k - 1).
Proof.
  intros Hv Hs Hk. destruct v as [|x l _] using rev_ind; [apply Z.pow_pos_nonneg; lia|].
  apply Forall_app in Hv as [Hl Hx]. apply Forall_cons in Hx as [Hx _]. rewrite size_app in Hs. change (size [x]) with 1 in Hs.
  rewrite set_vch_snoc by (done || lia). pose proof (le_value_bound l Hl). pose proof (size_nonneg l). unfold in_u in Hx.
  assert (HP : 256 ^ Z.of_nat (length l) = 2 ^ (8 * size l)) by (unfold size; change 256 with (2 ^ 8); rewrite <- Z.pow_mul_r by lia; done).
  apply Z.lt_le_trans with (2 ^ (8 * size l + 7)); [|apply Z.pow_le_mono_r; lia].
  rewrite Z.pow_add_r, <- HP by lia. change (2 ^ 7) with 128. assert (0 <= x mod 128 < 128) by zdm. destruct (Z.ltb_spec x 128); nia.
Qed.

Lemma of_vch_safe v fRequireMinimal k :
  elem_ok v -> 1 <= k <= 7 -> safe (fun n => Z.abs n < 2 ^ (8 * k - 1)) (caught (CScriptNum_of_vch v fRequireMinimal k)).
Proof.
  intros [Hv _] Hk. unfold CScriptNum_of_vch. destruct (Z.ltb_spec k (size v)); [done|]. case_match; [done|]. by apply set_vch_bound.
Qed.

Lemma num_safe fRequireMinimal v : elem_ok v -> safe (fun n => Z.abs n < 2 ^ 31) (num fRequireMinimal v).
Proof. intros Hv. by apply (of_vch_safe v fRequireMinimal 4). Qed.
#[export] Hint Resolve num_safe : safe.

Lemma serialize_elem n : in_s 64 n -> elem_ok (CScriptNum_serialize n).
Proof.
  intros Hn. destruct (Z.eq_dec n 0) as [->|H0]; [by split; [constructor|]|].
  destruct (magnitude_snoc (Z.abs n)) as (l & x & Hv & Hl & Hx & Hpos & Hlen); [unfold in_s in Hn; lia|].
  rewrite (serialize_shape n l x) by done. unfold in_u in Hx. unfold elem_ok, size, MAX_SCRIPT_ELEMENT_SIZE.
  destruct (Z.leb_spec 128 x); (split; [apply Forall_app; split; [done|]; bytes_ok; case_match; lia|rewrite length_app; cbn [length]; lia]).
Qed.

Lemma small_elem n : Z.abs n < 2 ^ 63 -> elem_ok (CScriptNum_serialize n).
Proof. intros. apply serialize_elem. unfold in_s. lia. Qed.

Lemma bool_elem b : elem_ok (vch_of_bool b).
Proof. destruct b; (split; [bytes_ok|done]). Qed.

Lemma b2z_elem b : elem_ok (CScriptNum_serialize (Z.b2z b)).
Proof. apply small_elem. destruct b; cbn; lia. Qed.
#[export] Hint Resolve bool_elem b2z_elem : safe.

(** ** Reading instructions *)

(** An instruction leaves a shorter script and, of bytes, bytes. *)
Lemma GetScriptOp_bytes pc opcode v pc' :
  GetScriptOp pc = Some (opcode, v, pc') -> Forall is_byte pc ->
  (length pc' < length pc)%nat /\ is_byte opcode /\ Forall is_byte v /\ Forall is_byte pc'.
Proof.
  unfold GetScriptOp. destruct pc as [|b pc]; [done|]. intros E Hb. apply Forall_cons in Hb as [Hb Hpc].
  destruct (b <=? OP_PUSHDATA4); [|simplify_eq; split; [cbn; lia|by split; [|split]]].
  match type of E with mbind _ ?r = _ => assert (Hr : forall n q, r = Some (n, q) -> exists k, q = drop k pc) end.
  { intros n q Hq. repeat case_match; simplify_eq; eauto. by exists 0%nat. }
  apply bind_Some in E as ([n q] & Hq & E). destruct (Hr n q Hq) as [k ->]. clear Hr Hq. case_match; [done|]. simplify_eq.
  rewrite length_drop, length_drop. cbn [length]. split; [lia|]. split; [done|]. split; [by apply Forall_take, Forall_drop|by apply Forall_drop, Forall_drop].
Qed.

(** ** What the interpreter is given *)

(** The sizes of the digests. *)
Class CryptoSizes `{Crypto} := {
  sha256_size b : length (sha256 b) = 32%nat;
  sha256_bytes b : Forall is_byte (sha256 b);
  ripemd160_size b : length (ripemd160 b) = 20%nat;
  ripemd160_bytes b : Forall is_byte (ripemd160 b);
  sha1_size b : length (sha1 b) = 20%nat;
  sha1_bytes b : Forall is_byte (sha1 b);
}.

(** What has been filled in of the execution data, by the kind of spend. *)
Definition data_ready (sigversion : SigVersion) (d : ScriptExecutionData) : Prop :=
  match sigversion with
  | BASE | WITNESS_V0 => True
  | TAPROOT => is_Some (m_annex d)
  | TAPSCRIPT => is_Some (m_annex d) /\ is_Some (m_tapleaf_hash d) /\ is_Some (m_codeseparator_pos d)
  end.

(** What a checker promises: it answers about ECDSA signatures before Taproot, in a Taproot
    spend also about Schnorr signatures, under keys of 32 bytes and once the data it hashes is
    there; and it changes nothing of that data but the hash of the output. *)
Class CheckerOk `{BaseSignatureChecker} (taproot : Prop) := {
  ecdsa_answers sig pubkey code sigversion :
    sigversion = BASE \/ sigversion = WITNESS_V0 -> is_Some (CheckECDSASignature sig pubkey code sigversion);
  schnorr_answers sig pubkey sigversion d :
    taproot -> sigversion = TAPROOT \/ sigversion = TAPSCRIPT -> size pubkey = 32 -> data_ready sigversion d ->
    safe (fun d' => exists h, d' = {| m_tapleaf_hash := m_tapleaf_hash d; m_codeseparator_pos := m_codeseparator_pos d; m_annex := m_annex d;
                                       m_validation_weight_left := m_validation_weight_left d; m_output_hash := h |})
         (CheckSchnorrSignature sig pubkey sigversion d);
}.

Section Safe.
Context {C : Crypto} {CS : CryptoSizes} {K : BaseSignatureChecker} {taproot : Prop} {KO : CheckerOk taproot}.

(** In a script of a Taproot spend the weight is known as well. *)
Definition data_ok (sigversion : SigVersion) (d : ScriptExecutionData) : Prop :=
  data_ready sigversion d /\ (sigversion = TAPSCRIPT -> taproot /\ is_Some (m_validation_weight_left d)).

(** What is known before a script of a Taproot spend is run. *)
Definition script_path (d : ScriptExecutionData) : Prop :=
  taproot /\ is_Some (m_annex d) /\ is_Some (m_tapleaf_hash d) /\ is_Some (m_validation_weight_left d).

Definition machine_ok (sigversion : SigVersion) (m : machine) : Prop :=
  Forall elem_ok (stack m) /\ Forall elem_ok (altstack m) /\ data_ok sigversion (execdata m) /\
  0 <= m_stack_size (vfExec m) /\ nOpCount m <= MAX_OPS_PER_SCRIPT.

Lemma hash_elem b n : length b = n -> (n <= 32)%nat -> Forall is_byte b -> elem_ok b.
Proof. intros Hl Hn Hb. split; [done|]. unfold size, MAX_SCRIPT_ELEMENT_SIZE. lia. Qed.

(** *** Operations on the stack *)

Abbreviation stack_safe := (safe (Forall elem_ok)).

Ltac elems := repeat first [done | apply Forall_cons_2 | progress auto with safe].

Lemma pick_or_roll_safe roll fRequireMinimal s : Forall elem_ok s -> stack_safe (pick_or_roll roll fRequireMinimal s).
Proof.
  intros Hs. destruct s as [|x [|y s]]; [done..|]. cbn [pick_or_roll]. apply Forall_cons in Hs as [Hx Hs].
  eapply safe_bind; [by apply num_safe|]. intros n _. cbn zeta. case_match; [done|].
  destruct ((y :: s) !! Z.to_nat (getint n)) eqn:E; [|done]. cbn. constructor; [by eapply Forall_lookup_1|].
  destruct roll; [by apply Forall_delete|done].
Qed.

Lemma stack_op_safe opcode fRequireMinimal s :
  Forall elem_ok s -> Z.of_nat (length s) < 2 ^ 32 -> stack_safe (stack_op opcode fRequireMinimal s).
Proof.
  intros Hs Hlen. destruct opcode; try done; unfold stack_op, equal_op; auto using pick_or_roll_safe.
  all: repeat case_match; subst; decompose_Forall_hyps; try done; cbn; elems.
  all: apply small_elem; unfold elem_ok, size, MAX_SCRIPT_ELEMENT_SIZE in *; lia.
Qed.

Lemma num_unary_safe opcode bn :
  opcode ∈ [OP_1ADD; OP_1SUB; OP_NEGATE; OP_ABS; OP_NOT; OP_0NOTEQUAL] -> Z.abs bn < 2 ^ 31 ->
  safe (fun n => Z.abs n <= 2 ^ 31) (num_unary opcode bn).
Proof.
  intros Ho Hbn. rewrite !elem_of_cons in Ho. destruct_or!; subst; try (by apply not_elem_of_nil in Ho).
  all: unfold num_unary, num_add, num_sub, num_neg; cbn [safe]; try match goal with |- context [Z.b2z ?b] => destruct b; cbn; lia end.
  all: repeat case_match; cbn [safe]; lia.
Qed.

Definition binary_opcodes : list opcodetype :=
  [OP_ADD; OP_SUB; OP_BOOLAND; OP_BOOLOR; OP_NUMEQUAL; OP_NUMEQUALVERIFY; OP_NUMNOTEQUAL; OP_LESSTHAN; OP_GREATERTHAN;
   OP_LESSTHANOREQUAL; OP_GREATERTHANOREQUAL; OP_MIN; OP_MAX].

Lemma num_binary_safe opcode bn1 bn2 :
  opcode ∈ binary_opcodes -> Z.abs bn1 < 2 ^ 31 -> Z.abs bn2 < 2 ^ 31 -> safe (fun n => Z.abs n <= 2 ^ 32) (num_binary opcode bn1 bn2).
Proof.
  intros Ho H1 H2. unfold binary_opcodes in Ho. rewrite !elem_of_cons in Ho. destruct_or!; subst; try (by apply not_elem_of_nil in Ho).
  all: unfold num_binary; rewrite ?wraps_id by (unfold in_s; lia); repeat case_match; cbn; try lia.
  all: match goal with |- context [Z.b2z ?b] => destruct b; cbn; lia end.
Qed.

Lemma unary_op_safe opcode fRequireMinimal s :
  opcode ∈ [OP_1ADD; OP_1SUB; OP_NEGATE; OP_ABS; OP_NOT; OP_0NOTEQUAL] -> Forall elem_ok s -> stack_safe (unary_op opcode fRequireMinimal s).
Proof.
  intros Ho Hs. destruct s as [|x s]; [done|]. decompose_Forall_hyps. eapply safe_bind; [by apply num_safe|].
  intros bn Hbn. eapply safe_bind; [by apply num_unary_safe|]. intros n Hn. cbn in Hn. elems. apply small_elem. lia.
Qed.

Lemma binary_op_safe opcode fRequireMinimal s :
  opcode ∈ binary_opcodes -> Forall elem_ok s -> stack_safe (binary_op opcode fRequireMinimal s).
Proof.
  intros Ho Hs. destruct s as [|x [|y s]]; [done..|]. decompose_Forall_hyps. cbn [binary_op].
  eapply safe_bind; [by apply num_safe|]. intros bn1 Hn1. eapply safe_bind; [by apply num_safe|]. intros bn2 Hn2.
  eapply safe_bind; [by apply num_binary_safe|]. intros n Hn. case_decide; [by apply safe_guard|]. cbn. elems.
  apply small_elem. cbn in Hn. lia.
Qed.

Lemma within_op_safe fRequireMinimal s : Forall elem_ok s -> stack_safe (within_op fRequireMinimal s).
Proof.
  intros Hs. destruct s as [|x [|y [|z s]]]; [done..|]. decompose_Forall_hyps. cbn [within_op].
  do 3 (eapply safe_bind; [by apply num_safe|]; intros ? ?). cbn. elems.
Qed.

Lemma hash_op_safe h s : (forall b, elem_ok (h b)) -> Forall elem_ok s -> stack_safe (hash_op h s).
Proof. intros Hh Hs. destruct s; [done|]. decompose_Forall_hyps. cbn. elems. Qed.

Lemma verify_op_safe s : Forall elem_ok s -> stack_safe (verify_op s).
Proof. intros Hs. destruct s; [done|]. decompose_Forall_hyps. by apply safe_guard. Qed.

Lemma on_stack_safe sv m f : machine_ok sv m -> stack_safe (f (stack m)) -> safe (machine_ok sv) (on_stack m f).
Proof. intros (Hs & Ha & Hd & Hc & Hn) Hf. eapply safe_bind; [exact Hf|]. intros s Hs'. by split_and!. Qed.

(** *** Signatures *)

Ltac safe_step := first
  [ done
  | progress auto with safe
  | apply safe_guard; intros ?
  | eapply safe_bind; [|intros ? ?]
  | apply safe_if; intros ? ].

Lemma CheckSignatureEncoding_safe vchSig flags : safe (fun _ => True) (CheckSignatureEncoding vchSig flags).
Proof.
  unfold CheckSignatureEncoding. apply safe_if; [done|]. intros _. apply safe_guard. intros _.
  eapply (safe_bind (fun _ => True)); [|intros _ _; by apply safe_guard]. apply safe_if; [|done].
  intros _. unfold IsLowDERSignature. by do 2 (apply safe_guard; intros _).
Qed.

Lemma CheckPubKeyEncoding_safe vchPubKey flags sv : safe (fun _ => True) (CheckPubKeyEncoding vchPubKey flags sv).
Proof. unfold CheckPubKeyEncoding. repeat safe_step. Qed.

Lemma drop_signature_safe flags sv code vchSig : safe (fun _ => True) (drop_signature flags sv code vchSig).
Proof. unfold drop_signature. case_decide; [|done]. case_match. repeat safe_step. Qed.

Lemma drop_signatures_safe flags sv sigs code : safe (fun _ => True) (drop_signatures flags sv code sigs).
Proof.
  revert code. induction sigs as [|sig sigs IH]; intros code; [done|]. cbn.
  eapply safe_bind; [apply drop_signature_safe|]. intros code' _. apply IH.
Qed.

Lemma ecdsa_safe sig pubkey code sv :
  sv = BASE \/ sv = WITNESS_V0 -> safe (fun _ => True) (asserted (CheckECDSASignature sig pubkey code sv)).
Proof. intros Hsv. destruct (ecdsa_answers sig pubkey code sv Hsv) as [b ->]. done. Qed.
Hint Resolve CheckSignatureEncoding_safe CheckPubKeyEncoding_safe drop_signature_safe drop_signatures_safe ecdsa_safe : safe.

Lemma PreTapscript_safe sig pubkey code flags sv :
  sv = BASE \/ sv = WITNESS_V0 -> safe (fun _ => True) (EvalChecksigPreTapscript sig pubkey code flags sv).
Proof.
  intros Hsv. unfold EvalChecksigPreTapscript.
  assert (bool_decide (sv = BASE) || bool_decide (sv = WITNESS_V0) = true) as -> by (by destruct Hsv; subst).
  repeat safe_step.
Qed.

Lemma spend_weight_safe d : data_ok TAPSCRIPT d -> safe (data_ok TAPSCRIPT) (spend_weight d).
Proof.
  intros [Hr Hw]. unfold spend_weight. destruct (Hw eq_refl) as [Ht [w ->]]. cbn [asserted mbind result_bind]. apply safe_guard.
  intros _. split; [done|]. intros _. split; [done|by eexists].
Qed.

Lemma Tapscript_safe sig pubkey d flags :
  data_ok TAPSCRIPT d -> safe (fun r => data_ok TAPSCRIPT r.2) (EvalChecksigTapscript sig pubkey d flags TAPSCRIPT).
Proof.
  intros Hd. unfold EvalChecksigTapscript. rewrite bool_decide_true by done. cbn zeta.
  eapply (safe_bind (data_ok TAPSCRIPT)); [apply safe_if; auto using spend_weight_safe|].
  intros d1 Hd1. apply safe_if; [done|]. intros _. apply safe_if; [|by intros _; apply safe_guard].
  intros Hsz%Z.eqb_eq. eapply (safe_bind (data_ok TAPSCRIPT)); [|done]. apply safe_if; [|done]. intros _.
  eapply safe_mono; [apply schnorr_answers; [by apply Hd1|by right|done|apply Hd1]|]. intros d2 [h ->]. exact Hd1.
Qed.

Lemma EvalChecksig_safe sig pubkey code d flags sv :
  sv <> TAPROOT -> data_ok sv d -> safe (fun r => data_ok sv r.2) (EvalChecksig sig pubkey code d flags sv).
Proof.
  intros Hsv Hd. destruct sv; [| |done|by apply Tapscript_safe].
  all: cbn; eapply safe_bind; [apply PreTapscript_safe; auto|]; by intros b _.
Qed.

Lemma checksig_op_safe flags sv verify m : sv <> TAPROOT -> machine_ok sv m -> safe (machine_ok sv) (checksig_op flags sv verify m).
Proof.
  intros Hsv (Hs & Ha & Hd & Hc & Hn). unfold checksig_op. destruct (stack m) as [|x [|y s]]; [done..|]. decompose_Forall_hyps.
  eapply safe_bind; [by apply EvalChecksig_safe|]. intros [b d'] Hd'. cbn zeta.
  apply safe_if; [intros _; apply safe_guard; intros _|intros _]; split_and!; cbn; elems; lia.
Qed.

Lemma checksigadd_op_safe flags sv fRequireMinimal m :
  sv <> TAPROOT -> machine_ok sv m -> safe (machine_ok sv) (checksigadd_op flags sv fRequireMinimal m).
Proof.
  intros Hsv (Hs & Ha & Hd & Hc & Hn). unfold checksigadd_op. apply safe_guard. intros _. destruct (stack m) as [|x [|y [|z s]]]; [done..|].
  decompose_Forall_hyps. eapply safe_bind; [by apply num_safe|]. intros n Hnum. eapply safe_bind; [by apply EvalChecksig_safe|].
  intros [b d'] Hd'. cbn in Hnum. split; [|done]. cbn. elems. apply small_elem. rewrite wraps_id; [|lia|unfold in_s]; destruct b; cbn; lia.
Qed.

Lemma multisig_loop_safe flags sv code keys sigs :
  sv = BASE \/ sv = WITNESS_V0 -> (length sigs <= length keys)%nat -> safe (fun _ => True) (multisig_loop flags sv code sigs keys).
Proof.
  intros Hsv. revert sigs. induction keys as [|key keys IH]; intros [|sig sigs] Hl; cbn [length multisig_loop] in Hl |- *; try done; [lia|].
  eapply safe_bind; [apply CheckSignatureEncoding_safe|]. intros _ _. eapply safe_bind; [apply CheckPubKeyEncoding_safe|]. intros _ _.
  eapply safe_bind; [by apply ecdsa_safe|]. intros fOk _. destruct fOk.
  all: match goal with |- context [(?a <? ?b)%nat] => destruct (Nat.ltb_spec a b) end; [done|]; apply IH; cbn [length] in *; lia.
Qed.

Lemma multisig_cleanup_safe flags b i ikey2 s : Forall elem_ok s -> stack_safe (multisig_cleanup flags b i ikey2 s).
Proof.
  revert ikey2 s. induction i as [|i IH]; intros ikey2 s Hs; [done|]. cbn. destruct s; [done|]. decompose_Forall_hyps.
  apply safe_guard. intros _. by apply IH.
Qed.

Lemma stacktop_safe s i : Forall elem_ok s -> safe elem_ok (stacktop s i).
Proof. intros Hs. unfold stacktop. destruct (s !! (i - 1)%nat) eqn:E; [|done]. exact (Forall_lookup_1 _ _ _ _ Hs E). Qed.

Lemma checkmultisig_op_safe flags sv fRequireMinimal verify m :
  sv <> TAPROOT -> machine_ok sv m -> safe (machine_ok sv) (checkmultisig_op flags sv fRequireMinimal verify m).
Proof.
  intros Hsv (Hs & Ha & Hd & Hc & Hn). unfold checkmultisig_op. apply safe_guard. intros Htap%negb_true_iff%bool_decide_eq_false. apply safe_guard.
  intros _. assert (Hnum : forall i, safe (fun _ => True) (vch ← stacktop (stack m) i; num fRequireMinimal vch)).
  { intros i. eapply safe_bind; [by apply stacktop_safe|]. intros v Hv. eapply safe_mono; [by apply num_safe|done]. }
  eapply safe_bind; [apply Hnum|]. intros nKeys _. do 2 (apply safe_guard; intros ?). cbn zeta. apply safe_guard. intros HlenK.
  eapply safe_bind; [apply Hnum|]. intros nSigs _. apply safe_guard. intros HS. apply safe_guard. intros HlenS.
  eapply safe_bind; [apply drop_signatures_safe|]. intros code _. eapply safe_bind.
  { apply multisig_loop_safe; [destruct sv; auto; done|]. rewrite !length_take, !length_drop. lia. }
  intros b _. eapply safe_bind; [by apply multisig_cleanup_safe|]. intros [|dummy s] Hs'; [done|]. decompose_Forall_hyps.
  apply safe_guard. intros _. apply safe_if; [intros _; apply safe_guard; intros _|intros _]; split_and!; cbn; elems; lia.
Qed.

(** *** Control *)

Lemma locktime_op_safe flags fRequireMinimal sv m : machine_ok sv m -> safe (machine_ok sv) (locktime_op flags fRequireMinimal m).
Proof.
  intros Hm. unfold locktime_op. apply safe_if; [done|]. intros _. destruct (stack m) as [|x s] eqn:E; [done|].
  assert (Hx : elem_ok x) by (destruct Hm as [Hs _]; rewrite E in Hs; by apply Forall_cons in Hs as [? _]).
  eapply safe_bind; [by apply (of_vch_safe x fRequireMinimal 5)|]. intros n _. by do 2 (apply safe_guard; intros _).
Qed.

Lemma sequence_op_safe flags fRequireMinimal sv m : machine_ok sv m -> safe (machine_ok sv) (sequence_op flags fRequireMinimal m).
Proof.
  intros Hm. unfold sequence_op. apply safe_if; [done|]. intros _. destruct (stack m) as [|x s] eqn:E; [done|].
  assert (Hx : elem_ok x) by (destruct Hm as [Hs _]; rewrite E in Hs; by apply Forall_cons in Hs as [? _]).
  eapply safe_bind; [by apply (of_vch_safe x fRequireMinimal 5)|]. intros n _. apply safe_guard. intros _.
  apply safe_if; [done|]. intros _. by apply safe_guard.
Qed.

Lemma push_back_size c b : 0 <= m_stack_size (push_back c b).
Proof. apply wrapu_in. lia. Qed.

Lemma if_op_safe flags sv fExec negated m : machine_ok sv m -> safe (machine_ok sv) (if_op flags sv fExec negated m).
Proof.
  intros (Hs & Ha & Hd & Hc & Hn). unfold if_op. destruct fExec; [|by split_and!; try apply push_back_size].
  destruct (stack m) as [|x s]; [done|]. decompose_Forall_hyps. cbn zeta. do 2 (apply safe_guard; intros _).
  split_and!; try done. apply push_back_size.
Qed.

Lemma else_op_safe sv m : machine_ok sv m -> safe (machine_ok sv) (else_op m).
Proof.
  intros (Hs & Ha & Hd & Hc & Hn). unfold else_op, cs_empty, toggle_top. apply safe_guard. intros Hne.
  destruct (Z.ltb_spec 0 (m_stack_size (vfExec m))); [|lia]. by split_and!.
Qed.

Lemma endif_op_safe sv m : machine_ok sv m -> safe (machine_ok sv) (endif_op m).
Proof.
  intros (Hs & Ha & Hd & Hc & Hn). unfold endif_op, cs_empty, pop_back. apply safe_guard. intros Hne.
  destruct (Z.ltb_spec 0 (m_stack_size (vfExec m))); [|lia]. split_and!; try done. cbn. lia.
Qed.

(** *** One instruction *)

Lemma push_ok sv m v : machine_ok sv m -> elem_ok v -> machine_ok sv (with_stack m (v :: stack m)).
Proof. intros (Hs & Ha & Hd & Hc & Hn) Hv. split; [by constructor|done]. Qed.

Lemma codeseparator_ok sv m pc p :
  machine_ok sv m -> machine_ok sv (with_execdata (with_code m pc) (with_codeseparator_pos (execdata m) p)).
Proof.
  intros (Hs & Ha & [Hr Hw] & Hc & Hn). split; [done|]. split; [done|]. split; [|done]. split; [|done].
  destruct sv; [done..|]. destruct Hr as (? & ? & ?). split_and!; [done..|by eexists].
Qed.

Lemma sha256_elem b : elem_ok (sha256 b).
Proof. eapply hash_elem; [apply sha256_size|lia|apply sha256_bytes]. Qed.

Lemma ripemd160_elem b : elem_ok (ripemd160 b).
Proof. eapply hash_elem; [apply ripemd160_size|lia|apply ripemd160_bytes]. Qed.

Lemma sha1_elem b : elem_ok (sha1 b).
Proof. eapply hash_elem; [apply sha1_size|lia|apply sha1_bytes]. Qed.

Lemma altstack_ok sv m :
  machine_ok sv m ->
  match stack m with x :: s => machine_ok sv (with_stacks m s (x :: altstack m)) | [] => True end /\
  match altstack m with x :: a => machine_ok sv (with_stacks m (x :: stack m) a) | [] => True end.
Proof.
  intros (Hs & Ha & Hd & Hc & Hn). split.
  - destruct (stack m) as [|x s]; [done|]. decompose_Forall_hyps. split; [done|]. split; [by constructor|done].
  - destruct (altstack m) as [|x a]; [done|]. decompose_Forall_hyps. split; [by constructor|]. by split.
Qed.

Lemma exec_safe flags sv opcode fExec pc opcode_pos m :
  sv <> TAPROOT -> machine_ok sv m -> Z.of_nat (length (stack m)) < 2 ^ 32 ->
  safe (machine_ok sv) (exec flags sv opcode fExec pc opcode_pos m).
Proof.
  intros Hsv Hm Hlen. pose proof Hm as (Hs & Ha & Hd & Hc & Hn). unfold exec. cbn zeta.
  destruct opcode; try done;
    try (apply on_stack_safe; [done|]; first
      [ by apply stack_op_safe | by apply verify_op_safe | by apply within_op_safe
      | apply unary_op_safe; [|done]; rewrite !elem_of_cons; tauto
      | apply binary_op_safe; [|done]; unfold binary_opcodes; rewrite !elem_of_cons; tauto ]);
    auto using locktime_op_safe, sequence_op_safe, if_op_safe, else_op_safe, endif_op_safe, checksig_op_safe, checksigadd_op_safe,
      checkmultisig_op_safe.
  all: try (by apply safe_guard).
  all: try (apply on_stack_safe; [done|]; apply hash_op_safe; [|done]; intros b; auto using sha256_elem, ripemd160_elem, sha1_elem; fail).
  all: try (apply push_ok; [done|]; apply small_elem; vm_compute; reflexivity).
  - pose proof (proj1 (altstack_ok sv m Hm)). by destruct (stack m).
  - pose proof (proj2 (altstack_ok sv m Hm)). by destruct (altstack m).
  - apply on_stack_safe; [done|]. apply hash_op_safe; [|done]. intros b. apply ripemd160_elem.
  - apply on_stack_safe; [done|]. apply hash_op_safe; [|done]. intros b. apply sha256_elem.
  - by apply codeseparator_ok.
Qed.

Definition stack_depth (m : machine) : Z := Z.of_nat (length (stack m)) + Z.of_nat (length (altstack m)).

Lemma step_safe flags sv opcode v pc opcode_pos m :
  sv <> TAPROOT -> machine_ok sv m -> Z.of_nat (length (stack m)) < 2 ^ 32 -> is_byte opcode -> Forall is_byte v ->
  safe (fun m' => machine_ok sv m' /\ stack_depth m' <= MAX_STACK_SIZE) (step flags sv opcode v pc opcode_pos m).
Proof.
  intros Hsv Hm Hlen Ho Hv. unfold step. apply safe_guard. intros Hsize. cbn zeta.
  set (counted := (bool_decide (sv = BASE) || bool_decide (sv = WITNESS_V0)) && (value OP_16 <? opcode)).
  set (m1 := if counted then _ else m). apply safe_guard. intros Hcount.
  assert (Hm1 : machine_ok sv m1 /\ stack m1 = stack m).
  { unfold m1 in *. destruct counted; [|done]. destruct Hm as (Hs & Ha & Hd & Hc & Hn). cbn in Hcount. split; [|done].
    split_and!; try done. cbn. lia. }
  destruct Hm1 as [Hm1 Es]. do 2 (apply safe_guard; intros _). eapply (safe_bind (machine_ok sv)).
  2: { intros m2 Hm2. apply safe_guard. intros Hd. split; [done|]. unfold stack_depth. lia. }
  apply safe_if; intros Hb.
  - eapply (safe_bind (fun _ => True)).
    + apply safe_if; [|done]. intros _. unfold CheckMinimalPush, OP_PUSHDATA4 in *.
      destruct ((0 <=? opcode) && (opcode <=? 78)) eqn:E; [done|]. lia.
    + intros b _. apply safe_guard. intros _. apply push_ok; [done|]. split; [done|]. lia.
  - apply safe_if; [|done]. intros _. destruct (of_value opcode); [|done]. apply exec_safe; [done..|]. by rewrite Es.
Qed.

(** *** The loop *)

Lemma run_safe fuel flags sv pc opcode_pos m :
  sv <> TAPROOT -> (length pc <= fuel)%nat -> Forall is_byte pc -> machine_ok sv m -> Z.of_nat (length (stack m)) < 2 ^ 32 ->
  safe (fun m' => machine_ok sv m' /\ stack_depth m' <= Z.max MAX_STACK_SIZE (stack_depth m)) (run fuel flags sv pc opcode_pos m).
Proof.
  intros Hsv. revert pc opcode_pos m. induction fuel as [|fuel IH]; intros [|b pc] p m Hf Hpc Hm Hlen; cbn [run].
  1, 3: split; [done|lia].
  { cbn in Hf. lia. }
  destruct (GetScriptOp (b :: pc)) as [[[opcode v] pc']|] eqn:E; [|done].
  destruct (GetScriptOp_bytes _ _ _ _ E Hpc) as (Hlt & Ho & Hv & Hpc'). eapply safe_bind; [by apply step_safe|].
  intros m' [Hm' Hd]. eapply safe_mono; [apply IH|]; try done; [cbn in *; lia|unfold stack_depth, MAX_STACK_SIZE in Hd; lia|].
  intros m'' [Hm'' Hd'']. split; [done|lia].
Qed.

Lemma start_ok s script sv d :
  Forall elem_ok s ->
  (sv = TAPSCRIPT -> script_path d) ->
  sv <> TAPROOT -> machine_ok sv (start s script d).
Proof.
  intros Hs Hd Hsv. split_and!; try done. cbn. destruct sv; try done.
  destruct (Hd eq_refl) as (? & ? & ? & ?). split; [split_and!; [done|done|by eexists]|done].
Qed.

(** A script runs to an end: no assertion fails, and the stack it leaves is within the limits
    (it may be larger only if it was larger before an empty script). *)
Lemma EvalScript_safe s script flags sv d :
  sv <> TAPROOT -> Forall is_byte script -> Forall elem_ok s -> Z.of_nat (length s) < 2 ^ 32 ->
  (sv = TAPSCRIPT -> script_path d) ->
  safe (fun r => Forall elem_ok r.1 /\ Z.of_nat (length r.1) <= Z.max MAX_STACK_SIZE (Z.of_nat (length s)))
       (EvalScript s script flags sv d).
Proof.
  intros Hsv Hscript Hs Hlen Hd. unfold EvalScript. rewrite bool_decide_false by done. cbn [negb]. apply safe_guard. intros _.
  eapply safe_bind.
  - apply (run_safe (length script)); try done. by apply start_ok.
  - intros m [(Hs' & _) Hdepth]. apply safe_guard. intros _. split; [done|]. unfold stack_depth in Hdepth. cbn in Hdepth |- *. lia.
Qed.

(** *** Witnesses *)

Lemma has_op_success_safe fuel pc : (length pc <= fuel)%nat -> Forall is_byte pc -> safe (fun _ => True) (has_op_success fuel pc).
Proof.
  revert pc. induction fuel as [|fuel IH]; intros [|b pc] Hf Hpc; cbn [has_op_success]; try done; [cbn in Hf; lia|].
  destruct (GetScriptOp (b :: pc)) as [[[opcode v] pc']|] eqn:E; [|done].
  destruct (GetScriptOp_bytes _ _ _ _ E Hpc) as (Hlt & _ & _ & Hpc'). apply safe_if; [done|]. intros _. apply IH; [|done]. cbn in *. lia.
Qed.

(** A witness: byte strings of any length, and not too many to count. *)
Definition witness_ok (w : list valtype) : Prop := Forall (Forall is_byte) w /\ Z.of_nat (length w) < 2 ^ 32.

Lemma witness_ok_cons x w : witness_ok (x :: w) -> Forall is_byte x /\ witness_ok w.
Proof. intros [Hw Hl]. apply Forall_cons in Hw as [? ?]. cbn in Hl. split; [done|]. split; [done|lia]. Qed.

Lemma ExecuteWitnessScript_safe s script flags sv d :
  sv <> TAPROOT -> Forall is_byte script -> witness_ok s ->
  (sv = TAPSCRIPT -> script_path d) ->
  safe (fun _ => True) (ExecuteWitnessScript s script flags sv d).
Proof.
  intros Hsv Hscript [Hs Hlen] Hd. assert (Hrun : safe (fun _ => True) (run_witness_script s script flags sv d)).
  { unfold run_witness_script. apply safe_guard. intros Hsize. rewrite forallb_forall in Hsize. eapply safe_bind.
    - apply EvalScript_safe; try done. apply Forall_forall. intros v Hv. rewrite Forall_forall in Hs.
      split; [by apply Hs|]. specialize (Hsize v (proj1 (list_elem_of_In _ _) Hv)). cbn in Hsize. lia.
    - intros [[|x [|y l]] d'] _; try done. by apply safe_guard. }
  unfold ExecuteWitnessScript. case_decide; [|done]. eapply safe_bind; [by apply has_op_success_safe|].
  intros b _. apply safe_if; intros _; by apply safe_guard.
Qed.

Lemma drop_annex_ok w s d d' :
  drop_annex w d = (s, d') -> witness_ok w -> w <> [] -> witness_ok s /\ s <> [] /\ is_Some (m_annex d').
Proof.
  unfold drop_annex. intros E Hw Hne. repeat case_match; simplify_eq; (split; [|split; [done|by eexists]]); try done.
  by apply witness_ok_cons in Hw as [_ ?].
Qed.

Lemma commitment_answers control program h :
  size program = 32 ->
  negb ((size control <? TAPROOT_CONTROL_BASE_SIZE) || (TAPROOT_CONTROL_MAX_SIZE <? size control)
        || negb ((size control - TAPROOT_CONTROL_BASE_SIZE) mod TAPROOT_CONTROL_NODE_SIZE =? 0)) = true ->
  is_Some (VerifyTaprootCommitment control program h).
Proof.
  intros Hp Hc. unfold VerifyTaprootCommitment, ComputeTaprootMerkleRoot. rewrite Hp.
  destruct (Z.ltb_spec (size control) TAPROOT_CONTROL_BASE_SIZE), (Z.ltb_spec TAPROOT_CONTROL_MAX_SIZE (size control)); try done.
  destruct (Z.leb_spec TAPROOT_CONTROL_BASE_SIZE (size control)), (Z.leb_spec (size control) TAPROOT_CONTROL_MAX_SIZE); try lia.
  cbn [orb] in Hc. rewrite negb_involutive in Hc. rewrite Hc. cbn. by eexists.
Qed.

Lemma VerifyTaproot_safe witness program flags :
  (witness <> [] -> taproot) -> witness_ok witness -> size program = 32 -> safe (fun _ => True) (VerifyTaproot witness program flags).
Proof.
  intros Ht Hw Hp. unfold VerifyTaproot. apply safe_if; [done|]. intros _. apply safe_guard. intros Hne.
  specialize (Ht ltac:(by intros ->)). destruct (drop_annex _ _) as [s d] eqn:E. destruct (drop_annex_ok _ _ _ _ E) as (Hs & Hsne & Ha).
  { destruct Hw. split; [by apply Forall_reverse|by rewrite length_reverse]. }
  { intros Hr. apply (f_equal length) in Hr. rewrite length_reverse in Hr. by rewrite Hr in Hne. }
  destruct s as [|control [|script s]]; [done| |].
  { eapply safe_bind; [apply schnorr_answers; auto|]. done. }
  apply witness_ok_cons in Hs as [Hcontrol [Hscript Hs]%witness_ok_cons].
  unfold taproot_script_path. apply safe_guard. intros Hc. cbn zeta. eapply (safe_bind (fun _ => True)).
  { apply safe_asserted. destruct (commitment_answers control program (ComputeTapleafHash (Z.land (byte_at control 0) TAPROOT_LEAF_MASK) script) Hp Hc) as [b Hb].
    by exists b. }
  intros b _. apply safe_guard. intros _. apply safe_if; intros _; [|by apply safe_guard].
  by apply ExecuteWitnessScript_safe.
Qed.

Lemma push_data_bytes b : Forall is_byte b -> Forall is_byte (push_data b).
Proof.
  intros Hb. unfold push_data. apply Forall_app. split; [|done]. pose proof (wrapu_in 8 (size b) ltac:(lia)).
  repeat case_match; repeat first [apply le_bytes_is_byte | apply Forall_nil_2 | apply Forall_cons_2]; try done.
  all: unfold in_u, OP_PUSHDATA1, OP_PUSHDATA2, OP_PUSHDATA4; lia.
Qed.

Lemma VerifyWitnessProgram_safe witness version program flags is_p2sh :
  (version = 1 -> size program = 32 -> is_p2sh = false -> witness <> [] -> taproot) ->
  witness_ok witness -> Forall is_byte program -> safe (fun _ => True) (VerifyWitnessProgram witness version program flags is_p2sh).
Proof.
  intros Ht Hw Hp. assert (Hr : witness_ok (reverse witness)) by (destruct Hw; split; [by apply Forall_reverse|by rewrite length_reverse]).
  unfold VerifyWitnessProgram. apply safe_if; intros _.
  - apply safe_if; intros _.
    + destruct (reverse witness) as [|script s]; [done|]. apply witness_ok_cons in Hr as [? ?]. apply safe_guard. intros _.
      by apply ExecuteWitnessScript_safe.
    + apply safe_if; intros _; [|done]. apply safe_guard. intros _. apply ExecuteWitnessScript_safe; try done.
      apply Forall_app_2; [|apply Forall_app_2; [by apply push_data_bytes|]]; repeat constructor; vm_compute; done.
  - apply safe_if; [|by intros _; apply safe_guard]. intros [[Hv%Z.eqb_eq Hs%Z.eqb_eq]%andb_true_iff Hn%negb_true_iff]%andb_true_iff.
    apply VerifyTaproot_safe; auto.
Qed.

Lemma IsWitnessProgram_bytes script version program :
  IsWitnessProgram script = Some (version, program) -> Forall is_byte script -> Forall is_byte program.
Proof.
  unfold IsWitnessProgram. intros E Hs. repeat case_match; simplify_eq. apply bind_Some in E as (v & _ & E). simplify_eq.
  by apply Forall_drop.
Qed.

(** *** Every state of a run *)

(** The states the loop passes through. *)
Inductive reaches (flags : Z) (sv : SigVersion) (pc : bytes) (m : machine) : bytes -> Z -> machine -> Prop :=
| reaches_start : reaches flags sv pc m pc 0 m
| reaches_next pc1 p1 m1 opcode v pc2 m2 :
    reaches flags sv pc m pc1 p1 m1 ->
    GetScriptOp pc1 = Some (opcode, v, pc2) -> step flags sv opcode v pc2 p1 m1 = Ok m2 ->
    reaches flags sv pc m pc2 (wrapu 32 (p1 + 1)) m2.

Lemma safe_inv {A} (P : A -> Prop) r a : safe P r -> r = Ok a -> P a.
Proof. by intros Hs ->. Qed.

Lemma reaches_ok flags sv pc m pc' p' m' :
  reaches flags sv pc m pc' p' m' -> sv <> TAPROOT -> Forall is_byte pc -> machine_ok sv m -> Z.of_nat (length (stack m)) < 2 ^ 32 ->
  Forall is_byte pc' /\ machine_ok sv m' /\ stack_depth m' <= Z.max MAX_STACK_SIZE (stack_depth m) /\ Z.of_nat (length (stack m')) < 2 ^ 32.
Proof.
  intros Hr Hsv Hpc Hm Hlen. induction Hr as [|pc1 p1 m1 opcode v pc2 m2 _ IH E Hstep]; [split_and!; try done; lia|].
  destruct IH as (Hpc1 & Hm1 & Hd1 & Hl1). destruct (GetScriptOp_bytes _ _ _ _ E Hpc1) as (_ & Ho & Hv & Hpc2).
  destruct (safe_inv _ _ _ (step_safe flags sv opcode v pc2 p1 m1 Hsv Hm1 Hl1 Ho Hv) Hstep) as [Hm2 Hd2].
  split; [done|]. split; [done|]. unfold stack_depth, MAX_STACK_SIZE in *. lia.
Qed.

(** What a run returns is the last of its states. *)
Lemma run_reaches fuel flags sv pc0 m0 pc p m m' :
  reaches flags sv pc0 m0 pc p m -> run fuel flags sv pc p m = Ok m' -> exists p', reaches flags sv pc0 m0 [] p' m'.
Proof.
  revert pc p m. induction fuel as [|fuel IH]; intros [|b pc] p m Hr; cbn [run]; try done; try (intros [= <-]; eauto; fail).
  destruct (GetScriptOp (b :: pc)) as [[[opcode v] pc']|] eqn:E; [|done]. intros (m1 & Hstep & Hrun)%bind_ok.
  eapply IH; [|exact Hrun]. by eapply reaches_next.
Qed.

(** C13: Limits.  Whenever the interpreter has executed an instruction, the two stacks together
    hold at most 1000 elements (or as many as it was given), no element is longer than 520
    bytes, and at most 201 operations have been counted, each key of a multiple signature
    included. *)
Theorem EvalScript_bounded s script flags sv d pc p m :
  sv <> TAPROOT -> Forall is_byte script -> Forall elem_ok s -> Z.of_nat (length s) < 2 ^ 32 ->
  (sv = TAPSCRIPT -> script_path d) ->
  reaches flags sv script (start s script d) pc p m ->
  Z.of_nat (length (stack m)) + Z.of_nat (length (altstack m)) <= Z.max MAX_STACK_SIZE (Z.of_nat (length s)) /\
  Forall (fun v => size v <= MAX_SCRIPT_ELEMENT_SIZE) (stack m ++ altstack m) /\
  nOpCount m <= MAX_OPS_PER_SCRIPT.
Proof.
  intros Hsv Hscript Hs Hlen Hd Hr.
  destruct (reaches_ok _ _ _ _ _ _ _ Hr Hsv Hscript (start_ok s script sv d Hs Hd Hsv) Hlen) as (_ & (H1 & H2 & _ & _ & H3) & H4 & _).
  unfold stack_depth in H4. cbn [start altstack length stack] in H4. split; [lia|]. split; [|done].
  apply Forall_app. split; (eapply Forall_impl; [eassumption|]); by intros v [_ ?].
Qed.

(** ** [VerifyScript] *)

(** An output that a Taproot key locks, spent with a witness. *)
Definition taproot_spend (scriptPubKey : bytes) (witness : list valtype) : Prop :=
  exists program, IsWitnessProgram scriptPubKey = Some (1, program) /\ size program = 32 /\ witness <> [].

Lemma witness_part_safe script scriptSig expected e witness flags is_p2sh s had :
  Forall is_byte script -> witness_ok witness -> (is_p2sh = false -> taproot_spend script witness -> taproot) ->
  safe (fun _ => True) (witness_part script scriptSig expected e witness flags is_p2sh s had).
Proof.
  intros Hs Hw Ht. unfold witness_part. apply safe_if; [|done]. intros _. destruct (IsWitnessProgram script) as [[version program]|] eqn:E; [|done].
  apply safe_guard. intros _. eapply safe_bind; [|done]. eapply VerifyWitnessProgram_safe; [|done|by eapply IsWitnessProgram_bytes].
  intros -> Hsize Hp Hne. apply Ht; [done|]. by exists program.
Qed.

(** A script that pays to a script hash takes an element: it fails on an empty stack. *)
Lemma P2SH_needs_element scriptPubKey flags d : IsPayToScriptHash scriptPubKey = true -> is_ok (EvalScript [] scriptPubKey flags BASE d) = false.
Proof.
  unfold IsPayToScriptHash. intros E. destruct scriptPubKey as [|b rest]; [done|].
  assert (b = 0xa9) as -> by (change (byte_at (b :: rest) 0) with b in E; unfold Script.OP_HASH160 in E; lia).
  assert (Hsize : size (0xa9 :: rest) = 23) by lia. unfold EvalScript. rewrite Hsize.
  change (negb ((_ || _) && (MAX_SCRIPT_SIZE <? 23))) with true. cbn [bool_decide decide decide_rel SigVersion_eq_dec negb length run].
  change (GetScriptOp (0xa9 :: rest)) with (Some (0xa9, @nil Z, rest)). cbn iota beta.
  change (step flags BASE 0xa9 [] rest 0 (start [] (0xa9 :: rest) d)) with (@stack_error machine). done.
Qed.

Lemma EvalScript_base_safe s script flags :
  Forall is_byte script -> Forall elem_ok s -> Z.of_nat (length s) <= MAX_STACK_SIZE ->
  safe (fun r => Forall elem_ok r.1 /\ Z.of_nat (length r.1) <= MAX_STACK_SIZE) (EvalScript s script flags BASE no_execdata).
Proof.
  intros Hscript Hs Hlen. unfold MAX_STACK_SIZE in Hlen. eapply safe_mono; [apply EvalScript_safe; try done; lia|].
  intros r [? ?]. unfold MAX_STACK_SIZE in *. split; [done|lia].
Qed.

Lemma p2sh_part_safe scriptSig scriptPubKey witness flags stackCopy s had d r :
  witness_ok witness -> Forall elem_ok stackCopy -> Z.of_nat (length stackCopy) <= MAX_STACK_SIZE ->
  EvalScript stackCopy scriptPubKey flags BASE d = Ok r ->
  safe (fun _ => True) (p2sh_part scriptSig scriptPubKey witness flags stackCopy s had).
Proof.
  intros Hw Hs Hlen Hrun. unfold p2sh_part. apply safe_if; [|done]. intros [_ Hp]%andb_true_iff. apply safe_guard. intros _.
  destruct stackCopy as [|pubKey2 s2]; [by pose proof (P2SH_needs_element _ flags d Hp) as Hno; rewrite Hrun in Hno|].
  apply Forall_cons in Hs as [[Hb _] Hs]. eapply safe_bind; [apply EvalScript_base_safe; [done|done|cbn in Hlen; lia]|].
  intros [s3 d3] _. eapply (safe_bind (fun _ => True)); [|intros _ _; by apply witness_part_safe].
  destruct s3; [done|]. by apply safe_guard.
Qed.

Lemma VerifyScript_safe scriptSig scriptPubKey witness flags :
  Forall is_byte scriptSig -> Forall is_byte scriptPubKey -> witness_ok witness -> consistent flags = true ->
  (taproot_spend scriptPubKey witness -> taproot) ->
  safe (fun _ => True) (VerifyScript scriptSig scriptPubKey witness flags).
Proof.
  intros Hsig Hpk Hw Hf Ht.
  unfold VerifyScript. apply safe_guard. intros _. eapply safe_bind; [by apply EvalScript_base_safe; [|constructor|]|].
  intros [stackCopy d1] [Hs1 Hl1]. destruct (EvalScript stackCopy scriptPubKey flags BASE no_execdata) as [[s2 d2]|e] eqn:E.
  2: { pose proof (EvalScript_base_safe stackCopy scriptPubKey flags Hpk Hs1 Hl1) as Hs. rewrite E in Hs. by destruct e. }
  cbn [mbind result_bind]. eapply (safe_bind (fun _ => True)); [destruct s2; [done|by apply safe_guard]|]. intros _ _.
  eapply safe_bind; [by apply witness_part_safe|]. intros [s3 had3] _.
  eapply safe_bind; [by eapply p2sh_part_safe|]. intros [s4 had4] _.
  unfold consistent in Hf. apply andb_true_iff in Hf as [Hf1 Hf2]. rewrite Hf2, Hf1. by do 2 (apply safe_guard; intros _).
Qed.
End Safe.

(** No assertion fails.  On scripts and witnesses made of bytes, under flags that go
    together, with a checker that keeps its promises, [VerifyScript] returns a verdict: no
    number overflows, no condition is missing, every key a multiple signature needs is there,
    the weight of a Taproot spend is known when it is charged, and the script that was hashed
    is on the stack when it is to be run. *)
Theorem VerifyScript_never_asserts `{CryptoSizes} `{!BaseSignatureChecker} scriptSig scriptPubKey witness flags :
  CheckerOk (taproot_spend scriptPubKey witness) ->
  Forall is_byte scriptSig -> Forall is_byte scriptPubKey -> witness_ok witness -> consistent flags = true ->
  VerifyScript scriptSig scriptPubKey witness flags <> Throw Aborts.
Proof.
  intros HK Hsig Hpk Hw Hf E. pose proof (VerifyScript_safe scriptSig scriptPubKey witness flags Hsig Hpk Hw Hf id) as Hs.
  by rewrite E in Hs.
Qed.

(** ** Examples *)

Lemma sample_sizes : CryptoSizes (H := sample_crypto).
Proof. split; intros b; first [apply length_le_bytes|apply le_bytes_is_byte]. Qed.

Lemma sample_checker_ok : CheckerOk (H := sample_checker) True.
Proof. split; [by eexists|done]. Qed.

Definition sample_script : bytes := [value OP_3DUP; value OP_TOALTSTACK].
Definition sample_stack : list valtype := [[1]; [2]; [3]].

(** After both instructions: five elements on the one stack and one on the other. *)
Definition sample_machine : machine :=
  with_op_count (with_stacks (start sample_stack sample_script no_execdata) [[2]; [3]; [1]; [2]; [3]] [[1]]) 2.

Lemma EvalScript_bounded_witness :
  (reaches (C := sample_crypto) (K := sample_checker) 0 BASE sample_script (start sample_stack sample_script no_execdata) [] 2 sample_machine) /\
  Z.of_nat (length (stack sample_machine)) + Z.of_nat (length (altstack sample_machine)) <= Z.max MAX_STACK_SIZE (Z.of_nat (length sample_stack)) /\
  Forall (fun v => size v <= MAX_SCRIPT_ELEMENT_SIZE) (stack sample_machine ++ altstack sample_machine) /\
  nOpCount sample_machine <= MAX_OPS_PER_SCRIPT.
Proof.
  assert (Hr : reaches (C := sample_crypto) (K := sample_checker) 0 BASE sample_script (start sample_stack sample_script no_execdata) [] 2 sample_machine).
  { eapply (reaches_next _ _ _ _ [value OP_TOALTSTACK] 1 (with_op_count (with_stack (start sample_stack sample_script no_execdata) [[1]; [2]; [3]; [1]; [2]; [3]]) 1));
      [|reflexivity|vm_compute; reflexivity].
    eapply (reaches_next _ _ _ _ sample_script 0); [apply reaches_start|reflexivity|vm_compute; reflexivity]. }
  split; [exact Hr|].
  refine (EvalScript_bounded (C := sample_crypto) (CS := sample_sizes) (K := sample_checker) (KO := sample_checker_ok) _ _ _ _ _ _ _ _ _ _ _ _ _ Hr).
  - discriminate.
  - by apply byte_list_ok.
  - repeat constructor; cbn; try lia; done.
  - reflexivity.
  - discriminate.
Defined.
