(* ===== verification/SigHash.v ===== *)
(** * What a signature signs (src/src/script/interpreter.cpp, src/src/script/interpreter.h,
    src/src/script/sigcache.cpp, [CScriptCheck] of src/src/validation.cpp)

    [SignatureHash] hashes a transaction for a signature: the old way, by serializing a copy
    with parts left out, and the way of segregated witnesses, from hashes of the parts that
    [PrecomputedTransactionData] keeps for all inputs; [SignatureHashSchnorr] is the way of
    Taproot.  [GenericTransactionSignatureChecker] answers the interpreter with them.

    Shown here: the kept hashes change no signature hash; a signature for all of a transaction
    commits to it; the checker keeps the promises the interpreter relies on, so the check of an
    input of a transaction never fails an assertion; and the cache of verified signatures
    changes no answer. *)

From stdpp Require Import strings.
From S2P Require Import Prelude Serialize Amounts Script Transaction Coins TxVerify Interpreter SoftForks ScriptSafety.
Import Op.

Open Scope Z_scope.

(** Verification under a public key, of a hash: the key, the hash and the signature. *)
Class SignatureScheme := {
  ECDSA_Verify : bytes -> uint256 -> bytes -> bool;
  VerifySchnorr : bytes -> uint256 -> bytes -> bool;
}.

(** ** The old signature hash *)

(** Where [GetScriptOp] leaves the iterator when it fails. *)
Definition GetScriptOp_stop (pc : bytes) : bytes :=
  match pc with
  | [] => []
  | opcode :: pc =>
      if opcode =? OP_PUSHDATA1 then if size pc <? 1 then pc else drop 1 pc
      else if opcode =? OP_PUSHDATA2 then if size pc <? 2 then pc else drop 2 pc
      else if opcode =? OP_PUSHDATA4 then if size pc <? 4 then pc else drop 4 pc
      else pc
  end.

(** The loops of [SerializeScriptCode]: the number of code separators and the script without
    them, up to where reading fails. *)
Fixpoint script_code_loop (fuel : nat) (it : bytes) : Z * bytes :=
  match fuel with
  | O => (0, it)
  | S fuel =>
      match GetScriptOp it with
      | None => (0, take (length it - length (GetScriptOp_stop it)) it)
      | Some (opcode, _, rest) =>
          let '(n, written) := script_code_loop fuel rest in
          if opcode =? value OP_CODESEPARATOR then (n + 1, written)
          else (n, (take (length it - length rest) it ++ written)%list)
      end
  end.

Definition SerializeScriptCode (scriptCode : bytes) : bytes :=
  let '(nCodeSeparators, written) := script_code_loop (S (length scriptCode)) scriptCode in
  (WriteCompactSize (size scriptCode - nCodeSeparators) ++ written)%list.

(** An output as a [HashWriter] serializes it. *)
Definition Hash_CTxOut (o : CTxOut) : bytes := CTxOut_Serialize SER_GETHASH 0 o.

Definition hash_type (nHashType : Z) : Z := Z.land nHashType 0x1f.
Definition fAnyoneCanPay (nHashType : Z) : bool := negb (Z.land nHashType SIGHASH_ANYONECANPAY =? 0).
Definition fHashSingle (nHashType : Z) : bool := hash_type nHashType =? SIGHASH_SINGLE.
Definition fHashNone (nHashType : Z) : bool := hash_type nHashType =? SIGHASH_NONE.

Definition SerializeInput (txTo : CTransaction) (scriptCode : bytes) (nIn : nat) (nHashType : Z) (nInput : nat) : option bytes :=
  let nInput := if fAnyoneCanPay nHashType then nIn else nInput in
  i ← vin txTo !! nInput;
  Some (COutPoint_Serialize (prevout i)
        ++ (if (nInput =? nIn)%nat then SerializeScriptCode scriptCode else Serialize_bytes [])
        ++ (if negb (nInput =? nIn)%nat && (fHashSingle nHashType || fHashNone nHashType) then Serialize_i32 0
            else ser_writedata32 (nSequence i)))%list.

Definition SerializeOutput (txTo : CTransaction) (nIn : nat) (nHashType : Z) (nOutput : nat) : option bytes :=
  if fHashSingle nHashType && negb (nOutput =? nIn)%nat then Some (Hash_CTxOut CTxOut_null)
  else Hash_CTxOut <$> vout txTo !! nOutput.

(** The transaction with the modifications for the signature hash; [None] where the code
    would read past an end. *)
Definition CTransactionSignatureSerializer (txTo : CTransaction) (scriptCode : bytes) (nIn : nat) (nHashType : Z) : option bytes :=
  let nInputs := if fAnyoneCanPay nHashType then 1%nat else length (vin txTo) in
  let nOutputs := if fHashNone nHashType then 0%nat else if fHashSingle nHashType then S nIn else length (vout txTo) in
  ins ← mapM (SerializeInput txTo scriptCode nIn nHashType) (seq 0 nInputs);
  outs ← mapM (SerializeOutput txTo nIn nHashType) (seq 0 nOutputs);
  Some (Serialize_i32 (nVersion txTo)
        ++ WriteCompactSize (Z.of_nat nInputs) ++ mjoin ins
        ++ WriteCompactSize (Z.of_nat nOutputs) ++ mjoin outs
        ++ ser_writedata32 (nLockTime txTo))%list.

Section Hashing.
Context {C : Crypto}.

(** ** Hashes of the parts *)

Definition GetPrevoutsSHA256 (tx : CTransaction) : uint256 := sha256 (mjoin ((fun i => COutPoint_Serialize (prevout i)) <$> vin tx)).
Definition GetSequencesSHA256 (tx : CTransaction) : uint256 := sha256 (mjoin ((fun i => ser_writedata32 (nSequence i)) <$> vin tx)).
Definition GetOutputsSHA256 (tx : CTransaction) : uint256 := sha256 (mjoin (Hash_CTxOut <$> vout tx)).
Definition GetSpentAmountsSHA256 (outs : list CTxOut) : uint256 := sha256 (mjoin ((fun o => Serialize_i64 (nValue o)) <$> outs)).
Definition GetSpentScriptsSHA256 (outs : list CTxOut) : uint256 := sha256 (mjoin ((fun o => Serialize_bytes (scriptPubKey o)) <$> outs)).

Record PrecomputedTransactionData := {
  m_prevouts_single_hash : uint256;
  m_sequences_single_hash : uint256;
  m_outputs_single_hash : uint256;
  m_spent_amounts_single_hash : uint256;
  m_spent_scripts_single_hash : uint256;
  m_bip341_taproot_ready : bool;
  hashPrevouts : uint256;
  hashSequence : uint256;
  hashOutputs : uint256;
  m_bip143_segwit_ready : bool;
  m_spent_outputs : list CTxOut;
  m_spent_outputs_ready : bool;
}.

(** [PrecomputedTransactionData()]. *)
Definition no_txdata : PrecomputedTransactionData :=
  {| m_prevouts_single_hash := uint256_null; m_sequences_single_hash := uint256_null; m_outputs_single_hash := uint256_null;
     m_spent_amounts_single_hash := uint256_null; m_spent_scripts_single_hash := uint256_null; m_bip341_taproot_ready := false;
     hashPrevouts := uint256_null; hashSequence := uint256_null; hashOutputs := uint256_null; m_bip143_segwit_ready := false;
     m_spent_outputs := []; m_spent_outputs_ready := false |}.

(** The first loop of [Init]: which of the two ways to hash the inputs use; it stops when both
    are known to be used. *)
Fixpoint uses (ready : bool) (ins : list CTxIn) (spent : list CTxOut) (segwit taproot : bool) : bool * bool :=
  match ins with
  | [] => (segwit, taproot)
  | i :: ins =>
      if segwit && taproot then (segwit, taproot)
      else if (length (scriptWitness i) =? 0)%nat then uses ready ins (tail spent) segwit taproot
      else
        let script := from_option scriptPubKey [] (head spent) in
        if ready && (size script =? 2 + WITNESS_V1_TAPROOT_SIZE) && (byte_at script 0 =? value OP_1)
        then uses ready ins (tail spent) segwit true
        else uses ready ins (tail spent) true taproot
  end.

Definition Init (d : PrecomputedTransactionData) (txTo : CTransaction) (spent_outputs : list CTxOut) (force : bool)
  : option PrecomputedTransactionData :=
  if m_spent_outputs_ready d then None
  else if negb (length spent_outputs =? 0)%nat && negb (length spent_outputs =? length (vin txTo))%nat then None
  else
    let ready := negb (length spent_outputs =? 0)%nat in
    let '(segwit, taproot) := uses ready (vin txTo) spent_outputs force force in
    let shared := segwit || taproot in
    let prevouts := if shared then GetPrevoutsSHA256 txTo else m_prevouts_single_hash d in
    let sequences := if shared then GetSequencesSHA256 txTo else m_sequences_single_hash d in
    let outputs := if shared then GetOutputsSHA256 txTo else m_outputs_single_hash d in
    Some
      {| m_prevouts_single_hash := prevouts; m_sequences_single_hash := sequences; m_outputs_single_hash := outputs;
         m_spent_amounts_single_hash := if taproot && ready then GetSpentAmountsSHA256 spent_outputs else m_spent_amounts_single_hash d;
         m_spent_scripts_single_hash := if taproot && ready then GetSpentScriptsSHA256 spent_outputs else m_spent_scripts_single_hash d;
         m_bip341_taproot_ready := (taproot && ready) || m_bip341_taproot_ready d;
         hashPrevouts := if segwit then sha256 prevouts else hashPrevouts d;
         hashSequence := if segwit then sha256 sequences else hashSequence d;
         hashOutputs := if segwit then sha256 outputs else hashOutputs d;
         m_bip143_segwit_ready := segwit || m_bip143_segwit_ready d;
         m_spent_outputs := spent_outputs; m_spent_outputs_ready := ready |}.

(** ** [SignatureHash] *)

Definition uint256_one : uint256 := 1 :: replicate 31 0.

(** The three hashes of the way of segregated witnesses. *)
Definition prevouts_part (tx : CTransaction) (nHashType : Z) (cache : option PrecomputedTransactionData) : uint256 :=
  if fAnyoneCanPay nHashType then uint256_null
  else match cache with Some c => hashPrevouts c | None => sha256 (GetPrevoutsSHA256 tx) end.

Definition sequence_part (tx : CTransaction) (nHashType : Z) (cache : option PrecomputedTransactionData) : uint256 :=
  if fAnyoneCanPay nHashType || fHashSingle nHashType || fHashNone nHashType then uint256_null
  else match cache with Some c => hashSequence c | None => sha256 (GetSequencesSHA256 tx) end.

Definition outputs_part (tx : CTransaction) (nIn : nat) (nHashType : Z) (cache : option PrecomputedTransactionData) : uint256 :=
  if negb (fHashSingle nHashType) && negb (fHashNone nHashType)
  then match cache with Some c => hashOutputs c | None => sha256 (GetOutputsSHA256 tx) end
  else if fHashSingle nHashType
       then match vout tx !! nIn with Some o => hash256 (Hash_CTxOut o) | None => uint256_null end
       else uint256_null.

(** What is hashed for a witness of version 0. *)
Definition witness_v0_message (scriptCode : bytes) (tx : CTransaction) (nIn : nat) (i : CTxIn) (nHashType amount : Z)
  (cache : option PrecomputedTransactionData) : bytes :=
  (Serialize_i32 (nVersion tx)
   ++ prevouts_part tx nHashType cache
   ++ sequence_part tx nHashType cache
   ++ COutPoint_Serialize (prevout i)
   ++ Serialize_bytes scriptCode
   ++ Serialize_i64 amount
   ++ ser_writedata32 (nSequence i)
   ++ outputs_part tx nIn nHashType cache
   ++ ser_writedata32 (nLockTime tx)
   ++ Serialize_i32 nHashType)%list.

Definition SignatureHash (scriptCode : bytes) (txTo : CTransaction) (nIn : nat) (nHashType amount : Z) (sigversion : SigVersion)
  (cache : option PrecomputedTransactionData) : option uint256 :=
  i ← vin txTo !! nIn;
  if decide (sigversion = WITNESS_V0) then
    let cache := match cache with Some c => if m_bip143_segwit_ready c then Some c else None | None => None end in
    Some (hash256 (witness_v0_message scriptCode txTo nIn i nHashType amount cache))
  else if fHashSingle nHashType && (length (vout txTo) <=? nIn)%nat then Some uint256_one
  else
    t ← CTransactionSignatureSerializer txTo scriptCode nIn nHashType;
    Some (hash256 (t ++ Serialize_i32 nHashType)%list).

(** ** [SignatureHashSchnorr] *)

Inductive MissingDataBehavior := ASSERT_FAIL | FAIL.

(** [HandleMissingData]: [None] is the assertion. *)
Definition HandleMissingData (mdb : MissingDataBehavior) : option bool :=
  match mdb with ASSERT_FAIL => None | FAIL => Some false end.

Definition valid_hash_type (hash_type : Z) : bool := (hash_type <=? 0x03) || ((0x81 <=? hash_type) && (hash_type <=? 0x83)).

Definition output_type (hash_type : Z) : Z := if hash_type =? SIGHASH_DEFAULT then SIGHASH_ALL else Z.land hash_type SIGHASH_OUTPUT_MASK.
Definition input_type (hash_type : Z) : Z := Z.land hash_type SIGHASH_INPUT_MASK.

(** The hash of the one output, which is kept. *)
Definition single_output (execdata : ScriptExecutionData) (o : CTxOut) : ScriptExecutionData * uint256 :=
  match m_output_hash execdata with
  | Some h => (execdata, h)
  | None => let h := sha256 (Hash_CTxOut o) in (with_output_hash execdata h, h)
  end.

(** What is hashed for a Taproot spend: [output] is the hash of the one output that is signed,
    if it is one, and [extension] what a script path adds. *)
Definition taproot_message (tx : CTransaction) (in_pos : nat) (i : CTxIn) (spent : CTxOut) (hash_type : Z) (ext_flag : Z)
  (cache : PrecomputedTransactionData) (annex : option uint256) (output extension : bytes) : bytes :=
  (TaggedHash "TapSighash" ++ [0] ++ ser_writedata8 hash_type
   ++ Serialize_i32 (nVersion tx) ++ ser_writedata32 (nLockTime tx)
   ++ (if input_type hash_type =? SIGHASH_ANYONECANPAY then []
       else m_prevouts_single_hash cache ++ m_spent_amounts_single_hash cache ++ m_spent_scripts_single_hash cache
            ++ m_sequences_single_hash cache)
   ++ (if output_type hash_type =? SIGHASH_ALL then m_outputs_single_hash cache else [])
   ++ ser_writedata8 (Z.shiftl ext_flag 1 + match annex with Some _ => 1 | None => 0 end)
   ++ (if input_type hash_type =? SIGHASH_ANYONECANPAY
       then COutPoint_Serialize (prevout i) ++ Hash_CTxOut spent ++ ser_writedata32 (nSequence i)
       else ser_writedata32 (Z.of_nat in_pos))
   ++ default [] annex ++ output ++ extension)%list.

(** The additional data of a script path: leaf hash, key version and code separator. *)
Definition taproot_extension (sigversion : SigVersion) (execdata : ScriptExecutionData) : option bytes :=
  if decide (sigversion = TAPSCRIPT) then
    h ← m_tapleaf_hash execdata;
    p ← m_codeseparator_pos execdata;
    Some (h ++ [0] ++ ser_writedata32 p)%list
  else Some [].

(** The hash, if there is one, and the execution data; [None] is a failed assertion. *)
Definition SignatureHashSchnorr (execdata : ScriptExecutionData) (tx_to : CTransaction) (in_pos : nat) (hash_type : Z) (sigversion : SigVersion)
  (cache : PrecomputedTransactionData) (mdb : MissingDataBehavior) : option (option uint256 * ScriptExecutionData) :=
  ext_flag ← match sigversion with TAPROOT => Some 0 | TAPSCRIPT => Some 1 | _ => None end;
  i ← vin tx_to !! in_pos;
  if negb (m_bip341_taproot_ready cache && m_spent_outputs_ready cache) then
    _ ← HandleMissingData mdb; Some (None, execdata)
  else if negb (valid_hash_type hash_type) then Some (None, execdata)
  else
    annex ← m_annex execdata;
    spent ← (if input_type hash_type =? SIGHASH_ANYONECANPAY then m_spent_outputs cache !! in_pos else Some CTxOut_null);
    let single := output_type hash_type =? SIGHASH_SINGLE in
    match (if single then vout tx_to !! in_pos else None) with
    | None =>
        if single then Some (None, execdata)
        else
          extension ← taproot_extension sigversion execdata;
          Some (Some (sha256 (taproot_message tx_to in_pos i spent hash_type ext_flag cache annex [] extension)), execdata)
    | Some o =>
        let '(execdata, h) := single_output execdata o in
        extension ← taproot_extension sigversion execdata;
        Some (Some (sha256 (taproot_message tx_to in_pos i spent hash_type ext_flag cache annex h extension)), execdata)
    end.
End Hashing.

(** ** [GenericTransactionSignatureChecker] *)

(** [CPubKey::GetLen]: the length a first byte announces. *)
Definition GetLen (chHeader : Z) : Z :=
  if (chHeader =? 2) || (chHeader =? 3) then COMPRESSED_SIZE
  else if (chHeader =? 4) || (chHeader =? 6) || (chHeader =? 7) then PUBKEY_SIZE
  else 0.

(** Whether [CPubKey(vch)] is valid: the bytes are kept only if they are as many as announced. *)
Definition CPubKey_IsValid (vch : bytes) : bool := negb (size vch =? 0) && (GetLen (byte_at vch 0) =? size vch).

Section Checker.
Context {C : Crypto} {SS : SignatureScheme}.
Variable txTo : CTransaction.
Variable nIn : nat.
Variable amount : Z.
Variable txdata : option PrecomputedTransactionData.
Variable m_mdb : MissingDataBehavior.

Definition Generic_CheckECDSASignature (vchSigIn vchPubKey scriptCode : bytes) (sigversion : SigVersion) : option bool :=
  if negb (CPubKey_IsValid vchPubKey) then Some false
  else
    match last vchSigIn with
    | None => Some false
    | Some nHashType =>
        let vchSig := take (length vchSigIn - 1) vchSigIn in
        if bool_decide (sigversion = WITNESS_V0) && (amount <? 0) then HandleMissingData m_mdb
        else
          sighash ← SignatureHash scriptCode txTo nIn nHashType amount sigversion txdata;
          Some (ECDSA_Verify vchPubKey sighash vchSig)
    end.

Definition Generic_CheckSchnorrSignature (sig pubkey_in : bytes) (sigversion : SigVersion) (execdata : ScriptExecutionData)
  : outcome ScriptExecutionData :=
  guard! bool_decide (sigversion = TAPROOT) || bool_decide (sigversion = TAPSCRIPT) else Aborts;
  guard! size pubkey_in =? 32 else Aborts;
  guard! (size sig =? 64) || (size sig =? 65) else Fails SCRIPT_ERR_SCHNORR_SIG_SIZE;
  let hashtype := if size sig =? 65 then back sig else SIGHASH_DEFAULT in
  guard! negb ((size sig =? 65) && (hashtype =? SIGHASH_DEFAULT)) else Fails SCRIPT_ERR_SCHNORR_SIG_HASHTYPE;
  match txdata with
  | None => _ ← asserted (HandleMissingData m_mdb); Throw (Fails SCRIPT_ERR_UNKNOWN_ERROR)
  | Some data =>
      '(sighash, execdata) ← asserted (SignatureHashSchnorr execdata txTo nIn hashtype sigversion data m_mdb);
      match sighash with
      | None => Throw (Fails SCRIPT_ERR_SCHNORR_SIG_HASHTYPE)
      | Some sighash =>
          guard! VerifySchnorr pubkey_in sighash (take 64 sig) else Fails SCRIPT_ERR_SCHNORR_SIG;
          Ok execdata
      end
  end.

Definition input_sequence : Z := from_option nSequence 0 (vin txTo !! nIn).

Definition Generic_CheckLockTime (lockTime : Z) : bool :=
  if negb (((nLockTime txTo <? LOCKTIME_THRESHOLD) && (lockTime <? LOCKTIME_THRESHOLD))
           || ((LOCKTIME_THRESHOLD <=? nLockTime txTo) && (LOCKTIME_THRESHOLD <=? lockTime))) then false
  else if nLockTime txTo <? lockTime then false
  else if input_sequence =? SEQUENCE_FINAL then false
  else true.

Definition Generic_CheckSequence (sequence : Z) : bool :=
  if wrapu 32 (nVersion txTo) <? 2 then false
  else if negb (Z.land input_sequence SEQUENCE_LOCKTIME_DISABLE_FLAG =? 0) then false
  else
    let nLockTimeMask := Z.lor SEQUENCE_LOCKTIME_TYPE_FLAG SEQUENCE_LOCKTIME_MASK in
    let txToSequenceMasked := Z.land input_sequence nLockTimeMask in
    let nSequenceMasked := Z.land sequence nLockTimeMask in
    if negb (((txToSequenceMasked <? SEQUENCE_LOCKTIME_TYPE_FLAG) && (nSequenceMasked <? SEQUENCE_LOCKTIME_TYPE_FLAG))
             || ((SEQUENCE_LOCKTIME_TYPE_FLAG <=? txToSequenceMasked) && (SEQUENCE_LOCKTIME_TYPE_FLAG <=? nSequenceMasked))) then false
    else if txToSequenceMasked <? nSequenceMasked then false
    else true.

Definition TransactionSignatureChecker : BaseSignatureChecker := {|
  CheckECDSASignature := Generic_CheckECDSASignature;
  CheckSchnorrSignature := Generic_CheckSchnorrSignature;
  CheckLockTime := Generic_CheckLockTime;
  CheckSequence := Generic_CheckSequence;
|}.
End Checker.

(** ** The kept hashes *)

Section Facts.
Context {C : Crypto}.

Lemma Init_segwit tx spent force d :
  Init no_txdata tx spent force = Some d -> m_bip143_segwit_ready d = true ->
  hashPrevouts d = sha256 (GetPrevoutsSHA256 tx) /\ hashSequence d = sha256 (GetSequencesSHA256 tx) /\
  hashOutputs d = sha256 (GetOutputsSHA256 tx).
Proof.
  unfold Init. cbn [m_spent_outputs_ready no_txdata]. destruct (_ && _); [done|]. destruct (uses _ _ _ _ _) as [segwit tap]. intros [= <-].
  cbn. rewrite orb_false_r. by intros ->.
Qed.

Lemma SignatureHash_cached scriptCode tx nIn nHashType amount sigversion spent force d :
  Init no_txdata tx spent force = Some d ->
  SignatureHash scriptCode tx nIn nHashType amount sigversion (Some d) = SignatureHash scriptCode tx nIn nHashType amount sigversion None.
Proof.
  intros HI. unfold SignatureHash. destruct (vin tx !! nIn) as [i|]; [|done]. cbn [mbind option_bind]. case_decide; [|done].
  destruct (m_bip143_segwit_ready d) eqn:Hr; [|done]. destruct (Init_segwit tx spent force d HI Hr) as (H1 & H2 & H3).
  unfold witness_v0_message, prevouts_part, sequence_part, outputs_part. by rewrite H1, H2, H3.
Qed.

(** The kept hashes change no signature hash: whatever inputs made [Init] compute, every
    signature hash of every input is the one computed from the transaction alone. *)
Theorem SignatureHash_cache_transparent scriptCode tx nIn nHashType amount sigversion spent force d :
  Init no_txdata tx spent force = Some d ->
  SignatureHash scriptCode tx nIn nHashType amount sigversion (Some d) = SignatureHash scriptCode tx nIn nHashType amount sigversion None.
Proof. apply SignatureHash_cached. Qed.

(** *** What the interpreter will need is prepared *)

Lemma uses_mono ready ins spent segwit taproot :
  taproot = true -> (uses ready ins spent segwit taproot).2 = true.
Proof.
  intros ->. revert spent segwit. induction ins as [|i ins IH]; intros spent segwit; [done|]. cbn [uses].
  repeat (case_match; [by try apply IH|]). apply IH.
Qed.

Lemma uses_taproot ready ins spent n i o segwit taproot :
  ready = true -> ins !! n = Some i -> spent !! n = Some o -> scriptWitness i <> [] ->
  size (scriptPubKey o) = 34 -> byte_at (scriptPubKey o) 0 = 0x51 ->
  (uses ready ins spent segwit taproot).2 = true.
Proof.
  intros ->. revert ins spent segwit taproot. induction n as [|n IH]; intros [|j ins] [|o' spent] segwit taproot Hi Ho Hw Hsize Hfirst; try done.
  - cbn in Hi, Ho. simplify_eq. cbn [uses head tail from_option]. destruct (segwit && taproot) eqn:E; [by destruct segwit, taproot|].
    destruct (scriptWitness i); [done|]. rewrite Hsize, Hfirst. by apply uses_mono.
  - cbn in Hi, Ho. cbn [uses tail]. destruct (segwit && taproot) eqn:E; [by destruct segwit, taproot|].
    repeat (case_match; [by eapply IH|]). by eapply IH.
Qed.

Lemma witness_v1_script script program :
  IsWitnessProgram script = Some (1, program) -> size program = 32 -> size script = 34 /\ byte_at script 0 = 0x51.
Proof.
  unfold IsWitnessProgram. intros E Hp. repeat case_match; simplify_eq. apply bind_Some in E as (v & Hv & E). simplify_eq.
  unfold DecodeOP_N, OP_0, Script.OP_1 in Hv. unfold size in *. rewrite length_drop in Hp.
  split; [lia|]. repeat case_match; simplify_eq; lia.
Qed.

Lemma Init_taproot tx spent d n i o :
  Init no_txdata tx spent false = Some d -> vin tx !! n = Some i -> spent !! n = Some o ->
  taproot_spend (scriptPubKey o) (scriptWitness i) ->
  m_bip341_taproot_ready d = true /\ m_spent_outputs_ready d = true /\ m_spent_outputs d = spent.
Proof.
  intros HI Hi Ho (program & Hp & Hs & Hw). destruct (witness_v1_script _ _ Hp Hs) as [Hsize Hfirst].
  unfold Init in HI. cbn [m_spent_outputs_ready no_txdata] in HI. destruct (_ && _); [done|].
  assert (Hready : negb (length spent =? 0)%nat = true) by (destruct spent; [done|reflexivity]). rewrite Hready in HI.
  pose proof (uses_taproot true (vin tx) spent n i o false false eq_refl Hi Ho Hw Hsize Hfirst) as Hu.
  destruct (uses _ _ _ _ _) as [segwit tap]. cbn in Hu. subst tap. by injection HI as <-.
Qed.
End Facts.

(** ** The checker keeps its promises *)

Section Answers.
Context {C : Crypto} {SS : SignatureScheme}.

Lemma Serializer_answers tx scriptCode nIn nHashType :
  (nIn < length (vin tx))%nat -> fHashSingle nHashType && (length (vout tx) <=? nIn)%nat = false ->
  is_Some (CTransactionSignatureSerializer tx scriptCode nIn nHashType).
Proof.
  intros Hn Hs. unfold CTransactionSignatureSerializer. set (nInputs := if fAnyoneCanPay _ then _ else _).
  set (nOutputs := if fHashNone _ then _ else _).
  assert (is_Some (mapM (SerializeInput tx scriptCode nIn nHashType) (seq 0 nInputs))) as [ins ->].
  { apply mapM_is_Some_2, Forall_forall. intros k Hk%elem_of_seq.
    change (is_Some (SerializeInput tx scriptCode nIn nHashType k)). unfold SerializeInput. cbn zeta.
    assert (is_Some (vin tx !! (if fAnyoneCanPay nHashType then nIn else k))) as [i ->]; [|by eexists].
    apply lookup_lt_is_Some. unfold nInputs in Hk. destruct (fAnyoneCanPay nHashType); [done|]. lia. }
  assert (is_Some (mapM (SerializeOutput tx nIn nHashType) (seq 0 nOutputs))) as [outs ->]; [|by eexists].
  apply mapM_is_Some_2, Forall_forall. intros k Hk%elem_of_seq.
  change (is_Some (SerializeOutput tx nIn nHashType k)). unfold SerializeOutput.
  destruct (fHashSingle nHashType && negb (k =? nIn)%nat) eqn:E; [by eexists|]. apply fmap_is_Some, lookup_lt_is_Some.
  unfold nOutputs in Hk. destruct (fHashNone nHashType); [lia|]. destruct (fHashSingle nHashType); cbn [andb] in *; [|lia].
  apply Nat.leb_gt in Hs. apply negb_false_iff, Nat.eqb_eq in E. lia.
Qed.

Lemma SignatureHash_answers scriptCode tx nIn i nHashType amount sv cache :
  vin tx !! nIn = Some i -> is_Some (SignatureHash scriptCode tx nIn nHashType amount sv cache).
Proof.
  intros Hi. unfold SignatureHash. rewrite Hi. cbn [mbind option_bind]. case_decide; [by eexists|].
  destruct (fHashSingle nHashType && (length (vout tx) <=? nIn)%nat) eqn:E; [by eexists|].
  destruct (Serializer_answers tx scriptCode nIn nHashType (lookup_lt_Some _ _ _ Hi) E) as [t ->]. by eexists.
Qed.

(** The Taproot hash is there or is refused, and of the execution data only the hash of the
    output changes. *)
Lemma SignatureHashSchnorr_answers execdata tx n i hash_type sv d mdb :
  vin tx !! n = Some i -> m_bip341_taproot_ready d = true -> m_spent_outputs_ready d = true -> is_Some (m_spent_outputs d !! n) ->
  sv = TAPROOT \/ sv = TAPSCRIPT -> data_ready sv execdata ->
  exists h d' , SignatureHashSchnorr execdata tx n hash_type sv d mdb = Some (h, d') /\
    exists o, d' = {| m_tapleaf_hash := m_tapleaf_hash execdata; m_codeseparator_pos := m_codeseparator_pos execdata;
                      m_annex := m_annex execdata; m_validation_weight_left := m_validation_weight_left execdata; m_output_hash := o |}.
Proof.
  intros Hi Ht Ho [spent Hspent] Hsv Hd. unfold SignatureHashSchnorr.
  assert (Hsame : exists o, execdata = {| m_tapleaf_hash := m_tapleaf_hash execdata; m_codeseparator_pos := m_codeseparator_pos execdata;
                      m_annex := m_annex execdata; m_validation_weight_left := m_validation_weight_left execdata; m_output_hash := o |})
    by (exists (m_output_hash execdata); by destruct execdata).
  assert (exists e, match sv with TAPROOT => Some 0 | TAPSCRIPT => Some 1 | _ => None end = Some e) as [e ->] by (destruct Hsv; subst; eauto).
  rewrite Hi, Ht, Ho. cbn [mbind option_bind andb negb]. destruct (valid_hash_type hash_type); [|by exists None, execdata]. cbn [negb].
  assert (is_Some (m_annex execdata)) as [annex Ha] by (destruct Hsv; subst; apply Hd). rewrite Ha in Hsame |- *.
  assert (exists sp, (if input_type hash_type =? SIGHASH_ANYONECANPAY then m_spent_outputs d !! n else Some CTxOut_null) = Some sp) as [sp ->]
    by (case_match; eauto).
  cbn [mbind option_bind].
  assert (Hext : forall d0, m_tapleaf_hash d0 = m_tapleaf_hash execdata -> m_codeseparator_pos d0 = m_codeseparator_pos execdata ->
    is_Some (taproot_extension sv d0)).
  { intros d0 E1 E2. unfold taproot_extension. case_decide as E; [|by eexists]. rewrite E1, E2. subst sv.
    destruct Hd as (_ & [h ->] & [p ->]). by eexists. }
  destruct (output_type hash_type =? SIGHASH_SINGLE).
  - destruct (vout tx !! n) as [o|]; [|by exists None, execdata]. unfold single_output.
    destruct (m_output_hash execdata) as [h|].
    + destruct (Hext execdata eq_refl eq_refl) as [x ->]. by eexists _, _.
    + destruct (Hext (with_output_hash execdata (sha256 (Hash_CTxOut o))) eq_refl eq_refl) as [x ->].
      eexists _, _. split; [done|]. eexists. unfold with_output_hash. by rewrite Ha.
  - destruct (Hext execdata eq_refl eq_refl) as [x ->]. by eexists _, _.
Qed.

(** The checker of an input, with the data of [Init], in the mode of consensus code. *)
Lemma TransactionSignatureChecker_ok tx nIn i o spent d :
  vin tx !! nIn = Some i -> spent !! nIn = Some o -> Init no_txdata tx spent false = Some d -> 0 <= nValue o ->
  CheckerOk (H := TransactionSignatureChecker tx nIn (nValue o) (Some d) ASSERT_FAIL) (taproot_spend (scriptPubKey o) (scriptWitness i)).
Proof.
  intros Hi Ho HI Hv. split.
  - intros sig pubkey code sv _. cbn [CheckECDSASignature TransactionSignatureChecker]. unfold Generic_CheckECDSASignature.
    case_match; [by eexists|]. destruct (last sig) as [nHashType|]; [|by eexists].
    destruct (Z.ltb_spec (nValue o) 0); [lia|]. rewrite andb_false_r.
    destruct (SignatureHash_answers code tx nIn i nHashType (nValue o) sv (Some d) Hi) as [h ->]. by eexists.
  - intros sig pubkey sv data Ht Hsv Hsize Hd. cbn [CheckSchnorrSignature TransactionSignatureChecker]. unfold Generic_CheckSchnorrSignature.
    assert (bool_decide (sv = TAPROOT) || bool_decide (sv = TAPSCRIPT) = true) as -> by (by destruct Hsv; subst).
    rewrite Hsize. cbn [Z.eqb Pos.eqb]. apply safe_guard. intros _. cbn zeta. apply safe_guard. intros _.
    destruct (Init_taproot tx spent d nIn i o HI Hi Ho Ht) as (H1 & H2 & H3).
    set (hashtype := if size sig =? 65 then _ else _).
    destruct (SignatureHashSchnorr_answers data tx nIn i hashtype sv d ASSERT_FAIL Hi H1 H2 ltac:(rewrite H3; by eexists) Hsv Hd)
      as (h & d' & -> & x & ->).
    cbn [asserted mbind result_bind]. destruct h; [|done]. apply safe_guard. intros _. by eexists.
Qed.
End Answers.

(** ** A signature for all of a transaction commits to it *)

(** Formats that read back what they write can be told apart, whatever follows. *)
Lemma codec_app_inj {A} (put : A -> bytes) get valid `{!Codec put get valid} a b s t :
  valid a -> valid b -> (put a ++ s)%list = (put b ++ t)%list -> a = b /\ s = t.
Proof.
  intros Ha Hb E. pose proof (codec_get_put a s Ha) as Ga. pose proof (codec_get_put b t Hb) as Gb. rewrite E in Ga.
  rewrite Ga in Gb. by simplify_eq.
Qed.

Lemma codec_mjoin_inj {A} (put : A -> bytes) get valid `{!Codec put get valid} l1 l2 :
  (forall a, put a <> []) -> Forall valid l1 -> Forall valid l2 -> mjoin (put <$> l1) = mjoin (put <$> l2) -> l1 = l2.
Proof.
  intros Hne H1. revert l2. induction H1 as [|a l1 Ha _ IH]; intros [|b l2] H2 E; cbn in E; [done|..].
  - by destruct (put b) eqn:Eb; [destruct (Hne b)|].
  - by destruct (put a) eqn:Ea; [destruct (Hne a)|].
  - apply Forall_cons in H2 as [Hb H2]. destruct (codec_app_inj put get valid a b _ _ Ha Hb E) as [-> E']. f_equal. by apply IH.
Qed.

Lemma hash_part_inj (a b s t : bytes) n : length a = n -> length b = n -> (a ++ s)%list = (b ++ t)%list -> a = b /\ s = t.
Proof. intros Ha Hb E. apply app_inj_1 in E; [done|]. by rewrite Ha. Qed.

(** The transaction without what a signature cannot contain (the scripts and witnesses of its
    inputs) and without blobs. *)
Definition signed_view (tx : CTransaction) : CTransaction :=
  {| vin := (fun i => {| prevout := prevout i; scriptSig := []; nSequence := nSequence i; scriptWitness := [] |}) <$> vin tx;
     vout := clear_blob <$> vout tx; nVersion := nVersion tx; nLockTime := nLockTime tx |}.

Lemma signed_inputs l :
  (fun i => {| prevout := prevout i; scriptSig := []; nSequence := nSequence i; scriptWitness := [] |}) <$> l =
  zip_with (fun o q => {| prevout := o; scriptSig := []; nSequence := q; scriptWitness := [] |}) (prevout <$> l) (nSequence <$> l).
Proof. induction l as [|i l IH]; [done|]. cbn. by f_equal. Qed.

(** No part is left out. *)
Definition signs_all (nHashType : Z) : bool := negb (fAnyoneCanPay nHashType || fHashSingle nHashType || fHashNone nHashType).

Definition bare (o : CTxOut) : CTxOut := clear_asset (clear_blob o).

Lemma Hash_CTxOut_bare o : Hash_CTxOut o = Hash_CTxOut (bare o).
Proof.
  unfold Hash_CTxOut, CTxOut_Serialize. cbn [bare clear_asset clear_blob set_assetInfo nValue scriptPubKey vchNEVMData].
  assert (forall s, carries_blob SER_GETHASH 0 s = false) as E; [|by rewrite !E].
  intros s. unfold carries_blob. change (IsSyscoinNEVMDataTx 0) with false. by rewrite andb_false_r.
Qed.

Lemma LoadAssets_vout batch a b a' b' :
  nVersion a = nVersion b -> vout a = vout b -> LoadAssets batch a = Ok a' -> LoadAssets batch b = Ok b' -> vout a' = vout b'.
Proof.
  rewrite !LoadAssets_Ok. destruct a as [vi1 vo1 v1 l1], b as [vi2 vo2 v2 l2]. cbn [nVersion vout]. intros <- <-.
  change (HasAssets {| vin := vi2; vout := vo1; nVersion := v1; nLockTime := l2 |})
    with (HasAssets {| vin := vi1; vout := vo1; nVersion := v1; nLockTime := l1 |}).
  change (CAssetAllocation_of_tx batch {| vin := vi2; vout := vo1; nVersion := v1; nLockTime := l2 |})
    with (CAssetAllocation_of_tx batch {| vin := vi1; vout := vo1; nVersion := v1; nLockTime := l1 |}).
  destruct (HasAssets _); [|by intros -> ->]. cbn zeta. by intros (_ & _ & _ & ->) (_ & _ & _ & ->).
Qed.

(** The outputs of a valid transaction are determined by their amounts and scripts: the assets
    are read from a script. *)
Lemma valid_outputs batch t1 v1 t2 v2 tx1 tx2 :
  valid_tx batch t1 v1 tx1 -> valid_tx batch t2 v2 tx2 -> nVersion tx1 = nVersion tx2 ->
  bare <$> vout tx1 = bare <$> vout tx2 -> clear_blob <$> vout tx1 = clear_blob <$> vout tx2.
Proof.
  intros [_ H1]%valid_tx_core [_ H2]%valid_tx_core Hv Ho.
  refine (LoadAssets_vout batch _ _ _ _ _ _ H1 H2); [done|]. cbn [unloaded set_vout core vout].
  by rewrite <- !list_fmap_compose.
Qed.

Section Commitment.
Context {C : Crypto} {CS : CryptoSizes}.

Lemma parts_size tx n nHashType :
  length (prevouts_part tx nHashType None) = 32%nat /\ length (sequence_part tx nHashType None) = 32%nat /\
  length (outputs_part tx n nHashType None) = 32%nat.
Proof.
  unfold prevouts_part, sequence_part, outputs_part, hash256.
  split_and!; repeat case_match; rewrite ?sha256_size; done.
Qed.

(** What the hashed message of a witness of version 0 determines. *)
Lemma message_inj code1 code2 tx1 tx2 n1 n2 i1 i2 h1 h2 a1 a2 :
  in_s 32 (nVersion tx1) -> in_s 32 (nVersion tx2) -> in_u 32 (nLockTime tx1) -> in_u 32 (nLockTime tx2) ->
  valid_outpoint (prevout i1) -> valid_outpoint (prevout i2) -> in_u 32 (nSequence i1) -> in_u 32 (nSequence i2) ->
  valid_bytes code1 -> valid_bytes code2 -> in_s 64 a1 -> in_s 64 a2 -> in_s 32 h1 -> in_s 32 h2 ->
  witness_v0_message code1 tx1 n1 i1 h1 a1 None = witness_v0_message code2 tx2 n2 i2 h2 a2 None ->
  (nVersion tx1 = nVersion tx2 /\ nLockTime tx1 = nLockTime tx2 /\ prevout i1 = prevout i2 /\ code1 = code2 /\ a1 = a2 /\ h1 = h2) /\
  prevouts_part tx1 h1 None = prevouts_part tx2 h2 None /\ sequence_part tx1 h1 None = sequence_part tx2 h2 None /\
  outputs_part tx1 n1 h1 None = outputs_part tx2 n2 h2 None.
Proof.
  intros Hv1 Hv2 Hl1 Hl2 Ho1 Ho2 Hq1 Hq2 Hc1 Hc2 Ha1 Ha2 Hh1 Hh2. unfold witness_v0_message. intros E.
  destruct (parts_size tx1 n1 h1) as (P1 & P2 & P3), (parts_size tx2 n2 h2) as (Q1 & Q2 & Q3).
  apply (codec_app_inj Serialize_i32 Unserialize_i32 (in_s 32)) in E as [E1 E]; [|done..].
  apply (hash_part_inj _ _ _ _ 32) in E as [E2 E]; [|done..]. apply (hash_part_inj _ _ _ _ 32) in E as [E3 E]; [|done..].
  apply (codec_app_inj COutPoint_Serialize COutPoint_Unserialize valid_outpoint) in E as [E4 E]; [|done..].
  apply (codec_app_inj Serialize_bytes Unserialize_bytes valid_bytes) in E as [E5 E]; [|done..].
  apply (codec_app_inj Serialize_i64 Unserialize_i64 (in_s 64)) in E as [E6 E]; [|done..].
  apply (codec_app_inj ser_writedata32 ser_readdata32 (in_u 32)) in E as [_ E]; [|done..].
  apply (hash_part_inj _ _ _ _ 32) in E as [E8 E]; [|done..].
  apply (codec_app_inj ser_writedata32 ser_readdata32 (in_u 32)) in E as [E9 E]; [|done..].
  rewrite <- (app_nil_r (Serialize_i32 h1)), <- (app_nil_r (Serialize_i32 h2)) in E.
  apply (codec_app_inj Serialize_i32 Unserialize_i32 (in_s 32)) in E as [E10 _]; [|done..]. done.
Qed.

(** What is hashed, twice each, on the way to the signature hash of an input. *)
Definition v0_preimages (code : bytes) (tx : CTransaction) (n : nat) (i : CTxIn) (h a : Z) : list bytes :=
  [witness_v0_message code tx n i h a None;
   mjoin ((fun i => COutPoint_Serialize (prevout i)) <$> vin tx);
   mjoin ((fun i => ser_writedata32 (nSequence i)) <$> vin tx);
   mjoin (Hash_CTxOut <$> vout tx)].

Definition hashed (l : list bytes) (x : bytes) : Prop := x ∈ l \/ x ∈ sha256 <$> l.

Lemma sha256_twice_inj l1 l2 x y :
  x ∈ l1 -> y ∈ l2 -> sha256 (sha256 x) = sha256 (sha256 y) -> x = y \/ collide sha256 (hashed l1) (hashed l2).
Proof.
  intros Hx Hy E. destruct (hash_inj sha256 (hashed l1) (hashed l2) (sha256 x) (sha256 y)) as [E'|]; [right; by apply list_elem_of_fmap_2..|done| |by right].
  apply hash_inj; [by left..|done].
Qed.

Lemma valid_tx_parts batch t v tx :
  valid_tx batch t v tx ->
  in_s 32 (nVersion tx) /\ in_u 32 (nLockTime tx) /\ Forall (fun i => valid_outpoint (prevout i) /\ in_u 32 (nSequence i)) (vin tx) /\
  Forall (valid_out SER_GETHASH 0) (bare <$> vout tx).
Proof.
  intros [(Hv & Hl & [_ Hi] & _ & [_ Ho] & _) _]. split; [done|]. split; [done|]. split.
  - rewrite Forall_fmap in Hi. eapply Forall_impl; [exact Hi|]. by intros i (? & _ & ? & _).
  - cbn [unloaded set_vout vout] in Ho. rewrite !Forall_fmap in *. eapply Forall_impl; [exact Ho|].
    intros o (? & ? & _). split; [done|]. split; [done|]. split; [done|]. by destruct (carries_blob _ _ _).
Qed.

(** The three hashes of everything determine the inputs and the outputs. *)
Lemma parts_inj code1 code2 tx1 tx2 n1 n2 i1 i2 h a1 a2 :
  signs_all h = true ->
  Forall (fun i => valid_outpoint (prevout i) /\ in_u 32 (nSequence i)) (vin tx1) ->
  Forall (fun i => valid_outpoint (prevout i) /\ in_u 32 (nSequence i)) (vin tx2) ->
  Forall (valid_out SER_GETHASH 0) (bare <$> vout tx1) -> Forall (valid_out SER_GETHASH 0) (bare <$> vout tx2) ->
  prevouts_part tx1 h None = prevouts_part tx2 h None -> sequence_part tx1 h None = sequence_part tx2 h None ->
  outputs_part tx1 n1 h None = outputs_part tx2 n2 h None ->
  prevout <$> vin tx1 = prevout <$> vin tx2 /\ nSequence <$> vin tx1 = nSequence <$> vin tx2 /\ bare <$> vout tx1 = bare <$> vout tx2
  \/ collide sha256 (hashed (v0_preimages code1 tx1 n1 i1 h a1)) (hashed (v0_preimages code2 tx2 n2 i2 h a2)).
Proof.
  intros Hall Hi1 Hi2 Ho1 Ho2. unfold prevouts_part, sequence_part, outputs_part. unfold signs_all in Hall.
  destruct (fAnyoneCanPay h), (fHashSingle h), (fHashNone h); try done. cbn [negb andb orb].
  set (l1 := v0_preimages _ tx1 _ _ _ _). set (l2 := v0_preimages _ tx2 _ _ _ _).
  intros E1 E2 E3. apply (sha256_twice_inj l1 l2) in E1 as [E1|]; [|by right|set_solver..].
  apply (sha256_twice_inj l1 l2) in E2 as [E2|]; [|by right|set_solver..].
  apply (sha256_twice_inj l1 l2) in E3 as [E3|]; [|by right|set_solver..]. left. split_and!.
  - apply (codec_mjoin_inj COutPoint_Serialize COutPoint_Unserialize valid_outpoint).
    + intros [h0 k]. unfold COutPoint_Serialize. intros [_ E]%app_nil. done.
    + apply Forall_fmap. eapply Forall_impl; [exact Hi1|]. by intros i [? _].
    + apply Forall_fmap. eapply Forall_impl; [exact Hi2|]. by intros i [? _].
    + by rewrite <- !list_fmap_compose.
  - apply (codec_mjoin_inj ser_writedata32 ser_readdata32 (in_u 32)).
    + done.
    + apply Forall_fmap. eapply Forall_impl; [exact Hi1|]. by intros i [_ ?].
    + apply Forall_fmap. eapply Forall_impl; [exact Hi2|]. by intros i [_ ?].
    + by rewrite <- !list_fmap_compose.
  - apply (codec_mjoin_inj (CTxOut_Serialize SER_GETHASH 0) (CTxOut_Unserialize SER_GETHASH 0) (valid_out SER_GETHASH 0)); try done.
    rewrite <- !list_fmap_compose. etrans; [etrans; [|exact E3]|]; f_equal; apply list_fmap_ext; intros k o _; [symmetry|]; apply Hash_CTxOut_bare.
Qed.
End Commitment.

(** C11: A signature for all of a transaction commits to it.  If the signature hashes of two
    inputs of valid transactions agree, for a witness of version 0, and the first leaves no
    part out, then they are made for the same transaction, up to the scripts and witnesses of
    its inputs and its blobs but including the assets of its outputs, and for the same spent
    output, script, amount and hash type; or two of the byte strings that are hashed for them
    have the same hash. *)
Theorem signature_commits {C : Crypto} {CS : CryptoSizes} batch t1 v1 t2 v2 tx1 tx2 n1 n2 i1 i2 code1 code2 h1 h2 a1 a2 :
  valid_tx batch t1 v1 tx1 -> valid_tx batch t2 v2 tx2 -> vin tx1 !! n1 = Some i1 -> vin tx2 !! n2 = Some i2 ->
  valid_bytes code1 -> valid_bytes code2 -> in_s 64 a1 -> in_s 64 a2 -> is_byte h1 -> is_byte h2 -> signs_all h1 = true ->
  SignatureHash code1 tx1 n1 h1 a1 WITNESS_V0 None = SignatureHash code2 tx2 n2 h2 a2 WITNESS_V0 None ->
  (signed_view tx1 = signed_view tx2 /\ prevout i1 = prevout i2 /\ code1 = code2 /\ a1 = a2 /\ h1 = h2) \/
  collide sha256 (hashed (v0_preimages code1 tx1 n1 i1 h1 a1)) (hashed (v0_preimages code2 tx2 n2 i2 h2 a2)).
Proof.
  intros H1 H2 Hi1 Hi2 Hc1 Hc2 Ha1 Ha2 Hh1 Hh2 Hall. unfold SignatureHash. rewrite Hi1, Hi2. cbn [mbind option_bind].
  rewrite decide_True by done. intros [= E].
  apply (sha256_twice_inj (v0_preimages code1 tx1 n1 i1 h1 a1) (v0_preimages code2 tx2 n2 i2 h2 a2)) in E as [E|]; [|by right|set_solver..].
  destruct (valid_tx_parts _ _ _ _ H1) as (Hv1 & Hl1 & Hin1 & Hout1), (valid_tx_parts _ _ _ _ H2) as (Hv2 & Hl2 & Hin2 & Hout2).
  destruct (Forall_lookup_1 _ _ _ _ Hin1 Hi1) as [Hp1 Hq1], (Forall_lookup_1 _ _ _ _ Hin2 Hi2) as [Hp2 Hq2].
  apply message_inj in E as ((Ev & El & Ep & Ec & Ea & Eh) & E1 & E2 & E3); try done; try (unfold in_u, in_s in *; lia).
  subst h2. destruct (parts_inj code1 code2 tx1 tx2 n1 n2 i1 i2 h1 a1 a2 Hall Hin1 Hin2 Hout1 Hout2 E1 E2 E3) as [(Eo & Es & Eout)|]; [left|by right].
  split; [|done]. unfold signed_view. rewrite Ev, El. f_equal; [|by eapply valid_outputs]. by rewrite !signed_inputs, Eo, Es.
Qed.

(** ** The cache of verified signatures *)

Inductive signature_kind := ECDSA | Schnorr.

(** A signature to verify, and whether the answer may be kept. *)
Record request := { rq_kind : signature_kind; rq_sig : bytes; rq_pubkey : bytes; rq_sighash : uint256; rq_store : bool }.

Section SignatureCache.
Context {C : Crypto} {CS : CryptoSizes} {SS : SignatureScheme}.
(** The secret of the cache, and what a cache of limited size keeps after each request. *)
Variable nonce : uint256.
Variable evict : nat -> gset uint256 -> gset uint256.
Hypothesis evict_subset : forall n s, evict n s ⊆ s.

Definition PADDING (k : signature_kind) : bytes := (match k with ECDSA => 0x45 | Schnorr => 0x53 end) :: replicate 31 0.

(** [ComputeEntryECDSA] and [ComputeEntrySchnorr]: what they hash, and the hash. *)
Definition entry_preimage (r : request) : bytes := (nonce ++ PADDING (rq_kind r) ++ rq_sighash r ++ rq_pubkey r ++ rq_sig r)%list.
Definition ComputeEntry (r : request) : uint256 := sha256 (entry_preimage r).

Definition plain_verify (r : request) : bool :=
  match rq_kind r with
  | ECDSA => ECDSA_Verify (rq_pubkey r) (rq_sighash r) (rq_sig r)
  | Schnorr => VerifySchnorr (rq_pubkey r) (rq_sighash r) (rq_sig r)
  end.

(** [VerifyECDSASignature] and [VerifySchnorrSignature] of the checker with the cache. *)
Definition cached_verify (n : nat) (setValid : gset uint256) (r : request) : bool * gset uint256 :=
  let entry := ComputeEntry r in
  if bool_decide (entry ∈ setValid) then (true, if rq_store r then setValid else evict n setValid)
  else if negb (plain_verify r) then (false, setValid)
  else (true, if rq_store r then evict n ({[ entry ]} ∪ setValid) else setValid).

Fixpoint cached_answers (n : nat) (setValid : gset uint256) (rs : list request) : list bool :=
  match rs with
  | [] => []
  | r :: rs => let '(b, setValid) := cached_verify n setValid r in b :: cached_answers (S n) setValid rs
  end.

(** What the callers verify: a hash, and a key of the length its kind has. *)
Definition request_ok (r : request) : Prop :=
  length (rq_sighash r) = 32%nat /\
  match rq_kind r with ECDSA => CPubKey_IsValid (rq_pubkey r) = true | Schnorr => size (rq_pubkey r) = 32 end.

(** Every entry is of one of the requests and was verified. *)
Definition cache_sound (rs : list request) (setValid : gset uint256) : Prop :=
  forall e, e ∈ setValid -> exists r, r ∈ rs /\ request_ok r /\ plain_verify r = true /\ e = ComputeEntry r.

Lemma pubkey_inj k p1 s1 p2 s2 :
  match k with ECDSA => CPubKey_IsValid p1 = true | Schnorr => size p1 = 32 end ->
  match k with ECDSA => CPubKey_IsValid p2 = true | Schnorr => size p2 = 32 end ->
  (p1 ++ s1)%list = (p2 ++ s2)%list -> p1 = p2 /\ s1 = s2.
Proof.
  intros H1 H2 E. apply app_inj_1 in E; [done|]. destruct k; [|unfold size in *; lia].
  unfold CPubKey_IsValid in H1, H2. apply andb_true_iff in H1 as [N1 L1%Z.eqb_eq], H2 as [N2 L2%Z.eqb_eq].
  destruct p1 as [|x p1]; [done|]. destruct p2 as [|y p2]; [done|]. cbn in E. injection E as -> _.
  change (byte_at (y :: p1) 0) with y in L1. change (byte_at (y :: p2) 0) with y in L2. unfold size in *. lia.
Qed.

(** What is hashed for the entries of some requests. *)
Definition entry_of (rs : list request) (x : bytes) : Prop := x ∈ entry_preimage <$> rs.

Lemma ComputeEntry_inj rs r1 r2 :
  r1 ∈ rs -> r2 ∈ rs -> request_ok r1 -> request_ok r2 -> ComputeEntry r1 = ComputeEntry r2 ->
  plain_verify r1 = plain_verify r2 \/ collide sha256 (entry_of rs) (entry_of rs).
Proof.
  intros I1 I2 [L1 K1] [L2 K2] E. apply (hash_inj sha256 (entry_of rs) (entry_of rs)) in E as [E|]; [left|by right|by apply list_elem_of_fmap_2..].
  unfold entry_preimage in E. apply app_inv_head in E.
  apply (hash_part_inj _ _ _ _ 32) in E as [Ek E]; [|done..].
  assert (Hk : rq_kind r1 = rq_kind r2) by (by destruct (rq_kind r1), (rq_kind r2)). rewrite <- Hk in K2.
  apply (hash_part_inj _ _ _ _ 32) in E as [Eh E]; [|done..]. apply (pubkey_inj (rq_kind r1)) in E as [Ep Es]; [|done..].
  unfold plain_verify. by rewrite Hk, Eh, Ep, Es.
Qed.

Lemma cached_verify_spec rs n setValid r :
  cache_sound rs setValid -> r ∈ rs -> request_ok r ->
  ((cached_verify n setValid r).1 = plain_verify r /\ cache_sound rs (cached_verify n setValid r).2) \/ collide sha256 (entry_of rs) (entry_of rs).
Proof.
  intros Hs Hin Hr. unfold cached_verify.
  assert (Hevict : forall s, cache_sound rs s -> cache_sound rs (evict n s)) by (intros s H e He; apply H; by eapply evict_subset).
  case_bool_decide as He.
  - destruct (Hs _ He) as (r0 & Hin0 & Hr0 & Hv & E). destruct (ComputeEntry_inj rs r r0 Hin Hin0 Hr Hr0 E) as [->|]; [left|by right].
    cbn. split; [done|]. destruct (rq_store r); auto.
  - left. destruct (plain_verify r) eqn:Hv; cbn [negb fst snd]; [|done]. split; [done|]. destruct (rq_store r); [|done]. apply Hevict.
    intros e [->%elem_of_singleton|He']%elem_of_union; [by exists r|by apply Hs].
Qed.

Lemma cached_answers_spec all rs n setValid :
  cache_sound all setValid -> rs ⊆ all -> Forall request_ok rs ->
  cached_answers n setValid rs = plain_verify <$> rs \/ collide sha256 (entry_of all) (entry_of all).
Proof.
  intros Hs Hsub HF. revert n setValid Hs. induction HF as [|r rs Hr _ IH]; intros n setValid Hs; [by left|].
  cbn [cached_answers fmap list_fmap].
  destruct (cached_verify_spec all n setValid r Hs (Hsub r (list_elem_of_here _ _)) Hr) as [[Hb Hs']|]; [|by right].
  destruct (cached_verify n setValid r) as [b s']. cbn in Hb, Hs'.
  destruct (IH (fun x Hx => Hsub x (list_elem_of_further _ _ _ Hx)) (S n) s' Hs') as [->|]; [left|by right]. by rewrite Hb.
Qed.

(** C15: The cache of signatures changes no answer: in any sequence of verifications, with and
    without keeping the answers, of signatures of both kinds, and whatever the cache forgets,
    each answer is the one of the verification itself; or the entries of two of the requests
    are made of different byte strings with the same hash. *)
Theorem signature_cache_transparent rs :
  Forall request_ok rs -> cached_answers 0 ∅ rs = plain_verify <$> rs \/ collide sha256 (entry_of rs) (entry_of rs).
Proof. apply cached_answers_spec; [|done]. intros e He. by apply not_elem_of_empty in He. Qed.
End SignatureCache.

(** ** Examples *)

(** A scheme in which the first byte of the hash is the one that is signed. *)
Definition sample_scheme : SignatureScheme :=
  {| ECDSA_Verify pubkey hash sig := bool_decide (pubkey = sample_key /\ sig = sample_signature (byte_at hash 0 / 2));
     VerifySchnorr pubkey hash sig := bool_decide (sig = (hash ++ pubkey)%list) |}.

Definition sample_spent : list CTxOut := [{| nValue := 500; scriptPubKey := 0 :: 20 :: replicate 20 4; assetInfo := CAssetCoinInfo_null; vchNEVMData := [] |}].
Definition sample_txdata : PrecomputedTransactionData := default no_txdata (Init (C := sample_crypto) no_txdata ex_tx sample_spent false).

Lemma SignatureHash_cache_transparent_witness :
  m_bip143_segwit_ready sample_txdata = true /\
  SignatureHash (C := sample_crypto) [0x51] ex_tx 0 SIGHASH_ALL 500 WITNESS_V0 (Some sample_txdata) =
  SignatureHash (C := sample_crypto) [0x51] ex_tx 0 SIGHASH_ALL 500 WITNESS_V0 None.
Proof.
  split; [vm_compute; reflexivity|].
  apply (SignatureHash_cache_transparent (C := sample_crypto) [0x51] ex_tx 0 SIGHASH_ALL 500 WITNESS_V0 sample_spent false).
  vm_compute. reflexivity.
Defined.

(** The input of the transaction. *)
Definition sample_input : CTxIn :=
  {| prevout := {| op_hash := replicate 32 3; op_n := 1 |}; scriptSig := [1; 0]; nSequence := 5; scriptWitness := [[1; 2]; []] |}.

(** Two transactions that differ in a witness, which is not signed. *)
Lemma signature_commits_witness :
  ex_tx <> ex_tx' /\
  ((signed_view ex_tx = signed_view ex_tx' /\ prevout sample_input = prevout (set_witness sample_input [[9]]) /\ [0x51] = [0x51] /\ 500 = 500 /\ 1 = 1) \/
   collide (sample_digest 32) (hashed (C := sample_crypto) (v0_preimages (C := sample_crypto) [0x51] ex_tx 0 sample_input 1 500))
     (hashed (C := sample_crypto) (v0_preimages (C := sample_crypto) [0x51] ex_tx' 0 (set_witness sample_input [[9]]) 1 500))).
Proof.
  split; [discriminate|].
  apply (signature_commits (C := sample_crypto) (CS := sample_sizes) 4 SER_NETWORK 0 SER_NETWORK 0 ex_tx ex_tx').
  - apply ex_tx_valid; vm_compute; reflexivity.
  - apply ex_tx_valid; vm_compute; reflexivity.
  - reflexivity.
  - reflexivity.
  - split; [discriminate|by apply byte_list_ok].
  - split; [discriminate|by apply byte_list_ok].
  - done.
  - done.
  - done.
  - done.
  - reflexivity.
  - vm_compute. reflexivity.
Defined.

(** The same signature twice, kept the first time, and one that is wrong. *)
Definition sample_request (sig : bytes) (store : bool) : request :=
  {| rq_kind := ECDSA; rq_sig := sig; rq_pubkey := sample_key; rq_sighash := replicate 32 18; rq_store := store |}.
Definition sample_requests : list request :=
  [sample_request (sample_signature 9) true; sample_request (sample_signature 9) false; sample_request (sample_signature 8) true].

Lemma signature_cache_transparent_witness :
  cached_answers (C := sample_crypto) (SS := sample_scheme) [7] (fun _ => id) 0 ∅ sample_requests = [true; true; false] \/
  collide (sample_digest 32) (entry_of [7] sample_requests) (entry_of [7] sample_requests).
Proof.
  refine (signature_cache_transparent (C := sample_crypto) (SS := sample_scheme) [7] (fun _ => id) _ sample_requests _).
  - done.
  - repeat constructor.
Defined.
