(* ===== verification/KeyHash.v ===== *)
(** * Paying to the hash of a key (src/src/script/interpreter.cpp)

    The two usual outputs name the hash of a public key: the script
    [OP_DUP OP_HASH160 <hash> OP_EQUALVERIFY OP_CHECKSIG], and the witness program of version
    0 with 20 bytes, which runs that script on the witness.

    Shown here: exactly which inputs the interpreter accepts for them. *)

From stdpp Require Import strings.
From S2P Require Import Prelude Serialize Script TxVerify Interpreter SoftForks ScriptSafety.
Import Op.

Open Scope Z_scope.

Lemma of_value_value o : of_value (value o) = Some o.
Proof. destruct o; reflexivity. Qed.

Section KeyHash.
Context {C : Crypto} {K : BaseSignatureChecker}.

Lemma run_next fuel flags sv pc p m opcode v pc' :
  GetScriptOp pc = Some (opcode, v, pc') ->
  run (S fuel) flags sv pc p m = (m ← step flags sv opcode v pc' p m; run fuel flags sv pc' (wrapu 32 (p + 1)) m).
Proof. intros E. destruct pc as [|b pc]; [done|]. cbn [run]. by rewrite E. Qed.

(** A named opcode that is executed, counted and not special. *)
Lemma step_op flags sv o pc p m :
  sv = BASE \/ sv = WITNESS_V0 -> all_true (vfExec m) = true -> is_disabled o = false -> o <> OP_CODESEPARATOR ->
  value OP_16 < value o -> nOpCount m + 1 <= MAX_OPS_PER_SCRIPT ->
  step flags sv (value o) [] pc p m =
  (m' ← exec flags sv o true pc p (with_op_count m (nOpCount m + 1));
   guard! negb (MAX_STACK_SIZE <? stack_depth m') else Fails SCRIPT_ERR_STACK_SIZE;
   Ok m').
Proof.
  intros Hsv Hx Hd Hc Hv Hn. unfold step. rewrite Hx, of_value_value. cbn [from_option]. rewrite Hd.
  assert (bool_decide (sv = BASE) || bool_decide (sv = WITNESS_V0) = true) as -> by (by destruct Hsv; subst).
  destruct (Z.ltb_spec (value OP_16) (value o)); [|lia]. cbn [andb negb]. cbn [nOpCount with_op_count].
  destruct (Z.ltb_spec MAX_OPS_PER_SCRIPT (nOpCount m + 1)); [lia|]. cbn [negb].
  destruct (Z.eqb_spec (value o) (value OP_CODESEPARATOR)) as [E|_].
  { apply (f_equal of_value) in E. rewrite !of_value_value in E. by injection E. }
  cbn [andb negb]. unfold OP_PUSHDATA4. destruct (Z.leb_spec (value o) 78); [change (value OP_16) with 96 in Hv; lia|].
  rewrite andb_false_r. done.
Qed.

(** A push of 20 bytes, which is minimal. *)
Lemma step_push20 flags sv h pc p m :
  sv = BASE \/ sv = WITNESS_V0 -> all_true (vfExec m) = true -> length h = 20%nat -> stack_depth m + 1 <= MAX_STACK_SIZE ->
  step flags sv 20 h pc p m = Ok (with_stack m (h :: stack m)).
Proof.
  intros Hsv Hx Hh Hd. unfold step. rewrite Hx. change (value OP_16 <? 20) with false. rewrite andb_false_r.
  assert (Hs : size h = 20) by (unfold size; by rewrite Hh). rewrite Hs. cbn [negb andb].
  change (MAX_SCRIPT_ELEMENT_SIZE <? 20) with false. change (of_value 20) with (@None opcodetype).
  change (20 =? value OP_CODESEPARATOR) with false. cbn [from_option negb andb].
  change ((0 <=? 20) && (20 <=? OP_PUSHDATA4)) with true. change (20 <=? OP_PUSHDATA4) with true. cbn [andb].
  assert (CheckMinimalPush h 20 = Some true) as -> by (unfold CheckMinimalPush; by rewrite Hs). 
  assert (forall b : bool, (if b then asserted (Some true) else Ok true) = @Ok script_failure bool true) as -> by (by intros []).
  cbn [mbind result_bind stack altstack with_stack length]. unfold stack_depth in Hd.
  destruct (Z.ltb_spec MAX_STACK_SIZE (Z.of_nat (S (length (stack m))) + Z.of_nat (length (altstack m)))); [lia|done].
Qed.

Lemma P2PKH_script_bytes h : length h = 20%nat -> P2PKH_script h = (value OP_DUP :: value OP_HASH160 :: 20 :: h ++ [value OP_EQUALVERIFY; value OP_CHECKSIG])%list.
Proof. intros Hh. unfold P2PKH_script, push_data. assert (size h = 20) as -> by (unfold size; by rewrite Hh). done. Qed.

Lemma GetScriptOp_push20 h rest : length h = 20%nat -> GetScriptOp (20 :: h ++ rest)%list = Some (20, h, rest).
Proof.
  intros Hh. cbn. change (20 <? OP_PUSHDATA1) with true. cbn [mbind option_bind].
  assert ((size (h ++ rest) <? 20) = false) as -> by (apply Z.ltb_ge; unfold size; rewrite length_app; lia).
  change (Z.to_nat 20) with 20%nat. by rewrite <- Hh, take_app_length, drop_app_length.
Qed.

Lemma run_nil fuel flags sv p m : run fuel flags sv [] p m = Ok m.
Proof. by destruct fuel. Qed.

(** An operation of the script: what [exec] does, within the limits. *)
Lemma run_op fuel flags sv o pc p m m' :
  sv = BASE \/ sv = WITNESS_V0 -> all_true (vfExec m) = true -> is_disabled o = false -> o <> OP_CODESEPARATOR ->
  value OP_16 < value o -> nOpCount m + 1 <= MAX_OPS_PER_SCRIPT ->
  exec flags sv o true pc p (with_op_count m (nOpCount m + 1)) = Ok m' -> stack_depth m' <= MAX_STACK_SIZE ->
  run (S fuel) flags sv (value o :: pc) p m = run fuel flags sv pc (wrapu 32 (p + 1)) m'.
Proof.
  intros Hsv Hx Hd Hc Hv Hn He Hs. rewrite (run_next _ _ _ _ _ _ (value o) [] pc) by (by destruct o).
  rewrite step_op by done. rewrite He. cbn [mbind result_bind]. destruct (Z.ltb_spec MAX_STACK_SIZE (stack_depth m')); [lia|done].
Qed.

Lemma run_P2PKH flags sv h pubkey sig rest code d :
  sv = BASE \/ sv = WITNESS_V0 -> length h = 20%nat -> Z.of_nat (length rest) + 4 <= MAX_STACK_SIZE ->
  run 25 flags sv (value OP_DUP :: value OP_HASH160 :: 20 :: h ++ [value OP_EQUALVERIFY; value OP_CHECKSIG])%list 0
    {| stack := pubkey :: sig :: rest; altstack := []; vfExec := no_conditions; nOpCount := 0; pbegincodehash := code; execdata := d |} =
  guard! bool_decide (hash160 pubkey = h) else Fails SCRIPT_ERR_EQUALVERIFY;
  (b ← EvalChecksigPreTapscript sig pubkey code flags sv;
   Ok {| stack := vch_of_bool b :: rest; altstack := []; vfExec := no_conditions; nOpCount := 4; pbegincodehash := code; execdata := d |}).
Proof.
  intros Hsv Hh Hr. unfold MAX_STACK_SIZE in Hr.
  set (now n s := {| stack := s; altstack := []; vfExec := no_conditions; nOpCount := n; pbegincodehash := code; execdata := d |}).
  assert (Hdepth : forall n s, (length s <= length rest + 4)%nat -> stack_depth (now n s) <= MAX_STACK_SIZE)
    by (intros n s Hl; unfold stack_depth, MAX_STACK_SIZE; cbn [now stack altstack length]; lia).
  change (_ = ?r) with (run 25 flags sv (value OP_DUP :: value OP_HASH160 :: 20 :: h ++ [value OP_EQUALVERIFY; value OP_CHECKSIG])%list 0
    (now 0 (pubkey :: sig :: rest)) = r).
  rewrite (run_op _ flags sv OP_DUP _ _ _ (now 1 (pubkey :: pubkey :: sig :: rest))) by (done || apply Hdepth; cbn; lia).
  rewrite (run_op _ flags sv OP_HASH160 _ _ _ (now 2 (hash160 pubkey :: pubkey :: sig :: rest))) by (done || apply Hdepth; cbn; lia).
  rewrite (run_next _ _ _ _ _ _ 20 h [value OP_EQUALVERIFY; value OP_CHECKSIG]) by (by apply GetScriptOp_push20).
  rewrite step_push20 by (done || unfold stack_depth, MAX_STACK_SIZE; cbn [now stack altstack length]; lia).
  cbn [mbind result_bind]. change (with_stack (now 2 ?s) ?t) with (now 2 t). cbn [stack].
  case_bool_decide as Heq.
  - rewrite (run_op _ flags sv OP_EQUALVERIFY _ _ _ (now 3 (pubkey :: sig :: rest))); try done; [|cbn; by rewrite bool_decide_true|apply Hdepth; cbn; lia].
    rewrite (run_next _ _ _ _ _ _ (value OP_CHECKSIG) [] []) by done. rewrite step_op by done.
    change (exec flags sv OP_CHECKSIG true [] ?p ?m) with ('(b, d') ← EvalChecksig sig pubkey code d flags sv;
      Ok (with_stack (with_execdata m d') (vch_of_bool b :: rest))).
    assert (EvalChecksig sig pubkey code d flags sv = (b ← EvalChecksigPreTapscript sig pubkey code flags sv; Ok (b, d))) as E
      by (by destruct Hsv; subst).
    rewrite E. destruct (EvalChecksigPreTapscript _ _ _ _ _) as [b|e]; [|done]. cbn [mbind result_bind].
    assert (Hd : stack_depth (now 4 (vch_of_bool b :: rest)) <= MAX_STACK_SIZE) by (apply Hdepth; cbn; lia).
    change (with_stack _ _) with (now 4 (vch_of_bool b :: rest)).
    destruct (Z.ltb_spec MAX_STACK_SIZE (stack_depth (now 4 (vch_of_bool b :: rest)))); [lia|]. done.
  - rewrite (run_next _ _ _ _ _ _ (value OP_EQUALVERIFY) [] [value OP_CHECKSIG]) by done. rewrite step_op by done. cbn. by rewrite bool_decide_false.
Qed.

(** What the script of a key hash computes from a stack with a key on top of a signature. *)
Lemma EvalScript_P2PKH flags sv h pubkey sig rest d :
  sv = BASE \/ sv = WITNESS_V0 -> length h = 20%nat -> Z.of_nat (length rest) + 4 <= MAX_STACK_SIZE ->
  EvalScript (pubkey :: sig :: rest) (P2PKH_script h) flags sv d =
  guard! bool_decide (hash160 pubkey = h) else Fails SCRIPT_ERR_EQUALVERIFY;
  (b ← EvalChecksigPreTapscript sig pubkey (P2PKH_script h) flags sv;
   Ok (vch_of_bool b :: rest, with_codeseparator_pos d 0xFFFFFFFF)).
Proof.
  intros Hsv Hh Hr. unfold EvalScript.
  assert (bool_decide (sv = TAPROOT) = false) as -> by (apply bool_decide_eq_false; by destruct Hsv; subst).
  assert (Hlen : length (P2PKH_script h) = 25%nat) by (rewrite P2PKH_script_bytes by done; cbn [length]; rewrite length_app, Hh; done).
  assert (size (P2PKH_script h) = 25) as -> by (unfold size; by rewrite Hlen).
  change (MAX_SCRIPT_SIZE <? 25) with false. rewrite andb_false_r. cbn [negb]. unfold start.
  assert (Hrun : forall code d', run (length (P2PKH_script h)) flags sv (P2PKH_script h) 0
    {| stack := pubkey :: sig :: rest; altstack := []; vfExec := no_conditions; nOpCount := 0; pbegincodehash := code; execdata := d' |} =
    guard! bool_decide (hash160 pubkey = h) else Fails SCRIPT_ERR_EQUALVERIFY;
    (b ← EvalChecksigPreTapscript sig pubkey code flags sv;
     Ok {| stack := vch_of_bool b :: rest; altstack := []; vfExec := no_conditions; nOpCount := 4; pbegincodehash := code; execdata := d' |})).
  { intros code d'. rewrite Hlen, P2PKH_script_bytes by done. by apply run_P2PKH. }
  rewrite Hrun. case_bool_decide; [|done]. by destruct (EvalChecksigPreTapscript _ _ _ _ _).
Qed.

(** A signature that passes, before Taproot. *)
Lemma PreTapscript_true sig pubkey code flags :
  EvalChecksigPreTapscript sig pubkey code flags WITNESS_V0 = Ok true <->
  CheckSignatureEncoding sig flags = Ok () /\ CheckPubKeyEncoding pubkey flags WITNESS_V0 = Ok () /\
  CheckECDSASignature sig pubkey code WITNESS_V0 = Some true.
Proof.
  unfold EvalChecksigPreTapscript. change (bool_decide (WITNESS_V0 = BASE) || bool_decide (WITNESS_V0 = WITNESS_V0)) with true.
  change (drop_signature flags WITNESS_V0 code sig) with (@Ok script_failure _ code). cbn [mbind result_bind].
  destruct (CheckSignatureEncoding sig flags) as [[]|]; [|by split; [|intros (? & _)]]. cbn [mbind result_bind].
  destruct (CheckPubKeyEncoding pubkey flags WITNESS_V0) as [[]|]; [|by split; [|intros (_ & ? & _)]]. cbn [mbind result_bind].
  destruct (CheckECDSASignature sig pubkey code WITNESS_V0) as [[]|]; cbn [asserted mbind result_bind negb andb].
  all: split; [|try by intros (_ & _ & ?)]; repeat case_match; done.
Qed.

(** The output script of a witness program leaves the program on the stack. *)
Lemma EvalScript_program flags h d :
  length h = 20%nat -> EvalScript [] (0 :: 20 :: h) flags BASE d = Ok ([h; []], with_codeseparator_pos d 0xFFFFFFFF).
Proof.
  intros Hh. unfold EvalScript. assert (Hsize : size (0 :: 20 :: h) = 22) by (unfold size; cbn [length]; by rewrite Hh). rewrite Hsize.
  change (MAX_SCRIPT_SIZE <? 22) with false. cbn [bool_decide decide decide_rel SigVersion_eq_dec negb orb andb].
  assert (length (0 :: 20 :: h) = 22%nat) as -> by (cbn [length]; by rewrite Hh).
  rewrite (run_next _ _ _ _ _ _ 0 [] (20 :: h)) by done.
  assert (step flags BASE 0 [] (20 :: h) 0 (start [] (0 :: 20 :: h) d) = Ok (with_stack (start [] (0 :: 20 :: h) d) [[]])) as ->
    by (unfold step; cbn; by destruct (flag_set flags SCRIPT_VERIFY_MINIMALDATA)).
  cbn [mbind result_bind]. rewrite (run_next _ _ _ _ _ _ 20 h []).
  2: { rewrite <- (app_nil_r h) at 1. by apply GetScriptOp_push20. }
  rewrite step_push20 by (done || auto). done.
Qed.

Lemma run_witness_script_keyhash flags h pubkey sig :
  length h = 20%nat ->
  run_witness_script [pubkey; sig] (P2PKH_script h) flags WITNESS_V0 no_execdata = Ok () <->
  size sig <= MAX_SCRIPT_ELEMENT_SIZE /\ size pubkey <= MAX_SCRIPT_ELEMENT_SIZE /\ hash160 pubkey = h /\
  EvalChecksigPreTapscript sig pubkey (P2PKH_script h) flags WITNESS_V0 = Ok true.
Proof.
  intros Hh. unfold run_witness_script. cbn [forallb]. rewrite (EvalScript_P2PKH flags WITNESS_V0 h pubkey sig [] no_execdata) by (done || auto).
  destruct (Z.ltb_spec MAX_SCRIPT_ELEMENT_SIZE (size pubkey)); [cbn; split; [done|lia]|].
  destruct (Z.ltb_spec MAX_SCRIPT_ELEMENT_SIZE (size sig)); [cbn; split; [done|lia]|]. cbn [negb andb].
  case_bool_decide as E; [|by split; [|intros (_ & _ & ? & _)]].
  destruct (EvalChecksigPreTapscript _ _ _ _ _) as [[]|]; cbn; split; try done; by intros (_ & _ & _ & ?).
Qed.

Lemma IsWitnessProgram_keyhash h : length h = 20%nat -> IsWitnessProgram (0 :: 20 :: h) = Some (0, h).
Proof.
  intros Hh. unfold IsWitnessProgram. assert (size (0 :: 20 :: h) = 22) as -> by (unfold size; cbn [length]; by rewrite Hh). done.
Qed.

(** The program alone. *)
Lemma VerifyWitnessProgram_keyhash flags h witness is_p2sh :
  length h = 20%nat ->
  VerifyWitnessProgram witness 0 h flags is_p2sh = Ok () <->
  exists sig pubkey, witness = [sig; pubkey] /\
    size sig <= MAX_SCRIPT_ELEMENT_SIZE /\ size pubkey <= MAX_SCRIPT_ELEMENT_SIZE /\ hash160 pubkey = h /\
    EvalChecksigPreTapscript sig pubkey (P2PKH_script h) flags WITNESS_V0 = Ok true.
Proof.
  intros Hh. unfold VerifyWitnessProgram. cbn [Z.eqb]. assert (size h = 20) as -> by (unfold size; by rewrite Hh).
  change (20 =? WITNESS_V0_SCRIPTHASH_SIZE) with false. change (20 =? WITNESS_V0_KEYHASH_SIZE) with true. cbn iota.
  destruct witness as [|sig [|pubkey [|x w]]]; cbn [length Nat.eqb]; try (split; [done|intros (? & ? & ? & _); done]).
  change (ExecuteWitnessScript (reverse [sig; pubkey]) ?s ?f WITNESS_V0 ?d) with (run_witness_script [pubkey; sig] s f WITNESS_V0 d).
  rewrite run_witness_script_keyhash by done. split; [by eexists _, _|]. by intros (? & ? & [= <- <-] & ?).
Qed.

Lemma keyhash_accepts keyhash witness flags :
  length keyhash = 20%nat -> consistent flags = true -> flag_set flags SCRIPT_VERIFY_WITNESS = true ->
  VerifyScript [] (0 :: 20 :: keyhash) witness flags = Ok () <->
  CastToBool keyhash = true /\
  exists sig pubkey, witness = [sig; pubkey] /\
    size sig <= MAX_SCRIPT_ELEMENT_SIZE /\ size pubkey <= MAX_SCRIPT_ELEMENT_SIZE /\ hash160 pubkey = keyhash /\
    CheckSignatureEncoding sig flags = Ok () /\ CheckPubKeyEncoding pubkey flags WITNESS_V0 = Ok () /\
    CheckECDSASignature sig pubkey (P2PKH_script keyhash) WITNESS_V0 = Some true.
Proof.
  intros Hh Hf Hw. setoid_rewrite <- PreTapscript_true. rewrite <- (VerifyWitnessProgram_keyhash flags keyhash witness false) by done.
  rewrite VerifyScript_ok. unfold later_parts, witness_part, p2sh_part, final_checks. rewrite Hw, Hf, IsWitnessProgram_keyhash by done.
  assert (Hp2sh : IsPayToScriptHash (0 :: 20 :: keyhash) = false).
  { unfold IsPayToScriptHash. by destruct (size (0 :: 20 :: keyhash) =? 23). }
  rewrite Hp2sh, andb_false_r. cbn [IsPushOnly IsPushOnly_loop length negb]. rewrite andb_false_r. cbn [negb].
  change (EvalScript [] [] flags BASE no_execdata) with (@Ok script_failure _ (@nil valtype, with_codeseparator_pos no_execdata 0xFFFFFFFF)).
  rewrite bool_decide_true by done. split.
  - intros [_ (sc & d1 & s & d2 & s' & had & [= <- <-] & E & Ht & Hl & _)]. rewrite EvalScript_program in E by done. injection E as <- <-.
    cbn in Ht. destruct (CastToBool keyhash); [|done]. split; [done|].
    destruct (VerifyWitnessProgram witness 0 keyhash flags false) as [[]|]; [done|]. by cbn in Hl.
  - intros [Ht Hv]. split; [done|]. eexists _, _, _, _, _, _. split; [done|]. split; [by apply EvalScript_program|]. cbn [left_true]. rewrite Ht.
    split; [done|]. rewrite Hv. cbn [mbind result_bind]. split; [done|]. cbn. by destruct (flag_set flags SCRIPT_VERIFY_CLEANSTACK).
Qed.

(** A bare witness program takes an empty [scriptSig]. *)
Lemma program_scriptSig scriptSig scriptPubKey version program witness flags :
  IsWitnessProgram scriptPubKey = Some (version, program) -> flag_set flags SCRIPT_VERIFY_WITNESS = true ->
  VerifyScript scriptSig scriptPubKey witness flags = Ok () -> scriptSig = [] /\ consistent flags = true.
Proof.
  intros Hp Hw [_ (sc & d1 & s & d2 & s' & had & _ & _ & _ & Hl & Hf)]%VerifyScript_ok. split.
  - unfold later_parts, witness_part in Hl. rewrite Hw, Hp in Hl. case_bool_decide; [done|]. by cbn in Hl.
  - unfold final_checks in Hf. by apply andb_true_iff in Hf as [[? _]%andb_true_iff _].
Qed.

(** C14: Who can spend an output that pays to the hash of a key.  Under the rules for witnesses,
    an empty [scriptSig] and a witness are accepted for a program of version 0 of 20 bytes
    exactly when the witness is a signature and a key whose hash is the program, both of
    permitted size and encoding, and the checker accepts the signature under that key for the
    implied script; and the program is not a zero, for which the output can never be spent. *)
Theorem P2WPKH_spends keyhash witness flags :
  length keyhash = 20%nat -> consistent flags = true -> flag_set flags SCRIPT_VERIFY_WITNESS = true ->
  VerifyScript [] (0 :: 20 :: keyhash) witness flags = Ok () <->
  CastToBool keyhash = true /\
  exists sig pubkey, witness = [sig; pubkey] /\
    size sig <= MAX_SCRIPT_ELEMENT_SIZE /\ size pubkey <= MAX_SCRIPT_ELEMENT_SIZE /\ hash160 pubkey = keyhash /\
    CheckSignatureEncoding sig flags = Ok () /\ CheckPubKeyEncoding pubkey flags WITNESS_V0 = Ok () /\
    CheckECDSASignature sig pubkey (P2PKH_script keyhash) WITNESS_V0 = Some true.
Proof. apply keyhash_accepts. Qed.
End KeyHash.

(** A spend, under all the flags there are. *)
Lemma P2WPKH_spends_witness :
  let h := hash160 (H := sample_crypto) sample_key in
  VerifyScript (H := sample_crypto) (H0 := sample_checker) [] (0 :: 20 :: h) [(sample_signature 9 ++ [SIGHASH_ALL])%list; sample_key] sample_flags = Ok ().
Proof.
  intros h. apply (P2WPKH_spends (C := sample_crypto) (K := sample_checker)).
  - reflexivity.
  - reflexivity.
  - reflexivity.
  - split; [vm_compute; reflexivity|]. eexists _, _. split; [reflexivity|].
    split_and!; try (vm_compute; reflexivity); vm_compute; discriminate.
Defined.
