(* ===== verification/Bridge.v ===== *)
(** * Proofs of transactions of the NEVM
    (src/src/nevm/nevm.cpp, [CheckSyscoinMintInternal] and the databases of
    src/src/services/assetconsensus.cpp)

    A mint claims assets that a transaction of the NEVM has frozen.  It carries two
    Merkle-Patricia proofs, of the transaction and of its receipt, under the roots that the
    node knows for an NEVM block, and the code takes the asset, the amount and the receiver
    from a log of the receipt.

    Shown here: two accepted proofs for one root and one path have the same value, or nodes of
    them collide; so two mints that name the same NEVM block and path claim the same
    log and have the same hash.  That no NEVM transaction is minted from twice in the chain is
    in file Replay. *)

From stdpp Require Import strings.
From S2P Require Import Prelude Serialize Amounts ArithUint256 Chain Script Rlp Transaction Coins TxVerify.

Open Scope string_scope.
Open Scope Z_scope.

(** Whether all bytes are zero. *)
Definition all_zero (l : bytes) : bool := forallb (fun b => b =? 0) l.

(** ** Merkle-Patricia proofs *)

(** [None] is [false]; otherwise the type of the envelope, if there is one. *)
Definition MatchProofValue (node_value expected_value : bytes) : option (option Z) :=
  match node_value with
  | [] => None
  | b :: rest =>
      let '(parsed_type, node_value) := if b <=? 0x7f then (Some b, rest) else (None, node_value) in
      if bool_decide (node_value = expected_value) then Some parsed_type else None
  end.

(** [toHex]; a hexadecimal digit is its value. *)
Definition toHex (l : bytes) : list Z := l ≫= fun b => [Z.land (Z.shiftr b 4) 0x0f; Z.land b 0x0f].

(** [ParseUInt8] on one digit, which it reads as a decimal one. *)
Definition ParseUInt8_digit (c : Z) : option Z := if c <? 10 then Some c else None.

(** The result [-1] is [None]. *)
Definition nibblesToTraverse (encodedPartialPath path : list Z) (pathPtr : Z) : option Z :=
  match encodedPartialPath with
  | [] => None
  | c :: _ =>
      partialPathInt ← ParseUInt8_digit c;
      let partialPath := if (partialPathInt =? 0) || (partialPathInt =? 2) then drop 2 encodedPartialPath else drop 1 encodedPartialPath in
      if bool_decide (partialPath = take (length partialPath) (drop (Z.to_nat pathPtr) path))
      then Some (Z.of_nat (length partialPath)) else None
  end.

(** Hashes of transactions of the NEVM. *)
Abbreviation NEVMMintTxSet := (gset uint256).

Section proofs.
(** [dev::sha3]. *)
Variable sha3 : bytes -> bytes.

(** What a node of the proof leads to. *)
Inductive step :=
| Reject
| Final (r : option (option Z))
| Follow (nodeKey : bytes) (pathPtr : Z).

Definition proof_node (pathString : list Z) (value currentNode : bytes) (pathPtr : Z) : result rlp_error step :=
  if Z.of_nat (length pathString) <? pathPtr then Ok Reject else
  n ← RLP_itemCount currentNode;
  if n =? 17 then
    if pathPtr =? Z.of_nat (length pathString) then
      x ← RLP_at currentNode 16; b ← RLP_toBytes LaissezFaire x; Ok (Final (MatchProofValue b value))
    else
      let pathInt := default 0 (pathString !! Z.to_nat pathPtr) in
      nodeKey ← RLP_at currentNode (Z.to_nat pathInt);
      Ok (Follow nodeKey (pathPtr + 1))
  else if n =? 2 then
    x ← RLP_at currentNode 0;
    if negb (RLP_isData x) then Ok Reject else
    compact ← RLP_toBytes LaissezFaire x;
    match compact with
    | [] => Ok Reject
    | b :: rest =>
        let hp_flag := Z.shiftr b 4 in
        if 3 <? hp_flag then Ok Reject else
        let is_odd := negb (Z.land hp_flag 1 =? 0) in
        let is_leaf := negb (Z.land hp_flag 2 =? 0) in
        if negb is_odd && negb (Z.land b 0x0f =? 0) then Ok Reject else
        if negb is_leaf && negb is_odd && (size compact =? 1) then Ok Reject else
        match nibblesToTraverse (toHex compact) pathString pathPtr with
        | None => Ok Reject
        | Some nibbles =>
            let pathPtr := pathPtr + nibbles in
            if is_leaf then
              if negb (pathPtr =? Z.of_nat (length pathString)) then Ok Reject else
              x ← RLP_at currentNode 1; nodeVec ← RLP_toBytes LaissezFaire x; Ok (Final (MatchProofValue nodeVec value))
            else
              nodeKey ← RLP_at currentNode 1; Ok (Follow nodeKey pathPtr)
        end
    end
  else Ok Reject.

(** The loop; [left_over] nodes from index [i] on. *)
Fixpoint VerifyProof_loop (left_over i : nat) (pathString : list Z) (value parentNodes nodeKey : bytes) (pathPtr : Z) :
    result rlp_error (option (option Z)) :=
  match left_over with
  | O => Ok None
  | S left_over =>
      currentNode ← RLP_at parentNodes i;
      key ← RLP_payload nodeKey;
      if negb (bool_decide (key = sha3 currentNode)) then Ok None else
      s ← proof_node pathString value currentNode pathPtr;
      match s with
      | Reject => Ok None
      | Final r => Ok r
      | Follow nodeKey pathPtr => VerifyProof_loop left_over (S i) pathString value parentNodes nodeKey pathPtr
      end
  end.

Definition VerifyProof (path value parentNodes root : bytes) : result rlp_error (option (option Z)) :=
  len ← RLP_itemCount parentNodes;
  VerifyProof_loop (Z.to_nat len) 0 (toHex path) value parentNodes root 0.

(** ** The roots that the node knows *)

(** A database with a cache in front of it: [mapCache] is written to disk by
    [FlushCacheToDisk]. *)
Record NEVMTxRoot := { root_nTxRoot : uint256; root_nReceiptRoot : uint256 }.
Record CNEVMTxRootsDB := { roots_mapCache : gmap uint256 NEVMTxRoot; roots_disk : gmap uint256 NEVMTxRoot }.

Definition roots_FlushDataToCache (db : CNEVMTxRootsDB) (m : gmap uint256 NEVMTxRoot) : CNEVMTxRootsDB :=
  {| roots_mapCache := m ∪ roots_mapCache db; roots_disk := roots_disk db |}.
Definition roots_FlushCacheToDisk (db : CNEVMTxRootsDB) : CNEVMTxRootsDB :=
  {| roots_mapCache := ∅; roots_disk := roots_mapCache db ∪ roots_disk db |}.
Definition ReadTxRoots (db : CNEVMTxRootsDB) (nBlockHash : uint256) : option NEVMTxRoot :=
  match roots_mapCache db !! nBlockHash with
  | Some r => Some r
  | None => roots_disk db !! nBlockHash
  end.
Definition roots_FlushErase (db : CNEVMTxRootsDB) (hashes : list uint256) : CNEVMTxRootsDB :=
  {| roots_mapCache := foldl (fun m h => delete h m) (roots_mapCache db) hashes;
     roots_disk := foldl (fun m h => delete h m) (roots_disk db) hashes |}.

Record CNEVMMintedTxDB := { mint_mapCache : NEVMMintTxSet; mint_disk : NEVMMintTxSet }.

Definition mint_FlushDataToCache (db : CNEVMMintedTxDB) (s : NEVMMintTxSet) : CNEVMMintedTxDB :=
  {| mint_mapCache := s ∪ mint_mapCache db; mint_disk := mint_disk db |}.
Definition mint_FlushCacheToDisk (db : CNEVMMintedTxDB) : CNEVMMintedTxDB :=
  {| mint_mapCache := ∅; mint_disk := mint_mapCache db ∪ mint_disk db |}.
Definition mint_FlushErase (db : CNEVMMintedTxDB) (s : NEVMMintTxSet) : CNEVMMintedTxDB :=
  {| mint_mapCache := mint_mapCache db ∖ s; mint_disk := mint_disk db ∖ s |}.
Definition ExistsTx (db : CNEVMMintedTxDB) (nTxHash : uint256) : bool :=
  bool_decide (nTxHash ∈ mint_mapCache db) || bool_decide (nTxHash ∈ mint_disk db).

(** ** The log of a receipt *)

(** The parameters of the chain that the bridge reads. *)
Record BridgeParams := {
  nBridgeV2StartBlock : Z; vchSyscoinVaultManagerLegacy : bytes; vchSyscoinVaultManager : bytes;
  vchTokenFreezeMethod : bytes; nNEVMChainID : Z }.

Definition ReadBE64 (p : bytes) : Z := big_endian (take 8 p).

Definition ReadABIUint64 (data : bytes) (offset : Z) (require_canonical : bool) : option Z :=
  if size data <? offset then None else
  let word := drop (Z.to_nat offset) data in
  if (size word <? 32) || (require_canonical && negb (all_zero (take 24 word))) then None
  else Some (ReadBE64 (drop 24 word)).

(** [FormatSyscoinErrorMessage]. *)
Definition sys_error (fJustCheck : bool) (reason : string) : failure :=
  Invalid (if fJustCheck then TX_CONSENSUS else TX_CONFLICT) reason.

(** An exception of the decoder. *)
Definition rlp_raises {A} (r : result rlp_error A) : result failure A :=
  match r with Ok a => Ok a | Throw _ => Throw (Raised "RLP") end.

(** The claim: asset, amount and the address of the receiver. *)
Record mint_claim := { nAssetFromLog : Z; outputAmount : Z; witnessAddress : bytes }.

Definition MAX_WITNESS_ADDRESS_LENGTH : Z := 1024.

Section mint.
Variable params : BridgeParams.
Variable fJustCheck fBridgeCanonicalActive : bool.

(** The data of a log that has the right address and topic. *)
Definition freeze_data (nAsset : Z) (dataValue : bytes) : result failure mint_claim :=
  guard! negb (size dataValue <? 96) else sys_error fJustCheck "mint-log-data-too-small";
  let valueArith := big_endian (take 32 dataValue) in
  guard! negb (MAX_MONEY <? valueArith) else sys_error fJustCheck "mint-value-overflow";
  let outputAmount := wraps 64 (wrapu 64 valueArith) in
  guard! MoneyRange outputAmount else sys_error fJustCheck "mint-value-out-of-range";
  match ReadABIUint64 dataValue 32 fBridgeCanonicalActive with
  | None => Throw (sys_error fJustCheck "mint-log-invalid-string-offset")
  | Some offsetToString =>
      guard! negb (fBridgeCanonicalActive && (negb (offsetToString =? 64) || negb (offsetToString mod 32 =? 0)))
        else sys_error fJustCheck "mint-log-invalid-string-offset";
      match ReadABIUint64 dataValue offsetToString fBridgeCanonicalActive with
      | None => Throw (sys_error fJustCheck "mint-log-invalid-string-length")
      | Some lenString =>
          guard! negb (MAX_WITNESS_ADDRESS_LENGTH <? lenString) else sys_error fJustCheck "mint-witness-address-too-long";
          let payloadStart := offsetToString + 32 in
          guard! negb (size dataValue - payloadStart <? lenString) else sys_error fJustCheck "mint-log-invalid-string-length";
          let paddedLength := Z.land (lenString + 31) (wrapu 64 (Z.lnot 31)) in
          guard! negb (fBridgeCanonicalActive &&
                       ((size dataValue - payloadStart <? paddedLength) ||
                        negb (payloadStart + paddedLength =? size dataValue) ||
                        negb (all_zero (drop (Z.to_nat (payloadStart + lenString)) dataValue))))
            else sys_error fJustCheck "mint-log-noncanonical-string";
          Ok {| nAssetFromLog := nAsset; outputAmount := outputAmount;
                witnessAddress := take (Z.to_nat lenString) (drop (Z.to_nat payloadStart) dataValue) |}
      end
  end.

(** One turn of the loop over the logs; [None] is [continue]. *)
Definition freeze_log (vchManagerAddress rlpLog : bytes) : result failure (option mint_claim) :=
  if negb (RLP_isList rlpLog) then Ok None else
  itemCount ← rlp_raises (RLP_itemCount rlpLog);
  if itemCount <? 3 then Ok None else
  x ← rlp_raises (RLP_at rlpLog 0); addressLog ← rlp_raises (RLP_toHash 20 VeryStrict x);
  if negb (bool_decide (addressLog = vchManagerAddress)) then Ok None else
  rlpLogTopics ← rlp_raises (RLP_at rlpLog 1);
  if negb (RLP_isList rlpLogTopics) then Ok None else
  topics ← rlp_raises (RLP_itemCount rlpLogTopics);
  if topics =? 0 then Ok None else
  t ← rlp_raises (RLP_at rlpLogTopics 0); topic ← rlp_raises (RLP_toBytes VeryStrict t);
  if negb (bool_decide (topic = vchTokenFreezeMethod params)) then Ok None else
  guard! negb (fBridgeCanonicalActive && negb (itemCount =? 3)) else sys_error fJustCheck "mint-log-invalid-field-count";
  guard! negb ((fBridgeCanonicalActive && negb (topics =? 3)) || (negb fBridgeCanonicalActive && (topics <? 3)))
    else sys_error fJustCheck "mint-log-invalid-topics-count";
  g ← rlp_raises (RLP_at rlpLogTopics 1); vchAssetGuid ← rlp_raises (RLP_toBytes VeryStrict g);
  guard! negb (negb (size vchAssetGuid =? 32) || (fBridgeCanonicalActive && negb (all_zero (take 24 vchAssetGuid))))
    else sys_error fJustCheck "mint-log-invalid-asset-guid-topic-size";
  let nAsset := ReadBE64 (drop 24 vchAssetGuid) in
  guard! negb (nAsset =? 0) else sys_error fJustCheck "mint-log-null-asset-guid";
  _ ← (if fBridgeCanonicalActive then
         f ← rlp_raises (RLP_at rlpLogTopics 2); vchFreezer ← rlp_raises (RLP_toBytes VeryStrict f);
         guard! (size vchFreezer =? 32) && all_zero (take 12 vchFreezer) else sys_error fJustCheck "mint-log-invalid-freezer-topic"; Ok ()
       else Ok ());
  d ← rlp_raises (RLP_at rlpLog 2); dataValue ← rlp_raises (RLP_toBytes VeryStrict d);
  c ← freeze_data nAsset dataValue; Ok (Some c).

Fixpoint freeze_logs (left_over i : nat) (vchManagerAddress rlpLogs : bytes) : result failure (option mint_claim) :=
  match left_over with
  | O => Ok None
  | S left_over =>
      rlpLog ← rlp_raises (RLP_at rlpLogs i);
      r ← freeze_log vchManagerAddress rlpLog;
      match r with
      | Some c => Ok (Some c)
      | None => freeze_logs left_over (S i) vchManagerAddress rlpLogs
      end
  end.

Definition manager (nHeight : Z) : bytes :=
  if nHeight <? nBridgeV2StartBlock params then vchSyscoinVaultManagerLegacy params else vchSyscoinVaultManager params.

(** The receipt that was proved: the claim of its first log of a freeze. *)
Definition receipt_claim (nHeight : Z) (rlpReceiptValue : bytes) : result failure mint_claim :=
  guard! RLP_isList rlpReceiptValue else sys_error fJustCheck "mint-invalid-receipt-structure";
  n ← rlp_raises (RLP_itemCount rlpReceiptValue);
  guard! n =? 4 else sys_error fJustCheck "mint-invalid-receipt-structure";
  x ← rlp_raises (RLP_at rlpReceiptValue 0); nStatus ← rlp_raises (RLP_toInt 8 VeryStrict x);
  guard! nStatus =? 1 else sys_error fJustCheck "mint-receipt-status-failed";
  rlpLogs ← rlp_raises (RLP_at rlpReceiptValue 3);
  itemCount ← rlp_raises (RLP_itemCount rlpLogs);
  guard! negb (negb (RLP_isList rlpLogs) || (itemCount <? 1) || (10 <? itemCount)) else sys_error fJustCheck "mint-invalid-receipt-logs-count";
  r ← freeze_logs (Z.to_nat itemCount) 0 (manager nHeight) rlpLogs;
  match r with
  | None => Throw (sys_error fJustCheck "mint-missing-freeze-log")
  | Some c =>
      guard! negb ((nAssetFromLog c =? 0) || (outputAmount c =? 0) || bool_decide (witnessAddress c = []))
        else sys_error fJustCheck "mint-missing-freeze-log";
      Ok c
  end.

(** The transaction that was proved: its chain and the contract it calls. *)
Definition tx_fields (rlpTxValue : bytes) (txEnvelopeType : option Z) (txItemCount : Z) : result failure (Z * nat) :=
  let legacy :=
    x ← rlp_raises (RLP_at rlpTxValue 6); v ← rlp_raises (RLP_toInt 32 VeryStrict x);
    Ok (if 35 <=? v then (v - 35) / 2 else 0, 3%nat) in
  let first to := x ← rlp_raises (RLP_at rlpTxValue 0); v ← rlp_raises (RLP_toInt 32 VeryStrict x); Ok (v, to) in
  if fBridgeCanonicalActive then
    match txEnvelopeType with
    | None => guard! txItemCount =? 9 else sys_error fJustCheck "mint-invalid-legacy-tx-format"; legacy
    | Some ty =>
        if (ty =? 1) && (txItemCount =? 11) then first 4%nat
        else if (ty =? 2) && (txItemCount =? 12) then first 5%nat
        else Throw (sys_error fJustCheck "mint-unsupported-tx-format")
    end
  else if txItemCount =? 9 then legacy
  else if 12 <=? txItemCount then first 5%nat
  else Throw (sys_error fJustCheck "mint-unsupported-tx-format").

Definition tx_checks (nHeight : Z) (rlpTxValue : bytes) (txEnvelopeType : option Z) : result failure unit :=
  guard! RLP_isList rlpTxValue else sys_error fJustCheck "mint-tx-rlp-list";
  txItemCount ← rlp_raises (RLP_itemCount rlpTxValue);
  guard! negb (txItemCount <? 8) else sys_error fJustCheck "mint-tx-itemcount";
  '(nChainID, toFieldIndex) ← tx_fields rlpTxValue txEnvelopeType txItemCount;
  guard! nChainID =? nNEVMChainID params else sys_error fJustCheck "mint-invalid-chainid";
  x ← rlp_raises (RLP_at rlpTxValue toFieldIndex); vchAddress ← rlp_raises (RLP_toBytes VeryStrict x);
  guard! size vchAddress =? 20 else sys_error fJustCheck "mint-invalid-address-length";
  guard! bool_decide (manager nHeight = vchAddress) else sys_error fJustCheck "mint-invalid-contract-manager"; Ok ().

(** What the two proofs establish: the values and the type of the envelope. *)
Definition mint_proofs (roots : CNEVMTxRootsDB) (minted : CNEVMMintedTxDB) (m : CMintSyscoin) : result failure (bytes * bytes * option Z) :=
  match ReadTxRoots roots (nBlockHash m) with
  | None => Throw (sys_error fJustCheck "mint-txroot-missing")
  | Some txRootDB =>
      guard! bool_decide (nTxRoot m = root_nTxRoot txRootDB) else sys_error fJustCheck "mint-mismatching-txroot";
      guard! bool_decide (nReceiptRoot m = root_nReceiptRoot txRootDB) else sys_error fJustCheck "mint-mismatching-receiptroot";
      guard! posTx m <? size (vchTxParentNodes m) else sys_error fJustCheck "mint-invalid-tx-position";
      guard! posReceipt m <? size (vchReceiptParentNodes m) else sys_error fJustCheck "mint-invalid-receipt-position";
      let vchTxValueRef := drop (Z.to_nat (posTx m)) (vchTxParentNodes m) in
      rlpTxRoot ← rlp_raises (RLP_of VeryStrict (rlp_append (nTxRoot m)));
      rlpReceiptRoot ← rlp_raises (RLP_of VeryStrict (rlp_append (nReceiptRoot m)));
      rlpTxParentNodes ← rlp_raises (RLP_of VeryStrict (vchTxParentNodes m));
      rlpReceiptParentNodes ← rlp_raises (RLP_of VeryStrict (vchReceiptParentNodes m));
      rlpReceiptValue ← rlp_raises (RLP_of VeryStrict (drop (Z.to_nat (posReceipt m)) (vchReceiptParentNodes m)));
      rlpTxValue ← rlp_raises (RLP_of VeryStrict vchTxValueRef);
      guard! bool_decide (sha3 vchTxValueRef = nTxHash m) else sys_error fJustCheck "mint-verify-tx-hash";
      guard! negb (ExistsTx minted (nTxHash m)) else sys_error fJustCheck "mint-exists";
      receiptProof ← rlp_raises (VerifyProof (vchTxPath m) rlpReceiptValue rlpReceiptParentNodes rlpReceiptRoot);
      match receiptProof with
      | None => Throw (sys_error fJustCheck "mint-verify-receipt-proof")
      | Some receiptEnvelopeType =>
          txProof ← rlp_raises (VerifyProof (vchTxPath m) rlpTxValue rlpTxParentNodes rlpTxRoot);
          match txProof with
          | None => Throw (sys_error fJustCheck "mint-verify-tx-proof")
          | Some txEnvelopeType =>
              guard! negb (negb fBridgeCanonicalActive &&
                           (bool_decide (receiptEnvelopeType = Some 0x7f) || bool_decide (txEnvelopeType = Some 0x7f)))
                else sys_error fJustCheck "mint-unsupported-tx-format";
              guard! negb (fBridgeCanonicalActive && negb (bool_decide (receiptEnvelopeType = txEnvelopeType)))
                else sys_error fJustCheck "mint-envelope-type-mismatch";
              Ok (rlpReceiptValue, rlpTxValue, txEnvelopeType)
          end
      end
  end.

(** The set of mints comes back also when the check fails after the insertion. *)
Definition CheckSyscoinMintInternal (roots : CNEVMTxRootsDB) (minted : CNEVMMintedTxDB) (m : CMintSyscoin) (nHeight : Z)
    (setMintTxs : NEVMMintTxSet) : NEVMMintTxSet * result failure mint_claim :=
  let before := '(rlpReceiptValue, rlpTxValue, ty) ← mint_proofs roots minted m;
                claim ← receipt_claim nHeight rlpReceiptValue; Ok (claim, rlpTxValue, ty) in
  match before with
  | Throw e => (setMintTxs, Throw e)
  | Ok (claim, rlpTxValue, ty) =>
      if bool_decide (nTxHash m ∈ setMintTxs) then (setMintTxs, Throw (Invalid TX_MINT_DUPLICATE "mint-duplicate-transfer"))
      else
        let setMintTxs := if fJustCheck then setMintTxs else {[ nTxHash m ]} ∪ setMintTxs in
        (setMintTxs, _ ← tx_checks nHeight rlpTxValue ty; Ok claim)
  end.
End mint.
End proofs.

(** ** Proofs bind *)

Lemma MatchProofValue_inj b v1 v2 t1 t2 :
  MatchProofValue b v1 = Some t1 -> MatchProofValue b v2 = Some t2 -> v1 = v2 /\ t1 = t2.
Proof. unfold MatchProofValue. repeat case_match; intros; simplify_eq; repeat case_bool_decide; simplify_eq; done. Qed.

(** A node leads to the same place whatever value is looked for. *)
Lemma proof_node_cases ps node ptr :
  (exists b, forall v, proof_node ps v node ptr = Ok (Final (MatchProofValue b v))) \/
  (exists s, (forall r, s <> Final r) /\ forall v, proof_node ps v node ptr = Ok s) \/
  (exists e, forall v, proof_node ps v node ptr = Throw e).
Proof.
  unfold proof_node. destruct (_ <? ptr); [right; left; by exists Reject|].
  destruct (RLP_itemCount node) as [n|e]; [|by do 2 right; exists e]. cbn [mbind result_bind]. destruct (n =? 17).
  - destruct (ptr =? _).
    + destruct (RLP_at node 16) as [x|e]; [|by do 2 right; exists e]. cbn [mbind result_bind].
      destruct (RLP_toBytes _ x) as [b|e]; [|by do 2 right; exists e]. left. by exists b.
    + destruct (RLP_at node _) as [x|e]; [|by do 2 right; exists e]. right. left. by eexists (Follow _ _).
  - destruct (n =? 2); [|right; left; by exists Reject].
    destruct (RLP_at node 0) as [x|e]; [|by do 2 right; exists e]. cbn [mbind result_bind].
    destruct (negb (RLP_isData x)); [right; left; by exists Reject|].
    destruct (RLP_toBytes _ x) as [[|b rest]|e]; [right; left; by exists Reject| |by do 2 right; exists e]. cbn [mbind result_bind].
    destruct (3 <? _); [right; left; by exists Reject|]. destruct (negb _ && negb (Z.land b _ =? 0)); [right; left; by exists Reject|].
    destruct (_ && (size _ =? 1)); [right; left; by exists Reject|].
    destruct (nibblesToTraverse _ _ _) as [k|]; [|right; left; by exists Reject]. destruct (negb (Z.land _ 2 =? 0)).
    + destruct (negb (_ =? _)); [right; left; by exists Reject|].
      destruct (RLP_at node 1) as [y|e]; [|by do 2 right; exists e]. cbn [mbind result_bind].
      destruct (RLP_toBytes _ y) as [c|e]; [|by do 2 right; exists e]. left. by exists c.
    + destruct (RLP_at node 1) as [y|e]; [|by do 2 right; exists e]. right. left. by eexists (Follow _ _).
Qed.

(** The nodes of a proof. *)
Definition node_of (nodes node : bytes) : Prop := exists i, RLP_at nodes i = Ok node.

(** The nodes of the two proofs of a mint. *)
Definition mint_node (m : CMintSyscoin) (node : bytes) : Prop :=
  node_of (vchReceiptParentNodes m) node \/ node_of (vchTxParentNodes m) node.

Lemma VerifyProof_loop_binding sha3 ps n1 n2 i1 i2 v1 v2 nodes1 nodes2 key ptr t1 t2 :
  VerifyProof_loop sha3 n1 i1 ps v1 nodes1 key ptr = Ok (Some t1) ->
  VerifyProof_loop sha3 n2 i2 ps v2 nodes2 key ptr = Ok (Some t2) ->
  v1 = v2 /\ t1 = t2 \/ collide sha3 (node_of nodes1) (node_of nodes2).
Proof.
  revert n2 i1 i2 key ptr. induction n1 as [|n1 IH]; intros n2 i1 i2 key ptr; [done|]. destruct n2 as [|n2]; [done|].
  cbn [VerifyProof_loop]. intros (c1 & N1 & (k & Hk & H1)%bind_ok)%bind_ok (c2 & N2 & (k' & Hk' & H2)%bind_ok)%bind_ok.
  rewrite Hk in Hk'. injection Hk' as <-. case_bool_decide as E1; [|done]. case_bool_decide as E2; [|done]. cbn [negb] in H1, H2.
  destruct (hash_inj sha3 (node_of nodes1) (node_of nodes2) c1 c2) as [<-|]; [by eexists..|congruence| |by right].
  destruct (proof_node_cases ps c1 ptr) as [(b & Hb)|[(s & Hs & Hb)|(e & Hb)]]; rewrite Hb in H1, H2; [| |done].
  - cbn in H1, H2. injection H1 as H1. injection H2 as H2. left. by eapply MatchProofValue_inj.
  - cbn in H1, H2. destruct s as [|r|nk np]; [done|by destruct (Hs r)|]. by eapply IH.
Qed.

Lemma VerifyProof_binding_aux sha3 path root v1 v2 nodes1 nodes2 t1 t2 :
  VerifyProof sha3 path v1 nodes1 root = Ok (Some t1) -> VerifyProof sha3 path v2 nodes2 root = Ok (Some t2) ->
  v1 = v2 /\ t1 = t2 \/ collide sha3 (node_of nodes1) (node_of nodes2).
Proof.
  unfold VerifyProof. intros (n1 & _ & H1)%bind_ok (n2 & _ & H2)%bind_ok. by eapply VerifyProof_loop_binding.
Qed.

Lemma rlp_raises_Ok {A} (r : result rlp_error A) a : rlp_raises r = Ok a -> r = Ok a.
Proof. by destruct r as [|e]; cbn; intros [= ->]. Qed.

Lemma RLP_of_VeryStrict_eq d d' : rlp_raises (RLP_of VeryStrict d) = Ok d' -> d' = d.
Proof. intros H%rlp_raises_Ok. by apply RLP_of_throwing in H. Qed.

(** What accepted proofs of a mint say. *)
Lemma mint_proofs_Ok sha3 jc active roots minted m rcpt tx ty :
  mint_proofs sha3 jc active roots minted m = Ok (rcpt, tx, ty) ->
  exists r rty, ReadTxRoots roots (nBlockHash m) = Some r /\ sha3 tx = nTxHash m /\ ExistsTx minted (nTxHash m) = false /\
    VerifyProof sha3 (vchTxPath m) rcpt (vchReceiptParentNodes m) (rlp_append (root_nReceiptRoot r)) = Ok (Some rty) /\
    VerifyProof sha3 (vchTxPath m) tx (vchTxParentNodes m) (rlp_append (root_nTxRoot r)) = Ok (Some ty).
Proof.
  unfold mint_proofs. destruct (ReadTxRoots roots (nBlockHash m)) as [r|]; [|done].
  case_bool_decide as E1; [|done]. case_bool_decide as E2; [|done]. destruct (_ <? _); [|done]. destruct (_ <? _); [|done].
  intros (rt & ->%RLP_of_VeryStrict_eq & H)%bind_ok. apply bind_ok in H as (rr & ->%RLP_of_VeryStrict_eq & H).
  apply bind_ok in H as (tn & ->%RLP_of_VeryStrict_eq & H). apply bind_ok in H as (rn & ->%RLP_of_VeryStrict_eq & H).
  apply bind_ok in H as (rv & ->%RLP_of_VeryStrict_eq & H). apply bind_ok in H as (tv & ->%RLP_of_VeryStrict_eq & H).
  case_bool_decide as E3; [|done]. destruct (ExistsTx minted (nTxHash m)) eqn:E4; [done|]. cbn [negb] in H.
  apply bind_ok in H as ([rty|] & Hr%rlp_raises_Ok & H); [|done]. apply bind_ok in H as ([tty|] & Ht%rlp_raises_Ok & H); [|done].
  destruct (negb (negb active && _)); [|done]. destruct (negb (active && _)); [|done]. injection H as <- <- <-.
  rewrite E1 in Ht. rewrite E2 in Hr. by exists r, rty.
Qed.

(** An accepted mint: its proofs, and what becomes of the set. *)
Lemma CheckSyscoinMintInternal_Ok sha3 params jc active roots minted m h s s' claim :
  CheckSyscoinMintInternal sha3 params jc active roots minted m h s = (s', Ok claim) ->
  exists rcpt tx ty, mint_proofs sha3 jc active roots minted m = Ok (rcpt, tx, ty) /\
    receipt_claim params jc active h rcpt = Ok claim /\ (nTxHash m ∉ s) /\ s' = (if jc then s else {[ nTxHash m ]} ∪ s).
Proof.
  unfold CheckSyscoinMintInternal. destruct (mint_proofs _ _ _ _ _ _) as [[[rcpt tx] ty]|] eqn:Hp; [|done]. cbn [mbind result_bind].
  destruct (receipt_claim _ _ _ _ rcpt) as [c|] eqn:Hc; [|done]. cbn [mbind result_bind]. case_bool_decide as Hin; [done|].
  destruct (tx_checks _ _ _ _ _ _); [|done]. cbn [mbind result_bind]. intros [= <- <-]. by exists rcpt, tx, ty.
Qed.

(** The database has no roots but those of the NEVM blocks themselves. *)
Definition roots_of (root_of : uint256 -> option NEVMTxRoot) (roots : CNEVMTxRootsDB) : Prop :=
  forall h r, ReadTxRoots roots h = Some r -> root_of h = Some r.

Lemma mint_binding sha3 root_of jc1 active1 jc2 active2 roots1 roots2 minted1 minted2 m1 m2 rcpt1 tx1 ty1 rcpt2 tx2 ty2 :
  roots_of root_of roots1 -> roots_of root_of roots2 ->
  mint_proofs sha3 jc1 active1 roots1 minted1 m1 = Ok (rcpt1, tx1, ty1) ->
  mint_proofs sha3 jc2 active2 roots2 minted2 m2 = Ok (rcpt2, tx2, ty2) ->
  nBlockHash m1 = nBlockHash m2 -> vchTxPath m1 = vchTxPath m2 ->
  rcpt1 = rcpt2 /\ nTxHash m1 = nTxHash m2 \/ collide sha3 (mint_node m1) (mint_node m2).
Proof.
  intros K1 K2 (r1 & rty1 & R1%K1 & X1 & _ & P1 & Q1)%mint_proofs_Ok (r2 & rty2 & R2%K2 & X2 & _ & P2 & Q2)%mint_proofs_Ok Hb Hp.
  rewrite Hb, R2 in R1. injection R1 as <-. rewrite Hp in P1, Q1.
  destruct (VerifyProof_binding_aux _ _ _ _ _ _ _ _ _ P1 P2) as [[-> _]|Hcol]; [|right; eapply collide_mono; [..|exact Hcol]; by left].
  destruct (VerifyProof_binding_aux _ _ _ _ _ _ _ _ _ Q1 Q2) as [[-> _]|Hcol]; [|right; eapply collide_mono; [..|exact Hcol]; by right]. left. split; [done|congruence].
Qed.

(** ** Mints in the chain *)

Definition known (db : CNEVMMintedTxDB) : NEVMMintTxSet := mint_mapCache db ∪ mint_disk db.

Lemma ExistsTx_known db h : ExistsTx db h = bool_decide (h ∈ known db).
Proof. unfold ExistsTx, known. repeat case_bool_decide; set_solver. Qed.

Section mint_chain.
Variable sha3 : bytes -> bytes.
Variable params : BridgeParams.
Variable roots : CNEVMTxRootsDB.

(** The mints of a block that is connected, in their order. *)
Fixpoint connect_mints (active : bool) (nHeight : Z) (minted : CNEVMMintedTxDB) (ms : list CMintSyscoin) (setMintTxs : NEVMMintTxSet) :
    result failure NEVMMintTxSet :=
  match ms with
  | [] => Ok setMintTxs
  | m :: ms =>
      match CheckSyscoinMintInternal sha3 params false active roots minted m nHeight setMintTxs with
      | (_, Throw e) => Throw e
      | (setMintTxs, Ok _) => connect_mints active nHeight minted ms setMintTxs
      end
  end.

(** A mint and where it was accepted. *)
Definition accepted (m : CMintSyscoin) : Prop :=
  exists active db rcpt tx ty, mint_proofs sha3 false active roots db m = Ok (rcpt, tx, ty).

Lemma connect_mints_Ok active nHeight db ms s s' :
  connect_mints active nHeight db ms s = Ok s' ->
  s' = list_to_set (nTxHash <$> ms) ∪ s /\ NoDup (nTxHash <$> ms) /\
  Forall (fun m => (nTxHash m ∉ s) /\ (nTxHash m ∉ known db) /\ accepted m) ms.
Proof.
  revert s. induction ms as [|m ms IH]; intros s; cbn [connect_mints].
  { intros [= <-]. split_and!; [set_solver|constructor|constructor]. }
  destruct (CheckSyscoinMintInternal _ _ _ _ _ _ _ _ _) as [s1 [c|]] eqn:Hm; [|done].
  apply CheckSyscoinMintInternal_Ok in Hm as (rcpt & tx & ty & Hp & _ & Hs & ->). intros (-> & Hnd & HF)%IH.
  pose proof Hp as (_ & _ & _ & _ & Hex & _ & _)%mint_proofs_Ok. rewrite ExistsTx_known, bool_decide_eq_false in Hex.
  rewrite fmap_cons. split_and!; [set_solver| |].
  - apply NoDup_cons. split; [|done]. intros (m' & Heq & Hin)%list_elem_of_fmap. rewrite Forall_forall in HF.
    destruct (HF m' Hin) as [Hn _]. set_solver.
  - constructor; [split_and!; [done|done|by eexists _, _, _, _, _]|]. eapply Forall_impl; [exact HF|]. cbn. set_solver.
Qed.

End mint_chain.

(** A mint that was accepted when the node knew some of the roots. *)
Definition accepted_from (sha3 : bytes -> bytes) (root_of : uint256 -> option NEVMTxRoot) (m : CMintSyscoin) : Prop :=
  exists roots, roots_of root_of roots /\ accepted sha3 roots m.

(** A node of a proof of one of the mints. *)
Definition some_mint_node (ms : list CMintSyscoin) (node : bytes) : Prop := exists m, m ∈ ms /\ mint_node m node.

(** Mints of the chain that were accepted at different times name different NEVM blocks or paths. *)
Lemma accepted_places sha3 root_of (ms : list CMintSyscoin) :
  NoDup (nTxHash <$> ms) -> Forall (accepted_from sha3 root_of) ms -> NoDup ((fun m => (nBlockHash m, vchTxPath m)) <$> ms) \/ collide sha3 (some_mint_node ms) (some_mint_node ms).
Proof.
  induction ms as [|m l IH]; [left; constructor|].
  rewrite !fmap_cons. intros [Hm Hnd]%NoDup_cons [Ha HF]%Forall_cons.
  destruct (IH Hnd HF) as [Hl|Hcol];
    [|right; eapply collide_mono; [..|exact Hcol]; intros x (m0 & ? & ?); exists m0; by split; [apply list_elem_of_further|]]. destruct (decide ((nBlockHash m, vchTxPath m) ∈ (fun m => (nBlockHash m, vchTxPath m)) <$> l)) as [Hin|Hin];
    [|left; by constructor].
  apply list_elem_of_fmap in Hin as (m' & [= Hb Hp] & Hin). rewrite Forall_forall in HF.
  destruct Ha as (b1 & K1 & a1 & d1 & r1 & t1 & y1 & P1), (HF m' Hin) as (b2 & K2 & a2 & d2 & r2 & t2 & y2 & P2).
  destruct (mint_binding _ _ _ _ _ _ _ _ _ _ _ _ _ _ _ _ _ _ K1 K2 P1 P2 Hb Hp) as [[_ Heq]|Hcol].
  2: { right. eapply collide_mono; [..|exact Hcol]; intros x Hx; [exists m|exists m']; split; try done; [apply list_elem_of_here|by apply list_elem_of_further]. }
  destruct Hm. rewrite Heq. by apply list_elem_of_fmap_2.
Qed.

(** C33: a Merkle-Patricia proof binds. Two proofs that [VerifyProof] accepts for the same root
    and the same path prove the same value with the same type of envelope, whatever nodes
    they are made of, or a node of the one and a node of the other have the same hash. *)
Theorem VerifyProof_binding (sha3 : bytes -> bytes) (path root v1 v2 nodes1 nodes2 : bytes) (t1 t2 : option Z) :
  VerifyProof sha3 path v1 nodes1 root = Ok (Some t1) -> VerifyProof sha3 path v2 nodes2 root = Ok (Some t2) ->
  v1 = v2 /\ t1 = t2 \/ collide sha3 (node_of nodes1) (node_of nodes2).
Proof. apply VerifyProof_binding_aux. Qed.

(** A claim is determined by where it is proved. Two mints that name the same NEVM block
    and path and that [CheckSyscoinMintInternal] accepts claim the same asset and amount for
    the same address and carry the same transaction hash, or different nodes of their proofs
    have the same hash. *)
Theorem mint_claim_unique (sha3 : bytes -> bytes) (params : BridgeParams) (jc active : bool) (roots : CNEVMTxRootsDB)
    (db1 db2 : CNEVMMintedTxDB) (m1 m2 : CMintSyscoin) (h : Z) (s1 s2 s1' s2' : NEVMMintTxSet) (c1 c2 : mint_claim) :
  CheckSyscoinMintInternal sha3 params jc active roots db1 m1 h s1 = (s1', Ok c1) ->
  CheckSyscoinMintInternal sha3 params jc active roots db2 m2 h s2 = (s2', Ok c2) ->
  nBlockHash m1 = nBlockHash m2 -> vchTxPath m1 = vchTxPath m2 ->
  c1 = c2 /\ nTxHash m1 = nTxHash m2 \/ collide sha3 (mint_node m1) (mint_node m2).
Proof.
  intros (r1 & t1 & y1 & P1 & C1 & _)%CheckSyscoinMintInternal_Ok (r2 & t2 & y2 & P2 & C2 & _)%CheckSyscoinMintInternal_Ok Hb Hp.
  destruct (mint_binding _ (ReadTxRoots roots) _ _ _ _ _ _ _ _ _ _ _ _ _ _ _ _ (fun _ _ H => H) (fun _ _ H => H) P1 P2 Hb Hp) as [[-> Hh]|]; [|by right]. left. split; [congruence|done].
Qed.

(** ** A mint, with the identity in place of the hash *)

Definition ex_word (x : Z) : bytes := (replicate 24 0 ++ rev (le_bytes 8 x))%list.
Definition ex_manager : bytes := replicate 20 0xab.
Definition ex_topic : bytes := replicate 32 0x77.

Definition ex_params : BridgeParams :=
  {| nBridgeV2StartBlock := 0; vchSyscoinVaultManagerLegacy := []; vchSyscoinVaultManager := ex_manager;
     vchTokenFreezeMethod := ex_topic; nNEVMChainID := 57 |}.

(** 5000 units of asset 7 for the address [abc]. *)
Definition ex_log : rlp :=
  RList [RStr ex_manager; RList [RStr ex_topic; RStr (ex_word 7); RStr (ex_word 99)];
         RStr (ex_word 5000 ++ ex_word 64 ++ ex_word 3 ++ [97; 98; 99] ++ replicate 29 0)%list].
Definition ex_receipt : bytes := encode (RList [RStr [1]; RStr []; RStr []; RList [ex_log]]).
Definition ex_nevm_tx : bytes :=
  encode (RList [RStr [5]; RStr [1]; RStr [2]; RStr ex_manager; RStr []; RStr []; RStr [149]; RStr [3]; RStr [4]]).

(** A trie of one leaf, at the path of the first transaction. *)
Definition ex_leaf (value : bytes) : rlp := RList [RStr [0x20; 0x80]; RStr value].
Definition ex_nodes (value : bytes) : bytes := encode (RList [ex_leaf value]).

Definition ex_mint : CMintSyscoin :=
  {| mint_voutAssets := []; posTx := size (ex_nodes ex_nevm_tx) - size ex_nevm_tx; vchTxParentNodes := ex_nodes ex_nevm_tx;
     nTxRoot := encode (ex_leaf ex_nevm_tx); vchTxPath := [0x80];
     posReceipt := size (ex_nodes ex_receipt) - size ex_receipt; vchReceiptParentNodes := ex_nodes ex_receipt;
     nReceiptRoot := encode (ex_leaf ex_receipt); nTxHash := ex_nevm_tx; nBlockHash := [1] |}.

Definition ex_roots : CNEVMTxRootsDB :=
  {| roots_mapCache := ∅;
     roots_disk := {[ [1] := {| root_nTxRoot := nTxRoot ex_mint; root_nReceiptRoot := nReceiptRoot ex_mint |} ]} |}.

Definition no_mints : CNEVMMintedTxDB := {| mint_mapCache := ∅; mint_disk := ∅ |}.

Definition ex_claim : mint_claim := {| nAssetFromLog := 7; outputAmount := 5000; witnessAddress := [97; 98; 99] |}.

Lemma VerifyProof_binding_witness :
  VerifyProof id [0x80] ex_receipt (ex_nodes ex_receipt) (rlp_append (nReceiptRoot ex_mint)) = Ok (Some None) /\
  (ex_receipt = ex_receipt /\ @None Z = None \/ collide id (node_of (ex_nodes ex_receipt)) (node_of (ex_nodes ex_receipt))).
Proof.
  assert (Hv : VerifyProof id [0x80] ex_receipt (ex_nodes ex_receipt) (rlp_append (nReceiptRoot ex_mint)) = Ok (Some None))
    by (vm_compute; reflexivity).
  split; [exact Hv|]. exact (VerifyProof_binding id [0x80] _ _ _ _ _ None None Hv Hv).
Defined.

Lemma mint_claim_unique_witness :
  (CheckSyscoinMintInternal id ex_params false true ex_roots no_mints ex_mint 10 ∅ = ({[ nTxHash ex_mint ]}, Ok ex_claim)) /\
  (ex_claim = ex_claim /\ nTxHash ex_mint = nTxHash ex_mint \/ collide id (mint_node ex_mint) (mint_node ex_mint)).
Proof.
  assert (Hc : CheckSyscoinMintInternal id ex_params false true ex_roots no_mints ex_mint 10 ∅ = ({[ nTxHash ex_mint ]}, Ok ex_claim))
    by (vm_compute; reflexivity).
  split; [exact Hc|]. exact (mint_claim_unique id ex_params false true ex_roots _ _ ex_mint ex_mint 10 _ _ _ _ _ _ Hc Hc eq_refl eq_refl).
Defined.
