(* ===== verification/AssetConsensus.v ===== *)
(** * Rules of the assets (src/src/services/assetconsensus.cpp)

    Outputs can carry an amount of an asset.  A transaction keeps the amount of every asset,
    but for four operations: SYS are burnt for the asset SYSX and back, an asset is burnt for
    the NEVM, and a proof from the NEVM mints an asset (file Bridge).

    Shown here: what an accepted transaction satisfies in each case, and that no exception
    leaves [CheckSyscoinInputs].  What follows for the total of every asset is in file Supply. *)

From stdpp Require Import strings.
From S2P Require Import Prelude Serialize Amounts ArithUint256 Chain Script Rlp Transaction Coins TxVerify Bridge.

Open Scope string_scope.
Open Scope Z_scope.

(** The parameters of the chain that these rules read. *)
Record AssetParams := { nNexusStartBlock : Z; nCLReceiptStartBlock : Z; nSYSXAsset : Z; bridge : BridgeParams }.

(** ** Canonical payloads *)

(** The data of a script that is nothing but the payload. *)
Definition GetCanonicalSyscoinData (script : bytes) : option bytes :=
  '(opcode, _, pc) ← GetScriptOp script;
  if negb (opcode =? OP_RETURN) then None else
  '(opcode, data, pc) ← GetScriptOp pc;
  if OP_PUSHDATA4 <? opcode then None else
  '(data, pc) ← (if is_witness_commitment data then
                   '(opcode, data, pc) ← GetScriptOp pc;
                   if OP_PUSHDATA4 <? opcode then None else Some (data, pc)
                 else Some (data, pc));
  if bool_decide (pc = []) then Some data else None.

Section checks.
(** How many elements of a vector are read at a time, and whether the check is not part of
    connecting a block or entering the pool. *)
Variable batch : Z.
Variable fJustCheck : bool.

Fixpoint check_values (vs : list CAssetOutValue) (setOutputs : gset Z) : result failure (gset Z) :=
  match vs with
  | [] => Ok setOutputs
  | output :: vs =>
      guard! MoneyRange (out_nValue output) else sys_error fJustCheck "assetallocation-noncanonical-encoding";
      guard! negb (bool_decide (n output ∈ setOutputs)) else sys_error fJustCheck "assetallocation-duplicate-output";
      check_values vs ({[ n output ]} ∪ setOutputs)
  end.

Fixpoint check_assets (l : CAssetAllocation) (setAssets setOutputs : gset Z) : result failure unit :=
  match l with
  | [] => Ok ()
  | asset :: l =>
      guard! negb (key asset =? 0) else sys_error fJustCheck "assetallocation-null-asset";
      guard! negb (bool_decide (values asset = [])) else sys_error fJustCheck "assetallocation-empty-values";
      guard! negb (bool_decide (key asset ∈ setAssets)) else sys_error fJustCheck "assetallocation-duplicate-asset";
      setOutputs ← check_values (values asset) setOutputs;
      check_assets l ({[ key asset ]} ∪ setAssets) setOutputs
  end.

Definition CheckAssetAllocationCanonical (tx : CTransaction) (fRequireSingleAsset : bool) : result failure unit :=
  let allocation := CAssetAllocation_of_tx batch tx in
  guard! negb (bool_decide (allocation = [])) else sys_error fJustCheck "assetallocation-unserialize-failed";
  guard! negb (fRequireSingleAsset && negb (length allocation =? 1)%nat) else sys_error fJustCheck "assetallocation-single-asset";
  let requireCanonicalBurn := nVersion tx =? SYSCOIN_TX_VERSION_ALLOCATION_BURN_TO_NEVM in
  raw_data ←
    (if requireCanonicalBurn then
       match GetSyscoinData tx with
       | None => Throw (sys_error fJustCheck "assetallocation-unserialize-failed")
       | Some (_, data_output) =>
           guard! negb (data_output <? 0) else sys_error fJustCheck "assetallocation-unserialize-failed";
           match vout tx !! Z.to_nat data_output ≫= fun o => GetCanonicalSyscoinData (scriptPubKey o) with
           | None => Throw (sys_error fJustCheck "assetallocation-noncanonical-script")
           | Some d => Ok d
           end
       end
     else Ok []);
  _ ← check_assets allocation ∅ ∅;
  if requireCanonicalBurn then
    let burn := CBurnSyscoin_of_tx batch tx in
    guard! negb (CBurnSyscoin_IsNull burn || negb (size (vchNEVMAddress burn) =? 20))
      else sys_error fJustCheck "assetallocation-invalid-nevm-destination";
    guard! negb (all_zero (vchNEVMAddress burn)) else sys_error fJustCheck "assetallocation-null-nevm-destination";
    guard! bool_decide (raw_data = CBurnSyscoin_Serialize burn) else sys_error fJustCheck "assetallocation-noncanonical-encoding"; Ok ()
  else Ok ().

(** ** Burns and sends *)

Definition vout_at (tx : CTransaction) (i : Z) : CTxOut := default CTxOut_null (vout tx !! Z.to_nat i).

(** The two maps come back as the code leaves them. *)
Definition CheckAssetAllocationInputs (params : AssetParams) (tx : CTransaction) (nHeight : Z) (mapAssetIn mapAssetOut : CAssetsMap) :
    result failure (CAssetsMap * CAssetsMap) :=
  let nOut := GetSyscoinDataOutput tx in
  guard! negb (nOut <? 0) else sys_error fJustCheck "assetallocation-missing-burn-output";
  if nVersion tx =? SYSCOIN_TX_VERSION_ALLOCATION_SEND then Ok (mapAssetIn, mapAssetOut)
  else if nVersion tx =? SYSCOIN_TX_VERSION_SYSCOIN_BURN_TO_ALLOCATION then
    let nAsset := nSYSXAsset params in
    let nBurnAmount := nValue (vout_at tx nOut) in
    guard! negb (nBurnAmount <=? 0) else sys_error fJustCheck "syscoin-burn-invalid-amount";
    match mapAssetOut !! nAsset with
    | None => Throw (sys_error fJustCheck "syscoin-burn-asset-output-notfound")
    | Some out =>
        let nTotal := match mapAssetIn !! nAsset with Some i => out - i | None => out end in
        guard! nTotal =? nBurnAmount else sys_error fJustCheck "syscoin-burn-mismatch-amount";
        Ok (delete nAsset mapAssetIn, delete nAsset mapAssetOut)
    end
  else if (nVersion tx =? SYSCOIN_TX_VERSION_ALLOCATION_BURN_TO_NEVM) || (nVersion tx =? SYSCOIN_TX_VERSION_ALLOCATION_BURN_TO_SYSCOIN) then
    let nBurnAmount := asset_nValue (assetInfo (vout_at tx nOut)) in
    guard! negb (nBurnAmount <=? 0) else sys_error fJustCheck "assetallocation-invalid-burn-amount";
    _ ← (if (nVersion tx =? SYSCOIN_TX_VERSION_ALLOCATION_BURN_TO_NEVM) && (nCLReceiptStartBlock params <=? nHeight) then
           guard! (length (vin tx) <? 100)%nat else sys_error fJustCheck "assetallocation-nevm-too-many-inputs";
           guard! (length (vout tx) <? 10)%nat else sys_error fJustCheck "assetallocation-nevm-too-many-outputs"; Ok ()
         else Ok ());
    if nVersion tx =? SYSCOIN_TX_VERSION_ALLOCATION_BURN_TO_SYSCOIN then
      guard! negb (nOut =? 0) else sys_error fJustCheck "assetallocation-invalid-burn-index";
      guard! nBurnAmount =? nValue (vout_at tx 0) else sys_error fJustCheck "assetallocation-mismatch-burn-amount";
      guard! nAsset (assetInfo (vout_at tx nOut)) =? nSYSXAsset params else sys_error fJustCheck "assetallocation-invalid-sysx-asset";
      Ok (mapAssetIn, mapAssetOut)
    else Ok (mapAssetIn, mapAssetOut)
  else Throw (sys_error fJustCheck "assetallocation-invalid-op").

(** ** Mints *)

(** [dev::sha3], and the address of a script as text, if it has one. *)
Variable sha3 : bytes -> bytes.
Variable destination : bytes -> option bytes.

Fixpoint find_destination (c : mint_claim) (outs : list CTxOut) : result failure bool :=
  match outs with
  | [] => Ok false
  | o :: outs =>
      if IsUnspendable (scriptPubKey o) then find_destination c outs else
      match destination (scriptPubKey o) with
      | None => Throw (sys_error fJustCheck "mint-extract-destination")
      | Some dest =>
          if bool_decide (dest = witnessAddress c) && (nAsset (assetInfo o) =? nAssetFromLog c) && (asset_nValue (assetInfo o) =? outputAmount c)
          then Ok true else find_destination c outs
      end
  end.

(** The part after the proofs. *)
Definition mint_outputs (fBridgeCanonicalActive : bool) (c : mint_claim) (tx : CTransaction) (mapAssetIn mapAssetOut : CAssetsMap) :
    result failure (CAssetsMap * CAssetsMap) :=
  bFoundDest ← find_destination c (vout tx);
  guard! (bFoundDest : bool) else sys_error fJustCheck "mint-mismatch-destination";
  _ ← (if fBridgeCanonicalActive then
         guard! (length (map_to_list mapAssetOut) =? 1)%nat else sys_error fJustCheck "mint-single-asset";
         guard! bool_decide (mapAssetIn = ∅) else sys_error fJustCheck "mint-no-asset-inputs"; Ok ()
       else Ok ());
  match mapAssetOut !! nAssetFromLog c with
  | None => Throw (sys_error fJustCheck "mint-asset-output-notfound")
  | Some out =>
      let '(nTotalMinted, mapAssetIn) :=
        if fBridgeCanonicalActive then (out, mapAssetIn)
        else match mapAssetIn !! nAssetFromLog c with
             | Some i => (out - i, delete (nAssetFromLog c) mapAssetIn)
             | None => (out, mapAssetIn)
             end in
      let mapAssetOut := delete (nAssetFromLog c) mapAssetOut in
      guard! outputAmount c =? nTotalMinted else sys_error fJustCheck "mint-output-mismatch";
      Ok (mapAssetIn, mapAssetOut)
  end.

Definition CheckSyscoinMint (params : AssetParams) (roots : CNEVMTxRootsDB) (minted : CNEVMMintedTxDB) (tx : CTransaction) (nHeight : Z)
    (setMintTxs : NEVMMintTxSet) (mapAssetIn mapAssetOut : CAssetsMap) : NEVMMintTxSet * result failure (CAssetsMap * CAssetsMap) :=
  let mintSyscoin := CMintSyscoin_of_tx batch tx in
  if CMintSyscoin_IsNull mintSyscoin then (setMintTxs, Throw (sys_error fJustCheck "mint-unserialize-failed")) else
  let fBridgeCanonicalActive := nCLReceiptStartBlock params <=? nHeight in
  match CheckSyscoinMintInternal sha3 (bridge params) fJustCheck fBridgeCanonicalActive roots minted mintSyscoin nHeight setMintTxs with
  | (setMintTxs, Throw e) => (setMintTxs, Throw e)
  | (setMintTxs, Ok c) => (setMintTxs, mint_outputs fBridgeCanonicalActive c tx mapAssetIn mapAssetOut)
  end.

(** ** All of it *)

(** [return false] without a verdict. *)
Definition refused : failure := Invalid TX_RESULT_UNSET "".

(** The [catch] clauses. *)
Definition caught {A} (r : result failure A) : result failure A :=
  match r with
  | Throw (Raised what) => Throw (sys_error fJustCheck what)
  | _ => r
  end.

Definition CheckSyscoinInputs (params : AssetParams) (roots : CNEVMTxRootsDB) (minted : CNEVMMintedTxDB) (tx : CTransaction) (nHeight : Z)
    (setMintTxs : NEVMMintTxSet) (mapAssetIn mapAssetOut : CAssetsMap) : NEVMMintTxSet * result failure unit :=
  if nHeight <? nNexusStartBlock params then (setMintTxs, guard! negb (HasAssets tx) else refused; Ok ()) else
  if (nVersion tx =? SYSCOIN_TX_VERSION_ALLOCATION_BURN_TO_SYSCOIN_LEGACY) || (nVersion tx =? SYSCOIN_TX_VERSION_ALLOCATION_BURN_TO_SYSCOIN_LEGACY1)
  then (setMintTxs, Throw refused) else
  let canonical :=
    if (nCLReceiptStartBlock params <=? nHeight) && HasAssets tx then
      CheckAssetAllocationCanonical tx (IsSyscoinMintTx (nVersion tx) || (nVersion tx =? SYSCOIN_TX_VERSION_ALLOCATION_BURN_TO_NEVM))
    else Ok () in
  match canonical with
  | Throw e => (setMintTxs, caught (Throw e))
  | Ok _ =>
      let '(setMintTxs, good) :=
        if IsSyscoinMintTx (nVersion tx) then CheckSyscoinMint params roots minted tx nHeight setMintTxs mapAssetIn mapAssetOut
        else (setMintTxs, if IsAssetAllocationTx (nVersion tx) then CheckAssetAllocationInputs params tx nHeight mapAssetIn mapAssetOut
                          else Ok (mapAssetIn, mapAssetOut)) in
      (setMintTxs,
       caught ('(mapAssetIn, mapAssetOut) ← good;
               guard! negb (HasAssets tx && negb (bool_decide (mapAssetIn = mapAssetOut)))
                 else Invalid TX_CONSENSUS "bad-txns-asset-io-mismatch";
               Ok ()))
  end.
End checks.

(** ** What an accepted transaction satisfies *)

(** Outputs exceed inputs by [x] in asset [a], and agree in every other one. *)
Definition gains (a x : Z) (mapAssetIn mapAssetOut : CAssetsMap) : Prop :=
  (forall b, b <> a -> mapAssetIn !! b = mapAssetOut !! b) /\
  default 0 (mapAssetOut !! a) = default 0 (mapAssetIn !! a) + x.

Lemma gains_equal a (m : CAssetsMap) : gains a 0 m m.
Proof. split; [done|lia]. Qed.

Lemma gains_delete a out (mi mo : CAssetsMap) :
  mo !! a = Some out -> delete a mi = delete a mo -> gains a (out - default 0 (mi !! a)) mi mo.
Proof.
  intros Ho Hd. split; [|rewrite Ho; cbn; lia]. intros b Hb.
  rewrite <- (lookup_delete_ne mi a b), <- (lookup_delete_ne mo a b), Hd by done. done.
Qed.

(** The rule for each operation, in terms of the two maps. *)
Inductive asset_rule (params : AssetParams) (tx : CTransaction) (mi mo : CAssetsMap) : option mint_claim -> Prop :=
| rule_plain :
    nVersion tx = SYSCOIN_TX_VERSION_ALLOCATION_SEND \/ nVersion tx = SYSCOIN_TX_VERSION_ALLOCATION_BURN_TO_NEVM ->
    mi = mo -> asset_rule params tx mi mo None
| rule_to_sys :
    nVersion tx = SYSCOIN_TX_VERSION_ALLOCATION_BURN_TO_SYSCOIN -> mi = mo -> 0 < GetSyscoinDataOutput tx ->
    nAsset (assetInfo (vout_at tx (GetSyscoinDataOutput tx))) = nSYSXAsset params ->
    asset_nValue (assetInfo (vout_at tx (GetSyscoinDataOutput tx))) = nValue (vout_at tx 0) -> 0 < nValue (vout_at tx 0) ->
    asset_rule params tx mi mo None
| rule_to_sysx :
    nVersion tx = SYSCOIN_TX_VERSION_SYSCOIN_BURN_TO_ALLOCATION -> 0 <= GetSyscoinDataOutput tx ->
    0 < nValue (vout_at tx (GetSyscoinDataOutput tx)) ->
    gains (nSYSXAsset params) (nValue (vout_at tx (GetSyscoinDataOutput tx))) mi mo -> asset_rule params tx mi mo None
| rule_mint c :
    nVersion tx = SYSCOIN_TX_VERSION_ALLOCATION_MINT -> gains (nAssetFromLog c) (outputAmount c) mi mo ->
    asset_rule params tx mi mo (Some c).

Lemma data_output_from_spec i outs :
  data_output_from i outs = -1 \/
  exists k o, data_output_from i outs = i + Z.of_nat k /\ outs !! k = Some o /\ IsUnspendable (scriptPubKey o) = true.
Proof.
  revert i. induction outs as [|o outs IH]; intros i; cbn [data_output_from]; [by left|].
  destruct (IsUnspendable (scriptPubKey o)) eqn:E; [right; exists O, o; split_and!; [lia|done|done]|].
  destruct (IH (i + 1)) as [?|(k & o' & -> & ? & ?)]; [by left|]. right. exists (S k), o'. split_and!; [lia|done|done].
Qed.

Lemma data_output_unspendable tx :
  0 <= GetSyscoinDataOutput tx ->
  exists o, vout tx !! Z.to_nat (GetSyscoinDataOutput tx) = Some o /\ vout_at tx (GetSyscoinDataOutput tx) = o /\
    IsUnspendable (scriptPubKey o) = true.
Proof.
  intros H. unfold vout_at, GetSyscoinDataOutput in *. destruct (data_output_from_spec 0 (vout tx)) as [Hn|(k & o & Hk & Ho & Hu)]; [lia|].
  rewrite Hk. replace (Z.to_nat (0 + Z.of_nat k)) with k by lia. exists o. by rewrite Ho.
Qed.

Lemma mint_outputs_Ok jc dest active c tx mi mo mi' mo' :
  mint_outputs jc dest active c tx mi mo = Ok (mi', mo') -> mi' = mo' -> gains (nAssetFromLog c) (outputAmount c) mi mo.
Proof.
  unfold mint_outputs. intros (b & _ & H)%bind_ok. destruct b; [|done]. apply bind_ok in H as ([] & Ha & H).
  destruct (mo !! nAssetFromLog c) as [out|] eqn:Ho; [|done]. destruct active.
  - destruct (length _ =? 1)%nat; [|done]. case_bool_decide as He; [|done]. subst mi. cbv beta iota in H.
    destruct (Z.eqb_spec (outputAmount c) out) as [->|]; [|done]. injection H as <- <-. intros Hd.
    replace out with (out - default 0 ((∅ : CAssetsMap) !! nAssetFromLog c)) by (rewrite lookup_empty; cbn; lia).
    apply gains_delete; [done|]. by rewrite delete_empty.
  - destruct (mi !! nAssetFromLog c) as [i|] eqn:Hi; cbv beta iota in H.
    + destruct (Z.eqb_spec (outputAmount c) (out - i)) as [->|]; [|done]. injection H as <- <-. intros Hd.
      pose proof (gains_delete _ out mi mo Ho Hd) as Hg. by rewrite Hi in Hg.
    + destruct (Z.eqb_spec (outputAmount c) out) as [->|]; [|done]. injection H as <- <-. intros Hd.
      pose proof (gains_delete _ out mi mo Ho) as Hg. rewrite Hi, Z.sub_0_r in Hg. apply Hg. by rewrite (delete_id mi) by done.
Qed.

Lemma CheckAssetAllocationInputs_Ok jc params tx h mi mo mi' mo' :
  CheckAssetAllocationInputs jc params tx h mi mo = Ok (mi', mo') -> mi' = mo' -> asset_rule params tx mi mo None.
Proof.
  unfold CheckAssetAllocationInputs. destruct (Z.ltb_spec (GetSyscoinDataOutput tx) 0) as [|Hout]; [done|]. cbn [negb].
  destruct (Z.eqb_spec (nVersion tx) SYSCOIN_TX_VERSION_ALLOCATION_SEND).
  { intros [= <- <-] Heq. apply rule_plain; auto. }
  destruct (Z.eqb_spec (nVersion tx) SYSCOIN_TX_VERSION_SYSCOIN_BURN_TO_ALLOCATION).
  { destruct (Z.leb_spec (nValue (vout_at tx (GetSyscoinDataOutput tx))) 0) as [|Hb]; [done|]. cbn [negb].
    destruct (mo !! nSYSXAsset params) as [out|] eqn:Ho; [|done].
    destruct (Z.eqb_spec (match mi !! nSYSXAsset params with Some i => out - i | None => out end)
      (nValue (vout_at tx (GetSyscoinDataOutput tx)))) as [Ht|]; [|done].
    intros [= <- <-] Hd. apply rule_to_sysx; try done. pose proof (gains_delete _ out mi mo Ho Hd) as Hg.
    destruct (mi !! nSYSXAsset params); cbn in *; [by rewrite <- Ht|]. by rewrite Z.sub_0_r, Ht in Hg. }
  destruct (Z.eqb_spec (nVersion tx) SYSCOIN_TX_VERSION_ALLOCATION_BURN_TO_NEVM) as [Hn|Hn];
    destruct (Z.eqb_spec (nVersion tx) SYSCOIN_TX_VERSION_ALLOCATION_BURN_TO_SYSCOIN) as [Hs|Hs]; cbn [orb andb]; [by rewrite Hn in Hs|..|done].
  - destruct (negb (_ <=? 0)); [|done]. intros ([] & _ & [= <- <-])%bind_ok Heq. apply rule_plain; auto.
  - destruct (Z.leb_spec (asset_nValue (assetInfo (vout_at tx (GetSyscoinDataOutput tx)))) 0) as [|Hb]; [done|]. cbn [negb mbind result_bind].
    destruct (Z.eqb_spec (GetSyscoinDataOutput tx) 0); [done|]. cbn [negb].
    destruct (Z.eqb_spec (asset_nValue (assetInfo (vout_at tx (GetSyscoinDataOutput tx)))) (nValue (vout_at tx 0))) as [Hv|]; [|done].
    destruct (Z.eqb_spec (nAsset (assetInfo (vout_at tx (GetSyscoinDataOutput tx)))) (nSYSXAsset params)) as [Ha|]; [|done].
    intros [= <- <-] Heq. apply rule_to_sys; try done; lia.
Qed.

Lemma caught_Ok {A} jc (r : result failure A) a : caught jc r = Ok a -> r = Ok a.
Proof. by destruct r as [|[]]. Qed.

(** The rules above are what [CheckSyscoinInputs] enforces once the Nexus rules are active; a
    mint that passes can be disconnected, and only a mint changes the set. *)
Lemma CheckSyscoinInputs_rule batch jc sha3 dest params roots minted tx h s s' mi mo :
  CheckSyscoinInputs batch jc sha3 dest params roots minted tx h s mi mo = (s', Ok ()) ->
  nNexusStartBlock params <= h ->
  is_burn_to_syscoin (nVersion tx) = (nVersion tx =? SYSCOIN_TX_VERSION_ALLOCATION_BURN_TO_SYSCOIN) /\
  DisconnectSyscoinTransaction batch tx = true /\
  if HasAssets tx then exists c, asset_rule params tx mi mo c /\
    match c with
    | None => s' = s
    | Some claim => CheckSyscoinMintInternal sha3 (bridge params) jc (nCLReceiptStartBlock params <=? h) roots minted
        (CMintSyscoin_of_tx batch tx) h s = (s', Ok claim)
    end
  else s' = s.
Proof.
  intros H Hh. unfold CheckSyscoinInputs in H. destruct (Z.ltb_spec h (nNexusStartBlock params)); [lia|].
  destruct (_ || _) eqn:Hleg; [done|]. apply orb_false_iff in Hleg as [L1 L2].
  split; [unfold is_burn_to_syscoin; rewrite L1, L2, !orb_false_r; done|].
  match type of H with context [match ?c with Ok _ => _ | Throw _ => _ end] => destruct c as [[]|[]] end; [|done|done].
  unfold DisconnectSyscoinTransaction. destruct (IsSyscoinMintTx (nVersion tx)) eqn:Hm.
  - assert (HasAssets tx = true) as Ha by (unfold HasAssets, IsSyscoinTx; by rewrite Hm, orb_true_r).
    unfold CheckSyscoinMint in H. destruct (CMintSyscoin_IsNull _); [done|]. split; [done|]. rewrite Ha in *.
    destruct (CheckSyscoinMintInternal _ _ _ _ _ _ _ _ _) as [s1 [c|[]]] eqn:Hi; [|done|done].
    injection H as <- H. apply caught_Ok, bind_ok in H as ([mi' mo'] & Hout & H). case_bool_decide as Heq; [|done].
    exists (Some c). split; [|done]. apply rule_mint; [by apply Z.eqb_eq|]. by eapply mint_outputs_Ok.
  - split; [done|]. injection H as <- H. destruct (HasAssets tx) eqn:Ha; [|done].
    assert (Hall : IsAssetAllocationTx (nVersion tx) = true).
    { unfold HasAssets, IsSyscoinTx in Ha. by rewrite Hm, orb_false_r in Ha. }
    rewrite Hall in H. apply caught_Ok, bind_ok in H as ([mi' mo'] & Hout & H). case_bool_decide as Heq; [|done].
    exists None. split; [|done]. by eapply CheckAssetAllocationInputs_Ok.
Qed.

(** Whatever the checks come across, the answer is a verdict. *)
Lemma CheckSyscoinInputs_no_raise batch jc sha3 dest params roots minted tx h s mi mo w :
  (CheckSyscoinInputs batch jc sha3 dest params roots minted tx h s mi mo).2 <> Throw (Raised w).
Proof.
  assert (Hc : forall A (r : result failure A), caught jc r <> Throw (Raised w)).
  { by intros A [|[]]. }
  unfold CheckSyscoinInputs. destruct (_ <? _); [cbn; by destruct (HasAssets tx)|]. destruct (_ || _); [done|].
  match goal with |- context [match ?c with Ok _ => _ | Throw _ => _ end] => destruct c as [[]|e] end; [|apply Hc].
  destruct (IsSyscoinMintTx _); [destruct (CheckSyscoinMint _ _ _ _ _ _ _ _ _ _ _) as [s1 r]|]; apply Hc.
Qed.
