(* ===== verification/Supply.v ===== *)
(** * What transactions do to the supply

    The sum of a quantity over the coins of the set, and how taking inputs and adding outputs
    change it; from the checks of files TxVerify and AssetConsensus, the balance of an
    accepted transaction for SYS, for SYSX and for every other asset. *)

From stdpp Require Import strings.
From S2P Require Import Prelude Serialize Amounts ArithUint256 Chain Script Rlp Transaction Coins TxVerify Bridge AssetConsensus.

(** ** Sums over the set *)

Definition total (f : CTxOut -> Z) (m : gmap COutPoint Coin) : Z := map_fold (fun _ c acc => f (coin_out c) + acc) 0 m.

Definition sum_outs (f : CTxOut -> Z) (outs : list CTxOut) : Z := foldr (fun o acc => f o + acc) 0 outs.

Lemma sum_outs_cons f o outs : sum_outs f (o :: outs) = f o + sum_outs f outs.
Proof. done. Qed.

Lemma total_insert f m o c : m !! o = None -> total f (<[o := c]> m) = f (coin_out c) + total f m.
Proof. intros Ho. unfold total. rewrite map_fold_insert_L; [done| |done]. intros. lia. Qed.

Lemma total_delete f m o c : m !! o = Some c -> total f m = f (coin_out c) + total f (delete o m).
Proof. intros Ho. rewrite <- (insert_delete_id m o c Ho) at 1. apply total_insert, lookup_delete_eq. Qed.

Lemma total_take f ins m l m' : take_inputs ins m = Some (l, m') -> total f m = sum_outs f (coin_out <$> l) + total f m'.
Proof.
  revert m l. induction ins as [|i ins IH]; intros m l; cbn [take_inputs]; [by intros [= <- <-]|].
  intros (c & Hc & ([l' m1] & H1 & [= <- <-])%bind_Some)%bind_Some. rewrite (total_delete f m _ c Hc), (IH _ _ H1).
  rewrite fmap_cons, sum_outs_cons. lia.
Qed.

(** Outputs that enter the set, and outputs that do not. *)
Definition spendable (outs : list CTxOut) : list CTxOut := filter (fun o => IsUnspendable (scriptPubKey o) = false) outs.
Definition burnt (outs : list CTxOut) : list CTxOut := filter (fun o => IsUnspendable (scriptPubKey o) = true) outs.

Lemma spendable_cons o outs : spendable (o :: outs) = if IsUnspendable (scriptPubKey o) then spendable outs else o :: spendable outs.
Proof.
  unfold spendable. destruct (IsUnspendable (scriptPubKey o)) eqn:E; [rewrite filter_cons_False by (by rewrite E)|rewrite filter_cons_True by done]; done.
Qed.

Lemma burnt_cons o outs : burnt (o :: outs) = if IsUnspendable (scriptPubKey o) then o :: burnt outs else burnt outs.
Proof.
  unfold burnt. destruct (IsUnspendable (scriptPubKey o)) eqn:E; [rewrite filter_cons_True by done|rewrite filter_cons_False by (by rewrite E)]; done.
Qed.

Lemma sum_outs_split f outs : sum_outs f outs = sum_outs f (spendable outs) + sum_outs f (burnt outs).
Proof.
  induction outs as [|o outs IH]; [done|]. rewrite spendable_cons, burnt_cons, sum_outs_cons, IH.
  destruct (IsUnspendable (scriptPubKey o)); rewrite sum_outs_cons; lia.
Qed.

Lemma total_put GetHash h f tx i outs m :
  outs_absent GetHash tx i outs m -> total f (put_outputs GetHash h tx i outs m) = sum_outs f (spendable outs) + total f m.
Proof.
  revert i. induction outs as [|o outs IH]; intros i Ha; [done|]. cbn [put_outputs]. unfold put_output.
  assert (Ha' : outs_absent GetHash tx (i + 1) outs m) by (intros j Hj; apply Ha; cbn; lia). rewrite spendable_cons.
  destruct (IsUnspendable (scriptPubKey o)); [by apply IH|].
  rewrite total_insert by (rewrite put_outputs_below by lia; apply Ha; cbn; lia). rewrite IH, sum_outs_cons by done. cbn [Coin_of coin_out]. lia.
Qed.

Lemma mapM_ext_in {A B} (f g : A -> option B) l : (forall x, x ∈ l -> f x = g x) -> mapM f l = mapM g l.
Proof.
  induction l as [|x l IH]; intros Hl; [done|]. cbn [mapM]. rewrite (Hl x) by left. rewrite IH; [done|]. intros y Hy. apply Hl. by right.
Qed.

(** Inputs that are there and pairwise different can be taken. *)
Lemma take_inputs_of ins m cs :
  NoDup (prevout <$> ins) -> input_coins ins m = Some cs -> exists m', take_inputs ins m = Some (cs, m').
Proof.
  revert m cs. unfold input_coins. induction ins as [|i ins IH]; intros m cs; rewrite ?fmap_cons; [by intros _ [= <-]; exists m|].
  intros [Hi Hnd]%NoDup_cons (c & Hc & (cs' & Hcs & [= <-])%bind_Some)%bind_Some. cbn [take_inputs]. rewrite Hc. cbo.
  destruct (IH (delete (prevout i) m) cs' Hnd) as (m' & Hm'); [|exists m'; by rewrite Hm'].
  rewrite <- Hcs. apply mapM_ext_in. intros j Hj. rewrite lookup_delete_ne; [done|]. intros Heq. apply Hi. rewrite Heq.
  by apply list_elem_of_fmap_2.
Qed.

(** ** The balance of a transaction *)

Definition asset_amount (a : Z) (o : CTxOut) : Z := if nAsset (assetInfo o) =? a then asset_nValue (assetInfo o) else 0.

Definition supply (m : gmap COutPoint Coin) : Z := total nValue m.
Definition asset_supply (a : Z) (m : gmap COutPoint Coin) : Z := total (asset_amount a) m.

Lemma sum_outs_nonneg f outs : Forall (fun o => 0 <= f o) outs -> 0 <= sum_outs f outs.
Proof. induction 1; [done|]. rewrite sum_outs_cons. lia. Qed.

Lemma sum_outs_elem f outs o : Forall (fun o => 0 <= f o) outs -> o ∈ outs -> f o <= sum_outs f outs.
Proof.
  induction 1 as [|o' outs Ho Houts IH]; [by intros ?%not_elem_of_nil|]. rewrite sum_outs_cons.
  intros [->|Hin]%elem_of_cons; [pose proof (sum_outs_nonneg f outs Houts); lia|specialize (IH Hin); lia].
Qed.

Lemma burnt_elem o outs : o ∈ burnt outs <-> IsUnspendable (scriptPubKey o) = true /\ o ∈ outs.
Proof. unfold burnt. by rewrite list_elem_of_filter. Qed.

Lemma burnt_Forall (P : CTxOut -> Prop) outs : Forall P outs -> Forall P (burnt outs).
Proof. rewrite !Forall_forall. intros HP o [_ Ho]%burnt_elem. auto. Qed.

Lemma values_nonneg outs : Forall (fun o => MoneyRange (nValue o) = true) outs -> Forall (fun o => 0 <= nValue o) outs.
Proof. intros HF. eapply Forall_impl; [exact HF|]. intros o Ho%MoneyRange_spec. lia. Qed.

Lemma amounts_nonneg a outs : a <> 0 -> Forall asset_in_range outs -> Forall (fun o => 0 <= asset_amount a o) outs.
Proof.
  intros Ha HF. eapply Forall_impl; [exact HF|]. intros o Ho. unfold asset_amount. destruct (Z.eqb_spec (nAsset (assetInfo o)) a); [|done].
  destruct Ho as [Hn|Hr%MoneyRange_spec]; [unfold CAssetCoinInfo_IsNull in Hn; lia|lia].
Qed.

Lemma asset_totals a outs m :
  a <> 0 -> GetAssetValueOut_loop outs ∅ = (m, true) -> default 0 (m !! a) = sum_outs (asset_amount a) outs /\ Forall asset_in_range outs.
Proof.
  intros Ha Hm. apply GetAssetValueOut_loop_true in Hm as (_ & HF & Hl); [|done]. split; [|done]. rewrite Hl by done.
  rewrite lookup_empty. cbn. destruct (has_asset a outs) eqn:Hh; [done|]. by rewrite <- (sum_asset_absent a outs Hh).
Qed.

(** Outputs without assets. *)
Lemma sum_outs_null a outs : a <> 0 -> Forall (fun o => CAssetCoinInfo_IsNull (assetInfo o) = true) outs -> sum_outs (asset_amount a) outs = 0.
Proof.
  intros Ha. induction 1 as [|o outs Ho _ IH]; [done|]. rewrite sum_outs_cons, IH. unfold asset_amount, CAssetCoinInfo_IsNull in *.
  destruct (Z.eqb_spec (nAsset (assetInfo o)) a); lia.
Qed.

Lemma spendable_Forall (P : CTxOut -> Prop) outs : Forall P outs -> Forall P (spendable outs).
Proof. rewrite !Forall_forall. intros HP o Ho. apply HP. unfold spendable in Ho. by apply list_elem_of_filter in Ho as [_ ?]. Qed.

(** A coinbase: nothing is spent. *)
Lemma coinbase_creates GetHash h tx m x :
  x <> 0 -> Forall (fun o => MoneyRange (nValue o) = true) (vout tx) -> Forall (fun o => CAssetCoinInfo_IsNull (assetInfo o) = true) (vout tx) ->
  outs_absent GetHash tx 0 (vout tx) m ->
  let m' := put_outputs GetHash h tx 0 (vout tx) m in
  supply m' + asset_supply x m' <= supply m + asset_supply x m + sum_values (vout tx) /\ (forall a, a <> 0 -> asset_supply a m' = asset_supply a m).
Proof.
  intros Hx Hv Hnull Ha m'. subst m'. unfold supply, asset_supply. assert (Heq : forall a, a <> 0 -> total (asset_amount a) (put_outputs GetHash h tx 0 (vout tx) m) = total (asset_amount a) m).
  { intros a Ha0. rewrite total_put by done. rewrite sum_outs_null by (try apply spendable_Forall; done). lia. }
  split; [|done]. rewrite (Heq x Hx), total_put by done. pose proof (sum_outs_split nValue (vout tx)) as Hs.
  pose proof (sum_outs_nonneg nValue (burnt (vout tx)) ltac:(by apply burnt_Forall, values_nonneg)). change sum_values with (sum_outs nValue). lia.
Qed.

Section balance.
Variable GetHash : CTransaction -> uint256.
Variable h : Z.
Variable tx : CTransaction.
Variables (m m1 : gmap COutPoint Coin) (cs : list Coin) (fee : Z) (mi mo : CAssetsMap).
Hypothesis Hwf : well_formed_tx tx.
Hypothesis Htake : take_inputs (vin tx) m = Some (cs, m1).
Hypothesis Habs : outs_absent GetHash tx 0 (vout tx) m1.
Hypothesis Hpays : pays tx h cs fee mi mo.

Definition coins_after : gmap COutPoint Coin := put_outputs GetHash h tx 0 (vout tx) m1.

Lemma counted_sum : sum_values (vout tx) = sum_values (counted tx) + (if is_burn_to_syscoin (nVersion tx) then nValue (vout_at tx 0) else 0).
Proof.
  unfold counted. destruct (is_burn_to_syscoin _); [|lia]. destruct Hwf as (_ & Hv & _). unfold vout_at.
  destruct (vout tx) as [|o outs]; [done|]. change (sum_values (o :: outs)) with (nValue o + sum_values outs).
  change (drop 1 (o :: outs)) with outs. change ((o :: outs) !! Z.to_nat 0) with (Some o). cbn [default]. unfold id. lia.
Qed.

Lemma balance_sys :
  supply coins_after + fee + sum_outs nValue (burnt (vout tx)) =
  supply m + (if is_burn_to_syscoin (nVersion tx) then nValue (vout_at tx 0) else 0).
Proof.
  unfold supply, coins_after. rewrite total_put by done. rewrite (total_take nValue _ _ _ _ Htake).
  destruct Hpays as (_ & _ & Hsum & _ & _). pose proof (sum_outs_split nValue (vout tx)) as Hsplit. pose proof counted_sum as Hc.
  change (sum_values (vout tx)) with (sum_outs nValue (vout tx)) in Hc. change sum_values with (sum_outs nValue) in *. lia.
Qed.

Lemma balance_asset a :
  asset_supply a coins_after + sum_outs (asset_amount a) (burnt (vout tx)) + sum_outs (asset_amount a) (coin_out <$> cs) =
  asset_supply a m + sum_outs (asset_amount a) (vout tx).
Proof.
  unfold asset_supply, coins_after. rewrite total_put by done. rewrite (total_take _ _ _ _ _ Htake).
  pose proof (sum_outs_split (asset_amount a) (vout tx)). lia.
Qed.

(** What a claim mints of an asset. *)
Definition minted_of (a : Z) (c : option mint_claim) : Z :=
  match c with Some c => if nAssetFromLog c =? a then outputAmount c else 0 | None => 0 end.

Lemma gains_sum a b x :
  a <> 0 -> HasAssets tx = true -> gains b x mi mo ->
  sum_outs (asset_amount a) (vout tx) = sum_outs (asset_amount a) (coin_out <$> cs) + (if b =? a then x else 0).
Proof.
  intros Ha Hh [Hne Heq]. destruct Hpays as (_ & _ & _ & _ & Hm). rewrite Hh in Hm. destruct Hm as [Hmi Hmo].
  destruct (asset_totals a _ _ Ha Hmi) as [Hi _], (asset_totals a _ _ Ha Hmo) as [Ho _].
  destruct (Z.eqb_spec b a) as [->|Hab]; [lia|]. specialize (Hne a). rewrite Hne in Hi by done. lia.
Qed.

(** A transaction with assets. *)
Lemma asset_tx_conserves params c :
  nSYSXAsset params <> 0 -> HasAssets tx = true -> asset_rule params tx mi mo c ->
  is_burn_to_syscoin (nVersion tx) = (nVersion tx =? SYSCOIN_TX_VERSION_ALLOCATION_BURN_TO_SYSCOIN) ->
  supply coins_after + asset_supply (nSYSXAsset params) coins_after + fee <=
    supply m + asset_supply (nSYSXAsset params) m + minted_of (nSYSXAsset params) c /\
  (forall a, a <> 0 -> a <> nSYSXAsset params -> asset_supply a coins_after <= asset_supply a m + minted_of a c).
Proof.
  intros Hx Hh Hrule Hburn. pose proof balance_sys as HS. rewrite Hburn in HS.
  destruct Hpays as (_ & _ & _ & _ & Hm). rewrite Hh in Hm. destruct Hm as [_ Hmo].
  pose proof (proj2 (asset_totals 1 _ _ ltac:(done) Hmo)) as Hrange.
  assert (Hbn : forall a, a <> 0 -> 0 <= sum_outs (asset_amount a) (burnt (vout tx))).
  { intros a Ha. by apply sum_outs_nonneg, burnt_Forall, amounts_nonneg. }
  assert (Hvn : Forall (fun o => 0 <= nValue o) (burnt (vout tx))) by (apply burnt_Forall, values_nonneg, Hwf).
  pose proof (sum_outs_nonneg _ _ Hvn) as Hvs.
  assert (Hdata : 0 <= GetSyscoinDataOutput tx -> vout_at tx (GetSyscoinDataOutput tx) ∈ burnt (vout tx)).
  { intros (o & Ho & -> & Hu)%data_output_unspendable. apply burnt_elem. split; [done|]. by eapply list_elem_of_lookup_2. }
  pose proof (balance_asset (nSYSXAsset params)) as HX. pose proof (Hbn _ Hx) as HbX.
  assert (Hgain : forall a b x, a <> 0 -> gains b x mi mo ->
    asset_supply a coins_after + sum_outs (asset_amount a) (burnt (vout tx)) = asset_supply a m + (if b =? a then x else 0)).
  { intros a b x Ha Hg. pose proof (balance_asset a). pose proof (gains_sum a b x Ha Hh Hg). lia. }
  destruct Hrule as [Hv Heq|Hv Heq Hout Ha Hval Hpos|Hv Hout Hpos Hg|c Hv Hg].
  - assert ((nVersion tx =? SYSCOIN_TX_VERSION_ALLOCATION_BURN_TO_SYSCOIN) = false) as Hb by (destruct Hv as [-> | ->]; done).
    rewrite Hb in HS. cbv iota in HS. assert (Hg : gains 0 0 mi mo) by (rewrite Heq; apply gains_equal). cbn [minted_of]. split.
    + specialize (Hgain _ 0 0 Hx Hg). destruct (0 =? _); lia.
    + intros a Ha _. specialize (Hgain a 0 0 Ha Hg). specialize (Hbn a Ha). destruct (0 =? a); lia.
  - rewrite Hv in HS. change (SYSCOIN_TX_VERSION_ALLOCATION_BURN_TO_SYSCOIN =? SYSCOIN_TX_VERSION_ALLOCATION_BURN_TO_SYSCOIN) with true in HS. cbv iota in HS.
    assert (Hg : gains 0 0 mi mo) by (rewrite Heq; apply gains_equal). cbn [minted_of]. split.
    + specialize (Hgain _ 0 0 Hx Hg). pose proof (sum_outs_elem (asset_amount (nSYSXAsset params)) _ _
        (burnt_Forall _ _ (amounts_nonneg _ _ Hx Hrange)) (Hdata ltac:(lia))) as Hel.
      unfold asset_amount in Hel at 1. rewrite Ha, Z.eqb_refl, Hval in Hel. destruct (0 =? _); lia.
    + intros a Ha' _. specialize (Hgain a 0 0 Ha' Hg). specialize (Hbn a Ha'). destruct (0 =? a); lia.
  - rewrite Hv in HS. change (SYSCOIN_TX_VERSION_SYSCOIN_BURN_TO_ALLOCATION =? SYSCOIN_TX_VERSION_ALLOCATION_BURN_TO_SYSCOIN) with false in HS. cbv iota in HS.
    cbn [minted_of]. split.
    + specialize (Hgain _ _ _ Hx Hg). rewrite Z.eqb_refl in Hgain. pose proof (sum_outs_elem nValue _ _ Hvn (Hdata Hout)). lia.
    + intros a Ha' Hne. specialize (Hgain a _ _ Ha' Hg). specialize (Hbn a Ha'). destruct (Z.eqb_spec (nSYSXAsset params) a); [lia|]. lia.
  - rewrite Hv in HS. change (SYSCOIN_TX_VERSION_ALLOCATION_MINT =? SYSCOIN_TX_VERSION_ALLOCATION_BURN_TO_SYSCOIN) with false in HS. cbv iota in HS.
    cbn [minted_of]. split.
    + specialize (Hgain _ _ _ Hx Hg). lia.
    + intros a Ha' _. specialize (Hgain a _ _ Ha' Hg). specialize (Hbn a Ha'). lia.
Qed.

(** A transaction without assets, as the deserializer leaves it, in a set whose amounts are
    not negative: what it spends of an asset is lost. *)
Lemma plain_tx_conserves (X : Z) :
  X <> 0 -> HasAssets tx = false -> is_burn_to_syscoin (nVersion tx) = false ->
  Forall (fun o => CAssetCoinInfo_IsNull (assetInfo o) = true) (vout tx) -> Forall (fun c => asset_in_range (coin_out c)) cs ->
  supply coins_after + asset_supply X coins_after + fee <= supply m + asset_supply X m /\
  (forall a, a <> 0 -> asset_supply a coins_after <= asset_supply a m).
Proof.
  intros HX Hh Hb Hnull Hcs. pose proof balance_sys as HS. rewrite Hb in HS. cbv iota in HS.
  pose proof (sum_outs_nonneg nValue (burnt (vout tx)) ltac:(apply burnt_Forall, values_nonneg, Hwf)).
  assert (Hall : forall a, a <> 0 -> asset_supply a coins_after <= asset_supply a m).
  { intros a Ha. pose proof (balance_asset a) as HA. rewrite (sum_outs_null a (vout tx) Ha Hnull), (sum_outs_null a (burnt (vout tx)) Ha (burnt_Forall _ _ Hnull)) in HA.
    assert (0 <= sum_outs (asset_amount a) (coin_out <$> cs)); [|lia].
    apply sum_outs_nonneg, amounts_nonneg; [done|]. by apply Forall_fmap. }
  split; [|done]. specialize (Hall X HX). lia.
Qed.
End balance.
