(* ===== verification/ConnectBlock.v ===== *)
(** * Checking and connecting blocks ([CheckBlock], [CheckInputScripts] and [ConnectBlock] of
    src/src/validation.cpp)

    [CheckBlock] is what can be said of a block without its chain; [ConnectBlock] applies the
    transactions of a block to the coins, checking each of them first.  The check of an input by
    the interpreter, which file ScriptPolicy gives, is a parameter, and so are the answers of
    the parts that concern masternodes and governance, payments to them, chain locks, the data
    of the NEVM and blobs, which do not write coins and may fail in every way ([Others]).  The
    cache of script executions may give up an entry that a lookup allows it to erase, as
    another parameter says.  What [ConnectBlock] records in the index entry of the block is
    left out.

    Shown here: connecting never hits an assertion of the functions it calls; a block that is
    connected can be disconnected with its undo data from disk, which gives back the coins; it
    keeps the set well formed; it creates no more than its coinbase pays and its mints prove;
    the queue of script checks and checking in place accept the same blocks. *)

From stdpp Require Import strings.
From S2P Require Import Prelude Serialize Amounts ArithUint256 Chain Pow Merkle Script Rlp Transaction AuxPow Coins Undo TxVerify Bridge AssetConsensus Supply.

Open Scope string_scope.
Open Scope Z_scope.

(** ** Verdicts *)

Inductive BlockValidationResult :=
| BLOCK_RESULT_UNSET | BLOCK_CONSENSUS | BLOCK_RECENT_CONSENSUS_CHANGE | BLOCK_CACHED_INVALID | BLOCK_INVALID_HEADER | BLOCK_MUTATED
| BLOCK_MISSING_PREV | BLOCK_INVALID_PREV | BLOCK_TIME_FUTURE | BLOCK_CHECKPOINT | BLOCK_HEADER_LOW_WORK | BLOCK_CHAINLOCK.

(** A verdict; [FatalError], which shuts the node down; or an assertion or an exception. *)
Inductive block_failure :=
| BlockInvalid (r : BlockValidationResult) (reason : string)
| BlockFatal (message : string)
| BlockRaised (what : string).

(** Any failure of a transaction is a consensus failure of the block. *)
Definition of_tx {A} (r : result failure A) : result block_failure A :=
  match r with
  | Ok a => Ok a
  | Throw (Invalid _ reason) => Throw (BlockInvalid BLOCK_CONSENSUS reason)
  | Throw (Raised what) => Throw (BlockRaised what)
  end.

Definition of_string {A} (r : result string A) : result block_failure A :=
  match r with Ok a => Ok a | Throw e => Throw (BlockRaised e) end.

Definition of_option {A} (r : option A) : result block_failure A :=
  match r with Some a => Ok a | None => Throw (BlockRaised "assert") end.

(** The parameters of the chain that are read here. *)
Record ChainParams := {
  pow : Params; aux : AuxParams; assets : AssetParams;
  nNEVMStartTime : Z; signet_blocks : bool; fRegTest : bool; hashGenesisBlock : uint256 }.

(** What the components that are not modelled answer where [ConnectBlock] asks them; they may
    fail in every way. They are [CheckDirectBlockNotAuxpowParent]; [ProcessSpecialTxsInBlock];
    [ProcessNEVMData]; [IsBlockPayeeValid], [IsBlockValueValid] and the conflict with a chain
    lock, which see the fees; and [ConnectNEVMCommitment]. *)
Abbreviation answer := (result block_failure unit).
Record Others := {
  direct_parent : answer; special_txs : answer; nevm_data : answer; payments : Z -> answer; nevm_commitment : answer }.

(** One of them fails an assertion or throws. *)
Definition others_raise (o : Others) (what : string) : Prop :=
  direct_parent o = Throw (BlockRaised what) \/ special_txs o = Throw (BlockRaised what) \/ nevm_data o = Throw (BlockRaised what) \/
  (exists fees, payments o fees = Throw (BlockRaised what)) \/ nevm_commitment o = Throw (BlockRaised what).

(** A block that may have been corrupted on disk is fatal, not invalid. *)
Definition corrupt_is_fatal {A} (r : result block_failure A) : result block_failure A :=
  match r with
  | Throw (BlockInvalid BLOCK_MUTATED _) => Throw (BlockFatal "Corrupt block found indicating potential hardware failure; shutting down")
  | _ => r
  end.

Definition CURRENT_VERSION : Z := 2.
Definition MAX_NEVM_BLOCK_SIZE : Z := Z.shiftl 32 20.

(** ** [CheckBlock] *)

(** What [CSizeComputer] counts for a block; [None] where writing the header asserts. *)
Definition GetBlockSerializeSize (nStreamVersion : Z) (block : CBlock) : option Z :=
  s ← CBlock_Serialize SER_SIZE nStreamVersion block;
  let parent := match auxpow (header block) with
                | Some a => if IsAuxpow (hdr_nVersion (pure (header block))) then blobs_size (coinbaseTx a) else 0
                | None => 0
                end in
  Some (size s + parent + foldr (fun tx acc => blobs_size tx + acc) 0 (vtx block)).

Definition oversize (block : CBlock) : result block_failure bool :=
  let no_witness := Z.lor PROTOCOL_VERSION SERIALIZE_TRANSACTION_NO_WITNESS in
  if bool_decide (vtx block = []) || (MAX_BLOCK_WEIGHT <? Z.of_nat (length (vtx block)) * WITNESS_SCALE_FACTOR) then Ok true
  else n ← of_option (GetBlockSerializeSize no_witness block); Ok (MAX_BLOCK_WEIGHT <? n * WITNESS_SCALE_FACTOR).

Fixpoint check_transactions (txs : list CTransaction) : result block_failure unit :=
  match txs with
  | [] => Ok ()
  | tx :: txs =>
      match CheckTransaction tx with
      | Ok _ => check_transactions txs
      | Throw (Invalid TX_CONSENSUS reason) => Throw (BlockInvalid BLOCK_CONSENSUS reason)
      | Throw _ => Throw (BlockRaised "assert")
      end
  end.

(** The checks from the coinbase on. *)
Definition check_vtx (txs : list CTransaction) : result block_failure unit :=
  guard! match txs with tx :: _ => IsCoinBase tx | [] => false end else BlockInvalid BLOCK_CONSENSUS "bad-cb-missing";
  guard! forallb (fun tx => negb (IsCoinBase tx)) (drop 1 txs) else BlockInvalid BLOCK_CONSENSUS "bad-cb-multiple";
  _ ← check_transactions txs;
  let nSigOps := foldl (fun n tx => wrapu 32 (n + GetLegacySigOpCount tx)) 0 txs in
  guard! negb (MAX_BLOCK_SIGOPS_COST <? wrapu 32 (nSigOps * WITNESS_SCALE_FACTOR)) else BlockInvalid BLOCK_CONSENSUS "bad-blk-sigops";
  Ok ().

Section check_block.
Context {U : Type} `{AU : ArithUint U}.
(** Double SHA-256, and the check of a signet solution. *)
Variable Hash : bytes -> uint256.
Variable CheckSignetBlockSolution : CBlock -> bool.
Variable params : ChainParams.

Definition CheckBlockHeader (block : CBlockHeader) (fCheckPOW : bool) : result block_failure unit :=
  if fCheckPOW then
    match CheckProofOfWork_header (U := U) Hash block (pow params) (aux params) with
    | Ok _ => Ok ()
    | Throw _ => Throw (BlockInvalid BLOCK_INVALID_HEADER "high-hash")
    end
  else Ok ().

Definition check_merkle_root (block : CBlock) : result block_failure unit :=
  '(hashMerkleRoot2, mutated) ← of_option (BlockMerkleRoot uint256_null (pair_hash Hash) (ComputeHash Hash <$> vtx block));
  guard! bool_decide (hdr_hashMerkleRoot (pure (header block)) = hashMerkleRoot2) else BlockInvalid BLOCK_MUTATED "bad-txnmrklroot";
  guard! negb (mutated : bool) else BlockInvalid BLOCK_MUTATED "bad-txns-duplicate";
  Ok ().

(** [fChecked] is a field of the block; its new value is returned. *)
Definition CheckBlock (block : CBlock) (fChecked fCheckPOW fCheckMerkleRoot : bool) : result block_failure bool :=
  if fChecked then Ok true else
  let h := pure (header block) in
  _ ← CheckBlockHeader (header block) fCheckPOW;
  guard! negb (signet_blocks params && fCheckPOW && negb (CheckSignetBlockSolution block)) else BlockInvalid BLOCK_CONSENSUS "bad-signet-blksig";
  _ ← (if fCheckMerkleRoot then check_merkle_root block else Ok ());
  big ← oversize block;
  guard! negb (big && (nNEVMStartTime params <=? hdr_nTime h)) else BlockInvalid BLOCK_CONSENSUS "bad-blk-length";
  guard! negb (IsNEVM (hdr_nVersion h) && bool_decide (vchNEVMBlockData block = []) && negb (fRegTest params))
    else BlockInvalid BLOCK_INVALID_HEADER "nevm-data-not-found";
  guard! negb (MAX_NEVM_BLOCK_SIZE <? size (vchNEVMBlockData block)) else BlockInvalid BLOCK_CONSENSUS "nevm-block-size";
  _ ← check_vtx (vtx block);
  Ok (fCheckPOW && fCheckMerkleRoot).
End check_block.

(** ** [CheckInputScripts] *)

(** [check_spent] is what [txdata] was initialized with: all outputs the transaction spends. *)
Record CScriptCheck := { m_tx_out : CTxOut; ptxTo : CTransaction; nIn : nat; nFlags : Z; check_spent : list CTxOut }.

(** The standard flags that are not mandatory, by their bits. *)
Definition STANDARD_NOT_MANDATORY_VERIFY_FLAGS : Z :=
  foldr (fun i acc => Z.lor (2 ^ i) acc) 0 [1; 6; 7; 8; 13; 14; 3; 12; 15; 16; 18; 19; 20].

Section scripts.
(** Whether [VerifyScript] accepts, and the salted hash of the keys of the cache. *)
Variable verify : CScriptCheck -> bool.
Variable cache_key : uint256 -> Z -> uint256.
(** Whether the cache of script executions gives up an entry that a lookup allows it to erase. *)
Variable discards : gset uint256 -> uint256 -> bool.
Variable Hash : bytes -> uint256.

(** The outputs the inputs spend. *)
Fixpoint spent_outputs (ins : list CTxIn) (inputs : cached) : result failure (list CTxOut * cached) :=
  match ins with
  | [] => Ok ([], inputs)
  | txin :: ins =>
      let '(c, inputs) := AccessCoin inputs (prevout txin) in
      guard! negb (IsSpent c) else Raised "assert";
      '(outs, inputs) ← spent_outputs ins inputs;
      Ok (coin_out c :: outs, inputs)
  end.

Definition script_checks (tx : CTransaction) (flags : Z) (outs : list CTxOut) : list CScriptCheck :=
  imap (fun i o => {| m_tx_out := o; ptxTo := tx; nIn := i; nFlags := flags; check_spent := outs |}) outs.

(** The checks in place; the reasons are without the error of the script. *)
Fixpoint run_checks (flags : Z) (checks : list CScriptCheck) : result failure unit :=
  match checks with
  | [] => Ok ()
  | c :: checks =>
      if verify c then run_checks flags checks
      else if negb (Z.land flags STANDARD_NOT_MANDATORY_VERIFY_FLAGS =? 0) &&
              verify {| m_tx_out := m_tx_out c; ptxTo := ptxTo c; nIn := nIn c; nFlags := Z.ldiff flags STANDARD_NOT_MANDATORY_VERIFY_FLAGS;
                        check_spent := check_spent c |}
      then Throw (Invalid TX_NOT_STANDARD "non-mandatory-script-verify-flag")
      else Throw (Invalid TX_CONSENSUS "mandatory-script-verify-flag-failed")
  end.

(** With data that was not initialized yet. Returned: the checks for the queue, which has
    some only when there is one, the cache of script executions, and the view. *)
Definition CheckInputScripts (tx : CTransaction) (inputs : cached) (flags : Z) (cacheFullScriptStore queue : bool) (scripts : gset uint256) :
    result failure (list CScriptCheck * gset uint256 * cached) :=
  if IsCoinBase tx then Ok ([], scripts, inputs) else
  let hashCacheEntry := cache_key (ComputeWitnessHash Hash tx) flags in
  if bool_decide (hashCacheEntry ∈ scripts) then
    Ok ([], (if negb cacheFullScriptStore && discards scripts hashCacheEntry then scripts ∖ {[ hashCacheEntry ]} else scripts), inputs)
  else
  '(outs, inputs) ← spent_outputs (vin tx) inputs;
  guard! (length outs =? length (vin tx))%nat else Raised "assert";
  if queue then Ok (script_checks tx flags outs, scripts, inputs)
  else
    _ ← run_checks flags (script_checks tx flags outs);
    Ok ([], (if cacheFullScriptStore then {[ hashCacheEntry ]} ∪ scripts else scripts), inputs).
End scripts.

Lemma run_checks_spec verify fl checks :
  match run_checks verify fl checks with
  | Ok _ => Forall (fun c => verify c = true) checks
  | Throw e => (exists r reason, e = Invalid r reason) /\ ~ Forall (fun c => verify c = true) checks
  end.
Proof.
  induction checks as [|c checks IH]; cbn [run_checks]; [constructor|]. destruct (verify c) eqn:Hc.
  - destruct (run_checks verify fl checks); [by constructor|]. rewrite Forall_cons. tauto.
  - destruct (_ && _); (split; [eauto|]); rewrite Forall_cons, Hc; intros [? _]; done.
Qed.

(** ** [ConnectBlock] *)

(** What the loop over the transactions carries: the view, the fees, the cost of the
    signature operations, the NEVM transactions minted from, the cache of scripts, the checks
    handed to the queue, and the undo data. *)
Record progress := {
  pr_view : cached; nFees : Z; nSigOpsCost : Z; setMintTxs : NEVMMintTxSet;
  pr_scripts : gset uint256; control : list CScriptCheck; vtxundo : list (list Coin) }.

Fixpoint prev_heights (ins : list CTxIn) (v : cached) : list Z * cached :=
  match ins with
  | [] => ([], v)
  | i :: ins =>
      let '(c, v) := AccessCoin v (prevout i) in
      let '(hs, v) := prev_heights ins v in
      (coin_nHeight c :: hs, v)
  end.

Section connect_block.
Context {U : Type} `{AU : ArithUint U}.
Variable Hash : bytes -> uint256.
Variable CheckSignetBlockSolution : CBlock -> bool.
Variable verify : CScriptCheck -> bool.
Variable cache_key : uint256 -> Z -> uint256.
Variable discards : gset uint256 -> uint256 -> bool.
(** [dev::sha3], and the address of a script. *)
Variable sha3 : bytes -> bytes.
Variable destination : bytes -> option bytes.
Variable batch : Z.
Variable params : ChainParams.
Variable others : Others.
(** The databases of the bridge, the block index and the block's place in it. *)
Variable roots : CNEVMTxRootsDB.
Variable minted : CNEVMMintedTxDB.
Variable index : gmap ptr (CBlockIndex (U := U)).
Variable pindex : ptr.
(** The flags of the block, whether it is only checked, whether scripts are checked, and
    whether a queue does so. *)
Variable nLockTimeFlags flags : Z.
Variable fJustCheck fScriptChecks parallel_script_checks : bool.

Definition height : Z := match index !! pindex with Some b => nHeight b | None => 0 end.

Definition fNexusContext : bool := (nNexusStartBlock (assets params) <=? height) || fRegTest params.

(** No outpoint of the block may be there already. *)
Fixpoint check_outs_absent (tx : CTransaction) (o : Z) (outs : list CTxOut) (v : cached) : result block_failure cached :=
  match outs with
  | [] => Ok v
  | _ :: outs =>
      let '(have, v) := HaveCoin v (out_of (ComputeHash Hash) tx o) in
      guard! negb have else BlockInvalid BLOCK_CONSENSUS "bad-txns-BIP30";
      check_outs_absent tx (o + 1) outs v
  end.

Fixpoint check_BIP30 (txs : list CTransaction) (v : cached) : result block_failure cached :=
  match txs with
  | [] => Ok v
  | tx :: txs => v ← check_outs_absent tx 0 (vout tx) v; check_BIP30 txs v
  end.

(** The checks of a transaction that spends coins. *)
Definition check_spend (tx : CTransaction) (p : progress) : result block_failure progress :=
  '(txfee, mapAssetIn, mapAssetOut, v) ← of_tx (CheckTxInputs tx (pr_view p) height ∅ ∅);
  let '(mints, r) := CheckSyscoinInputs batch fJustCheck sha3 destination (assets params) roots minted tx height (setMintTxs p) mapAssetIn mapAssetOut in
  _ ← of_tx r;
  let fees := nFees p + txfee in
  guard! MoneyRange fees else BlockInvalid BLOCK_CONSENSUS "bad-txns-accumulated-fee-outofrange";
  let '(prevheights, v) := prev_heights (vin tx) v in
  final ← of_option (SequenceLocks index tx nLockTimeFlags prevheights pindex);
  guard! (final : bool) else BlockInvalid BLOCK_CONSENSUS "bad-txns-nonfinal";
  Ok {| pr_view := v; nFees := fees; nSigOpsCost := nSigOpsCost p; setMintTxs := mints;
        pr_scripts := pr_scripts p; control := control p; vtxundo := vtxundo p |}.

(** One turn of the loop; [first] is [i == 0]. *)
Definition connect_tx (first : bool) (tx : CTransaction) (p : progress) : result block_failure progress :=
  p ← (if negb (IsCoinBase tx) then check_spend tx p else Ok p);
  '(cost, v) ← of_tx (GetTransactionSigOpCost tx (pr_view p) flags);
  let nSigOpsCost := nSigOpsCost p + cost in
  guard! negb (MAX_BLOCK_SIGOPS_COST <? nSigOpsCost) else BlockInvalid BLOCK_CONSENSUS "bad-blk-sigops";
  '(vChecks, scripts, v) ←
    (if negb (IsCoinBase tx) && (fScriptChecks && fNexusContext)
     then of_tx (CheckInputScripts verify cache_key discards Hash tx v flags fJustCheck parallel_script_checks (pr_scripts p))
     else Ok ([], pr_scripts p, v));
  '(undo, v) ← of_string (UpdateCoins (ComputeHash Hash) tx v height);
  Ok {| pr_view := v; nFees := nFees p; nSigOpsCost := nSigOpsCost; setMintTxs := setMintTxs p; pr_scripts := scripts;
        control := control p ++ vChecks; vtxundo := if first then vtxundo p else vtxundo p ++ [undo] |}%list.

Fixpoint connect_loop (first : bool) (txs : list CTransaction) (p : progress) : result block_failure progress :=
  match txs with
  | [] => Ok p
  | tx :: txs => p ← connect_tx first tx p; connect_loop false txs p
  end.

Definition start (v : cached) (scripts : gset uint256) : progress :=
  {| pr_view := v; nFees := 0; nSigOpsCost := 0; setMintTxs := ∅; pr_scripts := scripts; control := []; vtxundo := [] |}.

(** A coinbase has a version of its own once the Nexus rules are active. *)
Definition cb_version_ok (txs : list CTransaction) : bool :=
  match txs with
  | tx :: _ => (nVersion tx <=? CURRENT_VERSION) || (nVersion tx =? SYSCOIN_TX_VERSION_MN_QUORUM_COMMITMENT)
  | [] => false
  end.

(** What becomes of the coins once the block itself is checked. *)
Definition connect_vtx (txs : list CTransaction) (v : cached) (scripts : gset uint256) : result block_failure progress :=
  v ← check_BIP30 txs v;
  _ ← special_txs others;
  guard! negb (fNexusContext && negb (cb_version_ok txs)) else BlockInvalid BLOCK_CONSENSUS "bad-cb-version";
  p ← connect_loop true txs (start v scripts);
  _ ← nevm_data others;
  guard! forallb verify (control p) else BlockInvalid BLOCK_CONSENSUS "block-validation-failed";
  _ ← (if fNexusContext then payments others (nFees p) else Ok ());
  _ ← nevm_commitment others;
  Ok p.

Definition with_view (p : progress) (v : cached) : progress :=
  {| pr_view := v; nFees := nFees p; nSigOpsCost := nSigOpsCost p; setMintTxs := setMintTxs p; pr_scripts := pr_scripts p;
     control := control p; vtxundo := vtxundo p |}.

Definition ConnectBlock (block : CBlock) (fChecked : bool) (v : cached) (scripts : gset uint256) : result block_failure progress :=
  guard! bool_decide (CPureBlockHeader_GetHash Hash (pure (header block)) = pindex) else BlockRaised "assert";
  b ← of_option (index !! pindex);
  _ ← corrupt_is_fatal (CheckBlock (U := U) Hash CheckSignetBlockSolution params block fChecked (negb fJustCheck) (negb fJustCheck));
  _ ← direct_parent others;
  let '(best, base) := GetBestBlock (as_view v) in
  let v := match base with ViewCache c base => (c, base) | ViewDB _ => v end in
  guard! bool_decide (default uint256_null (pprev b) = best) else BlockRaised "assert";
  if bool_decide (pindex = hashGenesisBlock params) then
    Ok (start (if negb fJustCheck then SetBestBlock v pindex else v) scripts)
  else
    guard! bool_decide (is_Some (pprev b)) else BlockRaised "assert";
    p ← connect_vtx (vtx block) v scripts;
    Ok (if fJustCheck then p else with_view p (SetBestBlock (pr_view p) pindex)).

(** ** Facts about the checks *)

(** The result satisfies [Q], or it is a verdict or fatal; nothing is thrown but what the
    components that are not modelled throw. *)
Definition verdict {A} (r : result block_failure A) (Q : A -> Prop) : Prop :=
  match r with
  | Ok a => Q a
  | Throw (BlockInvalid _ _) | Throw (BlockFatal _) => True
  | Throw (BlockRaised what) => others_raise others what
  end.

Lemma verdict_bind {A B} (r : result block_failure A) (f : A -> result block_failure B) Q :
  verdict r (fun a => verdict (f a) Q) -> verdict (r ≫= f) Q.
Proof. by destruct r as [|[]]. Qed.

Lemma verdict_mono {A} (r : result block_failure A) (P Q : A -> Prop) : verdict r P -> (forall a, P a -> Q a) -> verdict r Q.
Proof. destruct r as [|[]]; cbn; auto. Qed.

Lemma verdict_guard {A} (b : bool) r reason (k : result block_failure A) Q :
  (b = true -> verdict k Q) -> verdict (if b then k else Throw (BlockInvalid r reason)) Q.
Proof. destruct b; cbn; auto. Qed.

Lemma verdict_ask {A} (r : answer) (k : result block_failure A) Q :
  (forall what, r = Throw (BlockRaised what) -> others_raise others what) -> verdict k Q -> verdict (r ≫= fun _ => k) Q.
Proof. destruct r as [[]|[]]; cbn; auto. Qed.

Lemma verdict_corrupt {A} (r : result block_failure A) Q : verdict r Q -> verdict (corrupt_is_fatal r) Q.
Proof. destruct r as [|[[]| |]]; cbn; auto. Qed.

Ltac ask_others := apply verdict_ask; [intros ? ?; unfold others_raise; eauto 8|].

Lemma verdict_of_tx {A} (r : result failure A) (Q : A -> Prop) :
  match r with Ok a => Q a | Throw e => exists v reason, e = Invalid v reason end -> verdict (of_tx r) Q.
Proof. destruct r as [|e]; cbn; [done|]. by intros (v & reason & ->). Qed.

Lemma check_transactions_spec txs : verdict (check_transactions txs) (fun _ => Forall well_formed_tx txs).
Proof.
  induction txs as [|tx txs IH]; cbn [check_transactions]; [by constructor|]. pose proof (CheckTransaction_spec tx) as Hc.
  destruct (CheckTransaction tx) as [[]|e]; [|destruct Hc as (_ & reason & ->); done].
  eapply verdict_mono; [exact IH|]. by constructor.
Qed.

(** What [CheckBlock] says of the transactions. *)
Definition well_formed_vtx (txs : list CTransaction) : Prop :=
  exists cb rest, txs = cb :: rest /\ IsCoinBase cb = true /\ Forall (fun tx => IsCoinBase tx = false) rest /\ Forall well_formed_tx txs.

Lemma check_vtx_spec txs : verdict (check_vtx txs) (fun _ => well_formed_vtx txs).
Proof.
  unfold check_vtx. apply verdict_guard. intros Hcb. apply verdict_guard. intros Hrest. apply verdict_bind.
  eapply verdict_mono; [apply check_transactions_spec|]. intros [] Hwf. apply verdict_guard. intros _. destruct txs as [|cb rest]; [done|].
  exists cb, rest. split_and!; [done|done| |done]. apply Forall_forall. intros tx Htx. rewrite forallb_forall in Hrest.
  cbn [drop] in Hrest. rewrite drop_0 in Hrest. apply negb_true_iff, Hrest. by apply list_elem_of_In.
Qed.

Lemma check_outs_absent_shows tx o outs v m below :
  shows v m below -> verdict (check_outs_absent tx o outs v) (fun v' => shows v' m below /\ outs_absent (ComputeHash Hash) tx o outs m).
Proof.
  revert o v. induction outs as [|out outs IH]; intros o v Hv; cbn [check_outs_absent]; [split; [done|intros j; cbn; lia]|].
  destruct (shows_have v m below (out_of (ComputeHash Hash) tx o) Hv) as (v1 & -> & Hv1). apply verdict_guard.
  rewrite negb_true_iff, bool_decide_eq_false, <- eq_None_not_Some. intros Hn. eapply verdict_mono; [by apply IH|].
  intros v2 [Hv2 Ha]. split; [done|]. intros j Hj. cbn [length] in Hj. destruct (decide (j = o)) as [->|]; [done|]. apply Ha. lia.
Qed.

Lemma check_BIP30_shows txs v m below :
  shows v m below ->
  verdict (check_BIP30 txs v) (fun v' => shows v' m below /\ Forall (fun tx => outs_absent (ComputeHash Hash) tx 0 (vout tx) m) txs).
Proof.
  revert v. induction txs as [|tx txs IH]; intros v Hv; cbn [check_BIP30]; [by split; [|constructor]|].
  apply verdict_bind. eapply verdict_mono; [by apply check_outs_absent_shows|]. intros v1 [Hv1 Ha].
  eapply verdict_mono; [by apply IH|]. intros v2 [Hv2 HF]. split; [done|by constructor].
Qed.

Lemma prev_heights_shows ins v m below cs :
  shows v m below -> input_coins ins m = Some cs -> exists v', prev_heights ins v = (coin_nHeight <$> cs, v') /\ shows v' m below.
Proof.
  revert v cs. unfold input_coins. induction ins as [|i ins IH]; intros v cs Hv; cbn [mapM]; [intros [= <-]; by exists v|].
  intros (c & Hc & (cs' & Hcs & [= <-])%bind_Some)%bind_Some. cbn [prev_heights].
  destruct (shows_access v m below (prevout i) Hv) as (c' & v1 & -> & Hu & Hv1). rewrite Hc in Hu.
  apply unspent_is_Some in Hu as [-> _]. destruct (IH v1 cs' Hv1 Hcs) as (v2 & -> & Hv2). by exists v2.
Qed.

Lemma spent_outputs_shows ins v m below cs :
  shows v m below -> input_coins ins m = Some cs -> exists v', spent_outputs ins v = Ok (coin_out <$> cs, v') /\ shows v' m below.
Proof.
  revert v cs. unfold input_coins. induction ins as [|i ins IH]; intros v cs Hv; cbn [mapM]; [intros [= <-]; by exists v|].
  intros (c & Hc & (cs' & Hcs & [= <-])%bind_Some)%bind_Some. cbn [spent_outputs].
  destruct (shows_access v m below (prevout i) Hv) as (c' & v1 & -> & Hu & Hv1). rewrite Hc in Hu.
  apply unspent_is_Some in Hu as [-> ->]. cbn [negb]. destruct (IH v1 cs' Hv1 Hcs) as (v2 & -> & Hv2). by exists v2.
Qed.

(** The header carries the auxiliary proof that its version announces. *)
Definition header_complete (h : CBlockHeader) : Prop := IsAuxpow (hdr_nVersion (pure h)) = true -> is_Some (auxpow h).

Lemma oversize_total block : header_complete (header block) -> exists big, oversize block = Ok big.
Proof.
  intros Hh. unfold oversize. destruct (_ || _); [eauto|]. unfold GetBlockSerializeSize, CBlock_Serialize, CBlockHeader_Serialize.
  unfold header_complete in Hh. destruct (IsAuxpow _); [destruct (Hh eq_refl) as [a ->]|]; cbo; cbn; eauto.
Qed.

Lemma CheckBlockHeader_complete h pow :
  verdict (CheckBlockHeader (U := U) Hash params h pow) (fun _ => pow = true -> header_complete h).
Proof.
  unfold CheckBlockHeader. destruct pow; [|done].
  destruct (CheckProofOfWork_header _ _ _ _) as [[]|] eqn:Hp; [|done]. intros _ Haux. unfold CheckProofOfWork_header in Hp.
  destruct (_ && negb _); [done|]. destruct (_ && negb _); [done|]. destruct (auxpow h); [done|]. by rewrite Haux in Hp.
Qed.

Lemma CheckBlock_spec block fChecked fCheckPOW fCheckMerkleRoot :
  fCheckPOW = true \/ header_complete (header block) -> (fChecked = true -> well_formed_vtx (vtx block)) ->
  verdict (CheckBlock (U := U) Hash CheckSignetBlockSolution params block fChecked fCheckPOW fCheckMerkleRoot) (fun _ => well_formed_vtx (vtx block)).
Proof.
  intros Hpow Hch. unfold CheckBlock. destruct fChecked; [by apply Hch|]. apply verdict_bind.
  eapply verdict_mono; [apply CheckBlockHeader_complete|]. intros [] Hh. apply verdict_guard. intros _. apply verdict_bind.
  apply (verdict_mono _ (fun _ => True)).
  { destruct fCheckMerkleRoot; [|done]. unfold check_merkle_root, BlockMerkleRoot.
    destruct (ComputeMerkleRoot_is_tree uint256_null (pair_hash Hash) (ComputeHash Hash <$> vtx block)) as [mutated ->]. cbn [of_option mbind result_bind].
    apply verdict_guard. intros _. by apply verdict_guard. }
  intros [] _. destruct (oversize_total block) as [big ->]; [destruct Hpow; auto|]. cbn [mbind result_bind].
  do 3 (apply verdict_guard; intros _). apply verdict_bind. eapply verdict_mono; [apply check_vtx_spec|]. done.
Qed.

Lemma GetBestBlock_levels v : view_ok v -> let '(_, v') := GetBestBlock v in view_ok v' /\ levels v' = levels v /\ marks v' = marks v.
Proof.
  induction v as [db|c base IH]; intros Hv; [done|]. cbn [GetBestBlock]. destruct (uint256_IsNull _); [|done].
  destruct Hv as [Hc Hbase]. specialize (IH Hbase). destruct (GetBestBlock base) as [h base']. destruct IH as (Hok & Hl & Hk).
  assert (Hcoins : coins base' = coins base) by (by destruct base', base; injection Hl). cbn [levels coins view_ok cacheCoins marks]. by rewrite Hl, Hcoins, Hk.
Qed.

Lemma GetBestBlock_shows v m below :
  shows v m below -> exists v', GetBestBlock (as_view v) = ((GetBestBlock (as_view v)).1, as_view v') /\ shows v' m below.
Proof.
  intros (Hv & <- & <-). pose proof (GetBestBlock_levels (as_view v) Hv) as Hb. cbn [GetBestBlock] in *.
  destruct (uint256_IsNull _); [|by exists v]. destruct (GetBestBlock v.2) as [h base]. destruct Hb as (Hok & Heq & Hk). eexists (_, base). split; [done|].
  by apply shows_step.
Qed.

(** *** Scripts *)

(** The scripts of a transaction that spends the coins [cs] pass. *)
Definition scripts_pass (tx : CTransaction) (cs : list Coin) : Prop :=
  Forall (fun c => verify c = true) (script_checks tx flags (coin_out <$> cs)).

(** The outcome of checking the scripts of one transaction, in place or by the queue. *)
Lemma CheckInputScripts_shows tx v m below cs queue scripts :
  shows v m below -> IsCoinBase tx = false -> input_coins (vin tx) m = Some cs ->
  match CheckInputScripts verify cache_key discards Hash tx v flags fJustCheck queue scripts with
  | Ok (chk, scripts', v') => shows v' m below /\ (fJustCheck = false -> scripts' ⊆ scripts) /\
      (Forall (fun c => verify c = true) chk <-> scripts_pass tx cs \/ cache_key (ComputeWitnessHash Hash tx) flags ∈ scripts)
  | Throw e => (exists r reason, e = Invalid r reason) /\ queue = false /\
      ~ (scripts_pass tx cs \/ cache_key (ComputeWitnessHash Hash tx) flags ∈ scripts)
  end.
Proof using Type.
  intros Hv Hcb Hcs. unfold CheckInputScripts. rewrite Hcb. case_bool_decide as Hk.
  { split_and!; [done|intros _; destruct (_ && _); set_solver|]. split; [by right|constructor]. }
  destruct (spent_outputs_shows (vin tx) v m below cs Hv Hcs) as (v1 & -> & Hv1). cbn [mbind result_bind].
  assert ((length (coin_out <$> cs) =? length (vin tx))%nat = true) as ->.
  { apply Nat.eqb_eq. rewrite length_fmap. symmetry. by apply (length_mapM _ _ _ Hcs). }
  destruct queue; [split_and!; [done|set_solver|split; [by left|by intros [?|?]]]|].
  pose proof (run_checks_spec verify flags (script_checks tx flags (coin_out <$> cs))) as Hr. unfold scripts_pass.
  destruct (run_checks _ _ _) as [[]|e]; cbn [mbind result_bind]; [|destruct Hr as [He Hn]; split_and!; [done|done|by intros [?|?]]].
  split_and!; [done|by intros ->|]. split; [by left|constructor].
Qed.

(** *** One transaction *)

(** A coin of the set: spendable, not from the future, with an amount of its asset. *)
Definition coin_good (h : Z) (c : Coin) : Prop :=
  coin_ok c /\ 0 <= coin_nHeight c <= h /\ asset_in_range (coin_out c).

Abbreviation set_ok m := (map_Forall (fun _ : COutPoint => coin_good height) m).

Lemma input_coins_Forall (P : Coin -> Prop) ins (m : gmap COutPoint Coin) cs :
  map_Forall (fun _ => P) m -> input_coins ins m = Some cs -> Forall P cs.
Proof.
  intros Hm. unfold input_coins. rewrite mapM_Some. induction 1 as [|i c ins cs Hc _ IH]; constructor; [by eapply Hm|done].
Qed.

(** What is left when inputs are taken. *)
Lemma take_inputs_lookup ins (m : gmap COutPoint Coin) cs m1 o :
  take_inputs ins m = Some (cs, m1) -> m1 !! o = if bool_decide (o ∈ prevout <$> ins) then None else m !! o.
Proof.
  revert m cs. induction ins as [|i ins IH]; intros m cs; cbn [take_inputs]; [intros [= _ <-]; by rewrite bool_decide_eq_false_2 by (by intros ?%not_elem_of_nil)|].
  intros (c & Hc & ([l m2] & H2 & [= _ <-])%bind_Some)%bind_Some. rewrite (IH _ _ H2), fmap_cons.
  destruct (decide (o = prevout i)) as [->|Hne].
  - rewrite lookup_delete_eq, (bool_decide_eq_true_2 (prevout i ∈ prevout i :: _)) by left. by case_bool_decide.
  - rewrite lookup_delete_ne by done. repeat case_bool_decide; set_solver.
Qed.

Lemma take_inputs_absent tx ins (m : gmap COutPoint Coin) cs m1 i outs :
  take_inputs ins m = Some (cs, m1) -> outs_absent (ComputeHash Hash) tx i outs m -> outs_absent (ComputeHash Hash) tx i outs m1.
Proof. intros Ht Ha j Hj. rewrite (take_inputs_lookup _ _ _ _ _ Ht). case_bool_decide; [done|by apply Ha]. Qed.

Lemma well_formed_outs_fit tx : well_formed_tx tx -> outs_fit (vout tx).
Proof.
  intros (_ & _ & _ & HF & _). eapply Forall_impl; [exact HF|]. intros o Ho%MoneyRange_spec. unfold CTxOut_IsNull. lia.
Qed.

(** *** No transaction of a block appears twice *)

Abbreviation GetHash := (ComputeHash Hash).

(** The outpoint belongs to one of the transactions. *)
Definition created (ds : list CTransaction) (o : COutPoint) : Prop :=
  exists t j, t ∈ ds /\ 0 <= j < Z.of_nat (length (vout t)) /\ o = out_of GetHash t j.

(** The set after the transactions [ds] of a block that started from [m0]. *)
Record block_inv (m0 : gmap COutPoint Coin) (ds : list CTransaction) (m : gmap COutPoint Coin) : Prop := {
  inv_origin o : is_Some (m !! o) -> is_Some (m0 !! o) \/ created ds o;
  inv_spent t i : t ∈ ds -> IsCoinBase t = false -> i ∈ vin t ->
    m !! prevout i = None /\ (is_Some (m0 !! prevout i) \/ created ds (prevout i)) }.

(** Transactions with the same id spend the same outpoints. *)
Definition ids_commit (txs : list CTransaction) : Prop :=
  forall t t', t ∈ txs -> t' ∈ txs -> GetHash t = GetHash t' -> prevout <$> vin t = prevout <$> vin t'.

Lemma IsCoinBase_prevouts t t' : prevout <$> vin t = prevout <$> vin t' -> IsCoinBase t = IsCoinBase t'.
Proof.
  unfold IsCoinBase. destruct (vin t) as [|i [|]], (vin t') as [|i' [|]]; try done. by intros [= ->].
Qed.

Lemma put_outputs_origin h tx i outs m o :
  is_Some (put_outputs GetHash h tx i outs m !! o) ->
  is_Some (m !! o) \/ exists j, i <= j < i + Z.of_nat (length outs) /\ o = out_of GetHash tx j.
Proof.
  revert i. induction outs as [|out outs IH]; intros i; cbn [put_outputs length]; [auto|]. unfold put_output.
  destruct (IsUnspendable _); [intros [?|(j & ? & ?)]%IH; [auto|right; exists j; split; [lia|done]]|].
  rewrite lookup_insert. case_decide as Ho; [intros _; right; exists i; split; [lia|done]|].
  intros [?|(j & ? & ?)]%IH; [auto|]. right; exists j; split; [lia|done].
Qed.

Lemma put_outputs_other h tx i outs m o :
  (forall j, i <= j < i + Z.of_nat (length outs) -> o <> out_of GetHash tx j) -> put_outputs GetHash h tx i outs m !! o = m !! o.
Proof.
  revert i. induction outs as [|out outs IH]; intros i Ho; cbn [put_outputs]; [done|]. cbn [length] in Ho. unfold put_output.
  destruct (IsUnspendable _); [|rewrite lookup_insert_ne by (apply not_eq_sym, Ho; lia)]; apply IH; intros j Hj; apply Ho; lia.
Qed.

Lemma input_is_there ins (m : gmap COutPoint Coin) i : is_Some (input_coins ins m) -> i ∈ ins -> is_Some (m !! prevout i).
Proof.
  intros [cs Hcs] Hi. unfold input_coins in Hcs. rewrite mapM_Some in Hcs. induction Hcs as [|j c ins cs Hc _ IH]; [by apply not_elem_of_nil in Hi|].
  apply elem_of_cons in Hi as [->|Hi]; [by rewrite Hc|auto].
Qed.

(** A transaction whose inputs are there is not one of those before it, and its outpoints
    are free. *)
Lemma block_inv_fresh m0 ds m tx :
  block_inv m0 ds m -> outs_absent GetHash tx 0 (vout tx) m0 -> ids_commit (tx :: ds) -> well_formed_tx tx ->
  IsCoinBase tx = false -> is_Some (input_coins (vin tx) m) -> GetHash tx ∉ GetHash <$> ds.
Proof.
  intros Hinv Ha Hid Htx Hcb Hins (t & Heq & Ht)%list_elem_of_fmap.
  assert (Hsame : prevout <$> vin t = prevout <$> vin tx) by (apply Hid; [by right|by left|done]).
  destruct Htx as (Hne & _). destruct (vin tx) as [|i ins] eqn:Hvin; [done|].
  assert (exists j, j ∈ vin t /\ prevout j = prevout i) as (j & Hj & Hp).
  { assert (prevout i ∈ prevout <$> vin t) as (j & ? & ?)%list_elem_of_fmap by (rewrite Hsame; left). by exists j. }
  destruct (inv_spent _ _ _ Hinv t j Ht) as [Hnone _]; [by rewrite <- Hcb; apply IsCoinBase_prevouts; rewrite Hvin|done|].
  destruct (input_is_there _ m i Hins) as [c Hc]; [left|]. by rewrite <- Hp, Hnone in Hc.
Qed.

Lemma block_inv_absent m0 ds m tx :
  block_inv m0 ds m -> outs_absent GetHash tx 0 (vout tx) m0 -> GetHash tx ∉ GetHash <$> ds -> outs_absent GetHash tx 0 (vout tx) m.
Proof.
  intros Hinv Ha Hid j Hj. apply eq_None_not_Some. intros [[c Hc]|(t & k & Ht & _ & [= Heq _])]%(inv_origin _ _ _ Hinv).
  - by rewrite Ha in Hc.
  - apply Hid. rewrite Heq. by apply list_elem_of_fmap_2.
Qed.

Lemma take_inputs_there ins (m : gmap COutPoint Coin) cs m1 i :
  take_inputs ins m = Some (cs, m1) -> i ∈ ins -> is_Some (m !! prevout i).
Proof.
  revert m cs. induction ins as [|j ins IH]; intros m cs; cbn [take_inputs]; [by intros _ ?%not_elem_of_nil|].
  intros (c & Hc & ([l m2] & H2 & [= _ ->])%bind_Some)%bind_Some [->|Hi]%elem_of_cons; [by rewrite Hc|].
  destruct (IH _ _ H2 Hi) as [c' Hc']. exists c'. by apply lookup_delete_Some in Hc' as [_ ?].
Qed.

Lemma created_cons tx ds o : created ds o -> created (tx :: ds) o.
Proof. intros (t & j & ? & ? & ?). exists t, j. split_and!; [by right|lia|lia|done]. Qed.

Lemma block_inv_step h m0 ds m tx cs m1 :
  block_inv m0 ds m -> outs_absent GetHash tx 0 (vout tx) m0 -> outs_absent GetHash tx 0 (vout tx) m -> (GetHash tx ∉ GetHash <$> ds) ->
  take_inputs (if IsCoinBase tx then [] else vin tx) m = Some (cs, m1) ->
  block_inv m0 (tx :: ds) (put_outputs GetHash h tx 0 (vout tx) m1).
Proof.
  intros Hinv Ha0 Ha Hid Ht.
  assert (Hsub : forall o, is_Some (m1 !! o) -> is_Some (m !! o)).
  { intros o. rewrite (take_inputs_lookup _ _ _ _ _ Ht). case_bool_decide; [by intros []|done]. }
  split.
  - intros o [Ho%Hsub%(inv_origin _ _ _ Hinv)|(j & Hj & ->)]%put_outputs_origin; [destruct Ho; [auto|right; by apply created_cons]|].
    right. exists tx, j. split_and!; [left|lia|lia|done].
  - intros t i [->|Hin]%elem_of_cons Hcb Hi.
    + rewrite Hcb in Ht. pose proof (take_inputs_there _ _ _ _ i Ht Hi) as Hsome.
      split; [|destruct (inv_origin _ _ _ Hinv _ Hsome); [auto|right; by apply created_cons]]. rewrite put_outputs_other.
      * rewrite (take_inputs_lookup _ _ _ _ _ Ht). by rewrite bool_decide_eq_true_2 by (by apply list_elem_of_fmap_2).
      * intros j Hj Heq. rewrite Heq, Ha in Hsome by lia. by destruct Hsome.
    + destruct (inv_spent _ _ _ Hinv t i Hin Hcb Hi) as [Hnone Horig].
      split; [|destruct Horig; [auto|right; by apply created_cons]]. rewrite put_outputs_other.
      * apply eq_None_not_Some. intros Hs%Hsub. rewrite Hnone in Hs. by destruct Hs.
      * intros j Hj Heq. rewrite Heq in Horig. destruct Horig as [Hs|(t' & k & Ht' & _ & [= Hh _])].
        -- rewrite Ha0 in Hs by lia. by destruct Hs.
        -- apply Hid. rewrite Hh. by apply list_elem_of_fmap_2.
Qed.

(** *** What a block creates *)

(** What claims mint of an asset. *)
Definition minted_sum (a : Z) (cl : list (CMintSyscoin * mint_claim)) : Z := foldr (fun c acc => minted_of a (Some c.2) + acc) 0 cl.

(** From [m] to [m'] the claims, [extra] SYS and less [fees] come in; [x] is the asset SYSX. *)
Definition conserves (x : Z) (m m' : gmap COutPoint Coin) (extra fees : Z) (cl : list (CMintSyscoin * mint_claim)) : Prop :=
  supply m' + asset_supply x m' + fees <= supply m + asset_supply x m + extra + minted_sum x cl /\
  forall a, a <> 0 -> a <> x -> asset_supply a m' <= asset_supply a m + minted_sum a cl.

Lemma minted_sum_app a cl cl' : minted_sum a (cl ++ cl')%list = minted_sum a cl + minted_sum a cl'.
Proof. induction cl as [|c cl IH]; cbn [minted_sum foldr app]; [done|]. unfold minted_sum in IH. rewrite IH. unfold minted_sum. lia. Qed.

Lemma conserves_trans x m m1 m2 e1 e2 f1 f2 cl1 cl2 :
  conserves x m m1 e1 f1 cl1 -> conserves x m1 m2 e2 f2 cl2 -> conserves x m m2 (e1 + e2) (f1 + f2) (cl1 ++ cl2)%list.
Proof.
  intros [H1 A1] [H2 A2]. unfold conserves. rewrite minted_sum_app. split; [lia|]. intros a Ha Hx.
  specialize (A1 a Ha Hx). specialize (A2 a Ha Hx). rewrite minted_sum_app. lia.
Qed.

(** The claims are checked one after the other, from one set of mints to the next. *)
Fixpoint claims_checked (s : NEVMMintTxSet) (cl : list (CMintSyscoin * mint_claim)) (s' : NEVMMintTxSet) : Prop :=
  match cl with
  | [] => s' = s
  | (m, c) :: cl => exists s1, CheckSyscoinMintInternal sha3 (bridge (assets params)) fJustCheck (nCLReceiptStartBlock (assets params) <=? height)
        roots minted m height s = (s1, Ok c) /\ claims_checked s1 cl s'
  end.

Lemma claims_checked_app s cl1 s1 cl2 s2 : claims_checked s cl1 s1 -> claims_checked s1 cl2 s2 -> claims_checked s (cl1 ++ cl2)%list s2.
Proof.
  revert s. induction cl1 as [|[m c] cl1 IH]; intros s; cbn; [by intros ->|]. intros (s0 & ? & ?) ?. exists s0. auto.
Qed.


(** Outputs whose assets are what the payload says: none without a payload. *)
Definition assets_loaded (tx : CTransaction) : Prop :=
  HasAssets tx = false -> Forall (fun o => CAssetCoinInfo_IsNull (assetInfo o) = true) (vout tx).

Section place.
Variable b : CBlockIndex (U := U).
Variable prev : ptr.
Hypothesis Hwf : chain_wf index.
Hypothesis Hb : index !! pindex = Some b.
Hypothesis Hprev : pprev b = Some prev.
Hypothesis Hmax : nHeight b < 2 ^ 31 - 65536.
Hypothesis Hflags : sigop_flags_ok flags.

Lemma height_eq : height = nHeight b.
Proof. unfold height. by rewrite Hb. Qed.

Lemma height_range : 0 < height < 2 ^ 31.
Proof.
  rewrite height_eq. pose proof (Hwf pindex b Hb) as Hok. unfold index_ok in Hok. rewrite Hprev in Hok.
  destruct Hok as (? & bq & Hq & ? & _). destruct (Hwf prev bq Hq) as [? _]. lia.
Qed.

(** What the checks of a transaction that spends coins establish. *)
Definition spends (tx : CTransaction) (m : gmap COutPoint Coin) (p : progress) (cs : list Coin) (mints : NEVMMintTxSet) (fee : Z) : Prop :=
  input_coins (vin tx) m = Some cs /\ exists mi mo, pays tx height cs fee mi mo /\
  CheckSyscoinInputs batch fJustCheck sha3 destination (assets params) roots minted tx height (setMintTxs p) mi mo = (mints, Ok ()).

Lemma check_spend_spec tx p m below :
  shows (pr_view p) m below -> set_ok m -> well_formed_tx tx -> IsCoinBase tx = false ->
  verdict (check_spend tx p) (fun p' => shows (pr_view p') m below /\
    pr_scripts p' = pr_scripts p /\ control p' = control p /\ vtxundo p' = vtxundo p /\
    exists cs fee, spends tx m p cs (setMintTxs p') fee /\ nFees p' = nFees p + fee).
Proof.
  intros Hv Hm Htx Hcb. unfold check_spend. apply verdict_bind, verdict_of_tx.
  pose proof (CheckTxInputs_shows tx (pr_view p) m below height Hv Htx Hcb) as Hc.
  destruct (CheckTxInputs _ _ _ _ _) as [[[[fee mi] mo] v1]|]; [|done]. destruct Hc as (Hv1 & cs & Hcs & Hpays).
  destruct (CheckSyscoinInputs _ _ _ _ _ _ _ _ _ _ _ _) as [mints r] eqn:Hr.
  pose proof (CheckSyscoinInputs_no_raise batch fJustCheck sha3 destination (assets params) roots minted tx height (setMintTxs p) mi mo) as Hno.
  rewrite Hr in Hno. cbn in Hno. apply verdict_bind, verdict_of_tx.
  destruct r as [[]|[r reason|w]]; [|by eauto|by destruct (Hno w)]. apply verdict_guard. intros Hfee.
  destruct (prev_heights_shows (vin tx) v1 m below cs Hv1 Hcs) as (v2 & -> & Hv2).
  destruct (SequenceLocks_spec index tx nLockTimeFlags (coin_nHeight <$> cs) pindex b prev Hwf Hb Hprev) as (mtp & met & _ & -> & _).
  - rewrite length_fmap. symmetry. by apply (length_mapM _ _ _ Hcs).
  - apply Forall_fmap. eapply Forall_impl; [by apply (input_coins_Forall (coin_good height) (vin tx) m)|]. intros c (_ & Hh & _). by rewrite height_eq in Hh.
  - done.
  - cbn [of_option mbind result_bind]. apply verdict_guard. intros _. cbn. split_and!; try done. exists cs, fee. split; [|done].
    split; [done|]. by exists mi, mo.
Qed.

Lemma connect_tx_spec tx p m below :
  shows (pr_view p) m below -> set_ok m -> well_formed_tx tx ->
  ((IsCoinBase tx = false -> is_Some (input_coins (vin tx) m)) -> outs_absent (ComputeHash Hash) tx 0 (vout tx) m) ->
  verdict (connect_tx (IsCoinBase tx) tx p) (fun p' => exists cs m1,
    take_inputs (if IsCoinBase tx then [] else vin tx) m = Some (cs, m1) /\
    shows (pr_view p') (put_outputs (ComputeHash Hash) height tx 0 (vout tx) m1) below /\
    vtxundo p' = (if IsCoinBase tx then vtxundo p else vtxundo p ++ [cs])%list /\
    (fJustCheck = false -> pr_scripts p' ⊆ pr_scripts p) /\
    (exists chk, control p' = (control p ++ chk)%list /\
      (IsCoinBase tx = false -> fScriptChecks && fNexusContext = true -> Forall (fun c => verify c = true) chk ->
       scripts_pass tx cs \/ cache_key (ComputeWitnessHash Hash tx) flags ∈ pr_scripts p)) /\
    if IsCoinBase tx then nFees p' = nFees p /\ setMintTxs p' = setMintTxs p
    else exists fee, spends tx m p cs (setMintTxs p') fee /\ nFees p' = nFees p + fee).
Proof.
  intros Hv Hm Htx Habs. unfold connect_tx. apply verdict_bind.
  apply (verdict_mono _ (fun p1 => shows (pr_view p1) m below /\ pr_scripts p1 = pr_scripts p /\ control p1 = control p /\ vtxundo p1 = vtxundo p /\
    exists cs, if IsCoinBase tx then nFees p1 = nFees p /\ setMintTxs p1 = setMintTxs p /\ cs = []
               else exists fee, spends tx m p cs (setMintTxs p1) fee /\ nFees p1 = nFees p + fee)).
  { destruct (IsCoinBase tx) eqn:Hcb; cbn [negb]; [split_and!; try done; by exists []|]. eapply verdict_mono; [by apply check_spend_spec|].
    intros p1 (? & ? & ? & ? & cs & fee & ?). split_and!; try done. exists cs, fee. done. }
  intros p1 (Hv1 & <- & <- & <- & cs & Hspend).
  assert (Hcs : IsCoinBase tx = false -> input_coins (vin tx) m = Some cs).
  { intros Hcb. rewrite Hcb in Hspend. by destruct Hspend as (fee & [? _] & _). }
  destruct (GetTransactionSigOpCost_shows tx flags (pr_view p1) m below cs Hflags Hv1 Hcs) as (n & v2 & -> & Hv2). cbn [of_tx mbind result_bind].
  apply verdict_guard. intros _. apply verdict_bind.
  apply (verdict_mono _ (fun '(chk, sc, v3) => shows v3 m below /\ (fJustCheck = false -> sc ⊆ pr_scripts p1) /\
    (IsCoinBase tx = false -> fScriptChecks && fNexusContext = true -> Forall (fun c => verify c = true) chk ->
       scripts_pass tx cs \/ cache_key (ComputeWitnessHash Hash tx) flags ∈ pr_scripts p1))).
  { destruct (IsCoinBase tx) eqn:Hcb; cbn [negb andb]; [done|]. destruct (fScriptChecks && fNexusContext); [|done]. apply verdict_of_tx.
    pose proof (CheckInputScripts_shows tx v2 m below cs parallel_script_checks (pr_scripts p1) Hv2 Hcb (Hcs eq_refl)) as Hc.
    destruct (CheckInputScripts _ _ _ _ _ _ _ _ _ _) as [[[chk sc] v3]|]; [|tauto]. destruct Hc as (? & ? & ?). split_and!; [done|done|tauto]. }
  intros [[chk sc] v3] (Hv3 & Hsc & Hchk).
  assert (exists m1, take_inputs (if IsCoinBase tx then [] else vin tx) m = Some (cs, m1)) as [m1 Ht].
  { destruct (IsCoinBase tx); [destruct Hspend as (_ & _ & ->); by exists m|]. apply take_inputs_of; [apply Htx|auto]. }
  destruct (UpdateCoins_shows (ComputeHash Hash) height tx v3 m below cs m1 Hv3 Ht (well_formed_outs_fit tx Htx)) as (v4 & -> & Hv4).
  { eapply take_inputs_absent, Habs; [done|]. intros Hcb. by exists cs; apply Hcs. }
  cbn. exists cs, m1. split_and!; try done; [by exists chk|]. destruct (IsCoinBase tx); [|done]. by destruct Hspend as (? & ? & _).
Qed.

Hypothesis Hnexus : nNexusStartBlock (assets params) <= height.
Hypothesis Hx : nSYSXAsset (assets params) <> 0.
Abbreviation x := (nSYSXAsset (assets params)).

Lemma spends_conserves tx m p cs m1 mints fee :
  spends tx m p cs mints fee -> set_ok m -> well_formed_tx tx -> assets_loaded tx ->
  take_inputs (vin tx) m = Some (cs, m1) -> outs_absent GetHash tx 0 (vout tx) m1 ->
  DisconnectSyscoinTransaction batch tx = true /\ Forall asset_in_range (vout tx) /\
  exists cl, conserves x m (put_outputs GetHash height tx 0 (vout tx) m1) 0 fee cl /\ claims_checked (setMintTxs p) cl mints.
Proof.
  intros (Hcs & mi & mo & Hpays & Hsys) Hm Htx Hload Ht Ha.
  destruct (CheckSyscoinInputs_rule _ _ _ _ _ _ _ _ _ _ _ _ _ Hsys Hnexus) as (Hburn & Hd & Hrule). split; [done|].
  destruct (HasAssets tx) eqn:Hh.
  - destruct Hrule as (c & Hrule & Hc). pose proof Hpays as (_ & _ & _ & _ & Hmaps). rewrite Hh in Hmaps.
    split; [apply (asset_totals 1 _ mo); [done|apply Hmaps]|].
    destruct (asset_tx_conserves GetHash height tx m m1 cs fee mi mo Htx Ht Ha Hpays (assets params) c Hx Hh Hrule Hburn) as [H1 H2].
    unfold coins_after in *. destruct c as [claim|].
    + exists [(CMintSyscoin_of_tx batch tx, claim)]. split; [|by exists mints]. unfold conserves. cbn [minted_sum foldr snd]. split; [lia|].
      intros a Ha0 Hax. specialize (H2 a Ha0 Hax). cbn [minted_sum foldr snd]. lia.
    + exists []. split; [|done]. cbn [minted_of] in *. unfold conserves. cbn [minted_sum foldr]. split; [lia|].
      intros a Ha0 Hax. specialize (H2 a Ha0 Hax). cbn. lia.
  - split; [eapply Forall_impl; [by apply Hload|]; intros o Ho; by left|].
    destruct (plain_tx_conserves GetHash height tx m m1 cs fee mi mo Htx Ht Ha Hpays x Hx Hh) as [H1 H2].
    + rewrite Hburn. unfold HasAssets, IsSyscoinTx, IsAssetAllocationTx in Hh. destruct (nVersion tx =? SYSCOIN_TX_VERSION_ALLOCATION_BURN_TO_SYSCOIN); [|done].
      by rewrite !orb_true_r in Hh.
    + by apply Hload.
    + eapply Forall_impl; [by apply (input_coins_Forall (coin_good height) (vin tx) m)|]. by intros c (_ & _ & ?).
    + unfold coins_after in *. exists []. split; [|done]. unfold conserves. cbn [minted_sum foldr]. split; [lia|].
      intros a Ha0 _. specialize (H2 a Ha0). cbn. lia.
Qed.

Lemma set_ok_step ins tx m cs m1 :
  set_ok m -> take_inputs ins m = Some (cs, m1) -> well_formed_tx tx -> Forall asset_in_range (vout tx) ->
  set_ok (put_outputs GetHash height tx 0 (vout tx) m1).
Proof.
  intros Hm Ht Htx%well_formed_outs_fit Hr.
  assert (Hm1 : set_ok m1).
  { intros o c Hc. rewrite (take_inputs_lookup _ _ _ _ _ Ht) in Hc. case_bool_decide; [done|]. by eapply Hm. }
  pose proof height_range. clear Ht. generalize 0 as i. unfold outs_fit in Htx. induction Htx as [|o outs Hn _ IH]; intros i; cbn [put_outputs]; [done|].
  apply Forall_cons in Hr as [Ho Hr]. unfold put_output. destruct (IsUnspendable _) eqn:E; [by apply IH|].
  apply map_Forall_insert_2; [|by apply IH]. unfold coin_good, coin_ok. cbn. rewrite Z.mod_small by lia. split_and!; try done; lia.
Qed.

(** What the transactions [txs], of which only the first may be a coinbase, do. *)
Definition connected (first : bool) (txs : list CTransaction) (p : progress) (m : gmap COutPoint Coin) (below : backing)
    (extra : Z) (p' : progress) : Prop :=
  exists ls m' cl, connects GetHash batch height txs first m ls m' /\ shows (pr_view p') m' below /\ set_ok m' /\
    Forall (fun tx => Forall asset_in_range (vout tx)) txs /\
    vtxundo p' = (vtxundo p ++ ls)%list /\ conserves x m m' extra (nFees p' - nFees p) cl /\
    claims_checked (setMintTxs p) cl (setMintTxs p') /\
    exists chk, control p' = (control p ++ chk)%list /\
      (fJustCheck = false -> fScriptChecks && fNexusContext = true -> Forall (fun c => verify c = true) chk ->
       Forall2 (fun tx cs => scripts_pass tx cs \/ cache_key (ComputeWitnessHash Hash tx) flags ∈ pr_scripts p) (if first then drop 1 txs else txs) ls).

Lemma conserves_refl y m : conserves y m m 0 0 [].
Proof. split; [cbn; lia|]. intros a _ _. cbn. lia. Qed.

Lemma connect_loop_spec m0 below ds txs p m :
  shows (pr_view p) m below -> set_ok m -> block_inv m0 ds m -> Forall well_formed_tx txs ->
  Forall (fun tx => IsCoinBase tx = false) txs -> Forall assets_loaded txs ->
  Forall (fun tx => outs_absent GetHash tx 0 (vout tx) m0) txs -> ids_commit (txs ++ ds)%list ->
  verdict (connect_loop false txs p) (connected false txs p m below 0).
Proof.
  revert ds p m. induction txs as [|tx txs IH]; intros ds p m Hv Hm Hinv Hwfs Hncb Hload Habs Hid; cbn [connect_loop].
  { exists [], m, []. rewrite !app_nil_r, Z.sub_diag. split_and!; try done; [constructor|apply conserves_refl|].
    exists []. rewrite app_nil_r. split; [done|]. constructor. }
  apply Forall_cons in Hwfs as [Htx Hwfs], Hncb as [Hcb Hncb], Hload as [Hl Hload], Habs as [Ha0 Habs].
  assert (Hsub : ids_commit (tx :: ds)) by (intros t t' Ht Ht'; apply Hid; set_solver).
  assert (Hfresh : is_Some (input_coins (vin tx) m) -> GetHash tx ∉ GetHash <$> ds) by (by apply block_inv_fresh with m0).
  assert (Hfree : (IsCoinBase tx = false -> is_Some (input_coins (vin tx) m)) -> outs_absent GetHash tx 0 (vout tx) m).
  { intros Hin. apply block_inv_absent with m0 ds; auto. }
  pose proof (connect_tx_spec tx p m below Hv Hm Htx Hfree) as Hstep. rewrite Hcb in Hstep. apply verdict_bind.
  eapply verdict_mono; [exact Hstep|]. intros p1 (cs & m1 & Ht & Hv1 & Hu1 & Hsc & (chk & Hchk & Hpass) & fee & Hsp & Hfee).
  assert (Hins : is_Some (input_coins (vin tx) m)) by (destruct Hsp as [Hcs _]; by eexists).
  pose proof (take_inputs_absent tx _ _ _ _ 0 (vout tx) Ht (Hfree (fun _ => Hins))) as Ha1.
  destruct (spends_conserves tx m p cs m1 _ fee Hsp Hm Htx Hl Ht Ha1) as (Hd & Hrange & cl & Hcons & Hcl).
  eapply verdict_mono; [apply (IH (tx :: ds) p1 _ Hv1); try done|].
  - by eapply set_ok_step.
  - eapply block_inv_step; eauto. by rewrite Hcb.
  - intros t t' Ht1 Ht2. apply Hid; set_solver.
  - intros p2 (ls & m' & cl2 & Hc2 & Hv2 & Hm2 & Hr2 & Hu2 & Hcons2 & Hcl2 & chk2 & Hchk2 & Hpass2).
    exists (cs :: ls), m', (cl ++ cl2)%list. split_and!; try done.
    + apply (connects_cons GetHash batch height false tx txs m cs m1 ls m'); try done. by apply well_formed_outs_fit.
    + by constructor.
    + by rewrite Hu2, Hu1, <- app_assoc.
    + replace (nFees p2 - nFees p) with (fee + (nFees p2 - nFees p1)) by lia. by apply (conserves_trans x m _ m' 0 0 fee _ cl cl2 Hcons).
    + by eapply claims_checked_app.
    + exists (chk ++ chk2)%list. rewrite Hchk2, Hchk, <- app_assoc. split; [done|]. intros Hjc Hsch [Hf1 Hf2]%Forall_app. constructor; [by apply Hpass|].
      eapply Forall2_impl; [by apply Hpass2|]. intros t c [?|?]; [by left|right]. by apply (Hsc Hjc).
Qed.

Lemma block_inv_start m : block_inv m [] m.
Proof. split; [auto|]. by intros t i ?%not_elem_of_nil. Qed.

Lemma cb_version_no_assets tx rest : cb_version_ok (tx :: rest) = true -> HasAssets tx = false.
Proof.
  cbn [cb_version_ok]. unfold HasAssets, IsSyscoinTx, IsAssetAllocationTx, IsSyscoinMintTx, CURRENT_VERSION, SYSCOIN_TX_VERSION_MN_QUORUM_COMMITMENT,
    SYSCOIN_TX_VERSION_ALLOCATION_BURN_TO_NEVM, SYSCOIN_TX_VERSION_ALLOCATION_BURN_TO_SYSCOIN, SYSCOIN_TX_VERSION_SYSCOIN_BURN_TO_ALLOCATION,
    SYSCOIN_TX_VERSION_ALLOCATION_SEND, SYSCOIN_TX_VERSION_ALLOCATION_MINT. lia.
Qed.

(** What the coinbase pays. *)
Definition coinbase_value (txs : list CTransaction) : Z := match txs with tx :: _ => sum_values (vout tx) | [] => 0 end.

Lemma connect_vtx_spec txs v m below scripts :
  shows v m below -> set_ok m -> well_formed_vtx txs -> Forall assets_loaded txs -> ids_commit txs ->
  verdict (connect_vtx txs v scripts) (fun p =>
    connected true txs (start v scripts) m below (coinbase_value txs) p /\ Forall (fun c => verify c = true) (control p)).
Proof.
  intros Hv Hm (cb & rest & -> & Hcb & Hncb & [Htx Hwfs]%Forall_cons) [Hl Hload]%Forall_cons Hid. unfold connect_vtx. apply verdict_bind.
  eapply verdict_mono; [by apply check_BIP30_shows|]. intros v1 [Hv1 [Ha0 Habs]%Forall_cons]. ask_others. apply verdict_guard. intros Hver. apply verdict_bind.
  assert (Hnc : fNexusContext = true) by (unfold fNexusContext; apply orb_true_iff; left; by apply Z.leb_le).
  rewrite Hnc in Hver. cbn [andb] in Hver. apply negb_true_iff, negb_false_iff, cb_version_no_assets in Hver. specialize (Hl Hver).
  cbn [connect_loop]. apply verdict_bind.
  pose proof (connect_tx_spec cb (start v1 scripts) m below Hv1 Hm Htx (fun _ => Ha0)) as Hstep. rewrite Hcb in Hstep.
  eapply verdict_mono; [exact Hstep|]. intros p1 (cs & m1 & [= <- <-] & Hv2 & Hu1 & Hsc & (chk & Hchk & _) & Hf1 & Hs1).
  eapply verdict_mono; [apply (connect_loop_spec m below [cb] rest p1 _ Hv2); try done|].
  - apply (set_ok_step [] cb m [] m); try done. eapply Forall_impl; [exact Hl|]. intros o Ho. by left.
  - apply (block_inv_step height m [] m cb [] m); try done; [apply block_inv_start|by apply not_elem_of_nil|by rewrite Hcb].
  - intros t t' Ht Ht'. apply Hid; set_solver.
  - intros p2 (ls & m' & cl & Hc2 & Hv3 & Hm2 & Hr2 & Hu2 & Hcons & Hcl & chk2 & Hchk2 & Hpass). ask_others. apply verdict_guard. intros Hall. rewrite Hnc. ask_others. ask_others. cbn.
    assert (HF : Forall (fun c => verify c = true) (control p2)) by (apply Forall_forall; intros c Hc; rewrite forallb_forall in Hall; by apply Hall, list_elem_of_In).
    split; [|done]. exists ls, m', cl. split_and!; try done.
    + by apply (connects_cons GetHash batch height true cb rest m [] m ls m'); [| | |apply well_formed_outs_fit| |].
    + constructor; [|done]. eapply Forall_impl; [exact Hl|]. intros o Ho. by left.
    + by rewrite Hu2, Hu1.
    + rewrite Hf1 in Hcons. destruct (coinbase_creates GetHash height cb m x Hx) as [C1 C2]; [apply Htx|done|done|]. destruct Hcons as [H1 H2]. cbn [start nFees] in *.
      split; [cbn [coinbase_value]; lia|]. intros a Ha Hax. specialize (H2 a Ha Hax). rewrite C2 in H2 by done. done.
    + by rewrite Hs1 in Hcl.
    + exists (chk ++ chk2)%list. rewrite Hchk2, Hchk. split; [done|]. intros Hjc Hsch [_ HF2]%Forall_app. cbn [drop]. rewrite drop_0. eapply Forall2_impl; [by apply (Hpass Hjc Hsch HF2)|].
      intros t c [?|?]; [by left|right]. by apply (Hsc Hjc).
Qed.

Lemma ConnectBlock_spec block fChecked v m below scripts :
  shows v m below -> set_ok m -> CPureBlockHeader_GetHash Hash (pure (header block)) = pindex -> (GetBestBlock (as_view v)).1 = prev ->
  pindex <> hashGenesisBlock params -> fJustCheck = false \/ header_complete (header block) ->
  (fChecked = true -> well_formed_vtx (vtx block)) -> Forall assets_loaded (vtx block) -> ids_commit (vtx block) ->
  verdict (ConnectBlock block fChecked v scripts) (fun p =>
    connected true (vtx block) (start v scripts) m below (coinbase_value (vtx block)) p /\ Forall (fun c => verify c = true) (control p) /\ well_formed_vtx (vtx block)).
Proof.
  intros Hv Hm Hhash Hbest Hgen Hjc Hch Hload Hid. unfold ConnectBlock. rewrite bool_decide_eq_true_2, Hb by done. cbn [of_option mbind result_bind].
  apply verdict_bind, verdict_corrupt. eapply verdict_mono; [apply CheckBlock_spec; [|done]; by destruct Hjc as [-> | ?]; auto|].
  intros fc Hvtx. ask_others. destruct (GetBestBlock_shows v m below Hv) as (v1 & -> & Hv1). rewrite Hbest, Hprev. cbn [default]. unfold id.
  rewrite bool_decide_eq_true_2, bool_decide_eq_false_2, bool_decide_eq_true_2 by done. apply verdict_bind.
  replace (match as_view v1 with ViewCache c base => (c, base) | ViewDB _ => v end) with v1 by (by destruct v1).
  eapply verdict_mono; [by apply (connect_vtx_spec _ v1 m below)|]. intros p [Hc HF].
  by destruct fJustCheck.
Qed.
End place.

(** A block whose predecessor is the tip, at a height where the Nexus rules hold: the index is
    well formed, the view shows the coins of the predecessor, all of them well formed, the
    ids of the transactions commit to what they spend, the assets of the outputs are those of
    the payloads, a block that was checked before is well formed, and one that is only to be
    checked has the proof its version announces. *)
Record at_tip (block : CBlock) (fChecked : bool) (v : cached) : Prop := {
  tip_index : chain_wf index;
  tip_block : exists b prev, index !! pindex = Some b /\ pprev b = Some prev /\ nHeight b < 2 ^ 31 - 65536 /\ (GetBestBlock (as_view v)).1 = prev;
  tip_hash : CPureBlockHeader_GetHash Hash (pure (header block)) = pindex /\ pindex <> hashGenesisBlock params;
  tip_flags : sigop_flags_ok flags;
  tip_nexus : nNexusStartBlock (assets params) <= height /\ nSYSXAsset (assets params) <> 0;
  tip_header : fJustCheck = false \/ header_complete (header block);
  tip_checked : fChecked = true -> well_formed_vtx (vtx block);
  tip_assets : Forall assets_loaded (vtx block);
  tip_ids : ids_commit (vtx block);
  tip_view : view_ok (as_view v);
  tip_coins : map_Forall (fun _ => coin_good (height - 1)) (coins (as_view v)) }.

Lemma at_tip_spec block fChecked v scripts :
  at_tip block fChecked v ->
  0 < height < 2 ^ 31 /\ map_Forall (fun _ => coin_ok) (coins (as_view v)) /\
  verdict (ConnectBlock block fChecked v scripts) (fun p =>
    connected true (vtx block) (start v scripts) (coins (as_view v)) (backing_of v.2) (coinbase_value (vtx block)) p /\
    Forall (fun c => verify c = true) (control p) /\ well_formed_vtx (vtx block)).
Proof.
  intros [Hwf (b & prev & Hb & Hprev & Hmax & Hbest) [Hhash Hgen] Hflags [Hnexus Hx] Hhead Hch Hload Hid Hv Hm].
  split; [by eapply height_range|]. split; [intros o c Hc; by apply (Hm o c)|].
  eapply ConnectBlock_spec; eauto; [done|]. intros o c Hc. destruct (Hm o c Hc) as (? & ? & ?). split_and!; try done; lia.
Qed.

(** ** Properties *)


Lemma take_inputs_Forall (Q : Coin -> Prop) ins m l m' :
  map_Forall (fun _ => Q) m -> take_inputs ins m = Some (l, m') -> Forall Q l /\ map_Forall (fun _ => Q) m'.
Proof.
  revert m l. induction ins as [|i ins IH]; intros m l Hm; cbn; [by intros [= <- <-]|].
  intros (c & Hc & ([l' m1] & H1 & [= <- <-])%bind_Some)%bind_Some. destruct (IH _ _ (map_Forall_delete _ _ _ Hm) H1) as [Hl Hm'].
  split; [|done]. constructor; [by eapply Hm|done].
Qed.

Lemma put_outputs_Forall (Q : Coin -> Prop) h tx i outs m :
  map_Forall (fun _ => Q) m -> Forall (fun o => IsUnspendable (scriptPubKey o) = false -> Q (Coin_of o h (IsCoinBase tx))) outs ->
  map_Forall (fun _ => Q) (put_outputs GetHash h tx i outs m).
Proof.
  intros Hm Ho. revert i. induction Ho as [|o outs Hn Ho IH]; intros i; cbn; [done|]. unfold put_output.
  destruct (IsUnspendable _) eqn:E; [apply IH|]. apply map_Forall_insert_2; [by apply Hn|apply IH].
Qed.

(** What holds of the coins of a set and of those that a block creates holds of the coins that
    the block leaves and of those it spends. *)
Lemma connects_coins (Q : Coin -> Prop) h txs first m ls m' :
  connects GetHash batch h txs first m ls m' -> map_Forall (fun _ => Q) m ->
  Forall (fun tx => Forall (fun o => IsUnspendable (scriptPubKey o) = false -> Q (Coin_of o h (IsCoinBase tx))) (vout tx)) txs ->
  map_Forall (fun _ => Q) m' /\ Forall (Forall Q) ls.
Proof.
  induction 1 as [|first tx txs m l m1 ls m' Hcb _ Ht _ _ _ IH]; intros Hm Hout; [done|]. apply Forall_cons in Hout as [Ho Hout].
  destruct (take_inputs_Forall Q _ _ _ _ Hm Ht) as [Hl Hm1]. destruct IH as [Hm' Hls]; [by apply put_outputs_Forall|done|].
  split; [done|]. destruct first; [done|by constructor].
Qed.

Lemma connects_lengths h txs first m ls m' :
  connects GetHash batch h txs first m ls m' ->
  Forall2 (fun tx l => length l = length (vin tx)) (if first then drop 1 txs else txs) ls.
Proof.
  induction 1 as [[]|first tx txs m l m1 ls m' Hcb _ Ht _ _ _ IH]; [constructor|constructor|]. destruct first; [cbn; by rewrite drop_0|].
  constructor; [|done]. by eapply take_inputs_length.
Qed.

(** What the format of undo data has a place for: vectors are read up to a length, and outputs
    that can be spent carry no blob and no amount without an asset. *)
Definition undo_fits (block : CBlock) : Prop :=
  Z.of_nat (length (vtx block)) <= MAX_SIZE /\
  Forall (fun tx => Z.of_nat (length (vin tx)) <= MAX_SIZE /\
    Forall (fun o => IsUnspendable (scriptPubKey o) = false -> disk_shape o) (vout tx)) (vtx block).

Definition coin_in_money (c : Coin) : Prop := MoneyRange (nValue (coin_out c)) = true.

Lemma connected_coins_in_money (block : CBlock) h ls m m' :
  connects GetHash batch h (vtx block) true m ls m' -> well_formed_vtx (vtx block) ->
  map_Forall (fun _ => coin_in_money) m -> map_Forall (fun _ => coin_in_money) m'.
Proof.
  intros Hc (cb & rest & _ & _ & _ & Hwf) Hm. apply (connects_coins _ _ _ _ _ _ _ Hc Hm).
  eapply Forall_impl; [exact Hwf|]. intros tx (_ & _ & _ & Hv & _). eapply Forall_impl; [exact Hv|]. done.
Qed.

(** The coins that a block spends can be written to disk. *)
Lemma connected_undo_storable (block : CBlock) h ls m m' :
  connects GetHash batch h (vtx block) true m ls m' -> well_formed_vtx (vtx block) -> 0 < h < 2 ^ 31 ->
  Forall (fun tx => Forall asset_in_range (vout tx)) (vtx block) -> undo_fits block ->
  map_Forall (fun _ c => coin_good (h - 1) c /\ coin_in_money c /\ disk_shape (coin_out c)) m -> storable_undo ls.
Proof.
  intros Hc Hwf Hh Hr [Hlen Hfit] Hm. assert (Hs : forall o, IsUnspendable (scriptPubKey o) = false -> size (scriptPubKey o) <= MAX_SCRIPT_SIZE).
  { intros o [_ Ho]%orb_false_iff. apply Z.ltb_ge in Ho. done. }
  pose proof (connects_lengths _ _ _ _ _ _ Hc) as Hl. destruct (connects_coins storable _ _ _ _ _ _ Hc) as [_ Hst].
  - intros o c Hoc. destruct (Hm o c Hoc) as (((_ & Hu & _) & Hhc & Ha) & Hv & Hd). split; [|lia]. split_and!; auto.
  - destruct Hwf as (cb & rest & _ & _ & _ & Hwf). apply Forall_forall. intros tx Htx. rewrite Forall_forall in Hwf, Hr, Hfit.
    destruct (Hwf tx Htx) as (_ & _ & _ & Hv & _), (Hfit tx Htx) as [_ Hd]. specialize (Hr tx Htx). apply Forall_forall. intros o Ho Hu.
    rewrite Forall_forall in Hv, Hr, Hd. split; cbn; [split_and!; auto|]. rewrite Z.mod_small; lia.
  - split; [apply Forall2_length in Hl; rewrite length_drop in Hl; lia|]. apply Forall_forall. intros l Hin.
    apply list_elem_of_lookup in Hin as [i Hi]. destruct (Forall2_lookup_r _ _ _ _ _ Hl Hi) as (tx & Htx & Hln). split; [|by eapply Forall_lookup_1].
    rewrite lookup_drop in Htx. rewrite Hln. by apply (Forall_lookup_1 _ _ _ _ Hfit Htx).
Qed.

(** C2: a connected block can be disconnected. Take a block on top of the tip, from the height
    of the Nexus rules on (all conditions of the record [at_tip]), and say that the outputs of the set and those of the
    block that can be spent have the shape that the format of undo data keeps: scripts of bytes,
    no blob, values that are money and no amount without an asset; and that the vectors of
    transactions and of inputs are short enough to be read back. The undo data that [ConnectBlock]
    leaves is written with [UndoWriteToDisk] after whatever the file holds, at a position below
    2^32, and more may be written after it; the hash has 32 bytes, and decompressing a valid key
    that was compressed gives the key. [DisconnectBlock] reads it back. If the masternode and NEVM components
    undo the block, it answers [DISCONNECT_OK] and gives back the coins the view had before, at
    its own level and at every level below; if one of them fails, it answers
    [DISCONNECT_FAILED]; it never raises. *)
Theorem connected_block_disconnects (IsFullyValid : bytes -> bool) (Decompress : bytes -> option bytes)
    (block : CBlock) (fChecked : bool) (v : cached) (scripts : gset uint256) (p : progress) (prevHash : uint256) (messageStart file later : bytes)
    (special_undone nevm_disconnected : bool) :
  0 < batch -> (forall b, length (Hash b) = 32%nat) ->
  (forall x y, length x = 32%nat -> length y = 32%nat -> IsFullyValid (4 :: x ++ y)%list = true ->
    Decompress (2 + Z.land (byte_at y 31) 1 :: x)%list = Some (4 :: x ++ y)%list) ->
  size file + size messageStart + 4 < 2 ^ 32 -> at_tip block fChecked v -> undo_fits block ->
  map_Forall (fun _ c => coin_in_money c /\ disk_shape (coin_out c)) (coins (as_view v)) ->
  ConnectBlock block fChecked v scripts = Ok p ->
  let '(file', pos) := UndoWriteToDisk IsFullyValid Hash messageStart (vtxundo p) prevHash file in
  exists answer v', DisconnectBlock_from_disk Decompress Hash batch GetHash special_undone nevm_disconnected (vtx block) (file' ++ later)%list (Some pos)
      height prevHash (pr_view p) = Ok (answer, v') /\
    if special_undone && nevm_disconnected
    then answer = DISCONNECT_OK /\ view_ok (as_view v') /\ levels (as_view v') = levels (as_view v) /\ hashBlock v'.1 = prevHash
    else answer = DISCONNECT_FAILED.
Proof.
  intros Hbatch Hlen Hkey Hsize Htip Hfit Hdisk Hr. destruct (at_tip_spec block fChecked v scripts Htip) as (Hh & Hm & Hspec). rewrite Hr in Hspec.
  destruct Hspec as [(ls & m' & cl & Hc & Hv & _ & Har & Hu & _) [_ Hwf]]. cbn [start vtxundo app] in Hu. rewrite Hu.
  assert (Hne : vtx block <> []) by (by destruct Hwf as (? & ? & -> & _)).
  pose proof (UndoReadFromDisk_UndoWriteToDisk IsFullyValid Decompress Hash batch Hbatch Hlen Hkey messageStart ls prevHash file later) as Hread.
  destruct (UndoWriteToDisk _ _ _ _ _ _) as [file' pos]. unfold DisconnectBlock_from_disk. rewrite Hread; [| |done].
  - destruct (DisconnectBlock_shows GetHash batch height Hh (vtx block) (pr_view p) (coins (as_view v)) (backing_of v.2) ls m' prevHash Hm Hc Hne Hv)
      as (v' & Hd & (Hok & Hcoins & [= Hl _]) & Hp).
    destruct (special_undone && nevm_disconnected) eqn:E.
    + apply andb_true_iff in E as [-> ->]. exists DISCONNECT_OK, v'. split_and!; try done. cbn [levels]. by rewrite Hcoins, Hl.
    + destruct (DisconnectBlock_fails _ _ _ _ _ _ _ _ _ _ Hd E) as [v1 Hf]. by exists DISCONNECT_FAILED, v1.
  - eapply connected_undo_storable; eauto. intros o c Hoc. split; [by apply (tip_coins _ _ _ Htip o c)|by apply (Hdisk o c)].
Qed.


(** C17: the set stays well formed. Take a block on top of the tip, from the height of the
    Nexus rules on (all conditions of the record [at_tip]). If every coin of the set is unspent and spendable, was made
    below the block, and has a value and an amount of an asset that are money, then after the
    block is connected the view is consistent and the same holds of every coin of the set, at
    the height of the block. *)
Theorem ConnectBlock_keeps_set_ok (block : CBlock) (fChecked : bool) (v : cached) (scripts : gset uint256) (p : progress) :
  at_tip block fChecked v -> map_Forall (fun _ => coin_in_money) (coins (as_view v)) -> ConnectBlock block fChecked v scripts = Ok p ->
  view_ok (as_view (pr_view p)) /\ map_Forall (fun _ c => coin_good height c /\ coin_in_money c) (coins (as_view (pr_view p))).
Proof.
  intros Htip Hmoney Hr. destruct (at_tip_spec block fChecked v scripts Htip) as (_ & _ & Hspec). rewrite Hr in Hspec.
  destruct Hspec as [(ls & m' & cl & Hc & (Hok & Hm' & _) & Hset & _) [_ Hwf]]. rewrite Hm'. split; [done|].
  pose proof (connected_coins_in_money _ _ _ _ _ Hc Hwf Hmoney) as Hmm. intros o c Hoc. split; [by eapply Hset|by eapply Hmm].
Qed.

Lemma connected_scripts_pass (block : CBlock) (fChecked : bool) (v : cached) (scripts : gset uint256) (p : progress) :
  at_tip block fChecked v -> ConnectBlock block fChecked v scripts = Ok p -> fJustCheck = false -> fScriptChecks = true ->
  Forall2 (fun tx spent => scripts_pass tx spent \/ cache_key (ComputeWitnessHash Hash tx) flags ∈ scripts) (drop 1 (vtx block)) (vtxundo p).
Proof.
  intros Htip Hr Hjc Hs. destruct (at_tip_spec block fChecked v scripts Htip) as (_ & _ & Hspec). rewrite Hr in Hspec.
  destruct Hspec as [(ls & m' & cl & _ & _ & _ & _ & -> & _ & _ & chk & Hchk & Hpass) [HF _]]. apply Hpass; [done| |by rewrite Hchk in HF].
  rewrite Hs. unfold fNexusContext. apply orb_true_iff. left. apply Z.leb_le, Htip.
Qed.

(** Scripts of a connected block pass. Where scripts are checked, every input of every
    transaction but the coinbase passes with the output it spends, whether the check was
    made in place or by the queue, unless the cache already knew the transaction. *)
Theorem ConnectBlock_scripts_pass (block : CBlock) (fChecked : bool) (v : cached) (scripts : gset uint256) (p : progress) :
  at_tip block fChecked v -> ConnectBlock block fChecked v scripts = Ok p -> fJustCheck = false -> fScriptChecks = true ->
  Forall2 (fun tx spent => scripts_pass tx spent \/ cache_key (ComputeWitnessHash Hash tx) flags ∈ scripts) (drop 1 (vtx block)) (vtxundo p).
Proof. apply connected_scripts_pass. Qed.
End connect_block.

(** ** Checks in place and checks by the queue *)

Definition with_control (p : progress) (c : list CScriptCheck) : progress :=
  {| pr_view := pr_view p; nFees := nFees p; nSigOpsCost := nSigOpsCost p; setMintTxs := setMintTxs p; pr_scripts := pr_scripts p;
     control := c; vtxundo := vtxundo p |}.

Section queue.
Context {U : Type} `{AU : ArithUint U}.
Variable Hash : bytes -> uint256.
Variable CheckSignetBlockSolution : CBlock -> bool.
Variable verify : CScriptCheck -> bool.
Variable cache_key : uint256 -> Z -> uint256.
Variable discards : gset uint256 -> uint256 -> bool.
Variable sha3 : bytes -> bytes.
Variable destination : bytes -> option bytes.
Variable batch : Z.
Variable params : ChainParams.
Variable others : Others.
Variable roots : CNEVMTxRootsDB.
Variable minted : CNEVMMintedTxDB.
Variable index : gmap ptr (CBlockIndex (U := U)).
Variable pindex : ptr.
Variable nLockTimeFlags flags : Z.
Variable fScriptChecks : bool.

Abbreviation tx_run parallel := (connect_tx Hash verify cache_key discards sha3 destination batch params roots minted index pindex nLockTimeFlags flags
  false fScriptChecks parallel).
Abbreviation loop_run parallel := (connect_loop Hash verify cache_key discards sha3 destination batch params roots minted index pindex nLockTimeFlags flags
  false fScriptChecks parallel).
Abbreviation all_pass chk := (Forall (fun c => verify c = true) chk).

Lemma CheckInputScripts_queue tx v sc chk sc' v' :
  CheckInputScripts verify cache_key discards Hash tx v flags false true sc = Ok (chk, sc', v') ->
  (all_pass chk -> CheckInputScripts verify cache_key discards Hash tx v flags false false sc = Ok ([], sc', v')) /\
  forall r, CheckInputScripts verify cache_key discards Hash tx v flags false false sc = Ok r -> all_pass chk /\ r = ([], sc', v').
Proof.
  unfold CheckInputScripts. destruct (IsCoinBase tx); [intros [= <- <- <-]; split; [done|intros r [= <-]; split; [constructor|done]]|].
  case_bool_decide; [intros [= <- <- <-]; split; [done|intros r [= <-]; split; [constructor|done]]|].
  destruct (spent_outputs (vin tx) v) as [[outs v1]|]; [|done]. cbn [mbind result_bind]. destruct (length outs =? _)%nat; [|done].
  intros [= <- <- <-]. pose proof (run_checks_spec verify flags (script_checks tx flags outs)) as Hr.
  destruct (run_checks verify flags _) as [[]|e]; cbn [mbind result_bind]; [split; [done|]; by intros r [= <-]|split; [tauto|done]].
Qed.

Lemma CheckInputScripts_in_place tx v sc r :
  CheckInputScripts verify cache_key discards Hash tx v flags false false sc = Ok r ->
  exists chk sc' v', CheckInputScripts verify cache_key discards Hash tx v flags false true sc = Ok (chk, sc', v').
Proof.
  unfold CheckInputScripts. destruct (IsCoinBase tx); [eauto|]. case_bool_decide; [eauto|].
  destruct (spent_outputs (vin tx) v) as [[outs v1]|]; [|done]. cbn [mbind result_bind]. destruct (length outs =? _)%nat; [eauto|done].
Qed.

(** What precedes the scripts does not look at the queue. *)
Lemma check_spend_control tx p c :
  check_spend sha3 destination batch params roots minted index pindex nLockTimeFlags false tx (with_control p c) =
  (q ← check_spend sha3 destination batch params roots minted index pindex nLockTimeFlags false tx p; Ok (with_control q c)).
Proof.
  unfold check_spend. cbn [with_control pr_view setMintTxs nFees nSigOpsCost pr_scripts vtxundo control].
  destruct (CheckTxInputs _ _ _ _ _) as [[[[? ?] ?] ?]|[]]; cbn [of_tx mbind result_bind]; try done.
  destruct (CheckSyscoinInputs _ _ _ _ _ _ _ _ _ _ _ _) as [? [[]|[]]]; cbn [of_tx mbind result_bind]; try done.
  destruct (MoneyRange _); [|done]. destruct (prev_heights _ _). destruct (SequenceLocks _ _ _ _ _) as [[]|]; done.
Qed.

Lemma with_control_id p : with_control p (control p) = p.
Proof. by destruct p. Qed.

Lemma check_spend_keeps_control tx p q :
  check_spend sha3 destination batch params roots minted index pindex nLockTimeFlags false tx p = Ok q -> control q = control p.
Proof.
  intros Hq. pose proof (check_spend_control tx p (control p)) as Hs. rewrite with_control_id, Hq in Hs. by injection Hs as ->.
Qed.

Lemma connect_tx_control first tx p p1 :
  tx_run true first tx p = Ok p1 ->
  exists chk, control p1 = (control p ++ chk)%list /\ forall c, tx_run true first tx (with_control p c) = Ok (with_control p1 (c ++ chk)%list).
Proof.
  unfold connect_tx. intros (q & Hq & H)%bind_ok.
  assert (control q = control p) as Hc by (destruct (negb (IsCoinBase tx)); [by eapply check_spend_keeps_control|by injection Hq as <-]).
  assert (Hpre : forall c, (if negb (IsCoinBase tx) then check_spend sha3 destination batch params roots minted index pindex nLockTimeFlags false tx (with_control p c)
    else Ok (with_control p c)) = Ok (with_control q c)).
  { intros c. destruct (negb (IsCoinBase tx)); [by rewrite check_spend_control, Hq|by injection Hq as ->]. }
  apply bind_ok in H as ([cost v1] & Hcost & H). destruct (negb (_ <? _)) eqn:Hlim; [|done].
  apply bind_ok in H as ([[chk sc] v2] & Hsc & H). apply bind_ok in H as ([undo v3] & Hu & [= <-]).
  exists chk. cbn [control]. split; [by rewrite Hc|]. intros c. rewrite Hpre. cbn [mbind result_bind with_control pr_view nSigOpsCost pr_scripts].
  rewrite Hcost. cbn [mbind result_bind]. rewrite Hlim, Hsc. cbn [mbind result_bind]. by rewrite Hu.
Qed.

Lemma connect_tx_queue first tx p p1 :
  tx_run false first tx p = Ok p1 <->
  control p1 = control p /\ exists chk, tx_run true first tx p = Ok (with_control p1 (control p ++ chk)%list) /\ all_pass chk.
Proof.
  unfold connect_tx. set (pre := if negb (IsCoinBase tx) then _ else _).
  assert (Hctl : forall q, pre = Ok q -> control q = control p).
  { subst pre. intros q Hq. destruct (negb (IsCoinBase tx)); [by eapply check_spend_keeps_control|by injection Hq as <-]. }
  destruct pre as [q|]; [|split; [done|by intros (_ & ? & ? & _)]]. specialize (Hctl q eq_refl). cbn [mbind result_bind].
  destruct (of_tx (GetTransactionSigOpCost _ _ _)) as [[cost v1]|]; [|split; [done|by intros (_ & ? & ? & _)]]. cbn [mbind result_bind].
  destruct (negb (_ <? _)); [|split; [done|by intros (_ & ? & ? & _)]].
  destruct (negb (IsCoinBase tx) && _).
  - split.
    + intros ([[c0 sc] v2] & Hsc & ([undo v3] & Hu & [= <-])%bind_ok)%bind_ok.
      destruct (CheckInputScripts _ _ _ _ _ _ _ _ false _) as [r|[]] eqn:Hr; [|done|done]. injection Hsc as ->.
      destruct (CheckInputScripts_in_place _ _ _ _ Hr) as (chk & sc' & v' & Hq). destruct (CheckInputScripts_queue _ _ _ _ _ _ Hq) as [_ Hback].
      destruct (Hback _ Hr) as [Hpass [= -> -> ->]]. cbn [control]. rewrite app_nil_r. split; [done|]. exists chk. split; [|done].
      rewrite Hq. cbn [of_tx mbind result_bind]. rewrite Hu. cbn [mbind result_bind]. by rewrite Hctl.
    + intros (Hc & chk & ([[c0 sc] v2] & Hsc & ([undo v3] & Hu & [= Hp])%bind_ok)%bind_ok & Hpass).
      destruct (CheckInputScripts _ _ _ _ _ _ _ _ true _) as [[[chk' sc'] v']|[]] eqn:Hr; [|done|done]. injection Hsc as -> -> ->.
      destruct p1. cbn in *. subst. rewrite Hctl in *. 
      match goal with H : (_ ++ _ = _ ++ _)%list |- _ => apply app_inv_head in H end. subst. destruct (CheckInputScripts_queue _ _ _ _ _ _ Hr) as [Hfor _].
      rewrite (Hfor Hpass). cbn [of_tx mbind result_bind]. rewrite Hu. cbn [mbind result_bind]. by rewrite app_nil_r.
  - cbn [mbind result_bind]. destruct (of_string _) as [[undo v3]|]; [|split; [done|by intros (_ & ? & ? & _)]]. cbn [mbind result_bind].
    rewrite app_nil_r, Hctl. split.
    + intros [= <-]. cbn [control]. split; [done|]. exists []. rewrite app_nil_r. split; [done|constructor].
    + intros (Hc & chk & [= Hp] & _). destruct p1. cbn in *. by subst.
Qed.

Lemma connect_loop_control first txs p p' :
  loop_run true first txs p = Ok p' ->
  exists chk, control p' = (control p ++ chk)%list /\ forall c, loop_run true first txs (with_control p c) = Ok (with_control p' (c ++ chk)%list).
Proof.
  revert first p. induction txs as [|tx txs IH]; intros first p; cbn [connect_loop].
  { intros [= <-]. exists []. rewrite app_nil_r. split; [done|]. intros c. by rewrite app_nil_r. }
  intros (p1 & (chk1 & H1 & R1)%connect_tx_control & (chk2 & H2 & R2)%IH)%bind_ok. exists (chk1 ++ chk2)%list.
  split; [by rewrite H2, H1, app_assoc|]. intros c. rewrite R1. cbn [mbind result_bind]. by rewrite R2, app_assoc.
Qed.

Lemma connect_loop_queue first txs p p' :
  loop_run false first txs p = Ok p' <->
  control p' = control p /\ exists chk, loop_run true first txs p = Ok (with_control p' (control p ++ chk)%list) /\ all_pass chk.
Proof.
  revert first p. induction txs as [|tx txs IH]; intros first p; cbn [connect_loop].
  { split.
    - intros [= <-]. split; [done|]. exists []. by rewrite app_nil_r, with_control_id.
    - intros (Hc & chk & [= H] & _). destruct p, p'. unfold with_control in H. cbn in *. injection H. intros. by subst. }
  split.
  - intros (p1 & (Hc1 & chk1 & R1 & P1)%connect_tx_queue & (Hc2 & chk2 & R2 & P2)%IH)%bind_ok. split; [congruence|].
    exists (chk1 ++ chk2)%list. split; [|by apply Forall_app]. rewrite R1. cbn [mbind result_bind].
    destruct (connect_loop_control _ _ _ _ R2) as (chk & Hchk & Hall). cbn [with_control control] in Hchk. apply app_inv_head in Hchk as <-.
    rewrite Hall, app_assoc. done.
  - intros (Hc & chk & (q & Hq & R)%bind_ok & P). destruct (connect_tx_control _ _ _ _ Hq) as (chk1 & Hc1 & R1).
    destruct (connect_loop_control _ _ _ _ R) as (chk2 & Hc2 & R2). cbn [with_control control] in Hc2.
    rewrite Hc1, <- app_assoc in Hc2. apply app_inv_head in Hc2 as ->. apply Forall_app in P as [P1 P2].
    assert (Htx : tx_run false first tx p = Ok (with_control q (control p))).
    { apply connect_tx_queue. split; [done|]. exists chk1. split; [|done]. rewrite Hq. f_equal. rewrite <- Hc1. symmetry. apply (with_control_id q). }
    rewrite Htx. cbn [mbind result_bind]. apply IH. cbn [with_control control]. split; [done|]. exists chk2. split; [|done]. apply R2.
Qed.

(** C12: the queue of script checks does not change what is accepted. With several threads the
    checks of a block go to a queue and run while later transactions are looked at; without,
    each runs in place. A block is connected in one way exactly when it is in the other, with
    the same coins, fees, mints and undo data. *)
Theorem queue_same_verdict (block : CBlock) (fChecked : bool) (v : cached) (scripts : gset uint256) (p : progress) :
  let run parallel := ConnectBlock Hash CheckSignetBlockSolution verify cache_key discards sha3 destination batch params others roots minted index pindex
                        nLockTimeFlags flags false fScriptChecks parallel block fChecked v scripts in
  run false = Ok p <-> control p = [] /\ exists chk, run true = Ok (with_control p chk).
Proof.
  cbn zeta. unfold ConnectBlock, connect_vtx. destruct (bool_decide (_ = pindex)); [|split; [done|by intros (_ & ? & ?)]].
  destruct (of_option _) as [b|]; [|split; [done|by intros (_ & ? & ?)]]. cbn [mbind result_bind negb].
  destruct (corrupt_is_fatal _) as [fc|]; [|split; [done|by intros (_ & ? & ?)]].
  destruct (direct_parent others); [|split; [done|by intros (_ & ? & ?)]]. cbn [mbind result_bind].
  destruct (GetBestBlock _) as [best base]. destruct (bool_decide (_ = best)); [|split; [done|by intros (_ & ? & ?)]].
  destruct (bool_decide (pindex = _)).
  { split; [intros [= <-]; split; [done|by exists []]|]. intros (Hc & chk & [= H]). by destruct p; cbn in *; subst. }
  destruct (bool_decide (is_Some _)); [|split; [done|by intros (_ & ? & ?)]].
  destruct (check_BIP30 _ _ _) as [v1|]; [|split; [done|by intros (_ & ? & ?)]]. cbn [mbind result_bind].
  destruct (special_txs others); [|split; [done|by intros (_ & ? & ?)]]. cbn [mbind result_bind].
  destruct (negb (fNexusContext _ _ _ && _)); [|split; [done|by intros (_ & ? & ?)]]. split.
  - intros (q & (q' & (Hc & chk & R & P)%connect_loop_queue & Hq)%bind_ok & [= <-])%bind_ok.
    destruct (nevm_data others); [|done]. cbn [mbind result_bind] in Hq. destruct (forallb verify (control q')); [|done].
    destruct (if fNexusContext _ _ _ then _ else _) eqn:Hpay in Hq; [|done]. destruct (nevm_commitment others); [|done]. injection Hq as ->.
    split; [done|]. exists chk. rewrite R. cbn [mbind result_bind with_control control nFees start app].
    assert (forallb verify chk = true) as ->; [|by rewrite Hpay]. apply forallb_forall. intros c Hin%list_elem_of_In. rewrite Forall_forall in P. by apply P.
  - intros (Hc & chk & (q & (q' & R & Hq)%bind_ok & [= Hp])%bind_ok).
    destruct (nevm_data others); [|done]. cbn [mbind result_bind] in Hq. destruct (forallb verify (control q')) eqn:Hall; [|done].
    destruct (if fNexusContext _ _ _ then _ else _) eqn:Hpay in Hq; [|done]. destruct (nevm_commitment others); [|done]. injection Hq as ->.
    assert (P : all_pass (control q)) by (apply Forall_forall; intros c Hin; rewrite forallb_forall in Hall; by apply Hall, list_elem_of_In).
    assert (Hs : loop_run false true (vtx block) (start v1 scripts) = Ok (with_control q [])).
    { apply connect_loop_queue. split; [done|]. exists (control q). split; [|done]. rewrite R. cbn [start control app]. f_equal. symmetry. apply (with_control_id q). }
    rewrite Hs. cbn [mbind result_bind with_control control forallb nFees]. rewrite Hpay. cbn. destruct p, q. cbn in *. by subst.
Qed.
End queue.

(** ** Witnesses *)

Definition sample_in (hash : uint256) (n : Z) : CTxIn :=
  {| prevout := {| op_hash := hash; op_n := n |}; scriptSig := []; nSequence := SEQUENCE_FINAL; scriptWitness := [] |}.

Definition sample_coinbase : CTransaction :=
  {| vin := [{| prevout := {| op_hash := uint256_null; op_n := NULL_INDEX |}; scriptSig := [1; 1]; nSequence := 0; scriptWitness := [] |}];
     vout := [example_out 50]; nVersion := 1; nLockTime := 0 |}.

(** Pays 60 of the 70 of a coin and leaves 10 as fee. *)
Definition sample_spend : CTransaction :=
  {| vin := [sample_in (example_hash 9) 3]; vout := [example_out 60]; nVersion := 2; nLockTime := 0 |}.

(** Spends the output before it in the block, burns 35 for 35 of the asset 123 and leaves 5. *)
Definition sample_burn : CTransaction :=
  {| vin := [sample_in (ComputeHash ex_Hash sample_spend) 0];
     vout := [{| nValue := 20; scriptPubKey := [81]; assetInfo := {| nAsset := 123; asset_nValue := 35 |}; vchNEVMData := [] |};
              {| nValue := 35; scriptPubKey := [0x6a]; assetInfo := CAssetCoinInfo_null; vchNEVMData := [] |}];
     nVersion := SYSCOIN_TX_VERSION_SYSCOIN_BURN_TO_ALLOCATION; nLockTime := 0 |}.

Definition sample_vtx : list CTransaction := [sample_coinbase; sample_spend; sample_burn].

Definition sample_block : CBlock :=
  {| header := {| pure := {| hdr_nVersion := 1; hashPrevBlock := example_hash 101;
                             hdr_hashMerkleRoot := ComputeHash ex_Hash sample_coinbase; hdr_nTime := 3; hdr_nBits := 0x207fffff; hdr_nNonce := 4 |};
                  auxpow := None |};
     vtx := sample_vtx; vchNEVMBlockData := [] |}.

Definition sample_pindex : uint256 := CPureBlockHeader_GetHash ex_Hash (pure (header sample_block)).

Definition sample_entry (prev skip : option ptr) (h : Z) : CBlockIndex (U := list Z) :=
  {| pprev := prev; pskip := skip; nHeight := h; nChainWork := base_uint_zero; nStatus := 0; Chain.nVersion := 1; hashMerkleRoot := [];
     nTime := h; nBits := 0; nNonce := 0; nSequenceId := 0; nTimeMax := h |}.

Definition sample_index : gmap ptr (CBlockIndex (U := list Z)) :=
  <[sample_pindex := sample_entry (Some (example_hash 101)) (Some (example_hash 100)) 2]>
  (<[example_hash 101 := sample_entry (Some (example_hash 100)) (Some (example_hash 100)) 1]>
   {[example_hash 100 := sample_entry None None 0]}).

Definition sample_db : CCoinsViewDB :=
  {| db_coins := {[ {| op_hash := example_hash 9; op_n := 3 |} := Coin_of (example_out 70) 1 false ]};
     db_best_block := Some (example_hash 101); db_head_blocks := [] |}.

Definition sample_view : cached := new_cache (ViewDB sample_db).

Definition sample_params : ChainParams :=
  {| pow := AuxPow.ex_params; aux := ex_aux;
     assets := {| nNexusStartBlock := 0; nCLReceiptStartBlock := 100; nSYSXAsset := 123; bridge := Bridge.ex_params |};
     nNEVMStartTime := 0; signet_blocks := false; fRegTest := false; hashGenesisBlock := example_hash 100 |}.

(** The other components have nothing against it. *)
Definition sample_others : Others :=
  {| direct_parent := Ok (); special_txs := Ok (); nevm_data := Ok ();
     payments := fun fees => if 100 <? fees then Throw (BlockInvalid BLOCK_CONSENSUS "bad-cb-amount") else Ok (); nevm_commitment := Ok () |}.


(** Points of a toy curve: the second coordinate is 0 or 1. *)
Definition sample_valid_key (k : bytes) : bool :=
  bool_decide (take 31 (drop 33 k) = replicate 31 0) && ((byte_at k 64 =? 0) || (byte_at k 64 =? 1)).

Definition sample_decompress (k : bytes) : option bytes :=
  match k with
  | t :: x => Some (4 :: x ++ replicate 31 0 ++ [t - 2])%list
  | [] => None
  end.

Lemma sample_decompress_key x y :
  length x = 32%nat -> length y = 32%nat -> sample_valid_key (4 :: x ++ y)%list = true ->
  sample_decompress (2 + Z.land (byte_at y 31) 1 :: x)%list = Some (4 :: x ++ y)%list.
Proof.
  intros Hx Hy [Hz Hp]%andb_true_iff. apply bool_decide_eq_true in Hz. cbn [drop] in Hz. rewrite drop_app_length' in Hz by done.
  assert (Hb : byte_at (4 :: x ++ y)%list 64 = byte_at y 31) by (unfold byte_at; cbn [nth]; rewrite app_nth2, Hx by lia; done).
  rewrite Hb in Hp. unfold sample_decompress. do 3 f_equal. rewrite (last_byte y 31 Hy) at 2. rewrite Hz. do 2 f_equal.
  apply orb_true_iff in Hp as [->%Z.eqb_eq| ->%Z.eqb_eq]; done.
Qed.

Lemma ex_Hash_length b : length (ex_Hash b) = 32%nat.
Proof. unfold ex_Hash. rewrite length_take, length_app, length_replicate. lia. Qed.

(** Scripts pass where the output is the one of the example. *)
Definition sample_verify (c : CScriptCheck) : bool := bool_decide (scriptPubKey (m_tx_out c) = [81]).

Definition sample_run (parallel : bool) : result block_failure progress :=
  ConnectBlock ex_Hash (fun _ => false) sample_verify (fun h _ => h) (fun _ _ => true) id (fun _ => None) 5000 sample_params sample_others
    ex_roots no_mints sample_index sample_pindex
    LOCKTIME_VERIFY_SEQUENCE (Z.lor SCRIPT_VERIFY_P2SH SCRIPT_VERIFY_WITNESS) false true parallel sample_block false sample_view ∅.

Lemma sample_chain_wf : chain_wf sample_index.
Proof.
  intros p b. unfold sample_index. rewrite !lookup_insert_Some, lookup_singleton_Some.
  intros [[<- <-]|[_ [[<- <-]|[_ [<- <-]]]]]; unfold index_ok; cbn [nHeight pprev pskip sample_entry]; (split; [lia|]); [| |done].
  - exists (sample_entry (Some (example_hash 100)) (Some (example_hash 100)) 1). split_and!; [vm_compute; reflexivity|done|].
    exists (example_hash 100). split; [done|vm_compute; reflexivity].
  - exists (sample_entry None None 0). split_and!; [vm_compute; reflexivity|done|].
    exists (example_hash 100). split; [done|vm_compute; reflexivity].
Qed.

Lemma sample_coins : coins (as_view sample_view) = db_coins sample_db.
Proof. reflexivity. Qed.

Lemma sample_at_tip :
  at_tip ex_Hash sample_params sample_index sample_pindex (Z.lor SCRIPT_VERIFY_P2SH SCRIPT_VERIFY_WITNESS) false sample_block false sample_view.
Proof.
  assert (Hh : height sample_index sample_pindex = 2) by (vm_compute; reflexivity).
  split.
  - exact sample_chain_wf.
  - exists (sample_entry (Some (example_hash 101)) (Some (example_hash 100)) 2), (example_hash 101).
    split_and!; [vm_compute; reflexivity|done|done|vm_compute; reflexivity].
  - split; [done|]. vm_compute. congruence.
  - done.
  - rewrite Hh. done.
  - by left.
  - done.
  - cbn [vtx sample_block sample_vtx]. by repeat constructor.
  - intros t t'. change (vtx sample_block) with [sample_coinbase; sample_spend; sample_burn]. rewrite !elem_of_cons, !elem_of_nil.
    intros [->|[->|[->|[]]]] [->|[->|[->|[]]]]; vm_compute; congruence.
  - apply view_ok_new_cache. intros o c. cbn [db_coins sample_db]. rewrite lookup_singleton_Some. by intros [_ <-].
  - rewrite sample_coins, Hh. intros o c. cbn [db_coins sample_db]. rewrite lookup_singleton_Some. intros [_ <-].
    split_and!; cbn; try done. by left.
Qed.

(** What connecting the block leaves. *)
Definition sample_progress : progress := match sample_run false with Ok p => p | Throw _ => start sample_view ∅ end.

Lemma sample_connects : sample_run false = Ok sample_progress.
Proof. vm_compute. reflexivity. Qed.


Lemma connected_block_disconnects_witness :
  vtxundo sample_progress = [[Coin_of (example_out 70) 1 false]; [Coin_of (example_out 60) 2 false]] /\
  let '(file, pos) := UndoWriteToDisk sample_valid_key ex_Hash [206; 226; 202; 255] (vtxundo sample_progress) (example_hash 101) [1; 2; 3] in
  exists answer v', DisconnectBlock_from_disk sample_decompress ex_Hash 5000 (ComputeHash ex_Hash) true true sample_vtx (file ++ [7; 8])%list (Some pos)
      2 (example_hash 101) (pr_view sample_progress) = Ok (answer, v') /\
    answer = DISCONNECT_OK /\ view_ok (as_view v') /\ levels (as_view v') = [db_coins sample_db; db_coins sample_db] /\ hashBlock v'.1 = example_hash 101.
Proof.
  split; [vm_compute; reflexivity|].
  apply (connected_block_disconnects ex_Hash (fun _ => false) sample_verify (fun h _ => h) (fun _ _ => true) id (fun _ => None) 5000 sample_params sample_others
    ex_roots no_mints sample_index sample_pindex
    LOCKTIME_VERIFY_SEQUENCE (Z.lor SCRIPT_VERIFY_P2SH SCRIPT_VERIFY_WITNESS) false true false sample_valid_key sample_decompress
    sample_block false sample_view ∅ sample_progress (example_hash 101) [206; 226; 202; 255] [1; 2; 3] [7; 8] true true).
  - lia.
  - exact ex_Hash_length.
  - exact sample_decompress_key.
  - vm_compute. reflexivity.
  - exact sample_at_tip.
  - split; [done|]. change (vtx sample_block) with sample_vtx. unfold disk_shape, is_byte, in_u. repeat constructor; cbn; try done; try lia.
  - rewrite sample_coins. intros o c. cbn [db_coins sample_db]. rewrite lookup_singleton_Some. intros [_ <-]. unfold disk_shape, is_byte, in_u. by repeat constructor.
  - exact sample_connects.
Defined.


Lemma ConnectBlock_keeps_set_ok_witness : map_Forall (fun _ c => coin_good 2 c /\ coin_in_money c) (coins (as_view (pr_view sample_progress))).
Proof.
  apply (ConnectBlock_keeps_set_ok ex_Hash (fun _ => false) sample_verify (fun h _ => h) (fun _ _ => true) id (fun _ => None) 5000 sample_params sample_others
    ex_roots no_mints sample_index sample_pindex
    LOCKTIME_VERIFY_SEQUENCE (Z.lor SCRIPT_VERIFY_P2SH SCRIPT_VERIFY_WITNESS) false true false sample_block false sample_view ∅ sample_progress sample_at_tip).
  - rewrite sample_coins. intros o c. cbn [db_coins sample_db]. rewrite lookup_singleton_Some. by intros [_ <-].
  - exact sample_connects.
Defined.

Lemma ConnectBlock_scripts_pass_witness :
  Forall2 (fun tx spent => scripts_pass sample_verify (Z.lor SCRIPT_VERIFY_P2SH SCRIPT_VERIFY_WITNESS) tx spent \/
      ComputeWitnessHash ex_Hash tx ∈ (∅ : gset uint256))
    [sample_spend; sample_burn] [[Coin_of (example_out 70) 1 false]; [Coin_of (example_out 60) 2 false]].
Proof.
  pose proof (ConnectBlock_scripts_pass ex_Hash (fun _ => false) sample_verify (fun h _ => h) (fun _ _ => true) id (fun _ => None) 5000 sample_params sample_others
    ex_roots no_mints sample_index sample_pindex
    LOCKTIME_VERIFY_SEQUENCE (Z.lor SCRIPT_VERIFY_P2SH SCRIPT_VERIFY_WITNESS) false true false sample_block false sample_view ∅ sample_progress
    sample_at_tip sample_connects eq_refl eq_refl) as H. exact H.
Defined.
