(* ===== verification/ScriptPolicy.v ===== *)
(** * Scripts in the memory pool and in blocks ([CScriptCheck], [GetBlockScriptFlags] and the
    script checks of [MemPoolAccept] in src/src/validation.cpp, src/src/policy/policy.h)

    A transaction enters the memory pool after its scripts pass under the standard flags, and
    they are run again under the flags of the tip; a block is connected under the flags its
    height and hash give.  Here the checks of [ConnectBlock.v] are those of the interpreter.

    Shown here: a check of an input never fails an assertion; what passes under the standard
    flags passes under the flags of any block, so the report the code asks for when it does not
    is never written; and what a connected block has been checked for. *)

From stdpp Require Import strings.
From S2P Require Import Prelude Serialize Amounts ArithUint256 Chain Pow Merkle Script Rlp Transaction AuxPow Coins TxVerify Bridge AssetConsensus Supply.
From S2P Require Import Interpreter SoftForks ScriptSafety SigHash KeyHash ConnectBlock.

Open Scope Z_scope.

(** ** Flags *)

Definition MANDATORY_SCRIPT_VERIFY_FLAGS : Z :=
  foldr Z.lor 0 [SCRIPT_VERIFY_P2SH; SCRIPT_VERIFY_DERSIG; SCRIPT_VERIFY_NULLDUMMY; SCRIPT_VERIFY_CHECKLOCKTIMEVERIFY;
                 SCRIPT_VERIFY_CHECKSEQUENCEVERIFY; SCRIPT_VERIFY_WITNESS; SCRIPT_VERIFY_TAPROOT].

Definition STANDARD_SCRIPT_VERIFY_FLAGS : Z :=
  foldr Z.lor MANDATORY_SCRIPT_VERIFY_FLAGS
    [SCRIPT_VERIFY_STRICTENC; SCRIPT_VERIFY_MINIMALDATA; SCRIPT_VERIFY_DISCOURAGE_UPGRADABLE_NOPS; SCRIPT_VERIFY_CLEANSTACK;
     SCRIPT_VERIFY_MINIMALIF; SCRIPT_VERIFY_NULLFAIL; SCRIPT_VERIFY_LOW_S; SCRIPT_VERIFY_DISCOURAGE_UPGRADABLE_WITNESS_PROGRAM;
     SCRIPT_VERIFY_WITNESS_PUBKEYTYPE; SCRIPT_VERIFY_CONST_SCRIPTCODE; SCRIPT_VERIFY_DISCOURAGE_UPGRADABLE_TAPROOT_VERSION;
     SCRIPT_VERIFY_DISCOURAGE_OP_SUCCESS; SCRIPT_VERIFY_DISCOURAGE_UPGRADABLE_PUBKEYTYPE].

(** The parameters of a chain that [GetBlockScriptFlags] reads. *)
Record ScriptParams := {
  script_flag_exceptions : gmap uint256 Z;
  BIP65Height : Z;
  BIP66Height : Z;
  CSVHeight : Z;
  SegwitHeight : Z;
}.

Definition GetBlockScriptFlags (params : ScriptParams) (hash : uint256) (height : Z) : Z :=
  let flags :=
    default (Z.lor (Z.lor SCRIPT_VERIFY_P2SH SCRIPT_VERIFY_WITNESS) SCRIPT_VERIFY_TAPROOT) (script_flag_exceptions params !! hash) in
  let flags := if BIP66Height params <=? height then Z.lor flags SCRIPT_VERIFY_DERSIG else flags in
  let flags := if BIP65Height params <=? height then Z.lor flags SCRIPT_VERIFY_CHECKLOCKTIMEVERIFY else flags in
  let flags := if CSVHeight params <=? height then Z.lor flags SCRIPT_VERIFY_CHECKSEQUENCEVERIFY else flags in
  if SegwitHeight params <=? height then Z.lor flags SCRIPT_VERIFY_NULLDUMMY else flags.

(** ** [CScriptCheck::operator()] *)

Section Checks.
Context {C : Crypto} {SS : SignatureScheme}.

(** With the hashes that [CheckInputScripts] has prepared for all the checks of a transaction,
    which depend on the transaction and the spent outputs only.  The code asks the cache of
    signatures first, which changes no answer (file SigHash). *)
Definition CScriptCheck_run (c : CScriptCheck) : outcome () :=
  txdata ← asserted (Init no_txdata (ptxTo c) (check_spent c) false);
  i ← asserted (vin (ptxTo c) !! nIn c);
  VerifyScript (H0 := TransactionSignatureChecker (ptxTo c) (nIn c) (nValue (m_tx_out c)) (Some txdata) ASSERT_FAIL)
    (scriptSig i) (scriptPubKey (m_tx_out c)) (scriptWitness i) (nFlags c).

Definition verify (c : CScriptCheck) : bool := is_ok (CScriptCheck_run c).

(** ** The script checks of the memory pool *)

Variable cache_key : uint256 -> Z -> uint256.
Variable discards : gset uint256 -> uint256 -> bool.
Variable Hash : bytes -> uint256.

Abbreviation CheckInputScripts := (ConnectBlock.CheckInputScripts verify cache_key discards Hash).

(** Whether scripts pass, the reason aside. *)
Definition passes (tx : CTransaction) (view : cached) (flags : Z) (scripts : gset uint256) : result failure bool :=
  match CheckInputScripts tx view flags false false scripts with
  | Ok _ => Ok true
  | Throw (Invalid _ _) => Ok false
  | Throw e => Throw e
  end.

(** The cache of scripts and the view after it. *)
Definition PolicyScriptChecks (tx : CTransaction) (m_view : cached) (scripts : gset uint256) : result failure (gset uint256 * cached) :=
  let scriptVerifyFlags := STANDARD_SCRIPT_VERIFY_FLAGS in
  match CheckInputScripts tx m_view scriptVerifyFlags false false scripts with
  | Ok (_, scripts, m_view) => Ok (scripts, m_view)
  | Throw (Invalid r reason) =>
      stripped ←
        (if HasWitness tx then Ok false
         else
           without ← passes tx m_view (Z.ldiff scriptVerifyFlags (Z.lor SCRIPT_VERIFY_WITNESS SCRIPT_VERIFY_CLEANSTACK)) scripts;
           if (without : bool) then
             only_clean ← passes tx m_view (Z.ldiff scriptVerifyFlags SCRIPT_VERIFY_CLEANSTACK) scripts;
             Ok (negb only_clean)
           else Ok false);
      Throw (Invalid (if (stripped : bool) then TX_WITNESS_STRIPPED else r) reason)
  | Throw e => Throw e
  end.

(** The first loop of [CheckInputsFromMempoolAndCache]: the coins of the view are those of the
    memory pool or of the tip.  [None] is [return false]. *)
Fixpoint coins_agree (ins : list CTxIn) (view : cached) (pool : gmap uint256 CTransaction) (coins_tip : cached)
  : result failure (option (cached * cached)) :=
  match ins with
  | [] => Ok (Some (view, coins_tip))
  | txin :: ins =>
      let '(coin, view) := AccessCoin view (prevout txin) in
      if IsSpent coin then Ok None
      else
        match pool !! op_hash (prevout txin) with
        | Some txFrom =>
            guard! bool_decide (ComputeHash Hash txFrom = op_hash (prevout txin)) else Raised "assert";
            guard! op_n (prevout txin) <? Z.of_nat (length (vout txFrom)) else Raised "assert";
            guard! bool_decide (vout txFrom !! Z.to_nat (op_n (prevout txin)) = Some (coin_out coin)) else Raised "assert";
            coins_agree ins view pool coins_tip
        | None =>
            let '(coinFromUTXOSet, coins_tip) := AccessCoin coins_tip (prevout txin) in
            guard! negb (IsSpent coinFromUTXOSet) else Raised "assert";
            guard! bool_decide (coin_out coinFromUTXOSet = coin_out coin) else Raised "assert";
            coins_agree ins view pool coins_tip
        end
  end.

(** The views and the cache of scripts, if it returns true. *)
Definition CheckInputsFromMempoolAndCache (tx : CTransaction) (view : cached) (pool : gmap uint256 CTransaction) (flags : Z) (coins_tip : cached)
  (scripts : gset uint256) : result failure (option (gset uint256 * cached * cached)) :=
  guard! negb (IsCoinBase tx) else Raised "assert";
  agreed ← coins_agree (vin tx) view pool coins_tip;
  match agreed with
  | None => Ok None
  | Some (view, coins_tip) =>
      match CheckInputScripts tx view flags true false scripts with
      | Ok (_, scripts, view) => Ok (Some (scripts, view, coins_tip))
      | Throw (Invalid _ _) => Ok None
      | Throw e => Throw e
      end
  end.

(** [None] is the report of a bug and [Assume(false)]. *)
Definition ConsensusScriptChecks (params : ScriptParams) (tip : uint256) (height : Z) (tx : CTransaction) (m_view : cached)
  (pool : gmap uint256 CTransaction) (coins_tip : cached) (scripts : gset uint256) : result failure (option (gset uint256 * cached * cached)) :=
  CheckInputsFromMempoolAndCache tx m_view pool (GetBlockScriptFlags params tip height) coins_tip scripts.
End Checks.

(** ** The flags of a block are standard *)

Lemma flag_set_lor a b f : flag_set (Z.lor a b) f = flag_set a f || flag_set b f.
Proof.
  unfold flag_set. rewrite Z.land_lor_distr_l. destruct (Z.eqb_spec (Z.land a f) 0) as [->|Ha]; [done|]. cbn [negb orb].
  destruct (Z.eqb_spec (Z.lor (Z.land a f) (Z.land b f)) 0) as [E|]; [|done]. by apply Z.lor_eq_0_iff in E as [? _].
Qed.

Lemma flags_le_lor_l a b c : flags_le a c -> flags_le b c -> flags_le (Z.lor a b) c.
Proof. intros Ha Hb f. rewrite flag_set_lor. intros [?|?]%orb_true_iff; auto. Qed.

(** The bits of [a] are among those of [c]. *)
Lemma flags_le_land a c : Z.land a c = a -> flags_le a c.
Proof.
  intros E f. unfold flag_set. rewrite !negb_true_iff, !Z.eqb_neq. intros Ha Hc. apply Ha. rewrite <- E, <- Z.land_assoc, Hc. apply Z.land_0_r.
Qed.

(** The exceptions of a chain name flags that are standard and go together. *)
Definition exceptions_ok (params : ScriptParams) : Prop :=
  map_Forall (fun _ flags => Z.land flags STANDARD_SCRIPT_VERIFY_FLAGS = flags /\ consistent flags = true) (script_flag_exceptions params).

(** Adding one of the flags that are activated by height. *)
Lemma activate_ok (b : bool) flags f :
  Z.land f STANDARD_SCRIPT_VERIFY_FLAGS = f ->
  flag_set f SCRIPT_VERIFY_WITNESS = false -> flag_set f SCRIPT_VERIFY_P2SH = false -> flag_set f SCRIPT_VERIFY_CLEANSTACK = false ->
  flags_le flags STANDARD_SCRIPT_VERIFY_FLAGS /\ consistent flags = true ->
  let flags' := if b then Z.lor flags f else flags in flags_le flags' STANDARD_SCRIPT_VERIFY_FLAGS /\ consistent flags' = true.
Proof.
  intros Hf H1 H2 H3 [Hle Hc]. destruct b; [|done]. cbn zeta. split; [apply flags_le_lor_l; [done|by apply flags_le_land]|].
  unfold consistent in *. rewrite !flag_set_lor, H1, H2, H3, !orb_false_r. done.
Qed.

Lemma GetBlockScriptFlags_ok params hash height :
  exceptions_ok params ->
  flags_le (GetBlockScriptFlags params hash height) STANDARD_SCRIPT_VERIFY_FLAGS /\ consistent (GetBlockScriptFlags params hash height) = true.
Proof.
  intros Hex. unfold GetBlockScriptFlags. cbn zeta. do 4 (apply activate_ok; [reflexivity..|]).
  destruct (script_flag_exceptions params !! hash) as [f|] eqn:E; cbn [default].
  - destruct (Hex _ _ E) as [Hf Hc]. split; [by apply flags_le_land|done].
  - split; [by apply flags_le_land|reflexivity].
Qed.

Section Policy.
Context {C : Crypto} {SS : SignatureScheme}.

(** ** A check never fails an assertion *)

(** C9: The check of an input fails no assertion.  For every input of a transaction of byte
    strings that spends outputs with amounts that are not negative, and flags that go
    together, what [Init] has prepared is all the check will ask for: also for a Taproot
    spend, where the hashes of the spent amounts and scripts are needed, in consensus mode. *)
Theorem CScriptCheck_never_asserts {CS : CryptoSizes} c i :
  vin (ptxTo c) !! nIn c = Some i -> check_spent c !! nIn c = Some (m_tx_out c) -> length (check_spent c) = length (vin (ptxTo c)) ->
  0 <= nValue (m_tx_out c) -> consistent (nFlags c) = true ->
  Forall is_byte (scriptSig i) -> Forall is_byte (scriptPubKey (m_tx_out c)) -> witness_ok (scriptWitness i) ->
  CScriptCheck_run c <> Throw Aborts.
Proof.
  intros Hi Ho Hlen Hv Hf Hsig Hpk Hw. unfold CScriptCheck_run.
  assert (is_Some (Init no_txdata (ptxTo c) (check_spent c) false)) as [d HI].
  { unfold Init. cbn [m_spent_outputs_ready no_txdata]. rewrite Hlen, Nat.eqb_refl, andb_false_r. case_match. by eexists. }
  rewrite HI, Hi. cbn [asserted mbind result_bind]. intros E.
  pose proof (VerifyScript_safe (KO := TransactionSignatureChecker_ok (ptxTo c) (nIn c) i (m_tx_out c) (check_spent c) d Hi Ho HI Hv)
    (scriptSig i) (scriptPubKey (m_tx_out c)) (scriptWitness i) (nFlags c) Hsig Hpk Hw Hf id) as Hs.
  by rewrite E in Hs.
Qed.

(** The same check under fewer flags. *)
Definition with_flags (c : CScriptCheck) (flags : Z) : CScriptCheck :=
  {| m_tx_out := m_tx_out c; ptxTo := ptxTo c; nIn := nIn c; nFlags := flags; check_spent := check_spent c |}.

Lemma verify_mono c flags : flags_le flags (nFlags c) -> consistent flags = true -> verify c = true -> verify (with_flags c flags) = true.
Proof.
  intros Hle Hc. unfold verify, CScriptCheck_run. cbn [with_flags ptxTo check_spent nIn m_tx_out nFlags].
  destruct (Init _ _ _ _) as [d|]; [|done]. destruct (vin (ptxTo c) !! nIn c) as [i|]; [|done]. cbn [asserted mbind result_bind].
  destruct (VerifyScript _ _ _ (nFlags c)) as [[]|] eqn:E; [|done]. by rewrite (VerifyScript_mono _ _ _ _ _ Hle Hc E).
Qed.

Lemma script_checks_mono tx A B outs :
  flags_le A B -> consistent A = true ->
  Forall (fun c => verify c = true) (script_checks tx B outs) -> Forall (fun c => verify c = true) (script_checks tx A outs).
Proof.
  intros Hle Hc HF. apply Forall_lookup. intros k c. unfold script_checks in *. rewrite list_lookup_imap. intros (o & Ho & ->)%fmap_Some_1.
  rewrite Forall_lookup in HF. specialize (HF k _ ltac:(rewrite list_lookup_imap, Ho; reflexivity)).
  by apply (verify_mono {| m_tx_out := o; ptxTo := tx; nIn := k; nFlags := B; check_spent := outs |} A).
Qed.

(** ** The memory pool *)

Variable cache_key : uint256 -> Z -> uint256.
Variable discards : gset uint256 -> uint256 -> bool.
Variable Hash : bytes -> uint256.

(** The coins the inputs spend are those of the memory pool or of the tip. *)
Definition inputs_agree (tx : CTransaction) (m mt : gmap COutPoint Coin) (pool : gmap uint256 CTransaction) : Prop :=
  Forall (fun i => exists c, m !! prevout i = Some c /\
    match pool !! op_hash (prevout i) with
    | Some txFrom => ComputeHash Hash txFrom = op_hash (prevout i) /\ op_n (prevout i) < Z.of_nat (length (vout txFrom)) /\
                     vout txFrom !! Z.to_nat (op_n (prevout i)) = Some (coin_out c)
    | None => exists c', mt !! prevout i = Some c' /\ coin_out c' = coin_out c
    end) (vin tx).

Lemma coins_agree_shows ins v m below vt mt belowt pool :
  shows v m below -> shows vt mt belowt ->
  Forall (fun i => exists c, m !! prevout i = Some c /\
    match pool !! op_hash (prevout i) with
    | Some txFrom => ComputeHash Hash txFrom = op_hash (prevout i) /\ op_n (prevout i) < Z.of_nat (length (vout txFrom)) /\
                     vout txFrom !! Z.to_nat (op_n (prevout i)) = Some (coin_out c)
    | None => exists c', mt !! prevout i = Some c' /\ coin_out c' = coin_out c
    end) ins ->
  exists v' vt', coins_agree Hash ins v pool vt = Ok (Some (v', vt')) /\ shows v' m below.
Proof.
  intros Hv Hvt HF. revert v vt Hv Hvt. induction HF as [|i ins (c & Hc & Hi) _ IH]; intros v vt Hv Hvt; [by eexists _, _|]. cbn [coins_agree].
  destruct (shows_access v m below (prevout i) Hv) as (c1 & v1 & -> & Hu & Hv1). rewrite Hc in Hu. apply unspent_is_Some in Hu as [-> ->].
  destruct (pool !! op_hash (prevout i)) as [txFrom|].
  - destruct Hi as (Eh & En & Eo). rewrite !bool_decide_true by done. destruct (Z.ltb_spec (op_n (prevout i)) (Z.of_nat (length (vout txFrom)))); [|lia].
    by apply IH.
  - destruct Hi as (c' & Hc' & Eo). destruct (shows_access vt mt belowt (prevout i) Hvt) as (c2 & vt2 & -> & Hu2 & Hvt2). rewrite Hc' in Hu2.
    apply unspent_is_Some in Hu2 as [-> ->]. rewrite bool_decide_true by done. cbn [negb]. by apply IH.
Qed.

Lemma inputs_agree_coins tx m mt pool : inputs_agree tx m mt pool -> exists cs, input_coins (vin tx) m = Some cs.
Proof.
  unfold inputs_agree, input_coins. intros HF.
  assert (is_Some (mapM (fun i => m !! prevout i) (vin tx))) as [cs Hcs]; [|by exists cs].
  apply mapM_is_Some_2. eapply Forall_impl; [exact HF|]. intros i (c & Hc & _). by exists c.
Qed.

Lemma CheckInputScripts_in_turn tx v flags store scripts chk sc v' :
  ConnectBlock.CheckInputScripts verify cache_key discards Hash tx v flags store false scripts = Ok (chk, sc, v') -> chk = [].
Proof.
  unfold ConnectBlock.CheckInputScripts. destruct (IsCoinBase tx); [by intros [= <-]|]. case_bool_decide; [by intros [= <-]|].
  intros ([outs v1] & _ & E)%bind_ok. case_match; [|done]. apply bind_ok in E as (u & _ & E). by injection E.
Qed.

(** C10: The report of a bug is never written.  When the scripts of a transaction have passed
    the checks of the memory pool, under the standard flags, and the coins it spends are those
    of the pool or the tip, then checking them again under the flags of the tip succeeds,
    whatever its height and hash: the branch of the code that reports a bug is dead.  The
    standard flags are never a key of the cache of script executions. *)
Theorem policy_then_consensus params tip height tx v m below vt mt belowt pool scripts scripts' v' :
  exceptions_ok params -> shows v m below -> shows vt mt belowt -> inputs_agree tx m mt pool -> IsCoinBase tx = false ->
  cache_key (ComputeWitnessHash Hash tx) STANDARD_SCRIPT_VERIFY_FLAGS ∉ scripts ->
  PolicyScriptChecks cache_key discards Hash tx v scripts = Ok (scripts', v') ->
  exists r, ConsensusScriptChecks cache_key discards Hash params tip height tx v' pool vt scripts' = Ok (Some r).
Proof.
  intros Hex Hv Hvt Hagree Hcb Hkey Hpol. destruct (inputs_agree_coins _ _ _ _ Hagree) as [cs Hcs].
  destruct (GetBlockScriptFlags_ok params tip height Hex) as [Hle Hcons].
  pose proof (CheckInputScripts_shows Hash verify cache_key discards STANDARD_SCRIPT_VERIFY_FLAGS false tx v m below cs false scripts Hv Hcb Hcs) as Hstd.
  unfold PolicyScriptChecks in Hpol. destruct (ConnectBlock.CheckInputScripts _ _ _ _ _ _ _ _ _ _) as [[[chk sc] v1]|e] eqn:Hrun.
  2: { destruct e; [|done]. by apply bind_ok in Hpol as (b & _ & Hpol). }
  injection Hpol as -> ->. destruct Hstd as (Hv1 & Hsc & Hpass).
  apply CheckInputScripts_in_turn in Hrun as ->. destruct (proj1 Hpass (Forall_nil_2 _)) as [Hstd|]; [|done].
  pose proof (script_checks_mono tx _ _ (coin_out <$> cs) Hle Hcons Hstd) as Hblock.
  unfold ConsensusScriptChecks, CheckInputsFromMempoolAndCache. rewrite Hcb. cbn [negb].
  destruct (coins_agree_shows (vin tx) v' m below vt mt belowt pool Hv1 Hvt Hagree) as (v2 & vt2 & -> & Hv2). cbn [mbind result_bind].
  pose proof (CheckInputScripts_shows Hash verify cache_key discards (GetBlockScriptFlags params tip height) true tx v2 m below cs false scripts' Hv2 Hcb Hcs) as Hc.
  destruct (ConnectBlock.CheckInputScripts _ _ _ _ _ _ _ _ _ _) as [[[chk2 sc2] v3]|e]; [by eexists|].
  destruct Hc as (_ & _ & Hn). destruct Hn. by left.
Qed.
End Policy.

(** ** Blocks *)

(** What a passed check of an output that pays to the hash of a key has shown: a signature
    under a key with that hash, for this transaction and this input. *)
Lemma keyhash_check {C : Crypto} {SS : SignatureScheme} c i h :
  vin (ptxTo c) !! nIn c = Some i -> scriptPubKey (m_tx_out c) = 0 :: 20 :: h -> length h = 20%nat ->
  flag_set (nFlags c) SCRIPT_VERIFY_WITNESS = true -> verify c = true ->
  exists sig hashType pubkey sighash,
    scriptWitness i = [(sig ++ [hashType])%list; pubkey] /\ hash160 pubkey = h /\
    SignatureHash (P2PKH_script h) (ptxTo c) (nIn c) hashType (nValue (m_tx_out c)) WITNESS_V0 None = Some sighash /\
    ECDSA_Verify pubkey sighash sig = true.
Proof.
  intros Hi Hs Hh Hw. unfold verify, CScriptCheck_run. rewrite Hs.
  destruct (Init _ _ _ _) as [d|] eqn:HI; [|done]. rewrite Hi. cbn [asserted mbind result_bind].
  destruct (VerifyScript _ _ _ _) as [[]|] eqn:E; [|done]. intros _.
  destruct (program_scriptSig _ _ 0 h _ _ (IsWitnessProgram_keyhash h Hh) Hw E) as [Hsig Hf]. rewrite Hsig in E.
  apply keyhash_accepts in E as [_ (vchSig & pubkey & Hwit & _ & _ & Hkey & _ & _ & Hcheck)]; [|done..].
  cbn [CheckECDSASignature TransactionSignatureChecker] in Hcheck. unfold Generic_CheckECDSASignature in Hcheck.
  destruct (CPubKey_IsValid pubkey); [|done]. destruct vchSig as [|hashType sig _] using rev_ind; [done|]. rewrite last_snoc in Hcheck.
  rewrite length_app in Hcheck. cbn [length negb] in Hcheck. rewrite Nat.add_sub, take_app_length in Hcheck.
  case_match; [by destruct (HandleMissingData ASSERT_FAIL) eqn:?|].
  rewrite (SignatureHash_cached _ _ _ _ _ _ _ _ _ HI) in Hcheck. apply bind_Some in Hcheck as (sighash & Hh' & [= Hv]).
  by exists sig, hashType, pubkey, sighash.
Qed.

Section Blocks.
Context {C : Crypto} {SS : SignatureScheme} {U : Type} `{AU : ArithUint U}.
Variable Hash : bytes -> uint256.
Variable CheckSignetBlockSolution : CBlock -> bool.
Variable cache_key : uint256 -> Z -> uint256.
Variable discards : gset uint256 -> uint256 -> bool.
Variable sha3 : bytes -> bytes.
Variable destination : bytes -> option bytes.
Variable batch : Z.
Variable params : ChainParams.
Variable others : Others.
Variable roots : CNEVMTxRootsDB.
Variable minted : CNEVMMintedTxDB.
Variable index : gmap ptr (CBlockIndex (U := U)).
Variable pindex : ptr.
Variable nLockTimeFlags flags : Z.
Variable parallel_script_checks : bool.

(** C7: Coins of native witness key hash outputs move only with a signature.  Take a block on
    top of the tip, from the height of the Nexus rules on (all conditions of the record [at_tip]), that is connected with
    script checks on (fScriptChecks) and under flags with [SCRIPT_VERIFY_WITNESS].  A coin it
    spends whose script is OP_0 and a push of 20 bytes was spent by an input whose witness is a
    signature and a key with that hash, and the signature verifies under that key for the
    signature hash of the spending transaction, input and amount.  It holds whether the checks
    ran in place or by the queue; transactions that the cache of script executions knew are
    excepted, and outputs to a key hash of another form (P2PKH, or inside P2SH) are not part of
    the claim. *)
Theorem keyhash_coins_need_signatures block fChecked v scripts p k tx spent j i c h :
  at_tip Hash params index pindex flags false block fChecked v ->
  ConnectBlock Hash CheckSignetBlockSolution verify cache_key discards sha3 destination batch params others roots minted index pindex
    nLockTimeFlags flags false true parallel_script_checks block fChecked v scripts = Ok p ->
  flag_set flags SCRIPT_VERIFY_WITNESS = true ->
  drop 1 (vtx block) !! k = Some tx -> vtxundo p !! k = Some spent -> cache_key (ComputeWitnessHash Hash tx) flags ∉ scripts ->
  vin tx !! j = Some i -> spent !! j = Some c -> scriptPubKey (coin_out c) = 0 :: 20 :: h -> length h = 20%nat ->
  exists sig hashType pubkey sighash,
    scriptWitness i = [(sig ++ [hashType])%list; pubkey] /\ hash160 pubkey = h /\
    SignatureHash (P2PKH_script h) tx j hashType (nValue (coin_out c)) WITNESS_V0 None = Some sighash /\
    ECDSA_Verify pubkey sighash sig = true.
Proof.
  intros Htip Hr Hw Htx Hsp Hkey Hi Hc Hs Hh.
  pose proof (connected_scripts_pass _ _ _ _ _ _ _ _ _ _ _ _ _ _ _ _ _ _ _ _ _ _ _ _ Htip Hr eq_refl eq_refl) as HF.
  destruct (Forall2_lookup_lr _ _ _ _ _ _ HF Htx Hsp) as [Hpass|]; [|done].
  unfold scripts_pass, script_checks in Hpass. rewrite Forall_lookup in Hpass.
  specialize (Hpass j _ ltac:(rewrite list_lookup_imap, list_lookup_fmap, Hc; reflexivity)).
  by eapply (keyhash_check _ i h) in Hpass.
Qed.
End Blocks.

(** ** A coin that a key hash locks, and the block that spends it *)

Definition key_hash : bytes := hash160 (H := sample_crypto) sample_key.
Definition key_out (value : Z) : CTxOut :=
  {| nValue := value; scriptPubKey := 0 :: 20 :: key_hash; assetInfo := CAssetCoinInfo_null; vchNEVMData := [] |}.

Definition key_input (witness : list bytes) : CTxIn :=
  {| prevout := {| op_hash := example_hash 9; op_n := 3 |}; scriptSig := []; nSequence := SEQUENCE_FINAL; scriptWitness := witness |}.
Definition key_spend (witness : list bytes) : CTransaction :=
  {| vin := [key_input witness]; vout := [example_out 60]; nVersion := 2; nLockTime := 0 |}.

(** The key signs the hash that the spend without its witness has. *)
Definition key_sighash : uint256 :=
  default [] (SignatureHash (C := sample_crypto) (P2PKH_script key_hash) (key_spend []) 0 SIGHASH_ALL 70 WITNESS_V0 None).
Definition key_witness : list bytes := [(sample_signature (byte_at key_sighash 0 / 2) ++ [SIGHASH_ALL])%list; sample_key].
Definition key_tx : CTransaction := key_spend key_witness.

Definition key_check : CScriptCheck :=
  {| m_tx_out := key_out 70; ptxTo := key_tx; nIn := 0; nFlags := STANDARD_SCRIPT_VERIFY_FLAGS; check_spent := [key_out 70] |}.

Lemma CScriptCheck_never_asserts_witness : CScriptCheck_run (C := sample_crypto) (SS := sample_scheme) key_check <> Throw Aborts.
Proof.
  apply (CScriptCheck_never_asserts (C := sample_crypto) (SS := sample_scheme) (CS := sample_sizes) key_check (key_input key_witness)).
  - vm_compute. reflexivity.
  - reflexivity.
  - reflexivity.
  - discriminate.
  - reflexivity.
  - constructor.
  - apply byte_list_ok. vm_compute. reflexivity.
  - split; [|vm_compute; reflexivity]. constructor; [|constructor; [|constructor]]; apply byte_list_ok; vm_compute; reflexivity.
Defined.

Definition key_db : CCoinsViewDB :=
  {| db_coins := {[ {| op_hash := example_hash 9; op_n := 3 |} := Coin_of (key_out 70) 1 false ]};
     db_best_block := Some (example_hash 101); db_head_blocks := [] |}.
Definition key_view : cached := new_cache (ViewDB key_db).

Lemma key_view_ok : view_ok (as_view key_view).
Proof. apply view_ok_new_cache. intros o c. cbn [db_coins key_db]. rewrite lookup_singleton_Some. by intros [_ <-]. Qed.

Lemma key_view_shows : shows key_view (db_coins key_db) (backing_of (ViewDB key_db)).
Proof. split; [exact key_view_ok|done]. Qed.

(** A chain where the rules have been active from the start. *)
Definition key_params : ScriptParams := {| script_flag_exceptions := ∅; BIP65Height := 1; BIP66Height := 1; CSVHeight := 1; SegwitHeight := 0 |}.

Definition key_policy : gset uint256 * cached :=
  match PolicyScriptChecks (C := sample_crypto) (SS := sample_scheme) (fun h _ => h) (fun _ _ => true) ex_Hash key_tx key_view ∅ with
  | Ok r => r
  | Throw _ => (∅, key_view)
  end.

Lemma policy_then_consensus_witness :
  exists r, ConsensusScriptChecks (C := sample_crypto) (SS := sample_scheme) (fun h _ => h) (fun _ _ => true) ex_Hash key_params (example_hash 101) 2 key_tx key_policy.2 ∅
    key_view key_policy.1 = Ok (Some r).
Proof.
  apply (policy_then_consensus (C := sample_crypto) (SS := sample_scheme) (fun h _ => h) (fun _ _ => true) ex_Hash key_params (example_hash 101) 2 key_tx key_view
    (db_coins key_db) (backing_of (ViewDB key_db)) key_view (db_coins key_db) (backing_of (ViewDB key_db)) ∅ ∅).
  - intros h f. cbn [key_params script_flag_exceptions]. by rewrite lookup_empty.
  - exact key_view_shows.
  - exact key_view_shows.
  - constructor; [|constructor]. exists (Coin_of (key_out 70) 1 false). cbn [prevout]. split; [by apply lookup_singleton_Some|].
    rewrite lookup_empty. exists (Coin_of (key_out 70) 1 false). split; [by apply lookup_singleton_Some|done].
  - reflexivity.
  - apply not_elem_of_empty.
  - vm_compute. reflexivity.
Defined.

Definition key_block : CBlock := {| header := header sample_block; vtx := [sample_coinbase; key_tx]; vchNEVMBlockData := [] |}.
Definition key_flags : Z := Z.lor SCRIPT_VERIFY_P2SH SCRIPT_VERIFY_WITNESS.

Lemma key_at_tip : at_tip ex_Hash sample_params sample_index sample_pindex key_flags false key_block false key_view.
Proof.
  destruct sample_at_tip as [Hwf Hb Hh Hf Hn _ _ _ _ _ _]. split; try done.
  - by left.
  - by repeat constructor.
  - intros t t'. change (vtx key_block) with [sample_coinbase; key_tx]. rewrite !elem_of_cons, !elem_of_nil.
    intros [->|[->|[]]] [->|[->|[]]]; vm_compute; congruence.
  - exact key_view_ok.
  - intros o c. change (coins (as_view key_view)) with (db_coins key_db). cbn [db_coins key_db]. rewrite lookup_singleton_Some. intros [_ <-].
    assert (height sample_index sample_pindex = 2) as -> by (vm_compute; reflexivity). split_and!; cbn; try done. by left.
Qed.

Definition key_run : result block_failure progress :=
  ConnectBlock ex_Hash (fun _ => false) (verify (C := sample_crypto) (SS := sample_scheme)) (fun h _ => h) (fun _ _ => true) id (fun _ => None) 5000 sample_params
    sample_others ex_roots no_mints sample_index sample_pindex LOCKTIME_VERIFY_SEQUENCE key_flags false true true key_block false key_view ∅.
Definition key_progress : progress := match key_run with Ok p => p | Throw _ => ConnectBlock.start key_view ∅ end.

Lemma keyhash_coins_need_signatures_witness :
  exists sig hashType pubkey sighash,
    key_witness = [(sig ++ [hashType])%list; pubkey] /\ hash160 (H := sample_crypto) pubkey = key_hash /\
    SignatureHash (C := sample_crypto) (P2PKH_script key_hash) key_tx 0 hashType 70 WITNESS_V0 None = Some sighash /\
    ECDSA_Verify (SignatureScheme := sample_scheme) pubkey sighash sig = true.
Proof.
  refine (keyhash_coins_need_signatures (C := sample_crypto) (SS := sample_scheme) ex_Hash (fun _ => false) (fun h _ => h) (fun _ _ => true) id (fun _ => None) 5000
    sample_params sample_others ex_roots no_mints sample_index sample_pindex LOCKTIME_VERIFY_SEQUENCE key_flags true key_block false key_view ∅
    key_progress 0 key_tx [Coin_of (key_out 70) 1 false] 0 (key_input key_witness) (Coin_of (key_out 70) 1 false) key_hash
    key_at_tip _ _ _ _ _ _ _ _ _).
  - vm_compute. reflexivity.
  - reflexivity.
  - reflexivity.
  - vm_compute. reflexivity.
  - apply not_elem_of_empty.
  - vm_compute. reflexivity.
  - reflexivity.
  - reflexivity.
  - vm_compute. reflexivity.
Defined.
