(* ===== verification/Replay.v ===== *)
(** * Recovery after an interrupted write ([ReplayBlocks] and [RollforwardBlock] of
    src/src/validation.cpp, the batches of src/src/txdb.cpp)

    A flush of the coins goes to the database in batches, and a crash can leave some of them
    written; the database then names the block it came from and the block it was going to.
    At the next start [ReplayBlocks] disconnects the blocks of the old branch and applies those
    of the new one.  The markers of NEVM transactions that were minted from live in a database
    of their own, which is written before the coins and erased after them.

    Shown here: whatever part of a flush was written, [ReplayBlocks] gives the coins of the
    new tip; and however often the node crashes and at whatever point of a write, the coins on
    disk never hold a mint without its marker, so that no NEVM transaction is minted from
    twice. *)

From stdpp Require Import strings.
From S2P Require Import Prelude Serialize Amounts ArithUint256 Chain Script Rlp Transaction Coins TxVerify Bridge.

Open Scope string_scope.
Open Scope Z_scope.

(** ** The batches of a flush *)

Definition db_old_tip (db : CCoinsViewDB) : uint256 :=
  let old_tip := default uint256_null (db_best_block db) in
  if uint256_IsNull old_tip then match db_head_blocks db with [_; old] => old | _ => uint256_null end else old_tip.

(** The database after the batches with the first [k] entries, before the last one. *)
Definition db_partial (db : CCoinsViewDB) (mapCoins : CCoinsMap) (h : uint256) (k : nat) : CCoinsViewDB :=
  {| db_coins := foldl (fun m it => write_coin it m) (db_coins db) (take k (map_to_list mapCoins));
     db_best_block := None; db_head_blocks := [h; db_old_tip db] |}.

(** Whether the components that are not modelled undo and apply a block: [UndoSpecialTxsInBlock],
    [DisconnectNEVMCommitment], [ProcessSpecialTxsInBlock], [ProcessNEVMData] and
    [ConnectNEVMCommitment]. *)
Record Replayers := { special_undone : ptr -> bool; nevm_disconnected : ptr -> bool; special_processed : ptr -> bool; nevm_data_valid : ptr -> bool; nevm_connected : ptr -> bool }.

Definition undoes (o : Replayers) (p : ptr) : Prop := special_undone o p = true /\ nevm_disconnected o p = true.
Definition applies (o : Replayers) (p : ptr) : Prop := special_processed o p = true /\ nevm_data_valid o p = true /\ nevm_connected o p = true.

Section replay.
Context {U : Type}.
Variable GetHash : CTransaction -> uint256.
Variable batch : Z.
Variable index : gmap ptr (CBlockIndex (U := U)).
(** The transactions and the undo data that are on disk for a block. *)
Variable ReadBlockFromDisk : ptr -> option (list CTransaction).
Variable UndoReadFromDisk : ptr -> option (list (list Coin)).
Variable others : Replayers.

(** ** Rolling forward *)

Fixpoint spend_all (ins : list CTxIn) (v : cached) : cached :=
  match ins with
  | [] => v
  | txin :: ins => spend_all ins (SpendCoin v (prevout txin)).2
  end.

Fixpoint roll_txs (vtx : list CTransaction) (height : Z) (inputs : cached) (setMintTxs : NEVMMintTxSet) : result string (cached * NEVMMintTxSet) :=
  match vtx with
  | [] => Ok (inputs, setMintTxs)
  | tx :: vtx =>
      '(inputs, setMintTxs) ←
        (if negb (IsCoinBase tx) then
           setMintTxs ←
             (if IsSyscoinMintTx (nVersion tx) then
                let mintSyscoin := CMintSyscoin_of_tx batch tx in
                guard! negb (CMintSyscoin_IsNull mintSyscoin) else "invalid mint payload while replaying tx";
                Ok ({[ nTxHash mintSyscoin ]} ∪ setMintTxs)
              else Ok setMintTxs);
           Ok (spend_all (vin tx) inputs, setMintTxs)
         else Ok (inputs, setMintTxs));
      inputs ← AddCoins GetHash inputs tx height true;
      roll_txs vtx height inputs setMintTxs
  end.

Definition RollforwardBlock (pindex : ptr) (inputs : cached) (setMintTxs : NEVMMintTxSet) : result string (cached * NEVMMintTxSet) :=
  match index !! pindex, ReadBlockFromDisk pindex with
  | Some b, Some vtx =>
      guard! special_processed others pindex else "RollforwardBlock: ProcessSpecialTxsInBlock failed";
      guard! nevm_data_valid others pindex else "ReplayBlock(): poda-validation-failed";
      r ← roll_txs vtx (nHeight b) inputs setMintTxs;
      guard! nevm_connected others pindex else "RollforwardBlock(): ConnectNEVMCommitment() failed";
      Ok r
  | _, _ => Throw "ReplayBlock(): ReadBlockFromDisk failed"
  end.

(** The blocks from height [h] on, [n] of them. *)
Fixpoint rollforward (n : nat) (h : Z) (pindexNew : ptr) (inputs : cached) (setMintTxs : NEVMMintTxSet) : result string (cached * NEVMMintTxSet) :=
  match n with
  | O => Ok (inputs, setMintTxs)
  | S n =>
      match GetAncestor index pindexNew h with
      | Some (Some p) => '(inputs, setMintTxs) ← RollforwardBlock p inputs setMintTxs; rollforward n (h + 1) pindexNew inputs setMintTxs
      | _ => Throw "assert"
      end
  end.

(** ** Rolling back *)

(** What [DisconnectMintAsset] collects over a block. *)
Definition mint_of (tx : CTransaction) : option uint256 :=
  if IsSyscoinMintTx (nVersion tx) then
    let m := CMintSyscoin_of_tx batch tx in if CMintSyscoin_IsNull m then None else Some (nTxHash m)
  else None.
Definition disconnected_mints (vtx : list CTransaction) : NEVMMintTxSet := list_to_set (omap mint_of (drop 1 vtx)).

Definition rollback_block (p : ptr) (b : CBlockIndex (U := U)) (v : cached) (setMintTxs : NEVMMintTxSet) : result string (cached * NEVMMintTxSet) :=
  match ReadBlockFromDisk p, UndoReadFromDisk p with
  | None, _ => Throw "RollbackBlock(): ReadBlockFromDisk() failed"
  | _, None => Throw "RollbackBlock(): DisconnectBlock failed"
  | Some vtx, Some undo =>
      '(res, v) ← DisconnectBlock GetHash batch (special_undone others p) (nevm_disconnected others p) vtx undo (nHeight b) (default uint256_null (pprev b)) v;
      match res with
      | DISCONNECT_FAILED => Throw "RollbackBlock(): DisconnectBlock failed"
      | _ => Ok (v, disconnected_mints vtx ∪ setMintTxs)
      end
  end.

(** The height bounds the number of turns. *)
Fixpoint rollback (fuel : nat) (pindexOld pindexFork : option ptr) (v : cached) (setMintTxs : NEVMMintTxSet) : result string (cached * NEVMMintTxSet) :=
  if bool_decide (pindexOld = pindexFork) then Ok (v, setMintTxs) else
  match fuel, pindexOld with
  | S fuel, Some p =>
      match index !! p with
      | None => Throw "null pointer"
      | Some b =>
          '(v, setMintTxs) ← (if 0 <? nHeight b then rollback_block p b v setMintTxs else Ok (v, setMintTxs));
          rollback fuel (pprev b) pindexFork v setMintTxs
      end
  | _, _ => Throw "null pointer"
  end.

(** ** [ReplayBlocks] *)

Definition height_of (p : option ptr) : Z := match p ≫= (index !!.) with Some b => nHeight b | None => 0 end.

(** The old tip and the fork; both are null when the first flush was interrupted. *)
Definition replay_fork (new old : uint256) : result string (option ptr * option ptr) :=
  if uint256_IsNull old then Ok (None, None) else
  guard! bool_decide (is_Some (index !! old)) else "ReplayBlocks(): reorganization from unknown block requested";
  match LastCommonAncestor index old new with
  | Some (Some fork) => Ok (Some old, Some fork)
  | _ => Throw "assert"
  end.

(** The view with the blocks replayed, and the mints of the two branches. *)
Definition replay_coins (db : CCoinsViewDB) (new old : uint256) : result string (cached * NEVMMintTxSet * NEVMMintTxSet) :=
  guard! bool_decide (is_Some (index !! new)) else "ReplayBlocks(): reorganization to unknown block requested";
  '(pindexOld, pindexFork) ← replay_fork new old;
  '(cache, setMintTxsDisconnect) ← rollback (S (Z.to_nat (height_of pindexOld))) pindexOld pindexFork (new_cache (ViewDB db)) ∅;
  let nForkHeight := height_of pindexFork in
  '(cache, setMintTxsConnect) ← rollforward (Z.to_nat (height_of (Some new) - nForkHeight)) (nForkHeight + 1) new cache ∅;
  Ok (SetBestBlock cache new, setMintTxsDisconnect, setMintTxsConnect).

Definition ReplayBlocks (db : CCoinsViewDB) (minted : CNEVMMintedTxDB) : result string (view * CNEVMMintedTxDB) :=
  match db_head_blocks db with
  | [] => Ok (ViewDB db, minted)
  | [new; old] =>
      '(cache, setMintTxsDisconnect, setMintTxsConnect) ← replay_coins db new old;
      let setMintDisconnectOnly := setMintTxsDisconnect ∖ setMintTxsConnect in
      let minted := mint_FlushCacheToDisk (mint_FlushDataToCache minted setMintTxsConnect) in
      cache ← Flush cache;
      Ok (cache.2, mint_FlushErase minted setMintDisconnectOnly)
  | _ => Throw "ReplayBlocks(): unknown inconsistent state"
  end.
End replay.

(** ** Blind writes *)

(** Applying a block forwards or backwards writes and deletes coins without looking. *)
Abbreviation effect := (list (COutPoint * option Coin)).

Definition apply1 (w : COutPoint * option Coin) (m : gmap COutPoint Coin) : gmap COutPoint Coin :=
  match w.2 with Some c => <[w.1 := c]> m | None => delete w.1 m end.
Definition apply_all (e : effect) (m : gmap COutPoint Coin) : gmap COutPoint Coin := foldl (fun m w => apply1 w m) m e.

Lemma apply_app e1 e2 m : apply_all (e1 ++ e2)%list m = apply_all e2 (apply_all e1 m).
Proof. apply foldl_app. Qed.

Lemma apply1_eq w (m m' : gmap COutPoint Coin) o :
  (o <> w.1 -> m !! o = m' !! o) -> apply1 w m !! o = apply1 w m' !! o.
Proof.
  unfold apply1. destruct w as [k [c|]]; cbn [fst snd]; intros H; destruct (decide (o = k)) as [->|Hne].
  - by rewrite !lookup_insert_eq.
  - rewrite !lookup_insert_ne by done. auto.
  - by rewrite !lookup_delete_eq.
  - rewrite !lookup_delete_ne by done. auto.
Qed.

(** What is written does not depend on what was there. *)
Lemma apply_agree e (m m' : gmap COutPoint Coin) o : m !! o = m' !! o \/ o ∈ e.*1 -> apply_all e m !! o = apply_all e m' !! o.
Proof.
  revert m m'. induction e as [|w e IH]; intros m m' H; cbn [apply_all foldl]; [destruct H as [|?%not_elem_of_nil]; done|].
  apply IH. destruct (decide (o ∈ e.*1)) as [|Hn]; [by right|]. left. apply apply1_eq. intros Hne. destruct H as [|H]; [done|]. set_solver.
Qed.

Lemma apply_untouched e (m : gmap COutPoint Coin) o : o ∉ e.*1 -> apply_all e m !! o = m !! o.
Proof.
  revert m. induction e as [|w e IH]; intros m H; [done|]. change (apply_all (w :: e) m) with (apply_all e (apply1 w m)). rewrite fmap_cons in H.
  rewrite IH by set_solver. unfold apply1. destruct w as [k [c|]]; cbn [fst snd] in *; [rewrite lookup_insert_ne|rewrite lookup_delete_ne]; set_solver.
Qed.

(** A set that is partly one and partly the other is taken to the same place. *)
Lemma apply_mixed e m m' (db : gmap COutPoint Coin) :
  apply_all e m = m' -> (forall o, db !! o = m !! o \/ db !! o = m' !! o) -> apply_all e db = m'.
Proof.
  intros <- Hdb. apply map_eq. intros o. destruct (decide (o ∈ e.*1)) as [Ho|Ho]; [apply apply_agree; auto|].
  rewrite !apply_untouched by done. destruct (Hdb o) as [->| ->]; [done|]. by rewrite apply_untouched.
Qed.

(** *** Forwards *)

Section effects.
Variable GetHash : CTransaction -> uint256.
Variable batch : Z.

Fixpoint put_effect (height : Z) (tx : CTransaction) (i : Z) (outs : list CTxOut) : effect :=
  match outs with
  | [] => []
  | o :: outs => ((if IsUnspendable (scriptPubKey o) then [] else [(out_of GetHash tx i, Some (Coin_of o height (IsCoinBase tx)))]) ++
                  put_effect height tx (i + 1) outs)%list
  end.

Definition take_effect (ins : list CTxIn) : effect := (fun i => (prevout i, None)) <$> ins.

Definition tx_effect (height : Z) (tx : CTransaction) : effect :=
  ((if IsCoinBase tx then [] else take_effect (vin tx)) ++ put_effect height tx 0 (vout tx))%list.

Definition block_effect (height : Z) (vtx : list CTransaction) : effect := mjoin (tx_effect height <$> vtx).

Lemma apply_put height tx i outs m : apply_all (put_effect height tx i outs) m = put_outputs GetHash height tx i outs m.
Proof.
  revert i m. induction outs as [|o outs IH]; intros i m; cbn [put_effect put_outputs]; [done|]. rewrite apply_app, IH.
  rewrite <- put_outputs_comm by lia. f_equal. unfold put_output. by destruct (IsUnspendable _).
Qed.

Lemma apply_take ins m l m' : take_inputs ins m = Some (l, m') -> apply_all (take_effect ins) m = m'.
Proof.
  revert m l. induction ins as [|i ins IH]; intros m l; cbn [take_inputs]; [by intros [= _ <-]|].
  intros (c & Hc & ([l' m1] & H1 & [= _ <-])%bind_Some)%bind_Some. unfold take_effect. rewrite fmap_cons. cbn [apply_all foldl]. by eapply IH.
Qed.

Lemma apply_block_cons height tx vtx m :
  apply_all (block_effect height (tx :: vtx)) m =
  apply_all (block_effect height vtx) (apply_all (put_effect height tx 0 (vout tx)) (apply_all (if IsCoinBase tx then [] else take_effect (vin tx)) m)).
Proof.
  change (block_effect height (tx :: vtx)) with (tx_effect height tx ++ block_effect height vtx)%list. unfold tx_effect. by rewrite !apply_app.
Qed.

Lemma connects_effect height vtx first m ls m' :
  connects GetHash batch height vtx first m ls m' -> apply_all (block_effect height vtx) m = m'.
Proof.
  induction 1 as [|first tx vtx m l m1 ls m' Hcb _ Ht _ _ _ IH]; [done|].
  rewrite apply_block_cons, apply_put, Hcb. destruct first; [by injection Ht as _ <-|].
  by rewrite (apply_take _ _ _ _ Ht).
Qed.

(** Adding a coin after looking whether there is one. *)
Lemma shows_put v m below o c :
  shows v m below -> IsSpent c = false ->
  exists v' v1, HaveCoin v o = (bool_decide (is_Some (m !! o)), v1) /\ AddCoin v1 o c (bool_decide (is_Some (m !! o))) = Ok v' /\
    shows v' (if IsUnspendable (scriptPubKey (coin_out c)) then m else <[o := c]> m) below.
Proof.
  intros Hv Hc. destruct (shows_have v m below o Hv) as (v1 & Hh & Hv1).
  destruct (shows_add v1 m below o c (bool_decide (is_Some (m !! o))) Hv1 Hc) as (v' & Ha & Hv'); [|by exists v', v1].
  case_bool_decide as Hs; [by left|right]. by apply eq_None_not_Some.
Qed.

Lemma spend_all_shows ins v m below : shows v m below -> shows (spend_all ins v) (apply_all (take_effect ins) m) below.
Proof.
  revert v m. induction ins as [|i ins IH]; intros v m Hv; [done|]. cbn [spend_all]. unfold take_effect. rewrite fmap_cons.
  apply IH. by apply shows_delete.
Qed.

Lemma AddCoins_blind height tx i outs v m below :
  outs_fit outs -> shows v m below ->
  exists v', AddCoins_loop GetHash tx height true i outs v = Ok v' /\ shows v' (apply_all (put_effect height tx i outs) m) below.
Proof.
  intros Ho. revert i v m. induction Ho as [|o outs Hn _ IH]; intros i v m Hv; [by exists v|]. cbn [AddCoins_loop put_effect].
  destruct (shows_put v m below (out_of GetHash tx i) (Coin_of o height (IsCoinBase tx)) Hv Hn) as (v2 & v1 & -> & Ha & Hv2).
  rewrite Ha. cbn [mbind result_bind]. destruct (IH (i + 1) v2 _ Hv2) as (v3 & He & Hv3). exists v3. split; [done|].
  rewrite apply_app. cbn [Coin_of coin_out] in Hv3. by destruct (IsUnspendable _).
Qed.

Lemma roll_txs_blind height vtx v m below s :
  shows v m below -> Forall (fun tx => outs_fit (vout tx) /\ (IsCoinBase tx = false -> DisconnectSyscoinTransaction batch tx = true)) vtx ->
  exists v' s', roll_txs GetHash batch vtx height v s = Ok (v', s') /\ shows v' (apply_all (block_effect height vtx) m) below /\
    s' = s ∪ list_to_set (omap (mint_of batch) (filter (fun tx => IsCoinBase tx = false) vtx)).
Proof.
  intros Hv HF. revert v m s Hv. induction HF as [|tx vtx [Ho Hd] _ IH]; intros v m s Hv.
  { exists v, s. split_and!; [done|done|set_solver]. }
  cbn [roll_txs]. rewrite apply_block_cons.
  destruct (IsCoinBase tx) eqn:Hcb; cbn [negb mbind result_bind].
  - destruct (AddCoins_blind height tx 0 (vout tx) v m below Ho Hv) as (v1 & Ha & Hv1). unfold AddCoins. rewrite Ha. cbn [mbind result_bind].
    rewrite filter_cons_False by (by rewrite Hcb). by apply IH.
  - specialize (Hd eq_refl). rewrite filter_cons_True by done. cbn [omap list_omap]. unfold mint_of at 1. unfold DisconnectSyscoinTransaction in Hd.
    destruct (AddCoins_blind height tx 0 (vout tx) _ _ below Ho (spend_all_shows (vin tx) v m below Hv)) as (v1 & Ha & Hv1). unfold AddCoins.
    destruct (IsSyscoinMintTx _); [apply negb_true_iff in Hd; rewrite Hd|]; cbn [negb mbind result_bind]; rewrite Ha; cbn [mbind result_bind].
    + destruct (IH v1 _ ({[ nTxHash (CMintSyscoin_of_tx batch tx) ]} ∪ s) Hv1) as (v2 & s2 & -> & Hv2 & ->). eexists _, _. split_and!; [done|done|set_solver].
    + by apply IH.
Qed.

(** *** Backwards *)

Fixpoint unput_effect (tx : CTransaction) (i : Z) (outs : list CTxOut) : effect :=
  match outs with
  | [] => []
  | o :: outs => ((if IsUnspendable (scriptPubKey o) then [] else [(out_of GetHash tx i, None)]) ++ unput_effect tx (i + 1) outs)%list
  end.

Definition restore_effect (its : list (CTxIn * Coin)) : effect := (fun it => (prevout it.1, Some it.2)) <$> its.

Definition undo_effect (it : CTransaction * option (list Coin)) : effect :=
  (unput_effect it.1 0 (vout it.1) ++
   match it.2 with None => [] | Some l => restore_effect (rev (zip (vin it.1) l)) end)%list.

Definition undo_effects (its : list (CTransaction * option (list Coin))) : effect := mjoin (undo_effect <$> its).

Lemma spend_outputs_blind tx height i outs v m below fClean :
  shows v m below -> exists fc v', spend_outputs GetHash tx height i outs v fClean = (fc, v') /\ shows v' (apply_all (unput_effect tx i outs) m) below.
Proof.
  revert i v m fClean. induction outs as [|o outs IH]; intros i v m fClean Hv; [by exists fClean, v|]. cbn [spend_outputs unput_effect].
  destruct (IsUnspendable _); [by apply IH|]. pose proof (shows_delete v m below (out_of GetHash tx i) Hv) as Hd.
  destruct (SpendCoin v _) as [r v1]. cbn [snd] in Hd. rewrite apply_app. by apply IH.
Qed.

Lemma restore_inputs_blind its v m below fClean :
  shows v m below -> Forall (fun it => coin_ok it.2) its ->
  exists fc v', restore_inputs its v fClean = Ok (Some (fc, v')) /\ shows v' (apply_all (restore_effect its) m) below.
Proof.
  intros Hv HF. revert v m fClean Hv. induction HF as [|[i c] its (Hs & Hu & Hz) _ IH]; intros v m fClean Hv; [by exists fClean, v|].
  cbn [restore_inputs]. unfold ApplyTxInUndo. cbn [snd] in *.
  destruct (shows_put v m below (prevout i) c Hv Hs) as (v2 & v1 & Hh & Ha & Hv2).
  rewrite Hh. rewrite (proj2 (Z.eqb_neq _ _) Hz), negb_involutive, Ha. cbn [mbind result_bind]. rewrite Hu in Hv2.
  destruct (negb _); by apply IH.
Qed.

(** Undo data that matches the transactions. *)
Definition undo_ok (it : CTransaction * option (list Coin)) : Prop :=
  match it.2 with None => True | Some l => length l = length (vin it.1) /\ Forall coin_ok l end.

Lemma disconnect_txs_blind height its v m below fClean :
  shows v m below -> Forall undo_ok its ->
  exists fc v', disconnect_txs GetHash batch its height v fClean = Ok (Some (fc, v')) /\ shows v' (apply_all (undo_effects its) m) below.
Proof.
  intros Hv HF. revert v m fClean Hv. induction HF as [|[tx [l|]] its Hu _ IH]; intros v m fClean Hv; [by exists fClean, v|..]; cbn [disconnect_txs].
  - destruct Hu as [Hlen Hl]. destruct (spend_outputs_blind tx height 0 (vout tx) v m below fClean Hv) as (f1 & v1 & -> & Hv1). cbn [fst snd] in *.
    rewrite Hlen, Nat.eqb_refl. cbn [negb].
    destruct (restore_inputs_blind (rev (zip (vin tx) l)) v1 _ below (DisconnectSyscoinTransaction batch tx && f1) Hv1) as (f2 & v2 & -> & Hv2).
    { apply Forall_rev. apply Forall_forall. intros [i c] Hin. rewrite Forall_forall in Hl. apply Hl. by apply elem_of_zip_r in Hin. }
    cbn [mbind result_bind]. change (undo_effects ((tx, Some l) :: its)) with (undo_effect (tx, Some l) ++ undo_effects its)%list.
    unfold undo_effect. cbn [fst snd]. rewrite !apply_app. by apply IH.
  - destruct (spend_outputs_blind tx height 0 (vout tx) v m below fClean Hv) as (f1 & v1 & -> & Hv1).
    change (undo_effects ((tx, None) :: its)) with (undo_effect (tx, None) ++ undo_effects its)%list. unfold undo_effect. cbn [fst snd].
    rewrite app_nil_r, apply_app. by apply IH.
Qed.

(** What disconnecting a block writes. *)
Definition block_undo_effect (vtx : list CTransaction) (ls : list (list Coin)) : effect := undo_effects (rev (zip vtx (None :: (Some <$> ls)))).

Lemma connects_undo_ok height vtx first m ls m' :
  0 < height < 2 ^ 31 -> connects GetHash batch height vtx first m ls m' -> map_Forall (fun _ => coin_ok) m ->
  map_Forall (fun _ => coin_ok) m' /\ Forall undo_ok (zip vtx (undo_of first ls)) /\
  Forall (fun tx => outs_fit (vout tx) /\ (IsCoinBase tx = false -> DisconnectSyscoinTransaction batch tx = true)) vtx.
Proof.
  intros Hh. induction 1 as [|first tx vtx m l m1 ls m' Hcb Hd Ht Hf Ha Hc IH]; intros Hm; [split_and!; [done|by destruct first; constructor|constructor]|].
  pose proof (take_inputs_coins_ok _ _ _ _ Ht Hm) as Hm1. destruct (IH (put_outputs_coins_ok GetHash height Hh tx 0 _ m1 Hf Hm1)) as (Hm' & HF & HG).
  split; [done|]. split; [|constructor; [split; [done|rewrite Hcb; done]|done]].
  assert (Hz : zip (tx :: vtx) (undo_of first (if first then ls else l :: ls)) = (tx, if first then None else Some l) :: zip vtx (undo_of false ls)) by by destruct first.
  rewrite Hz. constructor; [|done]. destruct first; [done|]. split; [by apply take_inputs_length in Ht|]. cbn [fst snd].
  clear -Ht Hm. revert m l Ht Hm. induction (vin tx) as [|i ins IH]; intros m l; cbn [take_inputs]; [by intros [= <- _]; constructor|].
  intros (c & Hc & ([l' m2] & H2 & [= <- <-])%bind_Some)%bind_Some Hm. constructor; [by eapply Hm|]. eapply IH; [exact H2|]. by apply map_Forall_delete.
Qed.

Lemma DisconnectBlock_blind height vtx ls prevHash v m below :
  shows v m below -> Forall undo_ok (zip vtx (None :: (Some <$> ls))) -> (length ls + 1 = length vtx)%nat ->
  exists r v', DisconnectBlock GetHash batch true true vtx ls height prevHash v = Ok (r, v') /\ r <> DISCONNECT_FAILED /\ shows v' (apply_all (block_undo_effect vtx ls) m) below.
Proof.
  intros Hv HF Hl. unfold DisconnectBlock. rewrite Hl, Nat.eqb_refl. cbn [negb].
  destruct (disconnect_txs_blind height (rev (zip vtx (None :: (Some <$> ls)))) v m below true Hv) as (fc & v' & -> & Hv'); [by apply Forall_rev|].
  cbn [mbind result_bind]. eexists _, _. split; [done|]. split; [by destruct fc|done].
Qed.

(** Disconnecting a block that was connected undoes it, as a write. *)
Lemma connects_undo_effect height vtx m ls m' :
  0 < height < 2 ^ 31 -> connects GetHash batch height vtx true m ls m' -> vtx <> [] -> map_Forall (fun _ => coin_ok) m ->
  apply_all (block_undo_effect vtx ls) m' = m /\ (length ls + 1 = length vtx)%nat.
Proof.
  intros Hh Hc Hne Hm. destruct (connects_undo_ok height vtx true m ls m' Hh Hc Hm) as (Hm' & HF & _).
  assert (Hlen : (length ls + 1 = length vtx)%nat).
  { pose proof (connects_length _ _ _ _ _ _ _ _ Hc (or_introl Hne)) as Hlen. cbn [undo_of length] in Hlen. rewrite length_fmap in Hlen. lia. }
  split; [|done]. set (v := new_cache (ViewDB {| db_coins := m'; db_best_block := None; db_head_blocks := [] |})).
  assert (Hv : shows v m' (backing_of v.2)).
  { split_and!; [apply view_ok_new_cache; intros o c Hc'; apply (Hm' o c Hc')|apply merge_empty_overlay|done]. }
  destruct (DisconnectBlock_shows GetHash batch height Hh vtx v m _ ls m' uint256_null Hm Hc Hne Hv) as (v1 & H1 & (_ & Hl1 & _) & _).
  destruct (DisconnectBlock_blind height vtx ls uint256_null v m' _ Hv HF Hlen) as (r & v2 & H2 & _ & (_ & Hl2 & _)).
  rewrite H1 in H2. injection H2 as _ <-. congruence.
Qed.
End effects.

(** ** Interrupted writes *)

Lemma write_prefix (mapCoins : CCoinsMap) (m m0 : gmap COutPoint Coin) its o :
  (forall k e, (k, e) ∈ its -> mapCoins !! k = Some e) ->
  m0 !! o = m !! o \/ m0 !! o = overlay (mapCoins !! o) (m !! o) ->
  foldl (fun m it => write_coin it m) m0 its !! o = m !! o \/ foldl (fun m it => write_coin it m) m0 its !! o = overlay (mapCoins !! o) (m !! o).
Proof.
  revert m0. induction its as [|[k e] its IH]; intros m0 Hits H0; [done|]. cbn [foldl]. apply IH; [intros k' e' Hin; apply Hits; by right|].
  pose proof (Hits k e ltac:(left)) as Hk. unfold write_coin. destruct (DIRTY e); [|done]. destruct (decide (o = k)) as [->|Hne].
  - right. rewrite Hk. cbn [overlay]. unfold unspent. destruct (IsSpent (coin e)); [by rewrite lookup_delete_eq|by rewrite lookup_insert_eq].
  - destruct (IsSpent (coin e)); [by rewrite lookup_delete_ne|by rewrite lookup_insert_ne].
Qed.

(** What a database that no write has touched names as its tip: nothing, if it is new. *)
Definition db_names_tip (old : ptr) (db : CCoinsViewDB) : Prop :=
  if bool_decide (old = uint256_null) then db_best_block db = None /\ db_head_blocks db = []
  else uint256_IsNull old = false /\ db_best_block db = Some old.

(** A database in the middle of a write from the coins [m_old] of the block [old], null for the
    first write, to the coins [m_new] of the block [new]: the write of a cache was interrupted
    after some entries, and so may have been writes that were to finish it. *)
Inductive interrupted (old new : ptr) (m_old m_new : gmap COutPoint Coin) : CCoinsViewDB -> Prop :=
| interrupted_flush db mapCoins k :
    db_names_tip old db -> db_coins db = m_old -> merge overlay mapCoins m_old = m_new ->
    interrupted old new m_old m_new (db_partial db mapCoins new k)
| interrupted_again db mapCoins k :
    interrupted old new m_old m_new db -> merge overlay mapCoins (db_coins db) = m_new ->
    interrupted old new m_old m_new (db_partial db mapCoins new k).

Lemma db_partial_mixed db mapCoins h k m' o :
  merge overlay mapCoins (db_coins db) = m' ->
  db_coins (db_partial db mapCoins h k) !! o = db_coins db !! o \/ db_coins (db_partial db mapCoins h k) !! o = m' !! o.
Proof.
  intros <-. cbn [db_coins db_partial]. rewrite lookup_merge.
  destruct (write_prefix mapCoins (db_coins db) (db_coins db) (take k (map_to_list mapCoins)) o) as [?|H]; [|by left|by left|].
  - intros x e Hin. apply elem_of_map_to_list. rewrite <- (take_drop k (map_to_list mapCoins)). apply elem_of_app. by left.
  - right. rewrite H. by destruct (mapCoins !! o), (db_coins db !! o).
Qed.

Lemma db_names_tip_old old db : db_names_tip old db -> db_old_tip db = old.
Proof.
  unfold db_names_tip, db_old_tip. case_bool_decide as E; [intros [-> ->]; by subst|]. intros [Hn ->].
  change (default uint256_null (Some old)) with old. by rewrite Hn.
Qed.

Lemma interrupted_spec old new m_old m_new db :
  interrupted old new m_old m_new db ->
  db_best_block db = None /\ db_head_blocks db = [new; old] /\ forall o, db_coins db !! o = m_old !! o \/ db_coins db !! o = m_new !! o.
Proof.
  induction 1 as [db mapCoins k Hb Hm Hn|db mapCoins k _ (Hb & Hh & Hmix) Hn]; (split; [done|]).
  - split; [cbn [db_partial db_head_blocks]; by rewrite (db_names_tip_old old)|]. intros o. rewrite <- Hm in *. by apply db_partial_mixed.
  - split; [unfold db_partial, db_old_tip; cbn [db_head_blocks]; by rewrite Hb, Hh|]. intros o. destruct (db_partial_mixed db mapCoins new k m_new o Hn) as [->| ->]; auto.
Qed.

(** ** Branches *)

Section branches.
Context {U : Type}.
Variable GetHash : CTransaction -> uint256.
Variable batch : Z.
Variable index : gmap ptr (CBlockIndex (U := U)).
Variable ReadBlockFromDisk : ptr -> option (list CTransaction).
Variable UndoReadFromDisk : ptr -> option (list (list Coin)).
Variable others : Replayers.
Hypothesis Hwf : chain_wf index.

(** The blocks [ps], the first on top of [f] and the last one [p], take the coins from [m] to
    [m'], and are on disk with their undo data. *)
Inductive branch (f : ptr) (m : gmap COutPoint Coin) : list ptr -> ptr -> gmap COutPoint Coin -> Prop :=
| branch_nil : branch f m [] f m
| branch_snoc ps q m1 p b vtx ls m' :
    branch f m ps q m1 -> index !! p = Some b -> pprev b = Some q ->
    ReadBlockFromDisk p = Some vtx -> UndoReadFromDisk p = Some ls -> vtx <> [] ->
    connects GetHash batch (nHeight b) vtx true m1 ls m' -> branch f m (ps ++ [p])%list p m'.

(** The mints of blocks. *)
Definition block_mints (p : ptr) : NEVMMintTxSet := match ReadBlockFromDisk p with Some vtx => disconnected_mints batch vtx | None => ∅ end.
Definition branch_mints (ps : list ptr) : NEVMMintTxSet := ⋃ (block_mints <$> ps).

Definition forward (p : ptr) : effect :=
  match index !! p, ReadBlockFromDisk p with Some b, Some vtx => block_effect GetHash (nHeight b) vtx | _, _ => [] end.
Definition backward (p : ptr) : effect :=
  match ReadBlockFromDisk p, UndoReadFromDisk p with Some vtx, Some ls => block_undo_effect GetHash vtx ls | _, _ => [] end.

Lemma block_height p b q : index !! p = Some b -> pprev b = Some q -> exists bq, index !! q = Some bq /\ nHeight b = nHeight bq + 1 /\ 0 < nHeight b < 2 ^ 31.
Proof.
  intros Hp Hq. pose proof (Hwf p b Hp) as Hok. unfold index_ok in Hok. rewrite Hq in Hok. destruct Hok as (? & bq & Hbq & ? & _).
  destruct (Hwf q bq Hbq) as [? _]. exists bq. split_and!; try done; lia.
Qed.

Section from.
Variable f : ptr.
Variable bf : CBlockIndex (U := U).
Variable m : gmap COutPoint Coin.
Hypothesis Hf : index !! f = Some bf.
Hypothesis Hm : map_Forall (fun _ => coin_ok) m.

Lemma branch_tip ps p m' :
  branch f m ps p m' -> exists bp, index !! p = Some bp /\ nHeight bp = nHeight bf + Z.of_nat (length ps) /\ map_Forall (fun _ => coin_ok) m'.
Proof.
  induction 1 as [|ps q m1 p b vtx ls m' _ (bq & Hq & Hh & Hm1) Hp Hprev _ _ _ Hc]; [exists bf; cbn; split_and!; [done|lia|done]|].
  destruct (block_height p b q Hp Hprev) as (bq' & Hq' & Hhp & Hr). rewrite Hq in Hq'. injection Hq' as <-. exists b.
  rewrite length_app. cbn [length]. split_and!; [done|lia|]. by apply (connects_undo_ok GetHash batch (nHeight b) vtx true m1 ls m' Hr Hc).
Qed.

Lemma branch_walk ps p m' i q :
  branch f m ps p m' -> ps !! i = Some q -> walk_back index (length ps - 1 - i) p = Some q.
Proof.
  intros Hb. revert i. induction Hb as [|ps q' m1 p b vtx ls m' _ IH Hp Hprev _ _ _ _]; intros i Hi; [done|].
  rewrite length_app. cbn [length]. apply lookup_app_Some in Hi as [Hi|[Hge Hi]].
  - pose proof (lookup_lt_Some _ _ _ Hi). replace (length ps + 1 - 1 - i)%nat with (S (length ps - 1 - i))%nat by lia. cbn [walk_back].
    rewrite Hp. cbo. rewrite Hprev. cbo. by apply IH.
  - apply list_lookup_singleton_Some in Hi as [Hi <-]. by replace (length ps + 1 - 1 - i)%nat with 0%nat by lia.
Qed.

Lemma branch_ancestor ps p m' i q :
  branch f m ps p m' -> ps !! i = Some q -> GetAncestor index p (nHeight bf + 1 + Z.of_nat i) = Some (Some q).
Proof.
  intros Hb Hi. destruct (branch_tip ps p m' Hb) as (bp & Hp & Hh & _). rewrite (GetAncestor_spec index p bp _ Hwf Hp). f_equal.
  pose proof (lookup_lt_Some _ _ _ Hi). destruct (Hwf f bf Hf) as [? _]. unfold ancestor. rewrite Hp. cbo.
  destruct (_ || _) eqn:E; [lia|]. rewrite <- (branch_walk ps p m' i q Hb Hi). f_equal. lia.
Qed.

Lemma branch_forward ps p m' : branch f m ps p m' -> apply_all (mjoin (forward <$> ps)) m = m'.
Proof.
  induction 1 as [|ps q m1 p b vtx ls m' _ IH Hp _ Hr _ _ Hc]; [done|]. rewrite fmap_app, join_app, apply_app, IH.
  cbn [fmap list_fmap]. unfold mjoin. cbn [list_join]. rewrite app_nil_r. unfold forward. rewrite Hp, Hr. by eapply connects_effect.
Qed.

Lemma branch_backward ps p m' : branch f m ps p m' -> apply_all (mjoin (backward <$> rev ps)) m' = m.
Proof.
  induction 1 as [|ps q m1 p b vtx ls m' Hb IH Hp Hprev Hr Hu Hne Hc]; [done|]. rewrite rev_app_distr. cbn [rev app]. rewrite fmap_cons.
  change (mjoin (backward p :: (backward <$> rev ps))) with (backward p ++ mjoin (backward <$> rev ps))%list. rewrite apply_app.
  destruct (branch_tip ps q m1 Hb) as (_ & _ & _ & Hm1). destruct (block_height p b q Hp Hprev) as (_ & _ & _ & Hh).
  unfold backward at 2. rewrite Hr, Hu. destruct (connects_undo_effect GetHash batch (nHeight b) vtx m1 ls m' Hh Hc Hne Hm1) as [-> _]. done.
Qed.

Abbreviation run_rollback := (rollback GetHash batch index ReadBlockFromDisk UndoReadFromDisk others).
Abbreviation run_rollforward := (rollforward GetHash batch index ReadBlockFromDisk others).

Lemma rollback_blind ps p m' fuel v x below s :
  branch f m ps p m' -> Forall (undoes others) ps -> (length ps <= fuel)%nat -> shows v x below ->
  exists v', run_rollback fuel (Some p) (Some f) v s = Ok (v', branch_mints (rev ps) ∪ s) /\ shows v' (apply_all (mjoin (backward <$> rev ps)) x) below.
Proof.
  intros Hb. revert fuel v x s. induction Hb as [|ps q m1 p b vtx ls m' Hb IH Hp Hprev Hr Hu Hne Hc]; intros fuel v x s Ho Hfuel Hv.
  { exists v. split; [|done]. unfold branch_mints. cbn. rewrite (left_id_L ∅ (∪)). destruct fuel; cbn [rollback]; by rewrite bool_decide_eq_true_2. }
  apply Forall_app in Ho as [Hos [[Hu1 Hu2] _]%Forall_cons]. rewrite length_app in Hfuel. cbn [length] in Hfuel. destruct fuel as [|fuel]; [lia|]. cbn [rollback].
  destruct (branch_tip ps q m1 Hb) as (bq & Hq & Hhq & Hm1). destruct (block_height p b q Hp Hprev) as (bq' & Hq' & Hhp & Hh).
  rewrite Hq in Hq'. injection Hq' as <-.
  rewrite bool_decide_eq_false_2 by (intros [= ->]; rewrite Hf in Hp; injection Hp as <-; lia). rewrite Hp.
  rewrite (proj2 (Z.ltb_lt 0 (nHeight b))) by lia. unfold rollback_block. rewrite Hr, Hu, Hu1, Hu2.
  destruct (connects_undo_ok GetHash batch (nHeight b) vtx true m1 ls m' Hh Hc Hm1) as (_ & HF & _).
  destruct (connects_undo_effect GetHash batch (nHeight b) vtx m1 ls m' Hh Hc Hne Hm1) as [_ Hlen].
  destruct (DisconnectBlock_blind GetHash batch (nHeight b) vtx ls (default uint256_null (pprev b)) v x below Hv HF Hlen) as (r & v1 & -> & Hnf & Hv1).
  cbn [mbind result_bind]. rewrite rev_app_distr. cbn [rev app]. rewrite fmap_cons.
  change (mjoin (backward p :: (backward <$> rev ps))) with (backward p ++ mjoin (backward <$> rev ps))%list. rewrite apply_app.
  assert (Hback : backward p = block_undo_effect GetHash vtx ls) by (unfold backward; by rewrite Hr, Hu). rewrite Hback, Hprev.
  destruct (IH fuel v1 _ (disconnected_mints batch vtx ∪ s) Hos ltac:(lia) Hv1) as (v2 & He & Hv2). exists v2. split; [|done].
  assert (Hmints : branch_mints (p :: rev ps) = disconnected_mints batch vtx ∪ branch_mints (rev ps)).
  { unfold branch_mints, block_mints at 1. rewrite fmap_cons. cbn [union_list foldr]. by rewrite Hr. }
  rewrite Hmints. destruct r; [| |done]; cbn [mbind result_bind];
    rewrite He; do 2 f_equal; set_solver.
Qed.

(** A block that can be applied forwards. *)
Definition applicable (p : ptr) : Prop :=
  exists b vtx, index !! p = Some b /\ ReadBlockFromDisk p = Some vtx /\ filter (fun tx => IsCoinBase tx = false) vtx = drop 1 vtx /\
    Forall (fun tx => outs_fit (vout tx) /\ (IsCoinBase tx = false -> DisconnectSyscoinTransaction batch tx = true)) vtx.

Lemma connects_coinbase h vtx m0 ls m' : connects GetHash batch h vtx true m0 ls m' -> filter (fun tx => IsCoinBase tx = false) vtx = drop 1 vtx.
Proof.
  assert (Hrest : forall first vtx m0 ls m', connects GetHash batch h vtx first m0 ls m' -> first = false -> filter (fun tx => IsCoinBase tx = false) vtx = vtx).
  { intros first. induction 1 as [|first tx vtx' ? ? ? ? ? Hcb _ _ _ _ _ IH]; [done|]. intros ->. rewrite filter_cons_True by done. by rewrite IH. }
  intros Hc. inversion Hc as [|first tx vtx' ? ? ? ? ? Hcb _ _ _ _ Hc']; subst; [done|]. rewrite filter_cons_False by (by rewrite Hcb).
  cbn [drop]. rewrite drop_0. by eapply Hrest.
Qed.

Lemma branch_applicable ps p m' : branch f m ps p m' -> Forall applicable ps.
Proof.
  induction 1 as [|ps q m1 p b vtx ls m' Hb IH Hp Hprev Hr _ _ Hc]; [constructor|]. apply Forall_app. split; [done|]. constructor; [|constructor].
  destruct (branch_tip ps q m1 Hb) as (_ & _ & _ & Hm1). destruct (block_height p b q Hp Hprev) as (_ & _ & _ & Hh).
  exists b, vtx. split_and!; [done|done|by eapply connects_coinbase|]. by apply (connects_undo_ok GetHash batch (nHeight b) vtx true m1 ls m' Hh Hc Hm1).
Qed.

Lemma rollforward_blind ps h new v x below s :
  Forall applicable ps -> Forall (applies others) ps -> (forall i q, ps !! i = Some q -> GetAncestor index new (h + Z.of_nat i) = Some (Some q)) -> shows v x below ->
  exists v', run_rollforward (length ps) h new v s = Ok (v', s ∪ branch_mints ps) /\ shows v' (apply_all (mjoin (forward <$> ps)) x) below.
Proof.
  intros HF. revert h v x s. induction HF as [|p ps (b & vtx & Hp & Hr & Hcb & Hall) _ IH]; intros h v x s Ho Hanc Hv.
  { exists v. unfold branch_mints. cbn. by rewrite (right_id_L ∅ (∪)). }
  cbn [length rollforward]. pose proof (Hanc 0%nat p eq_refl) as H0. rewrite Z.add_0_r in H0. rewrite H0. unfold RollforwardBlock. apply Forall_cons in Ho as [(Ho1 & Ho2 & Ho3) Hos]. rewrite Hp, Hr, Ho1, Ho2, Ho3.
  destruct (roll_txs_blind GetHash batch (nHeight b) vtx v x below s Hv Hall) as (v1 & s1 & -> & Hv1 & ->). cbn [mbind result_bind].
  assert (Hanc1 : forall i q, ps !! i = Some q -> GetAncestor index new (h + 1 + Z.of_nat i) = Some (Some q)).
  { intros i q Hi. replace (h + 1 + Z.of_nat i) with (h + Z.of_nat (S i)) by lia. by apply Hanc. }
  destruct (IH (h + 1) v1 _ (s ∪ list_to_set (omap (mint_of batch) (filter (fun tx => IsCoinBase tx = false) vtx))) Hos Hanc1 Hv1) as (v2 & -> & Hv2).
  exists v2. split.
  - do 2 f_equal. unfold branch_mints, block_mints at 2. rewrite fmap_cons. cbn [union_list foldr]. rewrite Hr. unfold disconnected_mints.
    rewrite Hcb. by rewrite (assoc_L (∪)).
  - rewrite fmap_cons. change (mjoin (forward p :: (forward <$> ps))) with (forward p ++ mjoin (forward <$> ps))%list. rewrite apply_app.
    unfold forward at 2. by rewrite Hp, Hr.
Qed.
End from.

(** The blocks [olds] from the fork [f] to the old tip. Where the first write was cut off there
    is no old tip, and the blocks are replayed from the genesis block on. *)
Definition old_branch (f : ptr) (bf : CBlockIndex (U := U)) (m : gmap COutPoint Coin) (olds : list ptr) (old new : ptr) (m_old : gmap COutPoint Coin) : Prop :=
  if bool_decide (old = uint256_null) then nHeight bf = 0 /\ olds = [] /\ m_old = m
  else uint256_IsNull old = false /\ LastCommonAncestor index old new = Some (Some f) /\ branch f m olds old m_old.

Lemma height_of_Some p b : index !! p = Some b -> height_of index (Some p) = nHeight b.
Proof. intros Hp. unfold height_of. cbn. by rewrite Hp. Qed.

(** What precedes the rolling forward. *)
Lemma rolled_back f bf m m_old olds old new v x below :
  index !! f = Some bf -> map_Forall (fun _ => coin_ok) m -> old_branch f bf m olds old new m_old -> Forall (undoes others) olds -> shows v x below ->
  exists pindexOld pindexFork v', replay_fork index new old = Ok (pindexOld, pindexFork) /\ height_of index pindexFork = nHeight bf /\
    rollback GetHash batch index ReadBlockFromDisk UndoReadFromDisk others (S (Z.to_nat (height_of index pindexOld))) pindexOld pindexFork v ∅ =
      Ok (v', branch_mints (rev olds)) /\
    shows v' (apply_all (mjoin (backward <$> rev olds)) x) below /\
    apply_all (mjoin (backward <$> rev olds)) m_old = m /\ map_Forall (fun _ => coin_ok) m_old.
Proof.
  intros Hf Hm Ho Huo Hv. unfold old_branch in Ho. unfold replay_fork. case_bool_decide as E.
  - destruct Ho as (Hh & -> & ->). subst old. exists None, None, v. cbn [uint256_IsNull]. split_and!; try done.
  - destruct Ho as (Hnull & Hlca & Ho). destruct (branch_tip f bf m Hf Hm olds old m_old Ho) as (bo & Hbo & Hho & Hmo). destruct (Hwf f bf Hf) as [Hhf _].
    rewrite Hnull, Hbo, Hlca, bool_decide_eq_true_2 by done. exists (Some old), (Some f). rewrite (height_of_Some old bo Hbo), (height_of_Some f bf Hf).
    destruct (rollback_blind f bf m Hf Hm olds old m_old (S (Z.to_nat (nHeight bo))) v x below ∅ Ho Huo ltac:(lia) Hv) as (v1 & -> & Hv1).
    exists v1. rewrite (right_id_L ∅ (∪)). split_and!; try done. by apply (branch_backward f bf m Hf Hm olds old m_old).
Qed.

Lemma replay_coins_shows f bf m m_old m_new olds news old new db :
  index !! f = Some bf -> map_Forall (fun _ => coin_ok) m -> old_branch f bf m olds old new m_old -> branch f m news new m_new ->
  Forall (undoes others) olds -> Forall (applies others) news -> interrupted old new m_old m_new db ->
  exists v, replay_coins GetHash batch index ReadBlockFromDisk UndoReadFromDisk others db new old =
      Ok (SetBestBlock v new, branch_mints (rev olds), branch_mints news) /\ shows v m_new (backing_of (ViewDB db)).
Proof.
  intros Hf Hm Ho Hn Huo Han Hint. destruct (interrupted_spec old new m_old m_new db Hint) as (Hbest & Hheads & Hmix).
  destruct (branch_tip f bf m Hf Hm news new m_new Hn) as (bn & Hbn & Hhn & Hmn).
  assert (Hmo : map_Forall (fun _ => coin_ok) m_old).
  { unfold old_branch in Ho. case_bool_decide; [by destruct Ho as (_ & _ & ->)|]. destruct Ho as (_ & _ & Ho).
    by destruct (branch_tip f bf m Hf Hm olds old m_old Ho) as (_ & _ & _ & ?). }
  assert (Hdb : shows (new_cache (ViewDB db)) (db_coins db) (backing_of (ViewDB db))).
  { split_and!; [apply view_ok_new_cache|apply merge_empty_overlay|done]. intros o c Hc. destruct (Hmix o) as [Heq|Heq]; rewrite Hc in Heq; symmetry in Heq;
      [apply (Hmo o c Heq)|apply (Hmn o c Heq)]. }
  unfold replay_coins. rewrite Hbn, bool_decide_eq_true_2 by done.
  destruct (rolled_back f bf m m_old olds old new _ _ _ Hf Hm Ho Huo Hdb) as (po & pf & v1 & -> & Hfork & Hroll & Hv1 & Hback & _). cbn [mbind result_bind].
  rewrite Hroll. cbn [mbind result_bind]. rewrite Hfork, (height_of_Some new bn Hbn).
  replace (Z.to_nat (nHeight bn - nHeight bf)) with (length news) by lia.
  destruct (rollforward_blind news (nHeight bf + 1) new v1 _ _ ∅ (branch_applicable f bf m Hf Hm news new m_new Hn) Han
    (fun i q => branch_ancestor f bf m Hf Hm news new m_new i q Hn) Hv1) as (v2 & -> & Hv2). cbn [mbind result_bind].
  exists v2. rewrite (left_id_L ∅ (∪)). split; [done|]. rewrite <- apply_app in Hv2.
  rewrite (apply_mixed _ m_old m_new) in Hv2; [done| |done]. by rewrite apply_app, Hback, (branch_forward f m news new m_new Hn).
Qed.

(** C4: recovery after a crash. The write of the coins of a new tip was cut off at any entry, be
    it the first attempt or one that was to repair an earlier one, and be it the first write of
    a new database (then nothing is rolled back and the blocks are replayed from genesis on).
    Say that the index is well formed, that the blocks of the two branches and their undo data
    can be read from disk, and that the masternode, blob and NEVM components undo and apply
    them. Then [ReplayBlocks] throws nothing and refuses nothing, and leaves the database with
    exactly the coins of the new tip, marked as such; the markers of its mints are on disk, and
    of the others only those of blocks that were disconnected are gone. *)
Theorem ReplayBlocks_recovers (f old new : ptr) (bf : CBlockIndex (U := U)) (m m_old m_new : gmap COutPoint Coin) (olds news : list ptr)
    (db : CCoinsViewDB) (minted : CNEVMMintedTxDB) :
  index !! f = Some bf -> map_Forall (fun _ => coin_ok) m -> old_branch f bf m olds old new m_old -> branch f m news new m_new ->
  Forall (undoes others) olds -> Forall (applies others) news -> uint256_IsNull new = false ->
  interrupted old new m_old m_new db ->
  exists db' minted', ReplayBlocks GetHash batch index ReadBlockFromDisk UndoReadFromDisk others db minted = Ok (ViewDB db', minted') /\
    db_coins db' = m_new /\ db_best_block db' = Some new /\ db_head_blocks db' = [] /\
    mint_disk minted' = (known minted ∪ branch_mints news) ∖ (branch_mints (rev olds) ∖ branch_mints news).
Proof.
  intros Hf Hm Ho Hn Huo Han Hnew Hint. destruct (interrupted_spec old new m_old m_new db Hint) as (Hbest & Hheads & _).
  destruct (replay_coins_shows f bf m m_old m_new olds news old new db Hf Hm Ho Hn Huo Han Hint) as (v & Hr & Hok & Hcoins & [= Hl Hk]).
  unfold ReplayBlocks. rewrite Hheads, Hr. cbn [mbind result_bind].
  destruct (Flush_ok (SetBestBlock v new) Hok Hnew) as (v' & Hfl & _ & Hlv & Hmk).
  { cbn [SetBestBlock fst snd hashBlock]. rewrite Hk. cbn [marks]. unfold accepts. cbn [fst snd]. by rewrite Hbest, Hheads. }
  rewrite Hfl. cbn [mbind result_bind]. cbn [SetBestBlock fst snd hashBlock] in *. rewrite Hk in Hmk.
  assert (Hbase : exists d, v.2 = ViewDB d) by (destruct v.2 as [d|c base]; [by exists d|by destruct base]). destruct Hbase as [d Hd]. rewrite Hd in *.
  destruct v' as [c' [db'|c2 base2]]; cbn [snd levels] in *; [|by destruct base2]. exists db'. injection Hlv as _ Hc'. injection Hmk as Hb' Hh'.
  eexists. split; [done|]. split_and!; [|done|done|].
  - rewrite Hc'. exact Hcoins.
  - unfold mint_FlushErase, mint_FlushCacheToDisk, mint_FlushDataToCache, known. cbn [mint_disk mint_mapCache]. set_solver.
Qed.
End branches.

(** ** Markers of mints and crashes *)

Section nodes.
Variable sha3 : bytes -> bytes.
Variable params : BridgeParams.
Variable root_of : uint256 -> option NEVMTxRoot.

(** The mints of the blocks of a chain, the last block first. *)
Abbreviation mint_chain := (list (list CMintSyscoin)).
Definition hashes (c : mint_chain) : list uint256 := nTxHash <$> mjoin c.

(** The writes of an operation, in the order of the code: the markers of the cache, the coins
    up to a new tip, which is marked first and last, and the markers to erase. *)
Inductive action := Write_markers | Begin_coins (c : mint_chain) | End_coins | Erase_markers (s : NEVMMintTxSet).

(** The two databases, the chain in memory of a node that runs, and what its operation has
    still to write. *)
Record node := {
  markers : CNEVMMintedTxDB; coins_tip : mint_chain; coins_target : option mint_chain;
  memory : option mint_chain; todo : list action }.

Definition node_genesis : node :=
  {| markers := {| mint_mapCache := ∅; mint_disk := ∅ |}; coins_tip := []; coins_target := None; memory := Some []; todo := [] |}.

Definition flush_coins (c : mint_chain) : list action := [Write_markers; Begin_coins c; End_coins].

Definition act (a : action) (nd : node) (rest : list action) : node :=
  match a with
  | Write_markers => {| markers := mint_FlushCacheToDisk (markers nd); coins_tip := coins_tip nd; coins_target := coins_target nd; memory := memory nd; todo := rest |}
  | Begin_coins c => {| markers := markers nd; coins_tip := coins_tip nd; coins_target := Some c; memory := memory nd; todo := rest |}
  | End_coins => {| markers := markers nd; coins_tip := default (coins_tip nd) (coins_target nd); coins_target := None; memory := memory nd; todo := rest |}
  | Erase_markers s => {| markers := mint_FlushErase (markers nd) s; coins_tip := coins_tip nd; coins_target := coins_target nd; memory := memory nd; todo := rest |}
  end.

(** [ConnectTip], [DisconnectTip] and [FlushStateToDisk] of a node that runs; the writes one by
    one; a crash, which loses the memory and may leave part of a batch of markers written; and
    the start after it, with [ReplayBlocks] where a write of coins was cut off. *)
Inductive node_step : node -> node -> Prop :=
| node_connect nd c roots active nHeight ms s :
    roots_of root_of roots -> todo nd = [] -> memory nd = Some c -> connect_mints sha3 params roots active nHeight (markers nd) ms ∅ = Ok s ->
    node_step nd {| markers := mint_FlushDataToCache (markers nd) s; coins_tip := coins_tip nd; coins_target := coins_target nd;
                    memory := Some (ms :: c); todo := [] |}
| node_disconnect nd ms c :
    todo nd = [] -> memory nd = Some (ms :: c) ->
    node_step nd {| markers := markers nd; coins_tip := coins_tip nd; coins_target := coins_target nd; memory := Some c;
                    todo := if bool_decide (ms = []) then [] else (flush_coins c ++ [Erase_markers (list_to_set (nTxHash <$> ms))])%list |}
| node_flush nd c :
    todo nd = [] -> memory nd = Some c ->
    node_step nd {| markers := markers nd; coins_tip := coins_tip nd; coins_target := coins_target nd; memory := Some c; todo := flush_coins c |}
| node_act nd a rest : todo nd = a :: rest -> node_step nd (act a nd rest)
| node_crash nd s :
    s ⊆ mint_mapCache (markers nd) ->
    node_step nd {| markers := {| mint_mapCache := ∅; mint_disk := s ∪ mint_disk (markers nd) |};
                    coins_tip := coins_tip nd; coins_target := coins_target nd; memory := None; todo := [] |}
| node_restart nd :
    todo nd = [] -> memory nd = None -> coins_target nd = None ->
    node_step nd {| markers := markers nd; coins_tip := coins_tip nd; coins_target := None; memory := Some (coins_tip nd); todo := [] |}
| node_replay nd fork olds news :
    todo nd = [] -> memory nd = None -> coins_tip nd = (olds ++ fork)%list -> coins_target nd = Some (news ++ fork)%list ->
    node_step nd {| markers := mint_FlushDataToCache (markers nd) (list_to_set (hashes news)); coins_tip := coins_tip nd; coins_target := coins_target nd;
                    memory := None;
                    todo := (flush_coins (news ++ fork) ++ [Erase_markers (list_to_set (hashes olds) ∖ list_to_set (hashes news))])%list |}.

(** *** The invariant *)

Definition chain_ok (c : mint_chain) : Prop := NoDup (hashes c) /\ Forall (accepted_from sha3 root_of) (mjoin c).

Definition marked (c : mint_chain) (s : NEVMMintTxSet) : Prop := forall h, h ∈ hashes c -> h ∈ s.

(** What is left to erase is not in the chain. *)
Definition erase_ok (c : mint_chain) (e : list action) : Prop :=
  match e with
  | [] => True
  | [Erase_markers s] => forall h, h ∈ s -> h ∉ hashes c
  | _ => False
  end.

(** What is left to write, of an operation that takes the coins to the chain [c]. *)
Definition pending (nd : node) (c : mint_chain) (l : list action) : Prop :=
  exists e, erase_ok c e /\
    (l = (flush_coins c ++ e)%list /\ (coins_target nd = None \/ coins_target nd = Some c) \/
     l = (Begin_coins c :: End_coins :: e) /\ marked c (mint_disk (markers nd)) /\ (coins_target nd = None \/ coins_target nd = Some c) \/
     l = End_coins :: e /\ coins_target nd = Some c \/
     l = e /\ coins_target nd = None /\ coins_tip nd = c).

(** The chain that the node has, or is recovering. *)
Definition heads_for (nd : node) (c : mint_chain) : Prop :=
  chain_ok c /\ marked c (known (markers nd)) /\ (todo nd = [] -> coins_target nd = None) /\ (todo nd <> [] -> pending nd c (todo nd)).

(** What is on disk. *)
Definition disk_ok (nd : node) : Prop :=
  (chain_ok (coins_tip nd) /\ marked (coins_tip nd) (mint_disk (markers nd))) /\
  (forall c, coins_target nd = Some c -> chain_ok c /\ marked c (mint_disk (markers nd))).

Definition node_ok (nd : node) : Prop :=
  disk_ok nd /\ (forall c, memory nd = Some c -> heads_for nd c) /\ (memory nd = None -> todo nd <> [] -> exists c, heads_for nd c).

Lemma marked_mono c s s' : s ⊆ s' -> marked c s -> marked c s'.
Proof. intros Hs Hm h Hh. apply Hs. by apply Hm. Qed.

Lemma hashes_app c c' : hashes (c ++ c')%list = (hashes c ++ hashes c')%list.
Proof. unfold hashes. by rewrite join_app, fmap_app. Qed.

Lemma hashes_cons ms c : hashes (ms :: c) = ((nTxHash <$> ms) ++ hashes c)%list.
Proof. unfold hashes. change (mjoin (ms :: c)) with (ms ++ mjoin c)%list. by rewrite fmap_app. Qed.

Lemma known_flush db : known (mint_FlushCacheToDisk db) = known db /\ mint_disk (mint_FlushCacheToDisk db) = known db.
Proof. unfold known, mint_FlushCacheToDisk. cbn. split; set_solver. Qed.

Lemma disk_known db : mint_disk db ⊆ known db.
Proof. by apply union_subseteq_r. Qed.

(** One write of an operation. *)
Lemma act_ok nd c a rest : disk_ok nd -> heads_for nd c -> todo nd = a :: rest -> disk_ok (act a nd rest) /\ heads_for (act a nd rest) c.
Proof.
  intros [[Htip Hmark] Htarget] (Hc & Hk & _ & Hp) Htodo. destruct (known_flush (markers nd)) as [Hkf Hdf]. pose proof (disk_known (markers nd)) as Hdk.
  destruct Hp as (e & He & Hcases); [by rewrite Htodo|]. rewrite Htodo in Hcases. unfold disk_ok, heads_for.
  destruct Hcases as [[[= -> ->] Ht]|[([= -> ->] & Hm & Ht)|[[[= -> ->] Ht]|(<- & Ht & <-)]]]; cbn [act markers coins_tip coins_target memory todo flush_coins app].
  - rewrite Hkf, Hdf. split_and!; try done; [by eapply marked_mono|intros c' Hc'; destruct (Htarget c' Hc'); split; [done|by eapply marked_mono]|].
    intros _. exists e. split; [done|]. right. left. cbn [markers coins_target]. by rewrite Hdf.
  - split_and!; try done; [by intros c' [= <-]|]. intros _. exists e. split; [done|]. right. right. by left.
  - destruct (Htarget c Ht) as [_ Hm]. rewrite Ht. cbn [default]. unfold id. split_and!; try done. intros _. exists e. split; [done|]. right. right. right. done.
  - destruct a; try done. destruct rest; [|done]. cbn [erase_ok] in He. cbn [act markers coins_tip coins_target memory todo]. rewrite Ht. unfold mint_FlushErase, known. cbn [mint_disk mint_mapCache].
    assert (Hd : marked (coins_tip nd) (mint_disk (markers nd) ∖ s)) by (intros h Hh; apply elem_of_difference; split; [by apply Hmark|intros Hs; by apply (He h)]).
    split_and!; try done. eapply marked_mono, Hd. set_solver.
Qed.

Lemma chain_ok_connect roots active nHeight db ms s c :
  roots_of root_of roots -> chain_ok c -> marked c (known db) -> connect_mints sha3 params roots active nHeight db ms ∅ = Ok s ->
  chain_ok (ms :: c) /\ marked (ms :: c) (known (mint_FlushDataToCache db s)).
Proof.
  intros Hroots [Hnd Hacc] Hk (-> & Hms & Hall)%connect_mints_Ok. split; [split|].
  - rewrite hashes_cons. apply NoDup_app. split_and!; [done| |done]. intros h (m & -> & Hin)%list_elem_of_fmap Hh.
    rewrite Forall_forall in Hall. destruct (Hall m Hin) as (_ & Hn & _). by apply Hn, Hk.
  - change (mjoin (ms :: c)) with (ms ++ mjoin c)%list. apply Forall_app. split; [|done]. eapply Forall_impl; [exact Hall|]. intros m (_ & _ & Hm). by exists roots.
  - intros h. rewrite hashes_cons, elem_of_app. unfold known, mint_FlushDataToCache. cbn. intros [Hh|Hh].
    + set_unfold. left. left. by left.
    + specialize (Hk h Hh). unfold known in Hk. set_solver.
Qed.

Lemma chain_ok_app c c' : chain_ok (c ++ c')%list -> chain_ok c' /\ forall h, h ∈ hashes c -> h ∉ hashes c'.
Proof.
  intros [Hnd Hacc]. rewrite hashes_app in Hnd. apply NoDup_app in Hnd as (_ & Hdis & Hnd). rewrite join_app in Hacc.
  apply Forall_app in Hacc as [_ Hacc]. done.
Qed.

Lemma marked_app c c' s : marked (c ++ c')%list s -> marked c' s.
Proof. intros H h Hh. apply H. rewrite hashes_app, elem_of_app. by right. Qed.

Lemma node_ok_step nd nd' : node_ok nd -> node_step nd nd' -> node_ok nd'.
Proof.
  intros (Hd & Hrun & Hrec) Hs. pose proof Hd as [[Htip Hmark] Htarget]. unfold node_ok, disk_ok, heads_for.
  destruct Hs as [nd c roots active nHeight ms s Hroots Ht Hm Hcon|nd ms c Ht Hm|nd c Ht Hm|nd a rest Ht|nd s Hs|nd Ht Hm Hn|nd fork olds news Ht Hm Hold Hnew];
    cbn [markers coins_tip coins_target memory todo].
  - destruct (Hrun c Hm) as (Hc & Hk & Hn & _). destruct (chain_ok_connect _ _ _ _ _ _ _ Hroots Hc Hk Hcon) as [Hc' Hk'].
    split_and!; try done. intros c' [= <-]. split_and!; try done. intros _. by apply Hn.
  - destruct (Hrun _ Hm) as (Hc & Hk & Hn & _). destruct (chain_ok_app [ms] c Hc) as [Hc' Hdis]. apply (marked_app [ms]) in Hk.
    split_and!; try done. intros c' [= <-]. specialize (Hn Ht). split_and!; try done. intros Hne. case_bool_decide; [done|].
    exists [Erase_markers (list_to_set (nTxHash <$> ms))]. split; [|left; split; [done|by left]].
    intros h Hh%elem_of_list_to_set. apply Hdis. rewrite hashes_cons, elem_of_app. by left.
  - destruct (Hrun c Hm) as (Hc & Hk & Hn & _). specialize (Hn Ht). split_and!; try done. intros c' [= <-]. split_and!; try done.
    intros _. exists []. split; [done|]. left. split; [done|by left].
  - assert (Hmem : memory (act a nd rest) = memory nd) by (by destruct a). rewrite Hmem. fold (disk_ok (act a nd rest)).
    destruct (memory nd) as [c|] eqn:Hm.
    + destruct (act_ok nd c a rest Hd (Hrun c eq_refl) Ht) as [Hd' Hh]. split_and!; try done. by intros c' [= <-].
    + destruct (Hrec eq_refl) as [c Hc]; [by rewrite Ht|]. destruct (act_ok nd c a rest Hd Hc Ht) as [Hd' Hh]. split_and!; try done. intros _ _. by exists c.
  - split_and!; try done; [eapply marked_mono, Hmark; cbn; set_solver|]. intros c Hc. destruct (Htarget c Hc). split; [done|]. eapply marked_mono; [|done]. cbn. set_solver.
  - split_and!; try done. intros c [= <-]. split_and!; try done. eapply marked_mono, Hmark. apply disk_known.
  - split_and!; try done. intros _ _. exists (news ++ fork)%list. destruct (Htarget _ Hnew) as [Hc Hk]. split_and!; try done.
    + eapply marked_mono, Hk. unfold known, mint_FlushDataToCache. cbn. set_solver.
    + intros _. eexists. split; [|left; split; [done|by right]]. rewrite Hold in Htip. destruct (chain_ok_app _ _ Htip) as [_ Hdis].
      intros h [Ho Hn]%elem_of_difference. rewrite elem_of_list_to_set in Ho, Hn. rewrite hashes_app, elem_of_app. intros [|Hf]; [done|]. by apply (Hdis h).
Qed.

Lemma node_ok_reachable nd : rtc node_step node_genesis nd -> node_ok nd.
Proof.
  intros Hr. assert (Hc : chain_ok []) by (split; constructor). assert (Hm : forall s, marked [] s) by (by intros s h ?%elem_of_nil).
  assert (H0 : node_ok node_genesis) by (unfold node_ok, disk_ok, heads_for; cbn; split_and!; try done; by intros c [= <-]).
  revert H0. induction Hr as [|x y z Hxy _ IH]; [done|]. intros H. by apply IH, (node_ok_step x).
Qed.

Lemma chain_ok_mints c : chain_ok c ->
  NoDup (hashes c) /\ (NoDup ((fun m => (nBlockHash m, vchTxPath m)) <$> mjoin c) \/ collide sha3 (some_mint_node (mjoin c)) (some_mint_node (mjoin c))).
Proof. intros [Hnd Hacc]. split; [done|]. by apply (accepted_places sha3 root_of). Qed.
End nodes.

(** C3: no NEVM transaction is minted twice, through crashes too. Whatever a node does - it
    connects blocks, disconnects them, flushes, stops between any two writes to its two
    databases, starts again and replays -, the mints of the chain it has, and of the chain
    whose coins are on disk, have different NEVM transactions, at different places of the
    NEVM chain unless different nodes of their proofs have the same hash; and every one of them is in the database of
    minted transactions, where [ExistsTx] finds it. *)
Theorem minted_once (sha3 : bytes -> bytes) (params : BridgeParams) (root_of : uint256 -> option NEVMTxRoot) (nd : node)
    (c : list (list CMintSyscoin)) :
  rtc (node_step sha3 params root_of) node_genesis nd -> c = coins_tip nd \/ memory nd = Some c ->
  NoDup (hashes c) /\ (NoDup ((fun m => (nBlockHash m, vchTxPath m)) <$> mjoin c) \/ collide sha3 (some_mint_node (mjoin c)) (some_mint_node (mjoin c))) /\
  Forall (fun m => ExistsTx (markers nd) (nTxHash m) = true) (mjoin c).
Proof.
  intros ([[Htip Hmark] _] & Hrun & _)%node_ok_reachable Hc.
  assert (chain_ok sha3 root_of c /\ marked c (known (markers nd))) as [Hok Hm].
  { destruct Hc as [->|Hc]; [split; [done|eapply marked_mono, Hmark; apply disk_known]|by destruct (Hrun c Hc) as (? & ? & _)]. }
  destruct (chain_ok_mints _ _ _ Hok) as [Hnd Hpl]. split_and!; [done..|]. apply Forall_forall. intros m Hin.
  rewrite ExistsTx_known. apply bool_decide_eq_true, Hm. by apply list_elem_of_fmap_2.
Qed.

(** A block mints and is flushed; it is then disconnected, but the node stops when it has
    marked the new tip of the coins. The replay goes to that tip and erases the marker, and
    the mint is connected again. *)
Definition ex_connected : node :=
  {| markers := {| mint_mapCache := {[ nTxHash ex_mint ]}; mint_disk := ∅ |}; coins_tip := []; coins_target := None;
     memory := Some [[ex_mint]]; todo := [] |}.
Definition ex_flushed : node :=
  {| markers := {| mint_mapCache := ∅; mint_disk := {[ nTxHash ex_mint ]} |}; coins_tip := [[ex_mint]]; coins_target := None;
     memory := Some [[ex_mint]]; todo := [] |}.
Definition ex_crashed : node :=
  {| markers := {| mint_mapCache := ∅; mint_disk := {[ nTxHash ex_mint ]} |}; coins_tip := [[ex_mint]]; coins_target := Some [];
     memory := None; todo := [] |}.

Lemma node_eq m1 m2 d1 d2 tip target mem l : m1 = m2 -> d1 = d2 ->
  {| markers := {| mint_mapCache := m1; mint_disk := d1 |}; coins_tip := tip; coins_target := target; memory := mem; todo := l |} =
  {| markers := {| mint_mapCache := m2; mint_disk := d2 |}; coins_tip := tip; coins_target := target; memory := mem; todo := l |}.
Proof. by intros -> ->. Qed.

Ltac node_write := eapply rtc_l; [eapply node_act; reflexivity|]; cbn [act markers coins_tip coins_target memory todo app flush_coins].
Ltac node_same :=
  match goal with |- rtc _ ?x ?y => replace x with y; [apply rtc_refl|apply node_eq; set_solver] end.

Lemma ex_connects : connect_mints id ex_params ex_roots true 10 no_mints [ex_mint] ∅ = Ok {[ nTxHash ex_mint ]}.
Proof. vm_compute. reflexivity. Qed.

Lemma ex_connect_step : rtc (node_step id ex_params (ReadTxRoots ex_roots)) node_genesis ex_connected.
Proof.
  eapply rtc_l; [eapply (node_connect _ _ _ node_genesis [] ex_roots true 10 [ex_mint]); [by intros h r|done|done|exact ex_connects]|].
  unfold mint_FlushDataToCache. cbn [markers node_genesis mint_mapCache mint_disk coins_tip coins_target]. node_same.
Qed.

Lemma ex_flush_steps : rtc (node_step id ex_params (ReadTxRoots ex_roots)) ex_connected ex_flushed.
Proof.
  eapply rtc_l; [by apply (node_flush _ _ _ ex_connected [[ex_mint]])|]. unfold flush_coins. node_write. node_write. node_write.
  unfold mint_FlushCacheToDisk. cbn [markers ex_connected mint_mapCache mint_disk coins_tip coins_target memory default id]. node_same.
Qed.

Lemma ex_crash_steps : rtc (node_step id ex_params (ReadTxRoots ex_roots)) ex_flushed ex_crashed.
Proof.
  eapply rtc_l; [by apply (node_disconnect _ _ _ ex_flushed [ex_mint] [])|]. unfold flush_coins. cbn [bool_decide app]. node_write. node_write.
  eapply rtc_l; [apply (node_crash _ _ _ _ ∅); set_solver|].
  unfold mint_FlushCacheToDisk. cbn [markers ex_flushed mint_mapCache mint_disk coins_tip coins_target memory default id]. node_same.
Qed.

Lemma ex_replay_steps : rtc (node_step id ex_params (ReadTxRoots ex_roots)) ex_crashed node_genesis.
Proof.
  eapply rtc_l; [by apply (node_replay _ _ _ ex_crashed [] [[ex_mint]] [])|]. unfold flush_coins. cbn [app]. node_write. node_write. node_write. node_write.
  eapply rtc_l; [by apply node_restart|].
  unfold mint_FlushErase, mint_FlushCacheToDisk, mint_FlushDataToCache, hashes.
  cbn [markers ex_crashed mint_mapCache mint_disk coins_tip coins_target memory default id]. node_same.
Qed.

Lemma ex_run : rtc (node_step id ex_params (ReadTxRoots ex_roots)) node_genesis ex_connected.
Proof.
  etrans; [apply ex_connect_step|]. etrans; [apply ex_flush_steps|]. etrans; [apply ex_crash_steps|]. etrans; [apply ex_replay_steps|].
  apply ex_connect_step.
Qed.

Lemma minted_once_witness :
  NoDup (hashes [[ex_mint]]) /\ (NoDup [([1], [0x80])] \/ collide id (some_mint_node [ex_mint]) (some_mint_node [ex_mint])) /\ Forall (fun m => ExistsTx (markers ex_connected) (nTxHash m) = true) [ex_mint].
Proof.
  exact (minted_once id ex_params (ReadTxRoots ex_roots) ex_connected [[ex_mint]]
    ex_run (or_intror eq_refl)).
Defined.

(** ** A reorganisation that was cut off *)

(** The block 102 at height 2 spends the coin that the block 103, also on top of 101, spends in
    another transaction. *)
Definition replay_in (hash : uint256) (n : Z) : CTxIn := {| prevout := {| op_hash := hash; op_n := n |}; scriptSig := []; nSequence := SEQUENCE_FINAL; scriptWitness := [] |}.
Definition replay_tx (i : CTxIn) (value id : Z) : CTransaction := {| vin := [i]; vout := [example_out value]; nVersion := 2; nLockTime := id |}.
Definition replay_hash (tx : CTransaction) : uint256 := example_hash (nLockTime tx).
Definition replay_vtx (value id : Z) : list CTransaction :=
  [replay_tx (replay_in uint256_null NULL_INDEX) 8 id; replay_tx (replay_in (example_hash 9) 3) value (id + 1)].

Definition replay_entry (prev skip : option ptr) (h : Z) : CBlockIndex (U := unit) :=
  {| pprev := prev; pskip := skip; nHeight := h; nChainWork := (); nStatus := 0; Chain.nVersion := 1; hashMerkleRoot := [];
     nTime := h; nBits := 0; nNonce := 0; nSequenceId := 0; nTimeMax := h |}.
Definition replay_index : gmap ptr (CBlockIndex (U := unit)) :=
  <[example_hash 103 := replay_entry (Some (example_hash 101)) (Some (example_hash 100)) 2]>
  (<[example_hash 102 := replay_entry (Some (example_hash 101)) (Some (example_hash 100)) 2]>
  (<[example_hash 101 := replay_entry (Some (example_hash 100)) (Some (example_hash 100)) 1]>
   {[example_hash 100 := replay_entry None None 0]})).

Definition replay_blocks (p : ptr) : option (list CTransaction) :=
  if bool_decide (p = example_hash 102) then Some (replay_vtx 60 20) else if bool_decide (p = example_hash 103) then Some (replay_vtx 50 30) else None.
(** The other components follow. *)
Definition replay_others : Replayers :=
  {| special_undone := fun _ => true; nevm_disconnected := fun _ => true; special_processed := fun _ => true; nevm_data_valid := fun _ => true; nevm_connected := fun _ => true |}.
Definition replay_spent : Coin := Coin_of (example_out 70) 1 false.
Definition replay_undo (p : ptr) : option (list (list Coin)) := Some [[replay_spent]].

Definition replay_coins_at (value id : Z) : gmap COutPoint Coin :=
  <[{| op_hash := example_hash (id + 1); op_n := 0 |} := Coin_of (example_out value) 2 false]>
  {[ {| op_hash := example_hash id; op_n := 0 |} := Coin_of (example_out 8) 2 true ]}.
Definition replay_fork_coins : gmap COutPoint Coin := {[ {| op_hash := example_hash 9; op_n := 3 |} := replay_spent ]}.

(** The cache with the change from one to the other, of which two entries were written. *)
Definition replay_cache : CCoinsMap :=
  <[{| op_hash := example_hash 20; op_n := 0 |} := {| coin := coinEmpty; DIRTY := true; FRESH := false |}]>
  (<[{| op_hash := example_hash 21; op_n := 0 |} := {| coin := coinEmpty; DIRTY := true; FRESH := false |}]>
  ((fun c => {| coin := c; DIRTY := true; FRESH := true |}) <$> replay_coins_at 50 30)).
Definition replay_db : CCoinsViewDB :=
  db_partial {| db_coins := replay_coins_at 60 20; db_best_block := Some (example_hash 102); db_head_blocks := [] |} replay_cache (example_hash 103) 2.

Lemma replay_chain_wf : chain_wf replay_index.
Proof.
  intros p b. unfold replay_index. rewrite !lookup_insert_Some, lookup_singleton_Some.
  intros [[<- <-]|[_ [[<- <-]|[_ [[<- <-]|[_ [<- <-]]]]]]]; unfold index_ok; cbn [nHeight pprev pskip replay_entry]; (split; [lia|]); [| | |done].
  1,2: exists (replay_entry (Some (example_hash 100)) (Some (example_hash 100)) 1).
  3: exists (replay_entry None None 0).
  all: split_and!; [vm_compute; reflexivity|done|]; exists (example_hash 100); split; [done|vm_compute; reflexivity].
Qed.

Ltac replay_connects id :=
  eapply (connects_cons _ _ _ true); [reflexivity|done|reflexivity|by repeat constructor|intros j Hj; replace j with 0 by (cbn in Hj; lia); vm_compute; reflexivity|];
  eapply (connects_cons _ _ _ false _ [] _ _ {[ {| op_hash := example_hash id; op_n := 0 |} := Coin_of (example_out 8) 2 true ]} []); [reflexivity|intros _; vm_compute; reflexivity|vm_compute; reflexivity|by repeat constructor
    |intros j Hj; replace j with 0 by (cbn in Hj; lia); vm_compute; reflexivity|];
  match goal with |- connects _ _ _ _ _ ?m _ ?m' => replace m with m' by (vm_compute; reflexivity) end; constructor.

Lemma replay_connects_old : connects replay_hash 5000 2 (replay_vtx 60 20) true replay_fork_coins [[replay_spent]] (replay_coins_at 60 20).
Proof. replay_connects 20. Qed.
Lemma replay_connects_new : connects replay_hash 5000 2 (replay_vtx 50 30) true replay_fork_coins [[replay_spent]] (replay_coins_at 50 30).
Proof. replay_connects 30. Qed.

Lemma replay_fork_ok : map_Forall (fun _ => coin_ok) replay_fork_coins.
Proof. intros o c. unfold replay_fork_coins. intros [_ <-]%lookup_singleton_Some. split; [reflexivity|split; [reflexivity|discriminate]]. Qed.

Lemma replay_old_branch :
  old_branch replay_hash 5000 replay_index replay_blocks replay_undo (example_hash 101) (replay_entry (Some (example_hash 100)) (Some (example_hash 100)) 1)
    replay_fork_coins [example_hash 102] (example_hash 102) (example_hash 103) (replay_coins_at 60 20).
Proof.
  unfold old_branch. rewrite bool_decide_eq_false_2 by discriminate. split; [reflexivity|]. split; [vm_compute; reflexivity|].
  apply (branch_snoc _ _ _ _ _ _ _ [] (example_hash 101) replay_fork_coins _ (replay_entry (Some (example_hash 101)) (Some (example_hash 100)) 2)
    (replay_vtx 60 20) [[replay_spent]]); [constructor|vm_compute; reflexivity|reflexivity|vm_compute; reflexivity|reflexivity|discriminate|exact replay_connects_old].
Qed.

Lemma replay_new_branch :
  branch replay_hash 5000 replay_index replay_blocks replay_undo (example_hash 101) replay_fork_coins [example_hash 103] (example_hash 103) (replay_coins_at 50 30).
Proof.
  apply (branch_snoc _ _ _ _ _ _ _ [] (example_hash 101) replay_fork_coins _ (replay_entry (Some (example_hash 101)) (Some (example_hash 100)) 2)
    (replay_vtx 50 30) [[replay_spent]]); [constructor|vm_compute; reflexivity|reflexivity|vm_compute; reflexivity|reflexivity|discriminate|exact replay_connects_new].
Qed.

Lemma replay_interrupted : interrupted (example_hash 102) (example_hash 103) (replay_coins_at 60 20) (replay_coins_at 50 30) replay_db.
Proof. apply interrupted_flush; [|reflexivity|vm_compute; reflexivity]. unfold db_names_tip. by rewrite bool_decide_eq_false_2 by discriminate. Qed.

Lemma ReplayBlocks_recovers_witness :
  exists db' minted', ReplayBlocks replay_hash 5000 replay_index replay_blocks replay_undo replay_others replay_db no_mints = Ok (ViewDB db', minted') /\
    db_coins db' = replay_coins_at 50 30 /\ db_best_block db' = Some (example_hash 103).
Proof.
  destruct (ReplayBlocks_recovers replay_hash 5000 replay_index replay_blocks replay_undo replay_others replay_chain_wf (example_hash 101) (example_hash 102) (example_hash 103)
    (replay_entry (Some (example_hash 100)) (Some (example_hash 100)) 1) replay_fork_coins (replay_coins_at 60 20) (replay_coins_at 50 30)
    [example_hash 102] [example_hash 103] replay_db no_mints) as (db' & minted' & H1 & H2 & H3 & _).
  - vm_compute. reflexivity.
  - exact replay_fork_ok.
  - exact replay_old_branch.
  - exact replay_new_branch.
  - repeat constructor.
  - repeat constructor.
  - reflexivity.
  - exact replay_interrupted.
  - exists db', minted'. split; [exact H1|]. split; [exact H2|exact H3].
Defined.
