(* ===== verification/Js.v ===== *)
(** * JavaScript: values, numbers, strings and effects

    The part of ECMAScript that the bundled scripts under
    [src/src/immer/extra/js/lib] use: primitive values and references, numbers as
    IEEE-754 doubles ([SpecFloat] at precision 53), strings as sequences of
    UTF-16 code units, strict equality, truth, the conversions between strings
    and numbers, the relational operators, and a monad of state and exceptions
    for code that calls back into user functions.

    A reference carries the class that [Object.prototype.toString] reports, which
    an object keeps for its whole life, and an identity.  Converting an object to
    a primitive runs code of that object; it is the operation of the class
    [JsHost]. *)

From S2P Require Import Prelude.
From Stdlib Require Import SpecFloat.
From Stdlib Require Strings.String Strings.Ascii.
Export Strings.String.StringSyntax.

#[global] Bind Scope string_scope with Strings.String.string.
Delimit Scope string_scope with js.

(** ** Numbers *)

Abbreviation number := spec_float.

Definition num (z : Z) : number := binary_normalize 53 1024 z 0 false.
Definition nan : number := S754_nan.
Definition infinity : number := S754_infinity false.
Definition neg_infinity : number := S754_infinity true.
Definition nadd : number -> number -> number := SFadd 53 1024.
Definition nsub : number -> number -> number := SFsub 53 1024.
Definition nmul : number -> number -> number := SFmul 53 1024.
Definition ndiv : number -> number -> number := SFdiv 53 1024.
Definition neqb : number -> number -> bool := SFeqb.
Definition nltb : number -> number -> bool := SFltb.
Definition nleb : number -> number -> bool := SFleb.

Definition is_nan (x : number) : bool := match x with S754_nan => true | _ => false end.
Definition is_finite (x : number) : bool :=
  match x with S754_zero _ | S754_finite _ _ _ => true | _ => false end.

(** [m * 2^e], towards zero. *)
Definition scale (m : positive) (e : Z) : Z :=
  if 0 <=? e then Zpos m * 2 ^ e else Zpos m / 2 ^ (- e).

(** The integer part of a number ([Math.trunc]); zero where there is none. *)
Definition trunc (x : number) : Z :=
  match x with
  | S754_finite false m e => scale m e
  | S754_finite true m e => - scale m e
  | _ => 0
  end.

(** Is the number an integer (or a zero)? *)
Definition is_integral (x : number) : bool :=
  match x with
  | S754_zero _ => true
  | S754_finite _ m e => (0 <=? e) || (Zpos m mod 2 ^ (- e) =? 0)
  | _ => false
  end.

(** [Math.floor] and [Math.ceil] of a finite number, as integers. *)
Definition floor (x : number) : Z :=
  match x with
  | S754_finite true _ _ => if is_integral x then trunc x else trunc x - 1
  | _ => trunc x
  end.
Definition ceil (x : number) : Z :=
  match x with
  | S754_finite false _ _ => if is_integral x then trunc x else trunc x + 1
  | _ => trunc x
  end.

(** The remainder operator of the language: the sign of the dividend. *)
Definition nrem (x y : number) : number :=
  match x, y with
  | S754_nan, _ | _, S754_nan | S754_infinity _, _ | _, S754_zero _ => S754_nan
  | _, S754_infinity _ => x
  | S754_zero _, _ => x
  | S754_finite s mx ex, S754_finite _ my ey =>
      let e := Z.min ex ey in
      let r := (Zpos mx * 2 ^ (ex - e)) mod (Zpos my * 2 ^ (ey - e)) in
      binary_normalize 53 1024 (if s then - r else r) e s
  end.

(** [Math.min] and [Math.max] of two numbers that are not zeros of opposite sign. *)
Definition nmin (x y : number) : number :=
  if is_nan x || is_nan y then nan else if nltb y x then y else x.
Definition nmax (x y : number) : number :=
  if is_nan x || is_nan y then nan else if nltb x y then y else x.

(** ** Values *)

(** A string is the sequence of its UTF-16 code units. *)
Abbreviation jstring := (list Z).

Definition str (s : Strings.String.string) : jstring :=
  List.map (fun c => Z.of_N (Strings.Ascii.N_of_ascii c)) (Strings.String.list_ascii_of_string s).
Arguments str s%_js : simpl never.

(** What [Object.prototype.toString] reports between [object and the bracket. *)
Inductive jsclass :=
| ClsArguments | ClsArray | ClsBoolean | ClsDate | ClsError | ClsFunction
| ClsGeneratorFunction | ClsMap | ClsNumber | ClsObject | ClsPromise | ClsRegExp
| ClsSet | ClsString | ClsSymbol | ClsWeakMap | ClsWeakSet | ClsArrayBuffer
| ClsDataView | ClsFloat32Array | ClsFloat64Array | ClsInt8Array | ClsInt16Array
| ClsInt32Array | ClsUint8Array | ClsUint8ClampedArray | ClsUint16Array
| ClsUint32Array.

#[export] Instance jsclass_eq_dec : EqDecision jsclass.
Proof. solve_decision. Defined.

Inductive value :=
| Undefined
| Null
| Boolean (b : bool)
| Number (n : number)
| String (s : jstring)
| Symbol (id : Z)
| Ref (cls : jsclass) (id : Z).

#[export] Instance spec_float_eq_dec : EqDecision spec_float.
Proof. solve_decision. Defined.
#[export] Instance value_eq_dec : EqDecision value.
Proof. solve_decision. Defined.
#[export] Instance value_inhabited : Inhabited value := populate Undefined.

Inductive jstype :=
| TUndefined | TObject | TBoolean | TNumber | TString | TSymbol | TFunction.

#[export] Instance jstype_eq_dec : EqDecision jstype.
Proof. solve_decision. Defined.

Definition typeof (v : value) : jstype :=
  match v with
  | Undefined => TUndefined
  | Null => TObject
  | Boolean _ => TBoolean
  | Number _ => TNumber
  | String _ => TString
  | Symbol _ => TSymbol
  | Ref ClsFunction _ | Ref ClsGeneratorFunction _ => TFunction
  | Ref _ _ => TObject
  end.

(** The operator [===]. *)
Definition strict_eq (v w : value) : bool :=
  match v, w with
  | Undefined, Undefined | Null, Null => true
  | Boolean a, Boolean b => Bool.eqb a b
  | Number a, Number b => neqb a b
  | String a, String b => bool_decide (a = b)
  | Symbol a, Symbol b => a =? b
  | Ref c a, Ref d b => bool_decide (c = d) && (a =? b)
  | _, _ => false
  end.

(** [v == null]. *)
Definition is_nil (v : value) : bool :=
  match v with Undefined | Null => true | _ => false end.

Definition is_undefined (v : value) : bool :=
  match v with Undefined => true | _ => false end.

(** The truth of a value in a condition. *)
Definition truthy (v : value) : bool :=
  match v with
  | Undefined | Null => false
  | Boolean b => b
  | Number n => negb (neqb n (num 0) || is_nan n)
  | String s => negb (bool_decide (s = []))
  | Symbol _ | Ref _ _ => true
  end.

(** ** Numbers and strings *)

Definition is_digit (c : Z) : bool := (48 <=? c) && (c <=? 57).

(** White space and line terminators of the language. *)
Definition is_space (c : Z) : bool :=
  (9 <=? c) && (c <=? 13) || (c =? 32) || (c =? 160) || (c =? 0x1680) ||
  (0x2000 <=? c) && (c <=? 0x200a) || (c =? 0x2028) || (c =? 0x2029) || (c =? 0x202f) ||
  (c =? 0x205f) || (c =? 0x3000) || (c =? 0xfeff).

Fixpoint trim_start {A} (p : A -> bool) (s : list A) : list A :=
  match s with
  | c :: s' => if p c then trim_start p s' else s
  | [] => []
  end.
Definition trim_ends {A} (p : A -> bool) (s : list A) : list A :=
  rev (trim_start p (rev (trim_start p s))).

(** The value of a digit in a base up to 36. *)
Definition digit_value (c : Z) : Z :=
  if is_digit c then c - 48
  else if (97 <=? c) && (c <=? 122) then c - 87
  else if (65 <=? c) && (c <=? 90) then c - 55
  else 36.

(** The longest prefix of digits of a base: how many, their value, the rest. *)
Fixpoint take_digits (base : Z) (s : jstring) (n : nat) (acc : Z) : nat * Z * jstring :=
  match s with
  | c :: s' => if digit_value c <? base then take_digits base s' (S n) (acc * base + digit_value c)
               else (n, acc, s)
  | [] => (n, acc, [])
  end.

(** [m * 10^e], correctly rounded. *)
Definition decimal (m e : Z) : number :=
  match m with
  | Zpos p => if 0 <=? e then num (m * 10 ^ e)
              else ndiv (S754_finite false p 0) (S754_finite false (Z.to_pos (10 ^ (- e))) 0)
  | _ => num 0
  end.

Definition negate_num (neg : bool) (x : number) : number := if neg then SFopp x else x.

(** A sign, if there is one. *)
Definition take_sign (s : jstring) : bool * jstring :=
  match s with
  | 43 :: s => (false, s)
  | 45 :: s => (true, s)
  | _ => (false, s)
  end.

(** The exponent part of a decimal literal, which must end the string. *)
Definition exponent_part (s : jstring) : option Z :=
  match s with
  | [] => Some 0
  | c :: s =>
      if (c =? 101) || (c =? 69) then
        let '(neg, s) := take_sign s in
        let '(n, x, rest) := take_digits 10 s 0 0 in
        if bool_decide (n = O) || negb (bool_decide (rest = [])) then None
        else Some (if neg then - x else x)
      else None
  end.

Definition unsigned_decimal (s : jstring) : number :=
  if bool_decide (s = str "Infinity") then infinity else
  let '(n, x, rest) := take_digits 10 s 0 0 in
  let '(k, y, rest) :=
    match rest with
    | 46 :: rest => take_digits 10 rest 0 x
    | _ => (O, x, rest)
    end in
  if bool_decide ((n + k)%nat = O) then nan else
  match exponent_part rest with
  | Some e => decimal y (e - Z.of_nat k)
  | None => nan
  end.

Definition radix_literal (base : Z) (s : jstring) : number :=
  let '(n, x, rest) := take_digits base s 0 0 in
  if bool_decide (n = O) || negb (bool_decide (rest = [])) then nan else num x.

(** [StringToNumber] of the language. *)
Definition string_to_number (s : jstring) : number :=
  match trim_ends is_space s with
  | [] => num 0
  | (48 :: c :: s') as t =>
      if (c =? 120) || (c =? 88) then radix_literal 16 s'
      else if (c =? 111) || (c =? 79) then radix_literal 8 s'
      else if (c =? 98) || (c =? 66) then radix_literal 2 s'
      else unsigned_decimal t
  | t => let '(neg, t) := take_sign t in negate_num neg (unsigned_decimal t)
  end.

(** The decimal digits of a number below [10^fuel], most significant first. *)
Fixpoint digits_of (fuel : nat) (x : Z) (acc : jstring) : jstring :=
  match fuel with
  | O => acc
  | S fuel => let acc := 48 + x mod 10 :: acc in
              if x / 10 =? 0 then acc else digits_of fuel (x / 10) acc
  end.
Definition decimal_digits (x : Z) : jstring := digits_of (Z.to_nat (Z.log2 x + 1)) x [].

(** The number of decimal digits before the point of [n / d], negative or zero
    when the quotient is below one. *)
Fixpoint leading_zeros (fuel : nat) (n d k : Z) : Z :=
  match fuel with
  | O => k
  | S fuel => if d <=? n * 10 then k else leading_zeros fuel (n * 10) d (k - 1)
  end.
Definition decimal_exponent (n d : Z) : Z :=
  if d <=? n then Z.of_nat (length (decimal_digits (n / d))) else leading_zeros 400 n d 0.

(** The shortest decimal significand that reads back as [x], which is [n / d]:
    the closest one of each length is tried first, then its neighbour. *)
Fixpoint shortest (fuel : nat) (x : number) (n d e k : Z) : Z * Z :=
  match fuel with
  | O => (0, k)
  | S fuel =>
      let q := if 0 <=? e - k then n / (d * 10 ^ (e - k)) else n * 10 ^ (k - e) / d in
      let r := if 0 <=? e - k then n mod (d * 10 ^ (e - k)) else (n * 10 ^ (k - e)) mod d in
      let w := if 0 <=? e - k then d * 10 ^ (e - k) else d in
      let '(s1, s2) := if 2 * r <? w then (q, q + 1) else (q + 1, q) in
      if neqb (decimal s1 (e - k)) x then (s1, k)
      else if neqb (decimal s2 (e - k)) x then (s2, k)
      else shortest fuel x n d e (k + 1)
  end.

Definition zeros (n : Z) : jstring := replicate (Z.to_nat n) 48.

(** The layout of [s * 10^(n-k)], where [s] has [k] digits. *)
Definition layout (s : jstring) (n : Z) : jstring :=
  let k := Z.of_nat (length s) in
  if (k <=? n) && (n <=? 21) then s ++ zeros (n - k)
  else if (0 <? n) && (n <=? 21) then take (Z.to_nat n) s ++ str "." ++ drop (Z.to_nat n) s
  else if (-6 <? n) && (n <=? 0) then str "0." ++ zeros (- n) ++ s
  else take 1 s ++ (if k =? 1 then [] else str "." ++ drop 1 s) ++ str "e" ++
       (if n - 1 <? 0 then str "-" else str "+") ++ decimal_digits (Z.abs (n - 1)).

(** [Number::toString] of the language. *)
Definition number_to_string (x : number) : jstring :=
  match x with
  | S754_nan => str "NaN"
  | S754_zero _ => str "0"
  | S754_infinity s => (if s then str "-" else []) ++ str "Infinity"
  | S754_finite s m e =>
      let n := if 0 <=? e then Zpos m * 2 ^ e else Zpos m in
      let d := if 0 <=? e then 1 else 2 ^ (- e) in
      let ex := decimal_exponent n d in
      let '(q, k) := shortest 17 (S754_finite false m e) n d ex 1 in
      let ds := decimal_digits q in
      (if s then str "-" else []) ++ layout (rev (trim_start (Z.eqb 48) (rev ds))) (ex + (Z.of_nat (length ds) - k))
  end.

(** ** Conversions and relational operators *)

(** The conversion of an object to a primitive value runs its own [valueOf] and
    [toString] methods; the host says what these calls answer. *)
Class JsHost := {
  host_valueOf : jsclass -> Z -> value;
  host_toString : jsclass -> Z -> value;
  host_symbol : value -> jstring;   (* [Symbol.prototype.toString] *)
}.

Section conversions.
Context `{JsHost}.

(** The methods are tried in the order the hint asks for; an object in the answer
    means that the conversion raised a [TypeError]. *)
Definition to_primitive_with (string_first : bool) (v : value) : value :=
  match v with
  | Ref c i =>
      let '(first, second) :=
        if string_first then (host_toString c i, host_valueOf c i)
        else (host_valueOf c i, host_toString c i) in
      match first with Ref _ _ => second | _ => first end
  | _ => v
  end.
(** The hint of the arithmetic and relational operators. *)
Definition to_primitive (v : value) : value := to_primitive_with false v.
(** The default hint, of the operator [+]: dates prefer strings. *)
Definition to_primitive_default (v : value) : value :=
  to_primitive_with (match v with Ref ClsDate _ => true | _ => false end) v.

(** Symbols, and objects without a primitive value, raise a [TypeError]; the code
    modelled here tests for symbols first. *)
Definition primitive_to_number (v : value) : number :=
  match v with
  | Undefined => nan
  | Null => num 0
  | Boolean b => num (if b then 1 else 0)
  | Number n => n
  | String s => string_to_number s
  | Symbol _ | Ref _ _ => nan
  end.
Definition to_number (v : value) : number := primitive_to_number (to_primitive v).

Definition primitive_to_string (v : value) : jstring :=
  match v with
  | Undefined => str "undefined"
  | Null => str "null"
  | Boolean b => if b then str "true" else str "false"
  | Number n => number_to_string n
  | String s => s
  | Symbol _ | Ref _ _ => []
  end.
Definition to_string (v : value) : jstring := primitive_to_string (to_primitive_with true v).
(** [v + '']. *)
Definition concat_empty (v : value) : jstring := primitive_to_string (to_primitive_default v).

(** The operator [+]. *)
Definition js_plus (v w : value) : value :=
  match to_primitive_default v, to_primitive_default w with
  | (String _ as p), q | p, (String _ as q) =>
      String (primitive_to_string p ++ primitive_to_string q)
  | p, q => Number (nadd (primitive_to_number p) (primitive_to_number q))
  end.

(** Strings compare by their code units. *)
Fixpoint string_lt (s t : jstring) : bool :=
  match s, t with
  | _, [] => false
  | [], _ :: _ => true
  | a :: s, b :: t => (a <? b) || ((a =? b) && string_lt s t)
  end.

Definition js_lt (v w : value) : bool :=
  match to_primitive v, to_primitive w with
  | String s, String t => string_lt s t
  | p, q => nltb (primitive_to_number p) (primitive_to_number q)
  end.
Definition js_gt (v w : value) : bool := js_lt w v.
Definition js_le (v w : value) : bool :=
  match to_primitive v, to_primitive w with
  | String s, String t => negb (string_lt t s)
  | p, q => nleb (primitive_to_number p) (primitive_to_number q)
  end.
Definition js_ge (v w : value) : bool := js_le w v.

End conversions.

(** A host whose objects have the methods of [Object.prototype]. *)
Definition plain_host : JsHost :=
  {| host_valueOf := Ref; host_toString _ _ := String (str "[object Object]");
     host_symbol _ := str "Symbol()" |}.

(** ** Exactness of the arithmetic on integers and fractions *)

(** Every number of the language is a canonical double. *)
Definition valid_number (x : number) : Prop := valid_binary 53 1024 x = true.

Lemma digits2_log2 m : Zpos (digits2_pos m) = Z.log2 (Zpos m) + 1.
Proof.
  induction m as [m IH|m IH|]; cbn [digits2_pos]; [| |done];
    rewrite Pos2Z.inj_succ, IH.
  - change (Zpos m~1) with (2 * Zpos m + 1). rewrite Z.log2_succ_double; lia.
  - change (Zpos m~0) with (2 * Zpos m). rewrite Z.log2_double; lia.
Qed.

Lemma iter_xO (d m : positive) : Zpos (Pos.iter xO m d) = Zpos m * 2 ^ Zpos d.
Proof.
  induction d as [|d IH] using Pos.peano_ind; [rewrite Z.mul_comm; done|].
  rewrite Pos.iter_succ, Pos2Z.inj_succ, Z.pow_succ_r by lia.
  change (Zpos (Pos.iter xO m d)~0) with (2 * Zpos (Pos.iter xO m d)). lia.
Qed.

Lemma iter_shr_1 (d : positive) (q : positive) :
  SpecFloat.iter_pos shr_1 d (Build_shr_record (Zpos q * 2 ^ Zpos d) false false)
  = Build_shr_record (Zpos q) false false.
Proof.
  revert q. induction d as [d IH|d IH|]; intros q; cbn [SpecFloat.iter_pos].
  - replace (shr_1 _) with (Build_shr_record (Zpos (q * 2 ^ d) * 2 ^ Zpos d) false false).
    + rewrite IH, Pos2Z.inj_mul, Pos2Z.inj_pow. apply IH.
    + replace (Zpos q * 2 ^ Zpos d~1) with (2 * (Zpos q * 2 ^ Zpos d * 2 ^ Zpos d)).
      2:{ replace (Zpos d~1) with (1 + Zpos d + Zpos d) by lia.
          rewrite !Z.pow_add_r by lia. change (2 ^ 1) with 2. ring. }
      rewrite !Pos2Z.inj_mul, Pos2Z.inj_pow.
      destruct (Zpos q * 2 ^ Zpos d * 2 ^ Zpos d) eqn:E; [lia| |lia]. done.
  - replace (Zpos q * 2 ^ Zpos d~0) with (Zpos (q * 2 ^ d) * 2 ^ Zpos d).
    + rewrite IH, Pos2Z.inj_mul, Pos2Z.inj_pow. apply IH.
    + replace (Zpos d~0) with (Zpos d + Zpos d) by lia.
      rewrite Pos2Z.inj_mul, Pos2Z.inj_pow, Z.pow_add_r by lia. ring.
  - change (2 ^ 1) with 2. rewrite Z.mul_comm. done.
Qed.

Lemma log2_mul_pow2' q d : 0 <= d -> Z.log2 (Zpos q * 2 ^ d) = Z.log2 (Zpos q) + d.
Proof. intros. rewrite Z.log2_mul_pow2; lia. Qed.

Lemma shr_fexp_canonical q e :
  bounded 53 1024 q e = true ->
  shr_fexp 53 1024 (Zpos q) e loc_Exact = (Build_shr_record (Zpos q) false false, e) /\
  (e <=? 1024 - 53) = true.
Proof.
  unfold bounded, canonical_mantissa, shr_fexp, Zdigits2. intros [Hc He]%andb_prop.
  apply Z.eqb_eq in Hc. rewrite Hc, Z.sub_diag. done.
Qed.

Lemma round_canonical s q e :
  bounded 53 1024 q e = true -> binary_round_aux 53 1024 s (Zpos q) e loc_Exact = S754_finite s q e.
Proof.
  intros [Hs He]%shr_fexp_canonical. unfold binary_round_aux.
  rewrite Hs. cbn [shr_m loc_of_shr_record round_nearest_even]. rewrite Hs. cbn [shr_m].
  by rewrite He.
Qed.

(** Rounding [m * 2^e] is exact when it equals the double [q * 2^e']. *)
Lemma binary_round_exact s m e q e' :
  bounded 53 1024 q e' = true ->
  (e' <= e /\ Zpos q = Zpos m * 2 ^ (e - e')) \/ (e <= e' /\ Zpos m = Zpos q * 2 ^ (e' - e)) ->
  binary_round 53 1024 s m e = S754_finite s q e'.
Proof.
  intros Hb Hq.
  assert (Hf : fexp 53 1024 (Zpos (digits2_pos m) + e) = e').
  { unfold bounded, canonical_mantissa in Hb. apply andb_prop in Hb as [Hc _].
    apply Z.eqb_eq in Hc. rewrite <- Hc. f_equal. rewrite !digits2_log2.
    destruct Hq as [[? ->]|[? ->]]; rewrite log2_mul_pow2'; lia. }
  unfold binary_round, shl_align. rewrite Hf. destruct (e' - e) eqn:E.
  - replace m with q; [replace e with e' by lia; by apply round_canonical|].
    destruct Hq as [[? Hq]|[? Hq]]; [replace (e - e') with 0 in Hq by lia|]; lia.
  - assert (Zpos m = Zpos q * 2 ^ Zpos p) as Hm.
    { destruct Hq as [[? _]|[? Hq]]; [lia|done]. }
    unfold binary_round_aux at 1.
    assert (Hs : shr_fexp 53 1024 (Zpos m) e loc_Exact = (Build_shr_record (Zpos q) false false, e')).
    { unfold shr_fexp, Zdigits2. rewrite Hf, E. cbn [shr_record_of_loc shr].
      rewrite Hm, iter_shr_1. f_equal. lia. }
    rewrite Hs. cbn [shr_m loc_of_shr_record round_nearest_even].
    apply shr_fexp_canonical in Hb as [Hs' He]. rewrite Hs'. cbn [shr_m]. by rewrite He.
  - replace (Pos.iter xO m p) with q; [by apply round_canonical|].
    apply Pos2Z.inj. rewrite iter_xO. destruct Hq as [[? Hq]|[? _]]; [|lia].
    rewrite Hq. do 2 f_equal. lia.
Qed.

(** A significand of at most 53 bits is represented exactly. *)
Lemma normalize_small m e :
  Zpos m < 2 ^ 53 -> -1074 <= e <= 971 ->
  exists q e', e' <= e /\ Zpos q = Zpos m * 2 ^ (e - e') /\ bounded 53 1024 q e' = true /\
    e' = Z.max (Z.log2 (Zpos m) + 1 + e - 53) (-1074) /\
    forall s, binary_round 53 1024 s m e = S754_finite s q e'.
Proof.
  intros Hm He. set (e' := Z.max (Z.log2 (Zpos m) + 1 + e - 53) (-1074)).
  assert (Z.log2 (Zpos m) < 53) by (apply Z.log2_lt_pow2; lia).
  assert (Hq : exists q, Zpos q = Zpos m * 2 ^ (e - e')).
  { destruct (Zpos m * 2 ^ (e - e')) eqn:E; [| |]; eauto;
      pose proof (Z.pow_pos_nonneg 2 (e - e') ltac:(lia)); lia. }
  destruct Hq as [q Hq]. exists q, e'.
  assert (Hb : bounded 53 1024 q e' = true).
  { unfold bounded, canonical_mantissa, fexp, emin. rewrite digits2_log2, Hq, log2_mul_pow2' by lia.
    rewrite andb_true_iff, Z.eqb_eq, Z.leb_le. lia. }
  split_and!; [lia|done|done|done|]. intros s. apply binary_round_exact; [done|left; lia].
Qed.

(** The integers of at most 53 bits. *)
Definition small_int (z : Z) : Prop := Z.abs z < 2 ^ 53.

Lemma num_pos (z : positive) :
  Zpos z < 2 ^ 53 ->
  exists q e, e <= 0 /\ Zpos q = Zpos z * 2 ^ (- e) /\ bounded 53 1024 q e = true /\
    e = Z.log2 (Zpos z) - 52 /\
    num (Zpos z) = S754_finite false q e /\ num (Zneg z) = S754_finite true q e.
Proof.
  intros Hz. destruct (normalize_small z 0) as (q & e & ? & Hq & Hb & He & Hr); [lia..|].
  exists q, e. rewrite Z.sub_0_l in Hq. split_and!; [lia|done|done| |apply Hr|apply Hr].
  pose proof (Z.log2_nonneg (Zpos z)). lia.
Qed.

Lemma scale_exact q e t : e <= 0 -> Zpos q = t * 2 ^ (- e) -> scale q e = t.
Proof.
  intros He Hq. unfold scale. rewrite Hq. destruct (Z.leb_spec 0 e).
  - replace e with 0 by lia. lia.
  - apply Z.div_mul. lia.
Qed.

Lemma integral_exact s q e t : e <= 0 -> Zpos q = t * 2 ^ (- e) -> is_integral (S754_finite s q e) = true.
Proof.
  intros He Hq. unfold is_integral. rewrite Hq, Z.mod_mul; [apply orb_true_r|].
  pose proof (Z.pow_pos_nonneg 2 (- e) ltac:(lia)). lia.
Qed.

Lemma trunc_num z : small_int z -> trunc (num z) = z /\ is_integral (num z) = true.
Proof.
  unfold small_int. destruct z as [|z|z]; intros Hz; [done| |];
    destruct (num_pos z) as (q & e & He & Hq & _ & _ & Hp & Hn); [lia| |lia|].
  - rewrite Hp. cbn [trunc]. erewrite scale_exact, integral_exact by eauto. done.
  - rewrite Hn. cbn [trunc]. erewrite scale_exact, integral_exact by eauto. done.
Qed.

Lemma num_inj a b : small_int a -> small_int b -> num a = num b -> a = b.
Proof.
  intros Ha Hb H. apply trunc_num in Ha as [<- _], Hb as [<- _]. by rewrite H.
Qed.

(** The same integer, written with a smaller exponent. *)
Lemma normalize_scaled t k :
  small_int t -> 0 <= k -> binary_normalize 53 1024 (t * 2 ^ k) (- k) false = num t.
Proof.
  intros Ht Hk. pose proof (Z.pow_pos_nonneg 2 k ltac:(lia) Hk) as Hp.
  assert (Hex : forall (z m : positive), Zpos z < 2 ^ 53 -> Zpos m = Zpos z * 2 ^ k ->
    forall s, binary_round 53 1024 s m (- k) = binary_round 53 1024 s z 0).
  { intros z m Hz Hm s. destruct (normalize_small z 0) as (q & e & He & Hq & Hb & _ & Hr); [lia..|].
    rewrite Hr. apply binary_round_exact; [done|].
    rewrite Z.sub_0_l in Hq. destruct (Z.le_ge_cases e (- k)); [left|right]; split; try lia.
    - rewrite Hm, Hq, <- Z.mul_assoc, <- Z.pow_add_r by lia. do 2 f_equal. lia.
    - rewrite Hm, Hq, <- Z.mul_assoc, <- Z.pow_add_r by lia. do 2 f_equal. lia. }
  unfold small_int in Ht. destruct t as [|t|t]; [done| |].
  - destruct (Zpos t * 2 ^ k) eqn:E; [lia| |lia]. apply Hex; lia.
  - destruct (Zneg t * 2 ^ k) eqn:E; [lia|lia|]. apply Hex; [lia|].
    apply (f_equal Z.opp) in E. cbn in E. lia.
Qed.

Lemma num_pos_compare (a b : positive) qa ea qb eb :
  Zpos qa = Zpos a * 2 ^ (- ea) -> ea = Z.log2 (Zpos a) - 52 -> ea <= 0 ->
  Zpos qb = Zpos b * 2 ^ (- eb) -> eb = Z.log2 (Zpos b) - 52 -> eb <= 0 ->
  match ea ?= eb with Lt => Lt | Gt => Gt | Eq => Pos.compare_cont Eq qa qb end = (Zpos a ?= Zpos b).
Proof.
  intros Hqa Hea Ha Hqb Heb Hb. symmetry. destruct (Z.compare_spec ea eb) as [He|He|He].
  - change (Pos.compare_cont Eq qa qb) with (Zpos qa ?= Zpos qb). rewrite Hqa, Hqb, He.
    pose proof (Z.pow_pos_nonneg 2 (- eb) ltac:(lia) ltac:(lia)).
    apply Zmult_compare_compat_r. lia.
  - apply Z.compare_lt_iff. destruct (Z.lt_ge_cases (Zpos a) (Zpos b)); [done|].
    pose proof (Z.log2_le_mono (Zpos b) (Zpos a)). lia.
  - apply Z.compare_gt_iff. destruct (Z.lt_ge_cases (Zpos b) (Zpos a)); [done|].
    pose proof (Z.log2_le_mono (Zpos a) (Zpos b)). lia.
Qed.

Lemma num_compare a b :
  small_int a -> small_int b -> SFcompare (num a) (num b) = Some (a ?= b).
Proof.
  unfold small_int. intros Ha Hb.
  destruct a as [|a|a], b as [|b|b]; try done;
    try (destruct (num_pos a) as (qa & ea & ? & Hqa & _ & Hea & Hpa & Hna); [lia|]);
    try (destruct (num_pos b) as (qb & eb & ? & Hqb & _ & Heb & Hpb & Hnb); [lia|]);
    rewrite ?Hpa, ?Hna, ?Hpb, ?Hnb; try done; cbn [SFcompare]; f_equal.
  - eapply num_pos_compare; eauto.
  - change (Zneg a ?= Zneg b) with (CompOpp (Zpos a ?= Zpos b)).
    rewrite <- (num_pos_compare a b qa ea qb eb) by done.
    by destruct (ea ?= eb).
Qed.

Lemma nltb_num a b : small_int a -> small_int b -> nltb (num a) (num b) = (a <? b).
Proof. intros. unfold nltb, SFltb, Z.ltb. by rewrite num_compare by done. Qed.
Lemma nleb_num a b : small_int a -> small_int b -> nleb (num a) (num b) = (a <=? b).
Proof. intros. unfold nleb, SFleb, Z.leb. rewrite num_compare by done. by destruct (a ?= b). Qed.
Lemma neqb_num a b : small_int a -> small_int b -> neqb (num a) (num b) = (a =? b).
Proof.
  intros. unfold neqb, SFeqb. rewrite num_compare, Z.eqb_compare by done. by destruct (a ?= b).
Qed.

(** ** The remainder by one *)

Lemma shl_align_fst m e e' : e' <= e -> Zpos (fst (shl_align m e e')) = Zpos m * 2 ^ (e - e').
Proof.
  intros He. unfold shl_align. destruct (e' - e) eqn:E; [| lia |]; cbn [fst].
  - replace (e - e') with 0 by lia. lia.
  - rewrite iter_xO. do 2 f_equal. lia.
Qed.

(** A nonzero integer as its sign, significand and exponent. *)
Lemma num_nonzero a :
  small_int a -> a <> 0 ->
  exists s q e, num a = S754_finite s q e /\ num (- a) = S754_finite (negb s) q e /\ e <= 0 /\
    cond_Zopp s (Zpos q) = a * 2 ^ (- e).
Proof.
  unfold small_int. intros Ha H0. destruct a as [|a|a]; [done| |];
    destruct (num_pos a) as (q & e & He & Hq & _ & _ & Hp & Hn); try lia.
  - exists false, q, e. split_and!; [exact Hp|exact Hn|done|exact Hq].
  - exists true, q, e. split_and!; [exact Hn|exact Hp|done|]. cbn [cond_Zopp]. lia.
Qed.

Lemma cond_align s q e a ez :
  ez <= e -> e <= 0 -> cond_Zopp s (Zpos q) = a * 2 ^ (- e) ->
  cond_Zopp s (Zpos (fst (shl_align q e ez))) = a * 2 ^ (- ez).
Proof.
  intros He H0 Hq. rewrite shl_align_fst by done. replace (- ez) with (- e + (e - ez)) by lia.
  rewrite Z.pow_add_r, Z.mul_assoc, <- Hq by lia. destruct s; cbn [cond_Zopp]; lia.
Qed.

Lemma nsub_num a b :
  small_int a -> small_int b -> small_int (a - b) -> nsub (num a) (num b) = num (a - b).
Proof.
  intros Ha Hb Hab. destruct (Z.eq_dec a 0) as [->|Ha0], (Z.eq_dec b 0) as [->|Hb0]; [done|..].
  - destruct (num_nonzero b Hb Hb0) as (s & q & e & -> & E & _). rewrite Z.sub_0_l, E. done.
  - destruct (num_nonzero a Ha Ha0) as (s & q & e & E & _). rewrite Z.sub_0_r, E. done.
  - destruct (num_nonzero a Ha Ha0) as (s & q & e & -> & _ & He & Hq).
    destruct (num_nonzero b Hb Hb0) as (s' & q' & e' & -> & _ & He' & Hq').
    unfold nsub, SFsub. rewrite (cond_align s q e a), (cond_align s' q' e' b) by (done || lia).
    rewrite <- Z.mul_sub_distr_r. rewrite <- (Z.opp_involutive (Z.min e e')) at 2.
    by rewrite normalize_scaled by (done || lia).
Qed.

Lemma nadd_num a b :
  small_int a -> small_int b -> small_int (a + b) -> nadd (num a) (num b) = num (a + b).
Proof.
  intros Ha Hb Hab. destruct (Z.eq_dec a 0) as [->|Ha0], (Z.eq_dec b 0) as [->|Hb0]; [done|..].
  - destruct (num_nonzero b Hb Hb0) as (s & q & e & E & _). rewrite Z.add_0_l, E. done.
  - destruct (num_nonzero a Ha Ha0) as (s & q & e & E & _). rewrite Z.add_0_r, E. done.
  - destruct (num_nonzero a Ha Ha0) as (s & q & e & -> & _ & He & Hq).
    destruct (num_nonzero b Hb Hb0) as (s' & q' & e' & -> & _ & He' & Hq').
    unfold nadd, SFadd. rewrite (cond_align s q e a), (cond_align s' q' e' b) by (done || lia).
    rewrite <- Z.mul_add_distr_r. rewrite <- (Z.opp_involutive (Z.min e e')) at 2.
    by rewrite normalize_scaled by (done || lia).
Qed.

Lemma valid_finite s m e :
  valid_number (S754_finite s m e) -> Zpos m < 2 ^ 53 /\ -1074 <= e <= 971.
Proof.
  unfold valid_number, valid_binary, bounded, canonical_mantissa, fexp, emin.
  rewrite digits2_log2. intros [Hc He]%andb_prop. apply Z.eqb_eq in Hc. apply Z.leb_le in He.
  split; [|lia]. apply Z.log2_lt_pow2; lia.
Qed.

(** The remainder by one, before rounding. *)
Definition fraction (m : positive) (e : Z) : Z :=
  (Zpos m * 2 ^ (e - Z.min e (-52))) mod 2 ^ (- Z.min e (-52)).

Lemma nrem_one s m e :
  nrem (S754_finite s m e) (num 1)
  = binary_normalize 53 1024 (if s then - fraction m e else fraction m e) (Z.min e (-52)) s.
Proof.
  change (num 1) with (S754_finite false 4503599627370496 (-52)).
  cbn [nrem]. unfold fraction. change 4503599627370496 with (2 ^ 52).
  rewrite <- (Z.pow_add_r 2 52) by lia. by replace (52 + (-52 - Z.min e (-52))) with (- Z.min e (-52)) by lia.
Qed.

Lemma fraction_zero s m e : is_integral (S754_finite s m e) = true <-> fraction m e = 0.
Proof.
  unfold is_integral, fraction. set (em := Z.min e (-52)). rewrite orb_true_iff, Z.leb_le, Z.eqb_eq.
  destruct (Z.le_gt_cases 0 e) as [He|He].
  - split; [intros _|auto]. replace (e - em) with (e + - em) by lia.
    rewrite Z.pow_add_r, Z.mul_assoc by lia. apply Z.mod_mul. lia.
  - replace (- em) with (- e + (e - em)) by lia. rewrite Z.pow_add_r by lia.
    rewrite Z.mul_mod_distr_r by lia. nia.
Qed.

Lemma fraction_bound m e :
  Zpos m < 2 ^ 53 -> e < 0 -> 0 <= fraction m e < 2 ^ 53 /\
  Zpos m * 2 ^ (e - Z.min e (-52)) - fraction m e = scale m e * 2 ^ (- Z.min e (-52)).
Proof.
  intros Hm He. unfold fraction, scale. destruct (Z.leb_spec 0 e); [lia|].
  set (em := Z.min e (-52)).
  assert (HB : 2 ^ (- em) = 2 ^ (- e) * 2 ^ (e - em)) by (rewrite <- Z.pow_add_r by lia; f_equal; lia).
  rewrite HB, Z.mul_mod_distr_r by lia.
  pose proof (Z.pow_pos_nonneg 2 (e - em)). pose proof (Z.pow_pos_nonneg 2 (- e)).
  pose proof (Z.mod_pos_bound (Zpos m) (2 ^ (- e))).
  pose proof (Z.div_mod (Zpos m) (2 ^ (- e))).
  split; [|nia]. split; [nia|]. destruct (Z.le_gt_cases e (-52)).
  - replace (e - em) with 0 by lia. pose proof (Z.mod_le (Zpos m) (2 ^ (- e))). lia.
  - assert (2 ^ 52 = 2 ^ (- e) * 2 ^ (e - em)) as H52 by (rewrite <- HB; f_equal; lia).
    assert (2 ^ 53 = 2 * 2 ^ 52) by done. nia.
Qed.

(** Taking the remainder by one away leaves the integer part, exactly. *)
Lemma sub_remainder x :
  valid_number x -> is_finite x = true -> is_integral x = false ->
  nsub x (nrem x (num 1)) = num (trunc x) /\ small_int (trunc x) /\
  truthy (Number (nrem x (num 1))) = true.
Proof.
  destruct x as [s|s| |s m e]; try done. intros [Hm He]%valid_finite _ Hi.
  assert (He0 : e < 0) by (unfold is_integral in Hi; destruct (Z.leb_spec 0 e); [done|lia]).
  destruct (fraction_bound m e Hm He0) as [Hf Hd]. rewrite nrem_one.
  set (em := Z.min e (-52)) in *.
  destruct (fraction m e) as [|r|r] eqn:Er; [|clear Hi|lia].
  { apply (fraction_zero s) in Er. congruence. }
  destruct (normalize_small r em) as (q & e' & He' & Hq & _ & _ & Hr); [lia..|].
  assert (Hs : 0 <= scale m e < 2 ^ 53).
  { unfold scale. destruct (Z.leb_spec 0 e); [lia|].
    pose proof (Z.pow_pos_nonneg 2 (- e)). split; [apply Z.div_pos; lia|].
    pose proof (Z.div_le_upper_bound (Zpos m) (2 ^ (- e)) (Zpos m)). nia. }
  replace (binary_normalize 53 1024 (if s then _ else _) em s) with (S754_finite s q e')
    by (destruct s; symmetry; apply Hr).
  assert (Hsub : Zpos (fst (shl_align m e e')) - Zpos (fst (shl_align q e' e'))
                 = scale m e * 2 ^ (- e')).
  { rewrite !shl_align_fst, Z.sub_diag, Z.pow_0_r, Z.mul_1_r, Hq by lia.
    replace (e - e') with (e - em + (em - e')) by lia. replace (- e') with (- em + (em - e')) by lia.
    rewrite !Z.pow_add_r by lia. nia. }
  split_and!; [|cbn [trunc]; unfold small_int; destruct s; lia|by destruct s].
  unfold nsub, SFsub. rewrite (Z.min_r e e') by lia.
  destruct s; cbn [cond_Zopp trunc].
  - rewrite <- (normalize_scaled (- scale m e) (- e')) by (unfold small_int; lia). f_equal; lia.
  - rewrite <- (normalize_scaled (scale m e) (- e')) by (unfold small_int; lia). f_equal; lia.
Qed.

Lemma remainder_zero x :
  is_finite x = true -> is_integral x = true -> truthy (Number (nrem x (num 1))) = false.
Proof.
  destruct x as [s|s| |s m e]; try done. intros _ Hi%fraction_zero.
  rewrite nrem_one, Hi. by destruct s.
Qed.

(** ** Order and equality of numbers *)

Lemma scale_mono m1 e1 m2 e2 :
  bounded 53 1024 m1 e1 = true -> bounded 53 1024 m2 e2 = true ->
  match e1 ?= e2 with Lt => Lt | Gt => Gt | Eq => Pos.compare_cont Eq m1 m2 end <> Gt ->
  scale m1 e1 <= scale m2 e2.
Proof.
  intros H1 H2 Hc. pose proof (valid_finite false m1 e1 H1) as [Hm1 He1].
  pose proof (valid_finite false m2 e2 H2) as [_ He2].
  unfold bounded, canonical_mantissa, fexp, emin in H2. rewrite digits2_log2 in H2.
  apply andb_prop in H2 as [H2%Z.eqb_eq _].
  assert (Hle : forall k, 0 <= e1 + k -> 0 <= e2 + k ->
    Zpos m1 * 2 ^ (e1 + k) <= Zpos m2 * 2 ^ (e2 + k)).
  { intros k Hk1 Hk2. destruct (Z.compare_spec e1 e2) as [->|He|He]; [| |done].
    - change (Pos.compare_cont Eq m1 m2) with (Zpos m1 ?= Zpos m2) in Hc.
      apply Z.mul_le_mono_nonneg_r; [lia|done].
    - replace (e2 + k) with (1 + (e1 + k) + (e2 - e1 - 1)) by lia.
      rewrite (Z.pow_add_r 2 (1 + (e1 + k))), (Z.pow_add_r 2 1) by lia.
      pose proof (Z.log2_spec (Zpos m2) ltac:(lia)) as [Hl _].
      assert (2 ^ 52 <= Zpos m2) by (replace (Z.log2 (Zpos m2)) with 52 in Hl by lia; done).
      pose proof (Z.pow_pos_nonneg 2 (e2 - e1 - 1)). pose proof (Z.pow_pos_nonneg 2 (e1 + k)).
      assert (2 ^ 53 = 2 * 2 ^ 52) by done. change (2 ^ 1) with 2.
      transitivity (2 * Zpos m2 * 2 ^ (e1 + k)); [apply Z.mul_le_mono_nonneg_r; lia|].
      assert (0 <= Zpos m2 * 2 ^ (e1 + k)) by lia. nia. }
  assert (Hsc : forall m e k, 0 <= k -> 0 <= e + k -> scale m e = Zpos m * 2 ^ (e + k) / 2 ^ k).
  { intros m e k Hk Hek. unfold scale. destruct (Z.leb_spec 0 e).
    - rewrite Z.pow_add_r, Z.mul_assoc by lia. by rewrite Z.div_mul by lia.
    - replace k with (- e + (e + k)) at 2 by lia. rewrite (Z.pow_add_r 2 (- e)) by lia.
      rewrite Z.div_mul_cancel_r by lia. done. }
  rewrite (Hsc m1 e1 1074), (Hsc m2 e2 1074) by lia.
  apply Z.div_le_mono; [lia|]. apply Hle; lia.
Qed.

Lemma nleb_trunc x y :
  valid_number x -> valid_number y -> is_finite x = true -> is_finite y = true ->
  nleb x y = true -> trunc x <= trunc y.
Proof.
  assert (Hpos : forall m e, 0 <= scale m e).
  { intros m e. unfold scale. destruct (Z.leb_spec 0 e); [lia|apply Z.div_pos; lia]. }
  intros Hx Hy Fx Fy Hle. unfold nleb, SFleb in Hle. unfold valid_number, valid_binary in *.
  destruct x as [[]|s1| |[] m1 e1], y as [[]|s2| |[] m2 e2]; try done; cbn [trunc] in *;
    try pose proof (Hpos m1 e1); try pose proof (Hpos m2 e2); try lia.
  - cut (scale m2 e2 <= scale m1 e1); [lia|]. cbn in Hle. apply scale_mono; [done..|].
    rewrite Z.compare_antisym. intros E. destruct (e1 ?= e2); try done.
    rewrite (Pos.compare_cont_antisym m1 m2 Eq) in Hle. cbn in Hle, E. by rewrite E in Hle.
  - cbn in Hle. apply scale_mono; [done..|]. intros E. by rewrite E in Hle.
Qed.

(** ** Effects: user state and exceptions *)

Inductive exn :=
| TypeError
| RangeError
| Thrown (v : value).

(** A computation over a state [S]; the state is kept when it throws. *)
Definition eff (S A : Type) : Type := S -> result exn A * S.

#[export] Instance eff_ret {S} : MRet (eff S) := fun _ a σ => (Ok a, σ).
#[export] Instance eff_bind {S} : MBind (eff S) := fun A B k m σ =>
  match m σ with
  | (Ok a, σ) => k a σ
  | (Throw e, σ) => (Throw e, σ)
  end.
Definition throw {S A} (e : exn) : eff S A := fun σ => (Throw e, σ).
Definition get_state {S} : eff S S := fun σ => (Ok σ, σ).
Definition put_state {S} (σ : S) : eff S unit := fun _ => (Ok tt, σ).

(** Equality of computations: same outcome and state from every state. *)
Definition eff_eq {S A} (m n : eff S A) : Prop := forall σ, m σ = n σ.
Infix "≈" := eff_eq (at level 70).

#[export] Instance eff_eq_equiv {S A} : Equivalence (@eff_eq S A).
Proof.
  split; unfold eff_eq; [by intros m σ|by intros m n H σ|].
  intros m n o H1 H2 σ. by rewrite H1.
Qed.

Lemma eff_bind_proper {S A B} (k k' : A -> eff S B) (m m' : eff S A) :
  m ≈ m' -> (forall a, k a ≈ k' a) -> (m ≫= k) ≈ (m' ≫= k').
Proof.
  intros Hm Hk σ. unfold mbind, eff_bind. rewrite Hm.
  destruct (m' σ) as [[a|e] σ']; [apply Hk|done].
Qed.

Lemma eff_ret_bind {S A B} (a : A) (k : A -> eff S B) : (mret a ≫= k) ≈ k a.
Proof. done. Qed.
Lemma eff_bind_ret {S A} (m : eff S A) : (m ≫= mret) ≈ m.
Proof. intros σ. unfold mbind, eff_bind. by destruct (m σ) as [[]]. Qed.
Lemma eff_bind_assoc {S A B C} (m : eff S A) (f : A -> eff S B) (g : B -> eff S C) :
  ((m ≫= f) ≫= g) ≈ (m ≫= fun a => f a ≫= g).
Proof. intros σ. unfold mbind, eff_bind. by destruct (m σ) as [[]]. Qed.
Lemma eff_throw_bind {S A B} (e : exn) (k : A -> eff S B) : (throw e ≫= k) ≈ throw e.
Proof. done. Qed.

(** ** Loops over an array

    [loop body i l acc] runs [body] on the elements of [l] from the first to the
    last with their indexes, starting at [i]; a body answers the next accumulator
    ([inl]) or leaves the loop ([inr]).  [loop_right] goes from the last element
    to the first.  The [e] versions call user code. *)

Section loops.
Context {S A Acc R : Type}.

Fixpoint loop (body : Z -> A -> Acc -> Acc + R) (i : Z) (l : list A) (acc : Acc) : Acc + R :=
  match l with
  | [] => inl acc
  | x :: l => match body i x acc with
              | inl acc => loop body (i + 1) l acc
              | inr r => inr r
              end
  end.

Fixpoint loop_right (body : Z -> A -> Acc -> Acc + R) (i : Z) (l : list A) (acc : Acc) : Acc + R :=
  match l with
  | [] => inl acc
  | x :: l => match loop_right body (i + 1) l acc with
              | inl acc => body i x acc
              | inr r => inr r
              end
  end.

Fixpoint eloop (body : Z -> A -> Acc -> eff S (Acc + R)) (i : Z) (l : list A) (acc : Acc) :
    eff S (Acc + R) :=
  match l with
  | [] => mret (inl acc)
  | x :: l => r ← body i x acc;
              match r with
              | inl acc => eloop body (i + 1) l acc
              | inr r => mret (inr r)
              end
  end.

Fixpoint eloop_right (body : Z -> A -> Acc -> eff S (Acc + R)) (i : Z) (l : list A) (acc : Acc) :
    eff S (Acc + R) :=
  match l with
  | [] => mret (inl acc)
  | x :: l => r ← eloop_right body (i + 1) l acc;
              match r with
              | inl acc => body i x acc
              | inr r => mret (inr r)
              end
  end.

End loops.

(** A loop that is left with [break] or runs to its end, both with the accumulator. *)
Definition ended {Acc} (r : Acc + Acc) : Acc := match r with inl a => a | inr a => a end.
(** A loop left by returning [r], else [d]. *)
Definition returned {Acc R} (d : R) (r : Acc + R) : R := match r with inl _ => d | inr r => r end.

(** ** Dense arrays *)

(** [array.length]. *)
Abbreviation len l := (Z.of_nat (length l)).

(** [array[i]]. *)
Definition at_index (l : list value) (i : Z) : value :=
  if i <? 0 then Undefined else default Undefined (l !! Z.to_nat i).
Notation "l .[ i ]" := (at_index l i) (at level 1, format "l .[ i ]").

(** [array[i] = v]: the elements skipped by a write past the end read as undefined. *)
Definition set_index (l : list value) (i : Z) (v : value) : list value :=
  if i <? len l then <[Z.to_nat i := v]> l
  else l ++ replicate (Z.to_nat i - length l) Undefined ++ [v].

(** [splice.call(array, i, 1)] for an index that is not negative. *)
Definition splice1 {A} (l : list A) (i : Z) : list A :=
  take (Z.to_nat i) l ++ drop (S (Z.to_nat i)) l.
