(* ===== verification/JsRegExp.v ===== *)
(** * Regular expressions of the language

    The part of the regular expressions of the language that the string functions of
    [immer/extra/js/lib/lodash.js] use: classes of code units, sequences, alternatives,
    greedy repetition, lookahead and the two anchors, matched with backtracking in the
    order of the alternatives, and the methods [test], [search], [match] and [replace]. *)

From S2P Require Import Prelude Js.

(** A class of code units: the ranges between brackets. *)
Abbreviation ranges := (list (Z * Z)).
Definition in_ranges (rs : ranges) (c : Z) : bool := existsb (fun '(a, b) => (a <=? c) && (c <=? b)) rs.

Inductive regex :=
| REmpty
| RIn (rs : ranges)
| RNotIn (rs : ranges)
| RSeq (r r' : regex)
| RAlt (r r' : regex)
| ROpt (r : regex)
| RStar (r : regex)
| RAhead (r : regex)
| RBegin
| REnd.

Declare Scope regex_scope.
Delimit Scope regex_scope with re.
Bind Scope regex_scope with regex.
Infix "⋅" := RSeq (at level 40, left associativity) : regex_scope.
Infix "∣" := RAlt (at level 50, left associativity) : regex_scope.

Definition RPlus (r : regex) : regex := RSeq r (RStar r).
(** A literal string. *)
Definition RStr (s : jstring) : regex := foldr (fun c r => RSeq (RIn [(c, c)]) r) REmpty s.
Definition RAlts (rs : list regex) : regex :=
  match rs with [] => REmpty | r :: rs => foldl RAlt r rs end.

(** Matching at the head of [s], a suffix of a string of [total] units; [k] matches what
    follows.  An iteration that matches nothing fails. *)
Fixpoint matches (r : regex) (total : nat) (s : jstring) (k : jstring -> option jstring) : option jstring :=
  match r with
  | REmpty => k s
  | RIn rs => match s with c :: s => if in_ranges rs c then k s else None | [] => None end
  | RNotIn rs => match s with c :: s => if in_ranges rs c then None else k s | [] => None end
  | RSeq r r' => matches r total s (fun s => matches r' total s k)
  | RAlt r r' => match matches r total s k with Some s => Some s | None => matches r' total s k end
  | ROpt r =>
      match matches r total s (fun s' => if (length s' =? length s)%nat then None else k s') with
      | Some s => Some s
      | None => k s
      end
  | RStar r =>
      (fix star (fuel : nat) (s : jstring) : option jstring :=
         match fuel with
         | O => k s
         | S fuel =>
             match matches r total s (fun s' => if (length s' =? length s)%nat then None else star fuel s') with
             | Some s => Some s
             | None => k s
             end
         end) (length s) s
  | RAhead r => match matches r total s Some with Some _ => k s | None => None end
  | RBegin => if (length s =? total)%nat then k s else None
  | REnd => match s with [] => k s | _ :: _ => None end
  end.

(** The match at the head of [s], and what follows it. *)
Definition match_here (r : regex) (total : nat) (s : jstring) : option (jstring * jstring) :=
  match matches r total s Some with
  | Some rest => Some (take (length s - length rest) s, rest)
  | None => None
  end.

(** The first match in [s]: what precedes it, the match and what follows. *)
Fixpoint exec_from (r : regex) (total : nat) (s : jstring) : option (jstring * jstring * jstring) :=
  match match_here r total s with
  | Some (m, rest) => Some ([], m, rest)
  | None =>
      match s with
      | [] => None
      | c :: s =>
          match exec_from r total s with
          | Some (before, m, rest) => Some (c :: before, m, rest)
          | None => None
          end
      end
  end.

Definition test (r : regex) (s : jstring) : bool :=
  match exec_from r (length s) s with Some _ => true | None => false end.

Definition search (r : regex) (s : jstring) : Z :=
  match exec_from r (length s) s with Some (before, _, _) => len before | None => -1 end.

(** The matches of a global expression and the text between them, from left to right;
    after an empty match the search goes on one unit further. *)
Fixpoint pieces (r : regex) (total fuel : nat) (s : jstring) : list (jstring + jstring) :=
  match fuel with
  | O => []
  | S fuel =>
      match match_here r total s with
      | Some ([], _) =>
          inr [] :: match s with [] => [] | c :: s => inl [c] :: pieces r total fuel s end
      | Some (m, rest) => inr m :: pieces r total fuel rest
      | None => match s with [] => [] | c :: s => inl [c] :: pieces r total fuel s end
      end
  end.

Definition replace_all (r : regex) (f : jstring -> jstring) (s : jstring) : jstring :=
  concat (List.map (fun p => match p with inl t => t | inr m => f m end) (pieces r (length s) (S (length s)) s)).

(** [string.match] of a global expression, [None] for [null]. *)
Definition match_all (r : regex) (s : jstring) : option (list jstring) :=
  match omap (fun p => match p with inl _ => None | inr m => Some m end) (pieces r (length s) (S (length s)) s) with
  | [] => None
  | ms => Some ms
  end.

(** [string.replace] of an expression that is not global. *)
Definition replace_first (r : regex) (f : jstring -> jstring) (s : jstring) : jstring :=
  match exec_from r (length s) s with
  | Some (before, m, rest) => before ++ f m ++ rest
  | None => s
  end.

(** ** Laws *)

(** How many units a match takes at least. *)
Fixpoint min_len (r : regex) : nat :=
  match r with
  | RIn _ | RNotIn _ => 1
  | RSeq r r' => min_len r + min_len r'
  | RAlt r r' => min (min_len r) (min_len r')
  | _ => 0
  end.

Lemma matches_suffix r total s k x :
  matches r total s k = Some x ->
  exists m s', s = m ++ s' /\ (min_len r <= length m)%nat /\ k s' = Some x.
Proof.
  revert s k x. induction r as [|rs|rs|r IH r' IH'|r IH r' IH'|r IH|r IH|r _| |]; intros s k x; cbn [matches min_len].
  - intros. by exists [], s.
  - destruct s as [|c s]; [done|]. destruct (in_ranges rs c); [|done]. intros. by exists [c], s.
  - destruct s as [|c s]; [done|]. destruct (in_ranges rs c); [done|]. intros. by exists [c], s.
  - intros (m & s1 & -> & Hm & (m' & s2 & -> & Hm' & Hk)%IH')%IH.
    exists (m ++ m'), s2. rewrite length_app, app_assoc. split_and!; [done|lia|done].
  - destruct (matches r total s k) as [y|] eqn:E; intros Hx.
    + apply IH in E as (m & s' & -> & Hm & Hk). exists m, s'. simplify_eq. split_and!; [done|lia|done].
    + apply IH' in Hx as (m & s' & -> & Hm & Hk). exists m, s'. split_and!; [done|lia|done].
  - destruct (matches r total s _) as [y|] eqn:E; intros Hx; simplify_eq; [|by exists [], s].
    apply IH in E as (m & s' & -> & Hm & Hk). exists m, s'. case_match; [done|]. split_and!; [done|lia|done].
  - generalize (length s) as fuel. intros fuel. revert s. induction fuel as [|fuel IHf]; intros s Hx; [by exists [], s|].
    destruct (matches r total s _) as [y|] eqn:E; simplify_eq; [|by exists [], s].
    apply IH in E as (m & s' & -> & Hm & Hk). case_match; [done|].
    apply IHf in Hk as (m' & s2 & -> & _ & Hk). exists (m ++ m'), s2. rewrite app_assoc. split_and!; [done|lia|done].
  - destruct (matches r total s Some); [|done]. intros. by exists [], s.
  - case_match; [|done]. intros. by exists [], s.
  - destruct s; [|done]. intros. by exists [], [].
Qed.

Lemma match_here_app r total s m rest :
  match_here r total s = Some (m, rest) -> s = m ++ rest /\ (min_len r <= length m)%nat.
Proof.
  unfold match_here. destruct (matches r total s Some) as [x|] eqn:E; [|done]. intros [= <- <-].
  apply matches_suffix in E as (m & s' & -> & Hm & [= ->]).
  rewrite length_app, Nat.add_sub, take_app_length. done.
Qed.

Definition piece_text (p : jstring + jstring) : jstring := match p with inl t => t | inr m => m end.

(** The pieces make up the string. *)
Lemma pieces_concat r total fuel s :
  (length s < fuel)%nat -> concat (List.map piece_text (pieces r total fuel s)) = s.
Proof.
  revert s. induction fuel as [|fuel IH]; intros s Hf; [lia|]. cbn [pieces].
  destruct (match_here r total s) as [[[|c m] rest]|] eqn:E.
  - destruct s as [|c s]; [done|]. cbn. rewrite IH; [done|cbn in Hf; lia].
  - apply match_here_app in E as [-> _]. cbn. rewrite IH; [done|].
    rewrite length_app in Hf. cbn in Hf. lia.
  - destruct s as [|c s]; [done|]. cbn. rewrite IH; [done|cbn in Hf; lia].
Qed.

(** Replacing the units of a class. *)
Lemma replace_class rs f s :
  replace_all (RIn rs) f s = flat_map (fun c => if in_ranges rs c then f [c] else [c]) s.
Proof.
  unfold replace_all. generalize (length s) at 1. intros total.
  assert (Hf : (length s < S (length s))%nat) by lia. revert Hf. generalize (S (length s)) as fuel. intros fuel.
  revert s. induction fuel as [|fuel IH]; intros s Hf; [lia|].
  destruct s as [|c s]; [done|]. cbn [pieces]. unfold match_here. cbn [matches flat_map].
  destruct (in_ranges rs c).
  - replace (length (c :: s) - length s)%nat with 1%nat by (cbn; lia). cbn. rewrite IH; [done|cbn in Hf; lia].
  - cbn. rewrite IH; [done|cbn in Hf; lia].
Qed.

Lemma exec_class rs total s : is_Some (exec_from (RIn rs) total s) <-> existsb (in_ranges rs) s = true.
Proof.
  induction s as [|c s IH]; cbn [exec_from existsb].
  { cbn. split; [by intros [? ?]|done]. }
  unfold match_here. cbn [matches]. destruct (in_ranges rs c); [split; [done|by eexists]|].
  cbn [orb]. rewrite <- IH. destruct (exec_from (RIn rs) total s) as [[[]]|]; split; intros [? ?]; done || by eexists.
Qed.

Lemma test_class rs s : test (RIn rs) s = existsb (in_ranges rs) s.
Proof.
  unfold test. pose proof (exec_class rs (length s) s) as [H1 H2].
  destruct (exec_from (RIn rs) (length s) s).
  - symmetry. apply H1. by eexists.
  - destruct (existsb (in_ranges rs) s); [|done]. by destruct (H2 eq_refl).
Qed.

Lemma match_here_intro r total m rest :
  matches r total (m ++ rest) Some = Some rest -> match_here r total (m ++ rest) = Some (m, rest).
Proof. unfold match_here. intros ->. by rewrite length_app, Nat.add_sub, take_app_length. Qed.

(** Nothing is replaced where nothing matches. *)
Lemma replace_none r f s : test r s = false -> replace_all r f s = s.
Proof.
  unfold test, replace_all. generalize (length s) at 1 2. intros total Ht.
  assert (Hf : (length s < S (length s))%nat) by lia. revert Hf Ht. generalize (S (length s)) as fuel. intros fuel.
  revert s. induction fuel as [|fuel IH]; intros s Hf Ht; [lia|]. cbn [pieces].
  destruct s as [|c s]; cbn [exec_from] in Ht; (destruct (match_here r total _) as [[]|]; [done|]); [done|].
  cbn. rewrite IH; [done|cbn in Hf; lia|]. by destruct (exec_from r total s) as [[[]]|].
Qed.
