(* ===== verification/JsCaptures.v ===== *)
(** * Regular expressions with groups

    The expressions of [immer/extra/js/lib/lodash.js] that capture: groups, references back to
    them, lookahead of both kinds, and repetition that takes as little as it can.  Matching
    backtracks in the order of the language and hands the groups on.

    Shown here: what some of these constructs match, for the proofs about property paths. *)

From S2P Require Import Prelude Js JsRegExp.

Inductive cregex :=
| CUnit (negated : bool) (rs : ranges)
| CSeq (r r' : cregex)
| CAlt (r r' : cregex)
| COpt (r : cregex)
| CStar (greedy : bool) (r : cregex)
| CGroup (n : nat) (r : cregex)
| CBack (n : nat)
| CAhead (positive : bool) (r : cregex)
| CBegin
| CEnd.

Declare Scope cregex_scope.
Delimit Scope cregex_scope with cre.
Bind Scope cregex_scope with cregex.
Infix "⋅" := CSeq (at level 40, left associativity) : cregex_scope.
Infix "∣" := CAlt (at level 50, left associativity) : cregex_scope.

Definition CChar (c : Z) : cregex := CUnit false [(c, c)].
Definition CPlus (r : cregex) : cregex := CSeq r (CStar true r).
(** The dot: all but the line terminators. *)
Definition CDot : cregex := CUnit true [(10, 10); (13, 13); (0x2028, 0x2029)].

Abbreviation captures := (gmap nat jstring).

Fixpoint groups (r : cregex) : list nat :=
  match r with
  | CUnit _ _ | CBack _ | CBegin | CEnd => []
  | CSeq r r' | CAlt r r' => groups r ++ groups r'
  | COpt r | CStar _ r | CAhead _ r => groups r
  | CGroup n r => n :: groups r
  end.

(** Every iteration starts with its groups unset. *)
Definition unset_groups (ns : list nat) (cs : captures) : captures := foldr delete cs ns.

(** What follows [t] in [s], if [s] starts with it. *)
Fixpoint strip (t s : jstring) : option jstring :=
  match t, s with
  | [], _ => Some s
  | a :: t, b :: s => if a =? b then strip t s else None
  | _ :: _, [] => None
  end.

Abbreviation state := (jstring * captures)%type.

(** Repetition of what [m] matches: as often as possible first, or as rarely.  An iteration
    that matches nothing fails. *)
Fixpoint star_loop (m : jstring -> captures -> (jstring -> captures -> option state) -> option state) (greedy : bool) (ns : list nat)
  (k : jstring -> captures -> option state) (fuel : nat) (s : jstring) (cs : captures) : option state :=
  match fuel with
  | O => k s cs
  | S fuel =>
      let more := m s (unset_groups ns cs) (fun s' cs => if (length s' =? length s)%nat then None else star_loop m greedy ns k fuel s' cs) in
      if greedy then match more with Some x => Some x | None => k s cs end
      else match k s cs with Some x => Some x | None => more end
  end.

(** Matching at the head of [s], a suffix of a string of [total] units; [k] matches what
    follows. *)
Fixpoint cmatches (r : cregex) (total : nat) (s : jstring) (cs : captures) (k : jstring -> captures -> option state) : option state :=
  match r with
  | CUnit negated rs =>
      match s with
      | c :: s => if Bool.eqb (in_ranges rs c) negated then None else k s cs
      | [] => None
      end
  | CSeq r r' => cmatches r total s cs (fun s cs => cmatches r' total s cs k)
  | CAlt r r' => match cmatches r total s cs k with Some x => Some x | None => cmatches r' total s cs k end
  | COpt r =>
      match cmatches r total s (unset_groups (groups r) cs) (fun s' cs => if (length s' =? length s)%nat then None else k s' cs) with
      | Some x => Some x
      | None => k s cs
      end
  | CStar greedy r => star_loop (cmatches r total) greedy (groups r) k (length s) s cs
  | CGroup n r => cmatches r total s cs (fun s' cs => k s' (<[n := take (length s - length s') s]> cs))
  | CBack n => match strip (default [] (cs !! n)) s with Some s => k s cs | None => None end
  | CAhead positive r =>
      match cmatches r total s cs (fun s cs => Some (s, cs)) with
      | Some (_, cs') => if positive then k s cs' else None
      | None => if positive then None else k s cs
      end
  | CBegin => if (length s =? total)%nat then k s cs else None
  | CEnd => match s with [] => k s cs | _ :: _ => None end
  end.

Definition finish (s : jstring) (cs : captures) : option state := Some (s, cs).

(** The match at the head of [s], its groups, and what follows it. *)
Definition cmatch_here (r : cregex) (total : nat) (s : jstring) : option (jstring * captures * jstring) :=
  match cmatches r total s ∅ finish with
  | Some (rest, cs) => Some (take (length s - length rest) s, cs, rest)
  | None => None
  end.

(** Is there a match in [s]? *)
Fixpoint ctest_from (r : cregex) (total : nat) (s : jstring) : bool :=
  match cmatch_here r total s with
  | Some _ => true
  | None => match s with [] => false | _ :: s => ctest_from r total s end
  end.
Definition ctest (r : cregex) (s : jstring) : bool := ctest_from r (length s) s.

(** The matches of a global expression with their groups and the text between them; after an
    empty match the search goes on one unit further. *)
Fixpoint cpieces (r : cregex) (total fuel : nat) (s : jstring) : list (Z + jstring * captures) :=
  match fuel with
  | O => []
  | S fuel =>
      match cmatch_here r total s with
      | Some ([], cs, _) => inr ([], cs) :: match s with [] => [] | c :: s => inl c :: cpieces r total fuel s end
      | Some (m, cs, rest) => inr (m, cs) :: cpieces r total fuel rest
      | None => match s with [] => [] | c :: s => inl c :: cpieces r total fuel s end
      end
  end.

(** The calls of the function that [string.replace] of a global expression is given. *)
Definition cmatch_all (r : cregex) (s : jstring) : list (jstring * captures) :=
  omap (fun p => match p with inl _ => None | inr m => Some m end) (cpieces r (length s) (S (length s)) s).

(** [string.replace] of a global expression. *)
Definition creplace_all (r : cregex) (f : jstring -> captures -> jstring) (s : jstring) : jstring :=
  concat (List.map (fun p => match p with inl c => [c] | inr (m, cs) => f m cs end) (cpieces r (length s) (S (length s)) s)).

(** ** What the constructs match *)

Lemma unit_in total rs c s cs k : in_ranges rs c = true -> cmatches (CUnit false rs) total (c :: s) cs k = k s cs.
Proof. intros E. cbn. by rewrite E. Qed.
Lemma unit_not_in total rs c s cs k : in_ranges rs c = false -> cmatches (CUnit false rs) total (c :: s) cs k = None.
Proof. intros E. cbn. by rewrite E. Qed.
Lemma other_not_in total rs c s cs k : in_ranges rs c = false -> cmatches (CUnit true rs) total (c :: s) cs k = k s cs.
Proof. intros E. cbn. by rewrite E. Qed.
Lemma other_in total rs c s cs k : in_ranges rs c = true -> cmatches (CUnit true rs) total (c :: s) cs k = None.
Proof. intros E. cbn. by rewrite E. Qed.

(** Greedy repetition of a class takes all it can, if what follows then matches. *)
Lemma star_class negated rs total m rest cs k x :
  Forall (fun c => in_ranges rs c = negb negated) m ->
  match rest with c :: _ => in_ranges rs c = negated | [] => True end ->
  k rest cs = Some x -> cmatches (CStar true (CUnit negated rs)) total (m ++ rest) cs k = Some x.
Proof.
  intros Hm Hrest Hk. cbn [cmatches groups].
  assert (Hf : (length m <= length (m ++ rest))%nat) by (rewrite length_app; lia). revert Hf. generalize (length (m ++ rest)) as fuel.
  induction m as [|c m IH]; intros fuel Hf; cbn [app].
  - destruct fuel as [|fuel]; [done|]. destruct rest as [|c rest]; [done|]. cbn [star_loop cmatches unset_groups foldr]. by rewrite Hrest, eqb_reflx.
  - apply Forall_cons in Hm as [Hc Hm]. destruct fuel as [|fuel]; [cbn in Hf; lia|].
    cbn [star_loop cmatches unset_groups foldr]. rewrite Hc.
    assert (Bool.eqb (negb negated) negated = false) as -> by (by destruct negated).
    assert ((length (m ++ rest) =? length (c :: m ++ rest))%nat = false) as -> by (apply Nat.eqb_neq; cbn; lia).
    rewrite IH; [done|done|cbn in Hf; lia].
Qed.

Lemma plus_class negated rs total c m rest cs k x :
  Forall (fun c => in_ranges rs c = negb negated) (c :: m) ->
  match rest with c :: _ => in_ranges rs c = negated | [] => True end ->
  k rest cs = Some x -> cmatches (CPlus (CUnit negated rs)) total (c :: m ++ rest) cs k = Some x.
Proof.
  intros [Hc Hm]%Forall_cons Hrest Hk. unfold CPlus. cbn [cmatches]. rewrite Hc.
  assert (Bool.eqb (negb negated) negated = false) as -> by (by destruct negated).
  by apply (star_class negated rs total).
Qed.

(** One more iteration of a repetition that takes as little as it can. *)
Lemma lazy_more m ns k fuel t rest cs x :
  k (t ++ rest) cs = None -> t <> [] ->
  (forall k', k' rest (unset_groups ns cs) = Some x -> m (t ++ rest) (unset_groups ns cs) k' = Some x) ->
  star_loop m false ns k fuel rest (unset_groups ns cs) = Some x ->
  star_loop m false ns k (S fuel) (t ++ rest) cs = Some x.
Proof.
  intros Hk Ht Hm Hs. cbn [star_loop]. rewrite Hk. apply Hm.
  assert ((length rest =? length (t ++ rest))%nat = false) as -> by (apply Nat.eqb_neq; rewrite length_app; destruct t; [done|cbn; lia]). done.
Qed.

(** The first match at the head of a string. *)
Lemma cpieces_match r total fuel m cs rest :
  m <> [] -> cmatch_here r total (m ++ rest) = Some (m, cs, rest) ->
  cpieces r total (S fuel) (m ++ rest) = inr (m, cs) :: cpieces r total fuel rest.
Proof. intros Hm E. cbn [cpieces]. rewrite E. by destruct m. Qed.

Lemma cpieces_skip r total fuel c s :
  cmatch_here r total (c :: s) = None -> cpieces r total (S fuel) (c :: s) = inl c :: cpieces r total fuel s.
Proof. intros E. cbn [cpieces]. by rewrite E. Qed.

Lemma cmatch_here_intro r total m rest cs :
  cmatches r total (m ++ rest) ∅ finish = Some (rest, cs) -> cmatch_here r total (m ++ rest) = Some (m, cs, rest).
Proof. unfold cmatch_here. intros ->. by rewrite length_app, Nat.add_sub, take_app_length. Qed.
