(* ===== verification/LodashLang.v ===== *)
(** * lodash.js: language predicates, conversions and numbers

    The "Lang", "Math" and "Number" functions of [immer/extra/js/lib/lodash.js]
    that look at a value without reading the properties of an object: the type
    predicates, [eq] (SameValueZero), the conversions [toNumber], [toFinite],
    [toInteger] and [toString], index tests, the relational and arithmetic
    wrappers, [clamp] and [inRange]. *)

From S2P Require Import Prelude Js.
From Stdlib Require Import SpecFloat.

(** ** Constants *)

Definition LARGE_ARRAY_SIZE : Z := 200.
Definition HASH_UNDEFINED : value := String (str "__lodash_hash_undefined__").
Definition PLACEHOLDER : value := String (str "__lodash_placeholder__").
Definition MAX_SAFE_INTEGER : Z := 9007199254740991.
Definition MAX_INTEGER : number := S754_finite false 9007199254740991 971.
Definition MAX_ARRAY_LENGTH : Z := 4294967295.
Definition MAX_ARRAY_INDEX : Z := MAX_ARRAY_LENGTH - 1.
Definition HALF_MAX_ARRAY_LENGTH : Z := Z.shiftr MAX_ARRAY_LENGTH 1.

(** ** Predicates *)

Definition isArray (v : value) : bool := match v with Ref ClsArray _ => true | _ => false end.

Definition isObject (v : value) : bool :=
  let type := typeof v in
  truthy v && (bool_decide (type = TObject) || bool_decide (type = TFunction)).

Definition isObjectLike (v : value) : bool := truthy v && bool_decide (typeof v = TObject).

(** [objectToString.call(value) == tag], for a tag that only objects have. *)
Definition has_class (c : jsclass) (v : value) : bool :=
  match v with Ref d _ => bool_decide (c = d) | _ => false end.

Definition isFunction (v : value) : bool :=
  isObject v && (has_class ClsFunction v || has_class ClsGeneratorFunction v).

Definition isSymbol (v : value) : bool :=
  bool_decide (typeof v = TSymbol) || (isObjectLike v && has_class ClsSymbol v).

Definition isBoolean (v : value) : bool :=
  strict_eq v (Boolean true) || strict_eq v (Boolean false) ||
  (isObjectLike v && has_class ClsBoolean v).

Definition isNumber (v : value) : bool :=
  bool_decide (typeof v = TNumber) || (isObjectLike v && has_class ClsNumber v).

Definition isString (v : value) : bool :=
  bool_decide (typeof v = TString) || (negb (isArray v) && isObjectLike v && has_class ClsString v).

Definition baseIsDate (v : value) : bool := isObjectLike v && has_class ClsDate v.
Definition baseIsArrayBuffer (v : value) : bool := isObjectLike v && has_class ClsArrayBuffer v.
Definition baseIsRegExp (v : value) : bool := isObject v && has_class ClsRegExp v.
Definition baseIsMap (v : value) : bool := isObjectLike v && has_class ClsMap v.
Definition baseIsSet (v : value) : bool := isObjectLike v && has_class ClsSet v.
Definition isWeakMap (v : value) : bool := isObjectLike v && has_class ClsWeakMap v.
Definition isWeakSet (v : value) : bool := isObjectLike v && has_class ClsWeakSet v.

Definition isNull (v : value) : bool := strict_eq v Null.
Definition isNil (v : value) : bool := is_nil v.
Definition isUndefined (v : value) : bool := strict_eq v Undefined.

Definition baseIsNaN (v : value) : bool := negb (strict_eq v v).

Definition eq (v other : value) : bool :=
  strict_eq v other || (negb (strict_eq v v) && negb (strict_eq other other)).

Definition isStrictComparable (v : value) : bool := strict_eq v v && negb (isObject v).

Definition isKeyable (v : value) : bool :=
  match typeof v with
  | TString | TNumber | TSymbol | TBoolean => negb (strict_eq v (String (str "__proto__")))
  | _ => strict_eq v Null
  end.

Definition isFinite (v : value) : bool := match v with Number n => is_finite n | _ => false end.

Definition isLength (v : value) : bool :=
  match v with
  | Number n => nltb (num (-1)) n && neqb (nrem n (num 1)) (num 0) && nleb n (num MAX_SAFE_INTEGER)
  | _ => false
  end.

Definition defaultTo (v defaultValue : value) : value :=
  if is_nil v || negb (strict_eq v v) then defaultValue else v.

Definition identity (v : value) : value := v.

(** ** Conversions *)

Section conversions.
Context `{JsHost}.

Definition baseToNumber (v : value) : number :=
  match v with
  | Number n => n
  | _ => if isSymbol v then nan else to_number v
  end.

Definition baseToString (v : value) : jstring :=
  match v with
  | String s => s
  | _ => if isSymbol v then host_symbol v else
         let result := concat_empty v in
         if bool_decide (result = str "0") && neqb (ndiv (num 1) (to_number v)) neg_infinity
         then str "-0" else result
  end.

Definition toString (v : value) : jstring := if is_nil v then [] else baseToString v.

(** [reIsBinary], [reIsOctal] and [reIsBadHex]. *)
Definition prefixed_digits (c1 c2 base : Z) (s : jstring) : bool :=
  match s with
  | 48 :: c :: d :: s' =>
      ((c =? c1) || (c =? c2)) && forallb (fun d => digit_value d <? base) (d :: s')
  | _ => false
  end.
Definition reIsBinary (s : jstring) : bool := prefixed_digits 98 66 2 s.
Definition reIsOctal (s : jstring) : bool := prefixed_digits 111 79 8 s.
Definition reIsBadHex (s : jstring) : bool :=
  match s with
  | c :: s' => ((c =? 43) || (c =? 45)) && prefixed_digits 120 88 16 s'
  | [] => false
  end.

(** [parseInt(s, base)] where every unit of [s] is a digit of the base. *)
Definition parse_digits (base : Z) (s : jstring) : number :=
  let '(_, x, _) := take_digits base s 0 0 in num x.

Definition toNumber (v : value) : number :=
  match v with
  | Number n => n
  | _ =>
    if isSymbol v then nan else
    let v :=
      if isObject v then
        let other := match v with Ref c i => host_valueOf c i | _ => v end in
        if isObject other then String (concat_empty other) else other
      else v in
    match v with
    | String s =>
        let s := trim_ends is_space s in
        let isBinary := reIsBinary s in
        if isBinary || reIsOctal s then parse_digits (if isBinary then 2 else 8) (drop 2 s)
        else if reIsBadHex s then nan else string_to_number s
    | _ => to_number v
    end
  end.

Definition toFinite (v : value) : number :=
  if negb (truthy v) then (match v with Number n => if neqb n (num 0) then n else num 0 | _ => num 0 end)
  else
    let n := toNumber v in
    if neqb n infinity || neqb n neg_infinity then
      let sign := if nltb n (num 0) then num (-1) else num 1 in
      nmul sign MAX_INTEGER
    else if neqb n n then n else num 0.

Definition toInteger (v : value) : number :=
  let result := toFinite v in
  let remainder := nrem result (num 1) in
  if neqb result result then
    (if truthy (Number remainder) then nsub result remainder else result)
  else num 0.

Definition baseClamp (n : number) (lower upper : option number) : number :=
  if neqb n n then
    let n := match upper with Some u => if nleb n u then n else u | None => n end in
    match lower with Some l => if nleb l n then n else l | None => n end
  else n.

Definition toLength (v : value) : number :=
  if truthy v then baseClamp (toInteger v) (Some (num 0)) (Some (num MAX_ARRAY_LENGTH)) else num 0.

Definition toSafeInteger (v : value) : number :=
  baseClamp (toInteger v) (Some (num (- MAX_SAFE_INTEGER))) (Some (num MAX_SAFE_INTEGER)).

Definition isInteger (v : value) : bool :=
  match v with Number n => neqb n (toInteger v) | _ => false end.

Definition isSafeInteger (v : value) : bool :=
  isInteger v && js_ge v (Number (num (- MAX_SAFE_INTEGER))) && js_le v (Number (num MAX_SAFE_INTEGER)).

Definition _isNaN (v : value) : bool := isNumber v && negb (neqb (to_number v) (to_number v)).

(** A property key: a string or a symbol. *)
Definition toKey (v : value) : value :=
  if bool_decide (typeof v = TString) || isSymbol v then v else
  let result := concat_empty v in
  if bool_decide (result = str "0") && neqb (ndiv (num 1) (to_number v)) neg_infinity
  then String (str "-0") else String result.

Definition reIsUint (s : jstring) : bool :=
  match s with
  | [48] => true
  | c :: s' => (49 <=? c) && (c <=? 57) && forallb is_digit s'
  | [] => false
  end.

Definition isIndex (v : value) (length : option Z) : bool :=
  let length := default MAX_SAFE_INTEGER length in
  let n := to_number v in
  negb (length =? 0) &&
  (bool_decide (typeof v = TNumber) || reIsUint (to_string v)) &&
  (nltb (num (-1)) n && neqb (nrem n (num 1)) (num 0) && nltb n (num length)).

(** ** Relational and arithmetic wrappers *)

Definition baseGt (v other : value) : bool := js_gt v other.
Definition baseLt (v other : value) : bool := js_lt v other.

Definition createRelationalOperation (operator : value -> value -> bool) (v other : value) : bool :=
  match v, other with
  | String _, String _ => operator v other
  | _, _ => operator (Number (toNumber v)) (Number (toNumber other))
  end.
Definition gt : value -> value -> bool := createRelationalOperation baseGt.
Definition gte : value -> value -> bool := createRelationalOperation js_ge.
Definition lt : value -> value -> bool := createRelationalOperation baseLt.
Definition lte : value -> value -> bool := createRelationalOperation js_le.

Definition createMathOperation (operator : value -> value -> value) (defaultValue : value)
    (v other : value) : value :=
  if is_undefined v && is_undefined other then defaultValue else
  if is_undefined other then v else
  if is_undefined v then other else
  if bool_decide (typeof v = TString) || bool_decide (typeof other = TString)
  then operator (String (baseToString v)) (String (baseToString other))
  else operator (Number (baseToNumber v)) (Number (baseToNumber other)).

Definition js_arith (op : number -> number -> number) (v w : value) : value :=
  Number (op (to_number v) (to_number w)).
Definition _add : value -> value -> value := createMathOperation js_plus (Number (num 0)).
Definition _divide : value -> value -> value := createMathOperation (js_arith ndiv) (Number (num 1)).
Definition _multiply : value -> value -> value := createMathOperation (js_arith nmul) (Number (num 1)).
Definition _subtract : value -> value -> value := createMathOperation (js_arith nsub) (Number (num 0)).

Definition _clamp (n lower upper : value) : number :=
  let '(lower, upper) := if is_undefined upper then (Undefined, lower) else (lower, upper) in
  let bound v := if is_undefined v then None else
                 let x := toNumber v in Some (if neqb x x then x else num 0) in
  baseClamp (toNumber n) (bound lower) (bound upper).

Definition baseInRange (n start end_ : number) : bool :=
  nleb (nmin start end_) n && nltb n (nmax start end_).

Definition inRange (n start end_ : value) : bool :=
  let start := toFinite start in
  let '(start, end_) := if is_undefined end_ then (num 0, start) else (start, toFinite end_) in
  baseInRange (toNumber n) start end_.

End conversions.

(** ** SameValueZero *)

Lemma neqb_spec x y :
  neqb x y = true <->
  (exists s t, x = S754_zero s /\ y = S754_zero t) \/ (x = y /\ is_nan x = false).
Proof.
  unfold neqb, SFeqb. split.
  - destruct x as [s1|s1| |s1 m1 e1], y as [s2|s2| |s2 m2 e2]; try done; cbn [SFcompare];
      try (by destruct s1); try (by destruct s2).
    + intros _. left. by exists s1, s2.
    + destruct s1, s2; intros H; try discriminate H; by auto.
    + destruct s1, s2; try done; destruct (Z.compare_spec e1 e2) as [->|?|?]; try done.
      * change (Pos.compare_cont Eq m1 m2) with (m1 ?= m2)%positive.
        destruct (Pos.compare_spec m1 m2) as [->|?|?]; by auto.
      * change (Pos.compare_cont Eq m1 m2) with (m1 ?= m2)%positive.
        destruct (Pos.compare_spec m1 m2) as [->|?|?]; by auto.
  - intros [(s & t & -> & ->)|[-> Hn]]; [done|].
    destruct y as [s|s| |s m e]; cbn [SFcompare]; try done; [by destruct s|].
    change (Pos.compare_cont Eq m m) with (m ?= m)%positive.
    rewrite Z.compare_refl, Pos.compare_refl. by destruct s.
Qed.

(** The representative of a value under SameValueZero: one zero, one NaN. *)
Definition norm (v : value) : value :=
  match v with Number (S754_zero _) => Number (S754_zero false) | _ => v end.

Lemma neqb_norm x y : neqb x y = true <-> norm (Number x) = norm (Number y) /\ is_nan x = false.
Proof.
  rewrite neqb_spec. split.
  - intros [(s & t & -> & ->)|[-> ?]]; done.
  - intros [Hn ?]. destruct x, y; try done; cbn in Hn; simplify_eq; eauto 10.
Qed.

Lemma norm_idemp v : norm (norm v) = norm v.
Proof. by destruct v as [| | |[]| | |]. Qed.

Lemma strict_eq_norm v w :
  strict_eq v w = true <-> norm v = norm w /\ strict_eq v v = true.
Proof.
  destruct v as [| |a|x|s|i|c i], w as [| |b|y|t|j|d j]; cbn [strict_eq norm];
    try (split; [done|intros [? ?]; try done; try (by destruct x); by destruct y]).
  - rewrite !eqb_true_iff. naive_solver.
  - rewrite neqb_norm. cbn [norm]. split; intros [? Hx]; split; try done.
    + by apply neqb_norm.
    + by apply neqb_norm in Hx as [_ ?].
  - rewrite !bool_decide_eq_true. naive_solver.
  - rewrite !Z.eqb_eq. naive_solver.
  - rewrite !andb_true_iff, !bool_decide_eq_true, !Z.eqb_eq. naive_solver.
Qed.

Lemma strict_eq_refl v : strict_eq v v = false <-> v = Number nan.
Proof.
  destruct v as [| |[]|x|s|i|c i]; cbn; try done.
  - destruct (neqb x x) eqn:E.
    + apply neqb_norm in E as [_ ?]. split; [done|]. intros [= ->]. done.
    + split; [|done]. intros _. destruct (is_nan x) eqn:En; [by destruct x|].
      assert (neqb x x = true) by (apply neqb_norm; auto). congruence.
  - rewrite bool_decide_eq_true_2 by done. done.
  - rewrite Z.eqb_refl. done.
  - rewrite bool_decide_eq_true_2, Z.eqb_refl by done. done.
Qed.

Lemma norm_nan v : norm v = Number nan <-> v = Number nan.
Proof. destruct v as [| | |[]| | |]; done. Qed.

(** [eq] is equality of representatives. *)
Lemma eq_norm v w : eq v w = bool_decide (norm v = norm w).
Proof.
  apply Bool.eq_iff_eq_true. rewrite bool_decide_eq_true. unfold eq.
  rewrite orb_true_iff, andb_true_iff, !negb_true_iff, strict_eq_norm, !strict_eq_refl. split.
  - intros [[? _]|[-> ->]]; done.
  - intros Hn. destruct (strict_eq v v) eqn:E; [by left|]. apply strict_eq_refl in E as ->.
    right. split; [done|]. by apply norm_nan.
Qed.

#[export] Instance eq_equivalence : Equivalence (fun v w => eq v w = true).
Proof.
  split; repeat intro; rewrite !eq_norm, !bool_decide_eq_true in *; congruence.
Qed.

Lemma eq_strict v w : strict_eq v v = true -> eq v w = strict_eq v w.
Proof.
  intros Hv. unfold eq. rewrite Hv. cbn. apply orb_false_r.
Qed.

(** ** Conversion to integers *)

Section integers.
Context `{JsHost}.

Lemma neqb_refl x : neqb x x = negb (is_nan x).
Proof.
  destruct (is_nan x) eqn:E; [by destruct x|]. apply neqb_norm. by rewrite E.
Qed.

Lemma toFinite_finite v : is_finite (toFinite v) = true.
Proof.
  unfold toFinite. destruct (negb (truthy v)).
  - destruct v as [| | |n| | |]; try done. destruct (neqb n (num 0)) eqn:E; [|done].
    apply neqb_spec in E as [(s & t & -> & _)|[-> _]]; done.
  - set (n := toNumber v). destruct (neqb n infinity || neqb n neg_infinity) eqn:E.
    + apply orb_true_iff in E as [E|E]; apply neqb_spec in E as [(s & t & _ & ?)|[-> _]]; done.
    + apply orb_false_iff in E as [E1 E2]. rewrite neqb_refl.
      destruct n as [|[]| |]; done.
Qed.

Lemma num_valid z : small_int z -> valid_number (num z).
Proof.
  unfold small_int. destruct z as [|z|z]; intros Hz; [done| |];
    destruct (num_pos z) as (q & e & _ & _ & Hb & _ & Hp & Hn); [lia| |lia|].
  - by rewrite Hp.
  - by rewrite Hn.
Qed.

Lemma num_finite z : small_int z -> is_finite (num z) = true.
Proof.
  unfold small_int. destruct z as [|z|z]; intros Hz; [done| |];
    destruct (num_pos z) as (q & e & _ & _ & _ & _ & Hp & Hn); [lia| |lia|].
  - by rewrite Hp.
  - by rewrite Hn.
Qed.

Lemma toInteger_spec v :
  valid_number (toFinite v) ->
  valid_number (toInteger v) /\ is_finite (toInteger v) = true /\
  is_integral (toInteger v) = true /\ trunc (toInteger v) = trunc (toFinite v).
Proof.
  intros Hv. unfold toInteger. pose proof (toFinite_finite v) as Hf.
  set (x := toFinite v) in *.
  assert (neqb x x = true) as -> by (rewrite neqb_refl; by destruct x).
  destruct (is_integral x) eqn:Hi.
  - by rewrite remainder_zero.
  - destruct (sub_remainder x) as (-> & Hs & ->); [done..|].
    destruct (trunc_num (trunc x) Hs). split_and!; try done; [by apply num_valid|by apply num_finite].
Qed.

Lemma baseClamp_bounds n l u :
  valid_number n -> is_finite n = true -> small_int l -> small_int u -> l <= u ->
  l <= trunc (baseClamp n (Some (num l)) (Some (num u))) <= u.
Proof.
  intros Hn Hf Hl Hu Hlu. unfold baseClamp.
  assert (neqb n n = true) as -> by (rewrite neqb_refl; by destruct n).
  pose proof (num_valid l Hl). pose proof (num_valid u Hu).
  pose proof (num_finite l Hl). pose proof (num_finite u Hu).
  destruct (trunc_num l Hl) as [Tl _], (trunc_num u Hu) as [Tu _].
  assert (Hup : forall x, (if nleb n (num u) then n else num u) = x ->
    valid_number x /\ is_finite x = true /\ trunc x <= u).
  { intros x <-. destruct (nleb n (num u)) eqn:E; split_and!; try done; [|lia].
    apply nleb_trunc in E; [lia|done..]. }
  specialize (Hup _ eq_refl) as (Vx & Fx & Tx).
  destruct (nleb (num l) _) eqn:E; [|lia].
  apply nleb_trunc in E; [lia|done..].
Qed.

(** [toInteger] answers a finite integral number, the argument's finite value cut
    off towards zero, with no rounding; [toLength] and [toSafeInteger] answer within
    0 .. 2^32-1 and -(2^53-1) .. 2^53-1. *)
Theorem toInteger_correct v :
  valid_number (toFinite v) ->
  is_finite (toInteger v) = true /\ is_integral (toInteger v) = true /\
  trunc (toInteger v) = trunc (toFinite v) /\
  0 <= trunc (toLength v) <= MAX_ARRAY_LENGTH /\
  - MAX_SAFE_INTEGER <= trunc (toSafeInteger v) <= MAX_SAFE_INTEGER.
Proof.
  intros Hv. destruct (toInteger_spec v Hv) as (V & F & I & T).
  unfold toLength, toSafeInteger, MAX_SAFE_INTEGER, MAX_ARRAY_LENGTH. split_and!; try done.
  - destruct (truthy v); [|done]. by apply baseClamp_bounds.
  - destruct (truthy v); [|done]. by apply baseClamp_bounds.
  - by apply baseClamp_bounds.
  - by apply baseClamp_bounds.
Qed.

End integers.

Lemma toInteger_correct_witness :
  let v := String (str " -12.75e1 ") in
  trunc (toInteger (H := plain_host) v) = -127 /\
  0 <= trunc (toLength (H := plain_host) v) <= MAX_ARRAY_LENGTH.
Proof.
  destruct (toInteger_correct (H := plain_host) (String (str " -12.75e1 "))) as (_ & _ & H1 & H2 & _).
  - vm_compute. reflexivity.
  - split; [|exact H2]. transitivity (trunc (toFinite (H := plain_host) (String (str " -12.75e1 ")))).
    + exact H1.
    + vm_compute. reflexivity.
Defined.
