(* ===== verification/LodashArrays.v ===== *)
(** * lodash.js: the array helpers

    The helper functions at the head of [immer/extra/js/lib/lodash.js] that walk
    over an array and call back into user code.  An array is the list of its
    elements; a nullish array argument behaves as the empty array in each of them
    ([array ? array.length : 0]) and is represented by it.  A callback is a
    computation over a user state that may throw; it gets the element, its index
    and the array. *)

From S2P Require Import Prelude Js LodashLang.
From Stdlib Require Export Sorting.Sorted.

Definition callback (S A : Type) : Type := A -> Z -> list A -> eff S value.

(** A function value: [this] and the arguments. *)
Definition func (S : Type) : Type := value -> list value -> eff S value.

Definition strict_false (v : value) : bool := strict_eq v (Boolean false).

(** A computation over no state that does not throw. *)
Definition run_pure {A} (d : A) (m : eff unit A) : A :=
  match m tt with (Ok a, _) => a | (Throw _, _) => d end.

(** [Array.prototype.sort] for a consistent comparison: stable insertion. *)
Fixpoint sort_insert {A} (cmp : A -> A -> Z) (x : A) (l : list A) : list A :=
  match l with
  | [] => [x]
  | y :: l => if cmp x y <=? 0 then x :: y :: l else y :: sort_insert cmp x l
  end.
Definition js_sort {A} (cmp : A -> A -> Z) (l : list A) : list A := foldr (sort_insert cmp) [] l.

Section helpers.
Context {S : Type}.

Definition apply (f : func S) (thisArg : value) (args : list value) : eff S value :=
  match args with
  | [] => f thisArg []
  | [a] => f thisArg [a]
  | [a; b] => f thisArg [a; b]
  | [a; b; c] => f thisArg [a; b; c]
  | _ => f thisArg args
  end.

Definition arrayAggregator {A Acc} (array : list A) (setter : Acc -> A -> value -> list A -> eff S Acc)
    (iteratee : A -> eff S value) (accumulator : Acc) : eff S Acc :=
  r ← eloop (R := Acc) (fun _ v accumulator =>
    k ← iteratee v;
    accumulator ← setter accumulator v k array;
    mret (inl accumulator)) 0 array accumulator;
  mret (ended r).

Definition arrayEach {A} (array : list A) (iteratee : callback S A) : eff S (list A) :=
  _ ← eloop (Acc := unit) (R := unit) (fun index v _ =>
    r ← iteratee v index array;
    mret (if strict_false r then inr tt else inl tt)) 0 array tt;
  mret array.

Definition arrayEachRight {A} (array : list A) (iteratee : callback S A) : eff S (list A) :=
  _ ← eloop_right (Acc := unit) (R := unit) (fun index v _ =>
    r ← iteratee v index array;
    mret (if strict_false r then inr tt else inl tt)) 0 array tt;
  mret array.

Definition arrayEvery {A} (array : list A) (predicate : callback S A) : eff S bool :=
  r ← eloop (Acc := unit) (fun index v _ =>
    p ← predicate v index array;
    mret (if negb (truthy p) then inr false else inl tt)) 0 array tt;
  mret (returned true r).

Definition arrayFilter {A} (array : list A) (predicate : callback S A) : eff S (list A) :=
  r ← eloop (R := list A) (fun index v result =>
    p ← predicate v index array;
    mret (inl (if truthy p then result ++ [v] else result))) 0 array [];
  mret (ended r).

Definition arrayIncludesWith (array : list value) (v : value)
    (comparator : value -> value -> eff S value) : eff S bool :=
  r ← eloop (Acc := unit) (fun _ x _ =>
    c ← comparator v x;
    mret (if truthy c then inr true else inl tt)) 0 array tt;
  mret (returned false r).

Definition arrayMap {A B} (array : list A) (iteratee : A -> Z -> list A -> eff S B) : eff S (list B) :=
  r ← eloop (R := list B) (fun index v result =>
    b ← iteratee v index array;
    mret (inl (result ++ [b]))) 0 array [];
  mret (ended r).

Definition arrayReduce (array : list value)
    (iteratee : value -> value -> Z -> list value -> eff S value)
    (accumulator : value) (initAccum : bool) : eff S value :=
  let '(accumulator, index, rest) :=
    match initAccum, array with
    | true, v :: rest => (v, 1, rest)
    | _, _ => (accumulator, 0, array)
    end in
  r ← eloop (R := value) (fun index v accumulator =>
    a ← iteratee accumulator v index array; mret (inl a)) index rest accumulator;
  mret (ended r).

Definition arrayReduceRight (array : list value)
    (iteratee : value -> value -> Z -> list value -> eff S value)
    (accumulator : value) (initAccum : bool) : eff S value :=
  let '(accumulator, rest) :=
    match initAccum, last array with
    | true, Some v => (v, removelast array)
    | _, _ => (accumulator, array)
    end in
  r ← eloop_right (R := value) (fun index v accumulator =>
    a ← iteratee accumulator v index array; mret (inl a)) 0 rest accumulator;
  mret (ended r).

Definition arraySome {A} (array : list A) (predicate : callback S A) : eff S bool :=
  r ← eloop (Acc := unit) (fun index v _ =>
    p ← predicate v index array;
    mret (if truthy p then inr true else inl tt)) 0 array tt;
  mret (returned false r).

(** [eachFunc] is represented by the entries (key and value) it visits, in order. *)
Definition baseFindKey (entries : list (value * value)) (collection : value)
    (predicate : value -> value -> value -> eff S value) : eff S value :=
  r ← eloop (Acc := unit) (fun _ '(key, v) _ =>
    p ← predicate v key collection;
    mret (if truthy p then inr key else inl tt)) 0 entries tt;
  mret (returned Undefined r).

(** The indexes are read off the array whatever [fromIndex] is. *)
Definition baseFindIndex (array : list value) (predicate : callback S value)
    (fromIndex : Z) (fromRight : bool) : eff S Z :=
  let body := fun _ index (_ : unit) =>
    p ← predicate array.[index] index array;
    mret (if truthy p then inr index else inl tt) in
  r ← (if fromRight then eloop_right body 0 (seqZ 0 (fromIndex + 1)) tt
       else eloop body 0 (seqZ fromIndex (len array - fromIndex)) tt);
  mret (returned (-1) r).

Definition baseIndexOfWith (array : list value) (v : value) (fromIndex : Z)
    (comparator : value -> value -> eff S value) : eff S Z :=
  r ← eloop (Acc := unit) (fun _ index _ =>
    c ← comparator array.[index] v;
    mret (if truthy c then inr index else inl tt)) 0 (seqZ fromIndex (len array - fromIndex)) tt;
  mret (returned (-1) r).

Definition baseReduce (entries : list (value * value)) (collection : value)
    (iteratee : value -> value -> value -> value -> eff S value)
    (accumulator : value) (initAccum : bool) : eff S value :=
  r ← eloop (A := value * value) (Acc := value * bool) (R := value * bool)
    (fun _ '(index, v) '(accumulator, initAccum) =>
    if initAccum then mret (inl (v, false))
    else a ← iteratee accumulator v index collection; mret (inl (a, false)))
    0 entries (accumulator, initAccum);
  mret (fst (ended r)).

Definition baseSum `{JsHost} (array : list value) (iteratee : value -> eff S value) : eff S value :=
  r ← eloop (R := value) (fun _ v result =>
    current ← iteratee v;
    mret (inl (if negb (is_undefined current)
               then (if is_undefined result then current else js_plus result current)
               else result))) 0 array Undefined;
  mret (ended r).

Definition baseMean `{JsHost} (array : list value) (iteratee : value -> eff S value) : eff S number :=
  if len array =? 0 then mret nan else
  s ← baseSum array iteratee;
  mret (ndiv (to_number s) (num (len array))).

Definition baseTimes {B} (n : Z) (iteratee : Z -> eff S B) : eff S (list B) :=
  r ← eloop (R := list B) (fun _ index result =>
    b ← iteratee index; mret (inl (result ++ [b]))) 0 (seqZ 0 n) [];
  mret (ended r).

Definition baseUnary {A B} (f : A -> eff S B) (v : A) : eff S B := f v.

Definition overArg {A B C} (f : B -> eff S C) (transform : A -> eff S B) (arg : A) : eff S C :=
  b ← transform arg; f b.

End helpers.

Definition arrayPush {A} (array values : list A) : list A :=
  ended (loop (R := list A) (fun _ v array => inl (array ++ [v])) 0 values array).

Definition baseIndexOf (array : list value) (v : value) (fromIndex : Z) : Z :=
  if negb (strict_eq v v) then
    run_pure (-1) (baseFindIndex array (fun v _ _ => mret (Boolean (baseIsNaN v))) fromIndex false)
  else
    returned (-1) (loop (Acc := unit) (fun _ index _ =>
      if strict_eq array.[index] v then inr index else inl tt)
      0 (seqZ fromIndex (len array - fromIndex)) tt).

Definition arrayIncludes (array : list value) (v : value) : bool :=
  negb (len array =? 0) && (-1 <? baseIndexOf array v 0).

Definition baseSortBy {A B} (array : list A) (value_of : A -> B) (comparer : A -> A -> Z) : list B :=
  List.map value_of (js_sort comparer array).

Definition charsStartIndex (strSymbols chrSymbols : list value) : Z :=
  returned (len strSymbols) (loop (Acc := unit) (fun index v _ =>
    if -1 <? baseIndexOf chrSymbols v 0 then inl tt else inr index) 0 strSymbols tt).

Definition charsEndIndex (strSymbols chrSymbols : list value) : Z :=
  returned (-1) (loop_right (Acc := unit) (fun index v _ =>
    if -1 <? baseIndexOf chrSymbols v 0 then inl tt else inr index) 0 strSymbols tt).

Definition countHolders (array : list value) (placeholder : value) : Z :=
  ended (loop_right (R := Z) (fun _ v result =>
    inl (if strict_eq v placeholder then result + 1 else result)) 0 array 0).

(** The array with its placeholders made uniform, and their indexes. *)
Definition replaceHolders (array : list value) (placeholder : value) : list value * list Z :=
  ended (loop (R := list value * list Z) (fun index v '(array, result) =>
    inl (if strict_eq v placeholder || strict_eq v PLACEHOLDER
         then (set_index array index PLACEHOLDER, result ++ [index])
         else (array, result))) 0 array (array, [])).

(** Maps and sets as their entries, in insertion order. *)
Definition mapToArray (entries : list (value * value)) : list (value * value) :=
  ended (loop (R := list (value * value)) (fun _ '(key, v) result => inl (result ++ [(key, v)])) 0 entries []).
Definition setToArray (set : list value) : list value :=
  ended (loop (R := list value) (fun _ v result => inl (result ++ [v])) 0 set []).
Definition setToPairs (set : list value) : list (value * value) :=
  ended (loop (R := list (value * value)) (fun _ v result => inl (result ++ [(v, v)])) 0 set []).

(** ** Laws of the loops *)

Section loop_laws.
Context {S A Acc R : Type}.

Lemma loop_foldl (f : A -> Acc -> Acc) (body : Z -> A -> Acc -> Acc + R) i l acc :
  (forall i x a, body i x a = inl (f x a)) ->
  loop body i l acc = inl (foldl (fun a x => f x a) acc l).
Proof.
  intros Hb. revert i acc. induction l as [|x l IH]; intros i acc; [done|].
  cbn. rewrite Hb. apply IH.
Qed.

Lemma loop_ext (b b' : Z -> A -> Acc -> Acc + R) i l acc :
  (forall i x a, b i x a = b' i x a) -> loop b i l acc = loop b' i l acc.
Proof.
  intros Hb. revert i acc. induction l as [|x l IH]; intros i acc; [done|].
  cbn. rewrite Hb. destruct (b' i x acc); [apply IH|done].
Qed.

Lemma eloop_pure (b : Z -> A -> Acc -> Acc + R) (body : Z -> A -> Acc -> eff S (Acc + R)) i l acc :
  (forall i x a, body i x a ≈ mret (b i x a)) ->
  eloop body i l acc ≈ mret (loop b i l acc).
Proof.
  intros Hb. revert i acc. induction l as [|x l IH]; intros i acc; [done|].
  intros σ. cbn. unfold mbind, eff_bind. rewrite Hb. unfold mret at 1, eff_ret at 1.
  destruct (b i x acc); [apply IH|done].
Qed.

Lemma eloop_pure_in (b : Z -> A -> Acc -> Acc + R) (body : Z -> A -> Acc -> eff S (Acc + R)) i l acc :
  (forall i x a, x ∈ l -> body i x a ≈ mret (b i x a)) ->
  eloop body i l acc ≈ mret (loop b i l acc).
Proof.
  revert i acc. induction l as [|x l IH]; intros i acc Hb; [done|].
  intros σ. cbn. unfold mbind, eff_bind. rewrite (Hb i x acc) by left. unfold mret at 1, eff_ret at 1.
  destruct (b i x acc); [|done]. apply IH. intros j y a' Hy. apply Hb. by right.
Qed.

Lemma eloop_right_pure_in (b : Z -> A -> Acc -> Acc + R) (body : Z -> A -> Acc -> eff S (Acc + R)) i l acc :
  (forall i x a, x ∈ l -> body i x a ≈ mret (b i x a)) ->
  eloop_right body i l acc ≈ mret (loop_right b i l acc).
Proof.
  revert i acc. induction l as [|x l IH]; intros i acc Hb; [done|].
  intros σ. cbn. unfold mbind, eff_bind. rewrite IH by (intros j y a' Hy; apply Hb; by right).
  unfold mret at 1, eff_ret at 1. destruct (loop_right b (i + 1) l acc); [|done].
  apply Hb. by left.
Qed.

(** A loop that only asks whether some element has a property. *)
Lemma loop_right_exists (p : A -> bool) i l :
  returned false (loop_right (fun _ x (_ : unit) => if p x then inr true else inl tt) i l tt) = existsb p l.
Proof.
  assert (H : loop_right (fun _ x (_ : unit) => if p x then inr true else inl tt) i l tt
    = if existsb p l then inr true else inl tt).
  { revert i. induction l as [|x l IH]; intros i; [done|]. cbn. rewrite IH.
    destruct (existsb p l), (p x); done. }
  rewrite H. by destruct (existsb p l).
Qed.

Lemma loop_app (body : Z -> A -> Acc -> Acc + R) i l k acc :
  loop body i (l ++ k) acc =
  match loop body i l acc with
  | inl acc => loop body (i + len l) k acc
  | inr r => inr r
  end.
Proof.
  revert i acc. induction l as [|x l IH]; intros i acc; cbn [app loop].
  - f_equal; cbn; lia.
  - destruct (body i x acc); [|done]. rewrite IH. cbn [length].
    destruct (loop body (i + 1) l a); [|done]. f_equal. lia.
Qed.

(** A loop that looks for the first element with a property. *)
Lemma loop_find (p : A -> bool) (g : Z -> A -> R) i l :
  loop (fun i x (_ : unit) => if p x then inr (g i x) else inl tt) i l tt =
  match list_find (fun x => p x = true) l with
  | Some (n, x) => inr (g (i + Z.of_nat n) x)
  | None => inl tt
  end.
Proof.
  revert i. induction l as [|x l IH]; intros i; [done|].
  cbn [loop list_find]. destruct (p x) eqn:E.
  - rewrite decide_True by done. cbn. by rewrite Z.add_0_r.
  - rewrite decide_False by congruence. rewrite IH. cbn.
    destruct (list_find _ l) as [[n y]|]; cbn; [|done]. do 2 f_equal. lia.
Qed.

End loop_laws.

Lemma run_pure_ret {A} (d a : A) (m : eff unit A) : m ≈ mret a -> run_pure d m = a.
Proof. intros Hm. unfold run_pure. by rewrite Hm. Qed.

Lemma arrayPush_app {A} (array values : list A) : arrayPush array values = array ++ values.
Proof.
  unfold arrayPush. rewrite (loop_foldl (fun v a => a ++ [v])) by done. cbn [ended].
  revert array. induction values as [|v l IH]; intros array; cbn; [by rewrite app_nil_r|].
  by rewrite IH, <- app_assoc.
Qed.

Lemma collect_all {A B} (f : A -> B) l acc :
  foldl (fun a x => a ++ [f x]) acc l = acc ++ List.map f l.
Proof.
  revert acc. induction l as [|x l IH]; intros acc; cbn; [by rewrite app_nil_r|].
  by rewrite IH, <- app_assoc.
Qed.

Lemma collect_some {A} (p : A -> bool) l acc :
  foldl (fun a x => if p x then a ++ [x] else a) acc l = acc ++ List.filter p l.
Proof.
  revert acc. induction l as [|x l IH]; intros acc; cbn; [by rewrite app_nil_r|].
  destruct (p x); rewrite IH; [by rewrite <- app_assoc|done].
Qed.

Lemma setToArray_id l : setToArray l = l.
Proof.
  unfold setToArray. rewrite (loop_foldl (fun v a => a ++ [v])) by done. cbn [ended].
  rewrite (collect_all (fun v => v)). cbn. apply map_id.
Qed.

Lemma mapToArray_id l : mapToArray l = l.
Proof.
  unfold mapToArray. rewrite (loop_foldl (fun v a => a ++ [v])) by by intros ? [].
  cbn [ended]. rewrite (collect_all (fun v => v)). cbn. apply map_id.
Qed.

(** ** Pure callbacks *)

Section pure_callbacks.
Context {S : Type}.

Lemma eff_bind_pure {A B} (m : eff S A) (a : A) (k : A -> eff S B) : m ≈ mret a -> (m ≫= k) ≈ k a.
Proof. intros Hm σ. unfold mbind, eff_bind. by rewrite Hm. Qed.

Lemma arrayMap_pure {A B} (f : A -> B) (l : list A) (iteratee : A -> Z -> list A -> eff S B) :
  (forall v i a, iteratee v i a ≈ mret (f v)) -> arrayMap l iteratee ≈ mret (List.map f l).
Proof.
  intros Hf. unfold arrayMap. erewrite eff_bind_pure.
  2:{ apply (eloop_pure (fun _ v result => inl (result ++ [f v]))).
      intros i x a. by apply (eff_bind_pure _ (f x)). }
  rewrite (loop_foldl (fun v a => a ++ [f v])) by done. cbn [ended]. by rewrite collect_all.
Qed.

(** A loop that pushes one value per element. *)
Lemma eloop_collect {A B R} (body : Z -> A -> list B -> eff S (list B + R)) l bs i acc :
  length l = length bs ->
  (forall j a b, l !! j = Some a -> bs !! j = Some b ->
     forall acc, body (i + Z.of_nat j) a acc ≈ mret (inl (acc ++ [b]))) ->
  eloop body i l acc ≈ mret (inl (acc ++ bs)).
Proof.
  revert bs i acc. induction l as [|x l IH]; intros [|b bs] i acc Hl Hb; try done.
  { by rewrite app_nil_r. }
  cbn [eloop]. pose proof (Hb 0%nat x b eq_refl eq_refl acc) as H0. rewrite Z.add_0_r in H0.
  rewrite (eff_bind_pure _ _ _ H0), (IH bs); [by rewrite <- app_assoc|by injection Hl|].
  intros j a c Ha Hc acc'. replace (i + 1 + Z.of_nat j) with (i + Z.of_nat (Datatypes.S j)) by lia.
  by apply (Hb (Datatypes.S j)).
Qed.

(** The callback's value may depend on the position. *)
Lemma arrayMap_at {A B} (l : list A) (bs : list B) (iteratee : A -> Z -> list A -> eff S B) :
  length l = length bs ->
  (forall j a b, l !! j = Some a -> bs !! j = Some b -> iteratee a (Z.of_nat j) l ≈ mret b) ->
  arrayMap l iteratee ≈ mret bs.
Proof.
  intros Hl Hb. unfold arrayMap. rewrite (eff_bind_pure _ (inl bs)); [done|].
  apply (eloop_collect _ _ bs 0 []); [done|]. intros j a b Ha Hc acc.
  by rewrite (eff_bind_pure _ b) by eauto.
Qed.

Lemma arrayFilter_pure {A} (p : A -> bool) (l : list A) (predicate : callback S A) :
  (forall v i a, exists r, predicate v i a ≈ mret r /\ truthy r = p v) ->
  arrayFilter l predicate ≈ mret (List.filter p l).
Proof.
  intros Hp. unfold arrayFilter. erewrite eff_bind_pure.
  2:{ apply (eloop_pure (fun _ v result => inl (if p v then result ++ [v] else result))).
      intros i x a. destruct (Hp x i l) as (r & Hr & <-). by apply (eff_bind_pure _ r). }
  rewrite (loop_foldl (fun v a => if p v then a ++ [v] else a)) by done. cbn [ended].
  by rewrite collect_some.
Qed.

Lemma arraySome_pure {A} (p : A -> bool) (l : list A) (predicate : callback S A) :
  (forall v i a, exists r, predicate v i a ≈ mret r /\ truthy r = p v) ->
  arraySome l predicate ≈ mret (existsb p l).
Proof.
  intros Hp. unfold arraySome. erewrite eff_bind_pure.
  2:{ apply (eloop_pure (fun _ v _ => if p v then inr true else inl tt)).
      intros i x a. destruct (Hp x i l) as (r & Hr & <-). by apply (eff_bind_pure _ r). }
  f_equiv. generalize 0. induction l as [|x l IH]; intros i; [done|].
  cbn. destruct (p x); [done|]. apply IH.
Qed.

Lemma arrayEvery_pure {A} (p : A -> bool) (l : list A) (predicate : callback S A) :
  (forall v i a, exists r, predicate v i a ≈ mret r /\ truthy r = p v) ->
  arrayEvery l predicate ≈ mret (forallb p l).
Proof.
  intros Hp. unfold arrayEvery. erewrite eff_bind_pure.
  2:{ apply (eloop_pure (fun _ v _ => if negb (p v) then inr false else inl tt)).
      intros i x a. destruct (Hp x i l) as (r & Hr & <-). by apply (eff_bind_pure _ r). }
  f_equiv. generalize 0. induction l as [|x l IH]; intros i; [done|].
  cbn. destruct (p x); [|done]. apply IH.
Qed.

End pure_callbacks.

(** ** Searching *)

Lemma at_index_lookup (l : list value) (i : Z) (v : value) :
  0 <= i -> l !! Z.to_nat i = Some v -> l.[i] = v.
Proof. intros Hi Hl. unfold at_index. destruct (Z.ltb_spec i 0); [lia|]. by rewrite Hl. Qed.

Lemma baseIsNaN_eq (v w : value) : strict_eq v v = false -> baseIsNaN w = eq w v.
Proof.
  intros Hv. unfold baseIsNaN, eq. rewrite Hv. cbn. rewrite andb_true_r.
  destruct (strict_eq w v) eqn:E; [|done].
  apply strict_eq_norm in E as [Hn Hw]. apply strict_eq_refl in Hv as ->. cbn in Hn.
  apply norm_nan in Hn as ->. done.
Qed.

Lemma strict_eq_sym v w : strict_eq v w = strict_eq w v.
Proof.
  apply Bool.eq_iff_eq_true. split; intros H; apply strict_eq_norm in H as [Hn Hv];
    apply strict_eq_norm; (split; [done|]).
  - destruct (strict_eq w w) eqn:E; [done|]. apply strict_eq_refl in E as ->.
    apply norm_nan in Hn as ->. done.
  - destruct (strict_eq v v) eqn:E; [done|]. apply strict_eq_refl in E as ->.
    apply norm_nan in Hn as ->. done.
Qed.

Lemma eq_sym v w : eq v w = eq w v.
Proof. rewrite !eq_norm. apply bool_decide_ext. done. Qed.

(** Both ways of searching look for the first index whose element is SameValueZero
    to the value. *)
Lemma baseIndexOf_first array v fromIndex :
  baseIndexOf array v fromIndex =
  match list_find (fun i => eq array.[i] v = true) (seqZ fromIndex (len array - fromIndex)) with
  | Some (_, i) => i
  | None => -1
  end.
Proof.
  set (l := seqZ _ _).
  assert (Hf : returned (-1) (loop (Acc := unit) (fun _ i _ => if eq array.[i] v then inr i else inl tt) 0 l tt)
    = match list_find (fun i => eq array.[i] v = true) l with Some (_, i) => i | None => -1 end).
  { rewrite (loop_find (fun i => eq array.[i] v) (fun _ i => i)).
    by destruct (list_find _ l) as [[]|]. }
  unfold baseIndexOf. destruct (strict_eq v v) eqn:Hv; cbn [negb]; rewrite <- Hf.
  - f_equal. apply loop_ext. intros _ i _. rewrite eq_sym, eq_strict by done.
    by rewrite (strict_eq_sym v).
  - apply run_pure_ret. unfold baseFindIndex. erewrite eff_bind_pure; [reflexivity|].
    apply (eloop_pure (fun _ i _ => if eq array.[i] v then inr i else inl tt)).
    intros _ i _ σ. cbn. by rewrite (baseIsNaN_eq v).
Qed.

Lemma baseIndexOf_range array v fromIndex :
  0 <= fromIndex ->
  (baseIndexOf array v fromIndex = -1 /\
   forall i, fromIndex <= i < len array -> eq array.[i] v = false) \/
  (fromIndex <= baseIndexOf array v fromIndex < len array /\
   eq array.[baseIndexOf array v fromIndex] v = true /\
   forall i, fromIndex <= i < baseIndexOf array v fromIndex -> eq array.[i] v = false).
Proof.
  intros Hf. rewrite baseIndexOf_first. destruct (list_find _ _) as [[n x]|] eqn:E.
  - right. apply list_find_Some in E as (Hx & Hv & Hn). apply lookup_seqZ in Hx as [-> Hlt].
    split_and!; [lia|lia|done|]. intros i Hi.
    destruct (eq array.[i] v) eqn:Ei; [|done]. exfalso.
    apply (Hn (Z.to_nat (i - fromIndex)) i); [|lia|done]. apply lookup_seqZ. lia.
  - left. split; [done|]. intros i Hi. apply list_find_None in E.
    rewrite Forall_forall in E. destruct (eq array.[i] v) eqn:Ei; [|done]. exfalso.
    apply (E i); [|done]. apply elem_of_seqZ. lia.
Qed.

Lemma at_index_elem (l : list value) i : 0 <= i < len l -> l.[i] ∈ l.
Proof.
  intros Hi. destruct (lookup_lt_is_Some_2 l (Z.to_nat i)) as [x Hx]; [lia|].
  rewrite (at_index_lookup l i x) by (done || lia). by eapply list_elem_of_lookup_2.
Qed.

Lemma arrayIncludes_spec array v : arrayIncludes array v = existsb (fun x => eq x v) array.
Proof.
  apply Bool.eq_iff_eq_true. unfold arrayIncludes. rewrite existsb_exists, andb_true_iff, Z.ltb_lt.
  destruct (baseIndexOf_range array v 0) as [[-> Hno]|(Hr & Hv & _)]; [lia| |].
  - split; [lia|]. intros (x & Hx & Hxv). apply list_elem_of_In, list_elem_of_lookup in Hx as [n Hn].
    specialize (Hno (Z.of_nat n)). rewrite (at_index_lookup _ _ x) in Hno; [|lia|by rewrite Nat2Z.id].
    apply lookup_lt_Some in Hn. rewrite Hno in Hxv; [done|lia].
  - split; [|lia]. intros _. exists array.[baseIndexOf array v 0].
    split; [apply list_elem_of_In, at_index_elem; lia|done].
Qed.

(** ** Sorting *)

Section sorting.
Context {A : Type}.
Variable cmp : A -> A -> Z.

Lemma sort_insert_perm x l : sort_insert cmp x l ≡ₚ x :: l.
Proof.
  induction l as [|y l IH]; [done|]. cbn. destruct (cmp x y <=? 0); [done|].
  rewrite IH. apply Permutation_swap.
Qed.

Lemma js_sort_perm l : js_sort cmp l ≡ₚ l.
Proof. induction l as [|x l IH]; [done|]. cbn. by rewrite sort_insert_perm, IH. Qed.

Definition cmp_le (x y : A) : Prop := cmp x y <= 0.

Variable P : A -> Prop.
Hypothesis cmp_total : forall x y, P x -> P y -> cmp_le x y \/ cmp_le y x.
Hypothesis cmp_trans : forall x y z, P x -> P y -> P z -> cmp_le x y -> cmp_le y z -> cmp_le x z.

Lemma sort_insert_sorted x l :
  P x -> Forall P l -> StronglySorted cmp_le l -> StronglySorted cmp_le (sort_insert cmp x l).
Proof.
  intros Hx Hl Hs. induction Hs as [|y l Hs IH Hy]; [by repeat constructor|].
  apply Forall_cons in Hl as [Py Hl]. cbn. destruct (Z.leb_spec (cmp x y) 0) as [Hc|Hc].
  - constructor; [by constructor|]. constructor; [done|].
    rewrite Forall_forall in *. intros z Hz. by apply (cmp_trans x y z); auto.
  - constructor; [by apply IH|]. apply Forall_forall. intros z Hz.
    rewrite sort_insert_perm in Hz. apply elem_of_cons in Hz as [->|Hz].
    + destruct (cmp_total x y Hx Py) as [H|H]; [unfold cmp_le in H; lia|done].
    + rewrite Forall_forall in Hy. by apply Hy.
Qed.

Lemma js_sort_sorted l : Forall P l -> StronglySorted cmp_le (js_sort cmp l).
Proof.
  induction l as [|x l IH]; intros Hl; [constructor|]. apply Forall_cons in Hl as [Hx Hl].
  change (js_sort cmp (x :: l)) with (sort_insert cmp x (js_sort cmp l)).
  apply sort_insert_sorted; [done| |by apply IH].
  rewrite Forall_forall in *. intros y Hy. rewrite js_sort_perm in Hy. auto.
Qed.

End sorting.

Lemma StronglySorted_weaken {A} (R R' : A -> A -> Prop) l :
  (forall x y, R x y -> R' x y) -> StronglySorted R l -> StronglySorted R' l.
Proof.
  intros Hr. induction 1 as [|x l _ IH Hx]; constructor; [done|]. eapply Forall_impl; eauto.
Qed.
