(* ===== verification/LodashCaches.v ===== *)
(** * lodash.js: Hash, ListCache, MapCache, SetCache and Stack

    The cache constructors of [immer/extra/js/lib/lodash.js].  A [Hash] stores
    under property keys, a [ListCache] is an association list searched from its
    end, a [MapCache] sends each key to one of three stores by its type, a
    [SetCache] is a [MapCache] of keys only and a [Stack] starts as a list and
    becomes a [MapCache] when it grows.  Two facts about the engine matter to the
    code and are variables of the model: whether [Object.create] and whether [Map]
    are native.

    The contract is a finite map whose keys are compared with SameValueZero; the
    class [MapLike] states it and every cache is an instance. *)

From S2P Require Import Prelude Js LodashLang LodashArrays.
From Stdlib Require Import SpecFloat.

(** ** Property keys *)

Inductive pkey :=
| PString (s : jstring)
| PSymbol (id : Z).

#[export] Instance pkey_eq_dec : EqDecision pkey.
Proof. solve_decision. Defined.
#[export] Instance pkey_countable : Countable pkey.
Proof.
  refine (inj_countable' (fun k => match k with PString s => inl s | PSymbol i => inr i end)
    (fun k => match k with inl s => PString s | inr i => PSymbol i end) _). by intros [].
Defined.

(** The property key of a primitive value. *)
Definition property_key (v : value) : pkey :=
  match v with
  | Symbol i => PSymbol i
  | _ => PString (primitive_to_string v)
  end.

(** ** Association lists *)

Abbreviation entries := (list (value * value)).

Definition assocIndexOf (array : entries) (key : value) : Z :=
  returned (-1) (loop_right (Acc := unit) (fun i '(k, _) _ =>
    if eq k key then inr i else inl tt) 0 array tt).

(** The native [Map]: entries in insertion order, keys up to SameValueZero. *)
Fixpoint map_set (m : entries) (key v : value) : entries :=
  match m with
  | [] => [(norm key, v)]
  | (k, w) :: m => if eq k key then (k, v) :: m else (k, w) :: map_set m key v
  end.
Definition map_get (m : entries) (key : value) : option value :=
  snd <$> List.find (fun '(k, _) => eq k key) m.
Definition map_delete (m : entries) (key : value) : entries :=
  List.filter (fun '(k, _) => negb (eq k key)) m.

(** ** Hash *)

Section engine.
(** Is [Object.create] native?  Is there a native [Map]? *)
Variables nativeCreate nativeMap : bool.

Record Hash := { hash_data : gmap pkey value }.

Definition hashClear : Hash := {| hash_data := ∅ |}.

Definition hashHas (this : Hash) (key : value) : bool :=
  let data := hash_data this in
  if nativeCreate then negb (is_undefined (default Undefined (data !! property_key key)))
  else match data !! property_key key with Some _ => true | None => false end.

Definition hashDelete (this : Hash) (key : value) : bool * Hash :=
  if hashHas this key then (true, {| hash_data := delete (property_key key) (hash_data this) |})
  else (false, this).

Definition hashGet (this : Hash) (key : value) : value :=
  let data := hash_data this in
  if nativeCreate then
    let result := default Undefined (data !! property_key key) in
    if strict_eq result HASH_UNDEFINED then Undefined else result
  else match data !! property_key key with Some v => v | None => Undefined end.

Definition hashSet (this : Hash) (key v : value) : Hash :=
  {| hash_data := <[property_key key :=
       if nativeCreate && is_undefined v then HASH_UNDEFINED else v]> (hash_data this) |}.

Definition new_Hash (entries : entries) : Hash :=
  ended (loop (R := Hash) (fun _ '(k, v) this => inl (hashSet this k v)) 0 entries hashClear).

(** ** ListCache *)

Record ListCache := { list_data : entries }.

Definition listCacheClear : ListCache := {| list_data := [] |}.

Definition listCacheDelete (this : ListCache) (key : value) : bool * ListCache :=
  let data := list_data this in
  let index := assocIndexOf data key in
  if index <? 0 then (false, this) else
  let lastIndex := len data - 1 in
  (true, {| list_data := if index =? lastIndex then removelast data else splice1 data index |}).

Definition listCacheGet (this : ListCache) (key : value) : value :=
  let data := list_data this in
  let index := assocIndexOf data key in
  if index <? 0 then Undefined
  else match data !! Z.to_nat index with Some (_, v) => v | None => Undefined end.

Definition listCacheHas (this : ListCache) (key : value) : bool :=
  -1 <? assocIndexOf (list_data this) key.

Definition listCacheSet (this : ListCache) (key v : value) : ListCache :=
  let data := list_data this in
  let index := assocIndexOf data key in
  {| list_data :=
       if index <? 0 then data ++ [(key, v)]
       else alter (fun '(k, _) => (k, v)) (Z.to_nat index) data |}.

Definition new_ListCache (entries : entries) : ListCache :=
  ended (loop (R := ListCache) (fun _ '(k, v) this => inl (listCacheSet this k v)) 0 entries listCacheClear).

(** ** MapCache *)

(** [new (Map || ListCache)]. *)
Inductive map_data :=
| NativeMap (m : entries)
| ListMap (c : ListCache).

Record MapCache := { mc_hash : Hash; mc_map : map_data; mc_string : Hash }.

Definition mapCacheClear : MapCache :=
  {| mc_hash := hashClear;
     mc_map := if nativeMap then NativeMap [] else ListMap listCacheClear;
     mc_string := hashClear |}.

(** Which of the three stores a key belongs to. *)
Inductive store := SHash | SMap | SString.

Definition getMapData (key : value) : store :=
  if isKeyable key then (if bool_decide (typeof key = TString) then SString else SHash) else SMap.

Definition mapCacheDelete (this : MapCache) (key : value) : bool * MapCache :=
  match getMapData key with
  | SHash => let '(b, h) := hashDelete (mc_hash this) key in
             (b, {| mc_hash := h; mc_map := mc_map this; mc_string := mc_string this |})
  | SString => let '(b, h) := hashDelete (mc_string this) key in
               (b, {| mc_hash := mc_hash this; mc_map := mc_map this; mc_string := h |})
  | SMap =>
      let '(b, m) :=
        match mc_map this with
        | NativeMap m => (match map_get m key with Some _ => true | None => false end,
                          NativeMap (map_delete m key))
        | ListMap c => let '(b, c) := listCacheDelete c key in (b, ListMap c)
        end in
      (b, {| mc_hash := mc_hash this; mc_map := m; mc_string := mc_string this |})
  end.

Definition mapCacheGet (this : MapCache) (key : value) : value :=
  match getMapData key with
  | SHash => hashGet (mc_hash this) key
  | SString => hashGet (mc_string this) key
  | SMap => match mc_map this with
            | NativeMap m => default Undefined (map_get m key)
            | ListMap c => listCacheGet c key
            end
  end.

Definition mapCacheHas (this : MapCache) (key : value) : bool :=
  match getMapData key with
  | SHash => hashHas (mc_hash this) key
  | SString => hashHas (mc_string this) key
  | SMap => match mc_map this with
            | NativeMap m => match map_get m key with Some _ => true | None => false end
            | ListMap c => listCacheHas c key
            end
  end.

Definition mapCacheSet (this : MapCache) (key v : value) : MapCache :=
  match getMapData key with
  | SHash => {| mc_hash := hashSet (mc_hash this) key v; mc_map := mc_map this;
                mc_string := mc_string this |}
  | SString => {| mc_hash := mc_hash this; mc_map := mc_map this;
                  mc_string := hashSet (mc_string this) key v |}
  | SMap => {| mc_hash := mc_hash this;
               mc_map := match mc_map this with
                         | NativeMap m => NativeMap (map_set m key v)
                         | ListMap c => ListMap (listCacheSet c key v)
                         end;
               mc_string := mc_string this |}
  end.

Definition new_MapCache (entries : entries) : MapCache :=
  ended (loop (R := MapCache) (fun _ '(k, v) this => inl (mapCacheSet this k v)) 0 entries mapCacheClear).

(** ** SetCache *)

Record SetCache := { set_data : MapCache }.

Definition setCacheAdd (this : SetCache) (v : value) : SetCache :=
  {| set_data := mapCacheSet (set_data this) v HASH_UNDEFINED |}.

Definition setCacheHas (this : SetCache) (v : value) : bool := mapCacheHas (set_data this) v.

Definition new_SetCache (values : list value) : SetCache :=
  ended (loop (R := SetCache) (fun _ v this => inl (setCacheAdd this v)) 0 values
    {| set_data := new_MapCache [] |}).

Definition cacheHas (cache : SetCache) (key : value) : bool := setCacheHas cache key.

(** ** Stack *)

Inductive Stack :=
| StackList (c : ListCache)
| StackMap (c : MapCache).

Definition new_Stack (entries : entries) : Stack := StackList (new_ListCache entries).
Definition stackClear : Stack := StackList (new_ListCache []).

Definition stackDelete (this : Stack) (key : value) : bool * Stack :=
  match this with
  | StackList c => let '(b, c) := listCacheDelete c key in (b, StackList c)
  | StackMap c => let '(b, c) := mapCacheDelete c key in (b, StackMap c)
  end.

Definition stackGet (this : Stack) (key : value) : value :=
  match this with
  | StackList c => listCacheGet c key
  | StackMap c => mapCacheGet c key
  end.

Definition stackHas (this : Stack) (key : value) : bool :=
  match this with
  | StackList c => listCacheHas c key
  | StackMap c => mapCacheHas c key
  end.

Definition stackSet (this : Stack) (key v : value) : Stack :=
  match this with
  | StackList cache =>
      let pairs := list_data cache in
      if negb nativeMap || (len pairs <? LARGE_ARRAY_SIZE - 1)
      then StackList {| list_data := pairs ++ [(key, v)] |}
      else StackMap (mapCacheSet (new_MapCache pairs) key v)
  | StackMap cache => StackMap (mapCacheSet cache key v)
  end.

End engine.

(** ** Association lists as maps *)

Definition keys_of (l : entries) : list value := List.map (fun p => norm (fst p)) l.

Lemma loop_right_find {A} (p : A -> bool) i l :
  (exists n x, loop_right (fun i x (_ : unit) => if p x then inr i else inl tt) i l tt = inr (i + Z.of_nat n) /\
     l !! n = Some x /\ p x = true /\ forall m y, l !! m = Some y -> (n < m)%nat -> p y = false) \/
  (loop_right (fun i x (_ : unit) => if p x then inr i else inl tt) i l tt = inl tt /\
     forall y, y ∈ l -> p y = false).
Proof.
  revert i. induction l as [|x l IH]; intros i; [right; split; [done|set_solver]|].
  cbn [loop_right]. destruct (IH (i + 1)) as [(n & y & -> & Hy & Hp & Hl)|[-> Hn]].
  - left. exists (S n), y. split_and!; [f_equal; lia|done|done|].
    intros [|m] z Hz ?; [lia|]. apply (Hl m); [done|lia].
  - destruct (p x) eqn:E.
    + left. exists O, x. split_and!; [f_equal; lia|done|done|].
      intros [|m] z Hz ?; [lia|]. apply Hn. by eapply list_elem_of_lookup_2.
    + right. split; [done|]. intros y [->|?]%elem_of_cons; auto.
Qed.

Lemma assocIndexOf_spec l key :
  (exists n k v, assocIndexOf l key = Z.of_nat n /\ l !! n = Some (k, v) /\ eq k key = true /\
     forall m k' v', l !! m = Some (k', v') -> (n < m)%nat -> eq k' key = false) \/
  (assocIndexOf l key = -1 /\ forall k v, (k, v) ∈ l -> eq k key = false).
Proof.
  unfold assocIndexOf.
  replace (loop_right _ 0 l tt) with (loop_right (fun i (x : value * value) (_ : unit) =>
    if eq (fst x) key then inr i else inl tt) 0 l tt).
  2:{ generalize 0. induction l as [|[k v] l IH]; intros i; [done|]. cbn. by rewrite IH. }
  destruct (loop_right_find (fun x => eq (fst x) key) 0 l) as [(n & [k v] & -> & Hl & Hk & Hm)|[-> Hn]].
  - left. exists n, k, v. split_and!; [done..|]. intros m k' v' Hl' Hlt. apply (Hm m (k', v') Hl' Hlt).
  - right. split; [done|]. intros k v Hin. apply (Hn (k, v) Hin).
Qed.

(** With distinct keys, the binding found from either end is the same. *)
Lemma map_get_lookup l n k v key :
  NoDup (keys_of l) -> l !! n = Some (k, v) -> eq k key = true -> map_get l key = Some v.
Proof.
  unfold map_get. revert n. induction l as [|[k' v'] l IH]; intros n Hd Hl Hk; [done|].
  cbn in *. apply NoDup_cons in Hd as [Hn Hd]. destruct n as [|n]; cbn in Hl; simplify_eq.
  - by rewrite Hk.
  - destruct (eq k' key) eqn:E; [|by eapply IH]. exfalso. apply Hn.
    rewrite eq_norm, bool_decide_eq_true in E, Hk.
    apply list_elem_of_In, in_map_iff. exists (k, v). split; [cbn; congruence|].
    apply list_elem_of_In. by eapply list_elem_of_lookup_2.
Qed.

Lemma map_get_None l key : (forall k v, (k, v) ∈ l -> eq k key = false) <-> map_get l key = None.
Proof.
  unfold map_get. induction l as [|[k v] l IH]; cbn; [set_solver|]. destruct (eq k key) eqn:E.
  - split; [|done]. intros H. specialize (H k v ltac:(left)). congruence.
  - rewrite <- IH. split; intros H k' v' Hin.
    + apply (H k' v'). by right.
    + apply elem_of_cons in Hin as [[= -> ->]|Hin]; [done|by eapply H].
Qed.

Lemma assocIndexOf_get l key :
  NoDup (keys_of l) ->
  match map_get l key with
  | Some v => exists n k, assocIndexOf l key = Z.of_nat n /\ l !! n = Some (k, v) /\ eq k key = true
  | None => assocIndexOf l key = -1
  end.
Proof.
  intros Hd. destruct (assocIndexOf_spec l key) as [(n & k & v & Hi & Hl & Hk & _)|[Hi Hn]].
  - rewrite (map_get_lookup l n k v key) by done. eauto.
  - by apply map_get_None in Hn as ->.
Qed.

Lemma eq_cong a b c : eq a b = true -> eq a c = eq b c.
Proof.
  rewrite !eq_norm, bool_decide_eq_true. intros ->. done.
Qed.

Lemma map_get_cong l k k' : eq k k' = true -> map_get l k = map_get l k'.
Proof.
  intros Hk. unfold map_get. induction l as [|[j v] l IH]; [done|]. cbn.
  rewrite (eq_sym j k), (eq_sym j k'), (eq_cong k k') by done. by destruct (eq k' j).
Qed.

(** Lookups after a change of one binding. *)
Lemma map_get_alter l n k v w key :
  NoDup (keys_of l) -> l !! n = Some (k, v) ->
  map_get (alter (fun '(k, _) => (k, w)) n l) key = if eq k key then Some w else map_get l key.
Proof.
  unfold map_get. revert n. induction l as [|[k' v'] l IH]; intros n Hd Hl; [done|].
  cbn in Hd. apply NoDup_cons in Hd as [Hn Hd]. destruct n as [|n]; cbn in Hl; simplify_eq; cbn.
  - by destruct (eq k key).
  - destruct (eq k' key) eqn:E; [|by apply IH]. destruct (eq k key) eqn:E2; [|done].
    exfalso. apply Hn. rewrite eq_norm, bool_decide_eq_true in E, E2.
    apply list_elem_of_In, in_map_iff. exists (k, v). split; [cbn; congruence|].
    apply list_elem_of_In. by eapply list_elem_of_lookup_2.
Qed.

Lemma keys_of_alter l n w : keys_of (alter (fun '(k, _) => (k, w)) n l) = keys_of l.
Proof.
  revert n. induction l as [|[k v] l IH]; intros [|n]; cbn; [done..|]. f_equal. apply IH.
Qed.

Lemma map_get_app l k v key :
  map_get (l ++ [(k, v)]) key
  = match map_get l key with Some w => Some w | None => if eq k key then Some v else None end.
Proof.
  unfold map_get. induction l as [|[k' v'] l IH]; cbn; [by destruct (eq k key)|].
  by destruct (eq k' key).
Qed.

Lemma elem_of_keys l k : k ∈ keys_of l <-> exists k' v, (k', v) ∈ l /\ norm k' = k.
Proof.
  unfold keys_of. rewrite list_elem_of_In, in_map_iff. split.
  - intros ([k' v] & <- & Hin). exists k', v. by rewrite list_elem_of_In.
  - intros (k' & v & Hin & <-). exists (k', v). by rewrite <- list_elem_of_In.
Qed.

Lemma keys_of_app l k : keys_of (l ++ k) = keys_of l ++ keys_of k.
Proof. apply map_app. Qed.

Lemma NoDup_keys_app l k v :
  NoDup (keys_of l) -> map_get l k = None -> NoDup (keys_of (l ++ [(k, v)])).
Proof.
  intros Hd Hn. rewrite keys_of_app. apply NoDup_app. split_and!; [done| |apply NoDup_singleton].
  intros k' Hk' [->|Hf]%elem_of_cons; [|by apply elem_of_nil in Hf].
  apply elem_of_keys in Hk' as (k' & v' & Hin & Heq). cbn in Heq.
  apply map_get_None with (k := k') (v := v') in Hn; [|done].
  rewrite eq_norm, bool_decide_eq_false in Hn. done.
Qed.

Lemma map_get_delete l n k v key :
  NoDup (keys_of l) -> l !! n = Some (k, v) ->
  map_get (delete n l) key = if eq k key then None else map_get l key.
Proof.
  revert n. induction l as [|[k' v'] l IH]; intros n Hd Hl; [done|].
  cbn in Hd. apply NoDup_cons in Hd as [Hn Hd]. destruct n as [|n]; cbn in Hl; simplify_eq; cbn.
  - unfold map_get. cbn. destruct (eq k key) eqn:E; [|done]. apply map_get_None.
    intros k' v' Hin. destruct (eq k' key) eqn:E'; [|done]. exfalso. apply Hn.
    apply elem_of_keys. exists k', v'. split; [done|].
    rewrite eq_norm, bool_decide_eq_true in E, E'. congruence.
  - specialize (IH n Hd Hl). unfold map_get in *. cbn. destruct (eq k' key) eqn:E; [|done].
    destruct (eq k key) eqn:E'; [|done]. exfalso. apply Hn.
    apply elem_of_keys. exists k, v. split; [by eapply list_elem_of_lookup_2|].
    rewrite eq_norm, bool_decide_eq_true in E, E'. congruence.
Qed.

Lemma keys_of_delete l n : NoDup (keys_of l) -> NoDup (keys_of (delete n l)).
Proof.
  intros Hd. unfold keys_of in *. apply (sublist_NoDup _ _ Hd).
  revert n. clear. induction l as [|x l IH]; intros [|n]; cbn; [done..|by constructor|].
  by constructor.
Qed.

Lemma removelast_delete {A} (l : list A) : removelast l = delete (length l - 1)%nat l.
Proof.
  induction l as [|x l IH]; [done|]. destruct l as [|y l]; [done|].
  change (removelast (x :: y :: l)) with (x :: removelast (y :: l)).
  rewrite IH. cbn [length Nat.sub]. by rewrite Nat.sub_0_r.
Qed.

Lemma splice1_delete {A} (l : list A) n : splice1 l (Z.of_nat n) = delete n l.
Proof. unfold splice1. by rewrite Nat2Z.id, delete_take_drop. Qed.

(** ** ListCache *)

Definition list_valid (c : ListCache) : Prop := NoDup (keys_of (list_data c)).
Definition list_model (c : ListCache) (k : value) : option value := map_get (list_data c) k.

Lemma listCacheHas_model c k :
  list_valid c -> listCacheHas c k = match list_model c k with Some _ => true | None => false end.
Proof.
  intros Hv. unfold listCacheHas, list_model. pose proof (assocIndexOf_get _ k Hv) as Hi.
  destruct (map_get (list_data c) k); [|by rewrite Hi].
  destruct Hi as (n & k' & -> & _). apply Z.ltb_lt. lia.
Qed.

Lemma listCacheGet_model c k : list_valid c -> listCacheGet c k = default Undefined (list_model c k).
Proof.
  intros Hv. unfold listCacheGet, list_model. pose proof (assocIndexOf_get _ k Hv) as Hi.
  destruct (map_get (list_data c) k); [|by rewrite Hi].
  destruct Hi as (n & k' & -> & Hl & _). destruct (Z.ltb_spec (Z.of_nat n) 0); [lia|].
  by rewrite Nat2Z.id, Hl.
Qed.

Lemma listCacheSet_model c k v :
  list_valid c -> list_valid (listCacheSet c k v) /\
  forall k', list_model (listCacheSet c k v) k' = if eq k k' then Some v else list_model c k'.
Proof.
  intros Hv. unfold list_valid, listCacheSet, list_model. cbn [list_data].
  pose proof (assocIndexOf_get _ k Hv) as Hi. destruct (map_get (list_data c) k) as [w|] eqn:E.
  - destruct Hi as (n & k1 & -> & Hl & Hk). destruct (Z.ltb_spec (Z.of_nat n) 0); [lia|].
    rewrite Nat2Z.id, keys_of_alter. split; [done|]. intros k'.
    rewrite (map_get_alter _ n k1 w) by done. by rewrite (eq_cong k1 k).
  - rewrite Hi. change (-1 <? 0) with true. cbv iota.
    split; [by apply NoDup_keys_app|]. intros k'. rewrite map_get_app.
    destruct (eq k k') eqn:Ek; [|by destruct (map_get _ k')].
    by rewrite <- (map_get_cong _ k k'), E.
Qed.

Lemma listCacheDelete_model c k :
  list_valid c -> list_valid (snd (listCacheDelete c k)) /\
  fst (listCacheDelete c k) = match list_model c k with Some _ => true | None => false end /\
  forall k', list_model (snd (listCacheDelete c k)) k' = if eq k k' then None else list_model c k'.
Proof.
  intros Hv. unfold listCacheDelete, list_model.
  pose proof (assocIndexOf_get _ k Hv) as Hi. destruct (map_get (list_data c) k) as [w|] eqn:E.
  - destruct Hi as (n & k1 & -> & Hl & Hk). destruct (Z.ltb_spec (Z.of_nat n) 0); [lia|].
    cbn [fst snd]. unfold list_valid. cbn [list_data].
    replace (if _ =? _ then _ else _) with (delete n (list_data c)).
    + split_and!; [by apply keys_of_delete|done|]. intros k'.
      rewrite (map_get_delete _ n k1 w) by done. by rewrite (eq_cong k1 k).
    + rewrite splice1_delete. destruct (Z.eqb_spec (Z.of_nat n) (len (list_data c) - 1)); [|done].
      rewrite removelast_delete. f_equal. lia.
  - rewrite Hi. cbn. split_and!; [done..|]. intros k'. destruct (eq k k') eqn:Ek; [|done].
    by rewrite <- (map_get_cong _ k k').
Qed.

(** ** The native map *)

Lemma eq_norm_l k k' : eq (norm k) k' = eq k k'.
Proof. by rewrite !eq_norm, norm_idemp. Qed.

Lemma map_get_set m k v k' :
  map_get (map_set m k v) k' = if eq k k' then Some v else map_get m k'.
Proof.
  unfold map_get. induction m as [|[j w] m IH]; cbn.
  - rewrite eq_norm_l. by destruct (eq k k').
  - destruct (eq j k) eqn:E; cbn.
    + rewrite (eq_cong j k) by done. by destruct (eq k k').
    + destruct (eq j k') eqn:E'; [|done]. destruct (eq k k') eqn:E2; [|done].
      rewrite eq_sym in E2. by rewrite eq_sym, <- (eq_cong k' k), eq_sym, E' in E.
Qed.

Lemma elem_of_keys_set m k v x : x ∈ keys_of (map_set m k v) -> x = norm k \/ x ∈ keys_of m.
Proof.
  induction m as [|[j w] m IH]; cbn; [rewrite norm_idemp; set_solver|].
  destruct (eq j k); cbn; set_solver.
Qed.

Lemma keys_of_set m k v : NoDup (keys_of m) -> NoDup (keys_of (map_set m k v)).
Proof.
  induction m as [|[j w] m IH]; cbn; intros Hd; [apply NoDup_singleton|].
  apply NoDup_cons in Hd as [Hn Hd]. destruct (eq j k) eqn:E; cbn; apply NoDup_cons; [done|].
  split; [|by apply IH]. intros [Hj|Hj]%elem_of_keys_set; [|done].
  by rewrite eq_norm, bool_decide_eq_false in E.
Qed.

Lemma map_get_remove m k k' :
  map_get (map_delete m k) k' = if eq k k' then None else map_get m k'.
Proof.
  unfold map_get, map_delete. induction m as [|[j w] m IH]; cbn; [by destruct (eq k k')|].
  destruct (eq j k) eqn:E; cbn.
  - rewrite IH, (eq_cong j k) by done. by destruct (eq k k').
  - destruct (eq j k') eqn:E'; [|done]. destruct (eq k k') eqn:E2; [|done].
    rewrite eq_sym in E2. by rewrite eq_sym, <- (eq_cong k' k), eq_sym, E' in E.
Qed.

Lemma keys_of_remove m k : NoDup (keys_of m) -> NoDup (keys_of (map_delete m k)).
Proof.
  intros Hd. apply (sublist_NoDup _ _ Hd). clear Hd. unfold keys_of, map_delete.
  induction m as [|[j w] m IH]; cbn; [done|]. destruct (eq j k); cbn; by constructor.
Qed.

(** ** Property keys of the keyable values *)

(** A number whose decimal form reads back as itself, as the language promises of
    every number but the negative zero. *)
Definition prints (n : number) : bool := is_nan n || neqb (string_to_number (number_to_string n)) n.
Definition key_ok (k : value) : Prop := match k with Number n => prints n = true | _ => True end.

Lemma prints_spec n :
  prints n = true ->
  (n = nan /\ number_to_string n = str "NaN") \/
  (is_nan n = false /\ norm (Number (string_to_number (number_to_string n))) = norm (Number n) /\
   is_nan (string_to_number (number_to_string n)) = false).
Proof.
  unfold prints. intros [Hn|Hn]%orb_true_iff; [left; by destruct n|right].
  apply neqb_norm in Hn as [Hn Hs]. split_and!; [|done..].
  destruct (is_nan n) eqn:E; [|done]. destruct n; try done.
Qed.

Lemma number_string_inj n m :
  prints n = true -> prints m = true -> number_to_string n = number_to_string m ->
  norm (Number n) = norm (Number m).
Proof.
  assert (HN : is_nan (string_to_number (str "NaN")) = true) by (vm_compute; reflexivity).
  intros [[-> Hn]|(_ & Hn & Sn)]%prints_spec [[-> Hm]|(_ & Hm & Sm)]%prints_spec E.
  - done.
  - congruence.
  - congruence.
  - by rewrite <- Hn, <- Hm, E.
Qed.

(** The words that the other keyable values print as. *)
Definition literal_word (s : jstring) : Prop := s = str "null" \/ s = str "true" \/ s = str "false".

Lemma number_string_word n : prints n = true -> ~ literal_word (number_to_string n).
Proof.
  assert (HN : forall s, literal_word s -> is_nan (string_to_number s) = true /\ s <> str "NaN").
  { intros s [->|[->| ->]]; split; try (vm_compute; reflexivity); done. }
  intros [[-> Hn]|(_ & _ & Sn)]%prints_spec [Hw Hne]%HN; congruence.
Qed.

Definition hash_keyed (k : value) : Prop :=
  match k with Null | Boolean _ | Number _ | Symbol _ => True | _ => False end.

Lemma getMapData_cases k :
  match getMapData k with
  | SHash => hash_keyed k
  | SString => exists s, k = String s
  | SMap => True
  end.
Proof.
  unfold getMapData, isKeyable.
  destruct k as [| | | | | |[] i]; cbn; try done.
  rewrite (bool_decide_eq_true_2 (TString = TString)) by done. destruct (negb _); eauto.
Qed.

Lemma hash_key_inj k k' :
  hash_keyed k -> hash_keyed k' -> key_ok k -> key_ok k' ->
  property_key k = property_key k' -> norm k = norm k'.
Proof.
  assert (Hw : forall n s, prints n = true -> literal_word s -> PString (number_to_string n) <> PString s).
  { intros n s Hn Hs [= E]. subst s. by eapply number_string_word. }
  destruct k as [| |[]|n| |i|], k' as [| |[]|m| |j|]; cbn [hash_keyed key_ok property_key primitive_to_string];
    intros ? ? Hk Hk' E; try done;
    try (exfalso; eapply Hw; [exact Hk| |exact E]; unfold literal_word; tauto);
    try (exfalso; symmetry in E; eapply Hw; [exact Hk'| |exact E]; unfold literal_word; tauto).
  - injection E as E. by apply number_string_inj.
  - by injection E as ->.
Qed.

Lemma property_key_norm k k' : norm k = norm k' -> property_key k = property_key k'.
Proof.
  destruct k as [| |[]|[]| | |], k' as [| |[]|[]| | |]; cbn; intros E; by simplify_eq.
Qed.

(** Within one store, two keys name the same property exactly when they are
    SameValueZero. *)
Lemma property_key_inj k k' :
  key_ok k -> key_ok k' -> getMapData k = getMapData k' -> getMapData k <> SMap ->
  property_key k = property_key k' <-> eq k k' = true.
Proof.
  rewrite eq_norm, bool_decide_eq_true. intros Hk Hk' Hs Hm.
  split; [|apply property_key_norm]. intros E.
  pose proof (getMapData_cases k) as C. pose proof (getMapData_cases k') as C'.
  rewrite <- Hs in C'. destruct (getMapData k); [by apply hash_key_inj|done|].
  destruct C as [s ->], C' as [t ->]. by injection E as ->.
Qed.

Lemma getMapData_norm k k' : eq k k' = true -> getMapData k = getMapData k'.
Proof.
  rewrite eq_norm, bool_decide_eq_true.
  destruct k as [| |[]|[]| | |], k' as [| |[]|[]| | |]; cbn; intros E; by simplify_eq.
Qed.

(** ** The contract: a map keyed up to SameValueZero *)

(** The operations of a cache, the map it stands for, and the laws.  [ml_val] says
    which values the cache can hold. *)
Class MapLike (C : Type) := {
  ml_has : C -> value -> bool;
  ml_get : C -> value -> value;
  ml_set : C -> value -> value -> C;
  ml_delete : C -> value -> bool * C;
  ml_model : C -> value -> option value;
  ml_valid : C -> Prop;
  ml_val : value -> Prop;
  ml_has_law c k : ml_valid c -> key_ok k ->
    ml_has c k = match ml_model c k with Some _ => true | None => false end;
  ml_get_law c k : ml_valid c -> key_ok k -> ml_get c k = default Undefined (ml_model c k);
  ml_set_law c k v : ml_valid c -> key_ok k -> ml_val v ->
    ml_valid (ml_set c k v) /\
    forall k', key_ok k' ->
      ml_model (ml_set c k v) k' = if eq k k' then Some v else ml_model c k';
  ml_delete_law c k : ml_valid c -> key_ok k ->
    ml_valid (snd (ml_delete c k)) /\ fst (ml_delete c k) = ml_has c k /\
    forall k', key_ok k' ->
      ml_model (snd (ml_delete c k)) k' = if eq k k' then None else ml_model c k';
}.

#[export, refine] Instance list_cache_map : MapLike ListCache :=
  {| ml_has := listCacheHas; ml_get := listCacheGet; ml_set := listCacheSet;
     ml_delete := listCacheDelete; ml_model := list_model; ml_valid := list_valid;
     ml_val _ := True |}.
Proof.
  - intros. by apply listCacheHas_model.
  - intros. by apply listCacheGet_model.
  - intros c k v Hc _ _. destruct (listCacheSet_model c k v Hc). eauto.
  - intros c k Hc _. rewrite listCacheHas_model by done.
    destruct (listCacheDelete_model c k Hc) as (? & ? & ?). eauto.
Defined.

Section map_cache.
Variables nativeCreate nativeMap : bool.

(** What a stored value stands for. *)
Definition decode (v : value) : value :=
  if nativeCreate && strict_eq v HASH_UNDEFINED then Undefined else v.
Definition hash_model (h : Hash) (k : value) : option value := decode <$> hash_data h !! property_key k.
Definition hash_valid (h : Hash) : Prop :=
  nativeCreate = true -> forall p, hash_data h !! p <> Some Undefined.
Definition storable (v : value) : Prop := strict_eq v HASH_UNDEFINED = false.

Lemma hashHas_model h k :
  hash_valid h -> hashHas nativeCreate h k = match hash_model h k with Some _ => true | None => false end.
Proof.
  unfold hash_valid, hashHas, hash_model. intros Hv. destruct nativeCreate.
  - specialize (Hv eq_refl (property_key k)).
    destruct (hash_data h !! property_key k) as [[]|]; by cbn.
  - by destruct (hash_data h !! property_key k).
Qed.

Lemma hashGet_model h k : hashGet nativeCreate h k = default Undefined (hash_model h k).
Proof.
  unfold hashGet, hash_model, decode. destruct nativeCreate; cbn.
  - by destruct (hash_data h !! property_key k).
  - by destruct (hash_data h !! property_key k).
Qed.

Lemma hashSet_valid h k v : hash_valid h -> hash_valid (hashSet nativeCreate h k v).
Proof.
  unfold hash_valid, hashSet. cbn [hash_data]. intros Hv Hn p. rewrite Hn. cbn.
  rewrite lookup_insert. destruct (decide _); [|by apply Hv].
  by destruct v.
Qed.

Lemma hashSet_model h k v k' :
  storable v ->
  hash_model (hashSet nativeCreate h k v) k'
  = if decide (property_key k = property_key k') then Some v else hash_model h k'.
Proof.
  intros Hs. unfold hash_model, hashSet, decode. cbn [hash_data]. rewrite lookup_insert.
  destruct (decide _); cbn; [|done]. f_equal.
  destruct nativeCreate; cbn; [|done]. destruct (is_undefined v) eqn:E.
  - destruct v; try done.
  - by rewrite Hs.
Qed.

Lemma hashDelete_model h k :
  hash_valid h -> hash_valid (snd (hashDelete nativeCreate h k)) /\
  fst (hashDelete nativeCreate h k) = hashHas nativeCreate h k /\
  forall k', hash_model (snd (hashDelete nativeCreate h k)) k'
    = if decide (property_key k = property_key k') then None else hash_model h k'.
Proof.
  intros Hv. unfold hashDelete. pose proof (hashHas_model h k Hv) as Hh.
  destruct (hashHas nativeCreate h k); cbn [fst snd]; split_and!; try done.
  - intros Hn p. cbn. rewrite lookup_delete. destruct (decide _); [done|by apply Hv].
  - intros k'. unfold hash_model. cbn. rewrite lookup_delete. by destruct (decide _).
  - intros k'. destruct (decide _) as [E|]; [|done]. unfold hash_model in *. rewrite <- E.
    by destruct (decode <$> _).
Qed.

(** ** MapCache *)

Definition data_model (d : map_data) (k : value) : option value :=
  match d with NativeMap m => map_get m k | ListMap c => list_model c k end.
Definition data_valid (d : map_data) : Prop :=
  match d with NativeMap m => NoDup (keys_of m) | ListMap c => list_valid c end.

Definition map_cache_model (c : MapCache) (k : value) : option value :=
  match getMapData k with
  | SHash => hash_model (mc_hash c) k
  | SString => hash_model (mc_string c) k
  | SMap => data_model (mc_map c) k
  end.
Definition map_cache_valid (c : MapCache) : Prop :=
  hash_valid (mc_hash c) /\ hash_valid (mc_string c) /\ data_valid (mc_map c).

Lemma mapCacheHas_model c k :
  map_cache_valid c ->
  mapCacheHas nativeCreate c k = match map_cache_model c k with Some _ => true | None => false end.
Proof.
  intros (Hh & Hs & Hm). unfold mapCacheHas, map_cache_model. destruct (getMapData k).
  - by apply hashHas_model.
  - destruct (mc_map c); [done|by apply listCacheHas_model].
  - by apply hashHas_model.
Qed.

Lemma mapCacheGet_model c k :
  map_cache_valid c -> mapCacheGet nativeCreate c k = default Undefined (map_cache_model c k).
Proof.
  intros (_ & _ & Hm). unfold mapCacheGet, map_cache_model. destruct (getMapData k).
  - apply hashGet_model.
  - destruct (mc_map c); [done|by apply listCacheGet_model].
  - apply hashGet_model.
Qed.

(** Keys of different stores are different keys. *)
Lemma stores_disjoint k k' : getMapData k <> getMapData k' -> eq k k' = false.
Proof. intros Hne. destruct (eq k k') eqn:E; [|done]. by apply getMapData_norm in E. Qed.

Lemma decide_property_key {A} k k' (x y : A) :
  key_ok k -> key_ok k' -> getMapData k = getMapData k' -> getMapData k <> SMap ->
  (if decide (property_key k = property_key k') then x else y) = if eq k k' then x else y.
Proof.
  intros Hk Hk' Hs Hm. pose proof (property_key_inj k k' Hk Hk' Hs Hm) as Hi.
  destruct (decide _), (eq k k'); naive_solver.
Qed.

Lemma mapCacheSet_model c k v :
  map_cache_valid c -> key_ok k -> storable v ->
  map_cache_valid (mapCacheSet nativeCreate c k v) /\
  forall k', key_ok k' ->
    map_cache_model (mapCacheSet nativeCreate c k v) k' = if eq k k' then Some v else map_cache_model c k'.
Proof.
  intros (Hh & Hs & Hm) Hk Hv. unfold mapCacheSet, map_cache_valid, map_cache_model.
  destruct (getMapData k) eqn:Ek; cbn [mc_hash mc_map mc_string];
    (split; [split_and!; try done; try by apply hashSet_valid|]).
  - intros k' Hk'. destruct (getMapData k') eqn:Ek'; try (rewrite stores_disjoint; congruence).
    rewrite hashSet_model by done. apply decide_property_key; congruence.
  - destruct (mc_map c); cbn in *; [by apply keys_of_set|by apply listCacheSet_model].
  - intros k' Hk'. destruct (getMapData k') eqn:Ek'; try (rewrite stores_disjoint; congruence).
    destruct (mc_map c); cbn in *; [apply map_get_set|by apply listCacheSet_model].
  - intros k' Hk'. destruct (getMapData k') eqn:Ek'; try (rewrite stores_disjoint; congruence).
    rewrite hashSet_model by done. apply decide_property_key; congruence.
Qed.

Lemma mapCacheDelete_model c k :
  map_cache_valid c -> key_ok k ->
  map_cache_valid (snd (mapCacheDelete nativeCreate c k)) /\
  fst (mapCacheDelete nativeCreate c k) = mapCacheHas nativeCreate c k /\
  forall k', key_ok k' ->
    map_cache_model (snd (mapCacheDelete nativeCreate c k)) k'
    = if eq k k' then None else map_cache_model c k'.
Proof.
  intros (Hh & Hs & Hm) Hk. unfold mapCacheDelete, map_cache_valid, map_cache_model, mapCacheHas.
  destruct (getMapData k) eqn:Ek.
  - destruct (hashDelete_model (mc_hash c) k Hh) as (Hv & Hb & Hd).
    destruct (hashDelete nativeCreate (mc_hash c) k) as [b h]. cbn [fst snd mc_hash mc_map mc_string] in *.
    split_and!; try done. intros k' Hk'.
    destruct (getMapData k') eqn:Ek'; try (rewrite stores_disjoint; congruence).
    rewrite Hd. apply decide_property_key; congruence.
  - destruct (mc_map c) as [m|l] eqn:Em; cbn in Hm.
    + cbn [fst snd mc_hash mc_map mc_string data_valid data_model]. split_and!; try done.
      * by apply keys_of_remove.
      * intros k' Hk'. destruct (getMapData k') eqn:Ek'; try (rewrite stores_disjoint; congruence).
        apply map_get_remove.
    + destruct (listCacheDelete_model l k Hm) as (Hv & Hb & Hd). rewrite listCacheHas_model by done.
      destruct (listCacheDelete l k) as [b l']. cbn [fst snd mc_hash mc_map mc_string data_valid data_model] in *.
      split_and!; try done. intros k' Hk'.
      destruct (getMapData k') eqn:Ek'; try (rewrite stores_disjoint; congruence). apply Hd.
  - destruct (hashDelete_model (mc_string c) k Hs) as (Hv & Hb & Hd).
    destruct (hashDelete nativeCreate (mc_string c) k) as [b h]. cbn [fst snd mc_hash mc_map mc_string] in *.
    split_and!; try done. intros k' Hk'.
    destruct (getMapData k') eqn:Ek'; try (rewrite stores_disjoint; congruence).
    rewrite Hd. apply decide_property_key; congruence.
Qed.

Lemma mapCacheClear_model :
  map_cache_valid (mapCacheClear nativeMap) /\ forall k, map_cache_model (mapCacheClear nativeMap) k = None.
Proof.
  unfold map_cache_valid, map_cache_model, mapCacheClear, hash_valid. cbn. split.
  - split_and!; try done; [by intros _ p; rewrite lookup_empty..|].
    destruct nativeMap; apply NoDup_nil_2.
  - intros k. destruct (getMapData k); [done| |done]. by destruct nativeMap.
Qed.

#[export, refine] Instance map_cache_map : MapLike MapCache :=
  {| ml_has := mapCacheHas nativeCreate; ml_get := mapCacheGet nativeCreate;
     ml_set := mapCacheSet nativeCreate; ml_delete := mapCacheDelete nativeCreate;
     ml_model := map_cache_model; ml_valid := map_cache_valid; ml_val := storable |}.
Proof.
  - intros. by apply mapCacheHas_model.
  - intros. by apply mapCacheGet_model.
  - apply mapCacheSet_model.
  - apply mapCacheDelete_model.
Defined.

End map_cache.

(** ** Refinement: runs of cache operations *)

Inductive cache_op :=
| OpHas (k : value)
| OpGet (k : value)
| OpSet (k v : value)
| OpDelete (k : value).

Inductive answer :=
| ABool (b : bool)
| AValue (v : value)
| ANone.

Definition cache_step {C} `{MapLike C} (c : C) (op : cache_op) : answer * C :=
  match op with
  | OpHas k => (ABool (ml_has c k), c)
  | OpGet k => (AValue (ml_get c k), c)
  | OpSet k v => (ANone, ml_set c k v)
  | OpDelete k => let '(b, c) := ml_delete c k in (ABool b, c)
  end.

(** The abstract map: a function that does not tell SameValueZero keys apart. *)
Definition spec_step (m : value -> option value) (op : cache_op) : answer * (value -> option value) :=
  match op with
  | OpHas k => (ABool (match m k with Some _ => true | None => false end), m)
  | OpGet k => (AValue (default Undefined (m k)), m)
  | OpSet k v => (ANone, fun k' => if eq k k' then Some v else m k')
  | OpDelete k => (ABool (match m k with Some _ => true | None => false end),
                   fun k' => if eq k k' then None else m k')
  end.

Fixpoint run {St} (step : St -> cache_op -> answer * St) (s : St) (ops : list cache_op) : list answer :=
  match ops with
  | [] => []
  | op :: ops => let '(a, s) := step s op in a :: run step s ops
  end.

Definition op_ok {C} `{MapLike C} (op : cache_op) : Prop :=
  match op with
  | OpHas k | OpGet k | OpDelete k => key_ok k
  | OpSet k v => key_ok k /\ ml_val v
  end.

(** One step of a cache simulates one step of the map. *)
Lemma cache_step_sim {C} `{MapLike C} (c : C) (m : value -> option value) op :
  ml_valid c -> (forall k, key_ok k -> ml_model c k = m k) -> op_ok op ->
  fst (cache_step c op) = fst (spec_step m op) /\ ml_valid (snd (cache_step c op)) /\
  forall k, key_ok k -> ml_model (snd (cache_step c op)) k = snd (spec_step m op) k.
Proof.
  intros Hv Hm Hop. destruct op as [k|k|k v|k]; cbn in *.
  - by rewrite ml_has_law, Hm by done.
  - by rewrite ml_get_law, Hm by done.
  - destruct Hop as [Hk Hval]. destruct (ml_set_law c k v Hv Hk Hval) as [? Hset].
    split_and!; try done. intros k' Hk'. rewrite Hset by done. by rewrite Hm.
  - destruct (ml_delete_law c k Hv Hop) as (? & Hb & Hdel).
    destruct (ml_delete c k) as [b c'] eqn:E. cbn [fst snd] in *.
    rewrite Hb, ml_has_law, Hm by done. split_and!; try done.
    intros k' Hk'. rewrite Hdel by done. by rewrite Hm.
Qed.

Lemma cache_run_refines {C} `{MapLike C} (ops : list cache_op) (c : C) (m : value -> option value) :
  ml_valid c -> (forall k, key_ok k -> ml_model c k = m k) -> Forall op_ok ops ->
  run cache_step c ops = run spec_step m ops.
Proof.
  revert c m. induction ops as [|op ops IH]; intros c m Hv Hm Hops; [done|].
  apply Forall_cons in Hops as [Hop Hops]. cbn [run].
  destruct (cache_step_sim c m op Hv Hm Hop) as (Ha & Hv' & Hm').
  destruct (cache_step c op) as [a c'], (spec_step m op) as [a' m']. cbn [fst snd] in *.
  subst a'. f_equal. by apply IH.
Qed.

(** C26: In every engine - with or without a native [Object.create] and a native [Map] -
    any sequence of [has], [get], [set] and [delete] on a [MapCache] gets the answers
    of a map whose keys are compared with SameValueZero: the three stores never mix
    up a string with a number, boolean, null or symbol that prints the same.  The
    marker string of the code is excluded as a stored value. *)
Theorem MapCache_refines_map (nativeCreate nativeMap : bool) (ops : list cache_op) :
  Forall (op_ok (H := map_cache_map nativeCreate)) ops ->
  run (cache_step (H := map_cache_map nativeCreate)) (mapCacheClear nativeMap) ops
  = run spec_step (fun _ => None) ops.
Proof.
  intros Hops. destruct (mapCacheClear_model nativeCreate nativeMap) as [Hv Hm].
  apply (cache_run_refines (H := map_cache_map nativeCreate)); [exact Hv|intros k _; apply Hm|done].
Qed.

Definition ex_ops : list cache_op :=
  [OpSet (Number (num 1)) (String (str "number")); OpSet (String (str "1")) (String (str "string"));
   OpGet (Number (num 1)); OpGet (String (str "1"));
   OpSet (Number nan) Undefined; OpHas (Number nan); OpGet (Number nan);
   OpSet (String (str "__proto__")) Null; OpHas (String (str "__proto__"));
   OpSet (Number (S754_zero true)) (Boolean true); OpGet (Number (num 0));
   OpDelete (Number (num 1)); OpHas (Number (num 1)); OpHas (String (str "1"))].

Lemma MapCache_refines_map_witness :
  run (cache_step (H := map_cache_map true)) (mapCacheClear true) ex_ops = run spec_step (fun _ => None) ex_ops.
Proof.
  apply (MapCache_refines_map true true ex_ops).
  repeat apply Forall_cons_2; try apply Forall_nil_2; cbn -[prints strict_eq];
    unfold storable; try split; try exact I; vm_compute; reflexivity.
Defined.

(** ** SetCache *)

Section set_cache.
Variables nativeCreate nativeMap : bool.

Lemma hashHas_set h k v k' :
  hash_valid nativeCreate h ->
  hashHas nativeCreate (hashSet nativeCreate h k v) k'
  = if decide (property_key k = property_key k') then true else hashHas nativeCreate h k'.
Proof.
  intros Hv. unfold hashHas, hashSet. cbn [hash_data]. rewrite lookup_insert.
  destruct (decide _); cbn; [|done]. destruct nativeCreate; cbn; [|done]. by destruct v.
Qed.

(** [has] after [set], whatever the value. *)
Lemma mapCacheHas_set c k v k' :
  map_cache_valid nativeCreate c -> key_ok k -> key_ok k' ->
  mapCacheHas nativeCreate (mapCacheSet nativeCreate c k v) k' = eq k k' || mapCacheHas nativeCreate c k'.
Proof.
  intros (Hh & Hs & Hm) Hk Hk'.
  replace (eq k k' || mapCacheHas nativeCreate c k')
    with (if eq k k' then true else mapCacheHas nativeCreate c k') by (by destruct (eq k k')).
  unfold mapCacheSet, mapCacheHas.
  destruct (getMapData k) eqn:Ek, (getMapData k') eqn:Ek'; cbn [mc_hash mc_map mc_string];
    try (rewrite stores_disjoint; congruence).
  - rewrite hashHas_set by done. apply decide_property_key; congruence.
  - destruct (mc_map c) as [m|l]; cbn in Hm.
    + rewrite map_get_set. by destruct (eq k k').
    + destruct (listCacheSet_model l k v Hm) as [Hv' Hset].
      rewrite !listCacheHas_model, Hset by done. by destruct (eq k k').
  - rewrite hashHas_set by done. apply decide_property_key; congruence.
Qed.

Lemma mapCacheSet_valid c k v :
  map_cache_valid nativeCreate c -> map_cache_valid nativeCreate (mapCacheSet nativeCreate c k v).
Proof.
  intros (Hh & Hs & Hm). unfold mapCacheSet, map_cache_valid.
  destruct (getMapData k); cbn [mc_hash mc_map mc_string]; split_and!; try done;
    try by apply hashSet_valid.
  destruct (mc_map c); cbn in *; [by apply keys_of_set|by apply listCacheSet_model].
Qed.

Definition set_valid (c : SetCache) : Prop := map_cache_valid nativeCreate (set_data c).

Lemma setCacheAdd_valid c v : set_valid c -> set_valid (setCacheAdd nativeCreate c v).
Proof. apply mapCacheSet_valid. Qed.

Lemma setCacheHas_add c v w :
  set_valid c -> key_ok v -> key_ok w ->
  setCacheHas nativeCreate (setCacheAdd nativeCreate c v) w = eq v w || setCacheHas nativeCreate c w.
Proof. apply mapCacheHas_set. Qed.

Lemma new_SetCache_spec values :
  Forall key_ok values ->
  set_valid (new_SetCache nativeCreate nativeMap values) /\
  forall w, key_ok w ->
    setCacheHas nativeCreate (new_SetCache nativeCreate nativeMap values) w = existsb (fun v => eq v w) values.
Proof.
  intros Hvs. unfold new_SetCache.
  rewrite (loop_foldl (fun v this => setCacheAdd nativeCreate this v)) by done. cbn [ended].
  assert (Hgen : forall vs c, set_valid c -> Forall key_ok vs ->
    set_valid (foldl (fun a x => setCacheAdd nativeCreate a x) c vs) /\
    forall w, key_ok w -> setCacheHas nativeCreate (foldl (fun a x => setCacheAdd nativeCreate a x) c vs) w
      = existsb (fun v => eq v w) vs || setCacheHas nativeCreate c w).
  { induction vs as [|v vs IH]; intros c Hc Hok; [done|]. apply Forall_cons in Hok as [Hv Hok].
    cbn. destruct (IH (setCacheAdd nativeCreate c v)) as [HV HH]; [by apply setCacheAdd_valid|done|].
    split; [done|]. intros w Hw. rewrite HH, setCacheHas_add by done.
    by destruct (eq v w), (existsb _ vs). }
  destruct (mapCacheClear_model nativeCreate nativeMap) as [Hv0 Hm0].
  destruct (Hgen values {| set_data := mapCacheClear nativeMap |} Hv0 Hvs) as [HV HH].
  split; [done|]. intros w Hw. change (new_MapCache nativeCreate nativeMap []) with (mapCacheClear nativeMap).
  rewrite HH by done. unfold setCacheHas. cbn [set_data].
  by rewrite mapCacheHas_model, Hm0, orb_false_r by done.
Qed.

End set_cache.

(** ** Stack *)

Section stack.
Variables nativeCreate nativeMap : bool.

Definition stack_model (s : Stack) (k : value) : option value :=
  match s with StackList c => list_model c k | StackMap c => map_cache_model nativeCreate c k end.
Definition stack_valid (s : Stack) : Prop :=
  match s with
  | StackList c => list_valid c /\ Forall (fun '(k, v) => key_ok k /\ storable v) (list_data c)
  | StackMap c => map_cache_valid nativeCreate c
  end.

Lemma stackGet_model s k : stack_valid s -> stackGet nativeCreate s k = default Undefined (stack_model s k).
Proof.
  destruct s as [c|c]; cbn; intros Hs.
  - apply listCacheGet_model, Hs.
  - by apply mapCacheGet_model.
Qed.

Lemma new_MapCache_model pairs :
  NoDup (keys_of pairs) -> Forall (fun '(k, v) => key_ok k /\ storable v) pairs ->
  map_cache_valid nativeCreate (new_MapCache nativeCreate nativeMap pairs) /\
  forall k, key_ok k -> map_cache_model nativeCreate (new_MapCache nativeCreate nativeMap pairs) k = map_get pairs k.
Proof.
  intros Hd Hok. unfold new_MapCache.
  rewrite (loop_foldl (fun '(k, v) this => mapCacheSet nativeCreate this k v)) by by intros ? [].
  cbn [ended].
  assert (Hgen : forall ps c, map_cache_valid nativeCreate c ->
    NoDup (keys_of ps) -> Forall (fun '(k, v) => key_ok k /\ storable v) ps ->
    let c' := foldl (fun a '(k, v) => mapCacheSet nativeCreate a k v) c ps in
    map_cache_valid nativeCreate c' /\
    forall k, key_ok k -> map_cache_model nativeCreate c' k =
      match map_get ps k with Some v => Some v | None => map_cache_model nativeCreate c k end).
  { induction ps as [|[k v] ps IH]; intros c Hc Hd' Hps; [done|].
    apply Forall_cons in Hps as [[Hk Hv] Hps]. cbn in Hd'. apply NoDup_cons in Hd' as [Hn Hd'].
    destruct (mapCacheSet_model nativeCreate c k v Hc Hk Hv) as [Hc' Hset].
    cbn [foldl]. destruct (IH _ Hc' Hd' Hps) as [HV HM]. split; [done|].
    intros k' Hk'. rewrite HM by done. unfold map_get at 2. cbn [List.find fst].
    destruct (eq k k') eqn:E; [|rewrite Hset, E by done; done].
    assert (map_get ps k' = None) as ->; [|by rewrite Hset, E by done].
    apply map_get_None. intros k2 v2 Hin. destruct (eq k2 k') eqn:E2; [|done].
    exfalso. apply Hn. apply elem_of_keys. exists k2, v2. split; [done|].
    rewrite eq_norm, bool_decide_eq_true in E, E2. congruence. }
  destruct (mapCacheClear_model nativeCreate nativeMap) as [Hv0 Hm0].
  replace (foldl _ (mapCacheClear nativeMap) pairs)
    with (foldl (fun a '(k, v) => mapCacheSet nativeCreate a k v) (mapCacheClear nativeMap) pairs).
  2:{ clear. generalize (mapCacheClear nativeMap).
      induction pairs as [|[k v] ps IH]; intros c; [done|]. apply IH. }
  destruct (Hgen pairs (mapCacheClear nativeMap) Hv0 Hd Hok) as [HV HM]. split; [done|].
  intros k Hk. rewrite HM, Hm0 by done. by destruct (map_get pairs k).
Qed.

(** Setting a key that is not bound extends the map, also across the change of
    representation at 199 pairs. *)
Lemma stackSet_model s k v :
  stack_valid s -> key_ok k -> storable v -> stack_model s k = None ->
  stack_valid (stackSet nativeCreate nativeMap s k v) /\
  forall k', key_ok k' ->
    stack_model (stackSet nativeCreate nativeMap s k v) k' = if eq k k' then Some v else stack_model s k'.
Proof.
  intros Hs Hk Hv Hn. destruct s as [[l]|c]; cbn [stackSet stack_valid stack_model] in *.
  - unfold list_model, list_valid in *. cbn [list_data] in *. destruct Hs as [Hd Hok].
    destruct (negb nativeMap || _).
    + cbn [stack_valid stack_model]. unfold list_valid, list_model. cbn [list_data].
      split_and!.
      * by apply NoDup_keys_app.
      * apply Forall_app. split; [done|]. by apply Forall_singleton.
      * intros k' _. rewrite map_get_app. destruct (eq k k') eqn:E; [|by destruct (map_get l k')].
        by rewrite <- (map_get_cong l k k'), Hn.
    + destruct (new_MapCache_model l Hd Hok) as [HV HM].
      destruct (mapCacheSet_model nativeCreate _ k v HV Hk Hv) as [HV' HS]. split; [done|].
      intros k' Hk'. cbn [stack_model]. rewrite HS by done. by rewrite HM.
  - by apply mapCacheSet_model.
Qed.

Lemma stackDelete_model s k :
  stack_valid s -> key_ok k ->
  stack_valid (snd (stackDelete nativeCreate s k)) /\
  forall k', key_ok k' ->
    stack_model (snd (stackDelete nativeCreate s k)) k' = if eq k k' then None else stack_model s k'.
Proof.
  intros Hs Hk. destruct s as [c|c]; cbn [stackDelete stack_valid stack_model] in *.
  - destruct Hs as [Hv Hok]. destruct (listCacheDelete_model c k Hv) as (Hv' & _ & Hd).
    assert (Hsub : forall p, p ∈ list_data (snd (listCacheDelete c k)) -> p ∈ list_data c).
    { intros p. unfold listCacheDelete. destruct (_ <? 0); [done|]. cbn.
      destruct (_ =? _); [rewrite removelast_delete|unfold splice1; rewrite <- delete_take_drop];
        (intros Hp; eapply elem_of_sublist; [exact Hp|apply sublist_delete]). }
    destruct (listCacheDelete c k) as [b c']. cbn [snd] in *. cbn. split_and!; [done| |auto].
    rewrite Forall_forall in *. intros p Hp. by apply Hok, Hsub.
  - destruct (mapCacheDelete_model nativeCreate c k Hs Hk) as (Hv' & _ & Hd).
    destruct (mapCacheDelete nativeCreate c k). cbn [snd] in *. auto.
Qed.

End stack.
