(* ===== verification/LodashSets.v ===== *)
(** * lodash.js: arrays as sets

    [difference], [intersection], [union], [uniq], [xor] and [without] of
    [immer/extra/js/lib/lodash.js], with their By and With forms.  For large arrays
    the code swaps the linear search for a [SetCache] or a native [Set]; the
    theorems show that the result does not depend on it. *)

From S2P Require Import Prelude Js LodashLang LodashArrays LodashCaches.
From Stdlib Require Import SpecFloat.

(** A native [Set]: distinct values in insertion order. *)
Definition set_add (s : list value) (v : value) : list value :=
  if existsb (fun x => eq x v) s then s else s ++ [norm v].
Definition new_Set (values : list value) : list value := foldl set_add [] values.

Section sets.
Context {S : Type}.
(** The engine: native [Object.create], [Map], and a [Set] that keeps -0 as 0. *)
Variables nativeCreate nativeMap nativeSet : bool.

Definition iteratee_fn : Type := value -> eff S value.
Definition comparator_fn : Type := value -> value -> eff S value.

(** [value = (comparator || value !== 0) ? value : 0]. *)
Definition keep_zero (comparator : bool) (v : value) : value :=
  if comparator || negb (strict_eq v (Number (num 0))) then v else Number (num 0).

(** [iteratee ? iteratee(value) : value]. *)
Definition computed_of (iteratee : option iteratee_fn) (v : value) : eff S value :=
  match iteratee with Some f => f v | None => mret v end.

Definition is_some {A} (o : option A) : bool := match o with Some _ => true | None => false end.

Definition baseDifference (array values : list value) (iteratee : option iteratee_fn)
    (comparator : option comparator_fn) : eff S (list value) :=
  if len array =? 0 then mret [] else
  values ← match iteratee with
           | Some f => arrayMap values (fun v _ _ => baseUnary f v)
           | None => mret values
           end;
  let '(includes, isCommon) :=
    match comparator with
    | Some c => (fun v => arrayIncludesWith values v c, false)
    | None =>
        if LARGE_ARRAY_SIZE <=? len values then
          let cache := new_SetCache nativeCreate nativeMap values in
          (fun v => mret (cacheHas nativeCreate cache v), false)
        else (fun v => mret (arrayIncludes values v), true)
    end in
  r ← eloop (R := list value) (fun _ v result =>
    computed ← computed_of iteratee v;
    let v := keep_zero (is_some comparator) v in
    if isCommon && strict_eq computed computed then
      let found := returned false (loop_right (Acc := unit) (fun _ x _ =>
        if strict_eq x computed then inr true else inl tt) 0 values tt) in
      mret (inl (if found then result else result ++ [v]))
    else
      b ← includes computed;
      mret (inl (if negb b then result ++ [v] else result))) 0 array [];
  mret (ended r).

Definition createSet (values : list value) : option (list value) :=
  if nativeSet then Some (new_Set values) else None.

(** What [baseUniq] has seen: the results themselves, a list of computed values or a
    cache. *)
Inductive seen :=
| SeenResult
| SeenList (l : list value)
| SeenCache (c : SetCache).

Definition seen_push (s : seen) (computed : value) : seen :=
  match s with
  | SeenResult => SeenResult
  | SeenList l => SeenList (l ++ [computed])
  | SeenCache c => SeenCache (setCacheAdd nativeCreate c computed)
  end.

(** One turn of its loop. *)
Definition uniq_body (isCommon : bool) (iteratee : option iteratee_fn) (comparator : option comparator_fn)
    (_ : Z) (v : value) (acc : list value * seen) : eff S (list value * seen + list value * seen) :=
  let '(result, s) := acc in
  computed ← computed_of iteratee v;
  let v := keep_zero (is_some comparator) v in
  let seen_values := match s with SeenList l => l | _ => result end in
  if isCommon && strict_eq computed computed then
    let found := returned false (loop_right (Acc := unit) (fun _ x _ =>
      if strict_eq x computed then inr true else inl tt) 0 seen_values tt) in
    mret (inl (if found then (result, s)
               else (result ++ [v], if is_some iteratee then seen_push s computed else s)))
  else
    b ← match comparator, s with
        | Some c, _ => arrayIncludesWith seen_values computed c
        | None, SeenCache c => mret (cacheHas nativeCreate c computed)
        | None, _ => mret (arrayIncludes seen_values computed)
        end;
    mret (inl (if b : bool then (result, s) else (result ++ [v], seen_push s computed))).

Definition baseUniq (array : list value) (iteratee : option iteratee_fn)
    (comparator : option comparator_fn) : eff S (list value) :=
  let set :=
    match comparator with
    | Some _ => None
    | None => if LARGE_ARRAY_SIZE <=? len array then
                (match iteratee with Some _ => None | None => createSet array end)
              else None
    end in
  match set with
  | Some set => mret (setToArray set)
  | None =>
    let '(isCommon, s0) :=
      match comparator with
      | Some _ => (false, SeenResult)
      | None =>
          if LARGE_ARRAY_SIZE <=? len array then (false, SeenCache (new_SetCache nativeCreate nativeMap []))
          else (true, match iteratee with Some _ => SeenList [] | None => SeenResult end)
      end in
    r ← eloop (R := list value * seen) (uniq_body isCommon iteratee comparator)
      0 array ([], s0);
    mret (fst (ended r))
  end.

(** The other arrays of an intersection, each with its cache when it has one. *)
Definition other_arrays (length : Z) (iteratee : option iteratee_fn) (comparator : option comparator_fn)
    (others : list (list value)) : eff S (list (list value * option SetCache) * option Z) :=
  r ← eloop_right (R := list (list value * option SetCache) * option Z)
    (fun _ array '(caches, maxLength) =>
      mapped ← match iteratee with
               | Some f => arrayMap array (fun v _ _ => baseUnary f v)
               | None => mret array
               end;
      let maxLength := match maxLength with Some m => Z.min (len mapped) m | None => len mapped end in
      let cache :=
        if negb (is_some comparator) && (is_some iteratee || ((120 <=? length) && (120 <=? len mapped)))
        then Some (new_SetCache nativeCreate nativeMap mapped) else None in
      mret (inl ((array, cache) :: caches, Some maxLength))) 0 others ([], None);
  mret (ended r).

(** [cache ? cacheHas(cache, computed) : includes(values, computed, comparator)]. *)
Definition has_computed (comparator : option comparator_fn) (cache : option SetCache)
    (values : list value) (computed : value) : eff S bool :=
  match cache, comparator with
  | Some cache, _ => mret (cacheHas nativeCreate cache computed)
  | None, Some c => arrayIncludesWith values computed c
  | None, None => mret (arrayIncludes values computed)
  end.

(** One turn of the loop of [baseIntersection]. *)
Definition intersection_body (maxLength : Z) (iteratee : option iteratee_fn)
    (comparator : option comparator_fn) (caches : list (list value * option SetCache))
    (_ : Z) (v : value) (acc : list value * option SetCache) :
    eff S (list value * option SetCache + list value * option SetCache) :=
  let '(result, seen) := acc in
  if len result <? maxLength then
    computed ← computed_of iteratee v;
    let v := keep_zero (is_some comparator) v in
    dup ← has_computed comparator seen result computed;
    if dup : bool then mret (inl (result, seen)) else
    missing ← eloop_right (Acc := unit) (fun _ '(other, cache) _ =>
      b ← has_computed comparator cache other computed;
      mret (if negb b then inr true else inl tt)) 0 caches tt;
    mret (inl (if returned false missing then (result, seen)
               else (result ++ [v], (fun c => setCacheAdd nativeCreate c computed) <$> seen)))
  else mret (inr (result, seen)).

Definition baseIntersection (arrays : list (list value)) (iteratee : option iteratee_fn)
    (comparator : option comparator_fn) : eff S (list value) :=
  match arrays with
  | [] => throw TypeError   (* [arrays[0].length] of undefined *)
  | array :: others =>
    let length := len array in
    '(caches, maxLength) ← other_arrays length iteratee comparator others;
    let maxLength := match maxLength with Some m => Z.min length m | None => length end in
    let seen0 :=
      if negb (is_some comparator) && (is_some iteratee || ((120 <=? length) && (120 <=? length)))
      then Some (new_SetCache nativeCreate nativeMap []) else None in
    r ← eloop (R := list value * option SetCache)
          (intersection_body maxLength iteratee comparator caches) 0 array ([], seen0);
    mret (fst (ended r))
  end.

Definition baseXor (arrays : list (list value)) (iteratee : option iteratee_fn)
    (comparator : option comparator_fn) : eff S (list value) :=
  r ← eloop (R := option (list value)) (fun _ array result =>
    match result with
    | Some result =>
        a ← baseDifference result array iteratee comparator;
        b ← baseDifference array result iteratee comparator;
        mret (inl (Some (arrayPush a b)))
    | None => mret (inl (Some array))
    end) 0 arrays None;
  match ended r with
  | Some (v :: result) => baseUniq (v :: result) iteratee comparator
  | _ => mret []
  end.

(** ** The public functions

    An argument is an array-like object or some other value.  [getIteratee] is what
    the function of that name resolves a value to, [call2] the call of a function
    value with two arguments. *)

Inductive arg :=
| ArgArray (l : list value)
| ArgOther (v : value).

Variable getIteratee : value -> iteratee_fn.
Variable call2 : value -> comparator_fn.

(** [last(args)], unless it is an array-like object. *)
Definition last_function (args : list arg) : value :=
  match last args with Some (ArgOther v) => v | _ => Undefined end.

Definition comparator_of (v : value) : option comparator_fn :=
  if truthy v then Some (call2 v) else None.

(** [baseFlatten(args, 1, isArrayLikeObject, true)]. *)
Definition flatten_args (args : list arg) : list value :=
  ended (loop (R := list value) (fun _ a result =>
    inl (match a with ArgArray l => arrayPush result l | ArgOther _ => result end)) 0 args []).

Definition castArrayLikeObject (a : arg) : list value :=
  match a with ArgArray l => l | ArgOther _ => [] end.

(** [arrayFilter(args, isArrayLikeObject)]. *)
Definition array_args (args : list arg) : list (list value) :=
  ended (loop (R := list (list value)) (fun _ a result =>
    inl (match a with ArgArray l => result ++ [l] | ArgOther _ => result end)) 0 args []).

Definition difference (array : arg) (values : list arg) : eff S (list value) :=
  match array with
  | ArgArray array => baseDifference array (flatten_args values) None None
  | ArgOther _ => mret []
  end.

Definition differenceBy (array : arg) (values : list arg) : eff S (list value) :=
  let iteratee := last_function values in
  match array with
  | ArgArray array => baseDifference array (flatten_args values) (Some (getIteratee iteratee)) None
  | ArgOther _ => mret []
  end.

Definition differenceWith (array : arg) (values : list arg) : eff S (list value) :=
  let comparator := last_function values in
  match array with
  | ArgArray array => baseDifference array (flatten_args values) None (comparator_of comparator)
  | ArgOther _ => mret []
  end.

Definition without (array : arg) (values : list value) : eff S (list value) :=
  match array with
  | ArgArray array => baseDifference array values None None
  | ArgOther _ => mret []
  end.

(** [(mapped.length && mapped[0] === arrays[0]) ? ... : []]. *)
Definition intersect_if (arrays mapped : list arg) (iteratee : option iteratee_fn)
    (comparator : option comparator_fn) : eff S (list value) :=
  match mapped, arrays with
  | _ :: _, ArgArray _ :: _ => baseIntersection (List.map castArrayLikeObject mapped) iteratee comparator
  | _, _ => mret []
  end.

Definition intersection (arrays : list arg) : eff S (list value) := intersect_if arrays arrays None None.

(** The last argument is dropped from the arrays when it is not one itself. *)
Definition drop_function (arrays : list arg) : value * list arg :=
  match last arrays with
  | Some (ArgOther v) => (v, removelast arrays)
  | _ => (Undefined, arrays)
  end.

Definition intersectionBy (arrays : list arg) : eff S (list value) :=
  let '(iteratee, mapped) := drop_function arrays in
  intersect_if arrays mapped (Some (getIteratee iteratee)) None.

Definition intersectionWith (arrays : list arg) : eff S (list value) :=
  let '(comparator, mapped) := drop_function arrays in
  intersect_if arrays mapped None (comparator_of comparator).

Definition union (arrays : list arg) : eff S (list value) := baseUniq (flatten_args arrays) None None.
Definition unionBy (arrays : list arg) : eff S (list value) :=
  baseUniq (flatten_args arrays) (Some (getIteratee (last_function arrays))) None.
Definition unionWith (arrays : list arg) : eff S (list value) :=
  baseUniq (flatten_args arrays) None (comparator_of (last_function arrays)).

(** A nullish array is [None]. *)
Definition uniq (array : option (list value)) : eff S (list value) :=
  match array with Some (v :: l) => baseUniq (v :: l) None None | _ => mret [] end.
Definition uniqBy (array : option (list value)) (iteratee : value) : eff S (list value) :=
  match array with Some (v :: l) => baseUniq (v :: l) (Some (getIteratee iteratee)) None | _ => mret [] end.
Definition uniqWith (array : option (list value)) (comparator : value) : eff S (list value) :=
  match array with Some (v :: l) => baseUniq (v :: l) None (comparator_of comparator) | _ => mret [] end.

Definition xor (arrays : list arg) : eff S (list value) := baseXor (array_args arrays) None None.
Definition xorBy (arrays : list arg) : eff S (list value) :=
  baseXor (array_args arrays) (Some (getIteratee (last_function arrays))) None.
Definition xorWith (arrays : list arg) : eff S (list value) :=
  baseXor (array_args arrays) None (comparator_of (last_function arrays)).

End sets.

(** ** Reference definitions *)

(** Is the key already there? *)
Definition mem (k : value) (l : list value) : bool := existsb (fun x => eq x k) l.

(** The elements whose key is not a key of [values]. *)
Definition difference_ref (f : value -> value) (array values : list value) : list value :=
  List.map norm (List.filter (fun v => negb (mem (f v) (List.map f values))) array).

(** The first element of each key. *)
Fixpoint uniq_ref (f : value -> value) (keys : list value) (array : list value) : list value :=
  match array with
  | [] => []
  | v :: array => if mem (f v) keys then uniq_ref f keys array
                  else norm v :: uniq_ref f (f v :: keys) array
  end.

(** ** Correctness *)

Lemma mem_cong k k' l : eq k k' = true -> mem k l = mem k' l.
Proof.
  intros Hk. unfold mem. induction l as [|x l IH]; [done|]. cbn.
  by rewrite IH, (eq_sym x k), (eq_sym x k'), (eq_cong k k').
Qed.

Lemma mem_app k l l' : mem k (l ++ l') = mem k l || mem k l'.
Proof. apply existsb_app. Qed.

Lemma mem_strict (l : list value) k :
  strict_eq k k = true ->
  returned false (loop_right (Acc := unit) (fun _ x _ => if strict_eq x k then inr true else inl tt) 0 l tt)
  = mem k l.
Proof.
  intros Hk. rewrite loop_right_exists. unfold mem. induction l as [|x l IH]; [done|].
  cbn. by rewrite IH, (eq_sym x k), eq_strict, strict_eq_sym.
Qed.

Lemma keep_zero_norm v : keep_zero false v = norm v.
Proof.
  unfold keep_zero. destruct (strict_eq v (Number (num 0))) eqn:E; cbn [orb negb].
  - apply strict_eq_norm in E as [E _]. symmetry. exact E.
  - destruct v as [| | |[]| | |]; try done.
Qed.

Lemma collect_norm (p : value -> bool) l acc :
  foldl (fun a x => if p x then a else a ++ [norm x]) acc l
  = acc ++ List.map norm (List.filter (fun x => negb (p x)) l).
Proof.
  revert acc. induction l as [|x l IH]; intros acc; cbn; [by rewrite app_nil_r|].
  rewrite IH. destruct (p x); cbn; [done|]. by rewrite <- app_assoc.
Qed.

Section correctness.
Context {S : Type}.
Variables nativeCreate nativeMap nativeSet : bool.
Variable f : value -> value.
Variable iteratee : option (iteratee_fn (S := S)).

(** The iteratee, when there is one, is the function [f]. *)
Definition computes : Prop :=
  match iteratee with Some g => forall v, g v ≈ mret (f v) | None => forall v, f v = v end.
Hypothesis Hf : computes.

Lemma computed_of_pure v : computed_of iteratee v ≈ mret (f v).
Proof. unfold computes in Hf. unfold computed_of. destruct iteratee; [done|]. by rewrite Hf. Qed.

Lemma map_keys_pure (values : list value) :
  match iteratee with Some g => arrayMap values (fun v _ _ => baseUnary g v) | None => mret values end
  ≈ mret (List.map f values).
Proof.
  unfold computes in Hf. destruct iteratee as [g|].
  - apply arrayMap_pure. intros v _ _. apply Hf.
  - rewrite <- (map_id values) at 1. by rewrite (map_ext f (fun v => v)).
Qed.

Lemma baseDifference_pure array values :
  Forall key_ok (List.map f array) -> Forall key_ok (List.map f values) ->
  baseDifference nativeCreate nativeMap array values iteratee None ≈ mret (difference_ref f array values).
Proof.
  intros Ha Hv. unfold baseDifference. destruct array as [|a array]; [done|].
  change (len (a :: array) =? 0) with false. cbv iota. revert Ha. generalize (a :: array) as l.
  intros l Ha. erewrite eff_bind_pure by apply map_keys_pure. set (vs := List.map f values) in *.
  rewrite Forall_map, Forall_forall in Ha.
  assert (Hloop : forall body : Z -> value -> list value -> eff S (list value + list value),
    (forall i x result, x ∈ l -> body i x result ≈
      mret (inl (if mem (f x) vs then result else result ++ [norm x]))) ->
    (r ← eloop (R := list value) body 0 l []; mret (ended r)) ≈ mret (difference_ref f l values)).
  { intros body Hb. erewrite eff_bind_pure by (by apply (eloop_pure_in (fun _ x result =>
      inl (if mem (f x) vs then result else result ++ [norm x])))).
    rewrite (loop_foldl (fun x result => if mem (f x) vs then result else result ++ [norm x])) by done.
    cbn [ended]. by rewrite (collect_norm (fun x => mem (f x) vs)). }
  destruct (LARGE_ARRAY_SIZE <=? len vs); apply Hloop; intros i x result Hx;
    erewrite eff_bind_pure by apply computed_of_pure; rewrite keep_zero_norm; cbn [andb is_some].
  - destruct (new_SetCache_spec nativeCreate nativeMap vs Hv) as [_ Hc].
    unfold cacheHas. rewrite Hc by auto. fold (mem (f x) vs). by destruct (mem (f x) vs).
  - destruct (strict_eq (f x) (f x)) eqn:E; cbv iota.
    + by rewrite mem_strict.
    + rewrite arrayIncludes_spec. fold (mem (f x) vs). by destruct (mem (f x) vs).
Qed.

(** What has been seen stands for a list of keys. *)
Definition seen_keys (isCommon : bool) (result : list value) (s : seen) (keys : list value) : Prop :=
  isCommon = (match s with SeenCache _ => false | _ => true end) /\
  match s with
  | SeenResult => iteratee = None /\ forall k, mem k result = mem k keys
  | SeenList l => is_some iteratee = true /\ forall k, mem k l = mem k keys
  | SeenCache c => set_valid nativeCreate c /\
                   forall k, key_ok k -> setCacheHas nativeCreate c k = mem k keys
  end.

Lemma mem_cons k x l : mem k (x :: l) = eq x k || mem k l.
Proof. done. Qed.

Lemma mem_snoc k x l : mem k (l ++ [x]) = eq x k || mem k l.
Proof. rewrite mem_app, mem_cons, orb_false_r. apply orb_comm. Qed.

Lemma seen_keys_push isCommon result s keys v :
  key_ok (f v) -> seen_keys isCommon result s keys ->
  seen_keys isCommon (result ++ [norm v]) (seen_push nativeCreate s (f v)) (f v :: keys).
Proof.
  intros Hv. unfold seen_keys. destruct s as [|l|c]; cbn [seen_push]; intros [-> Hs]; (split; [done|]).
  - destruct Hs as [Hi Hk]. split; [done|]. intros k. unfold computes in Hf. rewrite Hi in Hf.
    by rewrite mem_snoc, mem_cons, Hk, eq_norm_l, Hf.
  - destruct Hs as [Hi Hk]. split; [done|]. intros k. by rewrite mem_snoc, mem_cons, Hk.
  - destruct Hs as [Hc Hk]. split; [by apply setCacheAdd_valid|]. intros k Hok.
    by rewrite setCacheHas_add, Hk.
Qed.

Lemma uniq_body_pure isCommon i x result s keys :
  key_ok (f x) -> seen_keys isCommon result s keys ->
  uniq_body nativeCreate isCommon iteratee None i x (result, s)
  ≈ mret (inl (if mem (f x) keys then (result, s)
               else (result ++ [norm x], seen_push nativeCreate s (f x)))).
Proof.
  intros Hx [-> Hs]. unfold uniq_body. erewrite eff_bind_pure by apply computed_of_pure.
  change (is_some None) with false. rewrite keep_zero_norm. cbv zeta.
  destruct s as [|l|c]; cbn [andb].
  - destruct Hs as [Hi Hk]. destruct (strict_eq (f x) (f x)) eqn:E.
    + by rewrite mem_strict, Hk, Hi by done.
    + rewrite arrayIncludes_spec. fold (mem (f x) result). rewrite Hk. by destruct (mem (f x) keys).
  - destruct Hs as [Hi Hk]. destruct (strict_eq (f x) (f x)) eqn:E.
    + by rewrite mem_strict, Hk, Hi by done.
    + rewrite arrayIncludes_spec. fold (mem (f x) l). rewrite Hk. by destruct (mem (f x) keys).
  - destruct Hs as [Hc Hk]. unfold cacheHas. rewrite Hk by done. by destruct (mem (f x) keys).
Qed.

Lemma cache_empty : seen_keys false [] (SeenCache (new_SetCache nativeCreate nativeMap [])) [].
Proof.
  split; [done|]. destruct (new_SetCache_spec nativeCreate nativeMap []) as [Hv Hh]; auto.
Qed.

(** The loop of [baseUniq], for any body that keeps track of what has been seen. *)
Lemma uniq_loop isCommon (body : Z -> value -> list value * seen -> eff S ((list value * seen) + (list value * seen))) l :
  (forall i x result s keys, x ∈ l -> seen_keys isCommon result s keys ->
     body i x (result, s) ≈ mret (inl (if mem (f x) keys then (result, s)
       else (result ++ [norm x], seen_push nativeCreate s (f x))))) ->
  (forall x, x ∈ l -> key_ok (f x)) ->
  forall i result s keys, seen_keys isCommon result s keys ->
  exists s', eloop body i l (result, s) ≈ mret (inl (result ++ uniq_ref f keys l, s')).
Proof.
  intros Hb Hok. induction l as [|x l IH]; intros i result s keys Hs.
  - exists s. cbn. by rewrite app_nil_r.
  - assert (Hx : x ∈ x :: l) by left.
    destruct (mem (f x) keys) eqn:E.
    + destruct IH with (i := i + 1) (result := result) (s := s) (keys := keys) as [s' Hs'];
        [intros; apply Hb; [by right|done]|intros; apply Hok; by right|done|].
      exists s'. cbn. rewrite E. erewrite eff_bind_pure by by apply Hb. by rewrite E.
    + destruct IH with (i := i + 1) (result := result ++ [norm x])
        (s := seen_push nativeCreate s (f x)) (keys := f x :: keys) as [s' Hs'];
        [intros; apply Hb; [by right|done]|intros; apply Hok; by right|
         apply seen_keys_push; auto|].
      exists s'. cbn. rewrite E. erewrite eff_bind_pure by by apply Hb. rewrite E.
      rewrite Hs'. by rewrite <- app_assoc.
Qed.

Lemma uniq_ref_ext keys keys' l :
  (forall k, mem k keys = mem k keys') -> uniq_ref f keys l = uniq_ref f keys' l.
Proof.
  revert keys keys'. induction l as [|x l IH]; intros keys keys' Hk; [done|]. cbn.
  rewrite Hk. destruct (mem (f x) keys'); [by apply IH|]. f_equal. apply IH.
  intros k. by rewrite !mem_cons, Hk.
Qed.

Lemma new_Set_uniq l : (forall v, f v = v) -> new_Set l = uniq_ref f [] l.
Proof.
  intros Hid. unfold new_Set. change (uniq_ref f [] l) with ([] ++ uniq_ref f [] l).
  generalize (@nil value) as s. induction l as [|x l IH]; intros s; cbn; [by rewrite app_nil_r|].
  rewrite IH. unfold set_add. rewrite Hid. fold (mem x s). destruct (mem x s) eqn:E; [done|].
  rewrite <- app_assoc. cbn. do 2 f_equal. apply uniq_ref_ext. intros k.
  by rewrite mem_snoc, mem_cons, eq_norm_l.
Qed.

Lemma baseUniq_pure array :
  Forall key_ok (List.map f array) ->
  baseUniq nativeCreate nativeMap nativeSet array iteratee None ≈ mret (uniq_ref f [] array).
Proof.
  intros Ha. rewrite Forall_map, Forall_forall in Ha. unfold baseUniq.
  assert (Hfin : forall isCommon s0, seen_keys isCommon [] s0 [] ->
    (r ← eloop (R := list value * seen) (uniq_body nativeCreate isCommon iteratee None) 0 array ([], s0);
     mret (fst (ended r))) ≈ mret (uniq_ref f [] array)).
  { intros isCommon s0 Hs0.
    destruct (uniq_loop isCommon (uniq_body nativeCreate isCommon iteratee None) array) with
      (i := 0) (result := @nil value) (s := s0) (keys := @nil value) as [s' Hs'];
      [intros; apply uniq_body_pure; auto|done|done|].
    by erewrite eff_bind_pure by apply Hs'. }
  destruct (LARGE_ARRAY_SIZE <=? len array).
  - destruct iteratee as [g|] eqn:Hi; [|destruct nativeSet eqn:Hset; cbn [createSet]].
    + apply Hfin. apply cache_empty.
    + unfold createSet. rewrite setToArray_id, new_Set_uniq; [done|]. unfold computes in Hf. by rewrite Hi in Hf.
    + apply Hfin. apply cache_empty.
  - apply Hfin. unfold seen_keys. by destruct iteratee.
Qed.

(** ** Intersection *)

Definition in_all (others : list (list value)) (v : value) : bool :=
  forallb (fun o => mem (f v) (List.map f o)) others.
Definition intersection_ref (array : list value) (others : list (list value)) : list value :=
  uniq_ref f [] (List.filter (in_all others) array).

(** A cache, or its absence, stands for the keys of an array. *)
Definition cache_for (o : list value) (e : list value * option SetCache) : Prop :=
  fst e = o /\
  match snd e with
  | Some c => forall k, key_ok k -> setCacheHas nativeCreate c k = mem k (List.map f o)
  | None => iteratee = None
  end.

Lemma map_no_iteratee l : iteratee = None -> List.map f l = l.
Proof.
  intros Hi. unfold computes in Hf. rewrite Hi in Hf. rewrite <- (map_id l) at 2. by apply map_ext.
Qed.

Lemma has_computed_pure o e k :
  cache_for o e -> key_ok k ->
  has_computed (S := S) nativeCreate None (snd e) (fst e) k ≈ mret (mem k (List.map f o)).
Proof.
  destruct e as [a [c|]]; intros [<- Hc] Hk; cbn [fst snd] in *; unfold has_computed, cacheHas.
  - by rewrite Hc.
  - by rewrite arrayIncludes_spec, map_no_iteratee.
Qed.

Definition min_length (others : list (list value)) : option Z :=
  foldr (fun o m => Some (match m with Some m => Z.min (len o) m | None => len o end)) None others.

Lemma other_arrays_pure length others :
  Forall (fun o => Forall key_ok (List.map f o)) others ->
  exists caches, other_arrays nativeCreate nativeMap length iteratee None others
    ≈ mret (caches, min_length others) /\ Forall2 cache_for others caches.
Proof.
  intros Hok. unfold other_arrays.
  set (body := fun (_ : Z) array '(caches, maxLength) => _).
  enough (Hgen : forall i, exists caches, eloop_right body i others ([], None)
    ≈ mret (inl (caches, min_length others)) /\ Forall2 cache_for others caches).
  { destruct (Hgen 0) as (caches & He & Hc). exists caches. split; [|done].
    by erewrite eff_bind_pure by apply He. }
  induction Hok as [|o others Ho _ IH]; intros i; [by exists []|].
  destruct (IH (i + 1)) as (caches & He & Hc).
  set (cache := if negb (is_some (@None (comparator_fn (S := S)))) &&
     (is_some iteratee || ((120 <=? length) && (120 <=? len o)))
     then Some (new_SetCache nativeCreate nativeMap (List.map f o)) else None).
  exists ((o, cache) :: caches). split.
  - cbn [eloop_right]. erewrite eff_bind_pure by apply He. unfold body at 1.
    erewrite eff_bind_pure by apply map_keys_pure. rewrite length_map. done.
  - constructor; [|done]. split; [done|]. unfold cache. cbn [is_some negb andb snd].
    destruct (is_some iteratee || _) eqn:E.
    + by apply new_SetCache_spec.
    + by destruct iteratee.
Qed.

Lemma caches_forall others caches :
  Forall2 cache_for others caches -> Forall (fun e => cache_for (fst e) e) caches /\ List.map fst caches = others.
Proof.
  induction 1 as [|o e others caches [<- He] _ [IH1 IH2]]; [done|].
  split; [constructor; [by split|done]|cbn; by rewrite IH2].
Qed.

(** The keys of the results, and what [seen] knows of them. *)
Definition inter_keys (arrays : list (list value)) (result : list value) (seen : option SetCache)
    (keys : list value) : Prop :=
  length result = length keys /\ NoDup (List.map norm keys) /\
  (forall k o, k ∈ keys -> o ∈ arrays -> mem k (List.map f o) = true) /\
  match seen with
  | Some c => set_valid nativeCreate c /\
              forall k, key_ok k -> setCacheHas nativeCreate c k = mem k keys
  | None => iteratee = None /\ forall k, mem k result = mem k keys
  end.

Lemma mem_norm k l : mem k l = true <-> norm k ∈ List.map norm l.
Proof.
  unfold mem. rewrite existsb_exists, list_elem_of_In, in_map_iff. split.
  - intros (x & Hx & Hk). exists x. rewrite eq_norm, bool_decide_eq_true in Hk. done.
  - intros (x & Hx & Hk). exists x. rewrite eq_norm, bool_decide_eq_true. done.
Qed.

(** Once there are as many results as elements in one of the arrays, every common
    element has been found. *)
Lemma keys_exhausted keys o k :
  NoDup (List.map norm keys) -> (forall k, k ∈ keys -> mem k o = true) ->
  (length o <= length keys)%nat -> mem k o = true -> mem k keys = true.
Proof.
  intros Hd Hin Hlen Hk. apply mem_norm. apply mem_norm in Hk.
  assert (Hsub : List.map norm keys ⊆+ List.map norm o).
  { apply NoDup_submseteq; [done|]. intros x Hx.
    apply list_elem_of_In, in_map_iff in Hx as (k' & <- & Hk'). apply mem_norm, Hin.
    by apply list_elem_of_In. }
  apply submseteq_length_Permutation in Hsub; [by rewrite Hsub|]. by rewrite !length_map.
Qed.

Lemma uniq_ref_all keys l : (forall v, v ∈ l -> mem (f v) keys = true) -> uniq_ref f keys l = [].
Proof.
  induction l as [|x l IH]; intros Hl; [done|]. cbn. rewrite Hl by left.
  apply IH. intros v Hv. apply Hl. by right.
Qed.

Lemma min_length_some array others n :
  (match min_length others with Some m => Z.min (len array) m | None => len array end) <= n ->
  exists o, o ∈ array :: others /\ len o <= n.
Proof.
  assert (Hm : forall m, min_length others = Some m -> exists o, o ∈ others /\ len o = m).
  { induction others as [|o others IH]; [done|]. intros m. change (min_length (o :: others))
      with (Some (match min_length others with Some m => Z.min (len o) m | None => len o end)).
    destruct (min_length others) as [m'|]; intros [= <-]; [|exists o; split; [left|done]].
    destruct (Z.le_ge_cases (len o) m'); [exists o; split; [left|lia]|].
    destruct (IH m' eq_refl) as (o' & Ho' & <-). exists o'. split; [by right|lia]. }
  intros Hn. destruct (min_length others) as [m|]; [|exists array; split; [left|lia]].
  destruct (Hm m eq_refl) as (o & Ho & <-).
  destruct (Z.le_ge_cases (len array) (len o)); [exists array; split; [left|lia]|].
  exists o. split; [by right|lia].
Qed.

Lemma inter_keys_push arrays result seen keys x :
  key_ok (f x) -> mem (f x) keys = false ->
  (forall o, o ∈ arrays -> mem (f x) (List.map f o) = true) ->
  inter_keys arrays result seen keys ->
  inter_keys arrays (result ++ [norm x]) ((fun c => setCacheAdd nativeCreate c (f x)) <$> seen) (f x :: keys).
Proof.
  intros Hx Hm Ha (Hlen & Hd & Hin & Hs). split_and!.
  - rewrite length_app, Hlen. cbn. lia.
  - cbn. apply NoDup_cons. split; [|done]. intros Hn. apply mem_norm in Hn. congruence.
  - intros k o [->|Hk]%elem_of_cons Ho; auto.
  - destruct seen as [c|]; cbn.
    + destruct Hs as [Hc Hk]. split; [by apply setCacheAdd_valid|]. intros k Hok.
      by rewrite setCacheHas_add, Hk.
    + destruct Hs as [Hi Hk]. split; [done|]. intros k. unfold computes in Hf. rewrite Hi in Hf.
      by rewrite mem_snoc, Hk, eq_norm_l, Hf.
Qed.

Lemma intersection_body_pure maxLength caches others i x result seen keys arrays :
  Forall2 cache_for others caches -> key_ok (f x) -> inter_keys arrays result seen keys ->
  intersection_body nativeCreate maxLength iteratee None caches i x (result, seen)
  ≈ mret (if len result <? maxLength then
            inl (if mem (f x) keys || negb (in_all others x) then (result, seen)
                 else (result ++ [norm x], (fun c => setCacheAdd nativeCreate c (f x)) <$> seen))
          else inr (result, seen)).
Proof.
  intros Hc Hx (_ & _ & _ & Hs). unfold intersection_body.
  destruct (len result <? maxLength); [|done].
  erewrite eff_bind_pure by apply computed_of_pure. change (is_some None) with false.
  rewrite keep_zero_norm. cbv zeta.
  erewrite (eff_bind_pure _ (mem (f x) keys)).
  2:{ unfold has_computed, cacheHas. destruct seen as [c|], Hs as [? Hk].
      - by rewrite Hk.
      - rewrite arrayIncludes_spec. fold (mem (f x) result). by rewrite Hk. }
  destruct (mem (f x) keys); [done|]. cbn [orb].
  apply caches_forall in Hc as [Hc <-]. rewrite Forall_forall in Hc.
  erewrite eff_bind_pure.
  2:{ apply (eloop_right_pure_in (fun _ e _ =>
        if negb (mem (f x) (List.map f (fst e))) then inr true else inl tt)).
      intros j [o c] u He. specialize (Hc _ He). cbn [fst] in *.
      by erewrite eff_bind_pure by by apply (has_computed_pure o (o, c)). }
  rewrite (loop_right_exists (fun e => negb (mem (f x) (List.map f (fst e))))).
  replace (existsb _ caches) with (negb (in_all (List.map fst caches) x)); [done|].
  clear. unfold in_all. induction caches as [|e caches IH]; [done|]. cbn. rewrite <- IH.
  by destruct (mem _ _).
Qed.

Lemma intersection_loop array others caches i l result seen keys :
  let maxLength := match min_length others with Some m => Z.min (len array) m | None => len array end in
  Forall2 cache_for others caches -> (forall x, x ∈ l -> x ∈ array) ->
  (forall x, x ∈ array -> key_ok (f x)) -> inter_keys (array :: others) result seen keys ->
  exists r, eloop (intersection_body nativeCreate maxLength iteratee None caches) i l (result, seen) ≈ mret r /\
    fst (ended r) = result ++ uniq_ref f keys (List.filter (in_all others) l).
Proof.
  intros maxLength Hc. revert i result seen keys.
  induction l as [|x l IH]; intros i result seen keys Hl Hok Hs.
  { exists (inl (result, seen)). cbn. by rewrite app_nil_r. }
  assert (Hx : x ∈ array) by (apply Hl; left).
  assert (Hbody := intersection_body_pure maxLength caches others i x result seen keys _ Hc (Hok x Hx) Hs).
  assert (Hmem : forall v, v ∈ array -> mem (f v) (List.map f array) = true).
  { intros v Hv. apply existsb_exists. exists (f v). split; [|by rewrite eq_norm, bool_decide_eq_true].
    apply in_map. by apply list_elem_of_In. }
  destruct (len result <? maxLength) eqn:Elen.
  - assert (Hl' : forall y, y ∈ l -> y ∈ array) by (intros y Hy; apply Hl; by right).
    assert (IH' := fun result seen keys => IH (i + 1) result seen keys Hl' Hok). clear IH.
    cbn [List.filter eloop]. destruct (in_all others x) eqn:Ea.
    + cbn [negb] in Hbody. rewrite orb_false_r in Hbody. cbn [uniq_ref].
      destruct (mem (f x) keys) eqn:Em.
      * destruct (IH' result seen keys Hs) as (r & Hr & Hres). exists r. split; [|done].
        by erewrite eff_bind_pure by apply Hbody.
      * destruct (IH' _ _ _ (inter_keys_push (array :: others) result seen keys x (Hok x Hx) Em
          ltac:(intros o [->|Ho]%elem_of_cons; [by apply Hmem|];
                unfold in_all in Ea; rewrite forallb_forall in Ea; by apply Ea, list_elem_of_In) Hs))
          as (r & Hr & Hres).
        exists r. split; [by erewrite eff_bind_pure by apply Hbody|].
        rewrite Hres, <- app_assoc. done.
    + cbn [negb] in Hbody. rewrite orb_true_r in Hbody.
      destruct (IH' result seen keys Hs) as (r & Hr & Hres). exists r. split; [|done].
      by erewrite eff_bind_pure by apply Hbody.
  - exists (inr (result, seen)). split; [cbn [eloop]; by erewrite eff_bind_pure by apply Hbody|].
    cbn [ended fst]. rewrite uniq_ref_all; [by rewrite app_nil_r|].
    destruct Hs as (Hlen & Hd & Hin & _). apply Z.ltb_ge in Elen.
    apply min_length_some in Elen as (o & Ho & Holen).
    intros v [Hv Ha]%list_elem_of_In%filter_In.
    apply (keys_exhausted keys (List.map f o)); [done|intros; by apply Hin|rewrite length_map; lia|].
    apply elem_of_cons in Ho as [->|Ho]; [apply Hmem, Hl; by apply list_elem_of_In|].
    unfold in_all in Ha. rewrite forallb_forall in Ha. by apply Ha, list_elem_of_In.
Qed.

Lemma baseIntersection_pure array others :
  Forall key_ok (List.map f array) -> Forall (fun o => Forall key_ok (List.map f o)) others ->
  baseIntersection nativeCreate nativeMap (array :: others) iteratee None ≈ mret (intersection_ref array others).
Proof.
  intros Ha Ho. unfold baseIntersection. rewrite Forall_map, Forall_forall in Ha.
  destruct (other_arrays_pure (len array) others Ho) as (caches & He & Hc).
  erewrite eff_bind_pure by apply He. cbv beta iota zeta.
  match goal with |- context [(@nil value, ?s)] => set (seen0 := s) end.
  destruct (intersection_loop array others caches 0 array [] seen0 []) as (r & Hr & Hres); try done.
  - split_and!; [done|apply NoDup_nil_2|set_solver|]. unfold seen0. cbn [is_some negb andb].
    destruct (is_some iteratee || _) eqn:E.
    + destruct (new_SetCache_spec nativeCreate nativeMap []) as [Hv Hh]; auto.
    + split; [by destruct iteratee|done].
  - erewrite eff_bind_pure by apply Hr. by rewrite Hres.
Qed.

(** [baseUniq] keeps the first element of every key, in order, and [baseDifference]
    the elements whose key no excluded value has; the native [Set], the [SetCache] and
    the linear search give the same result whatever the size of the arrays. *)
Theorem uniq_difference_reference array values :
  Forall key_ok (List.map f array) -> Forall key_ok (List.map f values) ->
  baseUniq nativeCreate nativeMap nativeSet array iteratee None ≈ mret (uniq_ref f [] array) /\
  baseDifference nativeCreate nativeMap array values iteratee None ≈ mret (difference_ref f array values).
Proof. intros Ha Hv. split; [by apply baseUniq_pure|by apply baseDifference_pure]. Qed.

(** [baseIntersection] keeps the first element of every key that occurs in all the
    arrays.  Stopping as soon as there are as many results as the shortest array has
    elements loses nothing. *)
Theorem intersection_reference array others :
  Forall key_ok (List.map f array) -> Forall (fun o => Forall key_ok (List.map f o)) others ->
  baseIntersection nativeCreate nativeMap (array :: others) iteratee None ≈ mret (intersection_ref array others).
Proof. apply baseIntersection_pure. Qed.

End correctness.

(** ** Symmetric difference *)

Section xor.
Context {S : Type}.
Variables nativeCreate nativeMap nativeSet : bool.

Abbreviation idf := (fun v : value => v).

Lemma mem_uniq_ref f keys l k :
  (forall v, f v = v) -> mem k (uniq_ref f keys l) = mem k l && negb (mem k keys).
Proof.
  intros Hid. revert keys. induction l as [|x l IH]; intros keys; [done|]. cbn [uniq_ref].
  rewrite Hid, (mem_cons k x l). destruct (mem x keys) eqn:E; [|rewrite mem_cons, eq_norm_l]; rewrite IH.
  - destruct (eq x k) eqn:Ek; [|done]. rewrite <- (mem_cong x k keys), E by done. by rewrite !andb_false_r.
  - rewrite mem_cons. destruct (eq x k) eqn:Ek; cbn; [|done]. by rewrite <- (mem_cong x k keys), E by done.
Qed.

Lemma NoDup_uniq_ref f keys l : (forall v, f v = v) -> NoDup (List.map norm (uniq_ref f keys l)).
Proof.
  intros Hid. revert keys. induction l as [|x l IH]; intros keys; [apply NoDup_nil_2|]. cbn [uniq_ref].
  destruct (mem (f x) keys); [done|]. cbn. apply NoDup_cons. split; [|done].
  rewrite norm_idemp, Hid, <- mem_norm. intros Hm. rewrite mem_uniq_ref, mem_cons in Hm by done.
  rewrite (eq_norm x x), bool_decide_eq_true_2, andb_false_r in Hm; done.
Qed.

Lemma mem_difference f a b k :
  (forall v, f v = v) -> mem k (difference_ref f a b) = mem k a && negb (mem k b).
Proof.
  intros Hid. unfold difference_ref. rewrite (map_ext f idf), map_id by done.
  induction a as [|x a IH]; [done|]. cbn [List.filter]. rewrite Hid, (mem_cons k x a).
  destruct (mem x b) eqn:E; cbn [negb List.map]; [|rewrite mem_cons, eq_norm_l]; rewrite IH.
  - destruct (eq x k) eqn:Ek; [|done]. rewrite <- (mem_cong x k b), E by done. by rewrite !andb_false_r.
  - destruct (eq x k) eqn:Ek; [|done]. by rewrite <- (mem_cong x k b), E by done.
Qed.

Lemma key_ok_norm v : key_ok v -> key_ok (norm v).
Proof. by destruct v as [| | |[]| | |]. Qed.

Lemma key_ok_difference f a b :
  Forall key_ok a -> Forall key_ok (difference_ref f a b).
Proof.
  intros Ha. unfold difference_ref. apply Forall_map, Forall_forall.
  intros x [Hx _]%list_elem_of_In%filter_In. rewrite Forall_forall in Ha.
  by apply key_ok_norm, Ha, list_elem_of_In.
Qed.

(** How many of the arrays hold the value, modulo two. *)
Definition in_odd (k : value) (arrays : list (list value)) : bool :=
  foldr (fun a b => xorb (mem k a) b) false arrays.

Definition xor_step (result : option (list value)) (array : list value) : option (list value) :=
  Some (match result with
        | Some result => difference_ref idf result array ++ difference_ref idf array result
        | None => array
        end).

Lemma xor_fold arrays result :
  Forall (Forall key_ok) arrays -> Forall key_ok (default [] result) ->
  Forall key_ok (default [] (foldl xor_step result arrays)) /\
  forall k, mem k (default [] (foldl xor_step result arrays))
    = xorb (mem k (default [] result)) (in_odd k arrays).
Proof.
  intros Ha. revert result. induction Ha as [|a arrays Ha _ IH]; intros result Hr.
  { split; [done|]. intros k. cbn. by rewrite xorb_false_r. }
  cbn [foldl]. destruct (IH (xor_step result a)) as [Hok Hm].
  - destruct result as [r|]; cbn in *; [|done]. apply Forall_app. auto using key_ok_difference.
  - split; [done|]. intros k. rewrite Hm. cbn [in_odd foldr]. fold (in_odd k arrays).
    rewrite <- xorb_assoc. f_equal. destruct result as [r|]; cbn [xor_step from_option id]; [|done].
    rewrite mem_app, !mem_difference by done.
    by destruct (mem k r), (mem k a).
Qed.

Lemma baseXor_pure (arrays : list (list value)) :
  Forall (Forall key_ok) arrays ->
  baseXor (S := S) nativeCreate nativeMap nativeSet arrays None None
  ≈ mret (uniq_ref idf [] (default [] (foldl xor_step None arrays))).
Proof.
  intros Ha. unfold baseXor.
  assert (Hid : computes (S := S) idf None) by done.
  enough (Hl : forall i result, Forall key_ok (default [] result) ->
    eloop (R := option (list value)) (fun _ array result =>
      match result with
      | Some result =>
          a ← baseDifference (S := S) nativeCreate nativeMap result array None None;
          b ← baseDifference nativeCreate nativeMap array result None None;
          mret (inl (Some (arrayPush a b)))
      | None => mret (inl (Some array))
      end) i arrays result ≈ mret (inl (foldl xor_step result arrays))).
  { erewrite eff_bind_pure by by apply Hl. cbn [ended].
    destruct (xor_fold arrays None) as [Hok _]; [done..|].
    destruct (foldl xor_step None arrays) as [[|v r]|]; try done.
    apply (baseUniq_pure nativeCreate nativeMap nativeSet idf None Hid). by rewrite map_id. }
  induction Ha as [|a arrays Ha _ IH]; intros i result Hr; [done|]. cbn [eloop].
  rewrite (eff_bind_pure _ (inl (xor_step result a))).
  { apply IH. destruct result as [r|]; cbn in *; [apply Forall_app; auto using key_ok_difference|done]. }
  destruct result as [r|]; [|done]. cbn in Hr.
  erewrite eff_bind_pure by (apply (baseDifference_pure nativeCreate nativeMap idf None Hid); by rewrite map_id).
  erewrite eff_bind_pure by (apply (baseDifference_pure nativeCreate nativeMap idf None Hid); by rewrite map_id).
  by rewrite arrayPush_app.
Qed.

(** [xor] of any number of arrays answers, each once, the values that occur in an odd
    number of the arrays. *)
Theorem xor_odd (arrays : list (list value)) :
  Forall (Forall key_ok) arrays ->
  exists r, baseXor (S := S) nativeCreate nativeMap nativeSet arrays None None ≈ mret r /\
    NoDup (List.map norm r) /\ forall k, mem k r = in_odd k arrays.
Proof.
  intros Ha. exists (uniq_ref idf [] (default [] (foldl xor_step None arrays))).
  split_and!; [by apply baseXor_pure|by apply NoDup_uniq_ref|].
  intros k. rewrite mem_uniq_ref, andb_true_r by done.
  destruct (xor_fold arrays None) as [_ Hm]; [done..|]. by rewrite Hm.
Qed.

End xor.

(** ** Instances *)

Definition ex_values : list value := [Number (num 1); String (str "1"); Number (S754_zero true); Number nan].
Definition ex_array : list value :=
  [Number (num 2); Number (num 0); Number nan; Number (num 2); Null; String (str "1")].

Lemma uniq_difference_reference_witness :
  Forall key_ok ex_array /\
  baseDifference (S := unit) true true ex_array ex_values None None tt
    = (Ok [Number (num 2); Number (num 2); Null], tt) /\
  baseUniq (S := unit) true true true ex_array None None tt
    = (Ok [Number (num 2); Number (num 0); Number nan; Null; String (str "1")], tt).
Proof.
  assert (Ha : Forall key_ok (List.map (fun v : value => v) ex_array)).
  { repeat apply Forall_cons_2; try apply Forall_nil_2; try exact I; vm_compute; reflexivity. }
  assert (Hv : Forall key_ok (List.map (fun v : value => v) ex_values)).
  { repeat apply Forall_cons_2; try apply Forall_nil_2; try exact I; vm_compute; reflexivity. }
  destruct (uniq_difference_reference (S := unit) true true true (fun v => v) None (fun v => eq_refl)
    ex_array ex_values Ha Hv) as [Hu Hd].
  split; [exact Ha|]. split; [rewrite Hd|rewrite Hu]; vm_compute; reflexivity.
Defined.

Lemma intersection_reference_witness :
  baseIntersection (S := unit) true true [ex_array; ex_values; ex_values ++ ex_values] None None tt
    = (Ok [Number (num 0); Number nan; String (str "1")], tt).
Proof.
  rewrite (intersection_reference (S := unit) true true (fun v => v) None (fun v => eq_refl)
    ex_array [ex_values; ex_values ++ ex_values]).
  - vm_compute. reflexivity.
  - repeat apply Forall_cons_2; try apply Forall_nil_2; try exact I; vm_compute; reflexivity.
  - repeat apply Forall_cons_2; try apply Forall_nil_2; try exact I; vm_compute; reflexivity.
Defined.

Lemma xor_odd_witness :
  exists r, baseXor (S := unit) true true true [ex_array; ex_values; [Null; Number (num 7)]] None None tt = (Ok r, tt) /\
    mem Null r = false /\ mem (Number (num 7)) r = true.
Proof.
  destruct (xor_odd (S := unit) true true true [ex_array; ex_values; [Null; Number (num 7)]])
    as (r & Hr & _ & Hm).
  - repeat apply Forall_cons_2; try apply Forall_nil_2; try exact I; vm_compute; reflexivity.
  - exists r. split; [apply Hr|]. split; rewrite Hm; vm_compute; reflexivity.
Defined.
