(* ===== verification/LodashLists.v ===== *)
(** * lodash.js: slices and positions of arrays

    [slice], [chunk], [drop], [take] and their While forms, [fill], [nth], searches by
    index and [times] of [immer/extra/js/lib/lodash.js].
    A nullish array argument of a public function is [None]; numeric arguments are
    values converted with [toInteger].  [isCall] stands for what [isIterateeCall]
    answers about the guard argument. *)

From S2P Require Import Prelude Js LodashLang LodashArrays.
From Stdlib Require Import SpecFloat.

(** The integer that [toInteger] converts a value to. *)
Definition int `{JsHost} (v : value) : Z := trunc (toInteger v).

(** ** Slices *)

Definition copyArray (source : list value) (array : option (list value)) : list value :=
  let array := default (replicate (length source) Undefined) array in
  ended (loop (R := list value) (fun index v array => inl (set_index array index v)) 0 source array).

Definition baseSlice {A} (array : list A) (start end_ : Z) (hole : A) : list A :=
  let length := len array in
  let start := if start <? 0 then (if length <? - start then 0 else length + start) else start in
  let end_ := if length <? end_ then length else end_ in
  let end_ := if end_ <? 0 then end_ + length else end_ in
  let length := if end_ <? start then 0 else wrapu 32 (end_ - start) in
  let start := wrapu 32 start in
  List.map (fun index => default hole (array !! Z.to_nat (index + start))) (seqZ 0 length).

Abbreviation slice_of l s e := (baseSlice l s e Undefined).

Definition castSlice (array : list value) (start : Z) (end_ : option Z) : list value :=
  let length := len array in
  let end_ := default length end_ in
  if (start =? 0) && (length <=? end_) then array else slice_of array start end_.

(** [while (index < length) result[resIndex++] = baseSlice(array, index, (index += size))]. *)
Fixpoint chunk_loop (fuel : nat) (array : list value) (size index : Z) : list (list value) :=
  match fuel with
  | O => []
  | S fuel => if index <? len array
              then slice_of array index (index + size) :: chunk_loop fuel array size (index + size)
              else []
  end.

Section slices.
Context `{JsHost}.

Definition chunk (array : option (list value)) (size : value) (isCall : option bool) : list (list value) :=
  let size := if (match isCall with Some b => b | None => is_undefined size end)
              then 1 else Z.max (int size) 0 in
  let array := default [] array in
  if (len array =? 0) || (size <? 1) then [] else chunk_loop (length array) array size 0.

Definition compact (array : option (list value)) : list value :=
  ended (loop (R := list value) (fun _ v result =>
    inl (if truthy v then result ++ [v] else result)) 0 (default [] array) []).

Definition _drop (array : option (list value)) (n : value) (guard : bool) : list value :=
  let array := default [] array in
  if len array =? 0 then [] else
  let n := if guard || is_undefined n then 1 else int n in
  slice_of array (if n <? 0 then 0 else n) (len array).

Definition dropRight (array : option (list value)) (n : value) (guard : bool) : list value :=
  let array := default [] array in
  if len array =? 0 then [] else
  let n := if guard || is_undefined n then 1 else int n in
  let n := len array - n in
  slice_of array 0 (if n <? 0 then 0 else n).

Definition _take (array : option (list value)) (n : value) (guard : bool) : list value :=
  let array := default [] array in
  if len array =? 0 then [] else
  let n := if guard || is_undefined n then 1 else int n in
  slice_of array 0 (if n <? 0 then 0 else n).

Definition takeRight (array : option (list value)) (n : value) (guard : bool) : list value :=
  let array := default [] array in
  if len array =? 0 then [] else
  let n := if guard || is_undefined n then 1 else int n in
  let n := len array - n in
  slice_of array (if n <? 0 then 0 else n) (len array).

Definition initial (array : option (list value)) : list value := dropRight array (Number (num 1)) false.
Definition _tail (array : option (list value)) : list value := _drop array (Number (num 1)) false.

Definition slice (array : option (list value)) (start end_ : value) (isCall : bool) : list value :=
  let array := default [] array in
  if len array =? 0 then [] else
  let '(start, end_) :=
    if truthy end_ && negb (bool_decide (typeof end_ = TNumber)) && isCall then (0, len array)
    else (if is_nil start then 0 else int start, if is_undefined end_ then len array else int end_) in
  slice_of array start end_.

Definition _head (array : option (list value)) : value :=
  match array with Some (v :: _) => v | _ => Undefined end.

Definition _last (array : option (list value)) : value :=
  let array := default [] array in
  if len array =? 0 then Undefined else array.[len array - 1].

Definition baseNth (array : list value) (n : Z) : value :=
  let length := len array in
  if length =? 0 then Undefined else
  let n := n + (if n <? 0 then length else 0) in
  if (0 <=? n) && (n <? length) then array.[n] else Undefined.

Definition nth (array : option (list value)) (n : value) : value :=
  match array with Some (v :: l) => baseNth (v :: l) (int n) | _ => Undefined end.

Definition nthArg (n : value) (args : list value) : value := baseNth args (int n).

(** ** Filling *)

Definition baseFill (array : list value) (v start end_ : value) : list value :=
  let length := len array in
  let start := int start in
  let start := if start <? 0 then (if length <? - start then 0 else length + start) else start in
  let end_ := if is_undefined end_ || js_gt end_ (Number (num length)) then length else int end_ in
  let end_ := if end_ <? 0 then end_ + length else end_ in
  let end_ := if end_ <? start then 0 else Z.max 0 (Z.min end_ MAX_ARRAY_LENGTH) in
  ended (loop (R := list value) (fun _ i array => inl (set_index array i v)) 0
    (seqZ start (end_ - start)) array).

Definition fill (array : option (list value)) (v start end_ : value) (isCall : bool) : list value :=
  let array := default [] array in
  if len array =? 0 then [] else
  if truthy start && negb (bool_decide (typeof start = TNumber)) && isCall
  then baseFill array v (Number (num 0)) (Number (num (len array)))
  else baseFill array v start end_.

(** ** Searching by position *)

Definition indexOf (array : option (list value)) (v fromIndex : value) : Z :=
  let array := default [] array in
  let length := len array in
  if length =? 0 then -1 else
  let index := if is_nil fromIndex then 0 else int fromIndex in
  let index := if index <? 0 then Z.max (length + index) 0 else index in
  baseIndexOf array v index.

Definition lastIndexOf (array : option (list value)) (v fromIndex : value) : Z :=
  let array := default [] array in
  let length := len array in
  if length =? 0 then -1 else
  let index :=
    if is_undefined fromIndex then length else
    let index := int fromIndex in
    (if index <? 0 then Z.max (length + index) 0 else Z.min index (length - 1)) + 1 in
  if negb (strict_eq v v) then
    run_pure (-1) (baseFindIndex array (fun v _ _ => mret (Boolean (baseIsNaN v))) (index - 1) true)
  else
    returned (-1) (loop_right (Acc := unit) (fun _ index _ =>
      if strict_eq array.[index] v then inr index else inl tt) 0 (seqZ 0 index) tt).

Section callbacks.
Context {S : Type}.

Definition findIndex (array : option (list value)) (predicate : callback S value) (fromIndex : value) :
    eff S Z :=
  let array := default [] array in
  let length := len array in
  if length =? 0 then mret (-1) else
  let index := if is_nil fromIndex then 0 else int fromIndex in
  let index := if index <? 0 then Z.max (length + index) 0 else index in
  baseFindIndex array predicate index false.

Definition findLastIndex (array : option (list value)) (predicate : callback S value) (fromIndex : value) :
    eff S Z :=
  let array := default [] array in
  let length := len array in
  if length =? 0 then mret (-1) else
  let index :=
    if is_undefined fromIndex then length - 1 else
    let index := int fromIndex in
    if js_lt fromIndex (Number (num 0)) then Z.max (length + index) 0 else Z.min index (length - 1) in
  baseFindIndex array predicate index true.

(** ** While a predicate holds *)

Definition baseWhile (array : list value) (predicate : callback S value) (isDrop fromRight : bool) :
    eff S (list value) :=
  let length := len array in
  let body := fun index v (_ : unit) =>
    p ← predicate v index array;
    mret (if truthy p then inl tt else inr index) in
  index ← (if fromRight then r ← eloop_right body 0 array tt; mret (returned (-1) r)
           else r ← eloop body 0 array tt; mret (returned length r));
  mret (if isDrop
        then slice_of array (if fromRight then 0 else index) (if fromRight then index + 1 else length)
        else slice_of array (if fromRight then index + 1 else 0) (if fromRight then length else index)).

Definition dropRightWhile (array : option (list value)) (predicate : callback S value) : eff S (list value) :=
  match array with Some (v :: l) => baseWhile (v :: l) predicate true true | _ => mret [] end.
Definition dropWhile (array : option (list value)) (predicate : callback S value) : eff S (list value) :=
  match array with Some (v :: l) => baseWhile (v :: l) predicate true false | _ => mret [] end.
Definition takeRightWhile (array : option (list value)) (predicate : callback S value) : eff S (list value) :=
  match array with Some (v :: l) => baseWhile (v :: l) predicate false true | _ => mret [] end.
Definition takeWhile (array : option (list value)) (predicate : callback S value) : eff S (list value) :=
  match array with Some (v :: l) => baseWhile (v :: l) predicate false false | _ => mret [] end.

(** ** Calling a number of times *)

(** The second loop counts from [MAX_ARRAY_LENGTH]. *)
Definition times {B} (n : value) (iteratee : Z -> eff S B) : eff S (list B) :=
  let n := int n in
  if (n <? 1) || (MAX_SAFE_INTEGER <? n) then mret [] else
  let index := MAX_ARRAY_LENGTH in
  let length := Z.min n MAX_ARRAY_LENGTH in
  let n := n - MAX_ARRAY_LENGTH in
  result ← baseTimes length iteratee;
  _ ← eloop (Acc := unit) (R := unit) (fun _ index _ => _ ← iteratee index; mret (inl tt))
    0 (seqZ (index + 1) (n - (index + 1))) tt;
  mret result.

End callbacks.
End slices.

(** ** Correctness of slices *)

(** The length of an array of the language. *)
Definition array_size {A} (l : list A) : Prop := len l <= MAX_ARRAY_LENGTH.

Lemma map_read {A} (l : list A) (hole : A) (s k : nat) :
  (s + k <= length l)%nat ->
  List.map (fun i => default hole (l !! Z.to_nat (i + Z.of_nat s))) (seqZ 0 (Z.of_nat k)) = take k (drop s l).
Proof.
  intros Hk. apply list_eq. intros i. change (List.map ?f ?x) with (f <$> x).
  rewrite list_lookup_fmap. destruct (decide (i < k)%nat) as [Hi|Hi].
  - rewrite lookup_take_lt, lookup_drop by done.
    rewrite (proj2 (lookup_seqZ 0 (Z.of_nat k) i (Z.of_nat i))) by lia. cbn.
    replace (Z.to_nat (Z.of_nat i + Z.of_nat s)) with (s + i)%nat by lia.
    destruct (lookup_lt_is_Some_2 l (s + i)) as [x ->]; [lia|done].
  - rewrite lookup_take_ge by lia.
    destruct (seqZ 0 (Z.of_nat k) !! i) as [z|] eqn:E; [|done]. apply lookup_seqZ in E. lia.
Qed.

(** Where a slice starts and ends. *)
Definition slice_start (n start : Z) : Z := if start <? 0 then Z.max 0 (n + start) else start.
Definition slice_end (n end_ : Z) : Z := if end_ <? 0 then n + end_ else Z.min end_ n.

Lemma baseSlice_spec {A} (array : list A) (start end_ : Z) (hole : A) :
  array_size array ->
  let s := slice_start (len array) start in
  let e := slice_end (len array) end_ in
  baseSlice array start end_ hole = take (Z.to_nat (e - s)) (drop (Z.to_nat s) array).
Proof.
  intros Hn s e. unfold array_size, MAX_ARRAY_LENGTH in Hn. unfold baseSlice.
  assert (Hs : (if start <? 0 then if len array <? - start then 0 else len array + start else start) = s).
  { unfold s, slice_start. destruct (Z.ltb_spec start 0); [|done].
    destruct (Z.ltb_spec (len array) (- start)); lia. }
  assert (He : (let x := if len array <? end_ then len array else end_ in
    if x <? 0 then x + len array else x) = e).
  { unfold e, slice_end. cbv zeta. destruct (Z.ltb_spec (len array) end_); [|destruct (Z.ltb_spec end_ 0); lia].
    destruct (Z.ltb_spec (len array) 0), (Z.ltb_spec end_ 0); lia. }
  cbv zeta in He |- *. rewrite Hs, He.
  assert (0 <= s) by (unfold s, slice_start; destruct (Z.ltb_spec start 0); lia).
  assert (e <= len array) by (unfold e, slice_end; destruct (Z.ltb_spec end_ 0); lia).
  destruct (Z.ltb_spec e s); [by replace (Z.to_nat (e - s)) with O by lia|].
  assert (2 ^ 32 = 4294967296) by done.
  rewrite !wrapu_id by (unfold in_u; lia).
  rewrite <- (map_read array hole (Z.to_nat s) (Z.to_nat (e - s))) by lia.
  rewrite !Z2Nat.id by lia. done.
Qed.

Lemma slice_prefix (array : list value) (e : Z) :
  array_size array -> 0 <= e -> slice_of array 0 e = take (Z.to_nat e) array.
Proof.
  intros Hn He. rewrite baseSlice_spec by done. unfold slice_start, slice_end.
  destruct (Z.ltb_spec 0 0), (Z.ltb_spec e 0); try lia. rewrite drop_0, Z.sub_0_r.
  destruct (Z.le_ge_cases e (len array)); [f_equal; lia|].
  rewrite (take_ge array (Z.to_nat e)), take_ge; [done|lia|lia].
Qed.

Lemma slice_suffix (array : list value) (s : Z) :
  array_size array -> 0 <= s -> slice_of array s (len array) = drop (Z.to_nat s) array.
Proof.
  intros Hn Hs. rewrite baseSlice_spec by done. unfold slice_start, slice_end.
  destruct (Z.ltb_spec s 0), (Z.ltb_spec (len array) 0); try lia.
  rewrite Z.min_id, take_ge; [done|]. rewrite length_drop. lia.
Qed.

Section slice_laws.
Context `{JsHost}.

(** [take] and [drop] of the same count split an array in two, [dropRight] and
    [takeRight] likewise, for every count, negative, fractional, infinite or not a
    number, and [slice] with no bounds is a copy. *)
Theorem take_drop_split (l : list value) (n : value) (guard : bool) :
  array_size l ->
  _take (Some l) n guard ++ _drop (Some l) n guard = l /\
  dropRight (Some l) n guard ++ takeRight (Some l) n guard = l /\
  slice (Some l) Undefined Undefined false = l.
Proof.
  intros Hl. unfold _take, _drop, dropRight, takeRight, slice. cbn [from_option id].
  destruct (Z.eqb_spec (len l) 0) as [Hz|Hz]; [destruct l; [done|cbn in Hz; lia]|].
  cbv zeta. set (k := if guard || is_undefined n then 1 else int n). split_and!.
  - rewrite slice_prefix, slice_suffix by (done || destruct (Z.ltb_spec k 0); lia). apply take_drop.
  - rewrite slice_prefix, slice_suffix by (done || destruct (Z.ltb_spec (len l - k) 0); lia). apply take_drop.
  - cbn [truthy andb is_nil is_undefined]. by rewrite slice_suffix.
Qed.

(** ** Chunks *)

Lemma chunk_loop_concat fuel (l : list value) (size index : Z) :
  array_size l -> 1 <= size -> 0 <= index -> len l - index <= Z.of_nat fuel ->
  concat (chunk_loop fuel l size index) = drop (Z.to_nat index) l.
Proof.
  intros Hl Hs. revert index. induction fuel as [|fuel IH]; intros index Hi Hf; cbn [chunk_loop].
  - rewrite drop_ge; [done|lia].
  - destruct (Z.ltb_spec index (len l)); [|rewrite drop_ge; [done|lia]].
    cbn [concat]. rewrite IH by lia. rewrite baseSlice_spec by done. unfold slice_start, slice_end.
    destruct (Z.ltb_spec index 0), (Z.ltb_spec (index + size) 0); try lia.
    replace (Z.to_nat (index + size)) with (Z.to_nat index + Z.to_nat size)%nat by lia.
    rewrite <- drop_drop. destruct (Z.le_ge_cases (index + size) (len l)).
    + rewrite Z.min_l by lia. replace (index + size - index) with size by lia. apply take_drop.
    + rewrite Z.min_r by lia. rewrite take_ge by (rewrite length_drop; lia).
      rewrite (drop_ge (drop _ _)) by (rewrite length_drop; lia). apply app_nil_r.
Qed.

Lemma chunk_loop_sizes fuel (l : list value) (size index : Z) :
  array_size l -> 1 <= size -> 0 <= index ->
  forall i c, chunk_loop fuel l size index !! i = Some c ->
  len c = Z.min size (len l - (index + size * Z.of_nat i)) /\ 0 < len c.
Proof.
  intros Hl Hs. revert index. induction fuel as [|fuel IH]; intros index Hi i c; cbn [chunk_loop]; [done|].
  destruct (Z.ltb_spec index (len l)); [|done]. destruct i as [|i]; cbn [lookup list_lookup].
  - intros [= <-]. rewrite baseSlice_spec by done. unfold slice_start, slice_end.
    destruct (Z.ltb_spec index 0), (Z.ltb_spec (index + size) 0); try lia.
    rewrite length_take, length_drop. lia.
  - intros Hc. apply IH in Hc; [|lia]. lia.
Qed.

(** [chunk] cuts an array into consecutive pieces: their concatenation is the array,
    every piece has the requested size but the last, which has what is left, and none
    is empty. *)
Theorem chunk_partition (l : list value) (size : value) :
  array_size l -> 1 <= int size -> is_undefined size = false ->
  concat (chunk (Some l) size None) = l /\
  forall i c, chunk (Some l) size None !! i = Some c ->
    len c = Z.min (int size) (len l - int size * Z.of_nat i) /\ 0 < len c.
Proof.
  intros Hl Hs Hu. unfold chunk. cbn [from_option id]. rewrite Hu, Z.max_l by lia.
  destruct (Z.eqb_spec (len l) 0) as [Hz|Hz]; [destruct l; [by split|cbn in Hz; lia]|].
  destruct (Z.ltb_spec (int size) 1); [lia|]. cbn [orb]. split.
  - rewrite chunk_loop_concat by lia || done. apply drop_0.
  - intros i c Hc. apply chunk_loop_sizes in Hc; [|done|lia..]. lia.
Qed.

End slice_laws.

Lemma chunk_partition_witness :
  concat (chunk (H := plain_host) (Some [Null; Undefined; Null]) (Number (num 2)) None) = [Null; Undefined; Null].
Proof.
  apply (chunk_partition (H := plain_host) [Null; Undefined; Null] (Number (num 2))).
  - vm_compute. discriminate.
  - vm_compute. discriminate.
  - reflexivity.
Defined.

Lemma take_drop_split_witness :
  let l := [Null; Undefined; Null] in
  _take (H := plain_host) (Some l) (Number neg_infinity) false ++ _drop (H := plain_host) (Some l) (Number neg_infinity) false = l.
Proof.
  apply (take_drop_split (H := plain_host) [Null; Undefined; Null] (Number neg_infinity) false).
  vm_compute. discriminate.
Defined.

(** ** While a predicate holds *)

Fixpoint count_while (p : value -> bool) (l : list value) : nat :=
  match l with
  | [] => O
  | x :: l => if p x then S (count_while p l) else O
  end.

Lemma count_while_le p l : (count_while p l <= length l)%nat.
Proof. induction l as [|x l IH]; cbn; [lia|]. destruct (p x); lia. Qed.

Lemma count_while_app p l k :
  count_while p (l ++ k) = if (count_while p l <? length l)%nat then count_while p l
                           else (length l + count_while p k)%nat.
Proof.
  induction l as [|x l IH]; [done|]. cbn [app count_while length].
  destruct (p x); [|done]. rewrite IH. pose proof (count_while_le p l).
  destruct (Nat.ltb_spec (count_while p l) (length l)), (Nat.ltb_spec (S (count_while p l)) (S (length l))); lia.
Qed.

Section while_laws.
Context {S : Type} `{JsHost}.
Variable p : value -> bool.
Variable predicate : callback S value.
Hypothesis Hp : forall v i a, exists r, predicate v i a ≈ mret r /\ truthy r = p v.

Lemma while_loop (array l : list value) i :
  (r ← eloop (fun index v (_ : unit) => b ← predicate v index array; mret (if truthy b then inl tt else inr index)) i l tt;
   mret (returned (i + len l) r)) ≈ mret (i + Z.of_nat (count_while p l)).
Proof.
  erewrite eff_bind_pure.
  2:{ apply (eloop_pure (fun index v _ => if p v then inl tt else inr index)).
      intros j x u. destruct (Hp x j array) as (b & Hb & <-). by apply (eff_bind_pure _ b). }
  f_equiv. revert i. induction l as [|x l IH]; intros i; cbn [loop length count_while]; [done|].
  destruct (p x); [|cbn; lia]. specialize (IH (i + 1)).
  destruct (loop _ (i + 1) l tt) as [[]|z]; cbn in *; lia.
Qed.

Lemma while_loop_right (array l : list value) i :
  (r ← eloop_right (fun index v (_ : unit) => b ← predicate v index array; mret (if truthy b then inl tt else inr index)) i l tt;
   mret (returned (i - 1) r)) ≈ mret (i - 1 + (len l - Z.of_nat (count_while p (rev l)))).
Proof.
  erewrite eff_bind_pure.
  2:{ apply (eloop_right_pure_in (fun index v _ => if p v then inl tt else inr index)).
      intros j x u _. destruct (Hp x j array) as (b & Hb & <-). by apply (eff_bind_pure _ b). }
  f_equiv. revert i.
  enough (Hl : forall i, loop_right (fun index v (_ : unit) => if p v then inl tt else inr index) i l tt
    = if (count_while p (rev l) <? length l)%nat
      then inr (i + (len l - 1 - Z.of_nat (count_while p (rev l)))) else inl tt).
  { intros i. rewrite Hl. pose proof (count_while_le p (rev l)). rewrite length_rev in *.
    destruct (Nat.ltb_spec (count_while p (rev l)) (length l)); cbn; lia. }
  induction l as [|x l IH]; intros i; [done|]. cbn [loop_right rev length]. rewrite IH.
  rewrite count_while_app, length_rev. pose proof (count_while_le p (rev l)). rewrite length_rev in *.
  destruct (Nat.ltb_spec (count_while p (rev l)) (length l)); cbn [count_while].
  - destruct (Nat.ltb_spec (count_while p (rev l)) (Datatypes.S (length l))); [|lia]. f_equal. lia.
  - destruct (p x).
    + destruct (Nat.ltb_spec (length l + 1) (Datatypes.S (length l))); [lia|done].
    + destruct (Nat.ltb_spec (length l + 0) (Datatypes.S (length l))); [|lia]. f_equal. lia.
Qed.

Lemma takeWhile_pure (l : list value) :
  array_size l -> takeWhile (Some l) predicate ≈ mret (take (count_while p l) l).
Proof.
  intros Hl. destruct l as [|v l]; [done|]. revert Hl. set (a := v :: l). intros Hl.
  pose proof (count_while_le p a). unfold takeWhile, baseWhile, a. fold a. cbv zeta iota.
  erewrite eff_bind_pure by apply (while_loop a a 0).
  rewrite Z.add_0_l. by rewrite slice_prefix, Nat2Z.id by (done || lia).
Qed.

(** [takeWhile] and [dropWhile] cut the array after the longest prefix whose elements
    all satisfy the predicate, [takeRightWhile] and [dropRightWhile] before the longest
    such suffix. *)
Theorem while_split (l : list value) :
  array_size l ->
  takeWhile (Some l) predicate ≈ mret (take (count_while p l) l) /\
  dropWhile (Some l) predicate ≈ mret (drop (count_while p l) l) /\
  takeRightWhile (Some l) predicate ≈ mret (drop (length l - count_while p (rev l)) l) /\
  dropRightWhile (Some l) predicate ≈ mret (take (length l - count_while p (rev l)) l).
Proof.
  intros Hl. destruct l as [|v l]; [done|]. revert Hl. set (a := v :: l). intros Hl.
  assert (Hleft : forall k : Z -> eff S (list value),
    ((r ← eloop (fun index v (_ : unit) => b ← predicate v index a; mret (if truthy b then inl tt else inr index)) 0 a tt;
      mret (returned (len a) r)) ≫= k) ≈ k (Z.of_nat (count_while p a))).
  { intros k. by apply eff_bind_pure, (while_loop a a 0). }
  assert (Hright : forall k : Z -> eff S (list value),
    ((r ← eloop_right (fun index v (_ : unit) => b ← predicate v index a; mret (if truthy b then inl tt else inr index)) 0 a tt;
      mret (returned (-1) r)) ≫= k) ≈ k (len a - 1 - Z.of_nat (count_while p (rev a)))).
  { intros k. erewrite eff_bind_pure by apply (while_loop_right a a 0). intros σ. f_equal. lia. }
  pose proof (count_while_le p a). pose proof (count_while_le p (rev a)) as Hr. rewrite length_rev in Hr.
  split; [by apply (takeWhile_pure a)|].
  unfold dropWhile, takeRightWhile, dropRightWhile, baseWhile, a. fold a. cbv zeta iota. split_and!.
  - rewrite Hleft. by rewrite slice_suffix, Nat2Z.id by (done || lia).
  - rewrite Hright. rewrite slice_suffix by (done || lia). f_equiv. f_equal. lia.
  - rewrite Hright. rewrite slice_prefix by (done || lia). f_equiv. f_equal. lia.
Qed.

End while_laws.

Lemma while_split_witness :
  takeWhile (S := unit) (Some [Boolean true; Null; Boolean true]) (fun v _ _ => mret v)
    ≈ mret [Boolean true].
Proof.
  destruct (while_split (S := unit) truthy (fun v _ _ => mret v)
    (fun v i a => ex_intro _ v (conj (fun σ => eq_refl) eq_refl)) [Boolean true; Null; Boolean true]) as [Ht _].
  - vm_compute. discriminate.
  - exact Ht.
Defined.

(** ** Calling a number of times *)

(** An iteratee that counts its calls. *)
Definition counting : Z -> eff Z unit := fun _ calls => (Ok tt, calls + 1).

Lemma count_loop {Acc R} (f : Acc -> Acc) (body : Z -> Z -> Acc -> eff Z (Acc + R)) i (l : list Z) acc calls :
  (forall i x a calls, body i x a calls = (Ok (inl (f a)), calls + 1)) ->
  exists acc', eloop body i l acc calls = (Ok (inl acc'), calls + len l).
Proof.
  intros Hb. revert i acc calls. induction l as [|x l IH]; intros i acc calls.
  - exists acc. cbn. by rewrite Z.add_0_r.
  - destruct (IH (i + 1) (f acc) (calls + 1)) as [acc' Ha]. exists acc'. cbn [eloop length].
    unfold mbind, eff_bind. rewrite Hb, Ha. f_equal. lia.
Qed.

(** [times] calls its iteratee [n] times up to the largest array length, 2^32-1, and
    no more often than that up to 2^33-1: the loop for the remaining calls starts
    counting at its upper bound. *)
Theorem times_calls `{JsHost} (n : value) :
  1 <= int n <= 2 * MAX_ARRAY_LENGTH + 1 ->
  snd (times n counting 0) = Z.min (int n) MAX_ARRAY_LENGTH.
Proof.
  unfold MAX_ARRAY_LENGTH. intros Hn. unfold times, MAX_SAFE_INTEGER, MAX_ARRAY_LENGTH.
  destruct (Z.ltb_spec (int n) 1); [lia|]. destruct (Z.ltb_spec 9007199254740991 (int n)); [lia|].
  cbn [orb]. cbv zeta.
  assert (Ht : forall k calls, 0 <= k -> exists r, baseTimes k counting calls = (Ok r, calls + k)).
  { intros k calls Hk. unfold baseTimes, mbind at 1, eff_bind at 1.
    destruct (count_loop (R := list unit) (fun r => r ++ [tt]) (fun _ index result =>
      b ← counting index; mret (inl (result ++ [b]))) 0 (seqZ 0 k) [] calls) as [r Hr]; [done|].
    exists r. rewrite Hr, length_seqZ. cbn. f_equal. lia. }
  destruct (Ht (Z.min (int n) 4294967295) 0) as [r Hr]; [lia|].
  unfold mbind at 1, eff_bind at 1. rewrite Hr. unfold mbind at 1, eff_bind at 1.
  destruct (count_loop (R := unit) (fun _ => tt) (fun _ index _ => _ ← counting index; mret (inl tt)) 0
    (seqZ (4294967295 + 1) (int n - 4294967295 - (4294967295 + 1))) tt (0 + Z.min (int n) 4294967295))
    as [u Hu]; [done|].
  rewrite Hu, length_seqZ. cbn. lia.
Qed.

Lemma times_calls_witness :
  snd (times (H := plain_host) (Number (num 8589934590)) counting 0) = 4294967295.
Proof.
  rewrite (times_calls (H := plain_host) (Number (num 8589934590))).
  - vm_compute. reflexivity.
  - vm_compute. split; discriminate.
Defined.
