(* ===== verification/LodashFlatten.v ===== *)
(** * lodash.js: nested arrays, zipping, ranges and samples

    [flatten] and its relatives read arrays inside arrays: the model is given which
    values are flattenable and what they hold.  A flatten call may recurse as deep as
    the nesting, so it carries a stack depth; running out of it is [None].  [zip],
    [range], [sample] and [shuffle] of [immer/extra/js/lib/lodash.js] follow. *)

From S2P Require Import Prelude Js LodashLang LodashArrays LodashLists.
From Stdlib Require Import SpecFloat.

Lemma mapM_ext_Some {A B} (f : A -> B) (g : A -> option B) l :
  (forall x, g x = Some (f x)) -> mapM g l = Some (List.map f l).
Proof. intros Hg. induction l as [|x l IH]; [done|]. cbn. by rewrite Hg, IH. Qed.

(** ** Flattening *)

Section flatten.
(** [isFlattenable] (or the predicate of the call) and the elements of such a value. *)
Variable predicate : value -> bool.
Variable contents : value -> list value.

(** A depth: a number of levels or [Infinity]. *)
Definition depth_gt (depth : option Z) (n : Z) : bool :=
  match depth with Some d => n <? d | None => true end.

Fixpoint baseFlatten (fuel : nat) (array : list value) (depth : option Z) (isStrict : bool)
    (result : list value) {struct fuel} : option (list value) :=
  (fix go (array result : list value) {struct array} : option (list value) :=
     match array with
     | [] => Some result
     | v :: rest =>
         if depth_gt depth 0 && predicate v then
           if depth_gt depth 1 then
             match fuel with
             | O => None
             | S fuel =>
                 match baseFlatten fuel (contents v) ((fun d => d - 1) <$> depth) isStrict result with
                 | Some result => go rest result
                 | None => None
                 end
             end
           else go rest (arrayPush result (contents v))
         else go rest (if isStrict then result else result ++ [v])
     end) array result.

Section public.
Context `{JsHost}.
Variable fuel : nat.

Definition flatten (array : option (list value)) : option (list value) :=
  match array with Some (v :: l) => baseFlatten fuel (v :: l) (Some 1) false [] | _ => Some [] end.

Definition flattenDeep (array : option (list value)) : option (list value) :=
  match array with Some (v :: l) => baseFlatten fuel (v :: l) None false [] | _ => Some [] end.

Definition flattenDepth (array : option (list value)) (depth : value) : option (list value) :=
  match array with
  | Some (v :: l) =>
      let depth := if is_undefined depth then 1 else int depth in
      baseFlatten fuel (v :: l) (Some depth) false []
  | _ => Some []
  end.

(** The arguments of [concat]. *)
Definition _concat (arguments : list value) : option (list value) :=
  match arguments with
  | [] => Some []
  | array :: args =>
      flat ← baseFlatten fuel args (Some 1) false [];
      Some (arrayPush (if isArray array then copyArray (contents array) None else [array]) flat)
  end.

End public.

(** ** A reference for flattening: what one value turns into *)

Fixpoint flat (fuel : nat) (depth : option Z) (v : value) {struct fuel} : option (list value) :=
  if depth_gt depth 0 && predicate v then
    if depth_gt depth 1 then
      match fuel with
      | O => None
      | S fuel => @concat value <$> mapM (flat fuel ((fun d => d - 1) <$> depth)) (contents v)
      end
    else Some (contents v)
  else Some [v].

(** One element of a call. *)
Definition flatten_one (fuel : nat) (depth : option Z) (isStrict : bool) (v : value) (result : list value) :
    option (list value) :=
  if depth_gt depth 0 && predicate v then
    if depth_gt depth 1 then
      match fuel with
      | O => None
      | S fuel => baseFlatten fuel (contents v) ((fun d => d - 1) <$> depth) isStrict result
      end
    else Some (arrayPush result (contents v))
  else Some (if isStrict then result else result ++ [v]).

Lemma baseFlatten_nil fuel depth isStrict result : baseFlatten fuel [] depth isStrict result = Some result.
Proof. by destruct fuel. Qed.

Lemma baseFlatten_cons fuel v array depth isStrict result :
  baseFlatten fuel (v :: array) depth isStrict result
  = flatten_one fuel depth isStrict v result ≫= baseFlatten fuel array depth isStrict.
Proof.
  unfold flatten_one. destruct fuel as [|fuel]; cbn [baseFlatten];
    destruct (depth_gt depth 0 && predicate v); [destruct (depth_gt depth 1); done|done| |done].
  destruct (depth_gt depth 1); [|done]. by destruct (baseFlatten fuel _ _ _ _).
Qed.

Lemma flat_unfold fuel depth v :
  flat fuel depth v =
  if depth_gt depth 0 && predicate v then
    if depth_gt depth 1 then
      match fuel with
      | O => None
      | S fuel => @concat value <$> mapM (flat fuel ((fun d => d - 1) <$> depth)) (contents v)
      end
    else Some (contents v)
  else Some [v].
Proof. by destruct fuel. Qed.

Lemma baseFlatten_acc fuel array depth result :
  baseFlatten fuel array depth false result
  = (fun ls => result ++ concat ls) <$> mapM (flat fuel depth) array.
Proof.
  revert array depth result. induction fuel as [fuel IHf] using lt_wf_ind.
  intros array depth. induction array as [|v array IH]; intros result.
  { rewrite baseFlatten_nil. cbn. by rewrite app_nil_r. }
  rewrite baseFlatten_cons. cbn [mapM].
  assert (Hone : flatten_one fuel depth false v result = (fun l => result ++ l) <$> flat fuel depth v).
  { rewrite flat_unfold. unfold flatten_one.
    destruct (depth_gt depth 0 && predicate v); [destruct (depth_gt depth 1)|]; [|by rewrite arrayPush_app|done].
    destruct fuel as [|fuel]; [done|]. rewrite IHf by lia. by rewrite <- option_fmap_compose. }
  rewrite Hone. destruct (flat fuel depth v) as [l|]; [|done].
  cbn [fmap option_fmap option_map mbind option_bind]. rewrite IH.
  destruct (mapM (flat fuel depth) array); [|done]. cbn. by rewrite app_assoc.
Qed.

(** With a finite depth the calls nest at most that deep, whatever the arrays hold. *)
Lemma flat_depth fuel d v : d <= Z.of_nat fuel + 1 -> is_Some (flat fuel (Some d) v).
Proof.
  revert d v. induction fuel as [|fuel IH]; intros d v Hd; rewrite flat_unfold; cbn [depth_gt].
  - destruct ((0 <? d) && predicate v); [|eauto]. destruct (Z.ltb_spec 1 d); [lia|eauto].
  - destruct ((0 <? d) && predicate v); [|eauto]. destruct (Z.ltb_spec 1 d); [|eauto].
    apply fmap_is_Some, mapM_is_Some, Forall_forall. intros x _. apply IH. lia.
Qed.

(** With no bound on the depth they nest as deep as the arrays do: [rank] goes down
    from an array to its elements. *)
Lemma flat_rank (rank : value -> nat) fuel v :
  (forall v x, predicate v = true -> x ∈ contents v -> (rank x < rank v)%nat) ->
  (rank v < fuel)%nat -> is_Some (flat fuel None v).
Proof.
  intros Hr. revert v. induction fuel as [|fuel IH]; intros v Hv; [lia|].
  rewrite flat_unfold. cbn [depth_gt andb]. destruct (predicate v) eqn:E; [|eauto].
  apply fmap_is_Some, mapM_is_Some, Forall_forall. intros x Hx. apply IH.
  specialize (Hr v x E Hx). lia.
Qed.

(** Nothing flattenable is left. *)
Lemma flat_deep_leaves fuel v l : flat fuel None v = Some l -> Forall (fun x => predicate x = false) l.
Proof.
  revert v l. induction fuel as [|fuel IH]; intros v l; rewrite flat_unfold; cbn [depth_gt andb];
    (destruct (predicate v) eqn:E; [|intros [= <-]; by apply Forall_singleton]); [done|].
  intros (ls & Hls & ->)%fmap_Some. apply Forall_concat. apply mapM_Some in Hls.
  induction Hls as [|x l' xs ls Hx _ IHl]; constructor; eauto.
Qed.

(** The fuel does not matter once there is enough. *)
Lemma flat_mono fuel fuel' depth v l :
  (fuel <= fuel')%nat -> flat fuel depth v = Some l -> flat fuel' depth v = Some l.
Proof.
  revert fuel' depth v l. induction fuel as [|fuel IH]; intros fuel' depth v l Hle;
    rewrite !flat_unfold; (destruct (depth_gt depth 0 && predicate v); [|done]);
    (destruct (depth_gt depth 1); [|done]); [done|].
  destruct fuel' as [|fuel']; [lia|]. intros (ls & Hls & ->)%fmap_Some.
  apply fmap_Some. exists ls. split; [|done]. apply mapM_Some in Hls. apply mapM_Some.
  eapply Forall2_impl; [exact Hls|]. cbn. intros x l' Hx. apply IH; [lia|done].
Qed.

(** What a value turns into when [d] levels are flattened. *)
Fixpoint flatd (d : nat) (v : value) : list value :=
  match d with
  | O => [v]
  | S d => if predicate v then concat (List.map (flatd d) (contents v)) else [v]
  end.

Lemma concat_singletons (l : list value) : concat (List.map (fun x => [x]) l) = l.
Proof. induction l as [|x l IH]; [done|]. cbn. by rewrite IH. Qed.

Lemma flat_flatd fuel d v : d <= Z.of_nat fuel + 1 -> flat fuel (Some d) v = Some (flatd (Z.to_nat d) v).
Proof.
  revert d v. induction fuel as [|fuel IH]; intros d v Hd; rewrite flat_unfold; cbn [depth_gt fmap option_fmap option_map];
    (destruct (Z.ltb_spec 0 d); [|by replace (Z.to_nat d) with O by lia]);
    replace (Z.to_nat d) with (S (Z.to_nat (d - 1))) by lia; cbn [andb flatd];
    (destruct (predicate v); [|done]); (destruct (Z.ltb_spec 1 d);
      [try lia|replace (Z.to_nat (d - 1)) with O by lia; cbn; by rewrite concat_singletons]).
  rewrite (mapM_ext_Some (flatd (Z.to_nat (d - 1)))); [done|]. intros x. apply IH. lia.
Qed.

(** Flattening by [d] levels and then by [k] more is flattening by [d + k]. *)
Lemma flatd_compose d k v : concat (List.map (flatd k) (flatd d v)) = flatd (d + k) v.
Proof.
  revert v. induction d as [|d IH]; intros v; cbn; [apply app_nil_r|].
  destruct (predicate v) eqn:E.
  - induction (contents v) as [|c cs IHc]; [done|]. cbn. rewrite map_app, concat_app, IH. by f_equal.
  - cbn. rewrite app_nil_r. destruct k; cbn; [done|by rewrite E].
Qed.

Lemma flatd_compose_list d k l :
  concat (List.map (flatd k) (concat (List.map (flatd d) l))) = concat (List.map (flatd (d + k)) l).
Proof.
  induction l as [|v l IH]; [done|]. cbn. rewrite map_app, concat_app, flatd_compose. by f_equal.
Qed.

Section correct.
Context `{JsHost}.

(** [flattenDepth] always comes to an end, even on arrays that contain themselves,
    and flattens exactly the requested number of levels, so that flattening again by
    [k] is flattening by [k] more; [flattenDeep] comes to an end on arrays nested to
    a finite rank and leaves nothing flattenable, in the order of the elements. *)
Theorem flatten_correct (fuel : nat) (l : list value) (depth : value) (rank : value -> nat) :
  is_undefined depth = false -> int depth <= Z.of_nat fuel ->
  (forall v x, predicate v = true -> x ∈ contents v -> (rank x < rank v)%nat) ->
  Forall (fun v => (rank v < fuel)%nat) l ->
  let d := Z.to_nat (int depth) in
  flattenDepth fuel (Some l) depth = Some (concat (List.map (flatd d) l)) /\
  (forall k, concat (List.map (flatd k) (concat (List.map (flatd d) l))) = concat (List.map (flatd (d + k)) l)) /\
  exists r, flattenDeep fuel (Some l) = Some r /\ Forall (fun x => predicate x = false) r.
Proof.
  intros Hu Hd Hr Hl d. split_and!; [|intros k; apply flatd_compose_list|].
  - unfold flattenDepth. destruct l as [|v l]; [done|]. rewrite Hu, baseFlatten_acc.
    rewrite (mapM_ext_Some (flatd d)); [done|]. intros x. apply flat_flatd. lia.
  - unfold flattenDeep. destruct l as [|v l]; [by exists []|]. rewrite baseFlatten_acc.
    destruct (mapM_is_Some_2 (flat fuel None) (v :: l)) as [ls Hls].
    { eapply Forall_impl; [exact Hl|]. intros x Hx. by eapply flat_rank. }
    rewrite Hls. exists (concat ls). split; [done|]. apply Forall_concat. apply mapM_Some in Hls.
    clear -Hls. induction Hls as [|x l' xs ls Hx _ IHl]; constructor; eauto using flat_deep_leaves.
Qed.

End correct.
End flatten.

Definition ex_contents (v : value) : list value :=
  match v with
  | Ref ClsArray 1 => [Number (num 1); Ref ClsArray 2]
  | Ref ClsArray 2 => [Number (num 2); Ref ClsArray 3]
  | _ => []
  end.
Definition ex_rank (v : value) : nat :=
  match v with Ref ClsArray 1 => 3 | Ref ClsArray 2 => 2 | Ref ClsArray 3 => 1 | _ => 0 end%nat.

Lemma flatten_correct_witness :
  flattenDepth isArray ex_contents (H := plain_host) 4 (Some [Ref ClsArray 1; Null]) (Number (num 2))
    = Some [Number (num 1); Number (num 2); Ref ClsArray 3; Null].
Proof.
  destruct (flatten_correct isArray ex_contents (H := plain_host) 4 [Ref ClsArray 1; Null] (Number (num 2)) ex_rank)
    as [Hd _].
  - reflexivity.
  - vm_compute. discriminate.
  - intros v x _ Hx. destruct v as [| | | | | |[] i]; try (by apply elem_of_nil in Hx).
    destruct i as [|[[]|[]|]|]; cbn in Hx; try (by apply elem_of_nil in Hx);
      repeat (apply elem_of_cons in Hx as [->|Hx]); try (by apply elem_of_nil in Hx); vm_compute; lia.
  - repeat apply Forall_cons_2; try apply Forall_nil_2; vm_compute; lia.
  - rewrite Hd. vm_compute. reflexivity.
Defined.

(** ** Zipping *)

(** A group is an array-like object, or something else that is left out. *)
Definition unzip (array : list (option (list value))) : list (list value) :=
  if len array =? 0 then [] else
  let '(groups, length) :=
    ended (loop (R := list (list value) * Z) (fun _ group '(groups, length) =>
      inl (match group with
           | Some g => (groups ++ [g], Z.max (len g) length)
           | None => (groups, length)
           end)) 0 array ([], 0)) in
  run_pure [] (baseTimes length (fun index => arrayMap groups (fun g _ _ => mret g.[index]))).

Definition unzipWith {S : Type} (array : list (option (list value))) (iteratee : option (func S)) :
    eff S (list (value + list value)) :=
  if len array =? 0 then mret [] else
  let result := unzip array in
  match iteratee with
  | None => mret (List.map inr result)
  | Some iteratee => arrayMap result (fun group _ _ => v ← apply iteratee Undefined group; mret (inl v))
  end.

Definition zip (arrays : list (option (list value))) : list (list value) := unzip arrays.

Lemma baseTimes_pure {S B} (n : Z) (f : Z -> B) (iteratee : Z -> eff S B) :
  (forall i, iteratee i ≈ mret (f i)) -> baseTimes n iteratee ≈ mret (List.map f (seqZ 0 n)).
Proof.
  intros Hf. unfold baseTimes. erewrite eff_bind_pure.
  2:{ apply (eloop_pure (fun _ i result => inl (result ++ [f i]))).
      intros i x a. by apply (eff_bind_pure _ (f x)). }
  rewrite (loop_foldl (fun i a => a ++ [f i])) by done. cbn [ended]. by rewrite collect_all.
Qed.

Lemma unzip_loop (groups acc : list (list value)) (m i : Z) :
  loop (R := list (list value) * Z) (fun _ group '(groups, length) =>
      inl (match group with
           | Some g => (groups ++ [g], Z.max (len g) length)
           | None => (groups, length)
           end)) i (List.map Some groups) (acc, m)
  = inl (acc ++ groups, foldl (fun m g => Z.max (len g) m) m groups).
Proof.
  revert acc m i. induction groups as [|g groups IH]; intros acc m i; cbn; [by rewrite app_nil_r|].
  by rewrite IH, <- app_assoc.
Qed.

Lemma unzip_spec (groups : list (list value)) (n : nat) :
  groups <> [] -> Forall (fun g => length g = n) groups ->
  unzip (List.map Some groups) = List.map (fun i => List.map (fun g : list value => g.[i]) groups) (seqZ 0 (Z.of_nat n)).
Proof.
  intros Hne Hn. unfold unzip. rewrite length_map.
  destruct groups as [|g0 groups]; [done|]. change (len (g0 :: groups) =? 0) with false. cbv iota.
  set (gs := g0 :: groups) in *. rewrite unzip_loop. cbn [ended app].
  apply run_pure_ret. rewrite baseTimes_pure with (f := fun i => List.map (fun g : list value => g.[i]) gs).
  2:{ intros i. apply (arrayMap_pure (fun g : list value => g.[i])). done. }
  do 3 f_equiv. apply Forall_cons in Hn as [Hg Hn]. unfold gs. cbn [foldl].
  rewrite Hg, Z.max_l by lia. clear -Hn. induction Hn as [|g gs Hg _ IH]; [done|]. cbn.
  by rewrite Hg, Z.max_id.
Qed.

Lemma at_index_map {A} (f : A -> value) (l : list A) (i : nat) x :
  l !! i = Some x -> (List.map f l).[Z.of_nat i] = f x.
Proof.
  intros Hx. apply at_index_lookup; [lia|]. rewrite Nat2Z.id.
  change (List.map f l) with (f <$> l). by rewrite list_lookup_fmap, Hx.
Qed.

Lemma read_all (g : list value) (n : nat) :
  length g = n -> List.map (fun i => g.[i]) (seqZ 0 (Z.of_nat n)) = g.
Proof.
  intros <-. apply list_eq. intros i. change (List.map ?f ?x) with (f <$> x). rewrite list_lookup_fmap.
  destruct (g !! i) as [x|] eqn:Hx.
  - rewrite (proj2 (lookup_seqZ 0 (len g) i (Z.of_nat i))) by (apply lookup_lt_Some in Hx; lia).
    cbn. f_equal. apply at_index_lookup; [lia|]. by rewrite Nat2Z.id.
  - destruct (seqZ 0 (len g) !! i) as [z|] eqn:E; [|done].
    apply lookup_seqZ in E. apply lookup_ge_None in Hx. lia.
Qed.

(** [zip] and [unzip] undo each other: regrouping non-empty arrays of one length by
    position and regrouping the result gives the arrays back. *)
Theorem zip_unzip (groups : list (list value)) (n : nat) :
  groups <> [] -> (0 < n)%nat -> Forall (fun g => length g = n) groups ->
  unzip (List.map Some (zip (List.map Some groups))) = groups.
Proof.
  intros Hne Hn Hg. unfold zip. rewrite (unzip_spec groups n) by done.
  set (cols := List.map _ (seqZ 0 (Z.of_nat n))).
  assert (Hcols : Forall (fun c => length c = length groups) cols).
  { unfold cols. apply Forall_map, Forall_forall. intros i _. apply length_map. }
  rewrite (unzip_spec cols (length groups)); [| |done].
  2:{ intros E. apply (f_equal length) in E. unfold cols in E. rewrite length_map, length_seqZ in E.
      cbn in E. lia. }
  transitivity (List.map (fun i => default [] (groups !! Z.to_nat i)) (seqZ 0 (len groups))).
  - apply map_ext_in. intros i Hi. apply list_elem_of_In, elem_of_seqZ in Hi.
    destruct (lookup_lt_is_Some_2 groups (Z.to_nat i)) as [g Hgi]; [lia|]. rewrite Hgi. cbn.
    unfold cols. rewrite map_map. rewrite Forall_forall in Hg.
    rewrite <- (read_all g n) at 1 by (apply Hg; by eapply list_elem_of_lookup_2).
    apply map_ext. intros j. replace i with (Z.of_nat (Z.to_nat i)) at 1 by lia.
    by rewrite (at_index_map (fun g : list value => g.[j]) groups _ g).
  - clear. apply list_eq. intros i. change (List.map ?f ?x) with (f <$> x). rewrite list_lookup_fmap.
    destruct (groups !! i) as [g|] eqn:Hg.
    + rewrite (proj2 (lookup_seqZ 0 (len groups) i (Z.of_nat i))) by (apply lookup_lt_Some in Hg; lia).
      cbn. by rewrite Nat2Z.id, Hg.
    + destruct (seqZ 0 (len groups) !! i) as [z|] eqn:E; [|done].
      apply lookup_seqZ in E. apply lookup_ge_None in Hg. lia.
Qed.

Lemma zip_unzip_witness :
  unzip (List.map Some (zip [Some [Null; Undefined; Number (num 1)]; Some [Number nan; Null; Null]]))
    = [[Null; Undefined; Number (num 1)]; [Number nan; Null; Null]].
Proof.
  apply (zip_unzip [[Null; Undefined; Number (num 1)]; [Number nan; Null; Null]] 3).
  - discriminate.
  - lia.
  - repeat apply Forall_cons_2; try apply Forall_nil_2; reflexivity.
Defined.

(** ** Ranges *)

Fixpoint range_loop (n : nat) (start step : number) : list number :=
  match n with
  | O => []
  | S n => start :: range_loop n (nadd start step) step
  end.

(** [Array(length)] throws on a length that is not an array length. *)
Definition baseRange (start end_ step : number) (fromRight : bool) : result exn (list number) :=
  let q := ndiv (nsub end_ start) (if truthy (Number step) then step else num 1) in
  if negb (is_finite q) then Throw RangeError else
  let length := Z.max (ceil q) 0 in
  if MAX_ARRAY_LENGTH <? length then Throw RangeError else
  let result := range_loop (Z.to_nat length) start step in
  Ok (if fromRight then rev result else result).

Definition createRange `{JsHost} (fromRight : bool) (start end_ step : value) (isCall : bool) :
    result exn (list number) :=
  let '(end_, step) :=
    if truthy step && negb (bool_decide (typeof step = TNumber)) && isCall
    then (Undefined, Undefined) else (end_, step) in
  let start := toFinite start in
  let '(start, end_) := if is_undefined end_ then (num 0, start) else (start, toFinite end_) in
  let step := if is_undefined step then (if nltb start end_ then num 1 else num (-1)) else toFinite step in
  baseRange start end_ step fromRight.

(** ** Random samples *)

Section random.
Context {S : Type}.
(** [Math.random]. *)
Variable nativeRandom : eff S number.

Definition baseRandom (lower upper : Z) : eff S Z :=
  r ← nativeRandom;
  mret (lower + floor (nmul r (num (upper - lower + 1)))).

Definition sample (array : list value) : eff S value :=
  if 0 <? len array then i ← baseRandom 0 (len array - 1); mret array.[i] else mret Undefined.

(** The loop of [sampleSize], on a copy of the collection. *)
Definition sample_step (lastIndex : Z) (index : Z) (result : list value) : eff S (list value) :=
  rand ← baseRandom index lastIndex;
  let v := result.[rand] in
  mret (set_index (set_index result rand result.[index]) index v).

Definition sampleSize `{JsHost} (collection : list value) (n : value) (isCall : option bool) : eff S (list value) :=
  let result := collection in
  let length := len result in
  let n := if (match isCall with Some b => b | None => is_undefined n end) then 1
           else Z.max 0 (Z.min (int n) length) in
  r ← eloop (R := list value) (fun _ index result =>
    result ← sample_step (length - 1) index result; mret (inl result)) 0 (seqZ 0 n) result;
  mret (take (Z.to_nat n) (ended r)).

Definition shuffle `{JsHost} (collection : list value) : eff S (list value) :=
  sampleSize collection (Number (num MAX_ARRAY_LENGTH)) None.

End random.

Lemma insert_swap_one (l : list value) i x y : l !! i = Some x -> x :: <[i:=y]> l ≡ₚ y :: l.
Proof.
  intros Hx. pose proof (lookup_lt_Some _ _ _ Hx) as Hi.
  rewrite insert_take_drop by done. rewrite <- (take_drop_middle l i x Hx) at 3.
  rewrite <- !Permutation_middle. apply Permutation_swap.
Qed.

Lemma insert_swap (l : list value) i j x y :
  l !! i = Some x -> l !! j = Some y -> <[i:=y]> (<[j:=x]> l) ≡ₚ l.
Proof.
  intros Hx Hy. destruct (decide (i = j)) as [->|Hne].
  - simplify_eq. by rewrite !list_insert_id by (by rewrite ?list_insert_id).
  - apply (Permutation_cons_inv (a := x)). rewrite insert_swap_one; [by apply insert_swap_one|].
    by rewrite list_lookup_insert_ne.
Qed.

Section random_laws.
Context {S : Type} `{JsHost}.
Variable nativeRandom : eff S number.

(** [Math.random] never throws and a draw falls between its bounds. *)
Definition draws_in_range : Prop :=
  forall lower upper σ, lower <= upper ->
    exists i σ', baseRandom nativeRandom lower upper σ = (Ok i, σ') /\ lower <= i <= upper.

Lemma set_index_insert (l : list value) i v : 0 <= i < len l -> set_index l i v = <[Z.to_nat i:=v]> l.
Proof. intros Hi. unfold set_index. destruct (Z.ltb_spec i (len l)); [done|lia]. Qed.

Lemma sample_step_permutes (l : list value) index σ :
  draws_in_range -> 0 <= index < len l ->
  exists l' σ', sample_step nativeRandom (len l - 1) index l σ = (Ok l', σ') /\ l' ≡ₚ l.
Proof.
  intros Hd Hi. destruct (Hd index (len l - 1) σ) as (r & σ' & Hr & Hb); [lia|].
  unfold sample_step, mbind, eff_bind. rewrite Hr. cbn.
  eexists _, σ'. split; [done|].
  destruct (lookup_lt_is_Some_2 l (Z.to_nat r)) as [x Hx]; [lia|].
  destruct (lookup_lt_is_Some_2 l (Z.to_nat index)) as [y Hy]; [lia|].
  rewrite (at_index_lookup l r x), (at_index_lookup l index y) by (done || lia).
  rewrite (set_index_insert l) by lia. rewrite set_index_insert by (rewrite length_insert; lia).
  by apply insert_swap.
Qed.

Lemma sample_loop_permutes (l : list value) i ks σ :
  draws_in_range -> Forall (fun i => 0 <= i < len l) ks ->
  exists l' σ', eloop (R := list value) (fun _ index result =>
      result ← sample_step nativeRandom (len l - 1) index result; mret (inl result)) i ks l σ
    = (Ok (inl l'), σ') /\ l' ≡ₚ l.
Proof.
  intros Hd Hi. remember (len l) as n eqn:Hn. revert l i σ Hn.
  induction Hi as [|j ks Hj _ IH]; intros l i σ Hn; [by exists l, σ|].
  destruct (sample_step_permutes l j σ Hd) as (l1 & σ1 & H1 & Hp1); [lia|]. rewrite <- Hn in H1.
  destruct (IH l1 (i + 1) σ1) as (l2 & σ2 & H2 & Hp2); [by rewrite Hp1|].
  exists l2, σ2. split; [|by rewrite Hp2].
  cbn. unfold mbind at 1, eff_bind at 1. unfold mbind at 1, eff_bind at 1. rewrite H1. apply H2.
Qed.

(** Whatever the random source draws, [shuffle] answers a permutation of the
    collection and [sampleSize] the requested number of its elements, at distinct
    positions, all of them when more are asked for. *)
Theorem shuffle_permutes (l : list value) (n : value) (σ : S) :
  draws_in_range -> array_size l -> is_undefined n = false ->
  (exists l' σ', shuffle nativeRandom l σ = (Ok l', σ') /\ l' ≡ₚ l) /\
  exists l' σ', sampleSize nativeRandom l n None σ = (Ok l', σ') /\ l' ⊆+ l /\
    len l' = Z.max 0 (Z.min (int n) (len l)).
Proof.
  intros Hd Hl Hn.
  assert (Hs : forall n, is_undefined n = false ->
    exists l' σ', sampleSize nativeRandom l n None σ = (Ok (take (Z.to_nat (Z.max 0 (Z.min (int n) (len l)))) l'), σ') /\
      l' ≡ₚ l).
  { clear n Hn. intros n Hn. unfold sampleSize. rewrite Hn.
    destruct (sample_loop_permutes l 0 (seqZ 0 (Z.max 0 (Z.min (int n) (len l)))) σ Hd) as (l' & σ' & He & Hp).
    { apply Forall_forall. intros i Hi%elem_of_seqZ. lia. }
    exists l', σ'. split; [|done]. unfold mbind at 1, eff_bind at 1. rewrite He. done. }
  split.
  - unfold shuffle. destruct (Hs (Number (num MAX_ARRAY_LENGTH)) eq_refl) as (l' & σ' & He & Hp).
    exists l', σ'. split; [|done]. rewrite He. rewrite take_ge; [done|].
    replace (int (Number (num MAX_ARRAY_LENGTH))) with MAX_ARRAY_LENGTH by (vm_compute; reflexivity).
    rewrite Hp. unfold array_size in Hl. lia.
  - destruct (Hs n Hn) as (l' & σ' & He & Hp). eexists _, σ'. split; [exact He|]. split.
    + transitivity l'; [apply sublist_submseteq, sublist_take|by apply Permutation_submseteq].
    + rewrite length_take, (Permutation_length Hp). lia.
Qed.

End random_laws.

(** A source that always draws zero. *)
Definition zero_source : eff unit number := mret (num 0).

Lemma zero_in_range : draws_in_range zero_source.
Proof.
  intros lower upper σ Hle. exists lower, σ. split; [|lia].
  unfold baseRandom, zero_source, mbind, eff_bind, mret, eff_ret. do 2 f_equal.
  change (num 0) with (S754_zero false). unfold nmul. cbn [SFmul].
  destruct (num (upper - lower + 1)); cbn [floor trunc]; lia.
Qed.

Lemma shuffle_permutes_witness :
  exists l' σ', shuffle zero_source (H := plain_host) [Null; Undefined; Boolean true] tt = (Ok l', σ') /\
    l' ≡ₚ [Null; Undefined; Boolean true].
Proof.
  apply (shuffle_permutes (H := plain_host) zero_source [Null; Undefined; Boolean true] (Number (num 2)) tt).
  - exact zero_in_range.
  - vm_compute. discriminate.
  - reflexivity.
Defined.

(** With no count, an empty collection is sampled all the same. *)
Lemma sampleSize_empty `{JsHost} : fst (sampleSize zero_source [] Undefined None tt) = Ok [Undefined].
Proof. reflexivity. Qed.
