(* ===== verification/LodashPull.v ===== *)
(** * lodash.js: removing elements in place

    [pull], [pullAll], [pullAt], [remove] and [reverse] of
    [immer/extra/js/lib/lodash.js] change the array they are given; the model passes
    the array through. *)

From S2P Require Import Prelude Js LodashLang LodashArrays LodashCaches LodashSets LodashLists.
From Stdlib Require Import SpecFloat.

Section pull.
Context {S : Type}.

(** [while ((fromIndex = indexOf(seen, computed, fromIndex, comparator)) > -1)]: each turn
    removes one element, so the length of the array bounds the turns.  [seen] is the
    array itself, or the list of its mapped elements ([Some]). *)
Fixpoint pull_loop (fuel : nat) (comparator : option (value -> value -> eff S value)) (computed : value)
    (fromIndex : Z) (array : list value) (seen : option (list value)) :
    eff S (list value * option (list value)) :=
  match fuel with
  | O => mret (array, seen)
  | Datatypes.S fuel =>
      let s := default array seen in
      fromIndex ← match comparator with
                  | Some c => baseIndexOfWith s computed fromIndex c
                  | None => mret (baseIndexOf s computed fromIndex)
                  end;
      if -1 <? fromIndex then
        pull_loop fuel comparator computed fromIndex (splice1 array fromIndex)
          ((fun s => splice1 s fromIndex) <$> seen)
      else mret (array, seen)
  end.

Definition basePullAll (array values : list value) (iteratee : option (value -> eff S value))
    (comparator : option (value -> value -> eff S value)) : eff S (list value) :=
  seen ← match iteratee with
         | Some f => s ← arrayMap array (fun v _ _ => baseUnary f v); mret (Some s)
         | None => mret None
         end;
  r ← eloop (R := list value * option (list value)) (fun _ v '(array, seen) =>
    computed ← match iteratee with Some f => f v | None => mret v end;
    r ← pull_loop (Datatypes.S (length array)) comparator computed 0 array seen;
    mret (inl r)) 0 values (array, seen);
  mret (fst (ended r)).

(** A nullish array is [None] and is answered as it is. *)
Definition pullAll (array values : option (list value)) : eff S (option (list value)) :=
  match array, values with
  | Some (a :: l), Some (v :: vs) => r ← basePullAll (a :: l) (v :: vs) None None; mret (Some r)
  | _, _ => mret array
  end.

Definition pullAllBy (array values : option (list value)) (iteratee : value -> eff S value) :
    eff S (option (list value)) :=
  match array, values with
  | Some (a :: l), Some (v :: vs) => r ← basePullAll (a :: l) (v :: vs) (Some iteratee) None; mret (Some r)
  | _, _ => mret array
  end.

Definition pullAllWith (array values : option (list value)) (comparator : option (value -> value -> eff S value)) :
    eff S (option (list value)) :=
  match array, values with
  | Some (a :: l), Some (v :: vs) => r ← basePullAll (a :: l) (v :: vs) None comparator; mret (Some r)
  | _, _ => mret array
  end.

Definition pull (array : option (list value)) (values : list value) : eff S (option (list value)) :=
  pullAll array (Some values).

(** The indexes are numbers; deleting a property that is not an index leaves the
    elements alone. *)
Definition basePullAt (array : list value) (indexes : list Z) : list value :=
  fst (ended (loop_right (R := list value * option Z) (fun _ index '(array, previous) =>
    inl (if match previous with None => true | Some p => negb (index =? p) end
         then (if (0 <=? index) && (index <? MAX_SAFE_INTEGER) then splice1 array index else array, Some index)
         else (array, previous))) 0 indexes (array, None))).

Definition pullAt (array : list value) (indexes : list Z) : list value * list value :=
  let result := List.map (fun i => array.[i]) indexes in
  (result, basePullAt array (js_sort (fun i j => i - j) indexes)).

Definition remove (array : option (list value)) (predicate : callback S value) :
    eff S (list value * option (list value)) :=
  match array with
  | Some (a :: l) =>
      r ← eloop (R := list value * list Z) (fun index v '(result, indexes) =>
        p ← predicate v index (a :: l);
        mret (inl (if truthy p then (result ++ [v], indexes ++ [index]) else (result, indexes))))
        0 (a :: l) ([], []);
      let '(result, indexes) := ended r in
      mret (result, Some (basePullAt (a :: l) indexes))
  | _ => mret ([], array)
  end.

End pull.

Definition _reverse (array : option (list value)) : option (list value) := (@rev value) <$> array.

(** ** Pulling values *)

(** Removing one after the other the elements whose key is found from an index on. *)
Fixpoint remove_from (fuel : nat) (f : value -> value) (k : value) (from : Z) (l : list value) : list value :=
  match fuel with
  | O => l
  | S fuel => let i := baseIndexOf (List.map f l) k from in
              if -1 <? i then remove_from fuel f k i (splice1 l i) else l
  end.

Lemma filter_none (p : value -> bool) l : (forall x, x ∈ l -> p x = true) -> List.filter p l = l.
Proof.
  induction l as [|x l IH]; intros Hp; [done|]. cbn. rewrite Hp by left. f_equal. apply IH.
  intros y Hy. apply Hp. by right.
Qed.

Lemma map_at_index (f : value -> value) l i x : 0 <= i -> l !! Z.to_nat i = Some x -> (List.map f l).[i] = f x.
Proof.
  intros Hi Hx. apply at_index_lookup; [done|]. change (List.map f l) with (f <$> l).
  by rewrite list_lookup_fmap, Hx.
Qed.

Lemma remove_from_filter fuel f k from l :
  0 <= from -> len l - from < Z.of_nat fuel ->
  remove_from fuel f k from l
  = take (Z.to_nat from) l ++ List.filter (fun x => negb (eq (f x) k)) (drop (Z.to_nat from) l).
Proof.
  revert from l. induction fuel as [|fuel IH]; intros from l Hf Hfuel.
  { cbn. rewrite drop_ge by lia. cbn. rewrite app_nil_r, take_ge; [done|lia]. }
  assert (Hel : forall j x, l !! j = Some x -> eq (List.map f l).[Z.of_nat j] k = eq (f x) k).
  { intros j x Hx. f_equal. apply map_at_index; [lia|]. by rewrite Nat2Z.id. }
  cbn [remove_from]. destruct (baseIndexOf_range (List.map f l) k from Hf) as [[Hi Hno]|(Hr & Hk & Hno)];
    rewrite length_map in *.
  - rewrite Hi. change (-1 <? -1) with false. cbv iota.
    rewrite filter_none; [by rewrite take_drop|].
    intros x (j & Hj)%list_elem_of_lookup. rewrite lookup_drop in Hj.
    rewrite negb_true_iff, <- (Hel _ _ Hj). apply Hno. apply lookup_lt_Some in Hj. lia.
  - set (i := baseIndexOf (List.map f l) k from) in *. destruct (Z.ltb_spec (-1) i); [|lia].
    assert (Hlen : len (splice1 l i) = len l - 1).
    { unfold splice1. rewrite length_app, length_take, length_drop. lia. }
    rewrite IH by lia. unfold splice1.
    set (n := Z.to_nat i) in *. set (m := Z.to_nat from) in *. assert (Hnm : (m <= n < length l)%nat) by lia.
    rewrite take_app_le, take_take, Nat.min_id, drop_app_ge by (rewrite length_take; lia).
    rewrite length_take. replace (n - n `min` length l)%nat with O by lia. rewrite drop_0.
    destruct (lookup_lt_is_Some_2 l n) as [x Hx]; [lia|].
    assert (Hsplit : drop m l = take (n - m) (drop m l) ++ x :: drop (S n) l).
    { rewrite <- (take_drop (n - m) (drop m l)) at 1. f_equal. rewrite drop_drop.
      replace (m + (n - m))%nat with n by lia. by apply drop_S. }
    rewrite Hsplit, List.filter_app. cbn [List.filter].
    rewrite <- (Hel n x Hx). replace (Z.of_nat n) with i by lia. rewrite Hk. cbn [negb].
    rewrite (filter_none _ (take (n - m) (drop m l))).
    + rewrite app_assoc. f_equal. rewrite <- (take_drop m (take n l)) at 1.
      rewrite take_take, Nat.min_l by lia. f_equal. by rewrite <- skipn_firstn_comm.
    + intros y (j & Hj)%list_elem_of_lookup. apply lookup_take_Some in Hj as [Hj Hlt].
      rewrite lookup_drop in Hj. rewrite negb_true_iff, <- (Hel _ _ Hj). apply Hno. lia.
Qed.

Lemma map_splice1 (f : value -> value) l i : List.map f (splice1 l i) = splice1 (List.map f l) i.
Proof. unfold splice1. by rewrite map_app, firstn_map, skipn_map. Qed.

Section pull_laws.
Context {S : Type}.
Variable f : value -> value.
Variable iteratee : option (value -> eff S value).
Hypothesis Hf : computes f iteratee.

(** [seen] is the mapped array, or nothing when there is no iteratee. *)
Definition seen_of (array : list value) : option (list value) :=
  match iteratee with Some _ => Some (List.map f array) | None => None end.

Lemma seen_of_default array : default array (seen_of array) = List.map f array.
Proof.
  unfold computes in Hf. unfold seen_of. destruct iteratee; [done|]. cbn.
  rewrite <- (map_id array) at 1. symmetry. by apply map_ext.
Qed.

Lemma pull_loop_pure fuel k from array :
  pull_loop (S := S) fuel None k from array (seen_of array)
  ≈ mret (remove_from fuel f k from array, seen_of (remove_from fuel f k from array)).
Proof.
  revert from array. induction fuel as [|fuel IH]; intros from array; [done|].
  cbn [pull_loop remove_from]. rewrite seen_of_default.
  erewrite eff_bind_pure by reflexivity. destruct (-1 <? baseIndexOf (List.map f array) k from); [|done].
  replace ((fun s => splice1 s _) <$> seen_of array)
    with (seen_of (splice1 array (baseIndexOf (List.map f array) k from))); [apply IH|].
  unfold seen_of. destruct iteratee; [|done]. cbn. by rewrite map_splice1.
Qed.

(** The elements that stay. *)
Definition pull_ref (array values : list value) : list value :=
  List.filter (fun x => negb (existsb (fun v => eq (f x) (f v)) values)) array.

Lemma pull_ref_cons array v values :
  pull_ref (List.filter (fun x => negb (eq (f x) (f v))) array) values = pull_ref array (v :: values).
Proof.
  unfold pull_ref. induction array as [|x array IH]; [done|]. cbn [List.filter existsb] in *.
  destruct (eq (f x) (f v)) eqn:E; cbn [negb orb List.filter]; [apply IH|].
  destruct (existsb _ values); cbn [negb]; [apply IH|by rewrite IH].
Qed.

(** [pullAll] and [pullAllBy] remove in place every element whose key is the key of
    one of the values and keep the order of the others; finding and removing them one
    by one comes to an end. *)
Theorem pull_removes_all array values :
  basePullAll array values iteratee None ≈ mret (pull_ref array values).
Proof.
  unfold basePullAll.
  assert (Hseen : match iteratee with
    | Some g => s ← arrayMap array (fun v _ _ => baseUnary g v); mret (Some s)
    | None => mret None end ≈ mret (seen_of array)).
  { unfold computes in Hf. unfold seen_of. destruct iteratee as [g|]; [|done].
    erewrite eff_bind_pure; [reflexivity|]. apply arrayMap_pure. intros v _ _. apply Hf. }
  erewrite eff_bind_pure by apply Hseen. clear Hseen.
  enough (Hl : forall i array, eloop (R := list value * option (list value)) (fun _ v '(array, seen) =>
    computed ← match iteratee with Some g => g v | None => mret v end;
    r ← pull_loop (Datatypes.S (length array)) None computed 0 array seen;
    mret (inl r)) i values (array, seen_of array) ≈ mret (inl (pull_ref array values, seen_of (pull_ref array values)))).
  { by erewrite eff_bind_pure by apply Hl. }
  clear array. induction values as [|v values IH]; intros i array.
  { cbn. unfold pull_ref. by rewrite filter_none. }
  cbn [eloop]. rewrite <- pull_ref_cons.
  set (rest := List.filter (fun x => negb (eq (f x) (f v))) array).
  rewrite (eff_bind_pure _ (inl (rest, seen_of rest))); [apply IH|].
  erewrite eff_bind_pure by apply (computed_of_pure f iteratee Hf v).
  erewrite eff_bind_pure by apply pull_loop_pure.
  rewrite remove_from_filter by lia. done.
Qed.

End pull_laws.

(** ** Removing by position *)

(** The elements whose position does not satisfy [P], counting from [o]. *)
Fixpoint without_at (P : Z -> bool) (o : Z) (l : list value) : list value :=
  match l with
  | [] => []
  | x :: l => if P o then without_at P (o + 1) l else x :: without_at P (o + 1) l
  end.

Lemma without_at_ext P Q o l :
  (forall i, o <= i -> P i = Q i) -> without_at P o l = without_at Q o l.
Proof.
  revert o. induction l as [|x l IH]; intros o Hpq; [done|]. cbn. rewrite Hpq by lia.
  rewrite (IH (o + 1)); [done|]. intros i Hi. apply Hpq. lia.
Qed.

(** Removing one more position, below all the others. *)
Lemma splice_without P l o i :
  o <= i -> (forall j, P j = true -> i < j) ->
  splice1 (without_at P o l) (i - o) = without_at (fun j => (j =? i) || P j) o l.
Proof.
  revert o. induction l as [|x l IH]; intros o Ho HP.
  { unfold splice1. cbn [without_at]. by rewrite take_nil, drop_nil. }
  cbn [without_at]. assert (P o = false) as ->.
  { destruct (P o) eqn:E; [|done]. apply HP in E. lia. }
  rewrite orb_false_r. destruct (Z.eqb_spec o i) as [->|Hne].
  - rewrite Z.sub_diag. unfold splice1. cbn. rewrite drop_0. apply without_at_ext.
    intros j Hj. destruct (Z.eqb_spec j i); [lia|done].
  - rewrite <- (IH (o + 1)) by (lia || done). unfold splice1.
    replace (Z.to_nat (i - o)) with (S (Z.to_nat (i - (o + 1)))) by lia. done.
Qed.

Lemma basePullAt_spec (l : list value) (indexes : list Z) :
  StronglySorted Z.le indexes -> Forall (fun i => 0 <= i < MAX_SAFE_INTEGER) indexes ->
  basePullAt l indexes = without_at (fun j => bool_decide (j ∈ indexes)) 0 l.
Proof.
  intros Hs Hb. unfold basePullAt.
  enough (Hl : forall o, loop_right (R := list value * option Z) (fun _ index '(array, previous) =>
    inl (if match previous with None => true | Some p => negb (index =? p) end
         then (if (0 <=? index) && (index <? MAX_SAFE_INTEGER) then splice1 array index else array, Some index)
         else (array, previous))) o indexes (l, None)
    = inl (without_at (fun j => bool_decide (j ∈ indexes)) 0 l, head indexes)) by (by rewrite Hl).
  induction Hs as [|i indexes Hs IH Hi]; intros o.
  - cbn. f_equal. f_equal. clear. generalize 0. induction l as [|x l IH]; intros o; [done|]. cbn. by f_equal.
  - apply Forall_cons in Hb as [Hib Hb]. cbn [loop_right]. rewrite IH by done. rewrite Forall_forall in Hi.
    assert ((0 <=? i) && (i <? MAX_SAFE_INTEGER) = true) as -> by lia. cbn [head].
    destruct (match head indexes with None => true | Some p => negb (i =? p) end) eqn:E.
    + replace i with (i - 0) at 1 by lia. rewrite splice_without; [|lia|].
      * do 2 f_equal. apply without_at_ext. intros j _. apply Bool.eq_iff_eq_true.
        rewrite orb_true_iff, Z.eqb_eq, !bool_decide_eq_true, elem_of_cons. done.
      * intros j Hj%bool_decide_eq_true.
        destruct indexes as [|k indexes]; [by apply elem_of_nil in Hj|]. cbn in E.
        assert (i <= k) by (apply Hi; left).
        apply negb_true_iff, Z.eqb_neq in E. apply elem_of_cons in Hj as [->|Hj]; [lia|].
        apply StronglySorted_inv in Hs as [_ Hk]. rewrite Forall_forall in Hk. specialize (Hk j Hj). lia.
    + destruct indexes as [|k indexes]; [done|]. cbn in E |- *. apply negb_false_iff, Z.eqb_eq in E as ->.
      do 2 f_equal. apply without_at_ext. intros j _. apply bool_decide_ext. set_solver.
Qed.

Lemma sorted_indexes (indexes : list Z) : StronglySorted Z.le (js_sort (fun i j => i - j) indexes).
Proof.
  eapply StronglySorted_weaken; [|apply (js_sort_sorted (fun i j => i - j) (fun _ => True))].
  - unfold cmp_le. intros a b. lia.
  - unfold cmp_le. lia.
  - unfold cmp_le. lia.
  - by apply Forall_true.
Qed.

(** [pullAt] answers the elements at the given indexes, in the order they are asked
    for, and removes exactly these positions from the array, however the indexes are
    ordered and repeated. *)
Theorem pullAt_removes (l : list value) (indexes : list Z) :
  Forall (fun i => 0 <= i < MAX_SAFE_INTEGER) indexes ->
  pullAt l indexes
  = (List.map (fun i => l.[i]) indexes, without_at (fun j => bool_decide (j ∈ indexes)) 0 l).
Proof.
  intros Hb. unfold pullAt. f_equal. rewrite basePullAt_spec.
  - apply without_at_ext. intros j _. apply bool_decide_ext. by rewrite js_sort_perm.
  - apply sorted_indexes.
  - rewrite Forall_forall in *. intros i Hi. rewrite js_sort_perm in Hi. auto.
Qed.

Lemma pullAt_removes_witness :
  pullAt [Null; Undefined; Boolean true; Boolean false] [2; 0; 2]
    = ([Boolean true; Null; Boolean true], [Undefined; Boolean false]).
Proof.
  rewrite (pullAt_removes [Null; Undefined; Boolean true; Boolean false] [2; 0; 2]).
  - vm_compute. reflexivity.
  - repeat apply Forall_cons_2; try apply Forall_nil_2; vm_compute; split; congruence.
Defined.

Lemma pull_removes_all_witness :
  basePullAll (S := unit) [Number nan; Null; Number (num 1); Number nan] [Number nan] None None
    ≈ mret [Null; Number (num 1)].
Proof.
  exact (pull_removes_all (S := unit) (fun v => v) None (fun v => eq_refl)
    [Number nan; Null; Number (num 1); Number nan] [Number nan]).
Defined.

(** ** Removing by predicate *)

Section remove_laws.
Context {S : Type}.
Variable p : value -> bool.
Variable predicate : callback S value.
Hypothesis Hp : forall v i a, exists r, predicate v i a ≈ mret r /\ truthy r = p v.

(** The positions, counting from [o], of the elements that satisfy [p]. *)
Fixpoint positions (o : Z) (l : list value) : list Z :=
  match l with
  | [] => []
  | x :: l => if p x then o :: positions (o + 1) l else positions (o + 1) l
  end.

Lemma positions_range o l i : i ∈ positions o l -> o <= i < o + len l.
Proof.
  revert o. induction l as [|x l IH]; intros o; cbn [positions length]; [by intros ?%elem_of_nil|].
  destruct (p x); [intros [->|Hi]%elem_of_cons; [lia|]|intros Hi]; apply IH in Hi; lia.
Qed.

Lemma positions_sorted o l : StronglySorted Z.le (positions o l).
Proof.
  revert o. induction l as [|x l IH]; intros o; cbn; [constructor|]. destruct (p x); [|done].
  constructor; [done|]. apply Forall_forall. intros i Hi%positions_range. lia.
Qed.

Lemma without_positions o l :
  without_at (fun j => bool_decide (j ∈ positions o l)) o l = List.filter (fun x => negb (p x)) l.
Proof.
  revert o. induction l as [|x l IH]; intros o; [done|]. cbn [without_at positions List.filter].
  rewrite <- (IH (o + 1)). destruct (p x) eqn:E; cbn [negb].
  - rewrite bool_decide_eq_true_2 by left. apply without_at_ext. intros j Hj. apply bool_decide_ext.
    rewrite elem_of_cons. split; [intros [->|?]; [lia|done]|by right].
  - rewrite bool_decide_eq_false_2; [done|]. intros Hi%positions_range. lia.
Qed.

(** [remove] answers the elements that satisfy the predicate and leaves the others in
    the array, both in their order. *)
Theorem remove_partitions (l : list value) :
  array_size l ->
  remove (Some l) predicate ≈ mret (List.filter p l, Some (List.filter (fun x => negb (p x)) l)).
Proof.
  intros Hl. destruct l as [|a l]; [done|]. unfold remove. set (k := a :: l) in *.
  erewrite eff_bind_pure.
  2:{ apply (eloop_pure (fun index v '(result, indexes) =>
        inl (if p v then (result ++ [v], indexes ++ [index]) else (result, indexes)))).
      intros i x [r is']. destruct (Hp x i k) as (b & Hb & <-). by apply (eff_bind_pure _ b). }
  enough (Hloop : forall o m r is', loop (R := list value * list Z) (fun index v '(result, indexes) =>
    inl (if p v then (result ++ [v], indexes ++ [index]) else (result, indexes))) o m (r, is')
    = inl (r ++ List.filter p m, is' ++ positions o m)).
  { rewrite Hloop. cbn [ended app]. rewrite basePullAt_spec, without_positions; [done|apply positions_sorted|].
    apply Forall_forall. intros i Hi%positions_range. unfold array_size, MAX_ARRAY_LENGTH, MAX_SAFE_INTEGER in *. lia. }
  clear. intros o m. revert o. induction m as [|x m IH]; intros o r is'; cbn; [by rewrite !app_nil_r|].
  destruct (p x); rewrite IH; [by rewrite <- !app_assoc|done].
Qed.

End remove_laws.

Lemma remove_partitions_witness :
  remove (S := unit) (Some [Boolean true; Null; Number (num 3)]) (fun v _ _ => mret v)
    ≈ mret ([Boolean true; Number (num 3)], Some [Null]).
Proof.
  apply (remove_partitions (S := unit) truthy (fun v _ _ => mret v)
    (fun v i a => ex_intro _ v (conj (fun σ => eq_refl) eq_refl)) [Boolean true; Null; Number (num 3)]).
  vm_compute. discriminate.
Defined.
