(* ===== verification/LodashSort.v ===== *)
(** * lodash.js: ordering and binary search

    [compareAscending], [compareMultiple], [orderBy] and [sortBy], the binary searches
    behind [sortedIndex] and its relatives, [sortedUniq], and [max], [min], [sum] and
    [mean] of [immer/extra/js/lib/lodash.js]. *)

From S2P Require Import Prelude Js LodashLang LodashArrays.
From Stdlib Require Import SpecFloat.

Section sort.
Context `{JsHost}.

Definition compareAscending (v other : value) : Z :=
  if negb (strict_eq v other) then
    let valIsDefined := negb (is_undefined v) in
    let valIsNull := isNull v in
    let valIsReflexive := strict_eq v v in
    let valIsSymbol := isSymbol v in
    let othIsDefined := negb (is_undefined other) in
    let othIsNull := isNull other in
    let othIsReflexive := strict_eq other other in
    let othIsSymbol := isSymbol other in
    if (negb othIsNull && negb othIsSymbol && negb valIsSymbol && js_gt v other) ||
       (valIsSymbol && othIsDefined && othIsReflexive && negb othIsNull && negb othIsSymbol) ||
       (valIsNull && othIsDefined && othIsReflexive) ||
       (negb valIsDefined && othIsReflexive) ||
       negb valIsReflexive
    then 1
    else if (negb valIsNull && negb valIsSymbol && negb othIsSymbol && js_lt v other) ||
       (othIsSymbol && valIsDefined && valIsReflexive && negb valIsNull && negb valIsSymbol) ||
       (othIsNull && valIsDefined && valIsReflexive) ||
       (negb othIsDefined && valIsReflexive) ||
       negb othIsReflexive
    then -1 else 0
  else 0.

(** An element to be sorted, with its sort keys and its position. *)
Record entry := { criteria : list value; index : Z; value_of : value }.

(** [order == 'desc']: an object is compared by its primitive. *)
Definition is_desc (order : value) : bool := bool_decide (to_primitive order = String (str "desc")).

Definition compareMultiple (object other : entry) (orders : list value) : Z :=
  returned (index object - index other) (loop (Acc := unit) (fun i c _ =>
    let result := compareAscending c (criteria other).[i] in
    if negb (result =? 0) then
      if len orders <=? i then inr result
      else inr (result * (if is_desc orders.[i] then -1 else 1))
    else inl tt) 0 (criteria object) tt).

Section callbacks.
Context {S : Type}.

Definition baseOrderBy (collection : list value) (iteratees : list (value -> eff S value))
    (orders : list value) : eff S (list value) :=
  let iteratees := match iteratees with [] => [fun v => mret (identity v)] | _ => iteratees end in
  result ← arrayMap collection (fun v i _ =>
    criteria ← arrayMap iteratees (fun iteratee _ _ => iteratee v);
    mret {| criteria := criteria; index := i; value_of := v |});
  mret (baseSortBy result value_of (fun object other => compareMultiple object other orders)).

(** A nullish collection is [None]; the iteratees and orders are lists once single ones
    are wrapped. *)
Definition orderBy (collection : option (list value)) (iteratees : list (value -> eff S value))
    (orders : list value) (guard : bool) : eff S (list value) :=
  match collection with
  | None => mret []
  | Some collection => baseOrderBy collection iteratees (if guard then [] else orders)
  end.

(** An argument of [sortBy]: one iteratee, or an array of them. *)
Inductive iteratee_arg := One (iteratee : value -> eff S value) | Many (iteratees : list (value -> eff S value)).

Definition flatten_iteratees (args : list iteratee_arg) : list (value -> eff S value) :=
  flat_map (fun a => match a with One f => [f] | Many fs => fs end) args.

(** [isCall1] and [isCall2] are the answers of [isIterateeCall] about the collection and
    the first two iteratees, and about the first three iteratees. *)
Definition sortBy (collection : option (list value)) (iteratees : list iteratee_arg)
    (isCall1 isCall2 : bool) : eff S (list value) :=
  match collection with
  | None => mret []
  | Some collection =>
      let length := len iteratees in
      let iteratees :=
        if (1 <? length) && isCall1 then []
        else if (2 <? length) && isCall2 then take 1 iteratees
        else iteratees in
      baseOrderBy collection (flatten_iteratees iteratees) []
  end.

(** ** Binary search *)

(** The loop halves the range, so the length of the array bounds its turns. *)
Fixpoint search_loop (fuel : nat) (middle : Z -> Z -> Z) (array : list value)
    (test : value -> eff S bool) (low high : Z) : eff S Z :=
  match fuel with
  | O => mret high
  | Datatypes.S fuel =>
      if low <? high then
        let mid := middle low high in
        setLow ← test array.[mid];
        if setLow : bool then search_loop fuel middle array test (mid + 1) high
        else search_loop fuel middle array test low mid
      else mret high
  end.

(** Whether the computed value of an element is to the left of the value. *)
Definition set_low (v computed : value) (retHighest : bool) : bool :=
  let valIsNaN := negb (strict_eq v v) in
  let valIsNull := isNull v in
  let valIsSymbol := isSymbol v in
  let valIsUndefined := is_undefined v in
  let othIsDefined := negb (is_undefined computed) in
  let othIsNull := isNull computed in
  let othIsReflexive := strict_eq computed computed in
  let othIsSymbol := isSymbol computed in
  if valIsNaN then retHighest || othIsReflexive
  else if valIsUndefined then othIsReflexive && (retHighest || othIsDefined)
  else if valIsNull then othIsReflexive && othIsDefined && (retHighest || negb othIsNull)
  else if valIsSymbol then othIsReflexive && othIsDefined && negb othIsNull && (retHighest || negb othIsSymbol)
  else if othIsNull || othIsSymbol then false
  else if retHighest then js_le computed v else js_lt computed v.

Definition baseSortedIndexBy (array : option (list value)) (v : value) (iteratee : value -> eff S value)
    (retHighest : bool) : eff S Z :=
  v ← iteratee v;
  let array := default [] array in
  high ← search_loop (Datatypes.S (length array)) (fun low high => (low + high) / 2) array
    (fun x => computed ← iteratee x; mret (set_low v computed retHighest)) 0 (len array);
  mret (Z.min high MAX_ARRAY_INDEX).

(** [mid = (low + high) >>> 1] on 32-bit integers. *)
Definition baseSortedIndex (array : option (list value)) (v : value) (retHighest : bool) : eff S Z :=
  let l := default [] array in
  let high := len l in
  match v with
  | Number n =>
      if neqb n n && (high <=? HALF_MAX_ARRAY_LENGTH) then
        search_loop (Datatypes.S (length l)) (fun low high => Z.shiftr (wrapu 32 (low + high)) 1) l
          (fun computed => mret (negb (isNull computed) && negb (isSymbol computed) &&
             (if retHighest then js_le computed v else js_lt computed v))) 0 high
      else baseSortedIndexBy array v (fun v => mret (identity v)) retHighest
  | _ => baseSortedIndexBy array v (fun v => mret (identity v)) retHighest
  end.

Definition sortedIndex (array : option (list value)) (v : value) : eff S Z := baseSortedIndex array v false.
Definition sortedIndexBy (array : option (list value)) (v : value) (iteratee : value -> eff S value) : eff S Z :=
  baseSortedIndexBy array v iteratee false.
Definition sortedLastIndex (array : option (list value)) (v : value) : eff S Z := baseSortedIndex array v true.
Definition sortedLastIndexBy (array : option (list value)) (v : value) (iteratee : value -> eff S value) : eff S Z :=
  baseSortedIndexBy array v iteratee true.

Definition sortedIndexOf (array : option (list value)) (v : value) : eff S Z :=
  let l := default [] array in
  if len l =? 0 then mret (-1) else
  index ← baseSortedIndex array v false;
  mret (if (index <? len l) && eq l.[index] v then index else -1).

Definition sortedLastIndexOf (array : option (list value)) (v : value) : eff S Z :=
  let l := default [] array in
  if len l =? 0 then mret (-1) else
  i ← baseSortedIndex array v true;
  let index := i - 1 in
  mret (if eq l.[index] v then index else -1).

(** ** Runs of equal values *)

Definition baseSortedUniq (array : list value) (iteratee : option (value -> eff S value)) : eff S (list value) :=
  r ← eloop (R := list value * value) (fun i v '(result, seen) =>
    computed ← match iteratee with Some f => f v | None => mret v end;
    mret (inl (if (i =? 0) || negb (eq computed seen)
               then (result ++ [if strict_eq v (Number (num 0)) then Number (num 0) else v], computed)
               else (result, seen)))) 0 array ([], Undefined);
  mret (fst (ended r)).

Definition sortedUniq (array : option (list value)) : eff S (list value) :=
  match array with Some (v :: l) => baseSortedUniq (v :: l) None | _ => mret [] end.
Definition sortedUniqBy (array : option (list value)) (iteratee : value -> eff S value) : eff S (list value) :=
  match array with Some (v :: l) => baseSortedUniq (v :: l) (Some iteratee) | _ => mret [] end.

(** ** Extremes and sums *)

Definition baseExtremum (array : list value) (iteratee : value -> eff S value)
    (comparator : value -> value -> bool) : eff S value :=
  r ← eloop (R := value * value) (fun _ v '(result, computed) =>
    current ← iteratee v;
    mret (inl (if negb (is_nil current) &&
                  (if is_undefined computed then strict_eq current current && negb (isSymbol current)
                   else comparator current computed)
               then (v, current) else (result, computed)))) 0 array (Undefined, Undefined);
  mret (fst (ended r)).

Definition maxBy (array : option (list value)) (iteratee : value -> eff S value) : eff S value :=
  match array with Some (v :: l) => baseExtremum (v :: l) iteratee baseGt | _ => mret Undefined end.
Definition minBy (array : option (list value)) (iteratee : value -> eff S value) : eff S value :=
  match array with Some (v :: l) => baseExtremum (v :: l) iteratee baseLt | _ => mret Undefined end.
Definition _max (array : option (list value)) : eff S value :=
  match array with Some (v :: l) => baseExtremum (v :: l) (fun v => mret (identity v)) baseGt | _ => mret Undefined end.
Definition _min (array : option (list value)) : eff S value :=
  match array with Some (v :: l) => baseExtremum (v :: l) (fun v => mret (identity v)) baseLt | _ => mret Undefined end.

Definition _sum (array : option (list value)) : eff S value :=
  match array with Some (v :: l) => baseSum (v :: l) (fun v => mret (identity v)) | _ => mret (Number (num 0)) end.
Definition sumBy (array : option (list value)) (iteratee : value -> eff S value) : eff S value :=
  match array with Some (v :: l) => baseSum (v :: l) iteratee | _ => mret (Number (num 0)) end.
Definition mean (array : option (list value)) : eff S number :=
  baseMean (default [] array) (fun v => mret (identity v)).
Definition meanBy (array : option (list value)) (iteratee : value -> eff S value) : eff S number :=
  baseMean (default [] array) iteratee.

End callbacks.
End sort.

(** ** The order of the values *)

(** Numbers compare as the triple of their sign and magnitude class, exponent and
    mantissa. *)
Definition number_key (x : number) : Z * Z * Z :=
  match x with
  | S754_zero _ => (0, 0, 0)
  | S754_infinity s => (if s then -2 else 2, 0, 0)
  | S754_nan => (3, 0, 0)
  | S754_finite s m e => if s then (-1, -e, Z.neg m) else (1, e, Z.pos m)
  end.

Definition key_lt (a b : Z * Z * Z) : Prop :=
  let '(a1, a2, a3) := a in let '(b1, b2, b3) := b in
  a1 < b1 \/ (a1 = b1 /\ (a2 < b2 \/ (a2 = b2 /\ a3 < b3))).

Lemma nltb_key x y :
  is_nan x = false -> is_nan y = false -> nltb x y = true <-> key_lt (number_key x) (number_key y).
Proof.
  intros Hx Hy. unfold nltb, SFltb, key_lt.
  destruct x as [[]|[]| |[] mx ex], y as [[]|[]| |[] my ey]; try discriminate; cbn;
    try (split; intros; first [done | lia]);
    destruct (Z.compare_spec ex ey); cbn; try (split; intros; first [done | lia]);
    change (Pos.compare_cont Datatypes.Eq mx my) with (Pos.compare mx my);
    destruct (Pos.compare_spec mx my); cbn; split; intros; first [done | lia].
Qed.

Lemma nleb_key x y :
  is_nan x = false -> is_nan y = false -> nleb x y = negb (nltb y x).
Proof.
  intros Hx Hy. unfold nltb, nleb, SFltb, SFleb.
  destruct x as [sx|sx| |sx mx ex], y as [sy|sy| |sy my ey]; try discriminate;
    try (destruct sx; reflexivity); try (destruct sy; reflexivity); try (destruct sx, sy; reflexivity).
  destruct sx, sy; cbn; try done; rewrite (Z.compare_antisym ex ey);
    destruct (ex ?= ey); cbn; try done;
    change (Pos.compare_cont Datatypes.Eq mx my) with (Pos.compare mx my);
    change (Pos.compare_cont Datatypes.Eq my mx) with (Pos.compare my mx);
    rewrite (Pos.compare_antisym mx my); by destruct (mx ?= my)%positive.
Qed.

Lemma string_lt_asym s t : string_lt s t = true -> string_lt t s = false.
Proof.
  revert t. induction s as [|a s IH]; intros [|b t]; cbn; try done. intros Hs.
  destruct (Z.ltb_spec a b), (Z.ltb_spec b a), (Z.eqb_spec a b), (Z.eqb_spec b a); cbn in *; try lia; auto.
Qed.

Lemma string_lt_not_trans s t u :
  string_lt s t = false -> string_lt t u = false -> string_lt s u = false.
Proof.
  revert t u. induction s as [|a s IH]; intros [|b t] [|c u]; cbn; try done. intros H1 H2.
  apply orb_false_iff in H1 as [H1 H1'], H2 as [H2 H2'].
  apply Z.ltb_ge in H1, H2. apply orb_false_iff. split; [apply Z.ltb_ge; lia|].
  destruct (Z.eqb_spec a c) as [->|]; [|done]. assert (b = c) as -> by lia.
  rewrite Z.eqb_refl in *. cbn in *. eauto.
Qed.

(** The kinds of values that [<] orders among themselves. *)
Inductive kind := Numbers | Strings.

(** Values of one kind, and the special values that every order accepts. *)
Definition of_kind (k : kind) (v : value) : Prop :=
  match v with
  | Undefined | Null | Symbol _ => True
  | Number _ | Boolean _ => k = Numbers
  | String _ => k = Strings
  | Ref _ _ => False
  end.

(** Ordinary values come first, then symbols, [null], [undefined] and [NaN]. *)
Definition rank (v : value) : Z :=
  match v with
  | Symbol _ => 1
  | Null => 2
  | Undefined => 3
  | Number n => if is_nan n then 4 else 0
  | _ => 0
  end.

Abbreviation of_kinds := (Forall2 of_kind).

Section order.
Context `{JsHost}.

(** [v] sorts strictly before [w]. *)
Definition sorts_before (v w : value) : bool :=
  (rank v <? rank w) || ((rank v =? 0) && (rank w =? 0) && js_lt v w).

Lemma boolean_number_not_nan b : is_nan (primitive_to_number (Boolean b)) = false.
Proof. by destruct b. Qed.

Definition number_of (v : value) : number := primitive_to_number v.

Lemma js_lt_numbers v w :
  of_kind Numbers v -> of_kind Numbers w -> rank v = 0 -> rank w = 0 ->
  js_lt v w = true <-> key_lt (number_key (number_of v)) (number_key (number_of w)).
Proof.
  intros Hv Hw Rv Rw. rewrite <- nltb_key;
    destruct v as [| |[]|n| | |], w as [| |[]|n'| | |]; cbn in *; try done;
    repeat match goal with |- context [is_nan ?n] => destruct (is_nan n) end; done.
Qed.

Lemma js_lt_strings v w :
  of_kind Strings v -> of_kind Strings w -> rank v = 0 -> rank w = 0 ->
  exists s t, v = String s /\ w = String t.
Proof. destruct v, w; cbn; try done; eauto; intros; try discriminate. Qed.

Lemma js_lt_asym k v w :
  of_kind k v -> of_kind k w -> rank v = 0 -> rank w = 0 -> js_lt v w = true -> js_lt w v = false.
Proof.
  intros Hv Hw Rv Rw Hl. destruct k.
  - apply not_true_is_false. intros Hl'. rewrite js_lt_numbers in Hl, Hl' by done.
    unfold key_lt in *. destruct (number_key (number_of v)) as [[] ?], (number_key (number_of w)) as [[] ?]. lia.
  - destruct (js_lt_strings v w) as (s & t & -> & ->); auto. by apply string_lt_asym.
Qed.

Lemma js_lt_not_trans k u v w :
  of_kind k u -> of_kind k v -> of_kind k w -> rank u = 0 -> rank v = 0 -> rank w = 0 ->
  js_lt u v = false -> js_lt v w = false -> js_lt u w = false.
Proof.
  intros Hu Hv Hw Ru Rv Rw H1 H2. destruct k.
  - rewrite <- not_true_iff_false in *. rewrite js_lt_numbers in * by done. unfold key_lt in *.
    destruct (number_key (number_of u)) as [[] ?], (number_key (number_of v)) as [[] ?],
      (number_key (number_of w)) as [[] ?]. lia.
  - destruct (js_lt_strings u v) as (s & t & -> & ->); auto.
    destruct (js_lt_strings (String t) w) as (? & r & [= <-] & ->); auto.
    by apply (string_lt_not_trans s t r).
Qed.

Lemma rank_bounds v : 0 <= rank v <= 4.
Proof. destruct v; cbn; try lia. case_match; lia. Qed.

Lemma sorts_before_asym k v w :
  of_kind k v -> of_kind k w -> sorts_before v w = true -> sorts_before w v = false.
Proof.
  unfold sorts_before. intros Hv Hw Hl.
  destruct (Z.ltb_spec (rank v) (rank w)), (Z.ltb_spec (rank w) (rank v)),
    (Z.eqb_spec (rank v) 0), (Z.eqb_spec (rank w) 0); cbn in *; try lia; try done.
  by eapply js_lt_asym.
Qed.

Lemma sorts_before_not_trans k u v w :
  of_kind k u -> of_kind k v -> of_kind k w ->
  sorts_before u v = false -> sorts_before v w = false -> sorts_before u w = false.
Proof.
  unfold sorts_before. intros Hu Hv Hw H1 H2.
  destruct (Z.ltb_spec (rank u) (rank v)); [done|]. destruct (Z.ltb_spec (rank v) (rank w)); [done|].
  destruct (Z.ltb_spec (rank u) (rank w)); [lia|]. cbn in *. pose proof (rank_bounds v).
  pose proof (rank_bounds w).
  destruct (Z.eqb_spec (rank u) 0), (Z.eqb_spec (rank v) 0), (Z.eqb_spec (rank w) 0); cbn in *; try lia; try done.
  by eapply (js_lt_not_trans k u v w).
Qed.

(** What [compareAscending] computes, where no two values are [NaN]. *)
Definition compare_values (v w : value) : Z :=
  if sorts_before v w then -1 else if sorts_before w v then 1 else 0.

Lemma strict_eq_not_before k v w :
  of_kind k v -> of_kind k w -> strict_eq v w = true -> sorts_before v w = false.
Proof.
  intros Hv Hw He. unfold sorts_before, js_lt.
  destruct v as [| |[]|n|s|i|], w as [| |[]|m|t|j|]; cbn in *; try done.
  - unfold nltb, SFltb. unfold neqb, SFeqb in He. unfold is_nan. destruct n, m; cbn in *; try done;
    repeat case_match; done.
  - apply bool_decide_eq_true in He as ->. apply not_true_is_false. intros Hl.
    pose proof (string_lt_asym _ _ Hl). congruence.
Qed.

Lemma isSymbol_kind k v : of_kind k v -> isSymbol v = match v with Symbol _ => true | _ => false end.
Proof.
  destruct v; cbn [of_kind]; try done; intros _; unfold isSymbol, isObjectLike; cbn [typeof];
    rewrite ?(bool_decide_eq_false_2 (_ = TObject)) by done; by rewrite ?andb_false_r.
Qed.

Lemma rank_tests k v :
  of_kind k v ->
  is_undefined v = (rank v =? 3) /\ isNull v = (rank v =? 2) /\ isSymbol v = (rank v =? 1) /\
  strict_eq v v = negb (rank v =? 4).
Proof.
  intros Hv. rewrite (isSymbol_kind k v Hv).
  destruct v as [| |b|n|s|i|]; cbn [of_kind] in Hv; try done.
  - by destruct b.
  - cbn [strict_eq]. rewrite neqb_refl. cbn [rank]. by destruct (is_nan n).
  - cbn [strict_eq]. rewrite bool_decide_eq_true_2 by done. repeat split.
  - cbn [strict_eq]. rewrite (Z.eqb_refl i). repeat split.
Qed.

(** A comparison with [undefined] or [NaN] is false. *)
Lemma js_lt_rank k v w :
  of_kind k v -> of_kind k w -> rank v <> 1 -> rank w <> 1 ->
  3 <= rank v \/ 3 <= rank w -> js_lt v w = false.
Proof.
  assert (Hl : forall x, nltb nan x = false) by done.
  assert (Hr : forall x, nltb x nan = false) by (by intros []).
  destruct v as [| |b|n|s|i|], w as [| |b'|m|t|j|]; cbn [of_kind rank]; try done; try lia;
    intros _ _ _ _ Hk; unfold js_lt; cbn [to_primitive to_primitive_with primitive_to_number]; auto;
    repeat match type of Hk with context [is_nan ?x] => destruct x; cbn in Hk; try lia; auto end.
Qed.

Lemma compareAscending_spec k v w :
  of_kind k v -> of_kind k w -> ~ (rank v = 4 /\ rank w = 4) ->
  compareAscending v w = compare_values v w.
Proof.
  intros Hv Hw Hn. unfold compareAscending, compare_values.
  destruct (strict_eq v w) eqn:He; cbn [negb].
  { rewrite (strict_eq_not_before k v w), (strict_eq_not_before k w v); auto. by rewrite strict_eq_sym. }
  destruct (rank_tests k v Hv) as (-> & -> & -> & ->), (rank_tests k w Hw) as (-> & -> & -> & ->).
  assert (H23 : ~ (rank v = rank w /\ (rank v = 2 \/ rank v = 3))).
  { intros [E1 E2]. destruct v, w; cbn in He, E1, E2; try done; repeat case_match; (done || lia). }
  pose proof (js_lt_rank k v w Hv Hw) as L1. pose proof (js_lt_rank k w v Hw Hv) as L2.
  pose proof (js_lt_asym k v w Hv Hw) as L3.
  unfold sorts_before, js_gt. pose proof (rank_bounds v) as Bv. pose proof (rank_bounds w) as Bw.
  revert Hn H23 L1 L2 L3 Bv Bw. clear. generalize (rank v) (rank w) (js_lt v w) (js_lt w v).
  intros a b l1 l2 Hn H23 L1 L2 L3 Ba Bb.
  assert (Ca : a = 0 \/ a = 1 \/ a = 2 \/ a = 3 \/ a = 4) by lia.
  assert (Cb : b = 0 \/ b = 1 \/ b = 2 \/ b = 3 \/ b = 4) by lia.
  destruct Ca as [->|[->|[->|[->| ->]]]], Cb as [->|[->|[->|[->| ->]]]], l1, l2; cbn; try done;
    try (exfalso; apply Hn; lia); try (exfalso; apply H23; lia);
    try (discriminate L1; lia); try (discriminate L2; lia); discriminate L3; done.
Qed.

(** Two [NaN]s each come after the other. *)
Lemma compareAscending_nan : compareAscending (Number nan) (Number nan) = 1.
Proof. reflexivity. Qed.

(** ** Sorting *)

(** The order of two lists of sort keys: the first column that differs decides, the
    other way round where its order is [desc]. *)
Fixpoint compare_criteria (i : Z) (orders : list value) (cs ds : list value) : Z :=
  match cs, ds with
  | c :: cs, d :: ds =>
      let r := compare_values c d in
      if r =? 0 then compare_criteria (i + 1) orders cs ds
      else if (i <? len orders) && is_desc orders.[i] then - r else r
  | _, _ => 0
  end.

(** [a] belongs before [b]: by the sort keys, or by the position where they tie. *)
Definition entry_before (orders : list value) (a b : entry) : Prop :=
  let r := compare_criteria 0 orders (criteria a) (criteria b) in
  r < 0 \/ (r = 0 /\ index a <= index b).

Lemma compare_values_antisym k v w :
  of_kind k v -> of_kind k w -> compare_values w v = - compare_values v w.
Proof.
  intros Hv Hw. unfold compare_values. pose proof (sorts_before_asym k v w Hv Hw) as Ha.
  destruct (sorts_before v w); [by rewrite Ha|]. by destruct (sorts_before w v).
Qed.

Lemma compare_values_le v w : compare_values v w <= 0 <-> sorts_before w v = false \/ sorts_before v w = true.
Proof.
  unfold compare_values. destruct (sorts_before v w), (sorts_before w v); intuition (try done; lia).
Qed.

Lemma compare_values_trans k u v w :
  of_kind k u -> of_kind k v -> of_kind k w ->
  compare_values u v <= 0 -> compare_values v w <= 0 -> compare_values u w <= 0.
Proof.
  intros Hu Hv Hw. rewrite !compare_values_le. intros H1 H2. left.
  apply (sorts_before_not_trans k w v u); auto.
  - destruct H2; [done|]. by apply (sorts_before_asym k).
  - destruct H1; [done|]. by apply (sorts_before_asym k).
Qed.

Lemma compare_criteria_antisym ks i orders cs ds :
  of_kinds ks cs -> of_kinds ks ds ->
  compare_criteria i orders ds cs = - compare_criteria i orders cs ds.
Proof.
  intros Hc. revert i ds. induction Hc as [|k c ks cs Hk _ IH]; intros i ds Hd; inv Hd; [done|].
  cbn [compare_criteria]. rewrite (compare_values_antisym k c) by done. rewrite IH by done.
  destruct (Z.eqb_spec (compare_values c y) 0) as [->|]; [done|].
  rewrite (proj2 (Z.eqb_neq _ _)) by lia. case_match; lia.
Qed.

(** Two columns that agree on both sides agree throughout. *)
Lemma compare_values_squeeze k u v w :
  of_kind k u -> of_kind k v -> of_kind k w ->
  compare_values u v <= 0 -> compare_values v w <= 0 -> compare_values u w = 0 ->
  compare_values u v = 0 /\ compare_values v w = 0.
Proof.
  intros Hu Hv Hw H1 H2 H3. pose proof (compare_values_antisym k u w Hu Hw).
  pose proof (compare_values_antisym k u v Hu Hv). pose proof (compare_values_antisym k v w Hv Hw).
  pose proof (compare_values_trans k v w u Hv Hw Hu H2 ltac:(lia)).
  pose proof (compare_values_trans k w u v Hw Hu Hv ltac:(lia) H1). lia.
Qed.

Lemma compare_criteria_trans ks i orders cs ds es :
  of_kinds ks cs -> of_kinds ks ds -> of_kinds ks es ->
  compare_criteria i orders cs ds <= 0 -> compare_criteria i orders ds es <= 0 ->
  compare_criteria i orders cs es <= 0.
Proof.
  intros Hc. revert i ds es. induction Hc as [|k c ks cs Hk _ IH]; intros i ds es Hd He; inv Hd; inv He; [done|].
  cbn [compare_criteria]. rename y into d, y0 into e.
  pose proof (compare_values_trans k c d e) as T1. pose proof (compare_values_trans k e d c) as T2.
  pose proof (compare_values_squeeze k c d e) as Q1. pose proof (compare_values_squeeze k e d c) as Q2.
  rewrite (compare_values_antisym k d e), (compare_values_antisym k c d), (compare_values_antisym k c e) in T2, Q2 by done.
  destruct ((i <? len orders) && is_desc orders.[i]);
    destruct (Z.eqb_spec (compare_values c d) 0), (Z.eqb_spec (compare_values d e) 0),
      (Z.eqb_spec (compare_values c e) 0); intros; eauto; try lia;
    try (specialize (T1 ltac:(done) ltac:(done) ltac:(done)); specialize (T2 ltac:(done) ltac:(done) ltac:(done));
         specialize (Q1 ltac:(done) ltac:(done) ltac:(done)); specialize (Q2 ltac:(done) ltac:(done) ltac:(done)); lia).
Qed.

Definition no_nan (v : value) : Prop := rank v <> 4.

Lemma compareMultiple_loop ks orders (whole : list value) cs ds i :
  of_kinds ks cs -> of_kinds ks ds -> Forall no_nan cs ->
  drop (Z.to_nat i) whole = ds -> 0 <= i ->
  loop (Acc := unit) (fun i c _ =>
    let result := compareAscending c whole.[i] in
    if negb (result =? 0) then
      if len orders <=? i then inr result
      else inr (result * (if is_desc orders.[i] then -1 else 1))
    else inl tt) i cs tt
  = (let r := compare_criteria i orders cs ds in if r =? 0 then inl tt else inr r).
Proof.
  intros Hc. revert i ds. induction Hc as [|k c ks cs Hk _ IH]; intros i ds Hd Hn Hw Hi.
  { by apply Forall2_nil_inv_l in Hd as ->. }
  apply Forall2_cons_inv_l in Hd as (y & ds' & Hy & Hds & ->).
  apply Forall_cons in Hn as [Hn Hns]. cbn [loop compare_criteria].
  assert (Hat : whole.[i] = y).
  { apply at_index_lookup; [done|]. rewrite <- (Nat.add_0_r (Z.to_nat i)), <- lookup_drop, Hw. done. }
  rewrite Hat, (compareAscending_spec k) by (done || (unfold no_nan in Hn; lia)).
  destruct (Z.eqb_spec (compare_values c y) 0) as [E|E]; cbn [negb].
  - apply IH; [done..| |lia]. rewrite Z2Nat.inj_add, <- drop_drop, Hw by lia. done.
  - destruct (Z.leb_spec (len orders) i), (Z.ltb_spec i (len orders)); try lia; cbn [andb].
    + by rewrite (proj2 (Z.eqb_neq _ _)).
    + destruct (is_desc orders.[i]); rewrite (proj2 (Z.eqb_neq _ _)) by lia; f_equal; lia.
Qed.

(** Entries whose sort keys have one kind per column and are not [NaN]. *)
Definition sortable (ks : list kind) (a : entry) : Prop :=
  of_kinds ks (criteria a) /\ Forall no_nan (criteria a).

Lemma compareMultiple_spec ks orders a b :
  sortable ks a -> sortable ks b ->
  compareMultiple a b orders =
  let r := compare_criteria 0 orders (criteria a) (criteria b) in
  if r =? 0 then index a - index b else r.
Proof.
  intros [Ha Na] [Hb _]. unfold compareMultiple.
  rewrite (compareMultiple_loop ks orders (criteria b) (criteria a) (criteria b)) by (done || lia).
  cbn zeta. by destruct (_ =? 0).
Qed.

Lemma compareMultiple_le ks orders a b :
  sortable ks a -> sortable ks b ->
  compareMultiple a b orders <= 0 <-> entry_before orders a b.
Proof.
  intros Ha Hb. rewrite (compareMultiple_spec ks) by done. unfold entry_before. cbn zeta.
  destruct (Z.eqb_spec (compare_criteria 0 orders (criteria a) (criteria b)) 0); lia.
Qed.

Lemma entry_before_total ks orders a b :
  sortable ks a -> sortable ks b -> entry_before orders a b \/ entry_before orders b a.
Proof.
  intros [Ha _] [Hb _]. unfold entry_before. cbn zeta.
  rewrite (compare_criteria_antisym ks 0 orders (criteria a)) by done. lia.
Qed.

Lemma entry_before_trans ks orders a b c :
  sortable ks a -> sortable ks b -> sortable ks c ->
  entry_before orders a b -> entry_before orders b c -> entry_before orders a c.
Proof.
  intros [Ha _] [Hb _] [Hc _]. unfold entry_before. cbn zeta. intros H1 H2.
  pose proof (compare_criteria_trans ks 0 orders _ _ _ Ha Hb Hc ltac:(lia) ltac:(lia)) as T.
  pose proof (compare_criteria_trans ks 0 orders _ _ _ Hc Ha Hb) as T1.
  pose proof (compare_criteria_trans ks 0 orders _ _ _ Hb Hc Ha) as T2.
  rewrite (compare_criteria_antisym ks 0 orders (criteria a) (criteria c)) in T1, T2 by done.
  rewrite (compare_criteria_antisym ks 0 orders (criteria b) (criteria c)) in T1 by done.
  rewrite (compare_criteria_antisym ks 0 orders (criteria a) (criteria b)) in T2 by done. lia.
Qed.

Lemma entry_before_antisym ks orders a b :
  sortable ks a -> sortable ks b -> entry_before orders a b -> entry_before orders b a -> index a = index b.
Proof.
  intros [Ha _] [Hb _]. unfold entry_before. cbn zeta.
  rewrite (compare_criteria_antisym ks 0 orders (criteria a)) by done. lia.
Qed.
End order.

(** A strongly sorted permutation of a list is unique. *)
Lemma sorted_unique {A} (R : A -> A -> Prop) (l k : list A) :
  (forall x y, x ∈ l -> y ∈ l -> R x y -> R y x -> x = y) ->
  StronglySorted R l -> StronglySorted R k -> l ≡ₚ k -> l = k.
Proof.
  intros Ha Hl. revert k. induction Hl as [|x l Hl IH Hx]; intros k Hk Hp.
  { symmetry. by apply Permutation_nil. }
  destruct Hk as [|y k Hk Hy]; [by apply Permutation_nil_r in Hp|].
  assert (x = y) as <-.
  { rewrite Forall_forall in Hx, Hy.
    assert (y ∈ x :: l) as [->|Hyl]%elem_of_cons by (rewrite Hp; left); [done|].
    assert (x ∈ y :: k) as [->|Hxk]%elem_of_cons by (rewrite <- Hp; left); [done|].
    apply Ha; [left|by right|by apply Hx|by apply Hy]. }
  f_equal. apply IH; [|done|by apply Permutation_cons_inv in Hp].
  intros a b Hia Hib. apply Ha; by right.
Qed.

Lemma StronglySorted_in {A} (P : A -> Prop) (R R' : A -> A -> Prop) l :
  (forall x y, P x -> P y -> R x y -> R' x y) -> Forall P l -> StronglySorted R l -> StronglySorted R' l.
Proof.
  intros Hr Hp. induction 1 as [|x l _ IH Hx]; constructor; apply Forall_cons in Hp as [Px Hp]; auto.
  rewrite Forall_forall in *. auto.
Qed.

Lemma StronglySorted_lookup {A} (R : A -> A -> Prop) l n m x y :
  StronglySorted R l -> l !! n = Some x -> l !! m = Some y -> (n < m)%nat -> R x y.
Proof.
  intros Hs. revert n m. induction Hs as [|a l _ IH Ha]; intros n m Hx Hy Hnm; [done|].
  destruct m as [|m]; [lia|]. destruct n as [|n]; cbn in Hx, Hy.
  - injection Hx as ->. by eapply Forall_lookup_1 in Ha.
  - apply (IH n m); auto. lia.
Qed.

Section ordered.
Context `{JsHost} {S : Type}.

(** The elements with their sort keys. *)
Definition entries (fs : list (value -> value)) (l : list value) : list entry :=
  imap (fun i v => {| criteria := List.map (fun f => f v) fs; index := Z.of_nat i; value_of := v |}) l.

Definition pure_iteratees (fs : list (value -> value)) : list (value -> eff S value) :=
  List.map (fun f v => mret (f v)) fs.

Lemma baseOrderBy_entries fs orders l :
  fs <> [] ->
  baseOrderBy l (pure_iteratees fs) orders
  ≈ mret (List.map value_of (js_sort (fun a b => compareMultiple a b orders) (entries fs l))).
Proof.
  intros Hf. unfold baseOrderBy.
  replace (match pure_iteratees fs with [] => _ | _ => pure_iteratees fs end) with (pure_iteratees fs)
    by (by destruct fs).
  rewrite (eff_bind_pure _ (entries fs l)); [done|]. apply arrayMap_at; [by unfold entries; rewrite length_imap|].
  intros j v e Hv He. unfold entries in He. rewrite list_lookup_imap, Hv in He. injection He as <-.
  rewrite (eff_bind_pure _ (List.map (fun f => f v) fs)); [done|].
  apply arrayMap_at; [by unfold pure_iteratees; rewrite !length_map|]. intros i it x Hi Hx.
  apply list_lookup_fmap_Some in Hi as (f & -> & Hf'). apply list_lookup_fmap_Some in Hx as (f' & -> & Hf2).
  by rewrite Hf' in Hf2; injection Hf2 as <-.
Qed.

Lemma entries_index fs l a b : a ∈ entries fs l -> b ∈ entries fs l -> index a = index b -> a = b.
Proof.
  unfold entries. rewrite !elem_of_lookup_imap. intros (i & v & -> & Hv) (j & w & -> & Hw). cbn.
  intros E. apply Nat2Z.inj in E as <-. by rewrite Hv in Hw; injection Hw as <-.
Qed.

Lemma entries_sortable ks fs l :
  (forall v, v ∈ l -> of_kinds ks (List.map (fun f => f v) fs) /\ Forall no_nan (List.map (fun f => f v) fs)) ->
  Forall (sortable ks) (entries fs l).
Proof.
  intros Hk. apply Forall_forall. intros e. unfold entries. rewrite elem_of_lookup_imap.
  intros (i & v & -> & Hv). apply Hk. by apply list_elem_of_lookup_2 in Hv.
Qed.

(** C38: [orderBy] is a stable sort. When each sort key takes numbers or strings (with
    symbols, [null] and [undefined], but not [NaN]), the result lists every element once,
    in the order of the first sort key that tells two elements apart, reversed where its
    order is [desc], and in the order of the collection where all keys tie. No other
    arrangement has these properties, so the result does not depend on the engine's
    sorting algorithm. *)
Theorem orderBy_stable_sort (ks : list kind) (fs : list (value -> value)) (orders l : list value) :
  fs <> [] ->
  (forall v, v ∈ l -> of_kinds ks (List.map (fun f => f v) fs) /\ Forall no_nan (List.map (fun f => f v) fs)) ->
  exists es, orderBy (Some l) (pure_iteratees fs) orders false ≈ mret (List.map value_of es) /\
    es ≡ₚ entries fs l /\ StronglySorted (entry_before orders) es /\
    forall es', es' ≡ₚ entries fs l -> StronglySorted (entry_before orders) es' -> es' = es.
Proof.
  intros Hf Hk. pose proof (entries_sortable ks fs l Hk) as Hs. cbn [orderBy].
  set (cmp := fun a b => compareMultiple a b orders).
  exists (js_sort cmp (entries fs l)). pose proof (js_sort_perm cmp (entries fs l)) as Hp.
  assert (Hin : forall e, e ∈ js_sort cmp (entries fs l) -> sortable ks e).
  { rewrite Forall_forall in Hs. intros e He. rewrite Hp in He. auto. }
  assert (Hsort : StronglySorted (entry_before orders) (js_sort cmp (entries fs l))).
  { apply (StronglySorted_in (sortable ks) (cmp_le cmp)); [|by apply Forall_forall|].
    - intros a b Ha Hb. by apply (compareMultiple_le ks).
    - apply (js_sort_sorted cmp (sortable ks)); [..|done]; unfold cmp_le, cmp.
      + intros a b Ha Hb. rewrite !(compareMultiple_le ks) by done. by apply (entry_before_total ks).
      + intros a b c Ha Hb Hc. rewrite !(compareMultiple_le ks) by done. by apply (entry_before_trans ks). }
  split; [by apply baseOrderBy_entries|]. split; [done|]. split; [done|].
  intros es' Hp' Hs'. symmetry. apply (sorted_unique (entry_before orders)); [|done..|by rewrite Hp'].
  intros a b Ha Hb H1 H2. apply (entries_index fs l); [by rewrite <- Hp..|].
  apply (entry_before_antisym ks orders); auto.
Qed.

(** ** Binary search *)

(** Where the test holds of a prefix, the search ends at the end of that prefix; the
    range shrinks at every turn, so the fuel is enough. *)
Lemma search_loop_spec fuel middle l (test : value -> eff S bool) (p : value -> bool) low high :
  (forall x, x ∈ l -> test x ≈ mret (p x)) ->
  (forall a b, 0 <= a < b -> b <= len l -> a <= middle a b < b) ->
  0 <= low <= high -> high <= len l -> high - low <= Z.of_nat fuel ->
  (forall n m x y, (n <= m)%nat -> l !! n = Some x -> l !! m = Some y -> p y = true -> p x = true) ->
  (forall n x, l !! n = Some x -> Z.of_nat n < low -> p x = true) ->
  (forall n x, l !! n = Some x -> high <= Z.of_nat n -> p x = false) ->
  exists r, search_loop fuel middle l test low high ≈ mret r /\ 0 <= r <= len l /\
    forall n x, l !! n = Some x -> p x = bool_decide (Z.of_nat n < r).
Proof.
  intros Ht Hm. revert low high. induction fuel as [|fuel IH]; intros low high Hr Hh Hf Ha Hlo Hhi; cbn [search_loop].
  { exists high. split; [done|]. split; [lia|]. intros n x Hx. case_bool_decide; [apply (Hlo n)|apply (Hhi n)]; auto; lia. }
  destruct (Z.ltb_spec low high).
  2:{ exists high. split; [done|]. split; [lia|]. intros n x Hx. case_bool_decide; [apply (Hlo n)|apply (Hhi n)]; auto; lia. }
  specialize (Hm low high ltac:(lia) Hh). set (mid := middle low high) in *.
  destruct (lookup_lt_is_Some_2 l (Z.to_nat mid)) as [y Hy]; [lia|].
  rewrite (at_index_lookup l mid y) by (done || lia). destruct (p y) eqn:Hp.
  - destruct (IH (mid + 1) high) as (r & Hs & Hr'); try done; try lia.
    { intros n x Hx Hn. apply (Ha n (Z.to_nat mid) x y); auto. lia. }
    exists r. split; [|done]. rewrite (eff_bind_pure _ true); [done|]. rewrite Ht, Hp; [done|]. by apply list_elem_of_lookup_2 in Hy.
  - destruct (IH low mid) as (r & Hs & Hr'); try done; try lia.
    { intros n x Hx Hn. destruct (p x) eqn:E; [|done].
      rewrite (Ha (Z.to_nat mid) n y x) in Hp; [done|lia|done..]. }
    exists r. split; [|done]. rewrite (eff_bind_pure _ false); [done|]. rewrite Ht, Hp; [done|]. by apply list_elem_of_lookup_2 in Hy.
Qed.

(** The test of the search against the order. *)
Lemma js_le_rank k v w :
  of_kind k v -> of_kind k w -> rank v = 0 -> rank w <> 1 -> rank w <> 2 ->
  js_le w v = negb (sorts_before v w) /\ js_lt w v = sorts_before w v.
Proof.
  intros Hv Hw Rv R1 R2. pose proof (rank_bounds w) as Bw.
  assert (R : rank w = 0 \/ 3 <= rank w) by lia. unfold sorts_before. rewrite Rv. destruct R as [R|R].
  - rewrite R. cbn. split; [|done].
    destruct k.
    + assert (Hp : forall x, of_kind Numbers x -> rank x = 0 -> is_nan (primitive_to_number x) = false /\
                    (forall y, to_primitive x = y -> y = x) /\ forall s, x <> String s).
      { intros [| |[]|n| | |] Hx Hr; cbn in *; try done. destruct (is_nan n); [done|]. repeat split; congruence. }
      destruct (Hp v Hv Rv) as (Nv & Pv & Sv), (Hp w Hw R) as (Nw & Pw & Sw). unfold js_le, js_lt.
      rewrite (Pv _ eq_refl), (Pw _ eq_refl).
      destruct v, w; try done; by apply nleb_key.
    + destruct (js_lt_strings v w) as (s & t & -> & ->); auto.
  - rewrite (proj2 (Z.ltb_lt 0 (rank w))), (proj2 (Z.ltb_ge (rank w) 0)), (proj2 (Z.eqb_neq (rank w) 0)) by lia.
    split; [|by apply (js_lt_rank k); auto; lia].
    destruct w as [| |b|n|s|i|]; cbn in R, R2; try lia; [|destruct n; cbn in R; try lia];
      unfold js_le; destruct v as [| |[]|[]|s|i|]; try done.
Qed.

(** Whether [x] goes to the left of [v], as the searches decide it. *)
Definition to_left (retHighest : bool) (v x : value) : bool :=
  if retHighest then negb (sorts_before v x) else sorts_before x v.

Lemma set_low_spec k v x retHighest :
  of_kind k v -> of_kind k x -> set_low v x retHighest = to_left retHighest v x.
Proof.
  intros Hv Hx. unfold set_low, to_left.
  pose proof (js_le_rank k v x Hv Hx) as HL.
  destruct (rank_tests k v Hv) as (-> & -> & -> & ->), (rank_tests k x Hx) as (-> & -> & -> & ->).
  pose proof (rank_bounds v) as Bv. pose proof (rank_bounds x) as Bx.
  destruct (Z.eq_dec (rank v) 0) as [Rv|Rv].
  - rewrite Rv. cbn -[Z.eqb]. destruct (Z.eqb_spec (rank x) 2) as [R2|R2];
      [|destruct (Z.eqb_spec (rank x) 1) as [R1|R1]]; cbn [orb].
    + unfold sorts_before. rewrite Rv, R2. by destruct retHighest.
    + unfold sorts_before. rewrite Rv, R1. by destruct retHighest.
    + destruct (HL Rv R1 R2) as [-> ->]. done.
  - unfold sorts_before. rewrite (proj2 (Z.eqb_neq (rank v) 0) Rv), andb_false_r. cbn [andb].
    rewrite !orb_false_r. clear HL Hv Hx. revert Bv Bx Rv. generalize (rank v) (rank x). clear. intros a b Ha Hb H0.
    assert (Ca : a = 1 \/ a = 2 \/ a = 3 \/ a = 4) by lia.
    assert (Cb : b = 0 \/ b = 1 \/ b = 2 \/ b = 3 \/ b = 4) by lia.
    destruct Ca as [->|[->|[->| ->]]], Cb as [->|[->|[->|[->| ->]]]], retHighest; reflexivity.
Qed.

Lemma to_left_prefix k retHighest v l :
  of_kind k v -> Forall (of_kind k) l -> StronglySorted (fun a b => sorts_before b a = false) l ->
  forall n m x y, (n <= m)%nat -> l !! n = Some x -> l !! m = Some y ->
  to_left retHighest v y = true -> to_left retHighest v x = true.
Proof.
  intros Hv Hl Hs n m x y Hnm Hx Hy.
  assert (Kx : of_kind k x) by (by eapply Forall_lookup_1).
  assert (Ky : of_kind k y) by (by eapply Forall_lookup_1).
  destruct (Nat.eq_dec n m) as [->|Hne]; [by rewrite Hx in Hy; injection Hy as ->|].
  assert (Hxy : sorts_before y x = false).
  { apply (StronglySorted_lookup (fun a b => sorts_before b a = false) l n m); [done..|lia]. }
  unfold to_left. destruct retHighest.
  - rewrite !negb_true_iff. intros Hvy. by apply (sorts_before_not_trans k v y x).
  - intros Hyv. apply not_false_is_true. intros Hxv.
    by rewrite (sorts_before_not_trans k y x v) in Hyv.
Qed.

Lemma mid_between (l : list value) a b : len l <= HALF_MAX_ARRAY_LENGTH -> 0 <= a < b -> b <= len l ->
  a <= Z.shiftr (wrapu 32 (a + b)) 1 < b.
Proof.
  change HALF_MAX_ARRAY_LENGTH with 2147483647. intros. rewrite wrapu_id by (unfold in_u; lia).
  rewrite Z.shiftr_div_pow2 by lia. change (2 ^ 1) with 2. zdm.
Qed.

Lemma baseSortedIndex_spec k v l retHighest :
  of_kind k v -> Forall (of_kind k) l -> StronglySorted (fun a b => sorts_before b a = false) l ->
  len l <= MAX_ARRAY_INDEX ->
  exists r, baseSortedIndex (Some l) v retHighest ≈ mret (M := eff S) r /\ 0 <= r <= len l /\
    forall n x, l !! n = Some x -> to_left retHighest v x = bool_decide (Z.of_nat n < r).
Proof.
  intros Hv Hl Hs Hlen. pose proof (to_left_prefix k retHighest v l Hv Hl Hs) as Hp.
  assert (Hby : exists r, baseSortedIndexBy (Some l) v (fun v => mret (identity v)) retHighest ≈ mret (M := eff S) r /\
    0 <= r <= len l /\ forall n x, l !! n = Some x -> to_left retHighest v x = bool_decide (Z.of_nat n < r)).
  { unfold baseSortedIndexBy. change (default [] (Some l)) with l.
    destruct (search_loop_spec (Datatypes.S (length l)) (fun low high => (low + high) / 2) l
      (fun x => computed ← mret (identity x); mret (set_low v computed retHighest)) (to_left retHighest v) 0 (len l))
      as (r & Hr & Hb & Hn); try lia; try done.
    - intros x Hx. rewrite eff_ret_bind. by rewrite (set_low_spec k) by (done || by eapply Forall_forall).
    - intros a b Hab _. zdm.
    - intros n x Hx Hn. apply lookup_lt_Some in Hx. lia.
    - exists r. split; [|done]. rewrite eff_ret_bind. rewrite (eff_bind_pure _ r) by exact Hr.
      by rewrite Z.min_l by lia. }
  unfold baseSortedIndex. destruct v as [| | |num| | |]; try exact Hby. destruct (_ && _) eqn:Hc; [|exact Hby].
  apply andb_true_iff in Hc as [Hnan Hlen'%Z.leb_le]. change (default [] (Some l)) with l in *.
  apply search_loop_spec; try lia; try done.
  - intros x Hx. assert (Kx : of_kind k x) by (by eapply Forall_forall).
    rewrite <- (set_low_spec k) by done. unfold set_low. cbn [strict_eq]. rewrite Hnan. cbn.
    rewrite (isSymbol_kind k (Number num)) by done. by destruct (isNull x), (isSymbol x).
  - intros a b. by apply mid_between.
  - intros n x Hx Hn. apply lookup_lt_Some in Hx. lia.
Qed.

Lemma sorted_insert (R : value -> value -> Prop) l i v :
  StronglySorted R l ->
  (forall n x, l !! n = Some x -> (n < i)%nat -> R x v) ->
  (forall n x, l !! n = Some x -> (i <= n)%nat -> R v x) ->
  StronglySorted R (take i l ++ v :: drop i l).
Proof.
  intros Hs. revert i. induction Hs as [|a l Hs IH Ha]; intros i Hlo Hhi.
  { rewrite take_nil, drop_nil. repeat constructor. }
  destruct i as [|i]; cbn [take drop app].
  - constructor; [by constructor|]. apply Forall_lookup. intros n x Hx. apply (Hhi n); [done|lia].
  - constructor.
    + apply IH; intros n x Hx Hn; [apply (Hlo (Datatypes.S n))|apply (Hhi (Datatypes.S n))]; auto; lia.
    + apply Forall_app. split; [by apply Forall_take|]. constructor; [|by apply Forall_drop].
      apply (Hlo 0%nat); [done|lia].
Qed.

(** The binary searches find the ends of the run of the value. On a sorted array of
    values of one kind ([NaN] included), [sortedIndex] and [sortedLastIndex] answer after
    finitely many turns: exactly the elements before the first position sort before the
    value, exactly those from the second position on sort after it, and inserting the
    value at either keeps the array sorted. *)
Theorem sortedIndex_correct (k : kind) (v : value) (l : list value) :
  of_kind k v -> Forall (of_kind k) l -> StronglySorted (fun a b => sorts_before b a = false) l ->
  len l <= MAX_ARRAY_INDEX ->
  exists i j, sortedIndex (Some l) v ≈ mret (M := eff S) i /\ sortedLastIndex (Some l) v ≈ mret (M := eff S) j /\
    0 <= i <= len l /\ 0 <= j <= len l /\
    (forall n x, l !! n = Some x ->
       sorts_before x v = bool_decide (Z.of_nat n < i) /\ sorts_before v x = bool_decide (j <= Z.of_nat n)) /\
    (forall n, n = i \/ n = j ->
       StronglySorted (fun a b => sorts_before b a = false) (take (Z.to_nat n) l ++ v :: drop (Z.to_nat n) l)).
Proof.
  intros Hv Hl Hs Hlen.
  destruct (baseSortedIndex_spec k v l false Hv Hl Hs Hlen) as (i & Hi & Bi & Pi).
  destruct (baseSortedIndex_spec k v l true Hv Hl Hs Hlen) as (j & Hj & Bj & Pj).
  exists i, j. split; [done|]. split; [done|]. split; [done|]. split; [done|].
  assert (P : forall n x, l !! n = Some x ->
    sorts_before x v = bool_decide (Z.of_nat n < i) /\ sorts_before v x = bool_decide (j <= Z.of_nat n)).
  { intros n x Hx. split; [by apply (Pi n x)|]. specialize (Pj n x Hx). cbn in Pj.
    rewrite <- (negb_involutive (sorts_before v x)), Pj. repeat case_bool_decide; (done || lia). }
  split; [exact P|]. intros m Hm. apply sorted_insert; [done|..]; intros n x Hx Hn; destruct (P n x Hx) as [P1 P2].
  - destruct Hm as [->| ->].
    + apply (sorts_before_asym k); [by eapply Forall_lookup_1|done|]. rewrite P1. apply bool_decide_eq_true. lia.
    + rewrite P2. apply bool_decide_eq_false. lia.
  - destruct Hm as [->| ->].
    + rewrite P1. apply bool_decide_eq_false. lia.
    + apply (sorts_before_asym k); [done|by eapply Forall_lookup_1|]. rewrite P2. apply bool_decide_eq_true. lia.
Qed.
End ordered.

Definition sample_key (v : value) : value := match v with Number n => Number (nrem n (num 10)) | _ => v end.

Lemma orderBy_stable_sort_witness :
  exists es, @orderBy plain_host unit (Some [Number (num 12); Undefined; Number (num 31); Number (num 2)])
      (pure_iteratees [sample_key]) [String (str "desc")] false ≈ mret (List.map value_of es) /\
    es ≡ₚ entries [sample_key] [Number (num 12); Undefined; Number (num 31); Number (num 2)].
Proof.
  destruct (@orderBy_stable_sort plain_host unit [Numbers] [sample_key] [String (str "desc")]
    [Number (num 12); Undefined; Number (num 31); Number (num 2)]) as (es & H1 & H2 & _).
  - discriminate.
  - intros v Hv. repeat (apply elem_of_cons in Hv as [->|Hv];
      [split; repeat constructor; vm_compute; congruence|]). by apply elem_of_nil in Hv.
  - exists es. by split.
Defined.

Lemma sortedIndex_correct_witness :
  exists i, @sortedIndex plain_host unit (Some [Number (num 10); Number (num 20); Number (num 20); Undefined]) (Number (num 20))
    ≈ mret i /\ 0 <= i <= 4.
Proof.
  destruct (@sortedIndex_correct plain_host unit Numbers (Number (num 20))
    [Number (num 10); Number (num 20); Number (num 20); Undefined]) as (i & j & H1 & _ & H3 & _).
  - done.
  - by repeat constructor.
  - by repeat constructor.
  - vm_compute. congruence.
  - exists i. by split.
Defined.

(** The searches and sorts at concrete arrays. *)
Lemma sort_examples :
  fst (@sortedIndex plain_host unit (Some [Number (num 10); Number (num 20); Number (num 20); Undefined]) (Number (num 20)) tt) = Ok 1 /\
  fst (@sortedLastIndex plain_host unit (Some [Number (num 10); Number (num 20); Number (num 20); Undefined]) (Number (num 20)) tt) = Ok 3 /\
  fst (@orderBy plain_host unit (Some [Number (num 12); Undefined; Number (num 31); Number (num 2)])
      (pure_iteratees [sample_key]) [String (str "desc")] false tt)
  = Ok [Undefined; Number (num 12); Number (num 2); Number (num 31)].
Proof. by vm_compute. Qed.
