(* ===== verification/LodashTimers.v ===== *)
(** * lodash.js: functions that control when another function runs

    [debounce] and [throttle] of [immer/extra/js/lib/lodash.js] as a state machine over a
    clock and a queue of timers, [after], [before] and [once] over their counter, and
    [memoize] over a cache.

    Times and waits are whole numbers of milliseconds. A timer of the queue runs at any
    time from its due time on, in any order, as the engine chooses. *)

From S2P Require Import Prelude Js LodashLang LodashArrays LodashCaches.

(** ** [debounce] *)

(** The variables that a debounced function closes over. *)
Record debounce_state := {
  lastArgs : option (list value);
  lastThis : value;
  result_of : value;
  timerId : option Z;
  lastCallTime : option Z;
  lastInvokeTime : Z
}.

(** The parameters fixed when it is created. *)
Record debounce_config := {
  wait : Z;
  leading : bool;
  maxing : bool;
  maxWait : Z;
  trailing : bool
}.

(** The clock, the timers with their due times, and the state of the program. *)
Record world (U : Type) := World {
  clock : Z;
  timers : list (Z * Z);
  next_timer : Z;
  vars : debounce_state;
  user : U
}.
Arguments World {U} clock timers next_timer vars user.
Arguments clock {U} w.
Arguments timers {U} w.
Arguments next_timer {U} w.
Arguments vars {U} w.
Arguments user {U} w.

(** The options object: which of its properties are present, and their values. *)
Record debounce_options := {
  opt_leading : option bool;
  opt_maxWait : option Z;
  opt_trailing : option bool
}.

Definition initial_vars : debounce_state :=
  {| lastArgs := None; lastThis := Undefined; result_of := Undefined; timerId := None;
     lastCallTime := None; lastInvokeTime := 0 |}.

Definition debounce (isFunction : bool) (wait : Z) (options : option debounce_options) :
    result exn (debounce_config * debounce_state) :=
  if negb isFunction then Throw TypeError else
  let config :=
    match options with
    | Some options =>
        {| wait := wait;
           leading := default false (opt_leading options);
           maxing := match opt_maxWait options with Some _ => true | None => false end;
           maxWait := match opt_maxWait options with Some maxWait => Z.max maxWait wait | None => 0 end;
           trailing := default true (opt_trailing options) |}
    | None => {| wait := wait; leading := false; maxing := false; maxWait := 0; trailing := true |}
    end in
  Ok (config, initial_vars).

Definition throttle (isFunction : bool) (wait : Z) (options : option debounce_options) :
    result exn (debounce_config * debounce_state) :=
  if negb isFunction then Throw TypeError else
  let '(leading, trailing) :=
    match options with
    | Some options => (default true (opt_leading options), default true (opt_trailing options))
    | None => (true, true)
    end in
  debounce isFunction wait
    (Some {| opt_leading := Some leading; opt_maxWait := Some wait; opt_trailing := Some trailing |}).

Section debounced.
Context {U : Type}.
Variable func : value -> list value -> eff (world U) value.
Variable config : debounce_config.

Definition get_vars : eff (world U) debounce_state := w ← get_state; mret (vars w).
Definition set_vars (f : debounce_state -> debounce_state) : eff (world U) unit :=
  fun w => (Ok tt, World (clock w) (timers w) (next_timer w) (f (vars w)) (user w)).
Definition now : eff (world U) Z := w ← get_state; mret (clock w).

(** The engine's timers: a negative delay counts as none. *)
Definition setTimeout (delay : Z) : eff (world U) Z :=
  fun w => (Ok (next_timer w),
    World (clock w) (timers w ++ [(next_timer w, clock w + Z.max 0 delay)]) (next_timer w + 1) (vars w) (user w)).
Definition clearTimeout (id : Z) : eff (world U) unit :=
  fun w => (Ok tt,
    World (clock w) (List.filter (fun t => negb (fst t =? id)) (timers w)) (next_timer w) (vars w) (user w)).

Definition set_timer (id : option Z) (s : debounce_state) : debounce_state :=
  {| lastArgs := lastArgs s; lastThis := lastThis s; result_of := result_of s; timerId := id;
     lastCallTime := lastCallTime s; lastInvokeTime := lastInvokeTime s |}.
Definition set_result (r : value) (s : debounce_state) : debounce_state :=
  {| lastArgs := lastArgs s; lastThis := lastThis s; result_of := r; timerId := timerId s;
     lastCallTime := lastCallTime s; lastInvokeTime := lastInvokeTime s |}.
Definition set_invoke_time (time : Z) (s : debounce_state) : debounce_state :=
  {| lastArgs := lastArgs s; lastThis := lastThis s; result_of := result_of s; timerId := timerId s;
     lastCallTime := lastCallTime s; lastInvokeTime := time |}.
Definition clear_args (s : debounce_state) : debounce_state :=
  {| lastArgs := None; lastThis := Undefined; result_of := result_of s; timerId := timerId s;
     lastCallTime := lastCallTime s; lastInvokeTime := lastInvokeTime s |}.

Definition invokeFunc (time : Z) : eff (world U) value :=
  s ← get_vars;
  let args := lastArgs s in
  let thisArg := lastThis s in
  set_vars clear_args;;
  set_vars (set_invoke_time time);;
  result ← func thisArg (default [] args);
  set_vars (set_result result);;
  mret result.

Definition remainingWait (s : debounce_state) (time : Z) : Z :=
  let timeSinceLastCall := time - default 0 (lastCallTime s) in
  let timeSinceLastInvoke := time - lastInvokeTime s in
  let result := wait config - timeSinceLastCall in
  if maxing config then Z.min result (maxWait config - timeSinceLastInvoke) else result.

Definition shouldInvoke (s : debounce_state) (time : Z) : bool :=
  match lastCallTime s with
  | None => true
  | Some lastCallTime =>
      let timeSinceLastCall := time - lastCallTime in
      let timeSinceLastInvoke := time - lastInvokeTime s in
      (wait config <=? timeSinceLastCall) || (timeSinceLastCall <? 0) ||
      (maxing config && (maxWait config <=? timeSinceLastInvoke))
  end.

Definition trailingEdge (time : Z) : eff (world U) value :=
  set_vars (set_timer None);;
  s ← get_vars;
  match lastArgs s with
  | Some _ => if trailing config then invokeFunc time
              else set_vars clear_args;; mret (result_of s)
  | None => set_vars clear_args;; mret (result_of s)
  end.

Definition timerExpired : eff (world U) unit :=
  time ← now;
  s ← get_vars;
  if shouldInvoke s time then trailingEdge time;; mret tt
  else id ← setTimeout (remainingWait s time);
       set_vars (set_timer (Some id)).

Definition leadingEdge (time : Z) : eff (world U) value :=
  set_vars (set_invoke_time time);;
  id ← setTimeout (wait config);
  set_vars (set_timer (Some id));;
  s ← get_vars;
  if leading config then invokeFunc time else mret (result_of s).

Definition cancel : eff (world U) unit :=
  s ← get_vars;
  match timerId s with Some id => clearTimeout id | None => mret tt end;;
  set_vars (fun s => {| lastArgs := None; lastThis := Undefined; result_of := result_of s; timerId := None;
                        lastCallTime := None; lastInvokeTime := 0 |}).

Definition flush : eff (world U) value :=
  s ← get_vars;
  match timerId s with
  | None => mret (result_of s)
  | Some _ => time ← now; trailingEdge time
  end.

Definition debounced (this : value) (arguments : list value) : eff (world U) value :=
  time ← now;
  s ← get_vars;
  let isInvoking := shouldInvoke s time in
  set_vars (fun s => {| lastArgs := Some arguments; lastThis := this; result_of := result_of s;
                        timerId := timerId s; lastCallTime := Some time;
                        lastInvokeTime := lastInvokeTime s |});;
  if isInvoking && bool_decide (timerId s = None) then leadingEdge time
  else if isInvoking && maxing config then
    id ← setTimeout (wait config);
    set_vars (set_timer (Some id));;
    invokeFunc time
  else
    match timerId s with
    | None => id ← setTimeout (wait config); set_vars (set_timer (Some id))
    | Some _ => mret tt
    end;;
    mret (result_of s).

(** ** The engine *)

(** What can happen next: time passes, the program calls the function or its methods,
    or a timer that is due runs. *)
Inductive event :=
| Elapse (d : Z)
| Call (this : value) (args : list value)
| Fire (id : Z)
| Cancel
| Flush.

Definition elapse (d : Z) : eff (world U) unit :=
  fun w => (Ok tt, World (clock w + Z.max 0 d) (timers w) (next_timer w) (vars w) (user w)).

Definition fire (id : Z) : eff (world U) unit :=
  w ← get_state;
  match List.find (fun t => (fst t =? id) && (snd t <=? clock w)) (timers w) with
  | Some _ => clearTimeout id;; timerExpired
  | None => mret tt
  end.

End debounced.

(** ** Runs of a debounced function *)

(** What is observed, the latest first: calls of the debounced function, and
    invocations of the function behind it. *)
Inductive observation :=
| Called (time : Z) (this : value) (args : list value)
| Invoked (time : Z) (this : value) (args : list value).

Definition time_of (o : observation) : Z :=
  match o with Called t _ _ | Invoked t _ _ => t end.

Section runs.
Variable f : value -> list value -> value.
Variable config : debounce_config.

Abbreviation W := (world (list observation)).

Definition observe (o : observation) : eff W unit :=
  fun w => (Ok tt, World (clock w) (timers w) (next_timer w) (vars w) (o :: user w)).

(** The function behind: it returns a value and is seen to run. *)
Definition recorder (this : value) (args : list value) : eff W value :=
  time ← now; observe (Invoked time this args);; mret (f this args).

Definition step (e : event) : eff W unit :=
  match e with
  | Elapse d => elapse d
  | Call this args => time ← now; observe (Called time this args);; debounced recorder config this args;; mret tt
  | Fire id => fire recorder config id
  | Cancel => cancel
  | Flush => flush recorder config;; mret tt
  end.

Fixpoint steps (es : list event) (w : W) : W :=
  match es with
  | [] => w
  | e :: es => steps es (snd (step e w))
  end.

Definition start (time : Z) : W := World time [] 0 initial_vars [].

(** Every invocation directly follows a call with its arguments. *)
Fixpoint matched (log : list observation) : Prop :=
  match log with
  | Invoked t this args :: (Called t' this' args' :: _) as log =>
      this = this' /\ args = args' /\ matched log
  | Invoked _ _ _ :: _ => False
  | _ :: log => matched log
  | [] => True
  end.

(** The invariant of every run: a call that is waiting is the latest one, and a timer
    is set for it. *)
Record run_inv (w : W) : Prop := {
  inv_matched : matched (user w);
  inv_pending args : lastArgs (vars w) = Some args ->
    exists t log id, user w = Called t (lastThis (vars w)) args :: log /\
      lastCallTime (vars w) = Some t /\ timerId (vars w) = Some id;
  inv_timer id : timerId (vars w) = Some id -> exists due, (id, due) ∈ timers w;
  inv_times : StronglySorted (fun a b => time_of b <= time_of a) (user w);
  inv_clock : Forall (fun o => time_of o <= clock w) (user w);
}.

Ltac run_step := unfold step, elapse, cancel, flush, fire, timerExpired, trailingEdge, debounced, leadingEdge,
  invokeFunc, recorder, get_vars, set_vars, setTimeout, clearTimeout, now, observe, get_state, mbind, eff_bind,
  mret, eff_ret; cbn -[shouldInvoke remainingWait].

Lemma sorted_now c o (u : list observation) :
  time_of o = c -> Forall (fun o => time_of o <= c) u ->
  StronglySorted (fun a b => time_of b <= time_of a) u ->
  StronglySorted (fun a b => time_of b <= time_of a) (o :: u).
Proof. intros <- Hc Ht. by constructor. Qed.

Lemma clock_now c o (u : list observation) :
  time_of o = c -> Forall (fun o => time_of o <= c) u -> Forall (fun o => time_of o <= c) (o :: u).
Proof. intros <- Hc. constructor; [lia|done]. Qed.

Lemma start_inv time : run_inv (start time).
Proof. split; cbn; try done; constructor. Qed.

Ltac inv_goal :=
  match goal with
  | |- StronglySorted _ (_ :: _) => repeat (eapply sorted_now; [reflexivity|by eauto using clock_now|]); assumption
  | |- Forall _ (_ :: _) => eauto using clock_now
  | |- forall id, Some _ = Some id -> exists due, _ => intros ? [= <-]; eexists; apply elem_of_app; right; left
  | |- _ => intros; simplify_eq; eauto 10
  end.

Lemma matched_invoke t c this args log :
  matched (Called t this args :: log) -> matched (Invoked c this args :: Called t this args :: log).
Proof. by cbn. Qed.

Lemma step_call_inv this args w : run_inv w -> run_inv (snd (step (Call this args) w)).
Proof.
  destruct w as [c ts n [la lt r ti lc li] u]. intros [Hm Hp Hi Ht Hc]. cbn in *. run_step.
  destruct (shouldInvoke config _ c), ti as [id|]; cbn -[shouldInvoke]; destruct (leading config), (maxing config);
    cbn; split; cbn; try done; inv_goal.
Qed.

Lemma step_fire_inv id w : run_inv w -> run_inv (snd (step (Fire id) w)).
Proof.
  destruct w as [c ts n [la lt r ti lc li] u]. intros [Hm Hp Hi Ht Hc]. cbn in *. run_step.
  destruct (List.find _ ts) eqn:Hf; cbn -[shouldInvoke remainingWait]; [|by split]. destruct (shouldInvoke config _ c); cbn -[remainingWait].
  - destruct la as [args|]; cbn; [|by split; inv_goal].
    destruct (Hp args eq_refl) as (t & log & id' & -> & -> & ->).
    destruct (trailing config); cbn; split; cbn; try done; inv_goal.
  - split; cbn; try done; [|inv_goal]. intros args Ha.
    destruct (Hp args Ha) as (t & log & id' & -> & -> & _). by exists t, log, n.
Qed.

Lemma step_flush_inv w : run_inv w -> run_inv (snd (step Flush w)).
Proof.
  destruct w as [c ts n [la lt r ti lc li] u]. intros [Hm Hp Hi Ht Hc]. cbn in *. run_step.
  destruct ti as [id|]; cbn; [|by split]. destruct la as [args|]; cbn; [|by split; inv_goal].
  destruct (Hp args eq_refl) as (t & log & id' & -> & -> & _).
  destruct (trailing config); cbn; split; cbn; try done; inv_goal.
Qed.

Lemma step_inv e w : run_inv w -> run_inv (snd (step e w)).
Proof.
  destruct e; [|apply step_call_inv|apply step_fire_inv| |apply step_flush_inv];
    destruct w as [c ts n [la lt r ti lc li] u]; intros [Hm Hp Hi Ht Hc]; cbn in *.
  - split; cbn; auto. eapply Forall_impl; [exact Hc|]. cbn. intros o. lia.
  - run_step. destruct ti; split; cbn; done.
Qed.

Lemma steps_inv es w : run_inv w -> run_inv (steps es w).
Proof. revert w. induction es as [|e es IH]; intros w Hw; [done|]. apply IH, step_inv, Hw. Qed.

(** Whatever the options and the sequence of events, every invocation of a debounced
    function's target is for the latest call: it has that call's [this] and arguments, and
    no call is invoked twice. *)
Theorem debounce_matches (time : Z) (es : list event) : matched (user (steps es (start time))).
Proof. apply steps_inv, start_inv. Qed.

(** Every invocation comes at least [wait] after its call. *)
Fixpoint waited (log : list observation) : Prop :=
  match log with
  | Invoked t _ _ :: (Called t' _ _ :: _) as log => t' + wait config <= t /\ waited log
  | _ :: log => waited log
  | [] => True
  end.

Lemma matched_tail o log : matched (o :: log) -> matched log.
Proof. destruct o; [done|]. destruct log as [|[] log]; cbn; tauto. Qed.
Lemma waited_tail o log : waited (o :: log) -> waited log.
Proof. destruct o; [done|]. destruct log as [|[] log]; cbn; tauto. Qed.
Lemma matched_suffix a log : matched (a ++ log) -> matched log.
Proof. induction a; [done|]. intros Hm%matched_tail. auto. Qed.
Lemma waited_suffix a log : waited (a ++ log) -> waited log.
Proof. induction a; [done|]. intros Hm%waited_tail. auto. Qed.

Lemma step_waited e w :
  leading config = false -> maxing config = false -> e <> Flush ->
  run_inv w -> waited (user w) -> waited (user (snd (step e w))).
Proof.
  intros Hl Hx He. destruct w as [c ts n [la lt r ti lc li] u]. intros [Hm Hp Hi Ht Hc] Hw. cbn in *.
  destruct e as [d|this args|id| |]; [done| | | |done]; run_step.
  - rewrite Hl, Hx. destruct (shouldInvoke config _ c), ti; cbn -[shouldInvoke]; done.
  - destruct (List.find _ ts); cbn -[shouldInvoke remainingWait]; [|done].
    destruct (shouldInvoke config _ c) eqn:Hs; cbn -[remainingWait]; [|done].
    destruct la as [args|]; cbn; [|done]. destruct (Hp args eq_refl) as (t & log & id' & -> & -> & ->).
    destruct (trailing config); cbn; [|done]. split; [|done].
    unfold shouldInvoke in Hs. cbn in Hs. rewrite Hx in Hs. apply Forall_cons in Hc as [Hc _]. cbn in Hc. lia.
  - destruct ti; done.
Qed.

Lemma steps_waited es w :
  leading config = false -> maxing config = false -> Forall (fun e => e <> Flush) es ->
  run_inv w -> waited (user w) -> waited (user (steps es w)).
Proof.
  intros Hl Hx Hes. revert w. induction Hes as [|e es He _ IH]; intros w Hi Hw; [done|].
  cbn [steps]. apply IH; [by apply step_inv|by apply step_waited].
Qed.

Lemma sorted_suffix (a b : list observation) :
  StronglySorted (fun x y => time_of y <= time_of x) (a ++ b) ->
  StronglySorted (fun x y => time_of y <= time_of x) b.
Proof. induction a; [done|]. intros Hs. apply IHa. by inversion Hs. Qed.

(** C34: Two invocations of the target of a debounced function that has neither the
    leading edge nor [maxWait] are at least [wait] apart, as long as it is not flushed. *)
Theorem debounce_spacing (time : Z) (es : list event) a t2 this2 args2 b t1 this1 args1 c :
  leading config = false -> maxing config = false -> Forall (fun e => e <> Flush) es ->
  user (steps es (start time)) = a ++ Invoked t2 this2 args2 :: b ++ Invoked t1 this1 args1 :: c ->
  t1 + wait config <= t2.
Proof.
  intros Hl Hx Hes Hu. destruct (steps_inv es _ (start_inv time)) as [Hm _ _ Ht _].
  pose proof (steps_waited es (start time) Hl Hx Hes (start_inv time) I) as Hw.
  rewrite Hu in Hm, Ht, Hw.
  apply matched_suffix in Hm. apply waited_suffix in Hw. apply sorted_suffix in Ht.
  destruct b as [|[t this args|] b]; cbn [app] in *; [done| |done].
  destruct Hw as [Hw _]. inversion_clear Ht as [|? ? Ht' _]. inversion_clear Ht' as [|? ? _ Hf].
  apply Forall_app in Hf as [_ Hf]. apply Forall_cons in Hf as [Hf _]. cbn in Hf. lia.
Qed.

(** What a timer that is due does while a call is waiting. *)
Lemma fire_due id due d (w : W) args :
  trailing config = true -> lastArgs (vars w) = Some args -> (id, due) ∈ timers w ->
  due <= clock w + Z.max 0 d ->
  let c := clock w + Z.max 0 d in
  let w1 := steps [Elapse d; Fire id] w in
  clock w1 = c /\
  if shouldInvoke config (vars w) c then user w1 = Invoked c (lastThis (vars w)) args :: user w
  else user w1 = user w /\ vars w1 = set_timer (Some (next_timer w)) (vars w) /\
       (next_timer w, c + Z.max 0 (remainingWait config (vars w) c)) ∈ timers w1.
Proof.
  destruct w as [c0 ts n [la lt r ti lc li] u]. cbn [vars timers clock lastArgs lastThis user next_timer].
  intros Htr -> Hin Hd. cbn [steps]. run_step. set (c := c0 + Z.max 0 d) in *.
  destruct (List.find _ ts) eqn:Hf.
  2:{ apply list_elem_of_In in Hin. pose proof (find_none _ _ Hf _ Hin) as Hn. cbn in Hn.
      rewrite Z.eqb_refl in Hn. cbn in Hn. lia. }
  cbn -[shouldInvoke remainingWait]. destruct (shouldInvoke config _ c); cbn -[shouldInvoke remainingWait].
  - by rewrite Htr.
  - split; [done|]. split; [done|]. split; [done|]. apply elem_of_app. right. by left.
Qed.

(** The rest of the wait is enough. *)
Lemma shouldInvoke_later (s : debounce_state) t c c' :
  lastCallTime s = Some t -> shouldInvoke config s c = false ->
  c + Z.max 0 (remainingWait config s c) <= c' -> shouldInvoke config s c' = true.
Proof.
  unfold shouldInvoke, remainingWait. intros ->. cbn [default]. unfold id.
  destruct (maxing config); cbn; lia.
Qed.

(** C35: A call that is waiting is carried out. Let the trailing edge be on, and take any run
    after which the latest call is still pending: it was neither invoked nor cancelled, so that
    its arguments are kept in [lastArgs]. Then a timer is set; when it runs, at or after its due
    time, the target is invoked with that call's [this] and arguments, or another timer is set
    which does so when it runs. *)
Theorem debounce_liveness (time : Z) (es : list event) (args : list value) :
  let w := steps es (start time) in
  trailing config = true -> lastArgs (vars w) = Some args ->
  exists id due, timerId (vars w) = Some id /\ (id, due) ∈ timers w /\
  forall d, due <= clock w + Z.max 0 d ->
  let w1 := steps [Elapse d; Fire id] w in
  (user w1 = Invoked (clock w1) (lastThis (vars w)) args :: user w) \/
  exists id' due', timerId (vars w1) = Some id' /\ (id', due') ∈ timers w1 /\
    forall d', due' <= clock w1 + Z.max 0 d' ->
    let w2 := steps [Elapse d'; Fire id'] w1 in
    user w2 = Invoked (clock w2) (lastThis (vars w)) args :: user w.
Proof.
  intros w Htr Ha. destruct (steps_inv es _ (start_inv time)) as [_ Hp Hi _ _]. fold w in Hp, Hi.
  destruct (Hp args Ha) as (t & log & id & Hu & Hlc & Hid). destruct (Hi id Hid) as [due Hdue].
  exists id, due. split; [done|]. split; [done|]. intros d Hd w1. destruct (fire_due id due d w args Htr Ha Hdue Hd) as [Hc1 Hf1]. fold w1 in Hc1, Hf1.
  rewrite <- Hc1 in Hf1. destruct (shouldInvoke config (vars w) (clock w1)) eqn:Hs; [by left|].
  destruct Hf1 as (Hu1 & Hv1 & Ht1). right. exists (next_timer w). eexists. split; [by rewrite Hv1|].
  split; [exact Ht1|]. intros d' Hd' w2.
  destruct (fire_due _ _ d' w1 args Htr ltac:(by rewrite Hv1) Ht1 Hd') as [Hc2 Hf2]. fold w2 in Hc2, Hf2.
  rewrite Hv1 in Hf2. change (shouldInvoke config (set_timer ?i ?s)) with (shouldInvoke config s) in Hf2.
  rewrite (shouldInvoke_later (vars w) t (clock w1)), Hu1 in Hf2 by done. by rewrite Hc2.
Qed.
End runs.

(** ** Examples *)

Definition debounce_50 : debounce_config :=
  {| wait := 50; leading := false; maxing := false; maxWait := 0; trailing := true |}.

Definition identity_func (_ : value) (args : list value) : value := args.[0].

Definition two_calls : list event :=
  [Call Undefined [Number (num 1)]; Elapse 50; Fire 0; Call Undefined [Number (num 2)]; Elapse 60; Fire 1].

Lemma debounce_spacing_witness : 1050 + 50 <= 1110.
Proof.
  apply (debounce_spacing identity_func debounce_50 1000 two_calls
    [] 1110 Undefined [Number (num 2)] [Called 1050 Undefined [Number (num 2)]]
    1050 Undefined [Number (num 1)] [Called 1000 Undefined [Number (num 1)]]).
  - reflexivity.
  - reflexivity.
  - by repeat constructor.
  - vm_compute. reflexivity.
Defined.

Lemma debounce_liveness_witness :
  lastArgs (vars (steps identity_func debounce_50 [Call Undefined [Number (num 7)]] (start 1000))) =
    Some [Number (num 7)] /\
  exists id, timerId (vars (steps identity_func debounce_50 [Call Undefined [Number (num 7)]] (start 1000))) = Some id.
Proof.
  split; [reflexivity|].
  destruct (debounce_liveness identity_func debounce_50 1000 [Call Undefined [Number (num 7)]] [Number (num 7)])
    as (id & _ & Hid & _); [reflexivity..|]. by exists id.
Defined.

(** Runs the innermost event and decides the comparisons of times. *)
Ltac run_event :=
  match goal with
  | |- context [snd (step ?f ?c ?e (World ?t ?ts ?n ?s ?u))] =>
      let w := fresh "w" in let E := fresh "E" in
      remember (snd (step f c e (World t ts n s u))) as w eqn:E;
      unfold step, elapse, fire, timerExpired, trailingEdge, debounced, leadingEdge, invokeFunc, recorder, get_vars, set_vars, setTimeout,
        clearTimeout, now, observe, get_state, mbind, eff_bind, mret, eff_ret, shouldInvoke in E; cbn in E; rewrite ?Z.max_r in E by lia;
      repeat (match type of E with
      | context [Z.leb ?x ?y] => destruct (Z.leb_spec x y); try lia
      | context [Z.ltb ?x ?y] => destruct (Z.ltb_spec x y); try lia
      end; cbn in E); subst w
  end.

(** What [throttle] makes of a wait and no options. *)
Definition throttle_config (w : Z) : debounce_config :=
  {| wait := w; leading := true; maxing := true; maxWait := w; trailing := true |}.

(** A call, a second one after [a], the timer once it is due, and a third call [e] later. *)
Definition late_call (w a e : Z) (call1 call2 call3 : value * list value) : list event :=
  [Call call1.1 call1.2; Elapse a; Call call2.1 call2.2; Elapse (w - a); Fire 0; Elapse e; Call call3.1 call3.2].

(** C36: A throttled function can be invoked twice within its wait. With the default options, whatever the wait [w], the
    function and the time: after a call, a second one [a] later and the trailing edge that
    invokes it at [w], a third call comes between [a] and [w] after that invocation. It
    measures the wait from the call before it, not from the trailing invocation, starts a
    leading edge, and the function is invoked again at once. *)
Theorem throttle_invokes_early (f : value -> list value -> value) (w t a e : Z) (call1 call2 call3 : value * list value) :
  0 <= a <= e -> e < w ->
  throttle true w None = Ok (throttle_config w, initial_vars) /\
  user (steps f (throttle_config w) (late_call w a e call1 call2 call3) (start t)) =
    [Invoked (t + w + e) call3.1 call3.2; Called (t + w + e) call3.1 call3.2;
     Invoked (t + w) call2.1 call2.2; Called (t + a) call2.1 call2.2;
     Invoked t call1.1 call1.2; Called t call1.1 call1.2].
Proof.
  intros Ha Hw. split; [cbn; by rewrite Z.max_id|]. destruct call1 as [t1 x1], call2 as [t2 x2], call3 as [t3 x3]. cbn [fst snd late_call steps].
  unfold start. do 7 run_event; by replace (t + a + (w - a)) with (t + w) by lia.
Qed.

Lemma throttle_invokes_early_witness :
  user (steps identity_func (throttle_config 100)
      (late_call 100 50 50 (Undefined, [Number (num 1)]) (Undefined, [Number (num 2)]) (Undefined, [Number (num 3)])) (start 1000)) =
    [Invoked 1150 Undefined [Number (num 3)]; Called 1150 Undefined [Number (num 3)];
     Invoked 1100 Undefined [Number (num 2)]; Called 1050 Undefined [Number (num 2)];
     Invoked 1000 Undefined [Number (num 1)]; Called 1000 Undefined [Number (num 1)]].
Proof.
  apply (throttle_invokes_early identity_func 100 1000 50 50 (Undefined, [Number (num 1)]) (Undefined, [Number (num 2)]) (Undefined, [Number (num 3)])); lia.
Defined.

(** When calls outpace the timer, the [maxWait] branch sets a new timer without clearing
    the one it replaces, and [cancel] clears only the new one. *)
Lemma cancel_leaves_timer :
  timers (steps identity_func (throttle_config 100)
    [Call Undefined []; Elapse 100; Call Undefined []; Cancel] (start 1000)) = [(0, 1100)].
Proof. by vm_compute. Qed.

(** ** [after], [before] and [once] *)

(** A closure keeps a state [C] next to the state of the program. *)
Definition lift {C U A} (m : eff U A) : eff (C * U) A :=
  fun '(c, u) => let '(r, u) := m u in (r, (c, u)).
Definition closure {C U} : eff (C * U) C := fun '(c, u) => (Ok c, (c, u)).
Definition set_closure {C U} (c : C) : eff (C * U) unit := fun '(_, u) => (Ok tt, (c, u)).

Section counters.
Context `{JsHost} {U : Type}.
Variable func : value -> list value -> eff U value.

Definition after (n : value) (isFunction : bool) : result exn number :=
  if negb isFunction then Throw TypeError else Ok (toInteger n).

(** The function that [after] returns, over its counter. *)
Definition after_function (this : value) (arguments : list value) : eff (number * U) value :=
  n ← closure;
  let n := nsub n (num 1) in
  set_closure n;;
  if nltb n (num 1) then lift (func this arguments) else mret Undefined.

Record before_state := { before_n : number; before_result : value; has_func : bool }.

Definition before (n : value) (isFunction : bool) : result exn before_state :=
  if negb isFunction then Throw TypeError
  else Ok {| before_n := toInteger n; before_result := Undefined; has_func := true |}.

Definition before_function (this : value) (arguments : list value) : eff (before_state * U) value :=
  s ← closure;
  let n := nsub (before_n s) (num 1) in
  set_closure {| before_n := n; before_result := before_result s; has_func := has_func s |};;
  (if nltb (num 0) n then
     if has_func s then
       result ← lift (func this arguments);
       set_closure {| before_n := n; before_result := result; has_func := has_func s |}
     else throw TypeError
   else mret tt);;
  s ← closure;
  (if nleb n (num 1) then
     set_closure {| before_n := n; before_result := before_result s; has_func := false |}
   else mret tt);;
  s ← closure;
  mret (before_result s).

Definition once (isFunction : bool) : result exn before_state := before (Number (num 2)) isFunction.

End counters.

(** ** [memoize] *)

Section memoize.
Context {U C : Type} `{MapLike C}.
Variable func : value -> list value -> eff U value.
Variable resolver : option (value -> list value -> eff U value).

Definition memoize (funcIsFunction resolverIsFunction : bool) (new_cache : C) : result exn C :=
  if negb funcIsFunction || (match resolver with Some _ => negb resolverIsFunction | None => false end)
  then Throw TypeError else Ok new_cache.

(** The memoized function, over its cache. *)
Definition memoized (this : value) (args : list value) : eff (C * U) value :=
  key ← match resolver with
        | Some resolver => lift (resolver this args)
        | None => mret args.[0]
        end;
  cache ← closure;
  if ml_has cache key then mret (ml_get cache key)
  else result ← lift (func this args);
       set_closure (ml_set cache key result);;
       mret result.

End memoize.

(** ** Sequences of calls *)

Fixpoint call_all {S} (fn : value -> list value -> eff S value) (calls : list (list value)) : eff S (list value) :=
  match calls with
  | [] => mret []
  | args :: calls => r ← fn Undefined args; rs ← call_all fn calls; mret (r :: rs)
  end.

(** A function that returns a value and is seen to run. *)
Definition logged (f : list value -> value) (this : value) (args : list value) : eff (list (list value)) value :=
  fun log => (Ok (f args), log ++ [args]).

Section counted.
Variable f : list value -> value.

Lemma after_run k calls log :
  small_int k -> small_int (k - len calls) ->
  call_all (after_function (logged f)) calls (num k, log) =
  (Ok (List.map (fun _ => Undefined) (take (Z.to_nat (k - 1)) calls) ++ List.map f (drop (Z.to_nat (k - 1)) calls)),
   (num (k - len calls), log ++ drop (Z.to_nat (k - 1)) calls)).
Proof.
  revert k log. induction calls as [|args calls IH]; intros k log Hk Hl.
  { rewrite take_nil, drop_nil, !app_nil_r. cbn [length Z.of_nat]. rewrite Z.sub_0_r. reflexivity. }
  cbn [length] in Hl.
  assert (Hk1 : small_int (k - 1)) by (unfold small_int in *; lia).
  assert (Hl1 : small_int (k - 1 - len calls)).
  { replace (k - 1 - len calls) with (k - Z.of_nat (S (length calls))) by lia. done. }
  cbn [call_all]. unfold mbind, eff_bind, after_function at 1. unfold mbind, eff_bind. cbn [closure set_closure].
  rewrite nsub_num, nltb_num by (done || (unfold small_int; lia)).
  replace (k - len (args :: calls)) with (k - 1 - len calls) by (cbn [length]; lia).
  destruct (Z.ltb_spec (k - 1) 1) as [Hlt|Hge]; cbn [lift logged mret eff_ret].
  - rewrite IH by done. replace (Z.to_nat (k - 1 - 1)) with 0%nat by lia.
    replace (Z.to_nat (k - 1)) with 0%nat by lia. cbn. by rewrite <- app_assoc.
  - unfold mret, eff_ret. rewrite IH by done.
    replace (Z.to_nat (k - 1)) with (S (Z.to_nat (k - 1 - 1))) by lia. done.
Qed.

(** What the function of [before] answers after [result] once its counter is [k]. *)
Fixpoint before_results (k : Z) (result : value) (calls : list (list value)) : list value :=
  match calls with
  | [] => []
  | args :: calls =>
      let result := if 0 <? k - 1 then f args else result in
      result :: before_results (k - 1) result calls
  end.

Lemma before_run k calls result has log :
  small_int k -> small_int (k - len calls) -> (1 < k -> has = true) ->
  exists s, call_all (before_function (logged f)) calls
    ({| before_n := num k; before_result := result; has_func := has |}, log) =
  (Ok (before_results k result calls), (s, log ++ take (Z.to_nat (k - 1)) calls)).
Proof.
  revert k result has log. induction calls as [|args calls IH]; intros k result has log Hk Hl Hf.
  { rewrite take_nil, app_nil_r. by eexists. }
  cbn [length] in Hl.
  assert (Hk1 : small_int (k - 1)) by (unfold small_int in *; lia).
  assert (Hl1 : small_int (k - 1 - len calls)).
  { replace (k - 1 - len calls) with (k - Z.of_nat (S (length calls))) by lia. done. }
  cbn [call_all before_results]. unfold mbind, eff_bind, before_function at 1. unfold mbind, eff_bind.
  cbn [closure set_closure before_n before_result has_func].
  rewrite nsub_num, nltb_num, nleb_num by (done || (unfold small_int; lia)).
  destruct (Z.ltb_spec 0 (k - 1)) as [H0|H0].
  - rewrite Hf by lia. unfold lift, logged at 1. cbn [closure set_closure before_n before_result has_func].
    replace (Z.to_nat (k - 1)) with (S (Z.to_nat (k - 1 - 1))) by lia. cbn [take].
    destruct (Z.leb_spec (k - 1) 1); unfold mret, eff_ret; cbn [closure set_closure before_result];
      (edestruct (IH (k - 1) (f args)) as [s Hs]; [done..| |rewrite Hs, <- app_assoc; by eexists]); lia.
  - replace (Z.to_nat (k - 1)) with 0%nat by lia. rewrite (proj2 (Z.leb_le (k - 1) 1)) by lia.
    unfold mret, eff_ret. cbn [closure set_closure before_result take].
    edestruct (IH (k - 1) result) as [s Hs]; [done..| |rewrite Hs; replace (Z.to_nat (k - 1 - 1)) with 0%nat by lia; by eexists].
    lia.
Qed.

Lemma before_results_done k result calls :
  k <= 1 -> before_results k result calls = List.map (fun _ => result) calls.
Proof.
  revert k. induction calls as [|args calls IH]; intros k Hk; [done|]. cbn.
  destruct (Z.ltb_spec 0 (k - 1)); [lia|]. rewrite IH by lia. done.
Qed.

Lemma last_cons {A} (l : list A) x d : List.last (x :: l) d = List.last l x.
Proof.
  revert x d. induction l as [|y l IH]; intros x d; [done|].
  change (List.last (x :: y :: l) d) with (List.last (y :: l) d). by rewrite !IH.
Qed.

Lemma before_results_take k result calls :
  before_results k result calls =
  List.map f (take (Z.to_nat (k - 1)) calls) ++
  List.map (fun _ => List.last (List.map f (take (Z.to_nat (k - 1)) calls)) result) (drop (Z.to_nat (k - 1)) calls).
Proof.
  revert k result. induction calls as [|args calls IH]; intros k result; [by rewrite take_nil, drop_nil|].
  cbn [before_results]. destruct (Z.ltb_spec 0 (k - 1)) as [H0|H0].
  - rewrite IH. replace (Z.to_nat (k - 1)) with (S (Z.to_nat (k - 1 - 1))) by lia.
    cbn [take drop List.map app]. by rewrite last_cons.
  - rewrite before_results_done by lia. by replace (Z.to_nat (k - 1)) with 0%nat by lia.
Qed.

(** [after] and [before] count calls. The function of [after(k, func)] answers
    [undefined] to its first [k - 1] calls and runs [func] for every later one; that of
    [before(k, func)] runs [func] for its first [k - 1] calls and answers every later
    one with the last result. *)
Theorem after_before_calls (k : Z) (calls : list (list value)) :
  small_int k -> small_int (k - len calls) ->
  let n := Z.to_nat (k - 1) in
  (exists c, call_all (after_function (logged f)) calls (num k, []) =
     (Ok (List.map (fun _ => Undefined) (take n calls) ++ List.map f (drop n calls)), (c, drop n calls))) /\
  (exists s, call_all (before_function (logged f)) calls
       ({| before_n := num k; before_result := Undefined; has_func := true |}, []) =
     (Ok (List.map f (take n calls) ++
          List.map (fun _ => List.last (List.map f (take n calls)) Undefined) (drop n calls)), (s, take n calls))).
Proof.
  intros Hk Hl n. split.
  - eexists. apply (after_run k calls []); done.
  - destruct (before_run k calls Undefined true []) as [s Hs]; [done..|]. exists s.
    rewrite Hs, before_results_take. done.
Qed.
End counted.

Lemma after_before_calls_witness :
  exists s, call_all (before_function (logged (fun args => args.[0])))
      [[Number (num 5)]; [Number (num 6)]; [Number (num 7)]]
      ({| before_n := num 2; before_result := Undefined; has_func := true |}, []) =
    (Ok [Number (num 5); Number (num 5); Number (num 5)], (s, [[Number (num 5)]])).
Proof.
  destruct (after_before_calls (fun args => args.[0]) 2
    [[Number (num 5)]; [Number (num 6)]; [Number (num 7)]]) as [_ [s Hs]]; [done..|]. by exists s.
Defined.

(** ** Memoized calls *)

(** The calls that run the function: those whose key no earlier call had. *)
Fixpoint first_calls (seen : list (list value)) (calls : list (list value)) : list (list value) :=
  match calls with
  | [] => []
  | args :: calls =>
      match List.find (fun earlier => eq earlier.[0] args.[0]) seen with
      | Some _ => first_calls (seen ++ [args]) calls
      | None => args :: first_calls (seen ++ [args]) calls
      end
  end.

Section memoized_calls.
Context {C : Type} `{MapLike C}.
Variable f : list value -> value.

Definition first_with (calls : list (list value)) (key : value) : option (list value) :=
  List.find (fun args => eq args.[0] key) calls.

(** The cache holds the value of the first call with each key. *)
Definition memo_inv (c : C) (calls : list (list value)) : Prop :=
  ml_valid c /\ forall k, key_ok k -> ml_model c k = f <$> first_with calls k.

Lemma find_app {A} (p : A -> bool) l k :
  List.find p (l ++ k) = match List.find p l with Some x => Some x | None => List.find p k end.
Proof. induction l as [|x l IH]; cbn; [done|]. by destruct (p x). Qed.

Lemma memo_inv_snoc c calls args :
  memo_inv c calls -> key_ok args.[0] -> ml_val (f args) ->
  match first_with calls args.[0] with
  | Some _ => memo_inv c (calls ++ [args])
  | None => memo_inv (ml_set c args.[0] (f args)) (calls ++ [args])
  end.
Proof.
  intros [Hv Hm] Hk Hf. unfold memo_inv, first_with in *. destruct (List.find _ calls) as [a|] eqn:E.
  - split; [done|]. intros k Hk'. rewrite Hm, find_app by done.
    destruct (List.find (fun args => eq args.[0] k) calls) eqn:E'; [done|]. cbn [List.find].
    destruct (eq args.[0] k) eqn:Ek; [|done]. exfalso.
    pose proof (find_some _ _ E) as [Hin Ha]. pose proof (find_none _ _ E' _ Hin) as Hn. cbv beta in Ha, Hn.
    rewrite (eq_cong _ _ k Ha) in Hn. congruence.
  - destruct (ml_set_law c args.[0] (f args) Hv Hk Hf) as [Hv' Hs]. split; [done|].
    intros k Hk'. rewrite Hs, find_app by done.
    destruct (List.find (fun args => eq args.[0] k) calls) as [a|] eqn:E'.
    + destruct (eq args.[0] k) eqn:Ek; [|by rewrite Hm, E']. exfalso.
      pose proof (find_some _ _ E') as [Hin Ha]. pose proof (find_none _ _ E _ Hin) as Hn. cbv beta in Ha, Hn.
      rewrite (eq_cong _ _ _ Ha), eq_sym in Hn. congruence.
    + cbn [List.find]. destruct (eq args.[0] k); [done|]. by rewrite Hm, E'.
Qed.

Lemma memoized_run calls before c log :
  memo_inv c before -> Forall (fun args => key_ok args.[0] /\ ml_val (f args)) calls ->
  exists c', call_all (memoized (logged f) None) calls (c, log) =
    (Ok (imap (fun i args => default Undefined (f <$> first_with (before ++ take (S i) calls) args.[0])) calls),
     (c', log ++ first_calls before calls)).
Proof.
  revert before c log. induction calls as [|args calls IH]; intros before c log Hi Hc.
  { rewrite app_nil_r. by eexists. }
  apply Forall_cons in Hc as [[Hk Hf] Hc]. pose proof (memo_inv_snoc c before args Hi Hk Hf) as Hs.
  destruct Hi as [Hv Hm]. cbn [call_all first_calls]. unfold mbind, eff_bind, memoized at 1.
  unfold mbind, eff_bind, mret, eff_ret. cbn [closure]. rewrite ml_has_law, ml_get_law, Hm by done.
  assert (Hext : forall i, before ++ take (S (S i)) (args :: calls) = (before ++ [args]) ++ take (S i) calls)
    by (intros; cbn [take]; by rewrite <- app_assoc).
  assert (Himap : imap (fun i a => default Undefined (f <$> first_with (before ++ take (S i) (args :: calls)) a.[0])) (args :: calls)
    = default Undefined (f <$> first_with (before ++ [args]) args.[0]) ::
      imap (fun i a => default Undefined (f <$> first_with ((before ++ [args]) ++ take (S i) calls) a.[0])) calls).
  { cbn [imap]. f_equal. apply imap_ext. intros i a _. cbn [compose]. by rewrite Hext. }
  rewrite Himap. clear Himap Hext.
  unfold first_with in Hs |- * at 1 2 3. rewrite find_app. unfold first_with in Hs.
  destruct (List.find (fun a => eq a.[0] args.[0]) before) as [a|] eqn:E; cbn [fmap option_fmap option_map default].
  - destruct (IH (before ++ [args]) c log Hs Hc) as [c' ->]. by exists c'.
  - unfold lift, logged at 1. cbn [set_closure].
    destruct (IH (before ++ [args]) _ (log ++ [args]) Hs Hc) as [c' ->]. exists c'.
    cbn [List.find]. rewrite eq_norm, bool_decide_eq_true_2 by done. by rewrite <- app_assoc.
Qed.

Lemma first_with_take calls i args :
  calls !! i = Some args -> first_with (take (S i) calls) args.[0] = first_with calls args.[0].
Proof.
  intros Hi. rewrite <- (take_drop (S i) calls) at 2. unfold first_with. rewrite find_app.
  destruct (List.find _ (take (S i) calls)) eqn:E; [done|]. exfalso.
  assert (Hin : args ∈ take (S i) calls).
  { apply list_elem_of_lookup. exists i. by rewrite lookup_take_lt by lia. }
  apply list_elem_of_In in Hin. pose proof (find_none _ _ E _ Hin) as Hn. cbv beta in Hn.
  by rewrite eq_norm, bool_decide_eq_true_2 in Hn.
Qed.

Lemma first_calls_fresh before calls args :
  args ∈ first_calls before calls -> first_with before args.[0] = None.
Proof.
  revert before. induction calls as [|a calls IH]; intros before Hin; [by apply elem_of_nil in Hin|].
  cbn [first_calls] in Hin. unfold first_with in *.
  assert (Hmono : List.find (fun x => eq x.[0] args.[0]) (before ++ [a]) = None ->
                  List.find (fun x => eq x.[0] args.[0]) before = None).
  { rewrite find_app. destruct (List.find (fun x => eq x.[0] args.[0]) before); [discriminate|done]. }
  destruct (List.find (fun earlier => eq earlier.[0] a.[0]) before) eqn:E; [auto|].
  apply elem_of_cons in Hin as [->|Hin]; auto.
Qed.

Lemma first_calls_distinct before calls :
  StronglySorted (fun a b => eq a.[0] b.[0] = false) (first_calls before calls).
Proof.
  revert before. induction calls as [|a calls IH]; intros before; cbn [first_calls]; [constructor|].
  destruct (List.find _ before); [done|]. constructor; [done|]. apply Forall_forall. intros b Hb.
  apply first_calls_fresh in Hb. unfold first_with in Hb. rewrite find_app in Hb.
  destruct (List.find _ before); [done|]. cbn [List.find] in Hb. by destruct (eq a.[0] b.[0]).
Qed.

(** A memoized function runs once per key. Over any cache that keeps the contract of
    a map, a sequence of calls answers each call with the value of the first call that
    has the same first argument, up to SameValueZero, and only those first calls run the
    function. *)
Theorem memoize_once (c : C) (calls : list (list value)) :
  ml_valid c -> (forall k, key_ok k -> ml_model c k = None) ->
  Forall (fun args => key_ok args.[0] /\ ml_val (f args)) calls ->
  exists c', call_all (memoized (logged f) None) calls (c, []) =
    (Ok (List.map (fun args => default Undefined (f <$> first_with calls args.[0])) calls),
     (c', first_calls [] calls)) /\
  StronglySorted (fun a b => eq a.[0] b.[0] = false) (first_calls [] calls).
Proof.
  intros Hv Hm Hc. destruct (memoized_run calls [] c []) as [c' Hr]; [by split|done|].
  exists c'. split; [|apply first_calls_distinct]. rewrite Hr. do 2 f_equal.
  apply list_eq. intros i. rewrite list_lookup_imap.
  rewrite list_lookup_fmap. destruct (calls !! i) as [args|] eqn:Hi; cbn [fmap option_fmap option_map]; [|done].
  cbn [app]. by rewrite (first_with_take calls i).
Qed.
End memoized_calls.

Lemma memoize_once_witness :
  exists c', call_all (memoized (H := map_cache_map true) (logged (fun args => args.[1])) None)
      [[Number (num 5); Null]; [String (str "a"); Undefined]; [Number (num 5); Boolean true]]
      (new_MapCache true true [], []) =
    (Ok [Null; Undefined; Null], (c', [[Number (num 5); Null]; [String (str "a"); Undefined]])).
Proof.
  destruct (new_MapCache_model true true []) as [Hv Hm]; [constructor..|].
  destruct (memoize_once (H := map_cache_map true) (fun args => args.[1]) (new_MapCache true true [])
    [[Number (num 5); Null]; [String (str "a"); Undefined]; [Number (num 5); Boolean true]])
    as (c' & Hr & _); [exact Hv|exact Hm| |exists c'; exact Hr].
  repeat apply Forall_cons_2; try apply Forall_nil_2; split; vm_compute; reflexivity.
Defined.
