(* ===== verification/LodashWrap.v ===== *)
(** * lodash.js: function wrappers

    [createWrap] and the wrappers it builds in [immer/extra/js/lib/lodash.js]: partial
    application with placeholders, binding, currying, reordering and capping of
    arguments, and [mergeData], which folds a wrapper of a wrapper into one.

    A function is either one of the program's own ([Native]) or a wrapper with the data
    it closes over. A call of a wrapper may return another wrapper, as currying does. *)

From S2P Require Import Prelude Js LodashLang LodashArrays LodashLists.

Definition BIND_FLAG : Z := 1.
Definition BIND_KEY_FLAG : Z := 2.
Definition CURRY_BOUND_FLAG : Z := 4.
Definition CURRY_FLAG : Z := 8.
Definition CURRY_RIGHT_FLAG : Z := 16.
Definition PARTIAL_FLAG : Z := 32.
Definition PARTIAL_RIGHT_FLAG : Z := 64.
Definition ARY_FLAG : Z := 128.
Definition REARG_FLAG : Z := 256.
Definition FLIP_FLAG : Z := 512.

(** [bitmask & flag] as a condition. *)
Definition has_flag (bitmask flag : Z) : bool := negb (Z.land bitmask flag =? 0).

(** ** Arguments *)

Definition composeArgs (args partials : list value) (holders : list Z) (isCurried : bool) : list value :=
  let argsLength := len args in
  let holdersLength := len holders in
  let leftLength := len partials in
  let rangeLength := Z.max (argsLength - holdersLength) 0 in
  let result := replicate (Z.to_nat (leftLength + rangeLength)) Undefined in
  let isUncurried := negb isCurried in
  let result := ended (loop (R := list value) (fun leftIndex v result =>
    inl (set_index result leftIndex v)) 0 partials result) in
  let result := ended (loop (R := list value) (fun argsIndex holder result =>
    inl (if isUncurried || (argsIndex <? argsLength) then set_index result holder args.[argsIndex]
         else result)) 0 holders result) in
  ended (loop (R := list value) (fun _ i result =>
    inl (set_index result (leftLength + i) args.[holdersLength + i])) 0 (seqZ 0 rangeLength) result).

Definition composeArgsRight (args partials : list value) (holders : list Z) (isCurried : bool) : list value :=
  let argsLength := len args in
  let holdersLength := len holders in
  let rightLength := len partials in
  let rangeLength := Z.max (argsLength - holdersLength) 0 in
  let result := replicate (Z.to_nat (rangeLength + rightLength)) Undefined in
  let isUncurried := negb isCurried in
  let result := ended (loop (R := list value) (fun _ argsIndex result =>
    inl (set_index result argsIndex args.[argsIndex])) 0 (seqZ 0 rangeLength) result) in
  let offset := rangeLength in
  let result := ended (loop (R := list value) (fun rightIndex v result =>
    inl (set_index result (offset + rightIndex) v)) 0 partials result) in
  fst (ended (loop (R := list value * Z) (fun _ holder '(result, argsIndex) =>
    inl (if isUncurried || (argsIndex <? argsLength)
         then (set_index result (offset + holder) args.[argsIndex], argsIndex + 1)
         else (result, argsIndex))) 0 holders (result, rangeLength))).

Definition reorder `{JsHost} (array indexes : list value) : list value :=
  let arrLength := len array in
  let length := Z.min (len indexes) arrLength in
  let oldArray := copyArray array None in
  ended (loop_right (R := list value) (fun i index array =>
    inl (set_index array i (if isIndex index (Some arrLength) then oldArray.[trunc (to_number index)] else Undefined)))
    0 (take (Z.to_nat length) indexes) array).

(** ** Functions *)

(** How a function is called: as a function, on an object made from its prototype, or
    by [new]. *)
Inductive call_mode := Apply | Instance | Construct.

Inductive wrap_kind := ByBind | ByCurry | ByPartial | ByHybrid.

Section wrappers.
Context `{JsHost} {S : Type}.

Inductive fn :=
| Native (fn_length : Z) (fn_apply : value -> list value -> eff S value) (fn_new : list value -> eff S value)
| Wrap (kind : wrap_kind) (data : wrap_data) (meta : option wrap_data) (placeholder : value)
(** The metadata array: [func, bitmask, thisArg, partials, holders, partialsRight,
    holdersRight, argPos, ary, arity]. *)
with wrap_data :=
| Data (func : target) (bitmask : Z) (thisArg : value)
    (partials : option (list value)) (holders : option (list Z))
    (partialsRight : option (list value)) (holdersRight : option (list Z))
    (argPos : option (list value)) (ary : option number) (arity : option number)
(** What a wrapper calls: a function, or for [bindKey] a method by its key. *)
with target :=
| Fn (f : fn)
| Key (key : value).

Inductive outcome := Value (v : value) | Function (f : fn).

Definition is_object (o : outcome) : bool :=
  match o with Value v => isObject v | Function _ => true end.

(** [func.length]; a wrapper declares no parameters. *)
Definition fn_size (f : fn) : Z := match f with Native n _ _ => n | Wrap _ _ _ _ => 0 end.

(** The engine: whether it has [WeakMap], the placeholder set on lodash itself if any,
    the methods of objects, and the making of an object from a prototype. *)
Variable metaMap : bool.
Variable lodash_placeholder : option value.
Variable method : value -> value -> call_mode -> value -> list value -> eff S outcome.
Variable baseCreate : eff S value.
Variable isLaziable : target -> bool.

Definition getData (f : fn) : option wrap_data :=
  if metaMap then match f with Native _ _ _ => None | Wrap _ _ meta _ => meta end else None.

(** [func.placeholder] is the placeholder field of a wrapper. *)
Definition getHolder (placeholder : value) : value := default placeholder lodash_placeholder.

(** The store of [setData]: it stops recording metadata when called too often. *)
Record hot_state := { hot_count : Z; lastCalled : Z }.
Definition HOT_COUNT : Z := 150.
Definition HOT_SPAN : Z := 16.

(** Whether [setData] stores at the time [stamp], and its next state. *)
Definition setData (stamp : Z) (s : hot_state) : bool * hot_state :=
  let remaining := HOT_SPAN - (stamp - lastCalled s) in
  if 0 <? remaining then
    let count := hot_count s + 1 in
    (negb (HOT_COUNT <=? count), {| hot_count := count; lastCalled := stamp |})
  else (true, {| hot_count := 0; lastCalled := stamp |}).

(** ** The wrappers *)

(** [run] calls the function that is wrapped. *)
Definition createCtor (run : call_mode -> value -> list value -> eff S outcome) (args : list value) : eff S outcome :=
  if len args <=? 7 then run Construct Undefined args
  else
    thisBinding ← baseCreate;
    result ← run Instance thisBinding args;
    mret (if is_object result then result else Value thisBinding).

Definition createBind (run : call_mode -> value -> list value -> eff S outcome) (bitmask : Z) (thisArg : value)
    (isNew : bool) (this : value) (arguments : list value) : eff S outcome :=
  let isBind := has_flag bitmask BIND_FLAG in
  if isNew then createCtor run arguments
  else run Apply (if isBind then thisArg else this) arguments.

Definition createPartial (run : call_mode -> value -> list value -> eff S outcome) (bitmask : Z) (thisArg : value)
    (partials : list value) (isNew : bool) (this : value) (arguments : list value) : eff S outcome :=
  let isBind := has_flag bitmask BIND_FLAG in
  let leftLength := len partials in
  let args := replicate (length partials + length arguments) Undefined in
  let args := ended (loop (R := list value) (fun leftIndex v args => inl (set_index args leftIndex v)) 0 partials args) in
  let args := ended (loop (R := list value) (fun argsIndex v args =>
    inl (set_index args (leftLength + argsIndex) v)) 0 arguments args) in
  if isNew then createCtor run args
  else run Apply (if isBind then thisArg else this) args.

(** The wrapper of [createRecurry]; [stores] says whether [setData] records it. *)
Definition createRecurry (func : target) (bitmask : Z) (placeholder thisArg : value) (partials : list value)
    (holders : list Z) (argPos : option (list value)) (ary : option number) (arity : number) (stores : bool) : fn :=
  let isCurry := has_flag bitmask CURRY_FLAG in
  let newHolders := if isCurry then Some holders else None in
  let newHoldersRight := if isCurry then None else Some holders in
  let newPartials := if isCurry then Some partials else None in
  let newPartialsRight := if isCurry then None else Some partials in
  let bitmask := Z.lor bitmask (if isCurry then PARTIAL_FLAG else PARTIAL_RIGHT_FLAG) in
  let bitmask := Z.ldiff bitmask (if isCurry then PARTIAL_RIGHT_FLAG else PARTIAL_FLAG) in
  let bitmask := if negb (has_flag bitmask CURRY_BOUND_FLAG)
                 then Z.ldiff bitmask (Z.lor BIND_FLAG BIND_KEY_FLAG) else bitmask in
  let newData := Data func bitmask thisArg newPartials newHolders newPartialsRight newHoldersRight argPos ary (Some arity) in
  Wrap ByHybrid newData (if isLaziable func && stores && metaMap then Some newData else None) placeholder.

(** [stores] is the answer of [setData] at the time of the call. *)
Definition createCurry (func : target) (run : call_mode -> value -> list value -> eff S outcome) (bitmask : Z)
    (arity : number) (wrapper_placeholder : value) (stores : bool)
    (isNew : bool) (this : value) (arguments : list value) : eff S outcome :=
  let length := len arguments in
  let placeholder := getHolder wrapper_placeholder in
  let '(args, holders) :=
    if (length <? 3) && negb (strict_eq arguments.[0] placeholder) &&
       negb (strict_eq arguments.[length - 1] placeholder)
    then (arguments, []) else replaceHolders arguments placeholder in
  let length := length - len holders in
  if nltb (num length) arity then
    mret (Function (createRecurry func bitmask wrapper_placeholder Undefined args holders None None
      (nsub arity (num length)) stores))
  else if isNew then createCtor run args
  else run Apply this args.

Definition createHybrid (data : wrap_data) (run : call_mode -> value -> list value -> eff S outcome)
    (run_method : value -> call_mode -> value -> list value -> eff S outcome)
    (wrapper_placeholder : value) (stores : bool) (isNew : bool) (this : value) (arguments : list value) : eff S outcome :=
  let '(Data func bitmask thisArg partials holders partialsRight holdersRight argPos ary arity) := data in
  let isAry := has_flag bitmask ARY_FLAG in
  let isBind := has_flag bitmask BIND_FLAG in
  let isBindKey := has_flag bitmask BIND_KEY_FLAG in
  let isCurried := has_flag bitmask (Z.lor CURRY_FLAG CURRY_RIGHT_FLAG) in
  let isFlip := has_flag bitmask FLIP_FLAG in
  let placeholder := getHolder wrapper_placeholder in
  let holdersCount := if isCurried then countHolders arguments placeholder else 0 in
  let args := match partials with
              | Some partials => composeArgs arguments partials (default [] holders) isCurried
              | None => arguments end in
  let args := match partialsRight with
              | Some partialsRight => composeArgsRight args partialsRight (default [] holdersRight) isCurried
              | None => args end in
  let length := len arguments - holdersCount in
  let arity := default nan arity in
  if isCurried && nltb (num length) arity then
    let '(args, newHolders) := replaceHolders args placeholder in
    mret (Function (createRecurry func bitmask wrapper_placeholder thisArg args newHolders argPos ary
      (nsub arity (num length)) stores))
  else
    let thisBinding := if isBind then thisArg else this in
    let run := if isBindKey then run_method thisBinding else run in
    let length := len args in
    let args := match argPos with
                | Some argPos => reorder args argPos
                | None => if isFlip && (1 <? length) then List.rev args else args end in
    let args := if isAry && nltb (default nan ary) (num length) then take (Z.to_nat (trunc (default nan ary))) args
                else args in
    if isNew then createCtor run args
    else run Apply thisBinding args.

(** A call of a function. *)
Fixpoint call (stores : bool) (f : fn) (mode : call_mode) (this : value) (args : list value) {struct f} : eff S outcome :=
  match f with
  | Native _ fn_apply fn_new =>
      v ← match mode with Construct => fn_new args | _ => fn_apply this args end;
      mret (Value v)
  | Wrap kind data _ placeholder =>
      match data with
      | Data func bitmask thisArg partials _ _ _ _ _ arity =>
          let run := match func with
                     | Fn g => call stores g
                     | Key _ => fun _ _ _ => throw TypeError
                     end in
          let run_method := match func with
                            | Fn _ => fun _ _ _ _ => throw TypeError
                            | Key key => fun object => method object key
                            end in
          let isNew := match mode with Apply => false | _ => true end in
          match kind with
          | ByBind => createBind run bitmask thisArg isNew this args
          | ByCurry => createCurry func run bitmask (default nan arity) placeholder stores isNew this args
          | ByPartial => createPartial run bitmask thisArg (default [] partials) isNew this args
          | ByHybrid => createHybrid data run run_method placeholder stores isNew this args
          end
      end
  end.


(** ** [createWrap] *)

Definition mergeData (data source : wrap_data) : wrap_data :=
  let '(Data func bitmask thisArg partials holders partialsRight holdersRight argPos ary arity) := data in
  let '(Data srcFunc srcBitmask srcThisArg srcPartials srcHolders srcPartialsRight srcHoldersRight srcArgPos srcAry srcArity) :=
    source in
  let newBitmask := Z.lor bitmask srcBitmask in
  let isCommon := newBitmask <? Z.lor (Z.lor BIND_FLAG BIND_KEY_FLAG) ARY_FLAG in
  let isCombo :=
    ((srcBitmask =? ARY_FLAG) && (bitmask =? CURRY_FLAG)) ||
    ((srcBitmask =? ARY_FLAG) && (bitmask =? REARG_FLAG) && nleb (num (len (default [] argPos))) (default nan srcAry)) ||
    ((srcBitmask =? Z.lor ARY_FLAG REARG_FLAG) && nleb (num (len (default [] srcArgPos))) (default nan srcAry) &&
     (bitmask =? CURRY_FLAG)) in
  if negb (isCommon || isCombo) then data else
  let '(thisArg, newBitmask) :=
    if has_flag srcBitmask BIND_FLAG
    then (srcThisArg, Z.lor newBitmask (if has_flag bitmask BIND_FLAG then 0 else CURRY_BOUND_FLAG))
    else (thisArg, newBitmask) in
  let '(partials, holders) :=
    match srcPartials with
    | Some v =>
        match partials with
        | Some partials =>
            let '(args, holders) := replaceHolders (composeArgs partials v (default [] srcHolders) false) PLACEHOLDER in
            (Some args, Some holders)
        | None => (Some v, srcHolders)
        end
    | None => (partials, holders)
    end in
  let '(partialsRight, holdersRight) :=
    match srcPartialsRight with
    | Some v =>
        match partialsRight with
        | Some partialsRight =>
            let '(args, holders) :=
              replaceHolders (composeArgsRight partialsRight v (default [] srcHoldersRight) false) PLACEHOLDER in
            (Some args, Some holders)
        | None => (Some v, srcHoldersRight)
        end
    | None => (partialsRight, holdersRight)
    end in
  let argPos := match srcArgPos with Some v => Some v | None => argPos end in
  let ary := if has_flag srcBitmask ARY_FLAG
             then match ary with None => srcAry | Some a => Some (nmin a (default nan srcAry)) end
             else ary in
  let arity := match arity with None => srcArity | Some a => Some a end in
  Data srcFunc newBitmask thisArg partials holders partialsRight holdersRight argPos ary arity.

(** A target that is not a function is [None]. *)
Definition createWrap (func : option target) (bitmask : Z) (thisArg : value) (partials : option (list value))
    (holders : option (list Z)) (argPos : option (list value)) (ary arity : option value) (stores : bool) :
    result exn fn :=
  let isBindKey := has_flag bitmask BIND_KEY_FLAG in
  match func with
  | None => Throw TypeError
  | Some func =>
  if negb isBindKey && (match func with Fn _ => false | Key _ => true end) then Throw TypeError else
  let length := match partials with Some partials => len partials | None => 0 end in
  let '(bitmask, partials, holders) :=
    if length =? 0 then (Z.ldiff bitmask (Z.lor PARTIAL_FLAG PARTIAL_RIGHT_FLAG), None, None)
    else (bitmask, partials, holders) in
  let ary := (fun ary => nmax (toInteger ary) (num 0)) <$> ary in
  let arity := toInteger <$> arity in
  let length := length - match holders with Some holders => len holders | None => 0 end in
  let '(partials, holders, partialsRight, holdersRight) :=
    if has_flag bitmask PARTIAL_RIGHT_FLAG then (None, None, partials, holders)
    else (partials, holders, None, None) in
  let data := if isBindKey then None else match func with Fn f => getData f | Key _ => None end in
  let newData := Data func bitmask thisArg partials holders partialsRight holdersRight argPos ary arity in
  let newData := match data with Some data => mergeData newData data | None => newData end in
  let '(Data func bitmask thisArg partials holders partialsRight holdersRight argPos ary arity) := newData in
  let arity := match arity with
               | None => if isBindKey then num 0 else match func with Fn f => num (fn_size f) | Key _ => num 0 end
               | Some arity => nmax (nsub arity (num length)) (num 0) end in
  let newData := Data func bitmask thisArg partials holders partialsRight holdersRight argPos ary (Some arity) in
  let bitmask' :=
    if neqb arity (num 0) && has_flag bitmask (Z.lor CURRY_FLAG CURRY_RIGHT_FLAG)
    then Z.ldiff bitmask (Z.lor CURRY_FLAG CURRY_RIGHT_FLAG) else bitmask in
  let '(kind, bitmask') :=
    if (bitmask' =? 0) || (bitmask' =? BIND_FLAG) then (ByBind, bitmask')
    else if (bitmask' =? CURRY_FLAG) || (bitmask' =? CURRY_RIGHT_FLAG) then (ByCurry, bitmask')
    else if ((bitmask' =? PARTIAL_FLAG) || (bitmask' =? Z.lor BIND_FLAG PARTIAL_FLAG)) && (len (default [] holders) =? 0)
    then (ByPartial, bitmask')
    else (ByHybrid, bitmask) in
  let meta := match data with
              | Some _ => if metaMap then Some newData else None
              | None => if stores && metaMap then Some newData else None
              end in
  Ok (Wrap kind (Data func bitmask' thisArg partials holders partialsRight holdersRight argPos ary (Some arity)) meta Undefined)
  end.

(** ** The public functions *)

(** [stores] is the answer of [setData]; [placeholder] the property of that name of the
    function itself. *)
Section public.
Variable stores : bool.
Variable placeholder : value.

(** The partial arguments with uniform placeholders, and where these are. *)
Definition held (partials : list value) : list value * list Z := replaceHolders partials (getHolder placeholder).

Definition bind (func : option target) (thisArg : value) (partials : list value) : result exn fn :=
  if 0 <? len partials then
    let '(partials, holders) := held partials in
    createWrap func (Z.lor BIND_FLAG PARTIAL_FLAG) thisArg (Some partials) (Some holders) None None None stores
  else createWrap func BIND_FLAG thisArg (Some partials) None None None None stores.

Definition bindKey (object key : value) (partials : list value) : result exn fn :=
  let bitmask := Z.lor BIND_FLAG BIND_KEY_FLAG in
  if 0 <? len partials then
    let '(partials, holders) := held partials in
    createWrap (Some (Key key)) (Z.lor bitmask PARTIAL_FLAG) object (Some partials) (Some holders) None None None stores
  else createWrap (Some (Key key)) bitmask object (Some partials) None None None None stores.

Definition partial (func : option target) (partials : list value) : result exn fn :=
  let '(partials, holders) := held partials in
  createWrap func PARTIAL_FLAG Undefined (Some partials) (Some holders) None None None stores.

Definition partialRight (func : option target) (partials : list value) : result exn fn :=
  let '(partials, holders) := held partials in
  createWrap func PARTIAL_RIGHT_FLAG Undefined (Some partials) (Some holders) None None None stores.

Definition set_placeholder (f : fn) (placeholder : value) : fn :=
  match f with
  | Native n a c => Native n a c
  | Wrap kind data meta _ => Wrap kind data meta placeholder
  end.

Definition curry (func : option target) (arity : option value) (guard : bool) : result exn fn :=
  let arity := if guard then None else arity in
  result ← createWrap func CURRY_FLAG Undefined None None None None arity stores;
  Ok (set_placeholder result placeholder).

Definition curryRight (func : option target) (arity : option value) (guard : bool) : result exn fn :=
  let arity := if guard then None else arity in
  result ← createWrap func CURRY_RIGHT_FLAG Undefined None None None None arity stores;
  Ok (set_placeholder result placeholder).

Definition ary (func : option target) (n : option value) (guard : bool) : result exn fn :=
  let n := if guard then None else n in
  let n := match func, n with Some (Fn f), None => Some (Number (num (fn_size f))) | _, n => n end in
  createWrap func ARY_FLAG Undefined None None None n None stores.

Definition unary (func : option target) : result exn fn := ary func (Some (Number (num 1))) false.

(** The indexes are flattened one level before. *)
Definition rearg (func : option target) (indexes : list value) : result exn fn :=
  createWrap func REARG_FLAG Undefined None None (Some indexes) None None stores.

Definition flip (func : option target) : result exn fn :=
  createWrap func FLIP_FLAG Undefined None None None None None stores.

End public.
End wrappers.

(** ** What a partial application passes on *)

Definition is_holder (v : value) : bool := strict_eq v PLACEHOLDER.

(** The placeholders take the arguments from the left, missing ones being [undefined];
    the other arguments follow. *)
Fixpoint fill_in (partials args : list value) : list value :=
  match partials with
  | [] => args
  | p :: partials =>
      if is_holder p then
        match args with
        | a :: args => a :: fill_in partials args
        | [] => Undefined :: fill_in partials []
        end
      else p :: fill_in partials args
  end.

(** The positions of the placeholders, from [i]. *)
Fixpoint holders_from (i : Z) (partials : list value) : list Z :=
  match partials with
  | [] => []
  | p :: partials => (if is_holder p then [i] else []) ++ holders_from (i + 1) partials
  end.

(** The placeholders replaced by the arguments from position [j]. *)
Fixpoint filled (j : Z) (partials args : list value) : list value :=
  match partials with
  | [] => []
  | p :: partials => if is_holder p then args.[j] :: filled (j + 1) partials args else p :: filled j partials args
  end.

Lemma set_index_mid (pre : list value) x post i v :
  i = len pre -> set_index (pre ++ x :: post) i v = pre ++ v :: post.
Proof.
  intros ->. unfold set_index. rewrite length_app. cbn [length].
  destruct (Z.ltb_spec (len pre) (Z.of_nat (length pre + S (length post)))); [|lia].
  rewrite Nat2Z.id, insert_app_r_alt, Nat.sub_diag by lia. done.
Qed.

(** Writing a list over the elements after a prefix. *)
Lemma write_list (l : list value) pre old post i off :
  off + i = len pre -> length old = length l ->
  ended (loop (R := list value) (fun j v a => inl (set_index a (off + j) v)) i l (pre ++ old ++ post)) = pre ++ l ++ post.
Proof.
  revert pre old i. induction l as [|v l IH]; intros pre [|o old] i Hi Hl; try done. cbn [loop app].
  rewrite set_index_mid by done.
  replace (pre ++ v :: old ++ post) with ((pre ++ [v]) ++ old ++ post) by (by rewrite <- app_assoc).
  rewrite IH; [by rewrite <- app_assoc|rewrite length_app; cbn; lia|by injection Hl].
Qed.

Lemma write_start (l old post : list value) :
  length old = length l ->
  ended (loop (R := list value) (fun j v a => inl (set_index a j v)) 0 l (old ++ post)) = l ++ post.
Proof. intros Hl. exact (write_list l [] old post 0 0 eq_refl Hl). Qed.

Lemma length_filled j ps args : length (filled j ps args) = length ps.
Proof. revert j. induction ps as [|p ps IH]; intros j; cbn; [done|]. case_match; cbn; by rewrite IH. Qed.

(** The second loop of [composeArgs]. *)
Lemma fill_holders args ps pre post i j off :
  i + off = len pre ->
  ended (loop (R := list value) (fun argsIndex holder result =>
    inl (set_index result (off + holder) args.[argsIndex])) j (holders_from i ps) (pre ++ ps ++ post))
  = pre ++ filled j ps args ++ post.
Proof.
  revert pre i j. induction ps as [|p ps IH]; intros pre i j Hi; [done|]. cbn [holders_from filled].
  assert (Happ : forall x l, pre ++ (x :: l) ++ post = (pre ++ [x]) ++ l ++ post) by (intros; by rewrite <- app_assoc).
  destruct (is_holder p); cbn [app loop].
  - rewrite set_index_mid by lia.
    replace (pre ++ args.[j] :: ps ++ post) with ((pre ++ [args.[j]]) ++ ps ++ post) by (by rewrite <- app_assoc).
    rewrite IH; [by rewrite <- app_assoc|rewrite length_app; cbn; lia].
  - replace (pre ++ p :: ps ++ post) with ((pre ++ [p]) ++ ps ++ post) by (by rewrite <- app_assoc).
    rewrite IH; [by rewrite <- app_assoc|rewrite length_app; cbn; lia].
Qed.

(** A loop over indexes that writes after a prefix. *)
Lemma write_seq (g : Z -> value) n s k off pre old post :
  off + s = len pre -> length old = n ->
  ended (loop (R := list value) (fun _ i a => inl (set_index a (off + i) (g i))) k (seqZ s (Z.of_nat n)) (pre ++ old ++ post))
  = pre ++ List.map g (seqZ s (Z.of_nat n)) ++ post.
Proof.
  revert s k pre old. induction n as [|n IH]; intros s k pre old Hs Hl.
  { by destruct old. }
  destruct old as [|o old]; [done|]. rewrite seqZ_cons by lia. cbn [loop app List.map].
  rewrite set_index_mid by done.
  replace (pre ++ g s :: old ++ post) with ((pre ++ [g s]) ++ old ++ post) by (by rewrite <- app_assoc).
  replace (Z.pred (Z.of_nat (S n))) with (Z.of_nat n) by lia.
  rewrite IH; [by rewrite <- app_assoc|rewrite length_app; cbn; lia|by injection Hl].
Qed.

Lemma map_slice (args : list value) h n :
  (h + n <= length args)%nat ->
  List.map (fun i => args.[Z.of_nat h + i]) (seqZ 0 (Z.of_nat n)) = take n (drop h args).
Proof.
  intros Hn. apply list_eq_same_length with n; [rewrite length_take, length_drop; lia|rewrite length_map, length_seqZ; lia|].
  intros i x y Hi Hx Hy. apply list_lookup_fmap_Some in Hx as (z & -> & Hz). apply lookup_seqZ in Hz as [-> _].
  rewrite lookup_take_lt, lookup_drop in Hy by done. apply at_index_lookup; [lia|].
  by replace (Z.to_nat (Z.of_nat h + (0 + Z.of_nat i))) with (h + i)%nat by lia.
Qed.

Lemma fill_filled ps args j :
  fill_in ps (drop j args) = filled (Z.of_nat j) ps args ++ drop (j + length (holders_from 0 ps)) args.
Proof.
  assert (Hl : forall ps i i', length (holders_from i ps) = length (holders_from i' ps)).
  { clear. induction ps as [|p ps IH]; intros i i'; [done|]. cbn [holders_from]. rewrite !length_app, (IH (i + 1) (i' + 1)).
    by destruct (is_holder p). }
  revert j. induction ps as [|p ps IH]; intros j; [by rewrite Nat.add_0_r|].
  cbn [fill_in filled holders_from]. rewrite length_app, (Hl ps (0 + 1) 0).
  destruct (is_holder p); cbn [length].
  - replace (Z.of_nat j + 1) with (Z.of_nat (S j)) by lia.
    replace (j + (1 + length (holders_from 0 ps)))%nat with (S j + length (holders_from 0 ps))%nat by lia.
    cbn [app]. rewrite <- IH. destruct (drop j args) as [|a rest] eqn:E.
    + rewrite (drop_ge args (S j)); [|apply (f_equal length) in E; rewrite length_drop in E; cbn in E; lia].
      f_equal. unfold at_index. destruct (Z.ltb_spec (Z.of_nat j) 0); [lia|]. rewrite Nat2Z.id.
      rewrite lookup_ge_None_2; [done|]. apply (f_equal length) in E. rewrite length_drop in E. cbn in E. lia.
    + assert (Ha : args !! j = Some a) by (by rewrite <- (Nat.add_0_r j), <- lookup_drop, E).
      rewrite (drop_S _ _ _ Ha) in E. injection E as <-. f_equal. symmetry.
      apply at_index_lookup; [lia|]. by rewrite Nat2Z.id.
  - cbn [app Nat.add]. by rewrite IH.
Qed.

(** [composeArgs] fills the placeholders. *)
Lemma composeArgs_fill args ps : composeArgs args ps (holders_from 0 ps) false = fill_in ps args.
Proof.
  unfold composeArgs. cbn [negb orb]. set (r := Z.to_nat (Z.max (len args - len (holders_from 0 ps)) 0)).
  replace (Z.max (len args - len (holders_from 0 ps)) 0) with (Z.of_nat r) by lia.
  replace (Z.to_nat (len ps + Z.of_nat r)) with (length ps + r)%nat by lia. rewrite replicate_add.
  rewrite write_start by by rewrite length_replicate.
  assert (Hf : ended (loop (R := list value) (fun argsIndex holder result => inl (set_index result holder args.[argsIndex]))
      0 (holders_from 0 ps) (ps ++ replicate r Undefined)) = filled 0 ps args ++ replicate r Undefined)
    by exact (fill_holders args ps [] (replicate r Undefined) 0 0 0 eq_refl).
  cbn [app]. rewrite Hf. clear Hf.
  pose proof (write_seq (fun i => args.[len (holders_from 0 ps) + i]) r 0 0 (len ps) (filled 0 ps args) (replicate r Undefined) []) as Hw.
  rewrite app_nil_r in Hw. rewrite Hw; [|by rewrite length_filled, Z.add_0_r|by rewrite length_replicate].
  rewrite app_nil_r. pose proof (fill_filled ps args 0) as Hff. cbn [drop] in Hff. rewrite drop_0 in Hff. rewrite Hff. f_equal.
  destruct (Nat.le_gt_cases (length (holders_from 0 ps)) (length args)).
  - rewrite map_slice by lia. apply take_ge. rewrite length_drop. lia.
  - replace r with 0%nat by lia. cbn. symmetry. apply drop_ge. lia.
Qed.

Lemma fill_holders_right args ps pre post i j k off :
  i + off = len pre ->
  fst (ended (loop (R := list value * Z) (fun _ holder '(result, argsIndex) =>
    inl (set_index result (off + holder) args.[argsIndex], argsIndex + 1)) k (holders_from i ps) (pre ++ ps ++ post, j)))
  = pre ++ filled j ps args ++ post.
Proof.
  revert pre i j k. induction ps as [|p ps IH]; intros pre i j k Hi; [done|]. cbn [holders_from filled].
  destruct (is_holder p); cbn [app loop].
  - rewrite set_index_mid by lia.
    replace (pre ++ args.[j] :: ps ++ post) with ((pre ++ [args.[j]]) ++ ps ++ post) by (by rewrite <- app_assoc).
    rewrite IH; [by rewrite <- app_assoc|rewrite length_app; cbn; lia].
  - replace (pre ++ p :: ps ++ post) with ((pre ++ [p]) ++ ps ++ post) by (by rewrite <- app_assoc).
    rewrite IH; [by rewrite <- app_assoc|rewrite length_app; cbn; lia].
Qed.

(** [composeArgsRight] passes on the first arguments and fills the placeholders with the
    last ones. *)
Lemma composeArgsRight_fill args ps :
  let r := (length args - length (holders_from 0 ps))%nat in
  composeArgsRight args ps (holders_from 0 ps) false = take r args ++ fill_in ps (drop r args).
Proof.
  intros r. unfold composeArgsRight. cbn [negb orb].
  replace (Z.max (len args - len (holders_from 0 ps)) 0) with (Z.of_nat r) by lia.
  replace (Z.to_nat (Z.of_nat r + len ps)) with (r + length ps)%nat by lia. rewrite replicate_add.
  assert (H1 : ended (loop (R := list value) (fun _ argsIndex result => inl (set_index result argsIndex args.[argsIndex]))
      0 (seqZ 0 (Z.of_nat r)) (replicate r Undefined ++ replicate (length ps) Undefined))
    = take r args ++ replicate (length ps) Undefined).
  { etransitivity; [exact (write_seq (fun i => args.[i]) r 0 0 0 [] (replicate r Undefined)
      (replicate (length ps) Undefined) eq_refl (length_replicate _ _))|]. cbn [app]. f_equal.
    exact (map_slice args 0 r ltac:(lia)). }
  rewrite H1. clear H1.
  assert (Hr : length (take r args) = r) by (rewrite length_take; lia).
  assert (H2 : ended (loop (R := list value) (fun rightIndex v result => inl (set_index result (Z.of_nat r + rightIndex) v))
      0 ps (take r args ++ replicate (length ps) Undefined)) = take r args ++ ps).
  { pose proof (write_list ps (take r args) (replicate (length ps) Undefined) [] 0 (Z.of_nat r)) as Hw.
    rewrite !app_nil_r in Hw. rewrite Hw; [done|by rewrite Hr, Z.add_0_r|by rewrite length_replicate]. }
  rewrite H2. clear H2.
  pose proof (fill_holders_right args ps (take r args) [] 0 (Z.of_nat r) 0 (Z.of_nat r)) as H3.
  rewrite !app_nil_r in H3. rewrite H3 by (rewrite Hr; lia). f_equal.
  rewrite fill_filled, (drop_ge args) by lia. by rewrite app_nil_r.
Qed.

(** Arguments with their placeholders made uniform. *)
Definition uniform (placeholder v : value) : value :=
  if strict_eq v placeholder || is_holder v then PLACEHOLDER else v.

Lemma replaceHolders_spec l ph :
  replaceHolders l ph = (List.map (uniform ph) l, holders_from 0 (List.map (uniform ph) l)).
Proof.
  unfold replaceHolders.
  assert (Hg : forall l pre i acc, i = len pre ->
    ended (loop (R := list value * list Z) (fun index v '(array, result) =>
      inl (if strict_eq v ph || strict_eq v PLACEHOLDER then (set_index array index PLACEHOLDER, result ++ [index])
           else (array, result))) i l (pre ++ l, acc))
    = (pre ++ List.map (uniform ph) l, acc ++ holders_from i (List.map (uniform ph) l))).
  { clear l. induction l as [|v l IH]; intros pre i acc Hi; [by rewrite !app_nil_r|]. cbn [loop List.map holders_from].
    unfold uniform at 1 3. fold (is_holder v). destruct (strict_eq v ph || is_holder v) eqn:E.
    - rewrite set_index_mid by done. change (is_holder PLACEHOLDER) with true. cbn [app].
      replace (pre ++ PLACEHOLDER :: l) with ((pre ++ [PLACEHOLDER]) ++ l) by (by rewrite <- app_assoc).
      rewrite IH by (rewrite length_app; cbn; lia). by rewrite <- !app_assoc.
    - apply orb_false_iff in E as [_ ->]. cbn [app].
      replace (pre ++ v :: l) with ((pre ++ [v]) ++ l) by (by rewrite <- app_assoc).
      rewrite IH by (rewrite length_app; cbn; lia). by rewrite <- !app_assoc. }
  exact (Hg l [] 0 [] eq_refl).
Qed.

Lemma uniform_placeholder v : uniform PLACEHOLDER v = v.
Proof.
  unfold uniform, is_holder. rewrite orb_diag. destruct (strict_eq v PLACEHOLDER) eqn:E; [|done].
  destruct v; try done. cbn [strict_eq PLACEHOLDER] in E. by apply bool_decide_eq_true in E as ->.
Qed.

(** Filling twice is filling with filled arguments, where the first filling leaves no
    placeholder without an argument. *)
Lemma fill_fill ps qs args :
  (length (holders_from 0 ps) <= length qs)%nat -> fill_in (fill_in ps qs) args = fill_in ps (fill_in qs args).
Proof.
  assert (Hl : forall ps i i', length (holders_from i ps) = length (holders_from i' ps)).
  { clear. induction ps as [|p ps IH]; intros i i'; [done|]. cbn [holders_from]. rewrite !length_app, (IH (i + 1) (i' + 1)).
    by destruct (is_holder p). }
  revert qs args. induction ps as [|p ps IH]; intros qs args Hq; [done|]. cbn [fill_in].
  cbn [holders_from] in Hq. rewrite length_app, (Hl ps (0 + 1) 0) in Hq. destruct (is_holder p) eqn:Ep; cbn [length] in Hq.
  - destruct qs as [|q qs]; [cbn in Hq; lia|]. cbn [length] in Hq. cbn [fill_in].
    destruct (is_holder q); [destruct args as [|a args]|]; rewrite IH by lia; done.
  - cbn [fill_in]. rewrite Ep, IH by lia. done.
Qed.

(** Evaluate the operations on literal bitmasks. *)
Ltac evaluate t := let v := eval vm_compute in t in change t with v.
Ltac bits :=
  cbv beta iota zeta delta [BIND_FLAG BIND_KEY_FLAG CURRY_BOUND_FLAG CURRY_FLAG CURRY_RIGHT_FLAG PARTIAL_FLAG
    PARTIAL_RIGHT_FLAG ARY_FLAG REARG_FLAG FLIP_FLAG];
  repeat match goal with
  | |- context [Z.lor (Zpos ?p) (Zpos ?q)] => evaluate (Z.lor (Zpos p) (Zpos q))
  | |- context [Z.lor (Zpos ?p) 0] => evaluate (Z.lor (Zpos p) 0)
  | |- context [Z.ldiff (Zpos ?p) (Zpos ?q)] => evaluate (Z.ldiff (Zpos p) (Zpos q))
  | |- context [has_flag (Zpos ?p) (Zpos ?q)] => evaluate (has_flag (Zpos p) (Zpos q))
  | |- context [Zpos ?p =? Zpos ?q] => evaluate (Zpos p =? Zpos q)
  | |- context [Zpos ?p =? 0] => evaluate (Zpos p =? 0)
  | |- context [Zpos ?p <? Zpos ?q] => evaluate (Zpos p <? Zpos q)
  | |- context [?b && false] => rewrite (andb_false_r b)
  | |- context [false && ?b] => change (false && b) with false
  | |- context [true && ?b] => change (true && b) with b
  | |- context [true || ?b] => change (true || b) with true
  | |- context [false || ?b] => change (false || b) with b
  | |- context [negb false] => change (negb false) with true
  | |- context [negb true] => change (negb true) with false
  | |- context [match ?c with true => ?x | false => ?x end] => replace (if c then x else x) with x by (by destruct c)
  end.

Section partial_wrappers.
Context `{JsHost} {S : Type}.
Variable metaMap : bool.
Variable lodash_placeholder : option value.
Variable method : value -> value -> call_mode -> value -> list value -> eff S (outcome (S := S)).
Variable baseCreate : eff S value.
Variable isLaziable : target (S := S) -> bool.

Abbreviation call := (call metaMap lodash_placeholder method baseCreate isLaziable).

Lemma call_partial stores kind f bitmask thisArg ps ary arity meta ph this args :
  (kind = ByHybrid /\ bitmask ∈ [32; 33; 36; 37]) \/
  (kind = ByPartial /\ bitmask ∈ [32; 33] /\ holders_from 0 ps = []) ->
  call stores (Wrap kind (Data (Fn f) bitmask thisArg (Some ps) (Some (holders_from 0 ps)) None None None ary arity) meta ph)
    Apply this args =
  call stores f Apply (if has_flag bitmask BIND_FLAG then thisArg else this) (fill_in ps args).
Proof.
  intros [[-> Hb]|(-> & Hb & Hh)]; cbn [LodashWrap.call].
  - unfold createHybrid. cbn [default id]. rewrite <- composeArgs_fill.
    repeat (apply elem_of_cons in Hb as [->|Hb]; [reflexivity|]). by apply elem_of_nil in Hb.
  - unfold createPartial. cbn [default id]. rewrite replicate_add.
    rewrite write_start by by rewrite length_replicate.
    pose proof (write_list args ps (replicate (length args) Undefined) [] 0 (len ps)) as Hw.
    rewrite !app_nil_r in Hw. rewrite Hw by (rewrite ?length_replicate; lia).
    pose proof (fill_filled ps args 0) as Hf. rewrite drop_0, Hh in Hf. cbn [length Nat.add] in Hf. rewrite drop_0 in Hf.
    assert (Hid : forall i j, holders_from i ps = [] -> filled j ps args = ps).
    { clear. induction ps as [|p ps IH]; intros i j; [done|]. cbn [holders_from filled].
      destruct (is_holder p); [done|]. cbn [app]. intros Hi. by rewrite (IH _ j Hi). }
    rewrite Hf, (Hid 0) by done. reflexivity.
Qed.

Variable placeholder : value.

(** [bind] with a receiver and partial arguments, or [partial]. *)
Definition bind_or_partial (receiver : option value) (stores : bool) (f : fn) (ps : list value) : result exn (fn (S := S)) :=
  match receiver with
  | Some thisArg => bind metaMap lodash_placeholder stores placeholder (Some (Fn f)) thisArg ps
  | None => partial metaMap lodash_placeholder stores placeholder (Some (Fn f)) ps
  end.

Abbreviation uniforms := (List.map (uniform (getHolder lodash_placeholder placeholder))).

Lemma bind_or_partial_wrap receiver stores f ps :
  ps <> [] -> getData metaMap f = None ->
  let data arity := Data (Fn f) (match receiver with Some _ => 33 | None => 32 end) (default Undefined receiver)
    (Some (uniforms ps)) (Some (holders_from 0 (uniforms ps))) None None None None (Some arity) in
  exists kind arity,
    bind_or_partial receiver stores f ps =
      Ok (Wrap kind (data arity) (if stores && metaMap then Some (data arity) else None) Undefined) /\
    (kind = ByHybrid \/ (kind = ByPartial /\ holders_from 0 (uniforms ps) = [])).
Proof.
  intros Hps Hf. cbn zeta.
  assert (Hl : (len (uniforms ps) =? 0) = false /\ (0 <? len ps) = true).
  { rewrite length_map. destruct ps; [done|]. cbn [length]. split; [apply Z.eqb_neq|apply Z.ltb_lt]; lia. }
  destruct Hl as [Hl Hl'].
  destruct receiver as [thisArg|]; cbn [bind_or_partial]; unfold bind, partial, held; rewrite ?Hl', replaceHolders_spec;
    unfold createWrap; rewrite Hl, Hf; bits; bits; bits.
  all: change (default [] (Some (holders_from 0 (uniforms ps)))) with (holders_from 0 (uniforms ps)).
  all: destruct (holders_from 0 (uniforms ps)) as [|h hs] eqn:Eh; cbn [length].
  all: first [by exists ByPartial; eexists; split; [reflexivity|right] | by exists ByHybrid; eexists; split; [reflexivity|left]].
Qed.

(** A call of [bind] or [partial] of a function, whichever wrapper implements it. *)
Lemma call_bind_or_partial receiver stores f ps w this args :
  ps <> [] -> getData metaMap f = None -> bind_or_partial receiver stores f ps = Ok w ->
  forall stores', call stores' w Apply this args = call stores' f Apply (default this receiver) (fill_in (uniforms ps) args).
Proof.
  intros Hps Hf Hw stores'. destruct (bind_or_partial_wrap receiver stores f ps Hps Hf) as (kind & arity & He & Hk).
  rewrite He in Hw. injection Hw as <-. rewrite call_partial.
  - by destruct receiver.
  - destruct Hk as [->|[-> Hk]]; [left|right]; (split; [done|]); [|split; [|done]];
      destruct receiver; apply list_elem_of_In; cbn; tauto.
Qed.

(** Wrapping a wrapper that has metadata merges the two. *)
Lemma merge_wrap r1 r2 stores f ps qs inner :
  metaMap = true -> ps <> [] -> qs <> [] -> getData metaMap f = None ->
  bind_or_partial r1 true f ps = Ok inner ->
  let bitmask := match r1, r2 with None, None => 32 | None, Some _ | Some _, Some _ => 33 | Some _, None => 37 end in
  let rs := fill_in (uniforms ps) (uniforms qs) in
  exists kind arity meta,
    bind_or_partial r2 stores inner qs =
      Ok (Wrap kind (Data (Fn f) bitmask (match r1 with Some t => t | None => default Undefined r2 end)
        (Some rs) (Some (holders_from 0 rs)) None None None None (Some arity)) meta Undefined) /\
    (kind = ByHybrid \/ (kind = ByPartial /\ bitmask <> 37 /\ holders_from 0 rs = [])).
Proof.
  intros HM Hps Hqs Hf Hi. destruct (bind_or_partial_wrap r1 true f ps Hps Hf) as (kind & arity & He & _).
  rewrite He in Hi. injection Hi as <-. rewrite HM. cbn zeta.
  assert (Hl : (len (uniforms qs) =? 0) = false /\ (0 <? len qs) = true).
  { rewrite length_map. destruct qs; [done|]. cbn [length]. split; [apply Z.eqb_neq|apply Z.ltb_lt]; lia. }
  destruct Hl as [Hl Hl'].
  destruct r1 as [t1|], r2 as [t2|]; cbn [bind_or_partial]; unfold bind, partial, held; rewrite ?Hl', replaceHolders_spec;
    unfold createWrap, getData; rewrite Hl, HM; cbn [andb].
  all: bits; unfold mergeData; bits; bits.
  all: change (default [] (Some (holders_from 0 (uniforms ps)))) with (holders_from 0 (uniforms ps)).
  all: rewrite composeArgs_fill, replaceHolders_spec, (map_ext _ id uniform_placeholder), map_id.
  all: bits; bits.
  all: set (rs := fill_in (uniforms ps) (uniforms qs)).
  all: change (default [] (Some (holders_from 0 rs))) with (holders_from 0 rs).
  all: destruct (holders_from 0 rs) as [|h hs] eqn:Eh; cbn [length].
  all: first [by exists ByPartial; do 2 eexists; split; [reflexivity|right] |
              by exists ByHybrid; do 2 eexists; split; [reflexivity|left]].
Qed.

(** Merging wrappers keeps their meaning. Wrapping a bound or partially applied
    function again, by [bind] or [partial], gives a function that passes the filled outer
    arguments to the inner one, with or without recorded metadata, as long as the outer
    partial arguments are at least as many as the inner placeholders. *)
Theorem partial_of_partial r1 r2 stores1 stores2 stores f ps qs inner outer this args :
  ps <> [] -> qs <> [] -> getData metaMap f = None ->
  bind_or_partial r1 stores1 f ps = Ok inner -> bind_or_partial r2 stores2 inner qs = Ok outer ->
  (length (holders_from 0 (uniforms ps)) <= length qs)%nat ->
  call stores outer Apply this args = call stores inner Apply (default this r2) (fill_in (uniforms qs) args).
Proof.
  intros Hps Hqs Hf Hi Ho Hlen. pose proof (call_bind_or_partial r1 stores1 f ps inner) as Hc.
  destruct (stores1 && metaMap) eqn:E.
  - apply andb_true_iff in E as [-> HM]. rewrite Hc by done.
    destruct (merge_wrap r1 r2 stores2 f ps qs inner HM Hps Hqs Hf Hi) as (kind & arity & meta & He & Hk).
    rewrite He in Ho. injection Ho as <-. rewrite call_partial, fill_fill by (by rewrite length_map || (
      destruct Hk as [->|(-> & Hb & Hh)]; [left|right]; (split; [done|]); [|split; [|done]];
      destruct r1, r2; (done || (apply list_elem_of_In; cbn; tauto)))).
    by destruct r1, r2.
  - rewrite (call_bind_or_partial r2 stores2 inner qs outer); [done|done| |done].
    destruct (bind_or_partial_wrap r1 stores1 f ps Hps Hf) as (kind & arity & He & _).
    rewrite He, E in Hi. injection Hi as <-. cbn. by destruct metaMap.
Qed.

(** ** Currying *)

(** The function a wrapper returns is called with the next arguments. *)
Fixpoint call_chunks (stores : bool) (f : fn) (chunks : list (value * list value)) : eff S outcome :=
  match chunks with
  | [] => mret (Function f)
  | (this, args) :: chunks =>
      o ← call stores f Apply this args;
      match o with Function g => call_chunks stores g chunks | Value v => mret (Value v) end
  end.

Definition no_holder (v : value) : Prop :=
  strict_eq v (getHolder lodash_placeholder placeholder) = false /\ is_holder v = false.

Lemma uniform_no_holder l : Forall no_holder l -> uniforms l = l.
Proof.
  induction 1 as [|v l [H1 H2] _ IH]; [done|]. cbn [List.map]. rewrite IH. unfold uniform. by rewrite H1, H2.
Qed.

Lemma holders_none i l : Forall no_holder l -> holders_from i l = [].
Proof. intros Hl. revert i. induction Hl as [|v l [_ H2] _ IH]; intros i; cbn; [done|]. by rewrite H2, IH. Qed.

Lemma countHolders_none l :
  Forall no_holder l -> countHolders l (getHolder lodash_placeholder placeholder) = 0.
Proof.
  unfold countHolders. intros Hl.
  assert (Hg : forall i, loop_right (R := Z) (fun _ v result =>
    inl (if strict_eq v (getHolder lodash_placeholder placeholder) then result + 1 else result)) i l 0 = inl 0).
  { induction Hl as [|v l [H1 _] _ IH]; intros i; cbn [loop_right]; [done|]. by rewrite IH, H1. }
  by rewrite Hg.
Qed.

Lemma composeArgs_none args ps curried : Forall no_holder ps -> composeArgs args ps [] curried = ps ++ args.
Proof.
  intros Hps. pose proof (composeArgs_fill args ps) as Hf. rewrite (holders_none 0 ps Hps) in Hf.
  pose proof (fill_filled ps args 0) as Hff. rewrite drop_0, (holders_none 0 ps Hps) in Hff.
  cbn [length Nat.add] in Hff. rewrite drop_0 in Hff.
  assert (Hid : forall j, filled j ps args = ps).
  { clear -Hps. induction Hps as [|v l [_ H2] _ IH]; intros j; cbn; [done|]. by rewrite H2, IH. }
  rewrite Hid in Hff. rewrite <- Hff, <- Hf. by destruct curried.
Qed.

(** What currying has built after the arguments [ps]. *)
Definition curried_with (f : fn (S := S)) (n : Z) (ps : list value) (meta : option wrap_data) : fn :=
  Wrap ByHybrid (Data (Fn f) 40 Undefined (Some ps) (Some []) None None None None (Some (num (n - len ps)))) meta placeholder.

Lemma createRecurry_with stores f n ps args :
  small_int n -> small_int (n - len ps) -> small_int (len args) -> small_int (n - len ps - len args) ->
  forall bitmask, bitmask ∈ [8; 40] ->
  exists meta, createRecurry metaMap isLaziable (Fn f) bitmask placeholder Undefined (ps ++ args) [] None None
    (nsub (num (n - len ps)) (num (len args))) stores = curried_with f n (ps ++ args) meta.
Proof.
  intros Hn Hp Ha Hd bitmask Hb. rewrite nsub_num by done.
  unfold curried_with. rewrite length_app, Nat2Z.inj_add, Z.sub_add_distr.
  apply elem_of_cons in Hb as [->|Hb]; [eexists; reflexivity|].
  apply elem_of_cons in Hb as [->|Hb]; [eexists; reflexivity|]. by apply elem_of_nil in Hb.
Qed.

Lemma call_curried stores f n ps meta this args :
  small_int n -> Forall no_holder ps -> Forall no_holder args ->
  small_int (len ps + len args) -> len ps < n ->
  if len ps + len args <? n
  then exists meta', call stores (curried_with f n ps meta) Apply this args = mret (Function (curried_with f n (ps ++ args) meta'))
  else call stores (curried_with f n ps meta) Apply this args = call stores f Apply this (ps ++ args).
Proof.
  intros Hn Hps Hargs Hs Hlt. unfold curried_with at 1 3. cbn [LodashWrap.call]. unfold createHybrid.
  cbn [default id]. bits. rewrite countHolders_none, composeArgs_none, Z.sub_0_r by done.
  assert (small_int (n - len ps) /\ small_int (len args)) as [H1 H2] by (unfold small_int in *; lia).
  rewrite nltb_num by done.
  destruct (Z.ltb_spec (len ps + len args) n).
  - rewrite (proj2 (Z.ltb_lt (len args) (n - len ps))) by lia.
    rewrite replaceHolders_spec, uniform_no_holder, holders_none by (apply Forall_app; done).
    destruct (createRecurry_with stores f n ps args Hn H1 H2) with (bitmask := 40) as [meta' ->];
      [unfold small_int in *; lia|apply list_elem_of_In; cbn; tauto|]. by exists meta'.
  - rewrite (proj2 (Z.ltb_ge (len args) (n - len ps))) by lia. reflexivity.
Qed.

Abbreviation given := (List.flat_map (snd (A := value) (B := list value))).

Lemma call_outcome stores f this args :
  (o ← call stores f Apply this args; match o with Function g => mret (Function g) | Value v => mret (Value v) end)
  ≈ call stores f Apply this args.
Proof.
  etransitivity; [|apply eff_bind_ret]. apply eff_bind_proper; [done|]. by intros [].
Qed.

Lemma curried_chunks stores f n init this last ps meta :
  small_int n -> Forall no_holder ps -> Forall (fun c => Forall no_holder (snd c)) init -> Forall no_holder last ->
  small_int (len ps + len (given init) + len last) ->
  len ps + len (given init) < n -> n <= len ps + len (given init) + len last ->
  call_chunks stores (curried_with f n ps meta) (init ++ [(this, last)])
  ≈ call stores f Apply this (ps ++ given init ++ last).
Proof.
  intros Hn Hps Hi Hl. revert ps meta Hps. induction Hi as [|[t args] init Ha Hi IH]; intros ps meta Hps Hs Hlt Hge.
  - cbn [app call_chunks given List.flat_map length] in *.
    pose proof (call_curried stores f n ps meta this last Hn Hps Hl) as Hc.
    destruct (Z.ltb_spec (len ps + len last) n); [lia|].
    rewrite Hc; [apply call_outcome|unfold small_int in *; lia|lia].
  - cbn [app call_chunks given List.flat_map snd] in *. rewrite length_app in Hs, Hlt, Hge.
    pose proof (call_curried stores f n ps meta t args Hn Hps Ha) as Hc.
    destruct (Z.ltb_spec (len ps + len args) n); [|lia].
    destruct Hc as [meta' Hc]; [unfold small_int in *; lia|lia|]. rewrite Hc, eff_ret_bind.
    rewrite IH; [by rewrite <- !app_assoc|by apply Forall_app|rewrite length_app; unfold small_int in *; lia..].
Qed.

Lemma curry_wrap stores (f : fn (S := S)) :
  0 < fn_size f -> small_int (fn_size f) -> getData metaMap f = None ->
  exists meta, curry metaMap stores placeholder (Some (Fn f)) None false =
    Ok (Wrap ByCurry (Data (Fn f) 8 Undefined None None None None None None (Some (num (fn_size f)))) meta placeholder).
Proof.
  intros Hn Hs Hf. unfold curry, createWrap. cbn [default]. rewrite Hf. cbn [Z.eqb]. bits.
  change (toInteger <$> None) with (@None number). cbv iota beta zeta.
  rewrite neqb_num by (done || (unfold small_int; lia)). rewrite (proj2 (Z.eqb_neq (fn_size f) 0)) by lia.
  cbn. eexists. reflexivity.
Qed.

(** C39: A curried function may be given its arguments in any portions: once they reach
    the number of parameters, the function is called with all of them in order. *)
Theorem curry_in_portions stores stores' (f w : fn (S := S)) init this last :
  0 < fn_size f -> getData metaMap f = None ->
  curry metaMap stores placeholder (Some (Fn f)) None false = Ok w ->
  Forall (fun c => Forall no_holder (snd c)) init -> Forall no_holder last ->
  len (given init) < fn_size f -> fn_size f <= len (given init) + len last ->
  len (given init) + len last < 2 ^ 53 ->
  call_chunks stores' w (init ++ [(this, last)]) ≈ call stores' f Apply this (given init ++ last).
Proof.
  intros Hn Hf Hw Hi Hl Hlt Hge Hs. assert (Hsn : small_int (fn_size f)) by (unfold small_int; lia).
  destruct (curry_wrap stores f Hn Hsn Hf) as [meta He]. rewrite He in Hw. injection Hw as <-.
  assert (Hcall : forall t args, Forall no_holder args -> small_int (len args) ->
    call stores' (Wrap ByCurry (Data (Fn f) 8 Undefined None None None None None None (Some (num (fn_size f)))) meta placeholder) Apply t args
    = if len args <? fn_size f then mret (Function (createRecurry metaMap isLaziable (Fn f) 8 placeholder Undefined args [] None None
          (nsub (num (fn_size f)) (num (len args))) stores'))
      else call stores' f Apply t args).
  { intros t args Ha Hsa. cbn [LodashWrap.call]. unfold createCurry. cbn [default id].
    assert (Hr : (if (len args <? 3) && negb (strict_eq args.[0] (getHolder lodash_placeholder placeholder)) &&
        negb (strict_eq args.[len args - 1] (getHolder lodash_placeholder placeholder)) then (args, [])
      else replaceHolders args (getHolder lodash_placeholder placeholder)) = (args, [])).
    { rewrite replaceHolders_spec, uniform_no_holder, holders_none by done. by case_match. }
    rewrite Hr. cbn [length Z.of_nat]. rewrite Z.sub_0_r, nltb_num by done. reflexivity. }
  destruct Hi as [|[t args] init Ha Hi]; cbn [app call_chunks given List.flat_map length snd] in *.
  - rewrite Hcall by (done || (unfold small_int; lia)).
    rewrite (proj2 (Z.ltb_ge (len last) (fn_size f))) by lia. apply call_outcome.
  - rewrite length_app in Hlt, Hge, Hs. rewrite Hcall by (done || (unfold small_int; lia)).
    rewrite (proj2 (Z.ltb_lt (len args) (fn_size f))) by lia. rewrite eff_ret_bind.
    pose proof (createRecurry_with stores' f (fn_size f) [] args Hsn) as Hr. cbn [app length Z.of_nat] in Hr.
    rewrite Z.sub_0_r in Hr.
    destruct (Hr Hsn) with (bitmask := 8) as [meta' ->];
      [unfold small_int in *; lia..|apply list_elem_of_In; cbn; tauto|].
    rewrite curried_chunks; [by rewrite <- app_assoc|done|done|done|done|unfold small_int; lia|lia|lia].
Qed.

(** ** Where merging differs *)




End partial_wrappers.

(** ** Examples *)

(** A function of three parameters that records its arguments. *)
Definition recording : fn (S := list (list value)) :=
  Native 3 (fun _ args log => (Ok Undefined, log ++ [args])) (fun args log => (Ok Undefined, log ++ [args])).

Definition ex_holder : value := Ref ClsFunction 0.
Definition ex_method : value -> value -> call_mode -> value -> list value -> eff (list (list value)) (outcome (S := list (list value))) :=
  fun _ _ _ _ _ => throw TypeError.
Definition ex_call := call (H := plain_host) true None ex_method (mret Undefined) (fun _ => false).

Definition observed (f : result exn (fn (S := list (list value)))) (args : list value) : list (list value) :=
  match f with Ok f => snd (ex_call true f Apply Undefined args []) | Throw _ => [] end.


(** The wrapper of a merged curried function has no placeholder of its own, and takes
    undefined arguments for placeholders. *)
Lemma curried_partial_counts_undefined :
  match curry (H := plain_host) true true ex_holder (Some (Fn recording)) None false with
  | Ok curried =>
      observed (partial (H := plain_host) true None true ex_holder (Some (Fn curried)) [Number (num 1)])
        [Undefined; Number (num 3)] = []
  | Throw _ => False
  end.
Proof. vm_compute. reflexivity. Qed.

Lemma partial_of_partial_witness :
  exists inner outer,
    bind_or_partial (H := plain_host) true None ex_holder None true recording [ex_holder; Number (num 1)] = Ok inner /\
    bind_or_partial (H := plain_host) true None ex_holder (Some Null) true inner [Number (num 2)] = Ok outer /\
    ex_call true outer Apply Undefined [Number (num 5)] =
    ex_call true inner Apply Null [Number (num 2); Number (num 5)].
Proof.
  eexists _, _. split; [reflexivity|]. split; [reflexivity|].
  eapply (partial_of_partial (H := plain_host) true None ex_method (mret Undefined) (fun _ => false) ex_holder
    None (Some Null) true true true recording [ex_holder; Number (num 1)] [Number (num 2)]);
    [discriminate|discriminate|reflexivity|reflexivity|reflexivity|vm_compute; lia].
Defined.

Lemma curry_in_portions_witness :
  exists w, curry (H := plain_host) true true ex_holder (Some (Fn recording)) None false = Ok w /\
  call_chunks (H := plain_host) true None ex_method (mret Undefined) (fun _ => false) true w
    [(Undefined, [Number (num 1)]); (Undefined, [Number (num 2)]); (Null, [Number (num 3); Number (num 4)])]
  ≈ ex_call true recording Apply Null [Number (num 1); Number (num 2); Number (num 3); Number (num 4)].
Proof.
  eexists. split; [reflexivity|].
  eapply (curry_in_portions (H := plain_host) true None ex_method (mret Undefined) (fun _ => false) ex_holder
    true true recording _ [(Undefined, [Number (num 1)]); (Undefined, [Number (num 2)])] Null [Number (num 3); Number (num 4)]);
    [vm_compute; reflexivity|reflexivity|reflexivity| | | | |];
    [repeat constructor|repeat constructor|vm_compute; reflexivity|vm_compute; discriminate|vm_compute; reflexivity].
Defined.
