(* ===== verification/LodashEqual.v ===== *)
(** * lodash.js: deep equality

    [baseIsEqual] and the functions it calls in [immer/extra/js/lib/lodash.js], over a heap
    of objects. The recursion follows references, so it is bounded by a depth: when it is
    used up the code throws the [RangeError] of an exhausted call stack. *)

From S2P Require Import Prelude Js LodashLang LodashArrays LodashCaches.

(** ** Objects *)

(** What the code reads of an object: its array elements, its own enumerable
    properties, the other properties it answers to, the contents of a map, a set or a
    buffer. *)
Record obj := {
  o_items : list value;
  o_props : list (jstring * value);
  o_hidden : list (jstring * value);
  o_null_proto : bool;
  o_entries : list (value * value);
  o_members : list value;
  o_byteLength : Z;
  o_byteOffset : Z;
  o_buffer : value
}.

Definition empty_obj : obj :=
  {| o_items := []; o_props := []; o_hidden := []; o_null_proto := false; o_entries := []; o_members := [];
     o_byteLength := 0; o_byteOffset := 0; o_buffer := Undefined |}.

Record heap := { objs : gmap Z obj; next_id : Z }.

Definition lookup_obj (h : heap) (v : value) : obj :=
  match v with Ref _ id => default empty_obj (objs h !! id) | _ => empty_obj end.

Definition own_prop (o : obj) (key : jstring) : option value := snd <$> List.find (fun '(k, _) => bool_decide (k = key)) (o_props o).
Definition hidden_prop (o : obj) (key : jstring) : option value :=
  snd <$> List.find (fun '(k, _) => bool_decide (k = key)) (o_hidden o).
(** [object[key]] and [key in object]. *)
Definition get_prop (o : obj) (key : jstring) : value :=
  match own_prop o key with Some v => v | None => default Undefined (hidden_prop o key) end.
Definition in_obj (o : obj) (key : jstring) : bool :=
  match own_prop o key with Some _ => true | None => match hidden_prop o key with Some _ => true | None => false end end.

(** The own enumerable names. *)
Definition names (o : obj) : list jstring := List.map fst (o_props o).

(** A new array. *)
Definition new_array (cls : jsclass) (items : list value) : eff heap value := fun h =>
  (Ok (Ref cls (next_id h)),
   {| objs := <[next_id h := {| o_items := items; o_props := []; o_hidden := []; o_null_proto := false; o_entries := [];
                                o_members := []; o_byteLength := 0; o_byteOffset := 0; o_buffer := Undefined |}]> (objs h);
      next_id := next_id h + 1 |}).

Fixpoint new_pairs (entries : list (value * value)) : eff heap (list value) :=
  match entries with
  | [] => mret []
  | (k, v) :: entries => p ← new_array ClsArray [k; v]; ps ← new_pairs entries; mret (p :: ps)
  end.

Definition UNORDERED_COMPARE_FLAG : Z := 1.
Definition PARTIAL_COMPARE_FLAG : Z := 2.

Section equality.
Context `{JsHost}.
Variables nativeCreate nativeMap : bool.
(** The engine's host objects, functions that are instances of themselves, the value of a
    lodash wrapper, and whether symbols can be unboxed. *)
Variable isHostObject : value -> bool.
Variable instanceof_itself : value -> bool.
Variable wrapper_value : value -> eff heap value.
Variable symbolValueOf : bool.

Definition get_obj (v : value) : eff heap obj := h ← get_state; mret (lookup_obj h v).

(** [object == other]. *)
Definition loose_eq (v w : value) : bool :=
  if is_nil v || is_nil w then is_nil v && is_nil w else
  match v, w with
  | Ref _ _, Ref _ _ => strict_eq v w
  | _, _ =>
      let p := to_primitive v in
      let q := to_primitive w in
      if bool_decide (typeof p = typeof q) then strict_eq p q
      else match p, q with
           | Symbol _, _ | _, Symbol _ => false
           | _, _ => neqb (primitive_to_number p) (primitive_to_number q)
           end
  end.

(** The class of the tag of a value. *)
Definition getTag (v : value) : jsclass :=
  match v with
  | Ref cls _ => cls
  | Boolean _ => ClsBoolean
  | Number _ => ClsNumber
  | String _ => ClsString
  | Symbol _ => ClsSymbol
  | Undefined | Null => ClsObject
  end.

Definition is_typed (cls : jsclass) : bool :=
  match cls with
  | ClsFloat32Array | ClsFloat64Array | ClsInt8Array | ClsInt16Array | ClsInt32Array | ClsUint8Array
  | ClsUint8ClampedArray | ClsUint16Array | ClsUint32Array => true
  | _ => false
  end.

Definition baseHas (o : obj) (key : jstring) : bool :=
  match own_prop o key with Some _ => true | None => in_obj o key && o_null_proto o end.

(** The values compared, their key, and the objects they are from. *)
Abbreviation customizer_fn := (value -> value -> value -> value -> value -> eff heap value).
Abbreviation equal_fn := (value -> value -> option customizer_fn -> Z -> Stack -> eff heap (bool * Stack)).

Abbreviation stack_get := (stackGet nativeCreate).
Abbreviation stack_set := (stackSet nativeCreate nativeMap).
Abbreviation stack_delete s k := (snd (stackDelete nativeCreate s k)).

(** What the customizer says of a pair, the other way round in a partial comparison. *)
Definition customized (customizer : option customizer_fn) (isPartial : bool) (v other key object other_object : value) :
    eff heap value :=
  match customizer with
  | None => mret Undefined
  | Some customizer =>
      if isPartial then customizer other v key other_object object else customizer v other key object other_object
  end.

(** Look for an element of [other], not matched before, that equals [arrValue]. *)
Definition match_unordered (equalFunc : equal_fn) (customizer : option customizer_fn) (bitmask : Z)
    (arrValue other : value) (seen : SetCache) (stack : Stack) : eff heap (SetCache * Stack + SetCache * Stack) :=
  o ← get_obj other;
  eloop (fun _ othIndex '(seen, stack) =>
    o ← get_obj other;
    let othValue := (o_items o).[othIndex] in
    if setCacheHas nativeCreate seen (Number (num othIndex)) then mret (inl (seen, stack))
    else if strict_eq arrValue othValue then mret (inr (setCacheAdd nativeCreate seen (Number (num othIndex)), stack))
    else
      r ← equalFunc arrValue othValue customizer bitmask stack;
      mret (if fst r : bool then inr (setCacheAdd nativeCreate seen (Number (num othIndex)), snd r)
            else inl (seen, snd r))) 0 (seqZ 0 (len (o_items o))) (seen, stack).

Definition equalArrays (array other : value) (equalFunc : equal_fn) (customizer : option customizer_fn) (bitmask : Z)
    (stack : Stack) : eff heap (bool * Stack) :=
  let isPartial := negb (Z.land bitmask PARTIAL_COMPARE_FLAG =? 0) in
  a ← get_obj array;
  o ← get_obj other;
  let arrLength := len (o_items a) in
  let othLength := len (o_items o) in
  if negb (arrLength =? othLength) && negb (isPartial && (arrLength <? othLength)) then mret (false, stack) else
  let stacked := stack_get stack array in
  if truthy stacked && truthy (stack_get stack other) then mret (loose_eq stacked other, stack) else
  let seen := if negb (Z.land bitmask UNORDERED_COMPARE_FLAG =? 0)
              then Some (new_SetCache nativeCreate nativeMap []) else None in
  let stack := stack_set (stack_set stack array other) other array in
  r ← eloop (R := Stack) (fun _ index '(seen, stack) =>
    a ← get_obj array;
    o ← get_obj other;
    let arrValue := (o_items a).[index] in
    let othValue := (o_items o).[index] in
    compared ← customized customizer isPartial arrValue othValue (Number (num index)) array other;
    if negb (is_undefined compared) then
      mret (if truthy compared then inl (seen, stack) else inr stack)
    else
      match seen with
      | Some seen =>
          m ← match_unordered equalFunc customizer bitmask arrValue other seen stack;
          mret (match m with
                | inr (seen, stack) => inl (Some seen, stack)
                | inl (_, stack) => inr stack
                end)
      | None =>
          if strict_eq arrValue othValue then mret (inl (None, stack))
          else
            r ← equalFunc arrValue othValue customizer bitmask stack;
            mret (if fst r : bool then inl (None, snd r) else inr (snd r))
      end) 0 (seqZ 0 arrLength) (seen, stack);
  let '(result, stack) := match r with inl (_, stack) => (true, stack) | inr stack => (false, stack) end in
  let stack := stack_delete stack array in
  let stack := stack_delete stack other in
  mret (result, stack).

Definition equalObjects (object other : value) (equalFunc : equal_fn) (customizer : option customizer_fn) (bitmask : Z)
    (stack : Stack) : eff heap (bool * Stack) :=
  let isPartial := negb (Z.land bitmask PARTIAL_COMPARE_FLAG =? 0) in
  a ← get_obj object;
  o ← get_obj other;
  let objProps := names a in
  let objLength := len objProps in
  let othLength := len (names o) in
  if negb (objLength =? othLength) && negb isPartial then mret (false, stack) else
  if negb (returned true (loop_right (Acc := unit) (fun _ key _ =>
      if negb (if isPartial then in_obj o key else baseHas o key) then inr false else inl tt) 0 objProps tt))
  then mret (false, stack) else
  let stacked := stack_get stack object in
  if truthy stacked && truthy (stack_get stack other) then mret (loose_eq stacked other, stack) else
  let stack := stack_set (stack_set stack object other) other object in
  r ← eloop (R := Stack) (fun _ key '(skipCtor, stack) =>
    a ← get_obj object;
    o ← get_obj other;
    let objValue := get_prop a key in
    let othValue := get_prop o key in
    compared ← customized customizer isPartial objValue othValue (String key) object other;
    r ← (if is_undefined compared then
           if strict_eq objValue othValue then mret (true, stack)
           else equalFunc objValue othValue customizer bitmask stack
         else mret (truthy compared, stack));
    mret (if fst r : bool then inl (skipCtor || bool_decide (key = str "constructor"), snd r) else inr (snd r)))
    0 objProps (isPartial, stack);
  a ← get_obj object;
  o ← get_obj other;
  let '(result, skipCtor, stack) :=
    match r with inl (skipCtor, stack) => (true, skipCtor, stack) | inr stack => (false, true, stack) end in
  let result :=
    if result && negb skipCtor then
      let objCtor := get_prop a (str "constructor") in
      let othCtor := get_prop o (str "constructor") in
      negb (negb (loose_eq objCtor othCtor) &&
            (in_obj a (str "constructor") && in_obj o (str "constructor")) &&
            negb (bool_decide (typeof objCtor = TFunction) && instanceof_itself objCtor &&
                  bool_decide (typeof othCtor = TFunction) && instanceof_itself othCtor))
    else result in
  let stack := stack_delete stack object in
  let stack := stack_delete stack other in
  mret (result, stack).

(** The comparison of two buffers by their bytes; it starts without a stack. *)
Definition equal_buffers (object other : value) (equalFunc : equal_fn) : eff heap bool :=
  a ← get_obj object;
  o ← get_obj other;
  if negb (o_byteLength a =? o_byteLength o) then mret false else
  u ← new_array ClsUint8Array (o_items a);
  w ← new_array ClsUint8Array (o_items o);
  r ← equalFunc u w None 0 (new_Stack []);
  mret (fst r).

Definition equalByTag (object other : value) (tag : jsclass) (equalFunc : equal_fn) (customizer : option customizer_fn)
    (bitmask : Z) (stack : Stack) : eff heap (bool * Stack) :=
  a ← get_obj object;
  o ← get_obj other;
  let of_collection (object_size other_size : Z) (convert : obj -> eff heap (list value)) :=
    let isPartial := negb (Z.land bitmask PARTIAL_COMPARE_FLAG =? 0) in
    if negb (object_size =? other_size) && negb isPartial then mret (false, stack) else
    let stacked := stack_get stack object in
    if truthy stacked then mret (loose_eq stacked other, stack) else
    let bitmask := Z.lor bitmask UNORDERED_COMPARE_FLAG in
    let stack := stack_set stack object other in
    xs ← convert a;
    u ← new_array ClsArray xs;
    ys ← convert o;
    w ← new_array ClsArray ys;
    r ← equalArrays u w equalFunc customizer bitmask stack;
    mret (fst r, stack_delete (snd r) object) in
  match tag with
  | ClsDataView =>
      if negb (o_byteLength a =? o_byteLength o) || negb (o_byteOffset a =? o_byteOffset o) then mret (false, stack)
      else b ← equal_buffers (o_buffer a) (o_buffer o) equalFunc; mret (b, stack)
  | ClsArrayBuffer => b ← equal_buffers object other equalFunc; mret (b, stack)
  | ClsBoolean | ClsDate | ClsNumber => mret (eq (Number (to_number object)) (Number (to_number other)), stack)
  | ClsError => mret (loose_eq (get_prop a (str "name")) (get_prop o (str "name")) &&
                      loose_eq (get_prop a (str "message")) (get_prop o (str "message")), stack)
  | ClsRegExp | ClsString => mret (loose_eq object (String (concat_empty other)), stack)
  | ClsMap => of_collection (len (o_entries a)) (len (o_entries o)) (fun x => new_pairs (mapToArray (o_entries x)))
  | ClsSet => of_collection (len (o_members a)) (len (o_members o)) (fun x => mret (setToArray (o_members x)))
  | ClsSymbol =>
      if symbolValueOf then
        let unbox v := match v with Ref cls id => host_valueOf cls id | _ => v end in
        mret (loose_eq (unbox object) (unbox other), stack)
      else mret (false, stack)
  | _ => mret (false, stack)
  end.

Definition baseIsEqualDeep (object other : value) (equalFunc : equal_fn) (customizer : option customizer_fn) (bitmask : Z)
    (stack : Stack) : eff heap (bool * Stack) :=
  a ← get_obj object;
  o ← get_obj other;
  let objIsArr := isArray object in
  let othIsArr := isArray other in
  let tag v (isArr : bool) :=
    if isArr then ClsArray else if bool_decide (getTag v = ClsArguments) then ClsObject else getTag v in
  let objTag := tag object objIsArr in
  let othTag := tag other othIsArr in
  let objIsObj := bool_decide (objTag = ClsObject) && negb (isHostObject object) in
  let othIsObj := bool_decide (othTag = ClsObject) && negb (isHostObject other) in
  let isSameTag := bool_decide (objTag = othTag) in
  if isSameTag && negb objIsObj then
    if objIsArr || is_typed (getTag object)
    then equalArrays object other equalFunc customizer bitmask stack
    else equalByTag object other objTag equalFunc customizer bitmask stack
  else
  let isPartial := negb (Z.land bitmask PARTIAL_COMPARE_FLAG =? 0) in
  let has_wrapped x := match own_prop x (str "__wrapped__") with Some _ => true | None => false end in
  let objIsWrapped := negb isPartial && (objIsObj && has_wrapped a) in
  let othIsWrapped := negb isPartial && (othIsObj && has_wrapped o) in
  if objIsWrapped || othIsWrapped then
    objUnwrapped ← (if objIsWrapped then wrapper_value object else mret object);
    othUnwrapped ← (if othIsWrapped then wrapper_value other else mret other);
    equalFunc objUnwrapped othUnwrapped customizer bitmask stack
  else if negb isSameTag then mret (false, stack)
  else equalObjects object other equalFunc customizer bitmask stack.

(** A call without a stack makes a new one where it is first needed. *)
Fixpoint baseIsEqual (depth : nat) (v other : value) (customizer : option customizer_fn) (bitmask : Z) (stack : Stack) :
    eff heap (bool * Stack) :=
  match depth with
  | O => throw RangeError
  | S depth =>
      if strict_eq v other then mret (true, stack)
      else if is_nil v || is_nil other || (negb (isObject v) && negb (isObjectLike other))
      then mret (negb (strict_eq v v) && negb (strict_eq other other), stack)
      else baseIsEqualDeep v other (baseIsEqual depth) customizer bitmask stack
  end.

Definition isEqual (depth : nat) (v other : value) : eff heap bool :=
  r ← baseIsEqual depth v other None 0 (new_Stack []); mret (fst r).

(** The match data of a source: key, value, and whether the value is compared with
    [===]. *)
Definition baseIsMatch (depth : nat) (object source : value) (matchData : list (jstring * value * bool))
    (customizer : option customizer_fn) : eff heap bool :=
  let noCustomizer := match customizer with None => true | Some _ => false end in
  if is_nil object then mret (len matchData =? 0) else
  o ← get_obj object;
  if negb (returned true (loop_right (Acc := unit) (fun _ '(key, srcValue, strict) _ =>
    if (if noCustomizer && strict then negb (strict_eq srcValue (get_prop o key)) else negb (in_obj o key))
    then inr false else inl tt) 0 matchData tt))
  then mret false else
  r ← eloop (R := unit) (fun _ '(key, srcValue, strict) result =>
    o ← get_obj object;
    let objValue := get_prop o key in
    if noCustomizer && strict then
      mret (if is_undefined objValue && negb (in_obj o key) then inr tt else inl result)
    else
      result ← match customizer with
               | Some customizer => customizer objValue srcValue (String key) object source
               | None => mret result
               end;
      b ← (if is_undefined result then
             r ← baseIsEqual depth srcValue objValue customizer
                   (Z.lor UNORDERED_COMPARE_FLAG PARTIAL_COMPARE_FLAG) (new_Stack []);
             mret (fst r)
           else mret (truthy result));
      mret (if b : bool then inl result else inr tt)) 0 matchData Undefined;
  mret (match r with inl _ => true | inr _ => false end).

End equality.

(** ** The stack of objects under comparison *)

Definition is_ref (v : value) : Prop := match v with Ref _ _ => True | _ => False end.

Lemma eq_ref k x : is_ref k -> eq k x = bool_decide (k = x).
Proof.
  intros Hk. rewrite eq_norm. destruct k; try done.
  apply bool_decide_ext. destruct x as [| | |n| | |]; try done. destruct n as [[]| | |]; done.
Qed.

(** How often an object is on the stack: a list may hold it several times. *)
Definition occurrences (x : value) (l : list (value * value)) : nat :=
  length (List.filter (fun p => eq (fst p) x) l).

Section stack_counts.
Variables nativeCreate nativeMap : bool.

Definition stack_count (s : Stack) (x : value) : nat :=
  match s with
  | StackList c => occurrences x (list_data c)
  | StackMap c => match map_cache_model nativeCreate c x with Some _ => 1 | None => 0 end
  end.

Definition stack_ok (s : Stack) : Prop :=
  match s with
  | StackList c => Forall (fun p => is_ref (fst p) /\ is_ref (snd p)) (list_data c)
  | StackMap c => map_cache_valid nativeCreate c
  end.

Definition one (k x : value) : nat := if eq k x then 1 else 0.

Lemma occurrences_app x l k : occurrences x (l ++ k) = (occurrences x l + occurrences x k)%nat.
Proof. unfold occurrences. by rewrite List.filter_app, length_app. Qed.

Lemma occurrences_cons x p l : occurrences x (p :: l) = (one (fst p) x + occurrences x l)%nat.
Proof. unfold occurrences, one. cbn. by destruct (eq (fst p) x). Qed.

Lemma ref_ok k : is_ref k -> key_ok k /\ storable k.
Proof. by destruct k. Qed.

Lemma stack_get_none s x :
  stack_ok s -> is_ref x -> stack_count s x = 0%nat -> stackGet nativeCreate s x = Undefined.
Proof.
  intros Hs Hx Hc. destruct s as [c|c]; cbn in *.
  - unfold listCacheGet. destruct (assocIndexOf_spec (list_data c) x) as [(n & k & v & _ & Hl & He & _)|[-> _]]; [|done].
    exfalso. apply list_elem_of_lookup_2, list_elem_of_split in Hl as (l1 & l2 & Hl).
    rewrite Hl, occurrences_app, occurrences_cons in Hc. unfold one in Hc. cbn [fst] in Hc. rewrite He in Hc. lia.
  - rewrite mapCacheGet_model by done. by destruct (map_cache_model nativeCreate c x).
Qed.

Lemma new_MapCache_count pairs x :
  Forall (fun p => is_ref (fst p) /\ is_ref (snd p)) pairs -> is_ref x ->
  let c := new_MapCache nativeCreate nativeMap pairs in
  map_cache_valid nativeCreate c /\
  (match map_cache_model nativeCreate c x with Some _ => 1 | None => 0 end <= occurrences x pairs)%nat.
Proof.
  intros Hp Hx. cbn zeta. unfold new_MapCache.
  destruct (mapCacheClear_model nativeCreate nativeMap) as [Hv0 Hm0].
  assert (Hgen : forall i ps c, map_cache_valid nativeCreate c -> Forall (fun p => is_ref (fst p) /\ is_ref (snd p)) ps ->
    let c' := ended (loop (R := MapCache) (fun _ '(k, v) this => inl (mapCacheSet nativeCreate this k v)) i ps c) in
    map_cache_valid nativeCreate c' /\
    (match map_cache_model nativeCreate c' x with Some _ => 1 | None => 0 end <=
     match map_cache_model nativeCreate c x with Some _ => 1 | None => 0 end + occurrences x ps)%nat).
  { intros i ps. revert i. induction ps as [|[k v] ps IH]; intros i c Hc Hps; [cbn; split; [done|lia]|].
    apply Forall_cons in Hps as [[Hk Hv] Hps]. cbn [fst snd] in Hk, Hv.
    destruct (mapCacheSet_model nativeCreate c k v Hc) as [Hc' Hset]; [by apply ref_ok..|].
    cbn [loop]. destruct (IH (i + 1) _ Hc' Hps) as [HV HM]. split; [done|]. etransitivity; [exact HM|].
    rewrite Hset, occurrences_cons by by apply ref_ok. unfold one. cbn [fst]. destruct (eq k x); [lia|].
    lia. }
  destruct (Hgen 0 pairs (mapCacheClear nativeMap) Hv0 Hp) as [HV HM]. split; [done|]. by rewrite Hm0 in HM.
Qed.

Lemma stack_set_count s k v :
  stack_ok s -> is_ref k -> is_ref v ->
  let s' := stackSet nativeCreate nativeMap s k v in
  stack_ok s' /\ forall x, is_ref x -> (stack_count s' x <= stack_count s x + one k x)%nat.
Proof.
  intros Hs Hk Hv. cbn zeta. destruct s as [[l]|c]; cbn [stackSet stack_ok list_data] in *.
  - destruct (negb nativeMap || _).
    + split; [cbn [stack_ok list_data]; apply Forall_app; split; [done|by repeat constructor]|].
      intros x Hx. cbn [stack_count list_data]. rewrite occurrences_app, occurrences_cons. cbn. lia.
    + assert (Hm : forall x, is_ref x -> _) by exact (fun x Hx => new_MapCache_count l x Hs Hx).
      destruct (Hm k Hk) as [Hvalid _]. cbn zeta in Hm.
      destruct (mapCacheSet_model nativeCreate _ k v Hvalid) as [Hc' Hset]; [by apply ref_ok..|].
      split; [done|]. intros x Hx. cbn [stack_count]. rewrite Hset by by apply ref_ok. destruct (Hm x Hx) as [_ Hle].
      unfold one. destruct (eq k x); [lia|]. cbn [list_data]. lia.
  - destruct (mapCacheSet_model nativeCreate c k v Hs) as [Hc' Hset]; [by apply ref_ok..|]. split; [done|].
    intros x Hx. cbn [stack_count]. rewrite Hset by by apply ref_ok. unfold one. destruct (eq k x); lia.
Qed.

Lemma occurrences_delete x l n p :
  l !! n = Some p -> occurrences x l = (occurrences x (delete n l) + one (fst p) x)%nat.
Proof.
  revert n. induction l as [|q l IH]; intros [|n] Hl; try done.
  - injection Hl as ->. cbn [delete list_delete]. rewrite occurrences_cons. lia.
  - change (delete (S n) (q :: l)) with (q :: delete n l). rewrite !occurrences_cons, (IH n) by done. lia.
Qed.

Lemma stack_delete_count s k :
  stack_ok s -> is_ref k ->
  let s' := snd (stackDelete nativeCreate s k) in
  stack_ok s' /\ forall x, is_ref x -> (stack_count s' x <= stack_count s x - one k x)%nat.
Proof.
  intros Hs Hk. cbn zeta. destruct s as [[l]|c]; cbn [stackDelete stack_ok] in *.
  - unfold listCacheDelete. cbn [list_data].
    destruct (assocIndexOf_spec l k) as [(n & k' & v & -> & Hl & He & _)|[-> Hn]].
    + destruct (Z.ltb_spec (Z.of_nat n) 0); [lia|]. cbn [snd].
      assert (Hd : (if Z.of_nat n =? len l - 1 then removelast l else splice1 l (Z.of_nat n)) = delete n l).
      { destruct (Z.eqb_spec (Z.of_nat n) (len l - 1)) as [E|E].
        - rewrite removelast_delete. f_equal. lia.
        - unfold splice1. by rewrite Nat2Z.id, delete_take_drop. }
      rewrite Hd. cbn [stack_ok stack_count list_data] in *. split.
      * rewrite Forall_forall in *. intros p Hp. apply Hs. eapply elem_of_sublist; [exact Hp|apply sublist_delete].
      * intros x Hx. rewrite (occurrences_delete x l n (k', v)) by done. cbn [fst].
        unfold one. rewrite <- (eq_cong k' k x He). lia.
    + change (-1 <? 0) with true. cbn [snd stack_ok stack_count list_data] in *. split; [done|]. intros x Hx. unfold one.
      destruct (eq k x) eqn:E; [|lia]. rewrite eq_ref in E by done. apply bool_decide_eq_true in E as <-.
      assert (occurrences k l = 0%nat) as ->; [|lia]. unfold occurrences. apply length_zero_iff_nil.
      destruct (List.filter _ l) as [|p r] eqn:Ef; [done|]. exfalso.
      assert (Hin : In p (List.filter (fun p => eq (fst p) k) l)) by (rewrite Ef; by left).
      apply filter_In in Hin as [Hin He]. destruct p as [k' v']. apply list_elem_of_In in Hin.
      specialize (Hn k' v' Hin). cbn in He. congruence.
  - destruct (mapCacheDelete_model nativeCreate c k Hs) as (Hv' & _ & Hd); [by apply ref_ok|].
    destruct (mapCacheDelete nativeCreate c k) as [b c']. cbn [snd stack_ok stack_count] in *. split; [done|].
    intros x Hx. rewrite Hd by by apply ref_ok. unfold one. destruct (eq k x); lia.
Qed.

Lemma new_Stack_count x : stack_ok (new_Stack []) /\ stack_count (new_Stack []) x = 0%nat.
Proof. split; [constructor|done]. Qed.

End stack_counts.

(** ** Structural equality of acyclic data *)

(** Two values are structurally equal: the same primitive up to SameValueZero, the same
    object, arrays of equal elements, or objects with the same keys and equal values. *)
Unset Elimination Schemes.
Inductive deep_eq (h : heap) : value -> value -> Prop :=
| deep_same v w : eq v w = true -> deep_eq h v w
| deep_array i j a o :
    objs h !! i = Some a -> objs h !! j = Some o ->
    Forall2 (deep_eq h) (o_items a) (o_items o) -> deep_eq h (Ref ClsArray i) (Ref ClsArray j)
| deep_object i j a o :
    objs h !! i = Some a -> objs h !! j = Some o -> length (o_props a) = length (o_props o) ->
    (forall k v, own_prop a k = Some v -> exists w, own_prop o k = Some w /\ deep_eq h v w) ->
    deep_eq h (Ref ClsObject i) (Ref ClsObject j).
Set Elimination Schemes.

(** Primitives, arrays and plain objects. *)
Definition plain_value (h : heap) (v : value) : Prop :=
  match v with
  | Ref cls id => (cls = ClsArray \/ cls = ClsObject) /\ is_Some (objs h !! id)
  | _ => True
  end.

(** A heap of plain data without cycles: a rank decreases along every reference. The
    objects have a common constructor. *)
Record plain_heap (h : heap) (rank : value -> nat) (ctor : value) : Prop := {
  ph_child id o cls c : objs h !! id = Some o -> c ∈ o_items o \/ c ∈ List.map snd (o_props o) ->
    plain_value h c /\ (rank c < rank (Ref cls id))%nat;
  ph_keys id o : objs h !! id = Some o ->
    NoDup (names o) /\ own_prop o (str "__wrapped__") = None /\ o_null_proto o = false /\
    hidden_prop o (str "constructor") = Some ctor;
}.

Lemma own_prop_elem o k v : own_prop o k = Some v -> (k, v) ∈ o_props o.
Proof.
  unfold own_prop. destruct (List.find _ (o_props o)) as [[k' v']|] eqn:E; [|done]. intros [= ->].
  apply find_some in E as [Hin Hk%bool_decide_eq_true]. subst. by apply list_elem_of_In.
Qed.

Lemma own_prop_name o k : k ∈ names o <-> exists v, own_prop o k = Some v.
Proof.
  unfold names. rewrite list_elem_of_In, in_map_iff. split.
  - intros ([k' v] & <- & Hin). unfold own_prop. destruct (List.find _ (o_props o)) as [[k2 v2]|] eqn:E; [by eexists|].
    pose proof (find_none _ _ E _ Hin) as Hn. cbn in Hn. by rewrite bool_decide_eq_true_2 in Hn.
  - intros [v Hv]. apply own_prop_elem in Hv. exists (k, v). split; [done|]. by apply list_elem_of_In.
Qed.

(** One turn of a loop. *)
Lemma eloop_next {S A Acc R} (body : Z -> A -> Acc -> eff S (Acc + R)) i x l acc acc' σ σ' :
  body i x acc σ = (Ok (inl acc'), σ') -> eloop body i (x :: l) acc σ = eloop body (i + 1) l acc' σ'.
Proof. intros Hb. cbn [eloop]. unfold mbind, eff_bind. by rewrite Hb. Qed.
Lemma eloop_stop {S A Acc R} (body : Z -> A -> Acc -> eff S (Acc + R)) i x l acc r σ σ' :
  body i x acc σ = (Ok (inr r), σ') -> eloop body i (x :: l) acc σ = (Ok (inr r), σ').
Proof. intros Hb. cbn [eloop]. unfold mbind, eff_bind. by rewrite Hb. Qed.

Lemma get_obj_bind {A} v (k : obj -> eff heap A) σ : (get_obj v ≫= k) σ = k (lookup_obj σ v) σ.
Proof. done. Qed.

Section plain_data.
Context `{JsHost}.
Variables nativeCreate nativeMap : bool.
Variable isHostObject : value -> bool.
Variable instanceof_itself : value -> bool.
Variable wrapper_value : value -> eff heap value.
Variable symbolValueOf : bool.
Variables (h : heap) (rank : value -> nat) (ctor : value).
Hypothesis no_host : forall v, isHostObject v = false.
Hypothesis plain : plain_heap h rank ctor.
Hypothesis ctor_ref : is_ref ctor.

Abbreviation equal_fn := (value -> value -> option (value -> value -> value -> value -> value -> eff heap value) ->
  Z -> Stack -> eff heap (bool * Stack)).

(** The stack fits a comparison of [v] and [w]: what it holds ranks above one of them. *)
Definition fits (s : Stack) (v w : value) : Prop :=
  stack_ok nativeCreate s /\
  forall x, is_ref x -> (0 < stack_count nativeCreate s x)%nat -> (rank v < rank x)%nat \/ (rank w < rank x)%nat.

(** [f] decides [deep_eq] of [v] and [w], and leaves the heap and the stack as they were. *)
Definition decides (f : Stack -> eff heap (bool * Stack)) (v w : value) : Prop :=
  forall s, fits s v w -> exists b s', f s h = (Ok (b, s'), h) /\ (b = true <-> deep_eq h v w) /\
    stack_ok nativeCreate s' /\ forall x, is_ref x -> (stack_count nativeCreate s' x <= stack_count nativeCreate s x)%nat.

Lemma fits_children s v w x y :
  stack_ok nativeCreate s ->
  (forall z, is_ref z -> (0 < stack_count nativeCreate s z)%nat -> (rank v <= rank z)%nat \/ (rank w <= rank z)%nat) ->
  (rank x < rank v)%nat -> (rank y < rank w)%nat -> fits s x y.
Proof. intros Hs Hc Hx Hy. split; [done|]. intros z Hz H0. destruct (Hc z Hz H0); lia. Qed.

(** Equal values by [===] are not compared again. *)
Lemma decides_pair (f : equal_fn) x y :
  decides (f x y None 0) x y ->
  decides (fun s => if strict_eq x y then mret (true, s) else f x y None 0 s) x y.
Proof.
  intros Hf s Hs. destruct (strict_eq x y) eqn:E; [|by apply Hf].
  exists true, s. split; [done|]. split; [|by split; [apply Hs|]]. split; [intros _|done].
  apply deep_same. unfold eq. by rewrite E.
Qed.

(** Not both objects are already under comparison. *)
Lemma not_both_stacked s v w :
  fits s v w -> is_ref v -> is_ref w ->
  truthy (stackGet nativeCreate s v) && truthy (stackGet nativeCreate s w) = false.
Proof.
  intros [Hs Hc] Hv Hw.
  destruct (stack_count nativeCreate s v) eqn:Ev; [by rewrite (stack_get_none _ s v)|].
  destruct (stack_count nativeCreate s w) eqn:Ew; [rewrite (stack_get_none _ s w) by done; apply andb_false_r|].
  exfalso. pose proof (Hc v Hv ltac:(lia)). pose proof (Hc w Hw ltac:(lia)). lia.
Qed.

(** The stack with both objects pushed. *)
Lemma push_both s v w :
  fits s v w -> is_ref v -> is_ref w ->
  let s1 := stackSet nativeCreate nativeMap (stackSet nativeCreate nativeMap s v w) w v in
  stack_ok nativeCreate s1 /\
  (forall x, is_ref x -> (stack_count nativeCreate s1 x <= stack_count nativeCreate s x + one v x + one w x)%nat) /\
  forall z, is_ref z -> (0 < stack_count nativeCreate s1 z)%nat -> (rank v <= rank z)%nat \/ (rank w <= rank z)%nat.
Proof.
  intros [Hs Hc] Hv Hw. cbn zeta.
  destruct (stack_set_count nativeCreate nativeMap s v w Hs Hv Hw) as [Hs1 Hc1].
  destruct (stack_set_count nativeCreate nativeMap _ w v Hs1 Hw Hv) as [Hs2 Hc2]. cbn zeta in *.
  assert (Hle : forall x, is_ref x -> (stack_count nativeCreate
    (stackSet nativeCreate nativeMap (stackSet nativeCreate nativeMap s v w) w v) x <=
    stack_count nativeCreate s x + one v x + one w x)%nat).
  { intros x Hx. specialize (Hc1 x Hx). specialize (Hc2 x Hx). lia. }
  split; [done|]. split; [done|]. intros z Hz H0. specialize (Hle z Hz). unfold one in Hle.
  rewrite !eq_ref in Hle by done. repeat case_bool_decide; subst; try lia. destruct (Hc z Hz); lia.
Qed.

(** ... and popped again. *)
Lemma pop_both s s1 v w :
  stack_ok nativeCreate s1 -> is_ref v -> is_ref w ->
  (forall x, is_ref x -> (stack_count nativeCreate s1 x <= stack_count nativeCreate s x + one v x + one w x)%nat) ->
  let s2 := snd (stackDelete nativeCreate (snd (stackDelete nativeCreate s1 v)) w) in
  stack_ok nativeCreate s2 /\ forall x, is_ref x -> (stack_count nativeCreate s2 x <= stack_count nativeCreate s x)%nat.
Proof.
  intros Hs Hv Hw Hle. cbn zeta. destruct (stack_delete_count nativeCreate s1 v Hs Hv) as [Hs1 Hc1].
  destruct (stack_delete_count nativeCreate _ w Hs1 Hw) as [Hs2 Hc2]. split; [done|].
  intros x Hx. specialize (Hle x Hx). specialize (Hc1 x Hx). specialize (Hc2 x Hx). cbn zeta in *. lia.
Qed.

(** *** Arrays *)

Definition array_body (f : equal_fn) (array other : value) :=
  fun (_ index : Z) '(seen, stack) =>
    a ← get_obj array;
    o ← get_obj other;
    let arrValue := (o_items a).[index] in
    let othValue := (o_items o).[index] in
    compared ← customized None false arrValue othValue (Number (num index)) array other;
    if negb (is_undefined compared) then
      mret (if truthy compared then inl (seen, stack) else inr stack)
    else
      match seen with
      | Some seen =>
          m ← match_unordered nativeCreate f None 0 arrValue other seen stack;
          mret (match m with
                | inr (seen, stack) => inl (Some seen, stack)
                | inl (_, stack) => inr stack
                end)
      | None =>
          if strict_eq arrValue othValue then mret (inl (None, stack))
          else
            r ← f arrValue othValue None 0 stack;
            mret (if fst r : bool then inl (None, snd r) else inr (snd r))
      end.

Lemma array_loop (f : equal_fn) v w a o i k xs ys s :
  lookup_obj h v = a -> lookup_obj h w = o ->
  drop k (o_items a) = xs -> drop k (o_items o) = ys -> length xs = length ys ->
  (forall x y, x ∈ xs -> y ∈ ys -> (rank x < rank v)%nat /\ (rank y < rank w)%nat /\ decides (f x y None 0) x y) ->
  stack_ok nativeCreate s ->
  (forall z, is_ref z -> (0 < stack_count nativeCreate s z)%nat -> (rank v <= rank z)%nat \/ (rank w <= rank z)%nat) ->
  exists (b : bool) s', eloop (R := Stack) (array_body f v w) i (seqZ (Z.of_nat k) (len xs)) (None, s) h =
      (Ok (if b then inl (None, s') else inr s'), h) /\
    (b = true <-> Forall2 (deep_eq h) xs ys) /\
    stack_ok nativeCreate s' /\ forall z, is_ref z -> (stack_count nativeCreate s' z <= stack_count nativeCreate s z)%nat.
Proof.
  intros Ha Ho. revert k ys s i. induction xs as [|x xs IH]; intros k ys s i Hxs Hys Hl Hf Hs Hc.
  { destruct ys; [|done]. exists true, s. split; [done|]. split; [|by split]. split; [intros _; constructor|done]. }
  destruct ys as [|y ys]; [done|]. cbn [length] in *.
  rewrite seqZ_cons by lia. replace (Z.succ (Z.of_nat k)) with (Z.of_nat (S k)) by lia.
  replace (Z.pred (Z.of_nat (S (length xs)))) with (len xs) by lia.
  assert (Hx : (o_items a).[Z.of_nat k] = x).
  { apply at_index_lookup; [lia|]. rewrite Nat2Z.id, <- (Nat.add_0_r k), <- lookup_drop, Hxs. done. }
  assert (Hy : (o_items o).[Z.of_nat k] = y).
  { apply at_index_lookup; [lia|]. rewrite Nat2Z.id, <- (Nat.add_0_r k), <- lookup_drop, Hys. done. }
  destruct (Hf x y) as (Rx & Ry & Hd); [left..|].
  destruct (decides_pair f x y Hd s) as (b & s1 & Hb & Hiff & Hs1 & Hc1); [by eapply fits_children|].
  assert (Hbody : array_body f v w i (Z.of_nat k) (None, s) h = (Ok (if b then inl (None, s1) else inr s1), h)).
  { unfold array_body, get_obj, customized, get_state, mbind, eff_bind, mret, eff_ret in *.
    rewrite Ha, Ho, Hx, Hy. cbn [is_undefined negb]. destruct (strict_eq x y); [by injection Hb as <- <-|].
    rewrite Hb. by destruct b. }
  destruct b.
  - destruct (IH (S k) ys s1 (i + 1)) as (b & s2 & Hr & Hiff2 & Hs2 & Hc2); try done.
    + rewrite <- Nat.add_1_r, <- drop_drop, Hxs. done.
    + rewrite <- Nat.add_1_r, <- drop_drop, Hys. done.
    + by injection Hl.
    + intros x' y' Hx' Hy'. apply Hf; by right.
    + intros z Hz H0. apply Hc; [done|]. specialize (Hc1 z Hz). lia.
    + exists b, s2. split; [by rewrite (eloop_next _ _ _ _ _ _ _ _ Hbody)|]. split; [|split; [done|]].
      * rewrite Hiff2. rewrite Forall2_cons. intuition.
      * intros z Hz. specialize (Hc1 z Hz). specialize (Hc2 z Hz). lia.
  - exists false, s1. split; [by rewrite (eloop_stop _ _ _ _ _ _ _ _ Hbody)|]. split; [|by split]. split; [done|].
    intros Hff. apply Forall2_cons in Hff as [Hxy _]. by apply Hiff in Hxy.
Qed.

Lemma deep_eq_array i j a o :
  objs h !! i = Some a -> objs h !! j = Some o ->
  deep_eq h (Ref ClsArray i) (Ref ClsArray j) <-> Forall2 (deep_eq h) (o_items a) (o_items o).
Proof.
  intros Ha Ho. split.
  - inversion 1 as [v w E|i' j' a' o' Ha' Ho' Hf|]; subst; [|by simplify_eq].
    rewrite eq_ref in E by done. apply bool_decide_eq_true in E as [= ->]. simplify_eq.
    apply Forall2_same_length_lookup_2; [done|]. intros n x y Hx Hy. simplify_eq.
    apply deep_same. by rewrite eq_norm, bool_decide_eq_true_2.
  - intros Hf. by eapply deep_array.
Qed.

Lemma equalArrays_decides (f : equal_fn) i j a o :
  objs h !! i = Some a -> objs h !! j = Some o ->
  (forall x y, x ∈ o_items a -> y ∈ o_items o -> decides (f x y None 0) x y) ->
  decides (equalArrays nativeCreate nativeMap (Ref ClsArray i) (Ref ClsArray j) f None 0) (Ref ClsArray i) (Ref ClsArray j).
Proof.
  intros Ha Ho Hf s Hs. set (v := Ref ClsArray i) in *. set (w := Ref ClsArray j) in *.
  assert (Hlv : lookup_obj h v = a) by (cbn; by rewrite Ha).
  assert (Hlw : lookup_obj h w = o) by (cbn; by rewrite Ho).
  pose proof (deep_eq_array i j a o Ha Ho) as Hde. fold v w in Hde.
  unfold equalArrays. rewrite get_obj_bind, Hlv, get_obj_bind, Hlw. cbn zeta. change (Z.land 0 _ =? 0) with true. cbn [negb andb].
  destruct (Z.eqb_spec (len (o_items a)) (len (o_items o))) as [El|El]; cbn [negb andb].
  2:{ exists false, s. split; [done|]. split; [|by split; [apply Hs|]]. split; [done|].
      intros Hff%Hde%Forall2_length. lia. }
  rewrite not_both_stacked by done.
  destruct (push_both s v w Hs I I) as (Hs1 & Hle1 & Hc1). cbn zeta in *.
  set (s1 := stackSet nativeCreate nativeMap (stackSet nativeCreate nativeMap s v w) w v) in *.
  destruct (array_loop f v w a o 0 0 (o_items a) (o_items o) s1) as (b & s2 & Hl & Hiff & Hs2 & Hc2);
    try done; [lia| |].
  { intros x y Hx Hy. split_and!; [| |by apply Hf].
    - apply (ph_child _ _ _ plain i a ClsArray x Ha). by left.
    - apply (ph_child _ _ _ plain j o ClsArray y Ho). by left. }
  destruct (pop_both s s2 v w Hs2 I I) as [Hs3 Hc3].
  { intros x Hx. specialize (Hle1 x Hx). specialize (Hc2 x Hx). lia. }
  exists b. eexists. split; [|split; [by rewrite Hde|split; [exact Hs3|exact Hc3]]].
  unfold mbind at 1, eff_bind at 1.
  match goal with |- context [eloop ?B ?k ?l ?acc h] => change (eloop B k l acc h) with
    (eloop (R := Stack) (array_body f v w) 0 (seqZ (Z.of_nat 0) (len (o_items a))) (None, s1) h) end.
  rewrite Hl. by destruct b.
Qed.

(** *** Objects *)

Lemma deep_eq_object i j a o :
  objs h !! i = Some a -> objs h !! j = Some o ->
  deep_eq h (Ref ClsObject i) (Ref ClsObject j) <->
  length (o_props a) = length (o_props o) /\
  forall k v, own_prop a k = Some v -> exists w, own_prop o k = Some w /\ deep_eq h v w.
Proof.
  intros Ha Ho. split.
  - inversion 1 as [v w E| |i' j' a' o' Ha' Ho' Hl Hf]; subst; [|by simplify_eq].
    rewrite eq_ref in E by done. apply bool_decide_eq_true in E as [= ->]. simplify_eq.
    split; [done|]. intros k v Hv. exists v. split; [done|]. apply deep_same. by rewrite eq_norm, bool_decide_eq_true_2.
  - intros [Hl Hf]. by eapply deep_object.
Qed.

Lemma baseHas_own id o k : objs h !! id = Some o -> baseHas o k = bool_decide (k ∈ names o).
Proof.
  intros Ho. destruct (ph_keys _ _ _ plain id o Ho) as (_ & _ & Hn & _). unfold baseHas. rewrite Hn, andb_false_r.
  destruct (own_prop o k) eqn:E; symmetry; [apply bool_decide_eq_true, own_prop_name; by eexists|].
  apply bool_decide_eq_false. rewrite own_prop_name. intros [v Hv]. congruence.
Qed.

Lemma all_keys (p : jstring -> bool) i ks :
  returned true (loop_right (Acc := unit) (fun _ key _ => if negb (p key) then inr false else inl tt) i ks tt) = forallb p ks.
Proof.
  assert (Hg : forall i, loop_right (Acc := unit) (R := bool) (fun _ key _ => if negb (p key) then inr false else inl tt) i ks tt =
    if forallb p ks then inl tt else inr false).
  { induction ks as [|k ks IH]; intros j; [done|]. cbn [loop_right forallb]. rewrite IH.
    destruct (forallb p ks); cbn; [|by rewrite andb_false_r]. by destruct (p k). }
  rewrite Hg. by destruct (forallb p ks).
Qed.

Definition object_body (f : equal_fn) (object other : value) :=
  fun (_ : Z) (key : jstring) '(skipCtor, stack) =>
    a ← get_obj object;
    o ← get_obj other;
    let objValue := get_prop a key in
    let othValue := get_prop o key in
    compared ← customized None false objValue othValue (String key) object other;
    r ← (if is_undefined compared then
           if strict_eq objValue othValue then mret (true, stack)
           else f objValue othValue None 0 stack
         else mret (truthy compared, stack));
    mret (if fst r : bool then inl (skipCtor || bool_decide (key = str "constructor"), snd r) else inr (snd r)).

Lemma object_loop (f : equal_fn) v w a o i ks skip s :
  lookup_obj h v = a -> lookup_obj h w = o ->
  Forall (fun k => exists x y, own_prop a k = Some x /\ own_prop o k = Some y /\
    (rank x < rank v)%nat /\ (rank y < rank w)%nat /\ decides (f x y None 0) x y) ks ->
  stack_ok nativeCreate s ->
  (forall z, is_ref z -> (0 < stack_count nativeCreate s z)%nat -> (rank v <= rank z)%nat \/ (rank w <= rank z)%nat) ->
  exists (b : bool) s', eloop (R := Stack) (object_body f v w) i ks (skip, s) h =
      (Ok (if b then inl (skip || existsb (fun k => bool_decide (k = str "constructor")) ks, s') else inr s'), h) /\
    (b = true <-> forall k x y, k ∈ ks -> own_prop a k = Some x -> own_prop o k = Some y -> deep_eq h x y) /\
    stack_ok nativeCreate s' /\ forall z, is_ref z -> (stack_count nativeCreate s' z <= stack_count nativeCreate s z)%nat.
Proof.
  intros Ha Ho Hf. revert i skip s. induction Hf as [|k ks (x & y & Hx & Hy & Rx & Ry & Hd) _ IH]; intros i skip s Hs Hc.
  { exists true, s. cbn [existsb]. rewrite orb_false_r. split; [done|]. split; [|by split].
    split; [|done]. intros _ k x y Hk. by apply elem_of_nil in Hk. }
  destruct (decides_pair f x y Hd s) as (b & s1 & Hb & Hiff & Hs1 & Hc1); [by eapply fits_children|].
  assert (Hbody : object_body f v w i k (skip, s) h =
    (Ok (if b then inl (skip || bool_decide (k = str "constructor"), s1) else inr s1), h)).
  { unfold object_body, get_obj, customized, get_state, mbind, eff_bind, mret, eff_ret in *.
    rewrite Ha, Ho. unfold get_prop. rewrite Hx, Hy. cbn [is_undefined]. rewrite Hb. by destruct b. }
  destruct b.
  - destruct (IH (i + 1) (skip || bool_decide (k = str "constructor")) s1) as (b & s2 & Hr & Hiff2 & Hs2 & Hc2); [done| |].
    { intros z Hz H0. apply Hc; [done|]. specialize (Hc1 z Hz). lia. }
    exists b, s2. split; [rewrite (eloop_next _ _ _ _ _ _ _ _ Hbody), Hr; cbn [existsb]; by rewrite orb_assoc|].
    split; [|split; [done|intros z Hz; specialize (Hc1 z Hz); specialize (Hc2 z Hz); lia]].
    rewrite Hiff2. split.
    + intros Hall k' x' y' Hk' Hx' Hy'. apply elem_of_cons in Hk' as [->|Hk']; [|by eapply Hall].
      simplify_eq. by apply Hiff.
    + intros Hall k' x' y' Hk'. apply Hall. by right.
  - exists false, s1. split; [by rewrite (eloop_stop _ _ _ _ _ _ _ _ Hbody)|]. split; [|by split]. split; [done|].
    intros Hall. apply Hiff. apply (Hall k); [left|done|done].
Qed.

Lemma loose_eq_ref v : is_ref v -> loose_eq v v = true.
Proof.
  destruct v as [| | | | | |cls n]; try done. intros _. cbn. by rewrite bool_decide_eq_true_2, Z.eqb_refl.
Qed.

(** Two lists of distinct keys of one length, one inside the other, have the same keys. *)
Lemma same_keys (ks ls : list jstring) k :
  NoDup ks -> NoDup ls -> length ks = length ls -> Forall (fun k => k ∈ ls) ks -> k ∈ ls -> k ∈ ks.
Proof.
  intros Hk Hl Hlen Hsub Hin. assert (Hp : ks ≡ₚ ls); [|by rewrite Hp].
  apply submseteq_length_Permutation; [|lia]. apply NoDup_submseteq; [done|].
  intros x Hx. rewrite Forall_forall in Hsub. auto.
Qed.

Lemma equalObjects_decides (f : equal_fn) i j a o :
  objs h !! i = Some a -> objs h !! j = Some o ->
  (forall x y, x ∈ List.map snd (o_props a) -> y ∈ List.map snd (o_props o) -> decides (f x y None 0) x y) ->
  decides (equalObjects nativeCreate nativeMap instanceof_itself (Ref ClsObject i) (Ref ClsObject j) f None 0)
    (Ref ClsObject i) (Ref ClsObject j).
Proof.
  intros Ha Ho Hf s Hs. set (v := Ref ClsObject i) in *. set (w := Ref ClsObject j) in *.
  assert (Hlv : lookup_obj h v = a) by (cbn; by rewrite Ha).
  assert (Hlw : lookup_obj h w = o) by (cbn; by rewrite Ho).
  pose proof (deep_eq_object i j a o Ha Ho) as Hde. fold v w in Hde.
  destruct (ph_keys _ _ _ plain i a Ha) as (Na & _ & _ & Ca). destruct (ph_keys _ _ _ plain j o Ho) as (No & _ & _ & Co).
  assert (Hfalse : forall Q : Prop, (deep_eq h v w -> Q) -> ~ Q -> exists b s', (Ok (E := exn) (false, s), h) = (Ok (b, s'), h) /\
    (b = true <-> deep_eq h v w) /\ stack_ok nativeCreate s' /\
    forall x, is_ref x -> (stack_count nativeCreate s' x <= stack_count nativeCreate s x)%nat).
  { intros Q H1 H2. exists false, s. split; [done|]. split; [|by split; [apply Hs|]]. split; [done|]. intros Hd. tauto. }
  unfold equalObjects. rewrite get_obj_bind, Hlv, get_obj_bind, Hlw. cbn zeta. change (Z.land 0 _ =? 0) with true.
  cbn [negb andb]. rewrite andb_true_r, all_keys.
  assert (Ll : forall x : obj, len (names x) = len (o_props x)) by (intros x; unfold names; by rewrite length_map).
  rewrite !Ll. destruct (Z.eqb_spec (len (o_props a)) (len (o_props o))) as [El|El]; cbn [negb].
  2:{ apply (Hfalse (length (o_props a) = length (o_props o))); [|lia]. by intros [? _]%Hde. }
  destruct (forallb (baseHas o) (names a)) eqn:Ek; cbn [negb].
  2:{ apply (Hfalse (forallb (baseHas o) (names a) = true)); [|by rewrite Ek]. intros [_ Hd]%Hde.
      apply forallb_forall. intros k Hk. rewrite (baseHas_own j) by done. apply bool_decide_eq_true.
      apply list_elem_of_In, own_prop_name in Hk as [x Hx]. destruct (Hd k x Hx) as (y & Hy & _).
      apply own_prop_name. by eexists. }
  rewrite forallb_forall in Ek.
  assert (Hsub : Forall (fun k => k ∈ names o) (names a)).
  { apply Forall_forall. intros k Hk. apply list_elem_of_In in Hk. specialize (Ek k Hk).
    rewrite (baseHas_own j) in Ek by done. by apply bool_decide_eq_true in Ek. }
  rewrite not_both_stacked by done.
  destruct (push_both s v w Hs I I) as (Hs1 & Hle1 & Hc1). cbn zeta in *.
  set (s1 := stackSet nativeCreate nativeMap (stackSet nativeCreate nativeMap s v w) w v) in *.
  destruct (object_loop f v w a o 0 (names a) false s1) as (b & s2 & Hl & Hiff & Hs2 & Hc2); try done.
  { rewrite Forall_forall in Hsub |- *. intros k Hk. pose proof (proj1 (own_prop_name a k) Hk) as [x Hx].
    pose proof (proj1 (own_prop_name o k) (Hsub k Hk)) as [y Hy]. exists x, y.
    assert (Ix : x ∈ List.map snd (o_props a)) by (apply own_prop_elem in Hx; by apply (list_elem_of_fmap_2 snd) in Hx).
    assert (Iy : y ∈ List.map snd (o_props o)) by (apply own_prop_elem in Hy; by apply (list_elem_of_fmap_2 snd) in Hy).
    split_and!; [done|done| | |by apply Hf].
    - apply (ph_child _ _ _ plain i a ClsObject x Ha). by right.
    - apply (ph_child _ _ _ plain j o ClsObject y Ho). by right. }
  destruct (pop_both s s2 v w Hs2 I I) as [Hs3 Hc3].
  { intros x Hx. specialize (Hle1 x Hx). specialize (Hc2 x Hx). lia. }
  exists b. eexists. split; [|split; [|split; [exact Hs3|exact Hc3]]].
  - unfold mbind at 1, eff_bind at 1.
    match goal with |- context [eloop ?B ?k ?l ?acc h] => change (eloop B k l acc h) with
      (eloop (R := Stack) (object_body f v w) 0 (names a) (false, s1) h) end.
    rewrite Hl, get_obj_bind, Hlv, get_obj_bind, Hlw. destruct b; [|done]. cbn [orb].
    destruct (existsb _ (names a)) eqn:Ec; [done|]. cbn [negb andb].
    assert (Hown : forall x, length (names x) = length (names a) -> Forall (fun k => k ∈ names x) (names a) -> NoDup (names x) ->
      own_prop x (str "constructor") = None).
    { intros x Hlx Hsx Hnx. destruct (own_prop x (str "constructor")) eqn:Ex; [|done]. exfalso.
      assert (Hk : str "constructor" ∈ names a).
      { apply (same_keys (names a) (names x)); [done..|by rewrite Hlx|done|]. apply own_prop_name. by eexists. }
      apply not_true_iff_false in Ec. apply Ec, existsb_exists. exists (str "constructor").
      split; [by apply list_elem_of_In|by apply bool_decide_eq_true]. }
    assert (Oa : own_prop a (str "constructor") = None).
    { apply Hown; [done| |done]. apply Forall_forall. auto. }
    assert (Oo : own_prop o (str "constructor") = None).
    { apply Hown; [|done|done]. pose proof (Ll a). pose proof (Ll o). lia. }
    unfold get_prop. rewrite Oa, Oo, Ca, Co. cbn [default]. unfold id. by rewrite loose_eq_ref.
  - rewrite Hiff, Hde. split.
    + intros Hall. split; [lia|]. intros k x Hx. rewrite Forall_forall in Hsub.
      destruct (proj1 (own_prop_name o k)) as [y Hy]; [apply Hsub, own_prop_name; by eexists|].
      exists y. split; [done|]. apply (Hall k); [apply own_prop_name; by eexists|done|done].
    + intros [_ Hd] k x y _ Hx Hy. destruct (Hd k x Hx) as (y' & Hy' & Hxy). by simplify_eq.
Qed.

(** *** Values *)

Abbreviation is_equal := (baseIsEqual nativeCreate nativeMap isHostObject instanceof_itself wrapper_value symbolValueOf).

(** Values of different shapes are equal only as primitives. *)
Definition same_shape (v w : value) : bool :=
  match v, w with
  | Ref ClsArray _, Ref ClsArray _ | Ref ClsObject _, Ref ClsObject _ => true
  | _, _ => false
  end.

Lemma deep_eq_shape v w : same_shape v w = false -> deep_eq h v w <-> eq v w = true.
Proof. intros Hs. split; [|apply deep_same]. inversion 1; subst; done. Qed.

Lemma decides_false v w (f : Stack -> eff heap (bool * Stack)) :
  (forall s, f s h = (Ok (false, s), h)) -> same_shape v w = false -> eq v w = false -> decides f v w.
Proof.
  intros Hf Hs He s Hfit. exists false, s. split; [apply Hf|]. split; [|by split; [apply Hfit|]].
  rewrite deep_eq_shape, He by done. done.
Qed.

Lemma plain_ref cls id : plain_value h (Ref cls id) -> exists o, objs h !! id = Some o /\ own_prop o (str "__wrapped__") = None.
Proof. intros [_ [o Ho]]. exists o. split; [done|]. by destruct (ph_keys _ _ _ plain id o Ho) as (_ & ? & _). Qed.

Lemma no_wrapped v : plain_value h v -> own_prop (lookup_obj h v) (str "__wrapped__") = None.
Proof.
  destruct v as [| | | | | |cls id]; try done. intros (o & Ho & Hn)%plain_ref. cbn. by rewrite Ho.
Qed.

(** Objects of different shapes, or an object and a primitive. *)
Lemma deep_mismatch (f : equal_fn) v w s :
  plain_value h v -> plain_value h w -> is_nil v || is_nil w = false -> is_ref v \/ is_ref w ->
  same_shape v w = false ->
  baseIsEqualDeep nativeCreate nativeMap isHostObject instanceof_itself wrapper_value symbolValueOf v w f None 0 s h
  = (Ok (false, s), h).
Proof.
  intros Hv Hw Hn Hr Hs. unfold baseIsEqualDeep. rewrite !get_obj_bind, !no_wrapped, !no_host by done. cbn zeta.
  change (Z.land 0 _ =? 0) with true. cbn [negb andb]. rewrite !andb_false_r. cbn [orb].
  destruct v as [| | | | | |c i], w as [| | | | | |c' i']; cbn [is_ref] in Hr; try (by destruct Hr); try done;
    repeat match goal with Hp : plain_value h (Ref _ _) |- _ => destruct Hp as [[-> | ->] _] end; done.
Qed.

Lemma baseIsEqual_decides depth v w :
  plain_value h v -> plain_value h w -> (rank v < depth)%nat -> decides (is_equal depth v w None 0) v w.
Proof.
  revert v w. induction depth as [|depth IH]; intros v w Hv Hw Hd; [lia|]. cbn [baseIsEqual].
  destruct (strict_eq v w) eqn:Es.
  { intros s Hs. exists true, s. split; [done|]. split; [|by split; [apply Hs|]]. split; [intros _|done].
    apply deep_same. unfold eq. by rewrite Es. }
  assert (He : eq v w = negb (strict_eq v v) && negb (strict_eq w w)) by (unfold eq; by rewrite Es).
  destruct (is_nil v || is_nil w || (negb (isObject v) && negb (isObjectLike w))) eqn:Ep.
  { intros s Hs. eexists _, s. split; [done|]. split; [|by split; [apply Hs|]]. rewrite <- He. symmetry.
    apply deep_eq_shape. destruct v as [| | | | | |c i], w as [| | | | | |c' i']; try done; by destruct c. }
  destruct (same_shape v w) eqn:Esh.
  - destruct v as [| | | | | |c i], w as [| | | | | |c' i']; try done; try (by destruct c).
    destruct (plain_ref _ _ Hv) as (a & Ha & _), (plain_ref _ _ Hw) as (o & Ho & _).
    assert (Hchild : forall x y, (x ∈ o_items a \/ x ∈ List.map snd (o_props a)) -> (y ∈ o_items o \/ y ∈ List.map snd (o_props o)) ->
      decides (is_equal depth x y None 0) x y).
    { intros x y Hx Hy. destruct (ph_child _ _ _ plain i a c x Ha Hx) as [Px Rx].
      destruct (ph_child _ _ _ plain i' o c' y Ho Hy) as [Py _]. apply IH; [done|done|lia]. }
    destruct c, c'; try done.
    + intros s Hs. unfold baseIsEqualDeep. rewrite !get_obj_bind. cbn zeta. rewrite !no_host.
      cbn -[equalArrays]. apply (equalArrays_decides (is_equal depth) i i' a o Ha Ho); auto.
    + intros s Hs. unfold baseIsEqualDeep. rewrite !get_obj_bind, !no_wrapped, !no_host by done. cbn -[equalObjects].
      apply (equalObjects_decides (is_equal depth) i i' a o Ha Ho); auto.
  - apply orb_false_iff in Ep as [Hnil Ep].
    assert (Href : is_ref v \/ is_ref w).
    { destruct v, w; cbn [is_ref]; auto; unfold isObject, isObjectLike in Ep; cbn [typeof] in Ep;
        rewrite ?(bool_decide_eq_false_2 (_ = TObject)), ?(bool_decide_eq_false_2 (_ = TFunction)) in Ep by done;
        by rewrite !andb_false_r in Ep. }
    apply decides_false; [|done|].
    + intros s. by apply deep_mismatch.
    + assert (Hr : forall x, is_ref x -> strict_eq x x = true).
      { intros [| | | | | |c i] Hx; try done. cbn. by rewrite bool_decide_eq_true_2, Z.eqb_refl. }
      rewrite He. destruct Href as [Hx|Hx]; rewrite (Hr _ Hx); [done|]. by rewrite andb_false_r.
Qed.

(** C27: [isEqual] decides structural equality of plain data. On arrays, objects and
    primitives without cycles it returns, with a call depth above the nesting of the
    first value, and answers true exactly when the values have the same structure; the
    stack against cycles never cuts a comparison short. *)
Theorem isEqual_structural depth v w :
  plain_value h v -> plain_value h w -> (rank v < depth)%nat ->
  exists b, isEqual nativeCreate nativeMap isHostObject instanceof_itself wrapper_value symbolValueOf depth v w h = (Ok b, h) /\
    (b = true <-> deep_eq h v w).
Proof.
  intros Hv Hw Hd. destruct (baseIsEqual_decides depth v w Hv Hw Hd (new_Stack [])) as (b & s & Hb & Hiff & _).
  { split; [apply new_Stack_count; exact v|]. intros x _ H0.
    destruct (new_Stack_count nativeCreate x) as [_ Hz]. lia. }
  exists b. split; [|done]. unfold isEqual, mbind, eff_bind. by rewrite Hb.
Qed.
End plain_data.

(** ** An example *)

Definition ex_ctor : value := Ref ClsFunction 9.
Definition ex_plain (items : list value) (props : list (jstring * value)) : obj :=
  {| o_items := items; o_props := props; o_hidden := [(str "constructor", ex_ctor)]; o_null_proto := false;
     o_entries := []; o_members := []; o_byteLength := 0; o_byteOffset := 0; o_buffer := Undefined |}.

(** [[1, {a: NaN}]] twice. *)
Definition ex_heap : heap :=
  {| objs := <[0 := ex_plain [Number (num 1); Ref ClsObject 1] []]> (<[1 := ex_plain [] [(str "a", Number nan)]]>
       (<[2 := ex_plain [Number (num 1); Ref ClsObject 3] []]> (<[3 := ex_plain [] [(str "a", Number nan)]]> ∅)));
     next_id := 10 |}.

Definition ex_rank (v : value) : nat :=
  match v with Ref _ id => if Z.even id then 2 else 1 | _ => 0 end.

Lemma ex_heap_plain : plain_heap ex_heap ex_rank ex_ctor.
Proof.
  split.
  - intros id o cls c Ho Hc. unfold ex_heap in Ho. cbn [objs] in Ho.
    do 4 (apply lookup_insert_Some in Ho as [[<- <-]|[_ Ho]]; [cbn [ex_plain o_items o_props List.map snd] in Hc;
      repeat setoid_rewrite elem_of_cons in Hc; rewrite ?elem_of_nil in Hc;
      destruct_or?; subst; try done; (split; [|cbn; lia]); first [exact I | split; [by right|by eexists]]|]).
    by rewrite lookup_empty in Ho.
  - intros id o Ho. unfold ex_heap in Ho. cbn [objs] in Ho.
    do 4 (apply lookup_insert_Some in Ho as [[<- <-]|[_ Ho]]; [split; [first [apply NoDup_nil_2 | apply NoDup_singleton]|by vm_compute]|]).
    by rewrite lookup_empty in Ho.
Qed.

Lemma isEqual_structural_witness :
  exists b, @isEqual plain_host true true (fun _ => false) (fun _ => true) mret true 5 (Ref ClsArray 0) (Ref ClsArray 2) ex_heap
    = (Ok b, ex_heap).
Proof.
  destruct (@isEqual_structural plain_host true true (fun _ => false) (fun _ => true) mret true ex_heap ex_rank ex_ctor)
    with (depth := 5%nat) (v := Ref ClsArray 0) (w := Ref ClsArray 2) as (b & Hb & _).
  - reflexivity.
  - exact ex_heap_plain.
  - exact I.
  - split; [by left|]. by eexists.
  - split; [by left|]. by eexists.
  - cbn. lia.
  - by exists b.
Defined.

(** The comparison of maps and sets, and of data with cycles. *)
Definition ex_cycle : heap :=
  {| objs := <[0 := ex_plain [Ref ClsArray 0] []]> (<[1 := ex_plain [Ref ClsArray 1] []]>
       (<[2 := {| o_items := []; o_props := []; o_hidden := []; o_null_proto := false;
                  o_entries := [(Number (num 1), String (str "a")); (Number (num 2), Null)]; o_members := [];
                  o_byteLength := 0; o_byteOffset := 0; o_buffer := Undefined |}]>
       (<[3 := {| o_items := []; o_props := []; o_hidden := []; o_null_proto := false;
                  o_entries := [(Number (num 2), Null); (Number (num 1), String (str "a"))]; o_members := [];
                  o_byteLength := 0; o_byteOffset := 0; o_buffer := Undefined |}]> ∅)));
     next_id := 10 |}.

Lemma isEqual_cycle_and_maps :
  fst (@isEqual plain_host true true (fun _ => false) (fun _ => true) mret true 5 (Ref ClsArray 0) (Ref ClsArray 1) ex_cycle) = Ok true /\
  fst (@isEqual plain_host true true (fun _ => false) (fun _ => true) mret true 5 (Ref ClsMap 2) (Ref ClsMap 3) ex_cycle) = Ok true.
Proof. split; vm_compute; reflexivity. Qed.
