(* ===== verification/LodashLazy.v ===== *)
(** * lodash.js: chained and lazy sequences

    The wrappers of [immer/extra/js/lib/lodash.js] that defer the methods of a chain:
    [LodashWrapper] with its queue of actions, [LazyWrapper] with its views, iteratees
    and take count, and [lazyValue], which runs the iteratees in one pass over a large
    array instead of one pass per method.

    A chain starts from an array. The iteratees are functions, and every method that is
    queued takes an array to an array. *)

From S2P Require Import Prelude Js LodashLang LodashArrays LodashLists LodashPull.

Definition LAZY_FILTER_FLAG : Z := 1.
Definition LAZY_MAP_FLAG : Z := 2.
Definition LAZY_WHILE_FLAG : Z := 3.

(** A part of the array that is taken or dropped at one of its ends. *)
Inductive view_type := VDrop | VDropRight | VTake | VTakeRight.
Record view := { view_size : Z; view_kind : view_type }.

Section lazy.
Context {S : Type}.

(** A queued method. *)
Definition action : Type := list value -> eff S (list value).

(** An iteratee with the number of parameters it declares. *)
Record iteratee := { it_length : Z; it_fn : value -> eff S value }.

Inductive lazy :=
| LazyWrapper (wrapped : lazy_source) (actions : list action) (dir : Z) (filtered : bool)
    (iteratees : list (iteratee * Z)) (takeCount : Z) (views : list view)
with lazy_source :=
| FromWrapper (w : wrapper)
| FromLazy (l : lazy)
with wrapper :=
| LodashWrapper (wrapped : wrapped_value) (actions : list action) (chainAll : bool)
with wrapped_value :=
| WArray (l : list value)
| WLazy (l : lazy).

Definition new_LazyWrapper (wrapped : lazy_source) : lazy :=
  LazyWrapper wrapped [] 1 false [] MAX_ARRAY_LENGTH [].

Definition new_LodashWrapper (wrapped : wrapped_value) (chainAll : bool) : wrapper :=
  LodashWrapper wrapped [] chainAll.

Definition lazyReverse (this : lazy) : lazy :=
  let '(LazyWrapper wrapped actions dir filtered iteratees takeCount views) := this in
  if filtered then LazyWrapper (FromLazy this) [] (-1) true [] MAX_ARRAY_LENGTH []
  else LazyWrapper wrapped actions (dir * -1) filtered iteratees takeCount views.

Definition getView (start end_ : Z) (transforms : list view) : Z * Z :=
  ended (loop (R := Z * Z) (fun _ data '(start, end_) =>
    let size := view_size data in
    inl (match view_kind data with
         | VDrop => (start + size, end_)
         | VDropRight => (start, end_ - size)
         | VTake => (start, Z.min end_ (start + size))
         | VTakeRight => (Z.max start (end_ - size), end_)
         end)) 0 transforms (start, end_)).

(** The queued methods, one after the other. *)
Definition baseWrapperValue (v : list value) (actions : list action) : eff S (list value) :=
  r ← eloop (R := list value) (fun _ (a : action) result => r ← a result; mret (inl r)) 0 actions v;
  mret (ended r).

(** The iteratees on one element: the value to keep, [inr true] to go on to the next
    element, [inr false] to end. *)
Definition run_iteratees (iteratees : list (iteratee * Z)) (v : value) : eff S (value + bool) :=
  eloop (fun _ '(iteratee, type) v =>
    computed ← it_fn iteratee v;
    mret (if type =? LAZY_MAP_FLAG then inl computed
          else if negb (truthy computed) then inr (type =? LAZY_FILTER_FLAG)
          else inl v)) 0 iteratees v.

(** The single pass over the elements at [indexes]. *)
Definition lazy_pass (array : list value) (indexes : list Z) (iteratees : list (iteratee * Z)) (takeCount : Z) :
    eff S (list value) :=
  r ← eloop (R := list value) (fun _ index result =>
    if len result <? takeCount then
      r ← run_iteratees iteratees array.[index];
      mret (match r with
            | inl v => inl (result ++ [v])
            | inr true => inl result
            | inr false => inr result
            end)
    else mret (inr result)) 0 indexes [];
  mret (match r with inl result => result | inr result => result end).

(** What [lazyValue] does with the array it wraps. *)
Definition lazy_evaluate (array : list value) (actions : list action) (dir : Z) (iteratees : list (iteratee * Z))
    (takeCount : Z) (views : list view) : eff S (list value) :=
  let isRight := dir <? 0 in
  let arrLength := len array in
  let '(start, end_) := getView 0 arrLength views in
  let length := end_ - start in
  let takeCount := Z.min length takeCount in
  if (arrLength <? LARGE_ARRAY_SIZE) || ((arrLength =? length) && (takeCount =? length)) then
    baseWrapperValue array actions
  else
    let indexes := if isRight then List.rev (seqZ start length) else seqZ start length in
    lazy_pass array indexes iteratees takeCount.

Fixpoint lazyValue (this : lazy) : eff S (list value) :=
  match this with
  | LazyWrapper wrapped actions dir filtered iteratees takeCount views =>
      array ← match wrapped with
              | FromWrapper w => wrapperValue w
              | FromLazy l => lazyValue l
              end;
      lazy_evaluate array actions dir iteratees takeCount views
  end
with wrapperValue (this : wrapper) : eff S (list value) :=
  match this with
  | LodashWrapper wrapped actions chainAll =>
      v ← match wrapped with
          | WArray l => mret l
          | WLazy l => lazyValue l
          end;
      baseWrapperValue v actions
  end.

(** ** The methods of a lazy wrapper *)

(** [n === undefined ? 1 : nativeMax(toInteger(n), 0)]. *)
Definition lazy_count `{JsHost} (n : value) : number :=
  if is_undefined n then num 1 else nmax (toInteger n) (num 0).

(** [drop] for the index 0 and [take] for the index 1. *)
Definition lazy_drop_take `{JsHost} (isTake : bool) (this : lazy) (n : value) : lazy :=
  let '(LazyWrapper wrapped actions dir filtered iteratees takeCount views) := this in
  if filtered && negb isTake then new_LazyWrapper (FromLazy this)
  else
    let n := lazy_count n in
    if filtered then
      LazyWrapper wrapped actions dir filtered iteratees (trunc (nmin n (num takeCount))) views
    else
      let size := trunc (nmin n (num MAX_ARRAY_LENGTH)) in
      let kind := match isTake, dir <? 0 with
                  | false, false => VDrop | false, true => VDropRight
                  | true, false => VTake | true, true => VTakeRight end in
      LazyWrapper wrapped actions dir filtered iteratees takeCount (views ++ [{| view_size := size; view_kind := kind |}]).

Definition lazy_drop_take_right `{JsHost} (isTake : bool) (this : lazy) (n : value) : lazy :=
  lazyReverse (lazy_drop_take isTake (lazyReverse this) n).

(** [filter], [map] and [takeWhile], by their type. *)
Definition lazy_iterate (type : Z) (this : lazy) (f : iteratee) : lazy :=
  let isFilter := (type =? LAZY_FILTER_FLAG) || (type =? LAZY_WHILE_FLAG) in
  let '(LazyWrapper wrapped actions dir filtered iteratees takeCount views) := this in
  LazyWrapper wrapped actions dir (filtered || isFilter) (iteratees ++ [(f, type)]) takeCount views.

Definition lazy_initial_tail `{JsHost} (isTail : bool) (this : lazy) : lazy :=
  let '(LazyWrapper _ _ _ filtered _ _ _) := this in
  if filtered then new_LazyWrapper (FromLazy this)
  else if isTail then lazy_drop_take false this (Number (num 1)) else lazy_drop_take_right false this (Number (num 1)).

Definition lazy_slice `{JsHost} (this : lazy) (start : value) (end_ : value) : lazy :=
  let start := toInteger start in
  let '(LazyWrapper _ _ _ filtered _ _ _) := this in
  if filtered && (nltb (num 0) start || js_lt end_ (Number (num 0))) then new_LazyWrapper (FromLazy this)
  else
    let result := if nltb start (num 0) then lazy_drop_take_right true this (Number (nsub (num 0) start))
                  else if negb (neqb start (num 0)) then lazy_drop_take false this (Number start)
                  else this in
    if is_undefined end_ then result
    else
      let end_ := toInteger end_ in
      if nltb end_ (num 0) then lazy_drop_take_right false result (Number (nsub (num 0) end_))
      else lazy_drop_take true result (Number (nsub end_ start)).

Definition lazy_takeRightWhile (this : lazy) (f : iteratee) : lazy :=
  lazyReverse (lazy_iterate LAZY_WHILE_FLAG (lazyReverse this) f).

Definition lazy_toArray `{JsHost} (this : lazy) : lazy := lazy_drop_take true this (Number (num MAX_ARRAY_LENGTH)).

(** ** The methods of a wrapper *)

Definition push_action (l : lazy) (a : action) : lazy :=
  let '(LazyWrapper wrapped actions dir filtered iteratees takeCount views) := l in
  LazyWrapper wrapped (actions ++ [a]) dir filtered iteratees takeCount views.

(** [thru] of a chain queues its interceptor. *)
Definition wrapper_thru (this : wrapper) (interceptor : action) : wrapper :=
  let '(LodashWrapper wrapped actions chainAll) := this in
  LodashWrapper wrapped (actions ++ [interceptor]) chainAll.

(** A method that a lazy wrapper has too and that returns an array: [func] is the lazy
    one, [lodashFunc] the other one applied to its arguments; [checked] is the iteratee of
    a method that checks it. *)
Definition wrapper_method (func : lazy -> lazy) (lodashFunc : action) (checked : option iteratee) (this : wrapper) : wrapper :=
  let '(LodashWrapper wrapped actions chainAll) := this in
  let useLazy := match checked with Some f => it_length f =? 1 | None => true end in
  let interceptor := lodashFunc in
  let isHybrid := negb (len actions =? 0) in
  if useLazy then
    let l := match wrapped with
             | WLazy l => if isHybrid then new_LazyWrapper (FromWrapper this) else l
             | WArray _ => new_LazyWrapper (FromWrapper this)
             end in
    new_LodashWrapper (WLazy (push_action (func l) interceptor)) chainAll
  else wrapper_thru this interceptor.

Definition wrapperReverse (reverse : action) (this : wrapper) : wrapper :=
  let '(LodashWrapper wrapped actions chainAll) := this in
  match wrapped with
  | WLazy l =>
      let l := if negb (len actions =? 0) then new_LazyWrapper (FromWrapper this) else l in
      new_LodashWrapper (WLazy (push_action (lazyReverse l) reverse)) chainAll
  | WArray _ => wrapper_thru this reverse
  end.

Definition wrapperCommit (this : wrapper) : eff S wrapper :=
  let '(LodashWrapper _ _ chainAll) := this in
  v ← wrapperValue this; mret (new_LodashWrapper (WArray v) chainAll).

(** The chain planted on another array: the wrappers are cloned down to the innermost,
    whose value is replaced. *)
Fixpoint wrapperPlant (v : list value) (this : wrapper) : wrapper :=
  match this with
  | LodashWrapper wrapped actions chainAll =>
      LodashWrapper (match wrapped with
                     | WArray _ => WArray v
                     | WLazy l => WLazy (lazyPlant v l)
                     end) actions chainAll
  end
with lazyPlant (v : list value) (this : lazy) : lazy :=
  match this with
  | LazyWrapper wrapped actions dir filtered iteratees takeCount views =>
      LazyWrapper (match wrapped with
                   | FromWrapper w => FromWrapper (wrapperPlant v w)
                   | FromLazy l => FromLazy (lazyPlant v l)
                   end) actions dir filtered iteratees takeCount views
  end.

End lazy.

(** ** A pass over the elements, without effects *)

Inductive pure_iteratee :=
| PMap (f : value -> value)
| PFilter (p : value -> bool)
| PWhile (p : value -> bool).

(** What the iteratees make of one element. *)
Fixpoint run_pure_iteratees (its : list pure_iteratee) (v : value) : value + bool :=
  match its with
  | [] => inl v
  | PMap f :: its => run_pure_iteratees its (f v)
  | PFilter p :: its => if p v then run_pure_iteratees its v else inr true
  | PWhile p :: its => if p v then run_pure_iteratees its v else inr false
  end.

Fixpoint process (its : list pure_iteratee) (l : list value) : list value :=
  match l with
  | [] => []
  | x :: l =>
      match run_pure_iteratees its x with
      | inl v => v :: process its l
      | inr true => process its l
      | inr false => []
      end
  end.

Definition take_while (p : value -> bool) (l : list value) : list value := take (count_while p l) l.

Lemma run_snoc its i v :
  run_pure_iteratees (its ++ [i]) v =
  match run_pure_iteratees its v with inl w => run_pure_iteratees [i] w | inr b => inr b end.
Proof.
  revert v. induction its as [|[f|p|p] its IH]; intros v; cbn [app run_pure_iteratees]; [done|apply IH|..];
    destruct (p v); [apply IH|done|apply IH|done].
Qed.

Lemma process_map its f l : process (its ++ [PMap f]) l = List.map f (process its l).
Proof.
  induction l as [|x l IH]; [done|]. cbn [process]. rewrite run_snoc.
  destruct (run_pure_iteratees its x) as [v|[]]; cbn; by rewrite ?IH.
Qed.

Lemma process_filter its p l : process (its ++ [PFilter p]) l = List.filter p (process its l).
Proof.
  induction l as [|x l IH]; [done|]. cbn [process]. rewrite run_snoc.
  destruct (run_pure_iteratees its x) as [v|[]]; cbn; rewrite ?IH; try done. by destruct (p v).
Qed.

Lemma process_while its p l : process (its ++ [PWhile p]) l = take_while p (process its l).
Proof.
  unfold take_while. induction l as [|x l IH]; [done|]. cbn [process]. rewrite run_snoc.
  destruct (run_pure_iteratees its x) as [v|[]]; [|done|done]. cbn. destruct (p v); cbn; by rewrite ?IH.
Qed.

Lemma process_length its l : (length (process its l) <= length l)%nat.
Proof. induction l as [|x l IH]; [done|]. cbn. destruct (run_pure_iteratees its x) as [v|[]]; cbn; lia. Qed.

(** Iteratees that only map. *)
Definition is_map (i : pure_iteratee) : Prop := match i with PMap _ => True | _ => False end.

Lemma process_maps its l :
  Forall is_map its -> process its l = List.map (fun v => match run_pure_iteratees its v with inl w => w | inr _ => v end) l.
Proof.
  intros Hm. assert (Hr : forall v, exists w, run_pure_iteratees its v = inl w).
  { induction Hm as [|[] its Hi _ IH]; intros v; try done; [by exists v|]. apply IH. }
  induction l as [|x l IH]; [done|]. cbn. destruct (Hr x) as [w ->]. by rewrite IH.
Qed.

Lemma take_while_take p n l : take_while p (take n l) = take n (take_while p l).
Proof.
  unfold take_while. revert n. induction l as [|x l IH]; intros [|n]; cbn; try done.
  destruct (p x); cbn; [by rewrite IH|done].
Qed.

(** ** Pure chains *)

Section pure_chain.
Context `{JsHost} {S : Type}.

Inductive op :=
| OMap (f : value -> value)
| OFilter (p : value -> bool)
| OTakeWhile (p : value -> bool)
| OTake (n : Z)
| ODrop (n : Z)
| OTakeRight (n : Z)
| ODropRight (n : Z)
| OReverse.

(** One pass per method. *)
Definition eager (o : op) (l : list value) : list value :=
  match o with
  | OMap f => List.map f l
  | OFilter p => List.filter p l
  | OTakeWhile p => take_while p l
  | OTake n => take (Z.to_nat n) l
  | ODrop n => drop (Z.to_nat n) l
  | OTakeRight n => drop (length l - Z.to_nat n) l
  | ODropRight n => take (length l - Z.to_nat n) l
  | OReverse => List.rev l
  end.

Definition op_ok (o : op) : Prop :=
  match o with
  | OTake n | ODrop n | OTakeRight n | ODropRight n => 0 <= n <= MAX_ARRAY_LENGTH
  | _ => True
  end.

Definition predicate_of (p : value -> bool) (v : value) : eff S value := mret (Boolean (p v)).

(** The method as lodash runs it on an array. *)
Definition action_of (o : op) : action (S := S) := fun l =>
  match o with
  | OMap f => arrayMap l (fun v _ _ => mret (f v))
  | OFilter p => arrayFilter l (fun v _ _ => predicate_of p v)
  | OTakeWhile p => takeWhile (Some l) (fun v _ _ => predicate_of p v)
  | OTake n => mret (_take (Some l) (Number (num n)) false)
  | ODrop n => mret (_drop (Some l) (Number (num n)) false)
  | OTakeRight n => mret (takeRight (Some l) (Number (num n)) false)
  | ODropRight n => mret (dropRight (Some l) (Number (num n)) false)
  | OReverse => mret (default [] (_reverse (Some l)))
  end.

Definition iteratee_of (i : pure_iteratee) : iteratee (S := S) * Z :=
  match i with
  | PMap f => ({| it_length := 1; it_fn v := mret (f v) |}, LAZY_MAP_FLAG)
  | PFilter p => ({| it_length := 1; it_fn := predicate_of p |}, LAZY_FILTER_FLAG)
  | PWhile p => ({| it_length := 1; it_fn := predicate_of p |}, LAZY_WHILE_FLAG)
  end.

(** The method as a chain runs it. *)
Definition chain_op (o : op) (w : wrapper (S := S)) : wrapper :=
  match o with
  | OMap f => let i := fst (iteratee_of (PMap f)) in
      wrapper_method (fun l => lazy_iterate LAZY_MAP_FLAG l i) (action_of o) (Some i) w
  | OFilter p => let i := fst (iteratee_of (PFilter p)) in
      wrapper_method (fun l => lazy_iterate LAZY_FILTER_FLAG l i) (action_of o) (Some i) w
  | OTakeWhile p => let i := fst (iteratee_of (PWhile p)) in
      wrapper_method (fun l => lazy_iterate LAZY_WHILE_FLAG l i) (action_of o) (Some i) w
  | OTake n => wrapper_method (fun l => lazy_drop_take true l (Number (num n))) (action_of o) None w
  | ODrop n => wrapper_method (fun l => lazy_drop_take false l (Number (num n))) (action_of o) None w
  | OTakeRight n => wrapper_method (fun l => lazy_drop_take_right true l (Number (num n))) (action_of o) None w
  | ODropRight n => wrapper_method (fun l => lazy_drop_take_right false l (Number (num n))) (action_of o) None w
  | OReverse => wrapperReverse (action_of o) w
  end.

Definition chain (l : list value) (ops : list op) : wrapper (S := S) :=
  foldl (fun w o => chain_op o w) (new_LodashWrapper (WArray l) false) ops.
End pure_chain.

(** ** The methods one by one, and arrays for the examples *)

Definition even_number (v : value) : bool := match v with Number n => Z.even (trunc n) | _ => false end.
Definition above_100 (v : value) : bool := match v with Number n => 100 <? trunc n | _ => false end.
Definition numbers_to (n : Z) : list value := List.map (fun z => Number (num z)) (seqZ 0 n).
Definition eager_value (l : list value) (ops : list op) : list value := foldl (fun l o => eager o l) l ops.

(** ** Where it agrees *)

Section agreement.
Context `{JsHost} {S : Type}.

Lemma toInteger_num n : 0 <= n < 2 ^ 53 -> toInteger (Number (num n)) = num n.
Proof.
  intros Hn. assert (Hs : small_int n) by (unfold small_int; lia).
  pose proof (num_finite n Hs) as Hf. pose proof (trunc_num n Hs) as [_ Hi].
  assert (Hnan : is_nan (num n) = false) by (by destruct (num n)).
  assert (Ht : toFinite (Number (num n)) = num n).
  { unfold toFinite. cbn [truthy]. rewrite Hnan, orb_false_r, negb_involutive.
    destruct (neqb (num n) (num 0)) eqn:E; [done|]. cbn [toNumber].
    assert (neqb (num n) infinity = false) as -> by (by destruct (num n)).
    assert (neqb (num n) neg_infinity = false) as -> by (by destruct (num n)).
    cbn [orb]. by rewrite neqb_refl, Hnan. }
  unfold toInteger. rewrite Ht, neqb_refl, Hnan. cbn [negb]. by rewrite remainder_zero.
Qed.

Lemma int_num n : 0 <= n < 2 ^ 53 -> int (Number (num n)) = n.
Proof. intros Hn. unfold int. rewrite toInteger_num by done. apply trunc_num. unfold small_int. lia. Qed.

Lemma array_sub {A} (l k : list A) : (length k <= length l)%nat -> array_size l -> array_size k.
Proof. unfold array_size. lia. Qed.

(** The methods of lodash on arrays. *)
Lemma action_eager o l : op_ok o -> array_size l -> action_of (S := S) o l ≈ mret (eager o l).
Proof.
  assert (HM : MAX_ARRAY_LENGTH < 2 ^ 53) by done.
  assert (Hnil : forall l : list value, (len l =? 0) = true -> l = []).
  { intros [|x k] E; [done|]. apply Z.eqb_eq in E. rewrite length_cons in E. lia. }
  intros Ho Hl. destruct o as [f|p|p|n|n|n|n|]; cbn [action_of eager op_ok] in *.
  - by apply arrayMap_pure.
  - apply arrayFilter_pure. intros v i a. by eexists.
  - apply (takeWhile_pure p (fun v _ _ => predicate_of p v)); [|done]. intros v i a. by eexists.
  - unfold _take. cbn [default id]. destruct (len l =? 0) eqn:E; [apply Hnil in E as ->; by rewrite take_nil|].
    cbn [is_undefined orb]. rewrite int_num by lia. destruct (Z.ltb_spec n 0); [lia|]. by rewrite slice_prefix.
  - unfold _drop. cbn [default id]. destruct (len l =? 0) eqn:E; [apply Hnil in E as ->; by rewrite drop_nil|].
    cbn [is_undefined orb]. rewrite int_num by lia. destruct (Z.ltb_spec n 0); [lia|]. by rewrite slice_suffix.
  - unfold takeRight. cbn [default id]. destruct (len l =? 0) eqn:E; [apply Hnil in E as ->; by rewrite drop_nil|].
    cbn [is_undefined orb]. rewrite int_num by lia.
    destruct (Z.ltb_spec (len l - n) 0); rewrite slice_suffix by (done || lia); f_equiv; f_equal; lia.
  - unfold dropRight. cbn [default id]. destruct (len l =? 0) eqn:E; [apply Hnil in E as ->; by rewrite take_nil|].
    cbn [is_undefined orb]. rewrite int_num by lia.
    destruct (Z.ltb_spec (len l - n) 0); rewrite slice_prefix by (done || lia); f_equiv; f_equal; lia.
  - done.
Qed.

(** *** The single pass *)

Lemma run_iteratees_pure its v :
  run_iteratees (S := S) (List.map iteratee_of its) v ≈ mret (run_pure_iteratees its v).
Proof.
  unfold run_iteratees. generalize 0. revert v. induction its as [|[f|p|p] its IH]; intros v i σ; [done|..].
  - apply IH.
  - cbn. unfold mbind, eff_bind. cbn. destruct (p v); [apply IH|done].
  - cbn. unfold mbind, eff_bind. cbn. destruct (p v); [apply IH|done].
Qed.

Lemma lazy_pass_pure array indexes its cnt :
  lazy_pass (S := S) array indexes (List.map iteratee_of its) cnt
    ≈ mret (take (Z.to_nat cnt) (process its (List.map (fun i => array.[i]) indexes))).
Proof.
  set (body := fun (_ : Z) index (result : list value) =>
    if len result <? cnt then
      match run_pure_iteratees its array.[index] with
      | inl v => inl (result ++ [v]) | inr true => inl result | inr false => inr result end
    else inr result).
  unfold lazy_pass. erewrite eff_bind_pure.
  2: { apply (eloop_pure body). intros i x a. unfold body. destruct (len a <? cnt); [|done].
       by rewrite eff_bind_pure by apply run_iteratees_pure. }
  f_equiv. enough (Hg : forall acc i, match loop body i indexes acc with inl r => r | inr r => r end
    = acc ++ take (Z.to_nat cnt - length acc) (process its (List.map (fun i => array.[i]) indexes))).
  { rewrite Hg. cbn [length app]. f_equal. lia. }
  induction indexes as [|x l IH]; intros acc i; [cbn; by rewrite take_nil, app_nil_r|]. cbn [loop List.map process].
  unfold body at 1. destruct (Z.ltb_spec (len acc) cnt).
  - destruct (run_pure_iteratees its array.[x]) as [v|[]]; [|apply IH|by rewrite take_nil, app_nil_r].
    rewrite IH, length_app, <- app_assoc. f_equal. cbn [length].
    replace (Z.to_nat cnt - length acc)%nat with (Datatypes.S (Z.to_nat cnt - (length acc + 1))) by lia. done.
  - replace (Z.to_nat cnt - length acc)%nat with O by lia. by rewrite take_0, app_nil_r.
Qed.

(** *** The part of the array that the views leave *)

Definition cut (views : list view) (l : list value) : list value :=
  let '(s, e) := getView 0 (len l) views in take (Z.to_nat (e - s)) (drop (Z.to_nat s) l).
Definition oriented (dir : Z) (l : list value) : list value := if dir <? 0 then List.rev l else l.

Definition view_step (v : view) '(s, e) : Z * Z :=
  match view_kind v with
  | VDrop => (s + view_size v, e)
  | VDropRight => (s, e - view_size v)
  | VTake => (s, Z.min e (s + view_size v))
  | VTakeRight => (Z.max s (e - view_size v), e)
  end.

Lemma getView_snoc s e views v : getView s e (views ++ [v]) = view_step v (getView s e views).
Proof.
  unfold getView, ended. generalize 0. revert s e. induction views as [|[m []] views IH]; intros s e i; [|apply IH..].
  by destruct v as [n []].
Qed.

Lemma getView_bounds n views : 0 <= n -> Forall (fun v => 0 <= view_size v) views ->
  0 <= fst (getView 0 n views) /\ snd (getView 0 n views) <= n.
Proof.
  intros Hn. induction views as [|v views IH] using rev_ind; [cbn; lia|].
  rewrite Forall_app, Forall_singleton. intros [Hvs Hv]. specialize (IH Hvs). rewrite getView_snoc.
  destruct (getView 0 n views) as [s e]. cbn in *. destruct (view_kind v); cbn; lia.
Qed.

Definition view_eager (v : view) (l : list value) : list value :=
  let n := Z.to_nat (view_size v) in
  match view_kind v with
  | VDrop => drop n l
  | VDropRight => take (length l - n) l
  | VTake => take n l
  | VTakeRight => drop (length l - n) l
  end.

Lemma cut_snoc views v l :
  Forall (fun v => 0 <= view_size v) views -> 0 <= view_size v ->
  cut (views ++ [v]) l = view_eager v (cut views l).
Proof.
  intros Hvs Hv. destruct (getView_bounds (len l) views ltac:(lia) Hvs) as [Hs He].
  unfold cut. rewrite getView_snoc. destruct (getView 0 (len l) views) as [s e]. cbn in Hs, He.
  unfold view_step, view_eager. destruct (view_kind v).
  - rewrite skipn_firstn_comm, drop_drop. f_equal; [lia|]. f_equal. lia.
  - rewrite length_take, length_drop, take_take. f_equal. lia.
  - rewrite take_take. f_equal. lia.
  - rewrite length_take, length_drop, skipn_firstn_comm, drop_drop. f_equal; [lia|]. f_equal. lia.
Qed.

Lemma cut_length views l : Forall (fun v => 0 <= view_size v) views -> (length (cut views l) <= length l)%nat.
Proof. intros _. unfold cut. destruct (getView _ _ _) as [s e]. rewrite length_take, length_drop. lia. Qed.

Lemma cut_read views l : Forall (fun v => 0 <= view_size v) views ->
  let '(s, e) := getView 0 (len l) views in
  List.map (fun i => l.[i]) (seqZ s (e - s)) = cut views l.
Proof.
  intros Hvs. destruct (getView_bounds (len l) views ltac:(lia) Hvs) as [Hs He].
  unfold cut. destruct (getView 0 (len l) views) as [s e]. cbn in Hs, He.
  destruct (Z.le_ge_cases (e - s) 0) as [Hn|Hn].
  { replace (Z.to_nat (e - s)) with O by lia. by rewrite seqZ_nil by lia. }
  rewrite <- (map_read l Undefined (Z.to_nat s) (Z.to_nat (e - s))) by lia.
  rewrite !Z2Nat.id by lia. rewrite <- (Z.add_0_r s) at 1. rewrite <- fmap_add_seqZ.
  change (List.map ?f ?x) with (f <$> x). rewrite <- list_fmap_compose. apply list_fmap_ext.
  intros k i Hk. apply lookup_seqZ in Hk. cbn. unfold at_index.
  destruct (Z.ltb_spec (s + i) 0); [lia|]. do 2 f_equal. lia.
Qed.

(** *** The chain, step by step *)

(** How far a chain has got: it only maps and cuts, it has filtered, it has filtered and
    then taken. *)
Inductive phase := Cutting | Filtering | Taking.

(** The methods after which the single pass keeps the order of the chain. *)
Definition next_phase (ph : phase) (o : op) : option phase :=
  match o, ph with
  | OMap _, _ => Some ph
  | OTakeWhile _, Taking => Some Taking
  | OTakeWhile _, _ => Some Filtering
  | OFilter _, Taking => None
  | OFilter _, _ => Some Filtering
  | OTake _, Cutting => Some Cutting
  | OTake _, _ => Some Taking
  | _, Cutting => Some Cutting
  | _, _ => None
  end.

Definition source_value (src : lazy_source (S := S)) : eff S (list value) :=
  match src with FromWrapper w => wrapperValue w | FromLazy l => lazyValue l end.

Definition phase_ok (ph : phase) (filtered : bool) (its : list pure_iteratee) (tc : Z) : Prop :=
  match ph with
  | Cutting => filtered = false /\ Forall is_map its /\ tc = MAX_ARRAY_LENGTH
  | Filtering => filtered = true /\ tc = MAX_ARRAY_LENGTH
  | Taking => filtered = true /\ 0 <= tc <= MAX_ARRAY_LENGTH
  end.

(** A lazy wrapper stands for [R]: its actions compute it, and so does its single pass. *)
Inductive lazy_ok (ph : phase) : lazy (S := S) -> list value -> Prop :=
| lazy_ok_intro src actions dir filtered its tc views B R :
    source_value src ≈ mret B -> array_size B -> baseWrapperValue B actions ≈ mret R ->
    Forall (fun v => 0 <= view_size v) views -> phase_ok ph filtered its tc ->
    R = take (Z.to_nat tc) (process its (oriented dir (cut views B))) -> dir = 1 \/ dir = -1 ->
    lazy_ok ph (LazyWrapper src actions dir filtered (List.map iteratee_of its) tc views) R.

Lemma phase_count ph filtered its tc : phase_ok ph filtered its tc -> 0 <= tc <= MAX_ARRAY_LENGTH.
Proof. assert (0 <= MAX_ARRAY_LENGTH) by done. destruct ph; cbn; lia. Qed.

Lemma oriented_length dir l : length (oriented dir l) = length l.
Proof. unfold oriented. destruct (dir <? 0); [apply length_rev|done]. Qed.

Lemma pass_length its dir views B : Forall (fun v => 0 <= view_size v) views ->
  (length (process its (oriented dir (cut views B))) <= length B)%nat.
Proof.
  intros Hvs. etrans; [apply process_length|]. rewrite oriented_length. by apply cut_length.
Qed.

Lemma lazy_value ph L R : lazy_ok ph L R -> lazyValue L ≈ mret R.
Proof.
  intros [src actions dir filtered its tc views B R' Hsrc HB Hact Hvs Hph HR Hdir].
  pose proof (phase_count _ _ _ _ Hph) as Htc.
  cbn [lazyValue]. change (match src with FromWrapper w => wrapperValue w | FromLazy l => lazyValue l end)
    with (source_value src). rewrite eff_bind_pure by exact Hsrc. unfold lazy_evaluate.
  pose proof (cut_read views B Hvs) as Hc. pose proof (pass_length its dir views B Hvs) as Hlen.
  pose proof (process_length its (oriented dir (cut views B))) as Hp. rewrite oriented_length in Hp.
  revert Hp Hc. unfold cut at 2. destruct (getView 0 (len B) views) as [s e] eqn:E. intros Hp Hc.
  destruct (_ || _); [done|]. rewrite length_take in Hp.
  rewrite lazy_pass_pure. f_equiv. subst R'.
  assert (Hm : List.map (fun i => B.[i]) (if dir <? 0 then List.rev (seqZ s (e - s)) else seqZ s (e - s))
    = oriented dir (cut views B)).
  { unfold oriented. destruct (dir <? 0); [|done]. by rewrite List.map_rev, Hc. }
  rewrite Hm. set (X := process its _) in *.
  destruct (Z.le_ge_cases (e - s) tc); [|f_equal; lia].
  rewrite !take_ge; [done|lia|lia].
Qed.

(** A queued action. *)
Lemma baseWrapperValue_snoc v actions (a : action (S := S)) r r' :
  baseWrapperValue v actions ≈ mret r -> a r ≈ mret r' -> baseWrapperValue v (actions ++ [a]) ≈ mret r'.
Proof.
  intros Hv Ha σ. specialize (Hv σ). revert Hv. unfold baseWrapperValue. generalize 0. generalize σ at 1 3.
  revert v. induction actions as [|b actions IH]; intros v σ0 i; cbn [app eloop]; unfold mbind, eff_bind.
  - cbn. intros [= -> ->]. by rewrite Ha.
  - destruct (b v σ0) as [[w|ex] σ1]; [|done]. exact (IH w σ1 (i + 1)).
Qed.

Lemma take_all {A} (l : list A) : array_size l -> take (Z.to_nat MAX_ARRAY_LENGTH) l = l.
Proof. unfold array_size. intros Hl. apply take_ge. lia. Qed.

Lemma lazy_size ph L R : lazy_ok ph L R -> array_size R.
Proof.
  intros [src actions dir filtered its tc views B R' _ HB _ Hvs _ -> _].
  eapply array_sub, HB. etrans; [|apply (pass_length its dir views B Hvs)]. rewrite length_take. lia.
Qed.

(** The lazy method of each operation. *)
Definition lazy_func (o : op) : lazy (S := S) -> lazy :=
  match o with
  | OMap f => fun l => lazy_iterate LAZY_MAP_FLAG l (fst (iteratee_of (PMap f)))
  | OFilter p => fun l => lazy_iterate LAZY_FILTER_FLAG l (fst (iteratee_of (PFilter p)))
  | OTakeWhile p => fun l => lazy_iterate LAZY_WHILE_FLAG l (fst (iteratee_of (PWhile p)))
  | OTake n => fun l => lazy_drop_take true l (Number (num n))
  | ODrop n => fun l => lazy_drop_take false l (Number (num n))
  | OTakeRight n => fun l => lazy_drop_take_right true l (Number (num n))
  | ODropRight n => fun l => lazy_drop_take_right false l (Number (num n))
  | OReverse => lazyReverse
  end.

Lemma count_num n c : 0 <= n <= MAX_ARRAY_LENGTH -> 0 <= c <= MAX_ARRAY_LENGTH ->
  trunc (nmin (lazy_count (Number (num n))) (num c)) = Z.min n c.
Proof.
  intros Hn Hc. assert (HM : MAX_ARRAY_LENGTH < 2 ^ 53) by done.
  assert (Hsn : small_int n) by (unfold small_int; lia). assert (Hsc : small_int c) by (unfold small_int; lia).
  assert (Hs0 : small_int 0) by (unfold small_int; lia).
  assert (Hnan : forall k, small_int k -> is_nan (num k) = false).
  { intros k Hk. pose proof (num_finite k Hk). by destruct (num k). }
  unfold lazy_count. cbn [is_undefined]. rewrite toInteger_num by lia. unfold nmax.
  rewrite !Hnan, nltb_num by done. cbn [orb]. destruct (Z.ltb_spec n 0); [lia|].
  unfold nmin. rewrite !Hnan, nltb_num by done. cbn [orb].
  destruct (Z.ltb_spec c n); [rewrite Z.min_r by lia|rewrite Z.min_l by lia]; by apply trunc_num.
Qed.

(** Cutting commutes with a map and with reversal. *)
Definition op_view (right : bool) (o : op) : option view :=
  match o with
  | OTake n => Some {| view_size := n; view_kind := if right then VTakeRight else VTake |}
  | ODrop n => Some {| view_size := n; view_kind := if right then VDropRight else VDrop |}
  | OTakeRight n => Some {| view_size := n; view_kind := if right then VTake else VTakeRight |}
  | ODropRight n => Some {| view_size := n; view_kind := if right then VDrop else VDropRight |}
  | _ => None
  end.

Lemma cut_maps o right v f l : op_view right o = Some v -> eager o (List.map f l) = List.map f (eager o l).
Proof.
  destruct o; intros; simplify_eq/=; rewrite ?length_map; by rewrite ?firstn_map, ?skipn_map.
Qed.

Lemma cut_oriented o dir v l : op_view (dir <? 0) o = Some v -> eager o (oriented dir l) = oriented dir (view_eager v l).
Proof.
  unfold oriented. destruct o, (dir <? 0); intros; simplify_eq/=; unfold view_eager; cbn;
    rewrite ?length_rev, ?firstn_rev, ?skipn_rev; try done;
    f_equal; destruct (Nat.le_ge_cases (length l) (Z.to_nat n)); try (f_equal; lia).
  - rewrite !take_ge; [done|lia|lia].
  - rewrite !drop_ge; [done|lia|lia].
Qed.

Section step.
Variables (src : lazy_source (S := S)) (actions : list (action (S := S))) (dir : Z) (its : list pure_iteratee).
Variables (tc : Z) (views : list view) (B R : list value).
Hypothesis Hsrc : source_value src ≈ mret B.
Hypothesis HB : array_size B.
Hypothesis Hact : baseWrapperValue B actions ≈ mret R.
Hypothesis Hvs : Forall (fun v => 0 <= view_size v) views.
Hypothesis HR : R = take (Z.to_nat tc) (process its (oriented dir (cut views B))).
Hypothesis Hdir : dir = 1 \/ dir = -1.

Lemma step_size : array_size R.
Proof.
  eapply array_sub, HB. subst R. rewrite length_take. pose proof (pass_length its dir views B Hvs). lia.
Qed.

Lemma step_action o : op_ok o -> baseWrapperValue B (actions ++ [action_of o]) ≈ mret (eager o R).
Proof. intros Ho. eapply baseWrapperValue_snoc; [done|]. apply action_eager, step_size. done. Qed.

Lemma step_all : tc = MAX_ARRAY_LENGTH -> R = process its (oriented dir (cut views B)).
Proof. intros Ht. rewrite HR, Ht. apply take_all. eapply array_sub, HB. by apply pass_length. Qed.

Lemma lazy_cut_ok o v :
  tc = MAX_ARRAY_LENGTH -> Forall is_map its -> op_ok o -> op_view (dir <? 0) o = Some v ->
  lazy_ok Cutting (LazyWrapper src (actions ++ [action_of o]) dir false (List.map iteratee_of its) tc (views ++ [v])) (eager o R).
Proof.
  intros Ht Hits Ho Hv. pose proof (step_action o Ho). pose proof (step_all Ht) as HR'.
  assert (Hv0 : 0 <= view_size v) by (destruct o; simplify_eq/=; lia).
  assert (Hvs' : Forall (fun v => 0 <= view_size v) (views ++ [v])) by (by apply Forall_app_2, Forall_singleton).
  eapply lazy_ok_intro; try done. rewrite Ht, take_all by (eapply array_sub, HB; by apply pass_length).
  rewrite cut_snoc by done. rewrite HR', !process_maps by done. erewrite cut_maps by done.
  by erewrite cut_oriented by done.
Qed.

Lemma lazy_reverse_ok :
  tc = MAX_ARRAY_LENGTH -> Forall is_map its ->
  lazy_ok Cutting (LazyWrapper src (actions ++ [action_of OReverse]) (dir * -1) false (List.map iteratee_of its) tc views) (List.rev R).
Proof.
  intros Ht Hits. pose proof (step_action OReverse I) as Ha. pose proof (step_all Ht) as HR'.
  eapply lazy_ok_intro; try done; [|lia].
  rewrite Ht, take_all by (eapply array_sub, HB; by apply pass_length).
  rewrite HR', !process_maps, <- List.map_rev by done. f_equal. unfold oriented.
  destruct Hdir as [-> | ->]; [done|apply rev_involutive].
Qed.

Lemma lazy_take_ok filtered n :
  filtered = true -> 0 <= tc <= MAX_ARRAY_LENGTH -> 0 <= n <= MAX_ARRAY_LENGTH ->
  lazy_ok Taking (LazyWrapper src (actions ++ [action_of (OTake n)]) dir filtered (List.map iteratee_of its) (Z.min n tc) views)
    (eager (OTake n) R).
Proof.
  intros Hf Ht Hn. pose proof (step_action (OTake n) Hn) as Ha. eapply lazy_ok_intro; try done.
  - split; [done|lia].
  - cbn [eager]. rewrite HR, take_take. f_equal. lia.
Qed.

(** An iteratee added to the pass. *)
Lemma lazy_iterate_ok i o ph ph' filtered :
  o = match i with PMap f => OMap f | PFilter p => OFilter p | PWhile p => OTakeWhile p end ->
  phase_ok ph filtered its tc -> next_phase ph o = Some ph' ->
  lazy_ok ph' (push_action (lazy_func o (LazyWrapper src actions dir filtered (List.map iteratee_of its) tc views)) (action_of o))
    (eager o R).
Proof.
  intros Hi Hph Hnext. assert (Ho : op_ok o) by (by subst o; destruct i).
  pose proof (step_action o Ho) as Ha.
  assert (Hsnoc : List.map iteratee_of its ++ [iteratee_of i] = List.map (iteratee_of (S := S)) (its ++ [i]))
    by (by rewrite List.map_app).
  destruct i as [f|p|p]; subst o; unfold push_action, lazy_func, lazy_iterate; cbn zeta.
  all: rewrite ?orb_false_r, ?orb_true_r; cbn [iteratee_of fst] in *; rewrite Hsnoc.
  all: eapply lazy_ok_intro; try done.
  - destruct ph; simplify_eq/=; try done. destruct Hph as (? & ? & ?). split_and!; try done.
    by apply Forall_app_2, Forall_singleton.
  - cbn [eager]. by rewrite HR, process_map, firstn_map.
  - destruct ph; simplify_eq/=; naive_solver.
  - assert (Ht : tc = MAX_ARRAY_LENGTH) by (destruct ph; naive_solver).
    rewrite Ht, take_all by (eapply array_sub, HB; by apply pass_length).
    cbn [eager]. by rewrite (step_all Ht), process_filter.
  - pose proof (phase_count _ _ _ _ Hph). destruct ph; simplify_eq/=; naive_solver.
  - cbn [eager]. by rewrite HR, process_while, take_while_take.
Qed.
End step.

Lemma lazy_step ph ph' L R o :
  lazy_ok ph L R -> op_ok o -> next_phase ph o = Some ph' ->
  lazy_ok ph' (push_action (lazy_func o L) (action_of o)) (eager o R).
Proof.
  intros [src actions dir filtered its tc views B R' Hsrc HB Hact Hvs Hph HR Hdir] Ho Hnext.
  pose proof (phase_count _ _ _ _ Hph) as Htc.
  assert (Hcut : forall v, ph = Cutting -> op_view (dir <? 0) o = Some v ->
    lazy_ok Cutting (LazyWrapper src (actions ++ [action_of o]) dir filtered (List.map iteratee_of its) tc (views ++ [v])) (eager o R')).
  { intros v -> Hv. destruct Hph as (-> & Hm & Ht). by apply lazy_cut_ok with B. }
  assert (HM : 0 <= MAX_ARRAY_LENGTH <= MAX_ARRAY_LENGTH) by done.
  destruct o as [f|p|p|n|n|n|n|]; cbn [op_ok] in Ho.
  - by eapply (lazy_iterate_ok src actions dir its tc views B R' Hsrc HB Hact Hvs HR Hdir (PMap f)).
  - by eapply (lazy_iterate_ok src actions dir its tc views B R' Hsrc HB Hact Hvs HR Hdir (PFilter p)).
  - by eapply (lazy_iterate_ok src actions dir its tc views B R' Hsrc HB Hact Hvs HR Hdir (PWhile p)).
  - unfold lazy_func, lazy_drop_take. cbn [negb]. rewrite andb_false_r. cbn zeta. rewrite !count_num by done.
    destruct filtered; unfold push_action.
    + destruct ph; simplify_eq/=; [naive_solver|..]; by eapply lazy_take_ok.
    + destruct ph; simplify_eq/=; [|naive_solver..]. rewrite Z.min_l by lia. apply Hcut; [done|].
      by destruct (dir <? 0).
  - destruct ph; [|discriminate Hnext..]. injection Hnext as <-. destruct Hph as (-> & _).
    unfold lazy_func, lazy_drop_take. cbn [andb]. rewrite count_num by done. unfold push_action.
    rewrite Z.min_l by lia. apply Hcut; [done|]. by destruct (dir <? 0).
  - destruct ph; [|discriminate Hnext..]. injection Hnext as <-. destruct Hph as (-> & _).
    unfold lazy_func, lazy_drop_take_right, lazy_drop_take. cbn [andb lazyReverse]. rewrite count_num by done.
    unfold lazyReverse, push_action.
    rewrite Z.min_l by lia. replace (dir * -1 * -1) with dir by lia. apply Hcut; [done|].
    by destruct Hdir as [-> | ->].
  - destruct ph; [|discriminate Hnext..]. injection Hnext as <-. destruct Hph as (-> & _).
    unfold lazy_func, lazy_drop_take_right, lazy_drop_take. cbn [andb lazyReverse]. rewrite count_num by done.
    unfold lazyReverse, push_action.
    rewrite Z.min_l by lia. replace (dir * -1 * -1) with dir by lia. apply Hcut; [done|].
    by destruct Hdir as [-> | ->].
  - destruct ph; [|discriminate Hnext..]. injection Hnext as <-. destruct Hph as (-> & ? & ?). by eapply lazy_reverse_ok.
Qed.

(** A wrapper stands for [R]: an array with queued methods, or a lazy wrapper. *)
Inductive wrapper_ok : phase -> wrapper (S := S) -> list value -> Prop :=
| array_ok l actions R :
    baseWrapperValue l actions ≈ mret R -> array_size R ->
    wrapper_ok Cutting (LodashWrapper (WArray l) actions false) R
| over_lazy_ok ph L R : lazy_ok ph L R -> wrapper_ok ph (LodashWrapper (WLazy L) [] false) R.

Lemma wrapper_ok_value ph w R : wrapper_ok ph w R -> wrapperValue w ≈ mret R.
Proof.
  intros [l actions R' Ha _|ph' L R' HL]; cbn [wrapperValue].
  - by rewrite eff_bind_pure.
  - by rewrite eff_bind_pure by (by eapply lazy_value).
Qed.

(** A lazy wrapper over the wrapper of an array. *)
Lemma new_lazy_ok w R : wrapperValue w ≈ mret R -> array_size R -> lazy_ok Cutting (new_LazyWrapper (FromWrapper w)) R.
Proof.
  intros Hw HR. apply (lazy_ok_intro Cutting (FromWrapper w) [] 1 false [] MAX_ARRAY_LENGTH [] R R); try done.
  - assert (Hp : forall l, process [] l = l) by (induction l as [|x l IH]; cbn; by rewrite ?IH).
    rewrite Hp. unfold oriented, cut. cbn [Z.ltb Z.compare getView loop ended]. rewrite Z.sub_0_r, Nat2Z.id.
    by rewrite drop_0, firstn_all, take_all.
  - by left.
Qed.

Lemma chain_op_ok ph ph' w R o :
  wrapper_ok ph w R -> op_ok o -> next_phase ph o = Some ph' -> wrapper_ok ph' (chain_op o w) (eager o R).
Proof.
  intros Hw Ho Hnext.
  assert (HL : forall L, lazy_ok ph L R -> wrapper_ok ph' (new_LodashWrapper (WLazy (push_action (lazy_func o L) (action_of o))) false) (eager o R)).
  { intros L HL. constructor. by eapply lazy_step. }
  pose proof (wrapper_ok_value _ _ _ Hw) as Hv. destruct Hw as [l actions R Ha HR|ph L R HL'].
  - pose proof (new_lazy_ok _ _ Hv HR) as HN. destruct o; try exact (HL _ HN).
    injection Hnext as <-. apply array_ok.
    + eapply baseWrapperValue_snoc; [done|by apply (action_eager OReverse)].
    + eapply array_sub, HR. cbn [eager]. by rewrite length_rev.
  - destruct o; exact (HL _ HL').
Qed.

(** The phase that a chain ends in, when the single pass keeps its order throughout. *)
Fixpoint chain_phase (ph : phase) (ops : list op) : option phase :=
  match ops with
  | [] => Some ph
  | o :: ops => ph ← next_phase ph o; chain_phase ph ops
  end.

(** C23: A chain of [map], [take], [drop], [takeRight], [dropRight] and [reverse], then
    [filter] and [takeWhile], then [take], with [map] anywhere, is evaluated to what the
    methods give one after the other, whether it runs in a single pass or not. *)
Theorem lazy_agrees (l : list value) (ops : list op) :
  array_size l -> Forall op_ok ops -> is_Some (chain_phase Cutting ops) ->
  wrapperValue (chain (S := S) l ops) ≈ mret (eager_value l ops).
Proof.
  intros Hl Hops [ph Hph]. unfold chain, eager_value.
  assert (Hw : wrapper_ok Cutting (new_LodashWrapper (S := S) (WArray l) false) l) by (by constructor).
  revert Hph Hw. generalize (new_LodashWrapper (S := S) (WArray l) false) as w. generalize Cutting. clear Hl.
  revert l. induction Hops as [|o ops Ho _ IH]; intros l ph0 w Hph Hw; [by eapply wrapper_ok_value|].
  cbn in Hph. apply bind_Some in Hph as (ph1 & Hnext & Hph). cbn [foldl].
  eapply IH; [done|]. by eapply chain_op_ok.
Qed.
(** *** Where it differs *)

Lemma lazy_evaluate_pass B actions dir its tc views :
  Forall (fun v => 0 <= view_size v) views -> LARGE_ARRAY_SIZE <= len B -> 0 <= tc -> len (cut views B) < len B \/ tc < len B ->
  lazy_evaluate (S := S) B actions dir (List.map iteratee_of its) tc views ≈ mret (take (Z.to_nat tc) (process its (oriented dir (cut views B)))).
Proof.
  intros Hvs HB Htc Hcut. unfold lazy_evaluate. pose proof (cut_read views B Hvs) as Hc.
  pose proof (process_length its (oriented dir (cut views B))) as Hp. rewrite oriented_length in Hp.
  destruct (getView_bounds (len B) views ltac:(lia) Hvs) as [Hs He].
  assert (Hl : len (cut views B) = Z.max 0 (snd (getView 0 (len B) views) - fst (getView 0 (len B) views))).
  { unfold cut. destruct (getView 0 (len B) views) as [s e]. cbn in *. rewrite length_take, length_drop. lia. }
  destruct (getView 0 (len B) views) as [s e]. cbn [fst snd] in *.
  assert ((len B <? LARGE_ARRAY_SIZE) || ((len B =? e - s) && (Z.min (e - s) tc =? e - s)) = false) as -> by lia.
  rewrite lazy_pass_pure. f_equiv.
  assert (Hm : List.map (fun i => B.[i]) (if dir <? 0 then List.rev (seqZ s (e - s)) else seqZ s (e - s)) = oriented dir (cut views B)).
  { unfold oriented. destruct (dir <? 0); [|done]. by rewrite List.map_rev, Hc. }
  rewrite Hm. destruct (Z.le_ge_cases (e - s) tc); [|f_equal; lia]. rewrite !take_ge; [done|lia|lia].
Qed.

Lemma process_nil l : process [] l = l.
Proof. induction l as [|x l IH]; cbn; by rewrite ?IH. Qed.

Lemma cut_nil l : cut [] l = l.
Proof. unfold cut. cbn [getView loop ended]. by rewrite Z.sub_0_r, Nat2Z.id, drop_0, firstn_all. Qed.

(** A method that is queued over an array that is kept whole. *)
Lemma lazy_evaluate_whole B actions dir its tc :
  len B <= tc -> lazy_evaluate (S := S) B actions dir its tc [] = baseWrapperValue B actions.
Proof.
  intros Ht. unfold lazy_evaluate. cbn [getView loop ended]. rewrite Z.sub_0_r, Z.min_l, Z.eqb_refl by lia. by rewrite orb_true_r.
Qed.

(** The lazy wrapper of a [filter] over an array. *)
Definition lazy_filtered (l : list value) (p : value -> bool) : lazy (S := S) :=
  LazyWrapper (FromWrapper (new_LodashWrapper (WArray l) false)) [action_of (OFilter p)] 1 true [iteratee_of (PFilter p)] MAX_ARRAY_LENGTH [].

Lemma lazy_filtered_value l p : array_size l -> lazyValue (lazy_filtered l p) ≈ mret (List.filter p l).
Proof.
  intros Hl. eapply lazy_value, (lazy_step Cutting Filtering (new_LazyWrapper (FromWrapper (new_LodashWrapper (WArray l) false))) l (OFilter p)); [|done|done].
  by apply new_lazy_ok.
Qed.

Lemma over_lazy_value L R : lazyValue (S := S) L ≈ mret R -> wrapperValue (LodashWrapper (WLazy L) [] false) ≈ mret R.
Proof. intros HL. cbn [wrapperValue]. by rewrite eff_bind_pure by exact HL. Qed.

Lemma lazy_over_value src actions dir filtered its tc views B R :
  source_value src ≈ mret B -> lazy_evaluate B actions dir its tc views ≈ mret R ->
  lazyValue (LazyWrapper (S := S) src actions dir filtered its tc views) ≈ mret R.
Proof.
  intros Hsrc HR. cbn [lazyValue]. change (match src with FromWrapper w => wrapperValue w | FromLazy l => lazyValue l end) with (source_value src).
  by rewrite eff_bind_pure by exact Hsrc.
Qed.

(** C24: The single pass does not agree with the methods run one by one once a [filter] is
    followed by methods that it does not commute with. Where 200 elements or more match, and
    fewer than match are taken: [takeRight] gives the elements in reverse; a [drop] before [take] has no
    effect; and a second [filter] after [take] acts as if it came before it. *)
Theorem lazy_differs (l : list value) (p q : value -> bool) (n k : Z) :
  array_size l -> LARGE_ARRAY_SIZE <= len (List.filter p l) -> 0 <= n < len (List.filter p l) -> 0 <= k <= MAX_ARRAY_LENGTH ->
  wrapperValue (chain (S := S) l [OFilter p; OTakeRight n]) ≈ mret (List.rev (eager_value l [OFilter p; OTakeRight n])) /\
  wrapperValue (chain (S := S) l [OFilter p; ODrop k; OTake n]) ≈ mret (eager_value l [OFilter p; OTake n]) /\
  wrapperValue (chain (S := S) l [OFilter p; OTake n; OFilter q]) ≈ mret (eager_value l [OFilter p; OFilter q; OTake n]).
Proof.
  intros Hl Hlarge Hn Hk. pose proof (lazy_filtered_value l p Hl) as H1. pose proof (List.filter_length_le p l) as HFl. set (F := List.filter p l) in *.
  assert (HF : array_size F) by (by eapply array_sub, Hl). assert (HM : 0 <= n <= MAX_ARRAY_LENGTH) by (unfold array_size in HF; lia).
  assert (HMM : 0 <= MAX_ARRAY_LENGTH <= MAX_ARRAY_LENGTH) by done. pose proof (count_num n MAX_ARRAY_LENGTH HM HMM) as Hcount. rewrite Z.min_l in Hcount by lia.
  set (count := trunc (nmin (lazy_count (Number (num n))) (num MAX_ARRAY_LENGTH))) in *.
  split_and!; apply over_lazy_value.
  - change (lazyValue (LazyWrapper (FromLazy (LazyWrapper (FromLazy (lazy_filtered l p)) [] (-1) true [] count [])) [action_of (OTakeRight n)] (-1) true []
      MAX_ARRAY_LENGTH []) ≈ mret (List.rev (drop (length F - Z.to_nat n) F))). rewrite Hcount.
    eapply (lazy_over_value _ _ _ _ _ _ _ (List.rev (drop (length F - Z.to_nat n) F))).
    + eapply lazy_over_value; [exact H1|]. rewrite (lazy_evaluate_pass F [] (-1) [] n []) by (done || lia). f_equiv.
      rewrite process_nil, cut_nil. unfold oriented. cbn [Z.ltb Z.compare]. by rewrite firstn_rev.
    + rewrite lazy_evaluate_whole by (rewrite length_rev, length_drop; unfold array_size in HF; lia).
      apply (baseWrapperValue_snoc _ [] _ (List.rev (drop (length F - Z.to_nat n) F))); [done|].
      rewrite (action_eager (OTakeRight n)); [|done|eapply array_sub, HF; rewrite length_rev, length_drop; lia].
      f_equiv. cbn [eager]. by rewrite length_rev, length_drop, (proj2 (Nat.sub_0_le _ _)), drop_0 by lia.
  - change (lazyValue (LazyWrapper (FromLazy (lazy_filtered l p)) [action_of (ODrop k); action_of (OTake n)] 1 false [] MAX_ARRAY_LENGTH
      [{| view_size := count; view_kind := VTake |}]) ≈ mret (take (Z.to_nat n) F)). rewrite Hcount.
    assert (Hcut : cut [{| view_size := n; view_kind := VTake |}] F = take (Z.to_nat n) F).
    { pose proof (cut_snoc [] {| view_size := n; view_kind := VTake |} F) as Hc. cbn [app] in Hc. rewrite Hc by (done || cbn; lia). by rewrite cut_nil. }
    eapply lazy_over_value; [exact H1|]. rewrite (lazy_evaluate_pass F _ 1 [] MAX_ARRAY_LENGTH); [|by repeat constructor; cbn; lia|done|done|].
    + rewrite process_nil. unfold oriented. cbn [Z.ltb Z.compare]. rewrite Hcut, take_all; [done|]. eapply array_sub, HF. rewrite length_take. lia.
    + left. rewrite Hcut, length_take. lia.
  - change (lazyValue (LazyWrapper (S := S) (FromWrapper (new_LodashWrapper (WArray l) false)) [action_of (OFilter p); action_of (OTake n); action_of (OFilter q)] 1 true
      (List.map iteratee_of [PFilter p; PFilter q]) count []) ≈ mret (take (Z.to_nat n) (List.filter q F))). rewrite Hcount.
    apply (lazy_over_value _ _ _ _ _ _ _ l); [done|]. rewrite lazy_evaluate_pass by (done || lia). f_equiv. f_equal. rewrite cut_nil.
    unfold oriented. cbn [Z.ltb Z.compare]. etrans; [exact (process_filter [PFilter p] q l)|]. f_equal. etrans; [exact (process_filter [] p l)|]. by rewrite process_nil.
Qed.
End agreement.

Lemma lazy_agrees_witness :
  (wrapperValue (chain (H := plain_host) (S := unit) (numbers_to 600)
     [ODrop 10; OReverse; OFilter even_number; OMap (fun v => v); OTake 2])
   ≈ mret (eager_value (numbers_to 600) [ODrop 10; OReverse; OFilter even_number; OMap (fun v => v); OTake 2])) /\
  eager_value (numbers_to 600) [ODrop 10; OReverse; OFilter even_number; OMap (fun v => v); OTake 2]
    = [Number (num 598); Number (num 596)].
Proof.
  split; [|vm_compute; reflexivity]. apply (lazy_agrees (H := plain_host)).
  - vm_compute. discriminate.
  - repeat constructor; vm_compute; discriminate.
  - by eexists.
Defined.

(** The last two even numbers of 600, the second and third, and the even ones above 100 among
    the first two. *)
Lemma lazy_differs_witness :
  let l := numbers_to 600 in
  (wrapperValue (chain (H := plain_host) (S := unit) l [OFilter even_number; OTakeRight 2]) tt = (Ok [Number (num 598); Number (num 596)], tt) /\
   eager_value l [OFilter even_number; OTakeRight 2] = [Number (num 596); Number (num 598)]) /\
  (wrapperValue (chain (H := plain_host) (S := unit) l [OFilter even_number; ODrop 1; OTake 2]) tt = (Ok [Number (num 0); Number (num 2)], tt) /\
   eager_value l [OFilter even_number; ODrop 1; OTake 2] = [Number (num 2); Number (num 4)]) /\
  (wrapperValue (chain (H := plain_host) (S := unit) l [OFilter even_number; OTake 2; OFilter above_100]) tt = (Ok [Number (num 102); Number (num 104)], tt) /\
   eager_value l [OFilter even_number; OTake 2; OFilter above_100] = []).
Proof.
  cbn zeta. destruct (lazy_differs (H := plain_host) (S := unit) (numbers_to 600) even_number above_100 2 1) as (H1 & H2 & H3).
  - vm_compute. discriminate.
  - vm_compute. discriminate.
  - vm_compute. split; [discriminate|reflexivity].
  - vm_compute. split; discriminate.
  - split_and!; [rewrite (H1 tt)|idtac|rewrite (H2 tt)|idtac|rewrite (H3 tt)|idtac]; vm_compute; reflexivity.
Defined.
