(* ===== verification/LodashStrings.v ===== *)
(** * lodash.js: strings

    The string functions of [immer/extra/js/lib/lodash.js]: the regular expressions that
    split a string into symbols and words, [escape] and [unescape], [repeat] and the
    padding functions, [trim] and its relatives, [split], [truncate], [deburr], [words],
    [startsWith] and [endsWith].

    A string is the list of its code units. [isCall] stands for what [isIterateeCall]
    answers about the guard argument. *)

From S2P Require Import Prelude Js JsRegExp LodashLang LodashArrays LodashLists.

Open Scope regex_scope.

(** ** Regular expressions *)

Definition reEscapedHtml : regex :=
  RStr (str "&") ⋅ RAlts (List.map RStr [str "amp"; str "lt"; str "gt"; str "quot"; str "#39"; str "#96"]) ⋅ RStr (str ";").
Definition html_chars : ranges := [(38, 38); (60, 60); (62, 62); (34, 34); (39, 39); (96, 96)].
Definition reUnescapedHtml : regex := RIn html_chars.

(** [\^$.*+?()[]{}|]. *)
Definition reRegExpChar : regex :=
  RIn [(92, 92); (94, 94); (36, 36); (46, 46); (42, 42); (43, 43); (63, 63); (40, 40); (41, 41); (91, 91); (93, 93);
       (123, 123); (125, 125); (124, 124)].

(** The class [\s]. *)
Definition space_ranges : ranges :=
  [(9, 13); (32, 32); (160, 160); (0x1680, 0x1680); (0x2000, 0x200a); (0x2028, 0x2029); (0x202f, 0x202f);
   (0x205f, 0x205f); (0x3000, 0x3000); (0xfeff, 0xfeff)].
Definition reTrimStart : regex := RBegin ⋅ RPlus (RIn space_ranges).
Definition reTrimEnd : regex := RPlus (RIn space_ranges) ⋅ REnd.
Definition reTrim : regex := reTrimStart ∣ reTrimEnd.

Definition digit_range : ranges := [(48, 57)].
Definition reBasicWord : regex := RPlus (RIn ([(97, 122); (65, 90)] ++ digit_range)).
Definition latin1_ranges : ranges := [(0xc0, 0xd6); (0xd8, 0xde); (0xdf, 0xf6); (0xf8, 0xff)].
Definition reLatin1 : regex := RIn latin1_ranges.

Record symbol_regexes := {
  reApos : regex;
  combo_ranges : ranges;
  reComboMark : regex;
  reComplexSymbol : regex;
  reComplexWord : regex;
  complex_ranges : ranges;
}.

(** The ranges and expressions that are put together from strings. *)
Definition regexes : symbol_regexes :=
  let rsAstralRange := [(0xd800, 0xdfff)] in
  let rsComboMarksRange := [(0x300, 0x36f); (0xfe20, 0xfe23)] in
  let rsComboSymbolsRange := [(0x20d0, 0x20f0)] in
  let rsDingbatRange := [(0x2700, 0x27bf)] in
  let rsLowerRange := [(97, 122); (0xdf, 0xf6); (0xf8, 0xff)] in
  let rsMathOpRange := [(0xac, 0xac); (0xb1, 0xb1); (0xd7, 0xd7); (0xf7, 0xf7)] in
  let rsNonCharRange := [(0, 0x2f); (0x3a, 0x40); (0x5b, 0x60); (0x7b, 0xbf)] in
  let rsPunctuationRange := [(0x2000, 0x206f)] in
  let rsSpaceRange := [(32, 32); (9, 9); (11, 11); (12, 12); (0xa0, 0xa0); (0xfeff, 0xfeff); (10, 10); (13, 13);
    (0x2028, 0x2028); (0x2029, 0x2029); (0x1680, 0x1680); (0x180e, 0x180e); (0x2000, 0x2000); (0x2001, 0x2001);
    (0x2002, 0x2002); (0x2003, 0x2003); (0x2004, 0x2004); (0x2005, 0x2005); (0x2006, 0x2006); (0x2007, 0x2007);
    (0x2008, 0x2008); (0x2009, 0x2009); (0x200a, 0x200a); (0x202f, 0x202f); (0x205f, 0x205f); (0x3000, 0x3000)] in
  let rsUpperRange := [(65, 90); (0xc0, 0xd6); (0xd8, 0xde)] in
  let rsVarRange := [(0xfe0e, 0xfe0e); (0xfe0f, 0xfe0f)] in
  let rsBreakRange := rsMathOpRange ++ rsNonCharRange ++ rsPunctuationRange ++ rsSpaceRange in
  let rsApos := RIn [(39, 39); (0x2019, 0x2019)] in
  let rsAstral := RIn rsAstralRange in
  let rsBreak := RIn rsBreakRange in
  let rsComboRange := rsComboMarksRange ++ rsComboSymbolsRange in
  let rsCombo := RIn rsComboRange in
  let rsDigits := RPlus (RIn digit_range) in
  let rsDingbat := RIn rsDingbatRange in
  let rsLower := RIn rsLowerRange in
  (* the source of [rsDigits] stands between the brackets: the digits and the plus sign *)
  let rsMisc := RNotIn (rsAstralRange ++ rsBreakRange ++ (digit_range ++ [(43, 43)]) ++ rsDingbatRange ++
                        rsLowerRange ++ rsUpperRange) in
  let rsFitz := RIn [(0xd83c, 0xd83c)] ⋅ RIn [(0xdffb, 0xdfff)] in
  let rsModifier := rsCombo ∣ rsFitz in
  let rsNonAstral := RNotIn rsAstralRange in
  let regional := RIn [(0xd83c, 0xd83c)] ⋅ RIn [(0xdde6, 0xddff)] in
  let rsRegional := regional ⋅ regional in
  let rsSurrPair := RIn [(0xd800, 0xdbff)] ⋅ RIn [(0xdc00, 0xdfff)] in
  let rsUpper := RIn rsUpperRange in
  let rsZWJRange := [(0x200d, 0x200d)] in
  let rsLowerMisc := rsLower ∣ rsMisc in
  let rsUpperMisc := rsUpper ∣ rsMisc in
  let rsOptLowerContr := ROpt (rsApos ⋅ RAlts (List.map RStr [str "d"; str "ll"; str "m"; str "re"; str "s"; str "t"; str "ve"])) in
  let rsOptUpperContr := ROpt (rsApos ⋅ RAlts (List.map RStr [str "D"; str "LL"; str "M"; str "RE"; str "S"; str "T"; str "VE"])) in
  let reOptMod := ROpt rsModifier in
  let rsOptVar := ROpt (RIn rsVarRange) in
  let rsOptJoin := RStar (RIn rsZWJRange ⋅ RAlts [rsNonAstral; rsRegional; rsSurrPair] ⋅ rsOptVar ⋅ reOptMod) in
  let rsSeq := rsOptVar ⋅ reOptMod ⋅ rsOptJoin in
  let rsEmoji := RAlts [rsDingbat; rsRegional; rsSurrPair] ⋅ rsSeq in
  let rsSymbol := RAlts [rsNonAstral ⋅ ROpt rsCombo; rsCombo; rsRegional; rsSurrPair; rsAstral] in
  {| reApos := rsApos;
     combo_ranges := rsComboRange;
     reComboMark := rsCombo;
     reComplexSymbol := (rsFitz ⋅ RAhead rsFitz) ∣ (rsSymbol ⋅ rsSeq);
     reComplexWord := RAlts [
       ROpt rsUpper ⋅ RPlus rsLower ⋅ rsOptLowerContr ⋅ RAhead (RAlts [rsBreak; rsUpper; REnd]);
       RPlus rsUpperMisc ⋅ rsOptUpperContr ⋅ RAhead (RAlts [rsBreak; rsUpper ⋅ rsLowerMisc; REnd]);
       ROpt rsUpper ⋅ RPlus rsLowerMisc ⋅ rsOptLowerContr;
       RPlus rsUpper ⋅ rsOptUpperContr;
       rsDigits;
       rsEmoji];
     complex_ranges := rsZWJRange ++ rsAstralRange ++ rsComboMarksRange ++ rsComboSymbolsRange ++ rsVarRange |}.

Definition reHasComplexSymbol : regex := RIn (complex_ranges regexes).

(** [[a-z][A-Z]|[A-Z]{2,}[a-z]|[0-9][a-zA-Z]|[a-zA-Z][0-9]|[^a-zA-Z0-9 ]]. *)
Definition reHasComplexWord : regex :=
  let lower := [(97, 122)] in
  let upper := [(65, 90)] in
  RAlts [RIn lower ⋅ RIn upper; RIn upper ⋅ RIn upper ⋅ RStar (RIn upper) ⋅ RIn lower;
         RIn digit_range ⋅ RIn (lower ++ upper); RIn (lower ++ upper) ⋅ RIn digit_range;
         RNotIn (lower ++ upper ++ digit_range ++ [(32, 32)])].
Close Scope regex_scope.

(** ** Tables *)

(** An object used as a table, at a property it has. *)
Definition basePropertyOf (object : list (jstring * jstring)) (key : jstring) : jstring :=
  match List.find (fun '(k, _) => bool_decide (k = key)) object with
  | Some (_, v) => v
  | None => str "undefined"
  end.

Definition deburredLetters : list (jstring * jstring) :=
  let row letter codes := List.map (fun c => ([c], letter)) codes in
  row (str "A") [0xc0; 0xc1; 0xc2; 0xc3; 0xc4; 0xc5] ++
  row (str "a") [0xe0; 0xe1; 0xe2; 0xe3; 0xe4; 0xe5] ++
  row (str "C") [0xc7] ++ row (str "c") [0xe7] ++
  row (str "D") [0xd0] ++ row (str "d") [0xf0] ++
  row (str "E") [0xc8; 0xc9; 0xca; 0xcb] ++
  row (str "e") [0xe8; 0xe9; 0xea; 0xeb] ++
  row (str "I") [0xcc; 0xcd; 0xce; 0xcf] ++
  row (str "i") [0xec; 0xed; 0xee; 0xef] ++
  row (str "N") [0xd1] ++ row (str "n") [0xf1] ++
  row (str "O") [0xd2; 0xd3; 0xd4; 0xd5; 0xd6; 0xd8] ++
  row (str "o") [0xf2; 0xf3; 0xf4; 0xf5; 0xf6; 0xf8] ++
  row (str "U") [0xd9; 0xda; 0xdb; 0xdc] ++
  row (str "u") [0xf9; 0xfa; 0xfb; 0xfc] ++
  row (str "Y") [0xdd] ++ row (str "y") [0xfd; 0xff] ++
  row (str "Ae") [0xc6] ++ row (str "ae") [0xe6] ++
  row (str "Th") [0xde] ++ row (str "th") [0xfe] ++
  row (str "ss") [0xdf].

Definition htmlEscapes : list (jstring * jstring) :=
  [([38], str "&amp;"); ([60], str "&lt;"); ([62], str "&gt;"); ([34], str "&quot;"); ([39], str "&#39;"); ([96], str "&#96;")].
Definition htmlUnescapes : list (jstring * jstring) :=
  [(str "&amp;", [38]); (str "&lt;", [60]); (str "&gt;", [62]); (str "&quot;", [34]); (str "&#39;", [39]); (str "&#96;", [96])].

Definition deburrLetter : jstring -> jstring := basePropertyOf deburredLetters.
Definition escapeHtmlChar : jstring -> jstring := basePropertyOf htmlEscapes.
Definition unescapeHtmlChar : jstring -> jstring := basePropertyOf htmlUnescapes.

(** ** Strings of the language *)

(** [string.slice(start, end)]. *)
Definition string_slice (s : jstring) (start : Z) (end_ : option Z) : jstring :=
  let n := len s in
  let clip i := if i <? 0 then Z.max 0 (n + i) else Z.min i n in
  let start := clip start in
  let end_ := clip (default n end_) in
  take (Z.to_nat (end_ - start)) (drop (Z.to_nat start) s).

(** [s] starts with [p]. *)
Fixpoint is_prefix (p s : jstring) : bool :=
  match p, s with
  | [], _ => true
  | c :: p, d :: s => (c =? d) && is_prefix p s
  | _ :: _, [] => false
  end.

(** [string.lastIndexOf(sub)]. *)
Fixpoint last_index_of (s sub : jstring) : Z :=
  match s with
  | [] => if is_prefix sub [] then 0 else -1
  | _ :: s' =>
      let i := last_index_of s' sub in
      if -1 <? i then i + 1 else if is_prefix sub s then 0 else -1
  end.

(** [string.split(separator)] for a separator that is not empty: what precedes each
    occurrence, and the rest. *)
Fixpoint split_on (fuel : nat) (sep s cur : jstring) : list jstring :=
  match fuel with
  | O => [cur ++ s]
  | S fuel =>
      match s with
      | [] => [cur]
      | c :: s' => if is_prefix sep s then cur :: split_on fuel sep (drop (length sep) s) []
                   else split_on fuel sep s' (cur ++ [c])
      end
  end.

Definition native_split (s : jstring) (separator : option jstring) (limit : Z) : list jstring :=
  take (Z.to_nat limit)
    (match separator with
     | None => [s]
     | Some [] => List.map (fun c => [c]) s
     | Some sep => split_on (length s) sep s []
     end).

(** [array.join('')] of an array of strings. *)
Definition join_empty (l : list value) : jstring :=
  concat (List.map (fun v => match v with String s => s | _ => [] end) l).

(** [n >>> 0]. *)
Definition to_uint32 (n : number) : Z := if is_finite n then wrapu 32 (trunc n) else 0.

(** [null.length] and the like throw. *)
Definition not_null {A} (o : option A) : result exn A :=
  match o with Some a => Ok a | None => Throw TypeError end.

(** ** Symbols *)

Definition stringToArray (s : jstring) : option (list value) :=
  List.map String <$> match_all (reComplexSymbol regexes) s.

(** The loop counts the matches. *)
Definition stringSize (s : jstring) : Z :=
  if negb (negb (len s =? 0) && test reHasComplexSymbol s) then len s
  else match match_all (reComplexSymbol regexes) s with Some ms => len ms | None => 0 end.

(** [do { ... } while (n)]: [n] is an integer that is not negative, below 2^53. *)
Fixpoint repeat_loop (fuel : nat) (s : jstring) (n : Z) (result : jstring) : jstring :=
  match fuel with
  | O => result
  | S fuel =>
      let result := if negb (n mod 2 =? 0) then result ++ s else result in
      let n := n / 2 in
      let s := if negb (n =? 0) then s ++ s else s in
      if negb (n =? 0) then repeat_loop fuel s n result else result
  end.

Definition baseRepeat (s : jstring) (n : Z) : jstring :=
  if (len s =? 0) || (n <? 1) || (MAX_SAFE_INTEGER <? n) then [] else repeat_loop 53 s n [].

(** ** The functions *)

Section strings.
Context `{JsHost}.

(** The length is that of a string, so that the division is exact enough for [ceil]. *)
Definition createPadding (length : Z) (chars : value) : result exn jstring :=
  let chars := if is_undefined chars then str " " else baseToString chars in
  let charsLength := len chars in
  if charsLength <? 2 then Ok (if negb (charsLength =? 0) then baseRepeat chars length else chars)
  else
    let result := baseRepeat chars (- (- length / stringSize chars)) in
    if test reHasComplexSymbol chars
    then symbols ← not_null (stringToArray result); Ok (join_empty (castSlice symbols 0 (Some length)))
    else Ok (string_slice result 0 (Some length)).

Definition pad (string length chars : value) : result exn jstring :=
  let string := toString string in
  let length := int length in
  let strLength := if negb (length =? 0) then stringSize string else 0 in
  if (length =? 0) || (length <=? strLength) then Ok string
  else
    let gap := length - strLength in
    before ← createPadding (gap / 2) chars;
    after ← createPadding (- (- gap / 2)) chars;
    Ok (before ++ string ++ after).

Definition padEnd (string length chars : value) : result exn jstring :=
  let string := toString string in
  let length := int length in
  let strLength := if negb (length =? 0) then stringSize string else 0 in
  if negb (length =? 0) && (strLength <? length)
  then padding ← createPadding (length - strLength) chars; Ok (string ++ padding) else Ok string.

Definition padStart (string length chars : value) : result exn jstring :=
  let string := toString string in
  let length := int length in
  let strLength := if negb (length =? 0) then stringSize string else 0 in
  if negb (length =? 0) && (strLength <? length)
  then padding ← createPadding (length - strLength) chars; Ok (padding ++ string) else Ok string.

Definition repeat (string n : value) (isCall : option bool) : jstring :=
  let n := if match isCall with Some b => b | None => is_undefined n end then 1 else int n in
  baseRepeat (toString string) n.

(** The method of [chr], [toLowerCase] or [toUpperCase], is the argument. *)
Definition createCaseFirst (method : jstring -> jstring) (string : value) : result exn jstring :=
  let string := toString string in
  strSymbols ← (if test reHasComplexSymbol string then s ← not_null (stringToArray string); Ok (Some s) else Ok None);
  let chr := match strSymbols with
             | Some s => match s.[0] with String c => c | _ => [] end
             | None => take 1 string end in
  let trailing := match strSymbols with
                  | Some s => join_empty (castSlice s 1 None)
                  | None => string_slice string 1 None end in
  Ok (method chr ++ trailing).

Definition deburr (string : value) : jstring :=
  replace_all (reComboMark regexes) (fun _ => []) (replace_all reLatin1 deburrLetter (toString string)).

(** A pattern of the caller is a global expression. *)
Definition words (string : value) (pattern : option regex) (guard : bool) : list jstring :=
  let string := toString string in
  let pattern := if guard then None else pattern in
  let pattern := match pattern with
                 | Some p => p
                 | None => if test reHasComplexWord string then reComplexWord regexes else reBasicWord
                 end in
  default [] (match_all pattern string).

Definition createCompounder (callback : jstring -> jstring -> Z -> jstring) (string : value) : jstring :=
  ended (loop (R := jstring) (fun index word result => inl (callback result word index)) 0
    (words (String (replace_all (reApos regexes) (fun _ => []) (deburr string))) None false) []).

Definition endsWith (string target position : value) : bool :=
  let string := toString string in
  let target := baseToString target in
  let length := len string in
  let position := if is_undefined position then length
                  else trunc (baseClamp (toInteger position) (Some (num 0)) (Some (num length))) in
  let end_ := position in
  let position := position - len target in
  (0 <=? position) && bool_decide (string_slice string position (Some end_) = target).

Definition startsWith (string target position : value) : bool :=
  let string := toString string in
  let position := trunc (baseClamp (toInteger position) (Some (num 0)) (Some (num (len string)))) in
  let target := baseToString target in
  bool_decide (string_slice string position (Some (position + len target)) = target).

Definition escape (string : value) : jstring :=
  let string := toString string in
  if negb (len string =? 0) && test reUnescapedHtml string then replace_all reUnescapedHtml escapeHtmlChar string else string.

Definition unescape (string : value) : jstring :=
  let string := toString string in
  if negb (len string =? 0) && test reEscapedHtml string then replace_all reEscapedHtml unescapeHtmlChar string else string.

Definition escapeRegExp (string : value) : jstring :=
  let string := toString string in
  if negb (len string =? 0) && test reRegExpChar string then replace_all reRegExpChar (fun m => 92 :: m) string else string.

(** A separator that is absent, or is converted to a string; a regular expression is not
    modelled. *)
Definition split (string separator limit : value) (isCall : bool) : result exn (list jstring) :=
  let '(separator, limit) :=
    if truthy limit && negb (bool_decide (typeof limit = TNumber)) && isCall then (Undefined, Undefined) else (separator, limit) in
  let limit := if is_undefined limit then MAX_ARRAY_LENGTH else to_uint32 (to_number limit) in
  if limit =? 0 then Ok [] else
  let string := toString string in
  let converted := negb (len string =? 0) && negb (is_nil separator) in
  let separator := if converted then String (baseToString separator) else separator in
  if converted && bool_decide (separator = String []) && test reHasComplexSymbol string then
    symbols ← not_null (stringToArray string);
    Ok (List.map (fun v => join_empty [v]) (castSlice symbols 0 (Some limit)))
  else
    Ok (native_split string (if is_undefined separator then None else Some (to_string separator)) limit).

(** [trim], [trimEnd] and [trimStart]. *)
Definition trim (string chars : value) (guard : bool) : result exn jstring :=
  let string := toString string in
  if negb (len string =? 0) && (guard || is_undefined chars) then Ok (replace_all reTrim (fun _ => []) string) else
  let chars := baseToString chars in
  if (len string =? 0) || (len chars =? 0) then Ok string else
  strSymbols ← not_null (stringToArray string);
  chrSymbols ← not_null (stringToArray chars);
  let start := charsStartIndex strSymbols chrSymbols in
  let end_ := charsEndIndex strSymbols chrSymbols + 1 in
  Ok (join_empty (castSlice strSymbols start (Some end_))).

Definition trimEnd (string chars : value) (guard : bool) : result exn jstring :=
  let string := toString string in
  if negb (len string =? 0) && (guard || is_undefined chars) then Ok (replace_first reTrimEnd (fun _ => []) string) else
  let chars := baseToString chars in
  if (len string =? 0) || (len chars =? 0) then Ok string else
  strSymbols ← not_null (stringToArray string);
  chrSymbols ← not_null (stringToArray chars);
  let end_ := charsEndIndex strSymbols chrSymbols + 1 in
  Ok (join_empty (castSlice strSymbols 0 (Some end_))).

Definition trimStart (string chars : value) (guard : bool) : result exn jstring :=
  let string := toString string in
  if negb (len string =? 0) && (guard || is_undefined chars) then Ok (replace_first reTrimStart (fun _ => []) string) else
  let chars := baseToString chars in
  if (len string =? 0) || (len chars =? 0) then Ok string else
  strSymbols ← not_null (stringToArray string);
  chrSymbols ← not_null (stringToArray chars);
  let start := charsStartIndex strSymbols chrSymbols in
  Ok (join_empty (castSlice strSymbols start None)).

(** The separator of [truncate]: none, a string, or a regular expression. *)
Inductive separator := SepUndefined | SepString (s : jstring) | SepRegExp (r : regex).

(** The options that are present. *)
Record truncate_options := { opt_length : option value; opt_omission : option value; opt_separator : separator }.

Definition DEFAULT_TRUNC_LENGTH : Z := 30.
Definition DEFAULT_TRUNC_OMISSION : jstring := str "...".

(** [while ((match = separator.exec(substring))) newEnd = match.index], from [lastIndex]:
    the outer [None] when the loop never ends. An empty match leaves [lastIndex] where it
    is, and is found again for ever. *)
Fixpoint last_match (fuel : nat) (r : regex) (total : nat) (s : jstring) (lastIndex : Z) (newEnd : option Z) :
    option (option Z) :=
  match exec_from r total s with
  | None => Some newEnd
  | Some (before, m, rest) =>
      let index := lastIndex + len before in
      match m, fuel with
      | [], _ | _, O => None
      | _, S fuel => last_match fuel r total rest (index + len m) (Some index)
      end
  end.

(** The outer [None] when the call never returns. *)
Definition truncate (string : value) (options : option truncate_options) : option (result exn jstring) :=
  let sep := match options with Some o => opt_separator o | None => SepUndefined end in
  let length := match options with
                | Some {| opt_length := Some l |} => int l
                | _ => DEFAULT_TRUNC_LENGTH end in
  let omission := match options with
                  | Some {| opt_omission := Some o |} => baseToString o
                  | _ => DEFAULT_TRUNC_OMISSION end in
  let string := toString string in
  let strSymbols := if test reHasComplexSymbol string then Some (stringToArray string) else None in
  match strSymbols with
  | Some None => Some (Throw TypeError)
  | _ =>
    let strSymbols := mjoin strSymbols in
    let strLength := match strSymbols with Some l => len l | None => len string end in
    if strLength <=? length then Some (Ok string) else
    let end_ := length - stringSize omission in
    if end_ <? 1 then Some (Ok omission) else
    let result := match strSymbols with
                  | Some l => join_empty (castSlice l 0 (Some end_))
                  | None => string_slice string 0 (Some end_) end in
    let end_ := match strSymbols with Some _ => end_ + (len result - end_) | None => end_ end in
    match sep with
    | SepUndefined => Some (Ok (result ++ omission))
    | SepRegExp r =>
        if negb (search r (string_slice string end_ None) =? 0) then
          newEnd ← last_match (Datatypes.S (List.length result)) r (List.length result) result 0 None;
          Some (Ok (string_slice result 0 (Some (default end_ newEnd)) ++ omission))
        else Some (Ok (result ++ omission))
    | SepString sep =>
        if negb (is_prefix sep (drop (Z.to_nat end_) string)) then
          let index := last_index_of result sep in
          Some (Ok ((if -1 <? index then string_slice result 0 (Some index) else result) ++ omission))
        else Some (Ok (result ++ omission))
    end
  end.
End strings.

(** ** Escaping *)

Lemma escape_chars `{JsHost} v :
  escape v = flat_map (fun c => if in_ranges html_chars c then escapeHtmlChar [c] else [c]) (toString v).
Proof.
  unfold escape. rewrite <- replace_class. destruct (negb _ && test _ _) eqn:E; [done|].
  apply andb_false_iff in E as [E|E]; [|by rewrite replace_none].
  destruct (toString v); [done|discriminate E].
Qed.

Lemma unescape_all `{JsHost} s : unescape (String s) = replace_all reEscapedHtml unescapeHtmlChar s.
Proof.
  unfold unescape. change (toString (String s)) with s. destruct (negb _ && test _ _) eqn:E; [done|].
  apply andb_false_iff in E as [E|E]; [|by rewrite replace_none].
  destruct s; [done|discriminate E].
Qed.

Lemma escaped_match total c rest :
  in_ranges html_chars c = true ->
  match_here reEscapedHtml total (escapeHtmlChar [c] ++ rest) = Some (escapeHtmlChar [c], rest) /\
  unescapeHtmlChar (escapeHtmlChar [c]) = [c] /\ escapeHtmlChar [c] <> [].
Proof.
  intros Hc. assert (Hc' : c = 38 \/ c = 60 \/ c = 62 \/ c = 34 \/ c = 39 \/ c = 96).
  { unfold in_ranges, html_chars in Hc. cbn [existsb] in Hc. lia. }
  split; [apply match_here_intro|].
  - destruct Hc' as [-> |[-> |[-> |[-> |[-> | ->]]]]]; reflexivity.
  - destruct Hc' as [-> |[-> |[-> |[-> |[-> | ->]]]]]; by vm_compute.
Qed.

Lemma plain_no_match total c rest : in_ranges html_chars c = false -> match_here reEscapedHtml total (c :: rest) = None.
Proof.
  intros Hc. unfold match_here, reEscapedHtml. change (str "&") with [38].
  cbn [matches RStr foldr]. assert (in_ranges [(38, 38)] c = false) as ->; [|done].
  unfold in_ranges, html_chars in *. cbn [existsb] in *. lia.
Qed.

(** [unescape] undoes [escape] on every string, the strings that already contain
    entities included. *)
Theorem unescape_escape `{JsHost} (v : value) : unescape (String (escape v)) = toString v.
Proof.
  rewrite unescape_all, escape_chars. generalize (toString v) as s. intros s.
  unfold replace_all. set (t := flat_map _ s). generalize (length t) at 1. intros total.
  assert (Hf : (length t < S (length t))%nat) by lia. revert Hf. generalize (S (length t)) as fuel. unfold t. clear t.
  induction s as [|c s IH]; intros [|fuel] Hf; [lia|done|lia|]. cbn [flat_map] in *. cbn [pieces].
  destruct (in_ranges html_chars c) eqn:Hc.
  - destruct (escaped_match total c (flat_map (fun c => if in_ranges html_chars c then escapeHtmlChar [c] else [c]) s) Hc)
      as (-> & Hu & Hne). rewrite length_app in Hf. destruct (escapeHtmlChar [c]) as [|x m]; [done|].
    cbn [List.map concat]. rewrite Hu, IH; [done|cbn [length app] in Hf; lia].
  - cbn [app]. rewrite plain_no_match by done. cbn [List.map concat]. rewrite IH; [done|cbn [length app] in Hf; lia].
Qed.

Lemma deburrLetter_plain c :
  in_ranges latin1_ranges c = true -> Forall (fun d => in_ranges latin1_ranges d = false) (deburrLetter [c]).
Proof.
  intros Hc. assert (Hr : 192 <= c < 192 + 64).
  { unfold in_ranges, latin1_ranges in Hc. cbn [existsb] in Hc. lia. }
  assert (Hall : forallb (fun c => negb (in_ranges latin1_ranges c) ||
      forallb (fun d => negb (in_ranges latin1_ranges d)) (deburrLetter [c])) (seqZ 192 64) = true) by reflexivity.
  rewrite forallb_forall in Hall. specialize (Hall c). rewrite <- list_elem_of_In, elem_of_seqZ, Hc in Hall.
  apply List.Forall_forall. intros d Hd. apply negb_true_iff.
  exact (proj1 (forallb_forall _ _) (Hall Hr) d Hd).
Qed.

(** [deburr] leaves neither accented Latin-1 letters nor combining marks. *)
Lemma deburr_plain `{JsHost} v :
  Forall (fun c => in_ranges latin1_ranges c = false /\ in_ranges (combo_ranges regexes) c = false) (deburr v).
Proof.
  unfold deburr, reLatin1. change (reComboMark regexes) with (RIn (combo_ranges regexes)). rewrite !replace_class.
  apply List.Forall_forall. intros d Hd. apply in_flat_map in Hd as (c & Hc & Hd).
  apply in_flat_map in Hc as (b & _ & Hc).
  destruct (in_ranges (combo_ranges regexes) c) eqn:Ec; [done|]. destruct Hd as [<- |[]]. split; [|done].
  destruct (in_ranges latin1_ranges b) eqn:Eb; [|by destruct Hc as [<- |[]]].
  by apply (proj1 (List.Forall_forall _ _) (deburrLetter_plain b Eb)).
Qed.

(** ** Symbols *)

Definition succeeds (k : jstring -> option jstring) : Prop := forall s, is_Some (k s).

Lemma succeeds_opt r total k : succeeds k -> succeeds (fun s => matches (ROpt r) total s k).
Proof. intros Hk s. cbn [matches]. case_match; [by eexists|apply Hk]. Qed.

Lemma succeeds_star r total k : succeeds k -> succeeds (fun s => matches (RStar r) total s k).
Proof.
  intros Hk s. cbn [matches]. generalize (length s) as fuel. intros fuel. revert s.
  induction fuel as [|fuel IH]; intros s; [apply Hk|]. case_match; [by eexists|apply Hk].
Qed.

Lemma alt_l r r' total s k : is_Some (matches r total s k) -> is_Some (matches (RAlt r r') total s k).
Proof. intros [x Hx]. cbn [matches]. rewrite Hx. by eexists. Qed.

Lemma alt_r r r' total s k : is_Some (matches r' total s k) -> is_Some (matches (RAlt r r') total s k).
Proof. intros [x Hx]. cbn [matches]. rewrite Hx. case_match; by eexists. Qed.

(** Every unit starts a symbol: one alternative takes a unit outside a class and the last
    one a unit inside it, and what follows is optional. *)
Lemma symbol_shape fitz rs combo r2 r3 r4 var modifier join total c s :
  is_Some (matches (fitz ∣ (((RNotIn rs ⋅ ROpt combo) ∣ r2 ∣ r3 ∣ r4 ∣ RIn rs) ⋅ (ROpt var ⋅ ROpt modifier ⋅ RStar join)))%re
    total (c :: s) Some).
Proof.
  apply alt_r. change (matches (?a ⋅ ?b)%re total (c :: s) Some)
    with (matches a total (c :: s) (fun s => matches b total s Some)).
  set (k := fun s => matches _ total s Some).
  assert (Hk : succeeds k).
  { apply (succeeds_opt var total (fun s => matches (ROpt modifier) total s (fun s => matches (RStar join) total s Some))).
    apply succeeds_opt, succeeds_star. intros u. by eexists. }
  destruct (in_ranges rs c) eqn:E.
  - apply alt_r. cbn [matches]. rewrite E. apply Hk.
  - do 4 apply alt_l. cbn [matches]. rewrite E. apply (succeeds_opt combo total k Hk).
Qed.

Lemma symbol_here total c s :
  exists d m rest, match_here (reComplexSymbol regexes) total (c :: s) = Some (d :: m, rest) /\ c :: s = (d :: m) ++ rest.
Proof.
  destruct (symbol_shape (RSeq (RSeq (RIn [(0xd83c, 0xd83c)]) (RIn [(0xdffb, 0xdfff)]))
    (RAhead (RSeq (RIn [(0xd83c, 0xd83c)]) (RIn [(0xdffb, 0xdfff)])))) [(0xd800, 0xdfff)] _ _ _ _ _ _ _ total c s
    : is_Some (matches (reComplexSymbol regexes) total (c :: s) Some)) as [rest Hm].
  unfold match_here. rewrite Hm.
  destruct (match_here_app (reComplexSymbol regexes) total (c :: s) (take (length (c :: s) - length rest) (c :: s)) rest) as [He Hl].
  { unfold match_here. by rewrite Hm. }
  assert (Hmin : min_len (reComplexSymbol regexes) = 1%nat) by reflexivity. rewrite Hmin in Hl.
  destruct (take _ _) as [|d m]; [cbn in Hl; lia|]. by exists d, m, rest.
Qed.

(** The symbols of a string make it up, and none is empty. *)
Lemma symbols_concat s :
  s <> [] -> exists ms, match_all (reComplexSymbol regexes) s = Some ms /\ concat ms = s /\ Forall (fun m => m <> []) ms /\ ms <> [].
Proof.
  intros Hs. unfold match_all. generalize (length s) at 1. intros total.
  assert (Hf : (length s < S (length s))%nat) by lia. revert Hf. generalize (S (length s)) as fuel.
  assert (Hg : forall fuel s, (length s < fuel)%nat -> exists ms,
    omap (fun p => match p with inl _ => None | inr m => Some m end) (pieces (reComplexSymbol regexes) total fuel s) = ms /\
    concat ms = s /\ Forall (fun m => m <> []) ms).
  { intros fuel. induction fuel as [|fuel IH]; intros t Hf; [lia|]. destruct t as [|c t]; [by exists []|].
    destruct (symbol_here total c t) as (d & m & rest & Hm & He). cbn [pieces]. rewrite Hm. rewrite He in *.
    rewrite length_app in Hf. cbn [length] in Hf. destruct (IH rest) as (ms & Hms & <- & Hne); [lia|].
    exists ((d :: m) :: ms). split_and!; [exact (f_equal (cons (d :: m)) Hms)|done|by constructor]. }
  intros fuel Hf. destruct (Hg fuel s Hf) as (ms & -> & Hc & Hne). destruct ms as [|m ms]; [by subst s|].
  by exists (m :: ms).
Qed.

(** ** Trimming *)

Section trim_lists.
Context {A : Type} (p : A -> bool).

Lemma trim_start_split l : exists pre, l = pre ++ trim_start p l /\ forallb p pre = true.
Proof.
  induction l as [|x l (pre & Hl & Hp)]; [by exists []|]. cbn [trim_start].
  destruct (p x) eqn:E; [|by exists []]. exists (x :: pre). cbn. rewrite E, <- Hl. done.
Qed.

Lemma trim_start_all l : forallb p l = true -> trim_start p l = [].
Proof. induction l as [|x l IH]; [done|]. cbn. by destruct (p x). Qed.

Lemma trim_start_app l k : forallb p l = true -> trim_start p (l ++ k) = trim_start p k.
Proof. induction l as [|x l IH]; [done|]. cbn. by destruct (p x). Qed.

Lemma trim_start_stop l k : forallb p l = false -> trim_start p (l ++ k) = trim_start p l ++ k.
Proof. induction l as [|x l IH]; [done|]. cbn. by destruct (p x). Qed.

Lemma forallb_rev l : forallb p (rev l) = forallb p l.
Proof.
  induction l as [|x l IH]; [done|]. cbn. rewrite forallb_app, IH. cbn. by destruct (p x), (forallb p l).
Qed.

Lemma trim_start_head l x k : trim_start p l = x :: k -> p x = false.
Proof. induction l as [|y l IH]; [done|]. cbn. destruct (p y) eqn:E; [done|]. by intros [= -> ->]. Qed.

(** The slice between the two ends. *)
Lemma trim_ends_slice l :
  trim_ends p l =
  take (length (trim_start p (rev l)) - (length l - length (trim_start p l))) (drop (length l - length (trim_start p l)) l).
Proof.
  destruct (trim_start_split l) as (pre & Hl & Hpre). remember (trim_start p l) as t eqn:Ht. unfold trim_ends. rewrite <- Ht.
  rewrite Hl, length_app, Nat.add_sub, drop_app_length, rev_app_distr. destruct t as [|x t].
  { by rewrite take_nil. }
  assert (Hx : forallb p (rev (x :: t)) = false).
  { rewrite forallb_rev. cbn. by rewrite (trim_start_head l x t). }
  rewrite trim_start_stop, length_app, length_rev, Nat.add_sub by done.
  destruct (trim_start_split (rev (x :: t))) as (suf & Hs & _).
  set (u := trim_start p (rev (x :: t))) in *. rewrite <- (rev_involutive (x :: t)), Hs, rev_app_distr.
  by rewrite take_app_length' by (symmetry; apply length_rev).
Qed.

Lemma drop_trim_start l : drop (length l - length (trim_start p l)) l = trim_start p l.
Proof.
  destruct (trim_start_split l) as (pre & Hl & _). set (t := trim_start p l) in *. clearbody t. subst l.
  by rewrite length_app, Nat.add_sub, drop_app_length.
Qed.

Lemma take_trim_end l : take (length (trim_start p (rev l))) l = rev (trim_start p (rev l)).
Proof.
  destruct (trim_start_split (rev l)) as (suf & Hl & _). set (t := trim_start p (rev l)) in *. clearbody t.
  rewrite <- (rev_involutive l), Hl, rev_app_distr. by rewrite take_app_length' by (symmetry; apply length_rev).
Qed.
End trim_lists.

Lemma chars_start (p : value -> bool) l i :
  returned (i + len l) (loop (fun index v (_ : unit) => if p v then inl tt else inr index) i l tt)
  = i + (len l - len (trim_start p l)).
Proof.
  revert i. induction l as [|x l IH]; intros i; [cbn; lia|]. cbn [loop trim_start].
  destruct (p x); [|cbn [returned]; lia]. specialize (IH (i + 1)). rewrite length_cons in *.
  replace (i + Z.of_nat (S (length l))) with (i + 1 + len l) by lia. rewrite IH. lia.
Qed.

Lemma chars_end (p : value -> bool) l i :
  returned (i - 1) (loop_right (fun index v (_ : unit) => if p v then inl tt else inr index) i l tt) + 1
  = i + len (trim_start p (rev l)).
Proof.
  enough (He : loop_right (fun index v (_ : unit) => if p v then inl tt else inr index) i l tt
    = if forallb p l then inl tt else inr (i + len (trim_start p (rev l)) - 1)).
  { rewrite He. destruct (forallb p l) eqn:E; cbn [returned]; [|lia].
    rewrite trim_start_all by (by rewrite forallb_rev). cbn. lia. }
  revert i. induction l as [|x l IH]; intros i; [done|]. cbn [loop_right forallb rev]. rewrite IH.
  destruct (forallb p l) eqn:E.
  - rewrite trim_start_app by (by rewrite forallb_rev). cbn. destruct (p x); cbn; [done|]. f_equal. lia.
  - rewrite andb_false_r, trim_start_stop, length_app by (by rewrite forallb_rev). cbn. f_equal. lia.
Qed.

Lemma castSlice_spec (l : list value) (s e : Z) :
  array_size l -> 0 <= s -> 0 <= e <= len l ->
  castSlice l s (Some e) = take (Z.to_nat (e - s)) (drop (Z.to_nat s) l).
Proof.
  intros Hl Hs He. unfold castSlice. change (default (len l) (Some e)) with e.
  destruct ((s =? 0) && (len l <=? e)) eqn:E.
  - apply andb_true_iff in E as [->%Z.eqb_eq E%Z.leb_le]. rewrite drop_0, take_ge by lia. done.
  - rewrite baseSlice_spec by done. unfold slice_start, slice_end.
    destruct (Z.ltb_spec s 0), (Z.ltb_spec e 0); try lia. by rewrite Z.min_l by lia.
Qed.

(** The symbols of a string. *)
Definition symbols (s : jstring) : list jstring := default [] (match_all (reComplexSymbol regexes) s).

Lemma symbols_make s : concat (symbols s) = s /\ (length (symbols s) <= length s)%nat /\ (s <> [] -> symbols s <> []).
Proof.
  destruct s as [|c s]; [done|]. destruct (symbols_concat (c :: s)) as (ms & Hm & Hc & Hne & Hms); [done|].
  unfold symbols. rewrite Hm. cbn [default]. change (id ms) with ms. split_and!; try done. rewrite <- Hc. clear -Hne.
  induction Hne as [|[|x m] ms Hx _ IH]; cbn [concat length]; [done|done|]. rewrite length_app. cbn [length]. lia.
Qed.

Lemma stringToArray_symbols s : s <> [] -> stringToArray s = Some (List.map String (symbols s)).
Proof.
  intros Hs. unfold stringToArray, symbols. by destruct (symbols_concat s Hs) as (ms & -> & _).
Qed.

Lemma trim_start_map {A B} (f : A -> B) (p : A -> bool) (q : B -> bool) l :
  (forall x, q (f x) = p x) -> trim_start q (List.map f l) = List.map f (trim_start p l).
Proof. intros Hq. induction l as [|x l IH]; [done|]. cbn. rewrite Hq. by destruct (p x). Qed.

Lemma join_strings l : join_empty (List.map String l) = concat l.
Proof. unfold join_empty. rewrite List.map_map. by rewrite List.map_id. Qed.

Lemma index_of_symbol cs m :
  cs <> [] -> (-1 <? baseIndexOf (List.map String cs) (String m) 0) = bool_decide (m ∈ cs).
Proof.
  intros Hcs. pose proof (arrayIncludes_spec (List.map String cs) (String m)) as Ha. unfold arrayIncludes in Ha.
  assert ((len (List.map String cs) =? 0) = false) as Hl by (by destruct cs). rewrite Hl in Ha. cbn [negb andb] in Ha.
  rewrite Ha. apply Bool.eq_iff_eq_true. rewrite existsb_exists, bool_decide_eq_true. split.
  - intros (x & (s & <- & Hs)%in_map_iff & Hx). apply list_elem_of_In. unfold eq in Hx. cbn in Hx.
    rewrite (bool_decide_true (m = m)), andb_false_r, orb_false_r, bool_decide_eq_true in Hx by done. by subst.
  - intros Hm. exists (String m). split; [by apply in_map, list_elem_of_In|]. unfold eq. cbn. by rewrite bool_decide_true.
Qed.

Lemma chars_indexes ms cs :
  cs <> [] -> let p m := bool_decide (m ∈ cs) in
  charsStartIndex (List.map String ms) (List.map String cs) = len ms - len (trim_start p ms) /\
  charsEndIndex (List.map String ms) (List.map String cs) + 1 = len (trim_start p (rev ms)).
Proof.
  intros Hcs p. set (q := fun w => -1 <? baseIndexOf (List.map String cs) w 0).
  assert (Hq : forall m, q (String m) = p m) by (intros m; by apply index_of_symbol). split.
  - pose proof (chars_start q (List.map String ms) 0) as Hs. rewrite !Z.add_0_l in Hs.
    unfold charsStartIndex. etrans; [exact Hs|]. by rewrite (trim_start_map String p q), !length_map.
  - pose proof (chars_end q (List.map String ms) 0) as Hs. rewrite !Z.add_0_l in Hs.
    unfold charsEndIndex. etrans; [exact Hs|]. by rewrite <- List.map_rev, (trim_start_map String p q), length_map.
Qed.

Lemma trim_start_length {A} (p : A -> bool) l : (length (trim_start p l) <= length l)%nat.
Proof. induction l as [|x l IH]; [done|]. cbn. destruct (p x); cbn; lia. Qed.

(** [trim], [trimStart] and [trimEnd] with characters to strip split the string into
    symbols, a surrogate pair or a letter with its combining marks being one symbol, and
    drop the symbols at the ends that are symbols of the given characters, and no others. *)
Theorem trim_correct `{JsHost} (v c : value) :
  is_undefined c = false -> baseToString c <> [] -> array_size (toString v) ->
  let ms := symbols (toString v) in
  let p m := bool_decide (m ∈ symbols (baseToString c)) in
  concat ms = toString v /\
  trim v c false = Ok (concat (trim_ends p ms)) /\
  trimStart v c false = Ok (concat (trim_start p ms)) /\
  trimEnd v c false = Ok (concat (rev (trim_start p (rev ms)))).
Proof.
  intros Hc Hcs Hsize ms p. unfold trim, trimStart, trimEnd. rewrite Hc, andb_false_r.
  destruct (symbols_make (baseToString c)) as (_ & _ & Hne). specialize (Hne Hcs).
  destruct (symbols_make (toString v)) as (Hms & Hl & _). fold ms in Hms, Hl. split; [done|].
  assert ((len (baseToString c) =? 0) = false) as -> by (by destruct (baseToString c)). rewrite orb_false_r.
  assert (Hsz : array_size (List.map String ms)) by (unfold array_size in *; rewrite length_map; lia).
  destruct (len (toString v) =? 0) eqn:E0.
  { destruct (toString v); [|discriminate E0]. by unfold ms. }
  assert (Hs : toString v <> []) by (by intros Hn; rewrite Hn in E0).
  rewrite !stringToArray_symbols by done. fold ms. cbn [not_null mbind result_bind].
  destruct (chars_indexes ms (symbols (baseToString c)) Hne) as [-> ->]. fold p.
  pose proof (trim_start_length p ms) as H1. pose proof (trim_start_length p (rev ms)) as H2. rewrite length_rev in H2.
  change (castSlice ?l ?s None) with (castSlice l s (Some (len l))).
  rewrite !castSlice_spec by (done || rewrite ?length_map; lia). rewrite !length_map, !skipn_map, !firstn_map, !join_strings.
  split_and!; do 2 f_equal.
  - rewrite trim_ends_slice. f_equal; [lia|]. f_equal. lia.
  - rewrite take_ge by (rewrite length_drop; lia). rewrite <- (drop_trim_start p ms) at 2. f_equal. lia.
  - rewrite drop_0, <- take_trim_end. f_equal. lia.
Qed.

Lemma trim_correct_witness :
  trim (H := plain_host) (String (str "-_-abc-_-")) (String (str "_-")) false = Ok (str "abc") /\
  trimStart (H := plain_host) (String (str "-_-abc-_-")) (String (str "_-")) false = Ok (str "abc-_-").
Proof.
  destruct (trim_correct (H := plain_host) (String (str "-_-abc-_-")) (String (str "_-"))) as (_ & Ht & Hs & _);
    [reflexivity|discriminate|vm_compute; discriminate|].
  split; [rewrite Ht|rewrite Hs]; vm_compute; reflexivity.
Defined.

(** ** Repeating and padding *)

Definition copies (n : Z) (s : jstring) : jstring := concat (replicate (Z.to_nat n) s).

Lemma copies_double k s : 0 <= k -> copies k (s ++ s) = copies (2 * k) s.
Proof.
  intros Hk. unfold copies. replace (Z.to_nat (2 * k)) with (Z.to_nat k + Z.to_nat k)%nat by lia.
  induction (Z.to_nat k) as [|j IH]; [done|]. cbn [replicate concat]. rewrite IH.
  replace (S j + S j)%nat with (S (S (j + j))) by lia. cbn. by rewrite <- app_assoc.
Qed.

Lemma copies_S n s : 0 <= n -> copies (n + 1) s = s ++ copies n s.
Proof. intros Hn. unfold copies. by replace (Z.to_nat (n + 1)) with (S (Z.to_nat n)) by lia. Qed.

Lemma copies_length n s : 0 <= n -> len (copies n s) = n * len s.
Proof.
  intros Hn. unfold copies. rewrite <- (Z2Nat.id n) at 2 by done. induction (Z.to_nat n) as [|j IH]; [done|].
  cbn [replicate concat]. rewrite length_app. lia.
Qed.

Lemma repeat_loop_copies fuel s n r : 0 < n < 2 ^ Z.of_nat fuel -> repeat_loop fuel s n r = r ++ copies n s.
Proof.
  revert s n r. induction fuel as [|fuel IH]; intros s n r Hn; [cbn in Hn; lia|]. cbn [repeat_loop].
  rewrite Nat2Z.inj_succ, Z.pow_succ_r in Hn by lia. pose proof (Z.div_mod n 2 ltac:(done)) as Hd.
  pose proof (Z.mod_pos_bound n 2 ltac:(done)) as Hm.
  assert (Hc : forall t, (if negb (n mod 2 =? 0) then t ++ s else t) ++ copies (n / 2) (s ++ s) = t ++ copies n s).
  { intros t. rewrite copies_double by lia. destruct (Z.eqb_spec (n mod 2) 0); cbn [negb].
    - do 2 f_equal. lia.
    - rewrite <- app_assoc, <- copies_S by lia. do 2 f_equal. lia. }
  destruct (Z.eqb_spec (n / 2) 0) as [E|E]; cbn [negb].
  - rewrite <- Hc, E. by rewrite app_nil_r.
  - rewrite IH by lia. apply Hc.
Qed.

(** [baseRepeat] by repeated squaring. *)
Lemma baseRepeat_copies s n : n <= MAX_SAFE_INTEGER -> baseRepeat s n = copies n s.
Proof.
  intros Hn. assert (HM : MAX_SAFE_INTEGER < 2 ^ 53) by done. unfold baseRepeat.
  destruct (Z.ltb_spec MAX_SAFE_INTEGER n); [lia|]. rewrite orb_false_r.
  destruct s as [|c s].
  { change (len (@nil Z) =? 0) with true. cbn [orb]. unfold copies. by induction (Z.to_nat n). }
  assert ((len (c :: s) =? 0) = false) as -> by done. cbn [orb].
  destruct (Z.ltb_spec n 1); [unfold copies; by replace (Z.to_nat n) with O by lia|].
  by rewrite repeat_loop_copies by lia.
Qed.

(** The characters over and over, cut to a length. *)
Definition filling (n : Z) (chars : jstring) : jstring := take (Z.to_nat n) (copies n chars).

Lemma filling_length n chars : 0 <= n -> chars <> [] -> len (filling n chars) = n.
Proof.
  intros Hn Hc. assert (1 <= len chars) by (destruct chars; [done|rewrite length_cons; lia]).
  unfold filling. rewrite length_take. pose proof (copies_length n chars Hn). nia.
Qed.

Lemma take_copies n k chars : 0 <= n -> n <= k * len chars -> 0 <= k <= n -> take (Z.to_nat n) (copies k chars) = filling n chars.
Proof.
  intros Hn Hk Hkn. unfold filling. replace (copies n chars) with (copies k chars ++ copies (n - k) chars).
  - rewrite take_app_le; [done|]. pose proof (copies_length k chars ltac:(lia)). lia.
  - unfold copies. rewrite <- concat_app, <- replicate_add. do 2 f_equal. lia.
Qed.

Section padding.
Context `{JsHost}.

Lemma createPadding_filling n c :
  let chars := if is_undefined c then str " " else baseToString c in
  0 <= n <= MAX_SAFE_INTEGER -> chars <> [] -> test reHasComplexSymbol chars = false ->
  createPadding n c = Ok (filling n chars).
Proof.
  intros chars Hn Hc Ht. unfold createPadding. fold chars.
  assert (Hl : 1 <= len chars) by (destruct chars; [done|rewrite length_cons; lia]).
  destruct (Z.ltb_spec (len chars) 2).
  - assert ((len chars =? 0) = false) as -> by lia. cbn [negb]. rewrite baseRepeat_copies by lia. f_equal.
    unfold filling. rewrite take_ge; [done|]. pose proof (copies_length n chars ltac:(lia)). nia.
  - rewrite Ht. unfold stringSize. rewrite Ht, andb_false_r. cbn [negb].
    set (k := - (- n / len chars)). assert (Hk : n <= k * len chars /\ 0 <= k <= n) by (unfold k; zdmn).
    rewrite baseRepeat_copies by lia. f_equal. unfold string_slice. change (default ?a (Some n)) with n.
    destruct (Z.ltb_spec 0 0), (Z.ltb_spec n 0); try lia. pose proof (copies_length k chars ltac:(lia)).
    rewrite (Z.min_l 0) by lia. rewrite Z.min_l, Z.sub_0_r, drop_0 by lia. apply take_copies; lia.
Qed.

(** For strings without surrogates, joiners or combining marks, [padEnd] and
    [padStart] fill up to the given length with the characters over and over, [pad]
    puts half of it, rounded down, before the string, and nothing is added to a string
    that is long enough. *)
Theorem pad_correct (v n c : value) :
  let s := toString v in
  let chars := if is_undefined c then str " " else baseToString c in
  let gap := Z.max 0 (int n - len s) in
  0 <= int n <= MAX_SAFE_INTEGER -> chars <> [] ->
  test reHasComplexSymbol s = false -> test reHasComplexSymbol chars = false ->
  padEnd v n c = Ok (s ++ filling gap chars) /\
  padStart v n c = Ok (filling gap chars ++ s) /\
  pad v n c = Ok (filling (gap / 2) chars ++ s ++ filling (gap - gap / 2) chars) /\
  len (filling gap chars) = gap.
Proof.
  intros s chars gap Hn Hc Hs Ht. unfold padEnd, padStart, pad. fold s.
  assert (Hsize : stringSize s = len s) by (unfold stringSize; by rewrite Hs, andb_false_r). rewrite Hsize.
  assert (Hp : forall k, 0 <= k <= MAX_SAFE_INTEGER -> createPadding k c = Ok (filling k chars))
    by (intros; by apply createPadding_filling).
  destruct (Z.eqb_spec (int n) 0) as [E|E]; cbn [negb andb orb].
  - replace gap with 0 by lia. change (filling 0 chars) with (@nil Z). split_and!; cbn [app]; by rewrite ?app_nil_r.
  - destruct (Z.ltb_spec (len s) (int n)), (Z.leb_spec (int n) (len s)); try lia.
    + replace gap with (int n - len s) by lia. rewrite !Hp by zdm. cbn [mbind result_bind].
      split_and!; try done; [|by apply filling_length; [lia|]]. do 4 f_equal. zdm.
    + replace gap with 0 by lia. change (filling 0 chars) with (@nil Z). split_and!; cbn [app]; by rewrite ?app_nil_r.
Qed.
End padding.

Lemma pad_correct_witness :
  pad (H := plain_host) (String (str "abc")) (Number (num 8)) (String (str "_-")) = Ok (str "_-abc_-_") /\
  padEnd (H := plain_host) (String (str "abc")) (Number (num 6)) Undefined = Ok (str "abc   ").
Proof.
  split.
  - destruct (pad_correct (H := plain_host) (String (str "abc")) (Number (num 8)) (String (str "_-"))) as (_ & _ & -> & _);
      [vm_compute; split; discriminate|discriminate|reflexivity|reflexivity|reflexivity].
  - destruct (pad_correct (H := plain_host) (String (str "abc")) (Number (num 6)) Undefined) as (-> & _);
      [vm_compute; split; discriminate|discriminate|reflexivity|reflexivity|reflexivity].
Defined.

(** A padding character outside the basic plane makes [pad] throw when one side needs
    no padding: the symbols of the empty string are [null]. A separator such as [\s*$] that
    matches the empty string makes [truncate] loop for ever. *)
Theorem pad_throws_truncate_loops :
  pad (H := plain_host) (String (str "a")) (Number (num 2)) (String [0xd83d; 0xde00]) = Throw TypeError /\
  truncate (H := plain_host) (String (str "aaaaaaaaaa"))
    (Some {| opt_length := Some (Number (num 5)); opt_omission := None; opt_separator := SepRegExp (RSeq (RStar (RIn space_ranges)) REnd) |})
    = None.
Proof. split; vm_compute; reflexivity. Qed.

(** ** Splitting *)

(** [array.join(separator)] of an array of strings. *)
Fixpoint join_with (sep : jstring) (l : list jstring) : jstring :=
  match l with
  | [] => []
  | [s] => s
  | s :: l => s ++ sep ++ join_with sep l
  end.

Lemma join_with_nil l : join_with [] l = concat l.
Proof. induction l as [|s [|t l] IH]; cbn in *; [done|by rewrite app_nil_r|by rewrite IH]. Qed.

Lemma is_prefix_app p s : is_prefix p s = true -> s = p ++ drop (length p) s.
Proof.
  revert s. induction p as [|c p IH]; intros [|d s]; cbn; try done.
  intros [->%Z.eqb_eq Hp]%andb_true_iff. by rewrite <- IH.
Qed.

Lemma split_on_cons fuel sep s cur : exists t l, split_on fuel sep s cur = t :: l.
Proof.
  revert s cur. induction fuel as [|fuel IH]; intros [|c s] cur; cbn [split_on]; eauto.
  destruct (is_prefix sep (c :: s)); eauto.
Qed.

Lemma split_on_join fuel sep s cur :
  (length s <= fuel)%nat -> sep <> [] ->
  join_with sep (split_on fuel sep s cur) = cur ++ s /\ (length (split_on fuel sep s cur) <= length s + 1)%nat.
Proof.
  intros Hf Hsep. revert s cur Hf. induction fuel as [|fuel IH]; intros s cur Hf; [cbn; split; [done|lia]|].
  destruct s as [|c s]; cbn [split_on]; [cbn; by rewrite app_nil_r|]. destruct (is_prefix sep (c :: s)) eqn:E.
  - assert (Hd : (length (drop (length sep) (c :: s)) < length (c :: s))%nat).
    { rewrite length_drop. destruct sep; [done|cbn; lia]. }
    destruct (IH (drop (length sep) (c :: s)) [] ltac:(lia)) as [Hj Hl].
    destruct (split_on_cons fuel sep (drop (length sep) (c :: s)) []) as (t & l & Ht). rewrite Ht in *.
    split; [|cbn [length] in *; lia]. change (join_with sep (cur :: t :: l)) with (cur ++ sep ++ join_with sep (t :: l)).
    rewrite Hj. cbn [app]. by rewrite <- is_prefix_app.
  - destruct (IH s (cur ++ [c])) as [-> Hl]; [cbn in Hf; lia|]. cbn [length]. by rewrite <- app_assoc; split; [|lia].
Qed.

Lemma native_split_join s sep : len s < MAX_ARRAY_LENGTH -> join_with sep (native_split s (Some sep) MAX_ARRAY_LENGTH) = s.
Proof.
  intros Hs. unfold native_split. destruct sep as [|c sep].
  - rewrite take_ge by (rewrite length_map; lia). rewrite join_with_nil.
    clear Hs. induction s as [|d s IH]; [done|]. cbn. by rewrite IH.
  - destruct (split_on_join (length s) (c :: sep) s []) as [Hj Hl]; [done..|].
    by rewrite take_ge by lia.
Qed.

(** Joining what [split] gives with the separator gives the string back, for every
    separator, the empty one included, where a string with symbols beyond single units is
    split into its symbols. *)
Theorem split_join `{JsHost} (v : value) (sep : jstring) :
  len (toString v) < MAX_ARRAY_LENGTH ->
  exists l, split v (String sep) Undefined false = Ok l /\ join_with sep l = toString v.
Proof.
  intros Hs. unfold split. cbn [truthy andb is_undefined is_nil].
  change (MAX_ARRAY_LENGTH =? 0) with false. cbn [negb]. rewrite andb_true_r.
  change (baseToString (String sep)) with sep. destruct (negb (len (toString v) =? 0)) eqn:E0; cbn [andb].
  - destruct (bool_decide (String sep = String []) && test reHasComplexSymbol (toString v)) eqn:E.
    + apply andb_true_iff in E as [[= ->]%bool_decide_eq_true _].
      assert (Hne : toString v <> []) by (by intros Hn; rewrite Hn in E0).
      rewrite stringToArray_symbols by done. cbn [not_null mbind result_bind].
      destruct (symbols_make (toString v)) as (Hc & Hl & _).
      eexists. split; [reflexivity|]. rewrite join_with_nil. unfold castSlice.
      change (default ?a (Some ?e)) with e. rewrite length_map.
      destruct (Z.leb_spec (len (symbols (toString v))) MAX_ARRAY_LENGTH); [|lia]. cbn [Z.eqb andb].
      rewrite List.map_map. unfold join_empty. cbn [List.map concat]. rewrite <- Hc at 2. f_equal.
      rewrite <- (List.map_id (symbols (toString v))) at 2. apply List.map_ext. intros. by rewrite app_nil_r.
    + eexists. split; [reflexivity|]. by apply native_split_join.
  - eexists. split; [reflexivity|]. by apply native_split_join.
Qed.

Lemma split_join_witness :
  exists l, split (H := plain_host) (String (str "a-b-c")) (String (str "-")) Undefined false = Ok l /\
            join_with (str "-") l = str "a-b-c".
Proof. apply (split_join (H := plain_host) (String (str "a-b-c")) (str "-")). vm_compute. reflexivity. Defined.

(** ** Truncating *)

Lemma exec_from_app r total s before m rest :
  exec_from r total s = Some (before, m, rest) -> s = before ++ m ++ rest /\ (min_len r <= length m)%nat.
Proof.
  revert before. induction s as [|c s IH]; intros before; cbn [exec_from];
    (destruct (match_here r total _) as [[m' rest']|] eqn:E; [intros [= <- <- <-]; by apply match_here_app in E|]); [done|].
  destruct (exec_from r total s) as [[[b' m'] rest']|]; [|done]. intros [= <- -> ->].
  destruct (IH b' eq_refl) as [-> Hm]. done.
Qed.

(** The loop over the matches ends when no match is empty. *)
Lemma last_match_ends r total s i newEnd :
  (1 <= min_len r)%nat -> 0 <= i -> 0 <= default 0 newEnd -> forall fuel, (length s < fuel)%nat ->
  exists e, last_match fuel r total s i newEnd = Some e /\ 0 <= default 0 e.
Proof.
  intros Hr Hi Hn fuel. revert s i newEnd Hi Hn. induction fuel as [|fuel IH]; intros s i newEnd Hi Hn Hf; [lia|].
  cbn [last_match]. destruct (exec_from r total s) as [[[b m] rest]|] eqn:E; [|by exists newEnd].
  apply exec_from_app in E as [-> Hm]. destruct m as [|c m]; [cbn in Hm; lia|].
  rewrite !length_app in Hf. cbn [length] in Hf. apply IH; cbn; lia.
Qed.

Lemma string_slice_prefix s e : 0 <= e -> string_slice s 0 (Some e) = take (Z.to_nat e) s.
Proof.
  intros He. unfold string_slice. change (default ?a (Some e)) with e.
  destruct (Z.ltb_spec 0 0), (Z.ltb_spec e 0); try lia. rewrite (Z.min_l 0), Z.sub_0_r, drop_0 by lia.
  destruct (Z.le_ge_cases e (len s)); [by rewrite Z.min_l by lia|]. rewrite !take_ge; [done|lia|lia].
Qed.

(** [truncate] returns for every separator that is absent, a string, or a regular
    expression with no empty match. A plain string that fits is returned as it is; a longer
    one gives a prefix of it followed by the omission, no longer than the given length, or
    the omission alone. *)
Theorem truncate_bound `{JsHost} (v : value) (o : truncate_options) :
  let s := toString v in
  let length := match opt_length o with Some l => int l | None => DEFAULT_TRUNC_LENGTH end in
  let omission := match opt_omission o with Some w => baseToString w | None => DEFAULT_TRUNC_OMISSION end in
  test reHasComplexSymbol s = false -> test reHasComplexSymbol omission = false ->
  match opt_separator o with SepRegExp r => (1 <= min_len r)%nat | _ => True end ->
  exists r, truncate v (Some o) = Some (Ok r) /\
    if len s <=? length then r = s
    else exists k, r = take k s ++ omission /\ (r = omission \/ len r <= length).
Proof.
  intros s length omission Hs Ho Hsep. destruct o as [l w sep]. unfold truncate. cbn [opt_length opt_omission opt_separator] in *.
  fold s length omission. rewrite Hs. cbn [mjoin option_join].
  destruct (Z.leb_spec (len s) length); [by eexists|].
  assert (Hsize : stringSize omission = len omission) by (unfold stringSize; by rewrite Ho, andb_false_r). rewrite Hsize.
  destruct (Z.ltb_spec (length - len omission) 1); [exists omission; split; [done|]; exists O; cbn; auto|].
  set (e := length - len omission) in *. rewrite string_slice_prefix by lia.
  assert (Hcut : forall t, 0 <= t -> exists r, Some (Ok (E := exn) (string_slice (take (Z.to_nat e) s) 0 (Some t) ++ omission)) = Some (Ok r) /\
    exists k, r = take k s ++ omission /\ (r = omission \/ len r <= length)).
  { intros t Ht. rewrite string_slice_prefix by done. eexists. split; [reflexivity|].
    exists (Nat.min (Z.to_nat t) (Z.to_nat e)). rewrite take_take. split; [done|]. right.
    rewrite length_app, length_take. lia. }
  assert (Hwhole : exists r, Some (Ok (E := exn) (take (Z.to_nat e) s ++ omission)) = Some (Ok r) /\
    exists k, r = take k s ++ omission /\ (r = omission \/ len r <= length)).
  { eexists. split; [reflexivity|]. exists (Z.to_nat e). split; [done|]. right. rewrite length_app, length_take. lia. }
  destruct sep as [|sep|r]; [done|..].
  - destruct (negb _); [|done]. destruct (Z.ltb_spec (-1) (last_index_of (take (Z.to_nat e) s) sep)); [|done].
    apply Hcut. lia.
  - destruct (negb _); [|done].
    destruct (last_match_ends r (List.length (take (Z.to_nat e) s)) (take (Z.to_nat e) s) 0 None Hsep
      ltac:(lia) ltac:(cbn; lia) (S (List.length (take (Z.to_nat e) s))) ltac:(lia)) as (x & -> & Hx).
    cbn [mbind option_bind]. apply Hcut. destruct x; cbn in *; lia.
Qed.

Lemma truncate_bound_witness :
  exists r, truncate (H := plain_host) (String (str "hi-diddly-ho there, neighborino"))
    (Some {| opt_length := Some (Number (num 24)); opt_omission := None; opt_separator := SepRegExp (RPlus (RIn space_ranges)) |}) = Some (Ok r).
Proof.
  destruct (truncate_bound (H := plain_host) (String (str "hi-diddly-ho there, neighborino"))
    {| opt_length := Some (Number (num 24)); opt_omission := None; opt_separator := SepRegExp (RPlus (RIn space_ranges)) |})
    as (r & Hr & _); [reflexivity|reflexivity|cbn; lia|]. by exists r.
Defined.
