(* ===== verification/LodashPaths.v ===== *)
(** * lodash.js: property paths as strings

    [stringToPath] of [immer/extra/js/lib/lodash.js] and the expressions it matches with.
    A path is names that dots separate, numbers in brackets, and quoted strings in brackets
    with a backslash before what would end them.

    Shown here: every path that is written out like this is read back, whatever the quoted
    strings are. *)

From S2P Require Import Prelude Js JsRegExp JsCaptures LodashLang.

Open Scope cregex_scope.

(** ** The expressions *)

Definition word_ranges : ranges := [(48, 57); (65, 90); (95, 95); (97, 122)].
Definition delimiters : ranges := [(46, 46); (91, 91); (93, 93)].
Definition quotes : ranges := [(34, 34); (39, 39)].

(** What is between the quotes of group [n]: units that are neither the quote nor a backslash,
    and a backslash with any unit of the line. *)
Definition quoted_unit (n : nat) : cregex := (CAhead false (CBack n) ⋅ CUnit true [(92, 92)]) ∣ (CChar 92 ⋅ CDot).

(** A dot; or brackets around anything but brackets, or around a quoted string. *)
Definition reIsDeepProp : cregex :=
  CChar 46 ∣
  (CChar 91 ⋅ (CStar true (CUnit true [(91, 91); (93, 93)]) ∣ (CGroup 1 (CUnit false quotes) ⋅ CStar false (quoted_unit 1) ⋅ CBack 1)) ⋅ CChar 93).

(** Word units only. *)
Definition reIsPlainProp : cregex := CBegin ⋅ CStar true (CUnit false word_ranges) ⋅ CEnd.

(** A dot at the start. *)
Definition reLeadingDot : cregex := CBegin ⋅ CChar 46.

Definition digit : cregex := CUnit false [(48, 57)].
Definition dot_or_brackets : cregex := CChar 46 ∣ (CChar 91 ⋅ CChar 93).

(** A run of units that are no delimiters; brackets around a number, group 1, or around a
    quoted string, groups 2 and 3; or the empty string before two delimiters, or one and the
    end. *)
Definition bracketed : cregex :=
  CGroup 1 (COpt (CChar 45) ⋅ CPlus digit ⋅ COpt (CChar 46 ⋅ CPlus digit)) ∣
  (CGroup 2 (CUnit false quotes) ⋅ CGroup 3 (CStar false (quoted_unit 2)) ⋅ CBack 2).
Definition rePropName : cregex :=
  CPlus (CUnit true delimiters) ∣ (CChar 91 ⋅ bracketed ⋅ CChar 93) ∣ CAhead true (dot_or_brackets ⋅ (dot_or_brackets ∣ CEnd)).

(** A backslash, and one more, group 1, if there is one. *)
Definition reEscapeChar : cregex := CChar 92 ⋅ COpt (CGroup 1 (CChar 92)).

(** ** [stringToPath] *)

Section paths.
Context `{JsHost}.

Definition unescape_quoted (s : jstring) : jstring := creplace_all reEscapeChar (fun _ cs => default [] (cs !! 1%nat)) s.

(** The key of a match: [quote ? string.replace(reEscapeChar, '$1') : (number || match)]. *)
Definition match_key (m : jstring * captures) : jstring :=
  let '(match_, cs) := m in
  let number := default [] (cs !! 1%nat) in
  let quote := default [] (cs !! 2%nat) in
  let string := default [] (cs !! 3%nat) in
  if negb (bool_decide (quote = [])) then unescape_quoted string
  else if negb (bool_decide (number = [])) then number else match_.

(** The function that [memoize] is given; its results are never changed. *)
Definition stringToPath (string : value) : list value :=
  let string := toString string in
  (if ctest reLeadingDot string then [String []] else []) ++ (String <$> (match_key <$> cmatch_all rePropName string)).
End paths.

(** ** Paths written out *)

Inductive segment :=
| SName (s : jstring)
| SIndex (digits : jstring)
| SQuoted (q : Z) (s : jstring).

Definition segment_key (x : segment) : jstring := match x with SName s => s | SIndex d => d | SQuoted _ s => s end.

Definition escape_quoted (q : Z) (s : jstring) : jstring := flat_map (fun c => if (c =? q) || (c =? 92) then [92; c] else [c]) s.

Definition print_segment (first : bool) (x : segment) : jstring :=
  match x with
  | SName s => (if first then [] else [46]) ++ s
  | SIndex d => 91 :: d ++ [93]
  | SQuoted q s => 91 :: q :: escape_quoted q s ++ [q; 93]
  end.
Definition print_path (xs : list segment) : jstring :=
  match xs with
  | [] => []
  | x :: xs => print_segment true x ++ flat_map (print_segment false) xs
  end.

Definition segment_ok (x : segment) : Prop :=
  match x with
  | SName s => s <> [] /\ Forall (fun c => in_ranges delimiters c = false) s
  | SIndex d => d <> [] /\ Forall (fun c => is_digit c = true) d
  | SQuoted q _ => q = 34 \/ q = 39
  end.

(** What follows a segment: the end, a dot and a name, or a bracket. *)
Definition follows (rest : jstring) : Prop := match rest with [] => True | c :: _ => in_ranges delimiters c = true end.

(** ** Reading them back *)

Lemma match_name total c m rest :
  Forall (fun c => in_ranges delimiters c = false) (c :: m) -> follows rest ->
  cmatch_here rePropName total ((c :: m) ++ rest) = Some (c :: m, ∅, rest).
Proof.
  intros Hm Hrest. apply cmatch_here_intro. unfold rePropName. cbn [cmatches app].
  by rewrite (plus_class true delimiters total c m rest ∅ finish (rest, ∅)).
Qed.

Abbreviation close total := (fun (s : jstring) (cs : captures) => cmatches (CChar 93) total s cs finish).

Lemma match_bracket total s rest x cs :
  91 :: s = x ++ rest -> cmatches bracketed total s ∅ (close total) = Some (rest, cs) ->
  cmatch_here rePropName total (91 :: s) = Some (x, cs, rest).
Proof.
  intros Ex E. rewrite Ex. apply cmatch_here_intro. rewrite <- Ex. unfold rePropName. cbn [cmatches].
  assert (cmatches (CPlus (CUnit true delimiters)) total (91 :: s) ∅ finish = None) as -> by done.
  change (cmatches (CChar 91) total (91 :: s) ∅ ?k) with (k s ∅). cbv beta. by rewrite E.
Qed.

Lemma digit_class c : is_digit c = true -> in_ranges [(48, 57)] c = true /\ (c =? 45) = false.
Proof. unfold is_digit. cbn. lia. Qed.

Lemma match_index total c d rest :
  Forall (fun c => is_digit c = true) (c :: d) ->
  cmatch_here rePropName total ((91 :: (c :: d) ++ [93]) ++ rest) = Some (91 :: (c :: d) ++ [93], {[1%nat := c :: d]}, rest).
Proof.
  intros Hd. cbn [app]. rewrite <- app_assoc. apply match_bracket; [cbn; by rewrite <- app_assoc|]. unfold bracketed.
  assert (Hdigits : Forall (fun c => in_ranges [(48, 57)] c = true) (c :: d))
    by (eapply Forall_impl; [exact Hd|]; intros u Hu; by apply digit_class).
  assert (Hc : in_ranges [(45, 45)] c = false) by (apply Forall_cons in Hd as [Hc _]; revert Hc; unfold is_digit; cbn; lia).
  cbn [cmatches]. unfold CChar at 1. cbn [cmatches]. rewrite Hc. cbn [eqb].
  erewrite (plus_class false [(48, 57)] total c d ([93] ++ rest)); [reflexivity|done|done|].
  change (cmatches (CChar 46) total ([93] ++ rest) ?cs ?k) with (@None state). cbv beta iota.
  change (cmatches (CChar 93) total ([93] ++ rest) ?cs finish) with (Some (rest, cs)). do 2 f_equal.
  rewrite insert_empty. f_equal.
  replace (length (c :: d ++ [93%Z] ++ rest) - length ([93%Z] ++ rest))%nat with (length (c :: d)) by (cbn; rewrite length_app; cbn; lia).
  apply (take_app_length (c :: d)).
Qed.

(** Quoted strings. *)
Lemma escape_quoted_cons q c s : escape_quoted q (c :: s) = (if (c =? q) || (c =? 92) then [92; c] else [c]) ++ escape_quoted q s.
Proof. done. Qed.

Lemma escape_quoted_length q s : (length s <= length (escape_quoted q s))%nat.
Proof. induction s as [|c s IH]; [done|]. rewrite escape_quoted_cons, length_app. destruct ((c =? q) || (c =? 92)); cbn; lia. Qed.

(** A quoted unit as it was written. *)
Lemma match_quoted_unit q total c t cs k x :
  q = 34 \/ q = 39 -> cs !! 2%nat = Some [q] -> k t cs = Some x ->
  cmatches (quoted_unit 2) total ((if (c =? q) || (c =? 92) then [92; c] else [c]) ++ t) cs k = Some x.
Proof.
  intros Hq Hcs Hk. unfold quoted_unit. cbn [cmatches]. rewrite Hcs. change (default [] (Some [q])) with [q].
  destruct ((c =? q) || (c =? 92)) eqn:E; cbn [app strip].
  - assert ((q =? 92) = false) as -> by (destruct Hq; subst; done). cbn [in_ranges existsb].
    assert (in_ranges [(10, 10); (13, 13); (0x2028, 0x2029)] c = false) as Hdot.
    { apply orb_true_iff in E as [->%Z.eqb_eq| ->%Z.eqb_eq]; [|done]. by destruct Hq; subst. }
    cbn -[in_ranges]. rewrite Hdot. cbn. by rewrite Hk.
  - apply orb_false_iff in E as [E1 E2]. assert ((q =? c) = false) as -> by lia. cbn [in_ranges existsb].
    assert ((92 <=? c) && (c <=? 92) || false = false) as -> by lia. cbn. by rewrite Hk.
Qed.

Lemma match_quoted_units q total s rest cs k x :
  q = 34 \/ q = 39 -> cs !! 2%nat = Some [q] ->
  (forall t c, c <> q -> k (c :: t) cs = None) -> k (q :: rest) cs = Some x ->
  cmatches (CStar false (quoted_unit 2)) total (escape_quoted q s ++ q :: rest) cs k = Some x.
Proof.
  intros Hq Hcs Hstop Hk. cbn [cmatches]. change (groups (quoted_unit 2)) with (@nil nat).
  assert (Hf : (length s <= length (escape_quoted q s ++ q :: rest))%nat) by (pose proof (escape_quoted_length q s); rewrite length_app; lia).
  revert Hf. generalize (length (escape_quoted q s ++ q :: rest)) as fuel.
  induction s as [|c s IH]; intros fuel Hf.
  { cbn [escape_quoted flat_map app]. destruct fuel; [done|]. cbn [star_loop]. by rewrite Hk. }
  destruct fuel as [|fuel]; [cbn in Hf; lia|]. rewrite escape_quoted_cons, <- app_assoc.
  apply lazy_more; cbn [unset_groups foldr].
  - destruct ((c =? q) || (c =? 92)) eqn:E; cbn [app]; apply Hstop; [destruct Hq; lia|lia].
  - by destruct ((c =? q) || (c =? 92)).
  - intros k' Hk'. by apply match_quoted_unit.
  - apply IH. cbn in Hf. lia.
Qed.

Lemma match_quoted q total s rest :
  q = 34 \/ q = 39 ->
  cmatch_here rePropName total ((91 :: q :: escape_quoted q s ++ [q; 93]) ++ rest) =
  Some (91 :: q :: escape_quoted q s ++ [q; 93], {[3%nat := escape_quoted q s; 2%nat := [q]]}, rest).
Proof.
  intros Hq. cbn [app]. rewrite <- app_assoc. apply match_bracket; [cbn; by rewrite <- app_assoc|]. unfold bracketed.
  change (cmatches (?r ∣ ?r') ?n ?s ?cs ?k) with (match cmatches r n s cs k with Some x => Some x | None => cmatches r' n s cs k end).
  assert (cmatches (CGroup 1 (COpt (CChar 45) ⋅ CPlus digit ⋅ COpt (CChar 46 ⋅ CPlus digit))) total
    (q :: escape_quoted q s ++ [q; 93] ++ rest) ∅ (close total) = None) as -> by (by destruct Hq; subst).
  change (cmatches (CGroup 2 (CUnit false quotes) ⋅ ?g ⋅ CBack 2) total (q :: ?t) ∅ ?k) with
    (if Bool.eqb (in_ranges quotes q) false then None
     else cmatches g total t {[2%nat := take (length (q :: t) - length t) (q :: t)]} (fun s cs => cmatches (CBack 2) total s cs k)).
  assert (in_ranges quotes q = true) as -> by (by destruct Hq; subst). cbn [eqb].
  set (t := escape_quoted q s ++ [q; 93] ++ rest).
  replace (length (q :: t) - length t)%nat with 1%nat by (cbn; lia). change (take 1 (q :: t)) with [q].
  change (cmatches (CGroup 3 ?r) total t ?cs ?k) with (cmatches r total t cs (fun s' cs' => k s' (<[3%nat := take (length t - length s') t]> cs'))).
  apply (match_quoted_units q total s (93 :: rest)); [done|apply lookup_singleton_eq| |].
  - intros u c Hc. cbn [cmatches]. rewrite lookup_insert_ne, lookup_singleton_eq by done. change (default [] (Some [q])) with [q]. cbn [strip].
    assert ((q =? c) = false) as -> by lia. done.
  - cbn [cmatches]. rewrite lookup_insert_ne, lookup_singleton_eq by done. change (default [] (Some [q])) with [q]. cbn [strip].
    rewrite Z.eqb_refl. change (cmatches (CChar 93) total (93 :: rest) ?cs finish) with (Some (rest, cs)). do 4 f_equal.
    replace (length t - length (q :: 93%Z :: rest))%nat with (length (escape_quoted q s)) by (unfold t; rewrite length_app; cbn; lia).
    apply take_app_length.
Qed.

(** A dot before a name is skipped. *)
Lemma skip_dot total c s : in_ranges delimiters c = false -> cmatch_here rePropName total (46 :: c :: s) = None.
Proof.
  intros Hc. unfold cmatch_here. assert (cmatches rePropName total (46 :: c :: s) ∅ finish = None) as ->; [|done].
  cbn in Hc |- *. assert ((46 <=? c) && (c <=? 46) || false = false) as -> by lia. assert ((91 <=? c) && (c <=? 91) || false = false) as -> by lia. done.
Qed.

(** *** Escapes *)

Lemma unescape_pieces q s total fuel :
  q = 34 \/ q = 39 -> (length (escape_quoted q s) < fuel)%nat ->
  concat (List.map (fun p => match p with inl c => [c] | inr (m, cs) => default [] (cs !! 1%nat) end)
    (cpieces reEscapeChar total fuel (escape_quoted q s))) = s.
Proof.
  intros Hq. revert fuel. induction s as [|c s IH]; intros fuel Hf; [by destruct fuel|]. rewrite escape_quoted_cons in *.
  destruct (Z.eqb_spec c 92) as [->|H92].
  - rewrite orb_true_r in *. change [92; 92] with ([92] ++ [92]) in *.
    destruct fuel as [|fuel]; [lia|]. rewrite (cpieces_match _ _ _ [92; 92] {[1%nat := [92]]}); [|done|].
    2: { apply cmatch_here_intro. cbn. destruct (Nat.eqb_spec (length (escape_quoted q s)) (S (length (escape_quoted q s)))); [lia|].
         unfold finish. replace (S (length (escape_quoted q s)) - length (escape_quoted q s))%nat with 1%nat by lia. done. }
    cbn [List.map concat]. rewrite lookup_singleton_eq. cbn [default app]. f_equal. apply IH. cbn in Hf. lia.
  - rewrite orb_false_r in *. destruct (Z.eqb_spec c q) as [->|Hcq]; cbn [app length] in *.
    + destruct fuel as [|[|fuel]]; [lia..|]. rewrite (cpieces_match _ _ _ [92] ∅ (q :: escape_quoted q s)); [|done|].
      2: { apply cmatch_here_intro. cbn. assert ((92 <=? q) && (q <=? 92) || false = false) as -> by lia. done. }
      rewrite cpieces_skip; [|unfold cmatch_here; cbn; by assert ((92 <=? q) && (q <=? 92) || false = false) as -> by lia].
      cbn [List.map concat]. rewrite lookup_empty. cbn [default app]. f_equal. apply IH. lia.
    + destruct fuel as [|fuel]; [lia|].
      rewrite cpieces_skip; [|unfold cmatch_here; cbn; by assert ((92 <=? c) && (c <=? 92) || false = false) as -> by lia].
      cbn [List.map concat app]. f_equal. apply IH. lia.
Qed.

Lemma unescape_quoted_escape q s : q = 34 \/ q = 39 -> unescape_quoted (escape_quoted q s) = s.
Proof. intros Hq. unfold unescape_quoted, creplace_all. apply unescape_pieces; [done|lia]. Qed.

(** *** Paths *)

Abbreviation found := (omap (fun p => match p with inl _ => None | inr m => Some m end)).

Lemma pieces_segment total fuel first x rest :
  segment_ok x -> follows rest -> (length (print_segment first x ++ rest) < fuel)%nat ->
  exists m fuel', (length rest < fuel')%nat /\ match_key m = segment_key x /\
    found (cpieces rePropName total fuel (print_segment first x ++ rest)) = m :: found (cpieces rePropName total fuel' rest).
Proof.
  destruct x as [s|d|q s]; cbn [segment_ok print_segment segment_key]; intros Hx Hrest Hf.
  - destruct Hx as [Hne Hs]. destruct s as [|c s]; [done|]. pose proof Hs as [Hc _]%Forall_cons.
    assert (Hname : forall fuel, (length ((c :: s) ++ rest) < fuel)%nat -> exists m fuel', (length rest < fuel')%nat /\ match_key m = c :: s /\
      found (cpieces rePropName total fuel ((c :: s) ++ rest)) = m :: found (cpieces rePropName total fuel' rest)).
    { intros [|n] Hn; [lia|]. exists (c :: s, ∅), n. rewrite (cpieces_match _ _ _ _ ∅) by (done || by apply match_name).
      split; [rewrite length_app in Hn; cbn in Hn; lia|done]. }
    destruct first; [by apply Hname|]. destruct fuel as [|fuel]; [lia|]. cbn [app] in *. rewrite cpieces_skip by (by apply skip_dot).
    apply Hname. cbn in Hf |- *. lia.
  - destruct Hx as [Hne Hd]. destruct d as [|c d]; [done|]. destruct fuel as [|fuel]; [lia|].
    exists (91 :: (c :: d) ++ [93], {[1%nat := c :: d]}), fuel.
    rewrite (cpieces_match _ _ _ _ {[1%nat := c :: d]}) by (done || by apply match_index).
    split; [|done]. rewrite length_app in Hf. cbn in Hf. rewrite length_app in Hf. lia.
  - destruct fuel as [|fuel]; [lia|].
    exists (91 :: q :: escape_quoted q s ++ [q; 93], {[3%nat := escape_quoted q s; 2%nat := [q]]}), fuel.
    rewrite (cpieces_match _ _ _ _ {[3%nat := escape_quoted q s; 2%nat := [q]]}) by (done || by apply match_quoted).
    split; [rewrite length_app in Hf; cbn in Hf; rewrite length_app in Hf; cbn in Hf; lia|]. split; [|done].
    unfold match_key. rewrite lookup_insert_eq, (lookup_insert_ne _ 3%nat 2%nat), lookup_singleton_eq by done. cbn [default]. by apply unescape_quoted_escape.
Qed.

Lemma follows_segments xs : Forall segment_ok xs -> follows (flat_map (print_segment false) xs).
Proof. intros [|x xs' Hx _]; [done|]. by destruct x. Qed.

Lemma pieces_segments total xs fuel :
  Forall segment_ok xs -> (length (flat_map (print_segment false) xs) < fuel)%nat ->
  match_key <$> found (cpieces rePropName total fuel (flat_map (print_segment false) xs)) = segment_key <$> xs.
Proof.
  intros Hxs. revert fuel. induction Hxs as [|x xs Hx Hxs IH]; intros fuel Hf; [by destruct fuel|]. cbn [flat_map] in *.
  destruct (pieces_segment total fuel false x (flat_map (print_segment false) xs) Hx (follows_segments xs Hxs) Hf) as (m & n & Hn & Hm & ->).
  rewrite !fmap_cons, Hm. f_equal. by apply IH.
Qed.

Lemma leading_dot_later total s : (length s < total)%nat -> ctest_from reLeadingDot total s = false.
Proof.
  induction s as [|c s IH]; intros Hl; cbn [ctest_from]; unfold cmatch_here; cbn [cmatches reLeadingDot].
  - by destruct (Nat.eqb_spec (length (@nil Z)) total); [cbn in *; lia|].
  - destruct (Nat.eqb_spec (length (c :: s)) total); [lia|]. apply IH. cbn in Hl. lia.
Qed.

Lemma leading_dot s : ctest reLeadingDot s = match s with c :: _ => c =? 46 | [] => false end.
Proof.
  unfold ctest. destruct s as [|c s]; [done|]. cbn [ctest_from]. unfold cmatch_here. cbn [cmatches reLeadingDot]. rewrite Nat.eqb_refl. cbn.
  destruct (Z.eqb_spec c 46) as [->|Hc]; [done|]. assert ((46 <=? c) && (c <=? 46) || false = false) as -> by lia. cbn.
  apply leading_dot_later. cbn. lia.
Qed.

Lemma stringToPath_print `{JsHost} xs :
  Forall segment_ok xs -> stringToPath (String (print_path xs)) = String <$> (segment_key <$> xs).
Proof.
  intros Hxs. unfold stringToPath. change (toString (String (print_path xs))) with (print_path xs).
  rewrite leading_dot. unfold cmatch_all. destruct Hxs as [|x xs Hx Hxs]; [done|]. cbn [print_path].
  set (rest := flat_map (print_segment false) xs).
  assert (match print_segment true x ++ rest with c :: _ => c =? 46 | [] => false end = false) as ->.
  { destruct x as [[|c s]|d|q s]; try done; [by destruct Hx|]. destruct Hx as [_ [Hc _]%Forall_cons]. cbn in Hc |- *. lia. }
  destruct (pieces_segment (length (print_segment true x ++ rest)) (S (length (print_segment true x ++ rest))) true x rest Hx
    (follows_segments xs Hxs) ltac:(lia)) as (m & n & Hn & Hm & ->).
  cbn [app]. rewrite !fmap_cons, Hm. do 2 f_equal. by apply pieces_segments.
Qed.

(** *** Which strings are paths *)

Lemma star_class_inv negated rs total fuel s cs k x :
  star_loop (cmatches (CUnit negated rs) total) true [] k fuel s cs = Some x ->
  exists m rest, s = m ++ rest /\ Forall (fun c => in_ranges rs c = negb negated) m /\ k rest cs = Some x.
Proof.
  revert s. induction fuel as [|fuel IH]; intros s; cbn [star_loop]; [by exists [], s|].
  destruct s as [|c s]; [by exists [], []|]. cbn [cmatches unset_groups foldr].
  destruct (Bool.eqb (in_ranges rs c) negated) eqn:Ec; [by exists [], (c :: s)|].
  destruct (length s =? length (c :: s))%nat; [by exists [], (c :: s)|].
  destruct (star_loop _ true [] k fuel s cs) as [y|] eqn:E; [|by exists [], (c :: s)].
  intros [= <-]. apply IH in E as (m & rest & -> & Hm & Hk). exists (c :: m), rest. split_and!; [done| |done]. constructor; [|done].
  by destruct (in_ranges rs c), negated.
Qed.

Lemma plain_prop_later total s : (length s < total)%nat -> ctest_from reIsPlainProp total s = false.
Proof.
  induction s as [|c s IH]; intros Hl; cbn [ctest_from]; unfold cmatch_here, reIsPlainProp; cbn [cmatches].
  - by destruct (Nat.eqb_spec (length (@nil Z)) total); [cbn in *; lia|].
  - destruct (Nat.eqb_spec (length (c :: s)) total); [lia|]. apply IH. cbn in Hl. lia.
Qed.

(** A plain name is made of word units. *)
Lemma plain_prop s : ctest reIsPlainProp s = true -> Forall (fun c => in_ranges word_ranges c = true) s.
Proof.
  unfold ctest. intros Ht.
  assert (Hm : is_Some (cmatch_here reIsPlainProp (length s) s)).
  { destruct s as [|c s]; cbn [ctest_from] in Ht; [by destruct (cmatch_here _ _ _)|]. destruct (cmatch_here _ _ _); [done|].
    by rewrite plain_prop_later in Ht by (cbn; lia). }
  destruct Hm as [x Hx]. revert Hx. unfold cmatch_here, reIsPlainProp. cbn [cmatches groups]. rewrite Nat.eqb_refl.
  destruct (star_loop _ _ _ _ _ _ _) as [y|] eqn:E; [|done]. intros _. apply (star_class_inv false word_ranges (length s)) in E as (m & rest & -> & Hm & Hk).
  destruct rest; [|done]. by rewrite app_nil_r.
Qed.

(** A string with a dot can be a path. *)
Lemma deep_prop_dot s total : 46 ∈ s -> ctest_from reIsDeepProp total s = true.
Proof.
  induction s as [|c s IH]; [by intros ?%not_elem_of_nil|]. intros [<-|Hin]%elem_of_cons; cbn [ctest_from]; [done|].
  destruct (cmatch_here _ _ _); [done|]. by apply IH.
Qed.

(** C29: What is written as a property path is read back.  Take any keys and write the first
    name as it is and the others after a dot, numbers in brackets, and any string at all
    between quotes in brackets, with a backslash before the quotes and backslashes in it:
    [stringToPath] answers these keys. *)
Theorem stringToPath_reads `{JsHost} xs :
  Forall segment_ok xs -> stringToPath (String (print_path xs)) = String <$> (segment_key <$> xs).
Proof. apply stringToPath_print. Qed.

Lemma stringToPath_reads_witness :
  stringToPath (H := plain_host) (String (str "a[0].b" ++ [91; 34; 92; 34; 46; 93; 92; 92; 34; 93])) =
  [String (str "a"); String (str "0"); String (str "b"); String [34; 46; 93; 92]].
Proof.
  apply (stringToPath_reads (H := plain_host) [SName (str "a"); SIndex (str "0"); SName (str "b"); SQuoted 34 [34; 46; 93; 92]]).
  repeat constructor; done.
Defined.
