(* ===== verification/LodashObjects.v ===== *)
(** * lodash.js: reading and writing properties along a path

    [get], [set], [has], [unset] and the functions around them of
    [immer/extra/js/lib/lodash.js], over a store of objects that share references and inherit
    from prototypes.

    Objects are extensible and their properties are plain data, but for the one accessor
    every program has: [__proto__] of [Object.prototype], which reads and writes the prototype
    of the object it is used on.  Arrays keep their length.  Typed arrays, which convert what
    is written to them, and properties with other accessors are not in the store.

    Shown here: a value that [set] wrote is found by [get], when the walk stays on objects and
    does not come to a property twice; a path through [__proto__] changes the direct
    prototype of the object, and so all objects that share it; [has] answers for every path through a hole of an array; after [unset] no
    chain of own properties leads along the path. *)

From S2P Require Import Prelude Js JsRegExp JsCaptures LodashLang LodashCaches LodashLists LodashPaths.

(** ** The store *)

Inductive slot :=
| Data (v : value)
| ProtoAccessor.

(** The own properties, the prototype, [Null] for none, and the length of an array. *)
Record jobj := { jo_slots : gmap pkey slot; jo_proto : value; jo_length : option Z }.

Record store := { objects : gmap Z jobj; next : Z }.

(** The prototypes the language gives to new objects and arrays and to primitive values. *)
Class Realm := {
  object_proto : Z;
  array_proto : Z;
  string_proto : value;
  number_proto : value;
  boolean_proto : value;
  symbol_proto : value;
}.

Definition length_key : pkey := PString (str "length").
Definition proto_key : pkey := PString (str "__proto__").

(** The key of an element of an array. *)
Definition array_index (key : pkey) : option Z :=
  match key with
  | PString s =>
      if reIsUint s then
        let '(_, n, _) := take_digits 10 s 0 0 in
        if n <? MAX_ARRAY_LENGTH then Some n else None
      else None
  | PSymbol _ => None
  end.

Section objects.
Context `{JsHost} `{Realm}.

(** ** Properties *)

Definition own_slot (s : store) (v : value) (key : pkey) : option slot :=
  match v with
  | Ref _ id =>
      o ← objects s !! id;
      match jo_length o with
      | Some n => if bool_decide (key = length_key) then Some (Data (Number (num n))) else jo_slots o !! key
      | None => jo_slots o !! key
      end
  | String t =>
      if bool_decide (key = length_key) then Some (Data (Number (num (len t))))
      else i ← array_index key; c ← t !! Z.to_nat i; Some (Data (String [c]))
  | _ => None
  end.

Definition proto_of (s : store) (v : value) : value :=
  match v with
  | Ref _ id => from_option jo_proto Null (objects s !! id)
  | String _ => string_proto
  | Number _ => number_proto
  | Boolean _ => boolean_proto
  | Symbol _ => symbol_proto
  | Undefined | Null => Null
  end.

(** Along the prototypes, which do not form a cycle. *)
Fixpoint find_slot (fuel : nat) (s : store) (v : value) (key : pkey) : option slot :=
  match own_slot s v key with
  | Some x => Some x
  | None =>
      match fuel, proto_of s v with
      | S fuel, (Ref _ _ as p) => find_slot fuel s p key
      | _, _ => None
      end
  end.

Definition slot_of (s : store) (v : value) (key : pkey) : option slot := find_slot (Z.to_nat (next s)) s v key.

(** [object[key]] *)
Definition get_property (s : store) (v : value) (key : pkey) : value :=
  match slot_of s v key with
  | Some (Data w) => w
  | Some ProtoAccessor => proto_of s v
  | None => Undefined
  end.

(** [key in Object(object)] and [hasOwnProperty.call(object, key)] *)
Definition has_property (s : store) (v : value) (key : pkey) : bool := match slot_of s v key with Some _ => true | None => false end.
Definition has_own (s : store) (v : value) (key : pkey) : bool := match own_slot s v key with Some _ => true | None => false end.

Definition put_object (s : store) (id : Z) (o : jobj) : store := {| objects := <[id := o]> (objects s); next := next s |}.

(** An own data property; an element past the end of an array makes it longer. *)
Definition define_own (s : store) (id : Z) (o : jobj) (key : pkey) (v : value) : store :=
  put_object s id
    {| jo_slots := <[key := Data v]> (jo_slots o); jo_proto := jo_proto o;
       jo_length := n ← jo_length o; Some match array_index key with Some i => Z.max n (i + 1) | None => n end |}.

(** Writing the length of an array removes the elements past it. *)
Definition set_length (s : store) (id : Z) (o : jobj) (v : value) : result exn store :=
  let n := to_number v in
  if is_integral n && (0 <=? trunc n) && (trunc n <=? MAX_ARRAY_LENGTH) then
    Ok (put_object s id
      {| jo_slots := filter (fun x => from_option (fun i => i <? trunc n) true (array_index x.1) = true) (jo_slots o);
         jo_proto := jo_proto o; jo_length := Some (trunc n) |})
  else Throw RangeError.

(** Does the chain of prototypes from [v] come to the object? *)
Fixpoint inherits (fuel : nat) (s : store) (v : value) (id : Z) : bool :=
  match v with
  | Ref _ i => (i =? id) || match fuel with S fuel => inherits fuel s (proto_of s v) id | O => false end
  | _ => false
  end.

(** The setter of [__proto__]: nothing but an object or [null] is a prototype, a cycle is an
    error, and [Object.prototype] keeps its own. *)
Definition set_proto (s : store) (id : Z) (o : jobj) (v : value) : result exn store :=
  match v with
  | Ref _ _ | Null =>
      if bool_decide (v = jo_proto o) then Ok s
      else if (id =? object_proto) || inherits (Z.to_nat (next s)) s v id then Throw TypeError
      else Ok (put_object s id {| jo_slots := jo_slots o; jo_proto := v; jo_length := jo_length o |})
  | _ => Ok s
  end.

(** [object[key] = v], for an object. *)
Definition set_property (v : value) (key : pkey) (w : value) : eff store unit := fun s =>
  match v with
  | Ref _ id =>
      match objects s !! id with
      | Some o =>
          let r :=
            if bool_decide (is_Some (jo_length o)) && bool_decide (key = length_key) then set_length s id o w
            else match slot_of s v key with
                 | Some ProtoAccessor => set_proto s id o w
                 | _ => Ok (define_own s id o key w)
                 end in
          match r with Ok s => (Ok tt, s) | Throw e => (Throw e, s) end
      | None => (Ok tt, s)
      end
  | _ => (Ok tt, s)
  end.

(** [delete object[key]] *)
Definition delete_property (v : value) (key : pkey) : eff store bool := fun s =>
  match v with
  | Ref _ id =>
      match objects s !! id with
      | Some o =>
          if bool_decide (is_Some (jo_length o)) && bool_decide (key = length_key) then (Ok false, s)
          else (Ok true, put_object s id {| jo_slots := delete key (jo_slots o); jo_proto := jo_proto o; jo_length := jo_length o |})
      | None => (Ok true, s)
      end
  | _ => (Ok (negb (has_own s v key)), s)
  end.

(** [{}] and []. *)
Definition new_object : eff store value := fun s =>
  (Ok (Ref ClsObject (next s)),
   {| objects := <[next s := {| jo_slots := ∅; jo_proto := Ref ClsObject object_proto; jo_length := None |}]> (objects s); next := next s + 1 |}).
Definition new_array : eff store value := fun s =>
  (Ok (Ref ClsArray (next s)),
   {| objects := <[next s := {| jo_slots := ∅; jo_proto := Ref ClsArray array_proto; jo_length := Some 0 |}]> (objects s); next := next s + 1 |}).

(** ** Paths *)

(** A path is an array of keys, which the code does not write to, or another value. *)
Inductive path :=
| PathArray (l : list value)
| PathValue (v : value).

(** The property key that [object[key]] uses. *)
Definition as_key (v : value) : pkey := property_key (to_primitive_with true v).

Definition isKey (p : path) (s : store) (object : value) : bool :=
  match p with
  | PathArray _ => false
  | PathValue v =>
      let type := typeof v in
      bool_decide (type = TNumber) || bool_decide (type = TSymbol) || bool_decide (type = TBoolean) || is_nil v || isSymbol v
      || ctest reIsPlainProp (to_string v) || negb (ctest reIsDeepProp (to_string v))
      || (negb (is_nil object) && has_property s object (as_key v))
  end.

Definition castPath (p : path) : list value := match p with PathArray l => l | PathValue v => stringToPath v end.

(** [isKey(path, object) ? [path] : castPath(path)] *)
Definition keys_of_path (p : path) (s : store) (object : value) : list value :=
  match p with
  | PathValue v => if isKey p s object then [v] else castPath p
  | PathArray _ => castPath p
  end.

(** [while (object != null && index < length)]; whether the end of the path was reached. *)
Fixpoint get_loop (s : store) (object : value) (keys : list value) : value * bool :=
  match keys with
  | [] => (object, true)
  | k :: keys => if is_nil object then (object, false) else get_loop s (get_property s object (as_key (toKey k))) keys
  end.

Definition baseGet (s : store) (object : value) (p : path) : value :=
  let keys := keys_of_path p s object in
  let '(v, reached) := get_loop s object keys in
  if negb (bool_decide (keys = [])) && reached then v else Undefined.

Definition get (s : store) (object : value) (p : path) (defaultValue : value) : value :=
  let result := if is_nil object then Undefined else baseGet s object p in
  if is_undefined result then defaultValue else result.

Definition baseHas (s : store) (object : value) (key : pkey) : bool :=
  negb (is_nil object) &&
  (has_own s object key || (bool_decide (typeof object = TObject) && has_property s object key && strict_eq (proto_of s object) Null)).
Definition baseHasIn (s : store) (object : value) (key : pkey) : bool := negb (is_nil object) && has_property s object key.

(** The loop of [hasPath]: the result, the object it stopped at and the last key. *)
Fixpoint has_loop (hasFunc : store -> value -> pkey -> bool) (s : store) (object : value) (keys : list value) (result : bool) (key : value)
  : bool * value * value :=
  match keys with
  | [] => (result, object, key)
  | k :: keys =>
      let key := toKey k in
      if negb (is_nil object) && hasFunc s object (as_key key)
      then has_loop hasFunc s (get_property s object (as_key key)) keys true key
      else (false, object, key)
  end.

Definition is_arguments (v : value) : bool := has_class ClsArguments v.

Definition hasPath (hasFunc : store -> value -> pkey -> bool) (s : store) (object : value) (p : path) : bool :=
  let '(result, object, key) := has_loop hasFunc s object (keys_of_path p s object) false Undefined in
  if (result : bool) then result else
  let length := if truthy object then get_property s object length_key else Number (num 0) in
  truthy length && isLength length &&
  isIndex key (match length with Number n => Some (trunc n) | _ => None end) && (isArray object || isString object || is_arguments object).

Definition has (s : store) (object : value) (p : path) : bool := negb (is_nil object) && hasPath baseHas s object p.
Definition hasIn (s : store) (object : value) (p : path) : bool := negb (is_nil object) && hasPath baseHasIn s object p.

Definition assignValue (object : value) (key : pkey) (v : value) : eff store unit :=
  s ← get_state;
  let objValue := get_property s object key in
  if negb (has_own s object key && eq objValue v) || (is_undefined v && negb (has_property s object key))
  then set_property object key v else mret tt.

(** What [customizer(objValue, key, nested)] does. *)
Abbreviation customizer_fn := (value -> value -> value -> eff store value).

(** What a step of [baseSet] assigns: the value at the last key; before it, what the customizer
    answers, what is there already, or a new array or object. *)
Definition new_value (customizer : option customizer_fn) (nested key : value) (rest : list value) (v : value) : eff store value :=
  match rest with
  | [] => mret v
  | following :: _ =>
      s ← get_state;
      let objValue := get_property s nested (as_key key) in
      newValue ← match customizer with Some f => f objValue key nested | None => mret Undefined end;
      if is_undefined newValue then
        if is_nil objValue then (if isIndex following None then new_array else new_object) else mret objValue
      else mret newValue
  end.

Definition set_step (customizer : option customizer_fn) (nested key : value) (rest : list value) (v : value) : eff store unit :=
  if isObject nested then
    newValue ← new_value customizer nested key rest v;
    assignValue nested (as_key key) newValue
  else mret tt.

Fixpoint set_loop (customizer : option customizer_fn) (nested : value) (keys : list value) (v : value) : eff store unit :=
  match keys with
  | [] => mret tt
  | k :: keys =>
      if is_nil nested then mret tt else
      let key := toKey k in
      _ ← set_step customizer nested key keys v;
      s ← get_state;
      set_loop customizer (get_property s nested (as_key key)) keys v
  end.

Definition baseSet (object : value) (p : path) (v : value) (customizer : option customizer_fn) : eff store value :=
  s ← get_state;
  _ ← set_loop customizer object (keys_of_path p s object) v;
  mret object.

Definition set (object : value) (p : path) (v : value) : eff store value :=
  if is_nil object then mret object else baseSet object p v None.
Definition setWith (object : value) (p : path) (v : value) (customizer : option customizer_fn) : eff store value :=
  if is_nil object then mret object else baseSet object p v customizer.

Definition parent (s : store) (object : value) (keys : list value) : value :=
  if (length keys =? 1)%nat then object else baseGet s object (PathArray (baseSlice keys 0 (-1) Undefined)).

Definition baseUnset (object : value) (p : path) : eff store bool :=
  s ← get_state;
  let keys := keys_of_path p s object in
  let object := parent s object keys in
  let key := as_key (toKey (_last (Some keys))) in
  if negb (negb (is_nil object) && baseHas s object key) then mret true else delete_property object key.

Definition unset (object : value) (p : path) : eff store bool := if is_nil object then mret true else baseUnset object p.

Definition baseUpdate (object : value) (p : path) (updater : value -> eff store value) (customizer : option customizer_fn) : eff store value :=
  s ← get_state;
  v ← updater (baseGet s object p);
  baseSet object p v customizer.

Definition update (object : value) (p : path) (updater : value -> eff store value) : eff store value :=
  if is_nil object then mret object else baseUpdate object p updater None.
Definition updateWith (object : value) (p : path) (updater : value -> eff store value) (customizer : option customizer_fn) : eff store value :=
  if is_nil object then mret object else baseUpdate object p updater customizer.

Definition baseAt (s : store) (object : value) (paths : list path) : list value :=
  (fun p => if is_nil object then Undefined else get s object p Undefined) <$> paths.

Definition propertyOf (s : store) (object : value) (p : path) : value := if is_nil object then Undefined else baseGet s object p.

(** [property(path)(object)] *)
Definition property (s : store) (p : path) (object : value) : value :=
  match p with
  | PathValue v =>
      if isKey p s Undefined then (if is_nil object then Undefined else get_property s object (as_key (toKey v))) else baseGet s object p
  | PathArray _ => baseGet s object p
  end.

Definition toPath (p : path) : list value :=
  match p with
  | PathArray l => toKey <$> l
  | PathValue v => if isSymbol v then [v] else copyArray (stringToPath v) None
  end.

(** [func.apply(object, args)] *)
Abbreviation call_fn := (value -> value -> list value -> eff store value).

Definition baseInvoke (call : call_fn) (object : value) (p : path) (args : list value) : eff store value :=
  s ← get_state;
  let '(object, key) :=
    match p with
    | PathValue v => if isKey p s object then (object, v) else (parent s object (castPath p), _last (Some (castPath p)))
    | PathArray l => (parent s object l, _last (Some l))
    end in
  let func := if is_nil object then object else get_property s object (as_key (toKey key)) in
  if is_nil func then mret Undefined else call func object args.

(** The loop of [result]: the first [undefined] gives way to the default, and functions on the
    way are called. *)
Fixpoint result_loop (call : call_fn) (object : value) (keys : list value) (defaultValue : value) : eff store value :=
  match keys with
  | [] => mret object
  | k :: keys =>
      s ← get_state;
      let v := if is_nil object then Undefined else get_property s object (as_key (toKey k)) in
      let called v := if isFunction v then call v object [] else mret v in
      if is_undefined v then called defaultValue
      else w ← called v; result_loop call w keys defaultValue
  end.

(** An empty path is entered once, with nothing. *)
Definition _result (call : call_fn) (object : value) (p : path) (defaultValue : value) : eff store value :=
  s ← get_state;
  match keys_of_path p s object with
  | [] => result_loop call Undefined [Undefined] defaultValue
  | keys => result_loop call object keys defaultValue
  end.

(** The loop of [baseZipObject]; a value is [undefined] where there are fewer values. *)
Fixpoint zip_loop {P} (assignFunc : value -> P -> value -> eff store unit) (result : value) (props : list P) (values : list value) : eff store unit :=
  match props with
  | [] => mret tt
  | p :: props =>
      _ ← assignFunc result p (default Undefined (head values));
      zip_loop assignFunc result props (tail values)
  end.
Definition baseZipObject {P} (assignFunc : value -> P -> value -> eff store unit) (props : list P) (values : list value) : eff store value :=
  result ← new_object;
  _ ← zip_loop assignFunc result props values;
  mret result.
Definition zipObject (props values : list value) : eff store value :=
  baseZipObject (fun result p v => assignValue result (as_key p) v) props values.
Definition zipObjectDeep (props : list path) (values : list value) : eff store value :=
  baseZipObject (fun result p v => _ ← baseSet result p v None; mret tt) props values.

Fixpoint fromPairs_loop (result : value) (pairs : list (value * value)) : eff store unit :=
  match pairs with
  | [] => mret tt
  | (k, v) :: pairs => _ ← set_property result (as_key k) v; fromPairs_loop result pairs
  end.
Definition fromPairs (pairs : list (value * value)) : eff store value :=
  result ← new_object;
  _ ← fromPairs_loop result pairs;
  mret result.
End objects.

(** ** Stores that programs make *)

Section theory.
Context `{JsHost} `{Realm}.

(** References of prototypes are to objects, no chain of prototypes is endless or longer than
    there are objects, and new objects get names that are not used. *)
Record wf_store (s : store) : Prop := {
  wf_unused : forall i, next s <= i -> objects s !! i = None;
  wf_protos : forall i o c p, objects s !! i = Some o -> jo_proto o = Ref c p -> p < next s;
  wf_realm : 0 <= object_proto < next s /\ 0 <= array_proto < next s;
  wf_primitives : forall v c p, (forall c i, v <> Ref c i) -> proto_of s v = Ref c p -> p < next s;
  wf_ranked : exists rank : Z -> nat, (forall i, (rank i < Z.to_nat (next s))%nat) /\
    forall i o c p, objects s !! i = Some o -> jo_proto o = Ref c p -> (rank p < rank i)%nat }.

(** Two stores in which lookups go the same way from every object but those with new names. *)
Lemma find_slot_ext f s s' v key :
  (forall w, (forall c i, w = Ref c i -> i < next s) -> own_slot s' w key = own_slot s w key /\ proto_of s' w = proto_of s w) ->
  (forall w c p, (forall c i, w = Ref c i -> i < next s) -> proto_of s w = Ref c p -> p < next s) ->
  (forall c i, v = Ref c i -> i < next s) -> find_slot f s' v key = find_slot f s v key.
Proof.
  intros Hsame Hlive. revert v. induction f as [|f IH]; intros v Hv; cbn [find_slot]; destruct (Hsame v Hv) as [E1 E2]; rewrite E1; [done|]. rewrite E2.
  destruct (own_slot s v key); [done|]. destruct (proto_of s v) as [| | | | | |c p] eqn:Ep; try done.
  apply IH. intros c' i [= -> ->]. by eapply Hlive.
Qed.

Lemma proto_live s w c p : wf_store s -> (forall c i, w = Ref c i -> i < next s) -> proto_of s w = Ref c p -> p < next s.
Proof.
  intros Hwf Hw E. destruct w as [| | | | | |c' i]; try (by eapply (wf_primitives s Hwf); [|exact E]). cbn in E.
  destruct (objects s !! i) as [o|] eqn:Eo; [|done]. by eapply (wf_protos s Hwf).
Qed.

(** More steps find nothing more. *)
Lemma find_slot_enough s v key f :
  wf_store s -> (Z.to_nat (next s) <= f)%nat -> find_slot f s v key = slot_of s v key.
Proof.
  intros Hwf Hf. destruct (wf_ranked s Hwf) as (rank & Hb & Hr).
  assert (Hgo : forall g c i n, (rank i <= g)%nat -> find_slot (g + n) s (Ref c i) key = find_slot g s (Ref c i) key).
  { intros g. induction g as [|g IH]; intros c i n Hg.
    - destruct n as [|n]; [done|]. cbn [find_slot Nat.add]. destruct (own_slot s (Ref c i) key); [done|]. cbn [proto_of].
      destruct (objects s !! i) as [o|] eqn:Eo; [|done]. cbn. destruct (jo_proto o) as [| | | | | |c' p] eqn:Ep; try done.
      pose proof (Hr _ _ _ _ Eo Ep). lia.
    - cbn [find_slot Nat.add]. destruct (own_slot s (Ref c i) key); [done|]. cbn [proto_of].
      destruct (objects s !! i) as [o|] eqn:Eo; [|done]. cbn. destruct (jo_proto o) as [| | | | | |c' p] eqn:Ep; try done.
      apply IH. pose proof (Hr _ _ _ _ Eo Ep). lia. }
  unfold slot_of. replace f with (Z.to_nat (next s) + (f - Z.to_nat (next s)))%nat by lia. generalize (f - Z.to_nat (next s))%nat as n. intros n.
  assert (Hstart : forall w n, find_slot (Z.to_nat (next s) + n) s w key = find_slot (Z.to_nat (next s)) s w key).
  { intros w m. destruct w as [| | | | | |c i]; try (apply Hgo; specialize (Hb i); lia).
    all: pose proof (wf_realm s Hwf) as [[? ?] _]; destruct (Z.to_nat (next s)) as [|g] eqn:Eg; [lia|]; cbn [find_slot Nat.add];
      destruct (own_slot s _ key); try done; destruct (proto_of s _) as [| | | | | |c p]; try done; apply Hgo; specialize (Hb p); lia. }
  apply Hstart.
Qed.

(** *** A new object *)

Definition add_object (s : store) (o : jobj) : store := {| objects := <[next s := o]> (objects s); next := next s + 1 |}.

Definition live (s : store) (v : value) : Prop := forall c i, v = Ref c i -> i < next s.

Lemma add_object_wf s o c p : wf_store s -> jo_proto o = Ref c p -> 0 <= p < next s -> wf_store (add_object s o).
Proof.
  intros Hwf Hp Hlive. pose proof (wf_realm s Hwf) as Hrealm. split; cbn [add_object objects next].
  - intros i Hi. rewrite lookup_insert_ne by lia. apply (wf_unused s Hwf). lia.
  - intros i o' c' p' Hi E. apply lookup_insert_Some in Hi as [[<- <-]|[Hi Ho]]; [rewrite Hp in E; injection E as -> ->; lia|].
    pose proof (wf_protos s Hwf _ _ _ _ Ho E). lia.
  - lia.
  - intros v c' p' Hv E. pose proof (wf_primitives s Hwf v c' p' Hv) as Hlt. destruct v; try (specialize (Hlt E); lia). by edestruct Hv.
  - destruct (wf_ranked s Hwf) as (rank & Hb & Hr). exists (fun i => if decide (i = next s) then S (rank p) else rank i). split.
    + intros i. case_decide; [specialize (Hb p)|specialize (Hb i)]; lia.
    + intros i o' c' p' Hi E. apply lookup_insert_Some in Hi as [[<- <-]|[Hi Ho]].
      * rewrite Hp in E. injection E as <- <-. rewrite (decide_True _ _ (Logic.eq_refl (next s))). rewrite decide_False by lia. lia.
      * pose proof (wf_protos s Hwf _ _ _ _ Ho E). rewrite !decide_False by lia. by eapply Hr.
Qed.

Lemma add_object_own s o v key : live s v -> own_slot (add_object s o) v key = own_slot s v key /\ proto_of (add_object s o) v = proto_of s v.
Proof.
  intros Hv. destruct v as [| | | | | |c i]; try done. specialize (Hv c i Logic.eq_refl). cbn [own_slot proto_of add_object objects].
  by rewrite lookup_insert_ne by lia.
Qed.

Lemma add_object_slot s o c p v key :
  wf_store s -> jo_proto o = Ref c p -> 0 <= p < next s -> live s v -> slot_of (add_object s o) v key = slot_of s v key.
Proof.
  intros Hwf Hp Hlt Hv. pose proof (wf_realm s Hwf) as [[? ?] _]. rewrite <- (find_slot_enough s v key (Z.to_nat (next (add_object s o)))); [|done|cbn; lia].
  unfold slot_of. apply find_slot_ext; [|by intros w c' p' Hw; apply proto_live|done]. intros w Hw. by apply add_object_own.
Qed.

(** *** A property *)

Lemma put_object_wf s id o o' : wf_store s -> objects s !! id = Some o -> jo_proto o' = jo_proto o -> wf_store (put_object s id o').
Proof.
  intros Hwf Ho Hp.
  assert (Hproto : forall i x c p, <[id := o']> (objects s) !! i = Some x -> jo_proto x = Ref c p -> exists x', objects s !! i = Some x' /\ jo_proto x' = Ref c p).
  { intros i x c p Hi E. apply lookup_insert_Some in Hi as [[<- <-]|[_ Hx]]; [exists o; by rewrite <- Hp|by exists x]. }
  split; cbn [put_object objects next].
  - intros i Hi. rewrite lookup_insert_ne; [by apply (wf_unused s Hwf)|]. intros <-. by rewrite (wf_unused s Hwf id Hi) in Ho.
  - intros i x c p Hi E. destruct (Hproto _ _ _ _ Hi E) as (x' & ? & ?). by eapply (wf_protos s Hwf).
  - apply (wf_realm s Hwf).
  - intros v c p Hv E. eapply (wf_primitives s Hwf v c p Hv). destruct v; try done. by edestruct Hv.
  - destruct (wf_ranked s Hwf) as (rank & Hb & Hr). exists rank. split; [done|]. intros i x c p Hi E.
    destruct (Hproto _ _ _ _ Hi E) as (x' & ? & ?). by eapply Hr.
Qed.

(** The object has a plain property of its own: not the length of an array. *)
Definition pinned (s : store) (id : Z) (key : pkey) (v : value) : Prop :=
  exists o, objects s !! id = Some o /\ jo_slots o !! key = Some (Data v) /\ (is_Some (jo_length o) -> key <> length_key).

Lemma pinned_own s c id key v : pinned s id key v -> own_slot s (Ref c id) key = Some (Data v).
Proof.
  intros (o & Ho & Hs & Hl). cbn [own_slot]. rewrite Ho. cbn. destruct (jo_length o); [|done]. rewrite bool_decide_false by (by apply Hl). done.
Qed.

Lemma pinned_get s c id key v : pinned s id key v -> get_property s (Ref c id) key = v.
Proof. intros Hp%(pinned_own s c). unfold get_property, slot_of. destruct (Z.to_nat (next s)); cbn [find_slot]; by rewrite Hp. Qed.

Lemma define_own_pins s id o key v :
  objects s !! id = Some o -> (is_Some (jo_length o) -> key <> length_key) ->
  pinned (define_own s id o key v) id key v /\
  forall i k w, (i, k) <> (id, key) -> pinned s i k w -> pinned (define_own s id o key v) i k w.
Proof.
  intros Ho Hl. unfold define_own. split.
  - eexists. cbn [put_object objects]. rewrite lookup_insert_eq. split; [done|]. cbn [jo_slots jo_length]. rewrite lookup_insert_eq. split; [done|].
    intros Hs. apply Hl. by destruct (jo_length o).
  - intros i k w Hne (x & Hx & Hs & Hk). destruct (decide (i = id)) as [->|Hi].
    + rewrite Ho in Hx. injection Hx as <-. eexists. cbn [put_object objects]. rewrite lookup_insert_eq. split; [done|]. cbn [jo_slots jo_length].
      rewrite lookup_insert_ne by congruence. split; [done|]. intros Hn. apply Hk. by destruct (jo_length o).
    + exists x. cbn [put_object objects]. by rewrite lookup_insert_ne.
Qed.

(** *** Setting along a path *)

(** The value is an object with a plain place for the key: neither the length of an array nor
    the accessor of the prototype. *)
Definition plain_at (s : store) (v : value) (key : pkey) : bool :=
  match v with
  | Ref _ id =>
      match objects s !! id with
      | Some o => negb (bool_decide (is_Some (jo_length o)) && bool_decide (key = length_key))
                  && match slot_of s v key with Some ProtoAccessor => false | _ => true end
      | None => false
      end
  | _ => false
  end.

Lemma plain_at_spec s c id key :
  plain_at s (Ref c id) key = true ->
  exists o, objects s !! id = Some o /\ (is_Some (jo_length o) -> key <> length_key) /\ slot_of s (Ref c id) key <> Some ProtoAccessor.
Proof.
  unfold plain_at. destruct (objects s !! id) as [o|]; [|done]. intros [Hl Hp]%andb_true_iff. exists o. split; [done|]. split.
  - intros Hs ->. by rewrite !bool_decide_true in Hl.
  - intros E. by rewrite E in Hp.
Qed.

Lemma eq_refl_value v : eq v v = true.
Proof. unfold eq. by destruct (strict_eq v v). Qed.

(** What an assignment leaves: an own property that equals the value, and the others. *)
Definition assigned (s s' : store) (id : Z) (key : pkey) (v : value) : Prop :=
  wf_store s' /\ (exists w, pinned s' id key w /\ eq w v = true) /\
  (forall i k w, (i, k) <> (id, key) -> pinned s i k w -> pinned s' i k w) /\
  (s' = s \/ exists o, objects s !! id = Some o /\ s' = define_own s id o key v).

Lemma assignValue_run object key v s :
  assignValue object key v s =
  if negb (has_own s object key && eq (get_property s object key) v) || (is_undefined v && negb (has_property s object key))
  then set_property object key v s else (Ok tt, s).
Proof. unfold assignValue, get_state, mbind, eff_bind. by destruct (_ || _). Qed.

Lemma assignValue_spec s c id key v :
  wf_store s -> plain_at s (Ref c id) key = true -> exists s', assignValue (Ref c id) key v s = (Ok tt, s') /\ assigned s s' id key v.
Proof.
  intros Hwf (o & Ho & Hl & Hp)%plain_at_spec. rewrite assignValue_run.
  assert (Hset : exists s', set_property (Ref c id) key v s = (Ok tt, s') /\ assigned s s' id key v).
  { exists (define_own s id o key v). split.
    - unfold set_property. rewrite Ho.
      assert (bool_decide (is_Some (jo_length o)) && bool_decide (key = length_key) = false) as ->.
      { apply not_true_is_false. intros [Hs%bool_decide_eq_true Hk%bool_decide_eq_true]%andb_true_iff. by apply Hl. }
      by destruct (slot_of s (Ref c id) key) as [[|]|].
    - destruct (define_own_pins s id o key v Ho Hl) as [Hpin Hkeep]. split; [by eapply put_object_wf|]. split_and!; [|done|by right; exists o].
      exists v. split; [done|apply eq_refl_value]. }
  destruct (negb (has_own s (Ref c id) key && eq (get_property s (Ref c id) key) v)) eqn:E; [exact Hset|]. cbn [orb].
  destruct (is_undefined v && _); [exact Hset|]. exists s. split; [done|]. split; [done|]. split_and!; [|done|by left].
  apply negb_false_iff, andb_true_iff in E as [Hown Heq]. exists (get_property s (Ref c id) key). split; [|done].
  unfold has_own in Hown. destruct (own_slot s (Ref c id) key) as [x|] eqn:Ex; [|done].
  assert (Hx : slot_of s (Ref c id) key = Some x) by (unfold slot_of; destruct (Z.to_nat (next s)); cbn [find_slot]; by rewrite Ex).
  unfold get_property. rewrite Hx in Hp |- *. destruct x as [w|]; [|done]. exists o. split; [done|]. split; [|done].
  cbn [own_slot] in Ex. rewrite Ho in Ex. cbn in Ex. destruct (jo_length o); [|done]. rewrite bool_decide_false in Ex by (by apply Hl). done.
Qed.

(** A new object or array. *)
Definition fresh_object (rest : list value) : jobj :=
  match rest with
  | following :: _ =>
      if isIndex following None then {| jo_slots := ∅; jo_proto := Ref ClsArray array_proto; jo_length := Some 0 |}
      else {| jo_slots := ∅; jo_proto := Ref ClsObject object_proto; jo_length := None |}
  | [] => {| jo_slots := ∅; jo_proto := Ref ClsObject object_proto; jo_length := None |}
  end.
Definition fresh_class (rest : list value) : jsclass :=
  match rest with following :: _ => if isIndex following None then ClsArray else ClsObject | [] => ClsObject end.

Lemma new_value_spec s nested key rest v :
  new_value None nested key rest v s =
  match rest with
  | [] => (Ok v, s)
  | _ :: _ =>
      let objValue := get_property s nested (as_key key) in
      if is_nil objValue then (Ok (Ref (fresh_class rest) (next s)), add_object s (fresh_object rest)) else (Ok objValue, s)
  end.
Proof.
  destruct rest as [|k rest]; [done|]. unfold new_value, get_state, mbind, eff_bind. cbn. destruct (is_nil _); [|done]. by destruct (isIndex k None).
Qed.

Lemma fresh_object_proto rest : exists c p, jo_proto (fresh_object rest) = Ref c p /\ (p = object_proto \/ p = array_proto).
Proof. destruct rest as [|k rest]; cbn; [|destruct (isIndex k None)]; cbn; eauto 6. Qed.

Lemma add_fresh s rest : wf_store s -> wf_store (add_object s (fresh_object rest)) /\
  forall v key, live s v -> slot_of (add_object s (fresh_object rest)) v key = slot_of s v key.
Proof.
  intros Hwf. destruct (fresh_object_proto rest) as (c & p & Hp & Hlive). pose proof (wf_realm s Hwf) as [? ?].
  split; [by eapply add_object_wf; [|exact Hp|destruct Hlive; subst]|]. intros v key Hv. by eapply add_object_slot; [|exact Hp|destruct Hlive; subst|].
Qed.

Lemma add_object_pinned s o i k w : wf_store s -> pinned s i k w -> pinned (add_object s o) i k w.
Proof.
  intros Hwf (x & Hx & Hs). exists x. split; [|done]. cbn [add_object objects]. rewrite lookup_insert_ne; [done|]. intros <-.
  by rewrite (wf_unused s Hwf) in Hx by lia.
Qed.

Lemma isObject_ref c id : isObject (Ref c id) = true.
Proof. by destruct c. Qed.

Lemma set_step_run c id key rest v s :
  set_step None (Ref c id) key rest v s =
  match new_value None (Ref c id) key rest v s with
  | (Ok w, s') => assignValue (Ref c id) (as_key key) w s'
  | (Throw e, s') => (Throw e, s')
  end.
Proof. unfold set_step. rewrite isObject_ref. done. Qed.

Lemma set_step_spec s c id key rest v :
  wf_store s -> plain_at s (Ref c id) (as_key key) = true ->
  exists s', set_step None (Ref c id) key rest v s = (Ok tt, s') /\ wf_store s' /\
    (exists w, pinned s' id (as_key key) w /\ (rest = [] -> eq w v = true)) /\
    forall i k w, (i, k) <> (id, as_key key) -> pinned s i k w -> pinned s' i k w.
Proof.
  intros Hwf Hpl. rewrite set_step_run, new_value_spec. destruct rest as [|k rest].
  { destruct (assignValue_spec s c id (as_key key) v Hwf Hpl) as (s' & -> & Hwf' & (w & Hw & He) & Hkeep & _). exists s'. split_and!; eauto. }
  cbn zeta. destruct (is_nil (get_property s (Ref c id) (as_key key))).
  - destruct (add_fresh s (k :: rest) Hwf) as [Hwf1 Hslot]. set (s1 := add_object s (fresh_object (k :: rest))) in *.
    assert (Hpl1 : plain_at s1 (Ref c id) (as_key key) = true).
    { destruct (plain_at_spec _ _ _ _ Hpl) as (o & Ho & _). revert Hpl. unfold plain_at.
      assert (id < next s) by (destruct (Z.lt_ge_cases id (next s)); [done|]; by rewrite (wf_unused s Hwf id) in Ho by lia).
      rewrite Hslot by (by intros ? ? [= -> ->]). unfold s1. cbn [add_object objects]. by rewrite lookup_insert_ne by lia. }
    destruct (assignValue_spec s1 c id (as_key key) (Ref (fresh_class (k :: rest)) (next s)) Hwf1 Hpl1) as (s' & -> & Hwf' & (w & Hw & _) & Hkeep & _).
    exists s'. split_and!; [done|done|by exists w|]. intros i k' w' Hne Hp. apply Hkeep; [done|]. by apply add_object_pinned.
  - destruct (assignValue_spec s c id (as_key key) (get_property s (Ref c id) (as_key key)) Hwf Hpl) as (s' & -> & Hwf' & (w & Hw & _) & Hkeep & _).
    exists s'. split_and!; [done|done|by exists w|done].
Qed.

(** The places that setting [v] along the keys comes to, if all of them are plain. *)
Fixpoint visits (s : store) (nested : value) (keys : list value) (v : value) : option (list (Z * pkey)) :=
  match keys with
  | [] => Some []
  | k :: keys =>
      match nested with
      | Ref c id =>
          let key := toKey k in
          if plain_at s nested (as_key key) then
            let s' := (set_step None nested key keys v s).2 in
            l ← visits s' (get_property s' nested (as_key key)) keys v;
            Some ((id, as_key key) :: l)
          else None
      | _ => None
      end
  end.

Lemma set_loop_run c id k keys v s :
  set_loop None (Ref c id) (k :: keys) v s =
  match set_step None (Ref c id) (toKey k) keys v s with
  | (Ok _, s') => set_loop None (get_property s' (Ref c id) (as_key (toKey k))) keys v s'
  | (Throw e, s') => (Throw e, s')
  end.
Proof. done. Qed.

Lemma set_loop_spec keys s nested v l :
  wf_store s -> visits s nested keys v = Some l -> NoDup l ->
  exists s', set_loop None nested keys v s = (Ok tt, s') /\ wf_store s' /\
    (forall i k w, (i, k) ∉ l -> pinned s i k w -> pinned s' i k w) /\
    (keys <> [] -> exists w, get_loop s' nested keys = (w, true) /\ eq w v = true).
Proof.
  revert s nested l. induction keys as [|k keys IH]; intros s nested l Hwf Hv Hnd.
  { exists s. split_and!; try done. }
  cbn [visits] in Hv. destruct nested as [| | | | | |c id]; try done. destruct (plain_at _ _ _) eqn:Hpl; [|done].
  destruct (set_step_spec s c id (toKey k) keys v Hwf Hpl) as (s1 & Es & Hwf1 & (w & Hw & He) & Hkeep).
  rewrite Es in Hv. cbn [snd] in Hv. apply bind_Some in Hv as (l' & Hv & [= <-]). apply NoDup_cons in Hnd as [Hnot Hnd].
  destruct (IH _ _ _ Hwf1 Hv Hnd) as (s' & Er & Hwf' & Hpins & Hget).
  exists s'. split; [by rewrite set_loop_run, Es|]. split; [done|].
  split. { intros i k' w' Hni Hp. apply Hpins; [intros Hin; apply Hni; by apply list_elem_of_further|]. apply Hkeep; [|done]. intros E. apply Hni. rewrite E. apply list_elem_of_here. }
  intros _. cbn [get_loop is_nil]. rewrite (pinned_get s1 c id _ w Hw) in Hget. rewrite (pinned_get s' c id _ w (Hpins _ _ _ Hnot Hw)).
  destruct keys as [|k' keys]; [exists w; split; [done|by apply He]|by apply Hget].
Qed.

(** C28: What [set] writes, [get] finds.  When all places that the walk along the keys comes to
    are plain - properties of objects, not the length of an array nor the accessor of the
    prototype - and no place is come to twice, [baseSet] throws nothing, and then [baseGet]
    with the same path answers the value, up to the sign of zero, creating the arrays and
    objects that were missing.  Shared and cyclic objects included: a place that is come to
    twice is all that can spoil it. *)
Theorem set_then_get s object keys v l :
  wf_store s -> keys <> [] -> visits s object keys v = Some l -> NoDup l ->
  exists s', baseSet object (PathArray keys) v None s = (Ok object, s') /\
    eq (baseGet s' object (PathArray keys)) v = true.
Proof.
  intros Hwf Hne Hv Hnd. destruct (set_loop_spec keys s object v l Hwf Hv Hnd) as (s' & Er & _ & _ & Hget).
  exists s'. unfold baseSet, get_state, mbind, eff_bind. cbn [keys_of_path castPath]. rewrite Er. split; [done|].
  destruct (Hget Hne) as (w & Eg & He). unfold baseGet. cbn [keys_of_path castPath]. rewrite Eg, bool_decide_false by done. done.
Qed.

(** *** The accessor of the prototype *)

(** The direct prototype of an object: [Object.prototype] for a literal, [Array.prototype] for an
    array, the prototype of its constructor for an instance. *)
Definition has_prototype (s : store) (id : Z) (o : jobj) (cp : jsclass) (pid : Z) : Prop :=
  objects s !! id = Some o /\ jo_proto o = Ref cp pid.

(** The object inherits the accessor [__proto__] and has no property of that name of its own. *)
Definition inherits_accessor (s : store) (v : value) : Prop :=
  own_slot s v proto_key = None /\ slot_of s v proto_key = Some ProtoAccessor.

Definition proto_path (name : jstring) : jstring := str "__proto__" ++ 46 :: name.

Lemma proto_path_keys name : segment_ok (SName name) -> stringToPath (String (proto_path name)) = [String (str "__proto__"); String name].
Proof.
  intros Hn. assert (proto_path name = print_path [SName (str "__proto__"); SName name]) as ->.
  { unfold proto_path. cbn [print_path print_segment flat_map app]. by rewrite app_nil_r. }
  rewrite stringToPath_print; [done|]. constructor; [split; [done|]|by constructor]. repeat constructor.
Qed.

Lemma proto_path_not_key s object name :
  has_property s object (PString (proto_path name)) = false -> isKey (PathValue (String (proto_path name))) s object = false.
Proof.
  intros Hno. unfold isKey. change (to_string (String (proto_path name))) with (proto_path name).
  change (as_key (String (proto_path name))) with (PString (proto_path name)). rewrite Hno, andb_false_r.
  assert (ctest reIsPlainProp (proto_path name) = false) as ->.
  { apply not_true_is_false. intros Hf%plain_prop. rewrite Forall_forall in Hf. by specialize (Hf 46 ltac:(unfold proto_path; set_solver)). }
  assert (ctest reIsDeepProp (proto_path name) = true) as -> by (apply deep_prop_dot; unfold proto_path; set_solver). done.
Qed.

(** Through the accessor, the walk comes to the prototype and writes to it. *)
Lemma set_through_proto s c id o cp pid name v :
  wf_store s -> has_prototype s id o cp pid -> inherits_accessor s (Ref c id) -> plain_at s (Ref cp pid) (PString name) = true ->
  exists s', set_loop None (Ref c id) [String (str "__proto__"); String name] v s = (Ok tt, s') /\
    (s' = s \/ exists p, objects s !! pid = Some p /\ s' = define_own s pid p (PString name) v) /\
    exists w, pinned s' pid (PString name) w /\ eq w v = true.
Proof.
  intros Hwf [Ho Hproto] [Hown Hslot] Hplain.
  change (as_key (toKey (String (str "__proto__")))) with proto_key.
  assert (Hget : get_property s (Ref c id) proto_key = Ref cp pid).
  { unfold get_property. rewrite Hslot. cbn. by rewrite Ho. }
  assert (Hstep : set_step None (Ref c id) (String (str "__proto__")) [String name] v s = (Ok tt, s)).
  { rewrite set_step_run, new_value_spec. change (as_key (String (str "__proto__"))) with proto_key. cbn zeta. rewrite Hget. cbn [is_nil].
    rewrite assignValue_run. unfold has_own. rewrite Hown. cbn [andb negb orb]. unfold set_property. rewrite Ho, Hslot.
    assert (bool_decide (proto_key = length_key) = false) as -> by done. rewrite andb_false_r.
    unfold set_proto. rewrite Hproto, bool_decide_true by done. done. }
  rewrite set_loop_run. change (toKey (String (str "__proto__"))) with (String (str "__proto__")). rewrite Hstep.
  change (as_key (String (str "__proto__"))) with proto_key. rewrite Hget, set_loop_run.
  change (toKey (String name)) with (String name). rewrite set_step_run, new_value_spec. change (as_key (String name)) with (PString name).
  destruct (assignValue_spec s cp pid (PString name) v Hwf Hplain) as (s' & -> & _ & Hpin & _ & Hshape). by exists s'.
Qed.

(** C30: A path through the accessor of the prototype changes the prototype. Take an object that
    inherits the accessor [__proto__] and has no property of that name of its own; its direct
    prototype is [Object.prototype] if it was made by a literal and [Array.prototype] if it is
    an array. If the string [__proto__.name] is not itself a property of the object, and [name]
    is a plain place of the prototype (not the length of an array, not an accessor), setting
    the path [__proto__.name] writes to the prototype: afterwards every object with the same
    direct prototype that had no property [name] of its own answers the value, although it was
    the first object that was to be set. *)
Theorem set_reaches_prototype s c id o cp pid name v :
  wf_store s -> has_prototype s id o cp pid -> inherits_accessor s (Ref c id) ->
  segment_ok (SName name) -> plain_at s (Ref cp pid) (PString name) = true ->
  has_property s (Ref c id) (PString (proto_path name)) = false ->
  exists s', set (Ref c id) (PathValue (String (proto_path name))) v s = (Ok (Ref c id), s') /\
    forall c' id' o' cp', has_prototype s id' o' cp' pid -> own_slot s (Ref c' id') (PString name) = None ->
      eq (baseGet s' (Ref c' id') (PathArray [String name])) v = true.
Proof.
  intros Hwf Hpr Hacc Hok Hplain Hno.
  destruct (set_through_proto s c id o cp pid name v Hwf Hpr Hacc Hplain) as (s' & Er & Hshape & w & Hw & He). exists s'. split.
  { unfold set. cbn [is_nil]. unfold baseSet, get_state, mbind, eff_bind. cbn [keys_of_path castPath].
    rewrite proto_path_not_key, proto_path_keys by done. by rewrite Er. }
  intros c' id' o' cp' [Ho' Hp'] Hown'. unfold baseGet. cbn [keys_of_path castPath get_loop is_nil].
  change (as_key (toKey (String name))) with (PString name). rewrite bool_decide_false by done. cbn [negb andb].
  enough (get_property s' (Ref c' id') (PString name) = w) as -> by done.
  destruct (decide (id' = pid)) as [->|Hne]; [by apply pinned_get|].
  assert (Hsame : objects s' !! id' = Some o' /\ next s' = next s).
  { destruct Hshape as [->|(p & _ & ->)]; [done|]. unfold define_own, put_object. cbn [objects next]. by rewrite lookup_insert_ne. }
  destruct Hsame as [Hs' Hn]. pose proof (wf_realm s Hwf) as [[? ?] _]. unfold get_property, slot_of. rewrite Hn.
  destruct (Z.to_nat (next s)) as [|f] eqn:Ef; [lia|]. cbn [find_slot].
  assert (own_slot s' (Ref c' id') (PString name) = None) as ->.
  { revert Hown'. cbn [own_slot]. by rewrite Ho', Hs'. }
  cbn [proto_of]. rewrite Hs'. cbn [from_option]. rewrite Hp'. destruct f; cbn [find_slot]; by rewrite (pinned_own _ _ _ _ _ Hw).
Qed.

(** *** Holes of arrays *)

Lemma take_digits_all s n acc : Forall (fun c => is_digit c = true) s -> exists x, take_digits 10 s n acc = ((n + length s)%nat, x, []) /\ (0 <= acc -> 0 <= x).
Proof.
  intros Hs. revert n acc. induction Hs as [|c s Hc _ IH]; intros n acc; [exists acc; cbn; by rewrite Nat.add_0_r|]. cbn [take_digits].
  assert (Hd : digit_value c = c - 48) by (unfold digit_value; by rewrite Hc). rewrite Hd. unfold is_digit in Hc.
  destruct (Z.ltb_spec (c - 48) 10); [|lia]. destruct (IH (S n) (acc * 10 + (c - 48))) as (x & -> & Hx). exists x. cbn [length].
  split; [f_equal; f_equal; lia|]. intros. apply Hx. lia.
Qed.

Lemma reIsUint_digits d :
  reIsUint d = true -> d = [48] \/ exists c d', d = c :: d' /\ 49 <= c <= 57 /\ Forall (fun c => is_digit c = true) d.
Proof.
  unfold reIsUint. destruct d as [|c d]; [done|]. intros E.
  assert (Hcase : (c = 48 /\ d = []) \/ ((49 <=? c) && (c <=? 57) && forallb is_digit d) = true).
  { destruct (decide (c = 48 /\ d = [])); [by left|right]. destruct c as [|c|c]; try exact E.
    do 6 (try destruct c as [c|c|]; try exact E). destruct d; [tauto|exact E]. }
  destruct Hcase as [[-> ->]|[Hc Hd]%andb_true_iff]; [by left|right]. exists c, d. split_and!; [done|lia|lia|]. constructor; [unfold is_digit; lia|].
  rewrite forallb_forall in Hd. apply Forall_forall. intros u Hu. apply Hd. by apply list_elem_of_In.
Qed.

Lemma trim_ends_id {A} (p : A -> bool) l : Forall (fun c => p c = false) l -> trim_ends p l = l.
Proof.
  assert (Hs : forall l, Forall (fun c => p c = false) l -> trim_start p l = l) by (intros ? [|c ? E _]; [done|]; cbn; by rewrite E).
  intros Hl. unfold trim_ends. rewrite (Hs l) by done. rewrite Hs by by apply Forall_rev. apply rev_involutive.
Qed.

(** The decimal notation of an integer is read as that integer. *)
Lemma uint_to_number d : reIsUint d = true -> exists n x rest, take_digits 10 d 0 0 = (n, x, rest) /\ 0 <= x /\ string_to_number d = num x.
Proof.
  intros [->|(c & d' & -> & Hc & Hall)]%reIsUint_digits; [by exists 1%nat, 0, []|].
  destruct (take_digits_all (c :: d') 0 0 Hall) as (x & Ex & Hx). exists (length (c :: d')), x, []. split_and!; [done|by apply Hx|].
  unfold string_to_number. rewrite trim_ends_id.
  2:{ eapply Forall_impl; [exact Hall|]. intros u Hu. unfold is_digit in Hu. unfold is_space. lia. }
  assert (Hu : unsigned_decimal (c :: d') = num x).
  { unfold unsigned_decimal. rewrite bool_decide_false by (intros E%(f_equal head); vm_compute in E; injection E; lia). rewrite Ex. change (decimal x 0 = num x).
    specialize (Hx ltac:(lia)). destruct x as [|x|]; [done| |lia]. cbn [decimal Z.leb Z.compare]. by rewrite Z.mul_1_r. }
  assert (Hcs : c = 49 \/ c = 50 \/ c = 51 \/ c = 52 \/ c = 53 \/ c = 54 \/ c = 55 \/ c = 56 \/ c = 57) by lia.
  repeat (destruct Hcs as [->|Hcs]; [exact Hu|]). subst. exact Hu.
Qed.

Lemma remainder_int i : small_int i -> neqb (nrem (num i) (num 1)) (num 0) = true.
Proof.
  intros Hi. apply trunc_num in Hi as [_ Hi]. destruct (num i) as [s|s| |s m e]; try done. rewrite nrem_one.
  apply fraction_zero in Hi. rewrite Hi. by destruct s.
Qed.

Lemma array_index_reads d i :
  array_index (PString d) = Some i -> reIsUint d = true /\ string_to_number d = num i /\ 0 <= i < MAX_ARRAY_LENGTH.
Proof.
  cbn [array_index]. destruct (reIsUint d) eqn:E; [|done]. destruct (uint_to_number d E) as (k & x & rest & -> & Hx & ->).
  destruct (Z.ltb_spec x MAX_ARRAY_LENGTH); [|done]. by intros [= ->].
Qed.

Lemma isIndex_array_index d i n :
  array_index (PString d) = Some i -> i < n <= MAX_ARRAY_LENGTH -> isIndex (String d) (Some n) = true.
Proof.
  intros (Hu & Hd & Hi)%array_index_reads Hn. unfold isIndex. change (to_number (String d)) with (string_to_number d). rewrite Hd.
  change (to_string (String d)) with d. rewrite Hu, orb_true_r. change (default MAX_SAFE_INTEGER (Some n)) with n. unfold MAX_ARRAY_LENGTH in *.
  rewrite !nltb_num, remainder_int by (unfold small_int; lia). lia.
Qed.

Lemma isLength_num n : 0 <= n <= MAX_ARRAY_LENGTH -> isLength (Number (num n)) = true.
Proof.
  intros Hn. unfold isLength, MAX_ARRAY_LENGTH, MAX_SAFE_INTEGER in *.
  rewrite nltb_num, remainder_int, nleb_num by (unfold small_int; lia). lia.
Qed.

(** C32: The index of a hole answers for every path through it.  Where an array of length [n] has
    no property at the index [i < n], [has] answers that every path that goes on below that
    index is there, while [get] finds nothing at any of them. *)
Theorem has_through_hole s id o d i n rest dflt :
  objects s !! id = Some o -> jo_length o = Some n -> array_index (PString d) = Some i -> i < n <= MAX_ARRAY_LENGTH ->
  has_property s (Ref ClsArray id) (PString d) = false -> rest <> [] ->
  has s (Ref ClsArray id) (PathArray (String d :: rest)) = true /\
  get s (Ref ClsArray id) (PathArray (String d :: rest)) dflt = dflt.
Proof.
  intros Ho Hlen Hi Hn Hno Hrest. pose proof (array_index_reads d i Hi) as (_ & _ & Hi0).
  assert (Hs : slot_of s (Ref ClsArray id) (PString d) = None) by (revert Hno; unfold has_property; by destruct slot_of).
  assert (Hown : has_own s (Ref ClsArray id) (PString d) = false).
  { revert Hs. unfold has_own, slot_of. destruct (Z.to_nat (next s)); cbn [find_slot]; by destruct own_slot. }
  split.
  - unfold has, hasPath. cbn [is_nil negb andb keys_of_path castPath has_loop]. change (toKey (String d)) with (String d).
    change (as_key (String d)) with (PString d). unfold baseHas. rewrite Hown, Hno, andb_false_r. cbn [is_nil negb andb orb].
    assert (get_property s (Ref ClsArray id) length_key = Number (num n)) as Hl.
    { unfold get_property, slot_of. destruct (Z.to_nat (next s)); cbn [find_slot own_slot]; rewrite Ho; cbn; by rewrite Hlen. }
    cbn [truthy]. rewrite Hl, isLength_num by lia. unfold MAX_ARRAY_LENGTH in *.
    assert (Hsm : small_int n) by (unfold small_int; lia). destruct (trunc_num n Hsm) as [-> _].
    rewrite (isIndex_array_index d i n) by (done || unfold MAX_ARRAY_LENGTH; lia). cbn [andb].
    rewrite !andb_true_r. cbn [truthy]. rewrite neqb_num by (done || unfold small_int; lia).
    destruct (num_nonzero n Hsm ltac:(lia)) as (? & ? & ? & -> & _). cbn [is_nan]. lia.
  - unfold get, baseGet. cbn [is_nil keys_of_path castPath get_loop]. change (as_key (toKey (String d))) with (PString d).
    unfold get_property at 1. rewrite Hs. destruct rest; [done|]. done.
Qed.

(** *** Removing *)

(** Whether a path leads along own properties to the end. *)
Fixpoint own_path (s : store) (v : value) (keys : list value) : bool :=
  match keys with
  | [] => true
  | k :: keys => has_own s v (as_key (toKey k)) && own_path s (get_property s v (as_key (toKey k))) keys
  end.

(** The second store has some of the own properties of the first, and the same prototypes. *)
Definition fewer (s s' : store) : Prop :=
  forall v, proto_of s' v = proto_of s v /\ forall key x, own_slot s' v key = Some x -> own_slot s v key = Some x.

Lemma get_property_own s v key x :
  own_slot s v key = Some x -> get_property s v key = match x with Data w => w | ProtoAccessor => proto_of s v end.
Proof. intros E. unfold get_property, slot_of. destruct (Z.to_nat (next s)); cbn [find_slot]; by rewrite E. Qed.

Lemma own_path_walk s s' keys k v :
  fewer s s' -> own_path s' v (keys ++ [k]) = true ->
  exists w, get_loop s v keys = (w, true) /\ has_own s' w (as_key (toKey k)) = true.
Proof.
  intros Hf. revert v. induction keys as [|k0 keys IH]; intros v; cbn [app own_path get_loop].
  - rewrite andb_true_r. by exists v.
  - intros [Ho Hp]%andb_true_iff. unfold has_own in Ho. destruct (own_slot s' v (as_key (toKey k0))) as [x|] eqn:E; [|done].
    destruct (Hf v) as [Hpr Hsl]. rewrite (get_property_own _ _ _ _ E), Hpr in Hp.
    rewrite (get_property_own _ _ _ _ (Hsl _ _ E)). assert (is_nil v = false) as -> by (revert E; by destruct v). by apply IH.
Qed.

Lemma remove_slot_fewer s c id o key :
  objects s !! id = Some o -> (is_Some (jo_length o) -> key <> length_key) ->
  let s' := put_object s id {| jo_slots := delete key (jo_slots o); jo_proto := jo_proto o; jo_length := jo_length o |} in
  fewer s s' /\ has_own s' (Ref c id) key = false.
Proof.
  intros Ho Hl s'. split.
  - intros v. assert (v = v /\ forall c i, v = Ref c i -> i <> id \/ i = id) as [_ Hd] by (split; [done|]; intros; lia).
    destruct v as [| |b|x|t|y|c' i]; try done. destruct (Hd c' i eq_refl) as [Hi| ->]; unfold s', put_object; cbn [proto_of own_slot objects].
    + by rewrite lookup_insert_ne.
    + rewrite lookup_insert_eq, Ho. split; [done|]. intros key' x. cbn.
      assert (Hdel : delete key (jo_slots o) !! key' = Some x -> jo_slots o !! key' = Some x) by by intros [_ ?]%lookup_delete_Some.
      destruct (jo_length o); [case_bool_decide|]; auto.
  - unfold has_own, s', put_object. cbn [own_slot objects]. rewrite lookup_insert_eq. cbn.
    destruct (jo_length o); [rewrite bool_decide_false by (apply Hl; eauto)|]; by rewrite lookup_delete_eq.
Qed.

Lemma delete_property_fewer v key s s' :
  delete_property v key s = (Ok true, s') -> fewer s s' /\ has_own s' v key = false.
Proof.
  unfold delete_property. destruct v as [| |b|x|t|y|c id]; try by (intros [= <-]; split).
  - intros [= Hn <-]. split; [by split|]. by destruct has_own.
  - destruct (objects s !! id) as [o|] eqn:Ho; [|intros [= <-]; split; [by split|]; unfold has_own; cbn [own_slot]; by rewrite Ho].
    case_bool_decide as Hl; case_bool_decide as Hk; cbn [andb]; intros [= <-]; by apply remove_slot_fewer.
Qed.

Lemma parent_walk s object keys k w :
  array_size (keys ++ [k]) -> get_loop s object keys = (w, true) -> parent s object (keys ++ [k]) = w.
Proof.
  intros Hsz Hw. unfold parent. rewrite length_app. cbn [length]. destruct keys as [|k0 keys]; [by injection Hw|].
  destruct (Nat.eqb_spec (length (k0 :: keys) + 1) 1) as [E|_]; [cbn in E; lia|].
  assert (baseSlice ((k0 :: keys) ++ [k]) 0 (-1) Undefined = k0 :: keys) as ->.
  { rewrite baseSlice_spec by done. unfold slice_start, slice_end. cbn [Z.ltb Z.compare]. rewrite drop_0, length_app. cbn [length].
    replace (Z.to_nat _) with (length (k0 :: keys)) by (cbn [length]; lia). apply take_app_length. }
  unfold baseGet. cbn [keys_of_path castPath]. rewrite Hw, bool_decide_false by done. done.
Qed.

Lemma last_app keys k : _last (Some (keys ++ [k])) = k.
Proof.
  unfold _last. change (default [] (Some (keys ++ [k]))) with (keys ++ [k]). rewrite length_app. cbn [length].
  destruct (Z.eqb_spec (Z.of_nat (length keys + 1)) 0); [lia|]. unfold at_index. destruct (Z.ltb_spec (Z.of_nat (length keys + 1) - 1) 0); [lia|].
  replace (Z.to_nat _) with (length keys) by lia. by rewrite lookup_app_r, Nat.sub_diag.
Qed.

Lemma has_own_not_nil s v key : has_own s v key = true -> is_nil v = false.
Proof. by destruct v. Qed.

(** [has] walks along own properties only: what an object inherits counts where it inherits from
    nothing. *)
Lemma baseHas_has_own s v key : baseHas s v key = true -> has_own s v key = true.
Proof.
  unfold baseHas. intros [_ [|[[_ Hp]%andb_true_iff Hn]%andb_true_iff]%orb_true_iff]%andb_true_iff; [done|].
  assert (Hnull : proto_of s v = Null) by (revert Hn; by destruct (proto_of s v)).
  revert Hp. unfold has_property, has_own, slot_of. destruct (Z.to_nat (next s)); cbn [find_slot]; destruct own_slot; rewrite ?Hnull; done.
Qed.

Lemma has_loop_own s keys v r k : own_path s v keys = false -> (has_loop baseHas s v keys r k).1.1 = false.
Proof.
  revert v r k. induction keys as [|k0 keys IH]; intros v r k; cbn [own_path has_loop]; [done|]. intros Ho.
  destruct (negb (is_nil v) && baseHas s v (as_key (toKey k0))) eqn:E; [|done]. apply andb_true_iff in E as [_ E%baseHas_has_own].
  rewrite E in Ho. by apply IH.
Qed.

(** C31: What [unset] removed is gone.  When [unset] answers [true], no chain of own properties
    leads along the keys any more, in a store where objects may be shared and cyclic: the
    walk of [has] does not reach the end. *)
Theorem unset_removes s object keys s' :
  array_size keys -> keys <> [] -> unset object (PathArray keys) s = (Ok true, s') ->
  own_path s' object keys = false /\ (has_loop baseHas s' object keys false Undefined).1.1 = false.
Proof.
  intros Hsz Hne Hun. enough (Ho : own_path s' object keys = false) by (split; [done|by apply has_loop_own]). destruct (exists_last Hne) as (keys' & k & ->). apply not_true_iff_false. intros Hp. revert Hun.
  unfold unset, baseUnset, get_state, mbind, eff_bind, mret, eff_ret. cbn [keys_of_path castPath]. rewrite last_app.
  destruct (is_nil object) eqn:Enil.
  { destruct keys' as [|k0 keys']; cbn [app own_path] in Hp; apply andb_true_iff in Hp as [Hp%has_own_not_nil _]; congruence. }
  destruct (negb _) eqn:Eb; intros Hun.
  - injection Hun as <-. destruct (own_path_walk s s keys' k object) as (w & Hw & Ho); [by split|done|].
    rewrite (parent_walk s object keys' k w) in Eb by done. unfold baseHas in Eb. rewrite (has_own_not_nil _ _ _ Ho), Ho in Eb. done.
  - apply delete_property_fewer in Hun as [Hf Hno]. destruct (own_path_walk s s' keys' k object) as (w & Hw & Ho); [done..|].
    rewrite (parent_walk s object keys' k w) in Hno by done. congruence.
Qed.
End theory.

(** ** A small store *)

Definition sample_realm : Realm := {|
  object_proto := 0; array_proto := 1;
  string_proto := Ref ClsObject 0; number_proto := Ref ClsObject 0; boolean_proto := Ref ClsObject 0; symbol_proto := Ref ClsObject 0 |}.

Definition sample_object (slots : gmap pkey slot) : jobj := {| jo_slots := slots; jo_proto := Ref ClsObject 0; jo_length := None |}.
Definition sample_prototype : jobj := {| jo_slots := {[ proto_key := ProtoAccessor ]}; jo_proto := Null; jo_length := None |}.
Definition sample_array (slots : gmap pkey slot) (n : Z) : jobj := {| jo_slots := slots; jo_proto := Ref ClsArray 1; jo_length := Some n |}.

(** [a = { a: [ , a] }], with a hole at 0, and [b = {}]. *)
Definition sample_a : jobj := sample_object {[ PString (str "a") := Data (Ref ClsArray 3) ]}.
Definition sample_elements : jobj := sample_array {[ PString (str "1") := Data (Ref ClsObject 2) ]} 2.
Definition sample_objects : list (Z * jobj) :=
  [(0, sample_prototype); (1, {| jo_slots := ∅; jo_proto := Ref ClsObject 0; jo_length := Some 0 |});
   (2, sample_a); (3, sample_elements); (4, sample_object ∅)].
Definition sample_store : store := {| objects := list_to_map sample_objects; next := 5 |}.

Lemma sample_lookup i o : objects sample_store !! i = Some o -> (i, o) ∈ sample_objects.
Proof. apply elem_of_list_to_map_2. Qed.

Lemma sample_wf : @wf_store sample_realm sample_store.
Proof.
  assert (Hin : forall i o, objects sample_store !! i = Some o -> 0 <= i < 5 /\ forall c p, jo_proto o = Ref c p -> p < i /\ 0 <= p < 2).
  { intros i o Ho%sample_lookup. unfold sample_objects in Ho. 
    repeat (apply elem_of_cons in Ho as [[= -> ->]|Ho]; [split; [lia|]; intros c p [= _ <-]; lia|]). by apply elem_of_nil in Ho. }
  split.
  - cbn [next sample_store]. intros i Hi. destruct (objects sample_store !! i) as [o|] eqn:E; [|done]. apply Hin in E as [? _]. lia.
  - cbn [next sample_store]. intros i o c p [_ Ho]%Hin Hp. apply Ho in Hp. lia.
  - cbn. lia.
  - intros v c p Hv. destruct v as [| |b|x|t|y|c' i]; cbn; try (intros [= _ <-]; lia); try done. by destruct (Hv c' i).
  - exists (fun i => Z.to_nat (Z.max 0 (Z.min i 4))). cbn [next sample_store]. split; [intros; lia|]. intros i o c p [Hi Ho]%Hin Hp. apply Ho in Hp. lia.
Qed.

Lemma set_then_get_witness :
  let keys := [String (str "a"); String (str "1"); String (str "b"); String (str "c")] in
  exists s', @baseSet plain_host sample_realm (Ref ClsObject 2) (PathArray keys) (Number (num 7)) None sample_store = (Ok (Ref ClsObject 2), s') /\
    eq (@baseGet plain_host sample_realm s' (Ref ClsObject 2) (PathArray keys)) (Number (num 7)) = true.
Proof.
  intros keys. refine (@set_then_get plain_host sample_realm sample_store (Ref ClsObject 2) keys (Number (num 7)) _ sample_wf _ _ _);
    [done|vm_compute; reflexivity|]. apply (bool_decide_unpack _). vm_compute. reflexivity.
Defined.

(** On [b], which was made by a literal, the path reaches [Object.prototype]; on the array it
    reaches [Array.prototype]. *)
Lemma set_reaches_prototype_witness :
  (exists s', @set plain_host sample_realm (Ref ClsObject 4) (PathValue (String (str "__proto__.x"))) (Number (num 7)) sample_store = (Ok (Ref ClsObject 4), s') /\
    eq (@baseGet plain_host sample_realm s' (Ref ClsObject 2) (PathArray [String (str "x")])) (Number (num 7)) = true) /\
  (exists s', @set plain_host sample_realm (Ref ClsArray 3) (PathValue (String (str "__proto__.x"))) (Number (num 7)) sample_store = (Ok (Ref ClsArray 3), s') /\
    eq (@baseGet plain_host sample_realm s' (Ref ClsArray 3) (PathArray [String (str "x")])) (Number (num 7)) = true).
Proof.
  assert (Hname : segment_ok (SName (str "x"))) by (split; [done|]; repeat constructor). split.
  - destruct (@set_reaches_prototype plain_host sample_realm sample_store ClsObject 4 (sample_object ∅) ClsObject 0 (str "x") (Number (num 7)) sample_wf)
      as (s' & Hs & Hall); [done|done|exact Hname|vm_compute; reflexivity|vm_compute; reflexivity|].
    exists s'. split; [exact Hs|]. by apply (Hall ClsObject 2 sample_a ClsObject).
  - destruct (@set_reaches_prototype plain_host sample_realm sample_store ClsArray 3 sample_elements ClsArray 1 (str "x") (Number (num 7)) sample_wf)
      as (s' & Hs & Hall); [done|done|exact Hname|vm_compute; reflexivity|vm_compute; reflexivity|].
    exists s'. split; [exact Hs|]. by apply (Hall ClsArray 3 sample_elements ClsArray).
Defined.

Lemma has_through_hole_witness :
  @has plain_host sample_realm sample_store (Ref ClsArray 3) (PathArray [String (str "0"); String (str "x"); String (str "y")]) = true /\
  @get plain_host sample_realm sample_store (Ref ClsArray 3) (PathArray [String (str "0"); String (str "x"); String (str "y")]) Null = Null.
Proof.
  apply (@has_through_hole plain_host sample_realm sample_store 3 sample_elements (str "0") 0 2); try done; vm_compute; done || reflexivity.
Defined.

Lemma unset_removes_witness :
  let keys := [String (str "a"); String (str "1"); String (str "a")] in
  let s' := (@unset plain_host sample_realm (Ref ClsObject 2) (PathArray keys) sample_store).2 in
  @own_path plain_host sample_realm sample_store (Ref ClsObject 2) keys = true /\ @own_path plain_host sample_realm s' (Ref ClsObject 2) keys = false /\
  (@has_loop plain_host sample_realm (@baseHas sample_realm) s' (Ref ClsObject 2) keys false Undefined).1.1 = false.
Proof.
  intros keys s'. split; [vm_compute; reflexivity|].
  apply (@unset_removes plain_host sample_realm sample_store (Ref ClsObject 2) keys s'); [done|done|vm_compute; reflexivity].
Defined.
